(* ===== verification/_CoqProject ===== *)
-Q . S2P
Prelude.v
Machine.v
Dyadic.v
FreeMap.v
FreeMapFacts.v
Buddy.v
BuddyBoot.v
BuddyInv.v
BuddyAlloc.v
BuddyFree.v
BuddyAudit.v
BuddyInit.v
BuddyTrace.v
BuddyCorrect.v
Cap.v
CapFacts.v
CapCorrect.v
Seccomp.v
Pledge.v
SeccompSys.v
SeccompFacts.v
PledgeFacts.v
SeccompRun.v
SeccompCorrect.v
OrdMap.v
OrdMapFacts.v
OrdMapCorrect.v
Wire.v
WireFacts.v
NetFacts.v
TokenBucket.v
TokenBucketFacts.v
Firewall.v
FirewallFacts.v
NetCorrect.v
Frag.v
FragFacts.v
FragRun.v
FragCache.v
FragBooks.v
FragCacheFacts.v
FragLanes.v
FragSystem.v
FragTrace.v
FragCorrect.v
Tcp.v
TcpFacts.v
TcpConn.v
TcpRecv.v
TcpOutput.v
TcpSendFacts.v
TcpSackFacts.v
NsBudget.v
TcpInput.v
TcpInputFacts.v
NsBudgetFacts.v
TcpCorrect.v
WaitQueue.v
WaitFacts.v
Waiting.v
Pipe.v
PipeCalls.v
PipeFacts.v
PipeRun.v
PipeTrace.v
PipeWake.v
PipeSteps.v
PipeLive.v
PipeCorrect.v
PipeCreate.v
PipeCharges.v
Locks.v
Sema.v
LockFacts.v
LockCorrect.v
Timed.v
TimerScan.v
TimedInv.v
TimedEvents.v
TimedCorrect.v
