(* ===== verification/Prelude.v ===== *)
(** * Verification of the Nilix kernel

    Nilix is a hybrid kernel written in Rust.  This library models parts of it
    as executable Rocq definitions translated from the sources under src/ and
    proves that they do what the kernel relies on.

    ** Parts and files

    - [Prelude]: results of operations ([Ok], [Err], [Panic]), vectors indexed
      by [usize], the [no_panic] hint database.  [Machine]: machine integers,
      bit words, sums.
    - Physical page allocator (src/kernel/mm/buddy_allocator.rs).  [FreeMap]
      models the fixed free bitmap ([FixedFreeMap], its layout and its
      word-wise search), [Buddy] the allocator state, [try_alloc_pages] and
      [try_free_pages], [BuddyBoot] construction, the audit
      [validate_metadata] and the kernel-wide entry points.  [Dyadic] and
      [FreeMapFacts] give the arithmetic of aligned blocks and of bit words.
      [BuddyInv] states the invariant: the bitmap holds exactly the maximal
      free blocks of the page states, allocations are well formed, counters and
      totals agree.  [BuddyAlloc], [BuddyFree], [BuddyAudit] and [BuddyInit]
      prove each operation against it, [BuddyTrace] runs sequences of
      operations, [BuddyCorrect] states the results.
    - Capability table (src/kernel/cap/types.rs, src/kernel/cap/lib.rs).  [Cap]
      models identifiers, entries and every operation of the table, [CapFacts]
      proves them against the invariant [cap_wf], which tracks outstanding
      reservations, [CapCorrect] states the results.
    - Syscall filtering (src/kernel/seccomp, and the callers in
      src/kernel/kernel_core/syscall.rs and process.rs).  [Seccomp] models
      filter programs, their interpreter, validation, the fast-allow bitmap and
      filter chains, [Pledge] promise sets, the semantic gate and the generated
      filters, [SeccompSys] the syscalls that install filters and the check on
      every syscall.  [SeccompFacts], [PledgeFacts] and [SeccompRun] carry the
      proofs, [SeccompCorrect] the results.
    - Packets (src/kernel/net/src/ipv4.rs, udp.rs, ethernet.rs, icmp.rs,
      admitted.rs and the frame construction of stack.rs).  [Wire] models the
      buffers with their headroom, checksums, parsers and builders,
      [TokenBucket] the ICMP limiter as one call and as interleaved atomic
      accesses, [Firewall] rules, tables by namespace and [next_hop].
      [WireFacts], [NetFacts], [TokenBucketFacts] and [FirewallFacts] carry the
      proofs, [NetCorrect] the results.  [FirewallFacts] also says what a policy
      means, field by field, without the functions that match and sort.
    - TCP (src/kernel/net/src/tcp.rs and the connection code of socket.rs).
      [Tcp] models sequence arithmetic, headers, options and builders, [TcpConn]
      the operations of [TcpControlBlock] on acknowledgements, congestion, the
      SACK scoreboard and the out-of-order queue, [TcpOutput] and [TcpInput] the
      handlers of socket.rs that send, acknowledge, retransmit, receive and
      read.  [TcpRecv] and [TcpInputFacts] relate the queue to intervals of a
      byte stream, [TcpSendFacts] and [TcpSackFacts] the send buffer to what is
      unacknowledged; sessions are the relations [receiving] and [sending].
    - Namespace memory budgets (socket.rs).  [NsBudget] models the counters and
      the steps of sends and acknowledgements of many connections on them,
      [NsBudgetFacts] the invariant of the send side.  The receive side is part of
      [TcpInput]: a segment passes the gate and is reconciled, and what the
      other connections do to the counters in between is an argument.
      [TcpCorrect] states the results of both TCP parts.
    - Ordered map (src/kernel/mm/fallible_map.rs).  [OrdMap] models the sorted
      vector with its operations, [OrdMapFacts] has its invariant and lemmas,
      [OrdMapCorrect] the refinement of a finite map.  [AdmittedMap] of
      src/kernel/net/src/admitted.rs is the same map with a charged backing.
    - Fragments (src/kernel/net/src/fragment.rs).  [Frag] models one queue: rate
      limiter, holes, insertion, reassembly; [FragFacts] and [FragRun] relate
      it to the bytes of a datagram.  [FragCache] models the cache: keys,
      budgets, the critical sections of [process_fragment] and the sweep.  A
      transaction between two sections is a [Phase]; the lanes of a [System]
      hold one each and [exec] runs one section, so traces are interleavings.
      A section holds its locks throughout and is one step; the two releases a
      rejected fragment makes without locks are steps of their own.
      [FragBooks] keeps tables of counters against a ledger, [FragCacheFacts]
      and [FragLanes] do so for each section, [FragSystem] for a lane beside
      the others, [FragTrace] for traces; [FragCorrect] states the results.
    - Wait queues (src/kernel/ipc/sync.rs).  [WaitQueue] models entries,
      capacity, arming, cancelling, waking and clean-up over what the queues see
      of a process: its state, its generation, pending signals and kills and the
      fields of its timed wait.  [WaitFacts] says what each operation does, [Waiting] who has an
      entry in which queue, for any family of queues.
    - Pipes (src/kernel/ipc/pipe.rs).  [Pipe] models the ring, the pipe and its
      status, [PipeCalls] the blocking calls cut where they take and release a
      lock, and a [System] of tasks, handles and processes driven by events in
      any order; its log is read by no definition.  [PipeFacts] treats the ring
      as a list, [PipeRun] says what one step does to the stream of bytes,
      [PipeTrace] keeps the invariant along a run, [PipeWake] and [PipeSteps]
      keep the sleepers', [PipeLive] has the calls that cannot stay,
      [PipeCorrect] the results.  [PipeCreate] models creation, the slot table
      and the heap class; [PipeCharges] has its books and results.
    - Mutex, condition variable and semaphore (src/kernel/ipc/sync.rs).  [Locks]
      and [Sema] cut their calls at every atomic access and queue lock.
      [LockFacts] keeps the holder's and the sleepers' invariants and counts
      permits, [LockCorrect] states the results.
    - Timed waits (src/kernel/ipc/sync.rs and the timeout code of
      src/kernel/kernel_core/process.rs).  [Timed] models the timer table, the
      timeout marker of a process, the drain of expired timers, and
      [try_prepare_inner], [finish_prepared] and the timer interrupt cut at their
      locks in a [TimedSystem] of waits, wakers, interrupts and queues; [close] is
      two steps, its store and its wake.
      [TimerScan] says what passes of the drain reach; [TimedInv] states the
      invariant and [TimedEvents] proves it event by event, [TimedCorrect] states
      the results.
    ** How the code is modelled

    Functions that update state take it and return it with their result; a
    failure is [Err] with the source's error value.  [Panic] stands for an
    abort of the kernel: an index out of range, a failed assertion, an [expect],
    or an unchecked addition or subtraction that leaves its type.  Where a
    theorem says an operation does not return [Panic], release builds do not
    wrap there either.  Machine integers are [Z] or, where everything is
    unsigned, [N], with the wrap-around or the check written out.  An operation
    runs under its lock; where the code drops a lock between two looks at the
    state the model takes both observations as arguments.  The atomic accesses
    of the limiter and the critical sections of the budgets are steps of their
    own and interleave.  Pipes, locks and timed waits run as tasks: a step is what a call does
    between two points at which it takes or releases a lock or touches an atomic,
    and any task may take the next one.  A task that has armed a wait keeps
    running until it blocks, and only the queue it waits on, its timer and
    interrupts make a task blocked there runnable.

    Code outside a component is an argument of the definitions that use it: the
    physical address mapping ([PhysArch]), what the heap admits ([CapHeap],
    [SeccompHeap]), user memory and the process table as a syscall observes them
    ([UserMemory], [Scene]).  Where a theorem needs something of such an
    argument it is a class of laws ([PhysArchLaws], [CapHeapLaws]), and the
    witness beside the theorem gives an instance.

    ** Termination and fuel

    Loops of the code that follow a list or a range are structural.  The filter
    interpreter is defined by well-founded recursion on the instructions left,
    so it is total.  The splitting and merging loops of the page allocator
    recurse on the eleven orders, the run and reservation loops on the pages of
    the window, the close-on-exec scan on the slots of the table: the fuel is
    that count, and the theorems that use these loops show the result is
    reached.
    A checksum is folded in at most four rounds, enough for any 32-bit sum.  The
    option walks of IPv4 and TCP have
    one round per byte and one more; the merge of out-of-order ranges one pass
    per queued range and two more, the segmentation one round per byte; the
    decay of an idle congestion window 33 halvings of a 32-bit number.  Lemmas
    show each of them is not exhausted.
    The sweep of expired fragment queues has one round per queue and each takes
    one out; a call of [process_fragment] alone has at most seven sections.
    The copies in and out of a pipe's ring have one round per byte and one more, and
    each round moves at least one byte.  The blocking calls are not given fuel: a run is
    a list of events and each event is one step of one call.
    The scan of the timer table has one round per entry.  Sequence numbers and wait
    generations count events, so runs of fewer than 2^62 of them wrap no counter.
    ** What the theorems show

    - Page allocator: each operation on every branch, errors included; double
      frees; allocation and release as inverse; safety of any sequence of
      operations; construction; the audit as a decision procedure for the
      invariant on ledgers without stray bits; the word-wise search against a reference scan.
    - Capabilities: no sequence of operations aborts or breaks the table (with
      debug assertions, none without reference-count operations); a
      revoked identifier never becomes valid again; allocation, delegation,
      fork, exec and reconciliation as functions on lookups.
    - Syscall filtering: validated programs always return; the fast path equals
      the interpreter; chains take the strictest answer; sandboxing is one-way
      over any sequence of calls; strict mode; generated filters and the
      semantic gate agree and are monotone; promise strings and user programs
      round-trip.
    - Packets: parsing accepts exactly the valid packets; frames round-trip; a
      single corrupted byte is detected; the limiter under any interleaving is
      bounded by burst and rate in every interval of time; the filter enforces the policy of the packet's own
      namespace after any history.
    - TCP: segments with options round-trip; what the reader gets is a prefix
      of the peer's stream whatever the network does, and only the removal of a
      namespace's counter by another connection can abort the kernel; the send buffer is exactly
      what is unacknowledged; the SACK sweep against its specification, with the
      case in which it marks nothing.  The peer's segments are assumed to be
      cut from one stream, at most 65535 bytes long and within 2^30 of the next
      expected byte, and the receive window at most 256 KiB.
    - Budgets: the send side keeps every namespace within its limit under any
      interleaving; the receive side does not: any idle connection's FIN takes
      the counter of its namespace away.
    - Ordered map: any sequence of operations answers as a finite map, ranges
      ascend, a reservation is kept.
    - Fragments: a queue stays well formed under any traffic, reassembles
      exactly, and completes for every order of a datagram's fragments; the
      books of the cache balance under every interleaving, limits of tenants are
      strict, namespaces do not touch each other; a call alone returns; the one
      abort is shown, with a trace that reaches it.  Times are below 2^57 ms.
    - Pipes: bytes come out once and in order, calls answer for exactly what they
      moved, small writes are atomic; no wake-up is lost while interrupts stay
      raised, with the trace that loses one when they do not; end of file is
      answered only without writers, and comes early whenever another reader copies;
      calls that may not block or are interrupted return; charges are exact and
      the slot table suffices.
    - Locks: the mutex excludes and wakes whoever waits, if callers release only
      what they hold; a notification reaches whoever registered; permits are
      conserved; the traces in which a stranger unlocks the mutex and in which a
      waiter sleeps beside a free permit.
    - Timed waits: a timeout is reported only after all of the time asked for and
      only by the wait's own timer, a wake only when the timer has not fired; a
      sleeper stays reachable for wakers and timer; passes of the drain reach
      every expired timer when all or none are contended, with the schedule in
      which a mixture starves one, and the run that leaves a sleeper on a closed
      queue.
    ** Not modelled

    Assembly, CPU registers, page tables, interrupts and device registers; weak
    memory and scheduling between processors; logging; the boot loader and user
    programs.  Of TCP: the handshake, initial sequence numbers and SYN cookies,
    the closing states after the peer's FIN, keepalive, the retransmission of a
    FIN, and the tables of connections.  Of inter-process communication: futexes and
    message endpoints.  Of the large subsystems (processes, file systems, sockets,
    control groups) only the parts named above are covered; the manifest lists
    every part with its status.  Test-only code is left out. *)

From Stdlib Require Import ZArith Lia.
From stdpp Require Import base list list_numbers numbers.

#[global] Open Scope Z_scope.

(** * Results of kernel operations

    [Ok]/[Err] are Rust's [Result]; [Panic] is an abort of the kernel: an
    out-of-range index, a failed [assert!], an [expect] on an error, or an
    unchecked [+]/[-] that leaves its type (a panic in the dev profile).  A
    theorem that an operation never returns [Panic] therefore also says that
    the release profile never wraps there. *)
Inductive res (E A : Type) : Type :=
| Ok (a : A)
| Err (e : E)
| Panic.
Arguments Ok {E A} a.
Arguments Err {E A} e.
Arguments Panic {E A}.

Definition res_bind {E A B} (r : res E A) (f : A -> res E B) : res E B :=
  match r with
  | Ok a => f a
  | Err e => Err e
  | Panic => Panic
  end.

(** [opt.ok_or(e)?] and the indexing/[expect] form that aborts. *)
Definition ok_or {E A} (o : option A) (e : E) : res E A :=
  match o with Some a => Ok a | None => Err e end.

Definition or_panic {E A} (o : option A) : res E A :=
  match o with Some a => Ok a | None => Panic end.

Declare Scope nilix_scope.
Delimit Scope nilix_scope with nilix.
Notation "'let?' x := c 'in' k" := (res_bind c (fun x => k))
  (at level 200, x pattern, right associativity) : nilix_scope.
#[global] Open Scope nilix_scope.

(** ** Operations that never abort *)
Create HintDb no_panic.

Section no_panic.
Context {E A B : Type}.

Lemma ok_no_panic (a : A) : Ok a <> @Panic E A.
Proof. done. Qed.

Lemma err_no_panic (e : E) : Err e <> @Panic E A.
Proof. done. Qed.

Lemma ok_or_no_panic (o : option A) (e : E) : ok_or o e <> Panic.
Proof. by destruct o. Qed.

Lemma res_bind_no_panic (r : res E A) (f : A -> res E B) :
  r <> Panic -> (forall a, f a <> Panic) -> res_bind r f <> Panic.
Proof. destruct r; simpl; auto. Qed.

Lemma res_bind_Ok (r : res E A) (f : A -> res E B) b : res_bind r f = Ok b -> exists a, r = Ok a /\ f a = Ok b.
Proof. destruct r; simpl; [eauto|done..]. Qed.
End no_panic.

#[export] Hint Resolve ok_no_panic err_no_panic ok_or_no_panic res_bind_no_panic : no_panic.

(** Split the conditions of an operation and close the branches. *)
Ltac no_panic := repeat case_match; eauto with no_panic.

(** * Vectors and slices indexed by [usize] *)
Section vectors.
Context {A : Type}.
Implicit Types (l : list A) (i j : Z).

Definition zlen l : Z := Z.of_nat (length l).
Definition zget l i : option A := if i <? 0 then None else l !! Z.to_nat i.
Definition zset l i (x : A) : list A := if i <? 0 then l else <[Z.to_nat i := x]> l.

Lemma zlen_nonneg l : 0 <= zlen l.
Proof. unfold zlen; lia. Qed.

Lemma zlen_cons x l : zlen (x :: l) = zlen l + 1.
Proof. unfold zlen. cbn [length]. lia. Qed.

Lemma zget_Some_range l i x : zget l i = Some x -> 0 <= i < zlen l.
Proof.
  unfold zget, zlen. destruct (Z.ltb_spec i 0); [done|].
  intros ?%lookup_lt_Some. lia.
Qed.

Lemma zget_range l i : 0 <= i < zlen l -> exists x, zget l i = Some x.
Proof.
  unfold zget, zlen. intros. destruct (Z.ltb_spec i 0); [lia|].
  apply lookup_lt_is_Some. lia.
Qed.

Lemma zget_None l i : i < 0 \/ zlen l <= i -> zget l i = None.
Proof.
  unfold zget, zlen. intros. destruct (Z.ltb_spec i 0); [done|].
  apply lookup_ge_None. lia.
Qed.

Lemma zlen_zset l i x : zlen (zset l i x) = zlen l.
Proof. unfold zlen, zset. destruct (i <? 0); [done|]. by rewrite length_insert. Qed.

Lemma zget_zset_eq l i x : 0 <= i < zlen l -> zget (zset l i x) i = Some x.
Proof.
  unfold zget, zset, zlen. intros. destruct (Z.ltb_spec i 0); [lia|].
  apply list_lookup_insert_eq. lia.
Qed.

Lemma zget_zset_ne l i j x : i <> j -> zget (zset l i x) j = zget l j.
Proof.
  unfold zget, zset. intros. destruct (Z.ltb_spec j 0), (Z.ltb_spec i 0); try done.
  apply list_lookup_insert_ne. lia.
Qed.

Lemma zset_out l i x : ~ (0 <= i < zlen l) -> zset l i x = l.
Proof.
  unfold zset, zlen. intros. destruct (Z.ltb_spec i 0); [done|].
  apply list_insert_ge. lia.
Qed.

Lemma zget_replicate n x i : 0 <= i < Z.of_nat n -> zget (replicate n x) i = Some x.
Proof.
  unfold zget. intros. destruct (Z.ltb_spec i 0); [lia|].
  apply lookup_replicate_2. lia.
Qed.

Lemma zlen_replicate n x : zlen (replicate n x) = Z.of_nat n.
Proof. unfold zlen. by rewrite length_replicate. Qed.

Lemma zlist_ext l1 l2 :
  zlen l1 = zlen l2 ->
  (forall i, 0 <= i < zlen l1 -> zget l1 i = zget l2 i) -> l1 = l2.
Proof.
  unfold zlen, zget. intros Hlen H. apply list_eq. intros n.
  destruct (decide (n < length l1)%nat) as [Hn|Hn].
  - specialize (H (Z.of_nat n) ltac:(lia)).
    destruct (Z.ltb_spec (Z.of_nat n) 0); [lia|].
    by rewrite Nat2Z.id in H.
  - rewrite !lookup_ge_None_2; [done|lia|lia].
Qed.

Lemma zlen_app l1 l2 : zlen (l1 ++ l2) = zlen l1 + zlen l2.
Proof. unfold zlen. rewrite length_app. lia. Qed.

Lemma zget_app l1 l2 i :
  zget (l1 ++ l2) i = if i <? zlen l1 then zget l1 i else zget l2 (i - zlen l1).
Proof.
  unfold zget, zlen. destruct (Z.ltb_spec i (Z.of_nat (length l1))), (Z.ltb_spec i 0); try lia; try done.
  - apply lookup_app_l. lia.
  - destruct (Z.ltb_spec (i - Z.of_nat (length l1)) 0); [lia|].
    rewrite lookup_app_r by lia. f_equal. lia.
Qed.

Lemma zget_take_drop l a i : 0 <= a <= zlen l -> 0 <= i ->
  zget (take (Z.to_nat a) l) i = (if i <? a then zget l i else None) /\
  zget (drop (Z.to_nat a) l) i = zget l (a + i).
Proof.
  intros Ha Hi. unfold zget. destruct (Z.ltb_spec i 0), (Z.ltb_spec (a + i) 0); try lia. split.
  - destruct (Z.ltb_spec i a); [apply lookup_take_lt; lia|]. apply lookup_take_ge. lia.
  - rewrite lookup_drop. f_equal. lia.
Qed.

Lemma zlen_take n l : 0 <= n <= zlen l -> zlen (take (Z.to_nat n) l) = n.
Proof. unfold zlen. rewrite length_take. lia. Qed.

Lemma zlen_drop n l : 0 <= n <= zlen l -> zlen (drop (Z.to_nat n) l) = zlen l - n.
Proof. unfold zlen. rewrite length_drop. lia. Qed.

Lemma zget_in l i x : zget l i = Some x -> x ∈ l.
Proof.
  unfold zget. destruct (i <? 0); [done|]. apply list_elem_of_lookup_2.
Qed.

Lemma in_zget l x : x ∈ l -> exists i, zget l i = Some x.
Proof.
  intros [n Hn]%list_elem_of_lookup_1. exists (Z.of_nat n). unfold zget.
  destruct (Z.ltb_spec (Z.of_nat n) 0); [lia|]. by rewrite Nat2Z.id.
Qed.

(** The first [Some] answer of [f] along [l]: a [for] loop that returns from
    its body, or [Iterator::find_map]. *)
Fixpoint first_some {B} (f : A -> option B) l : option B :=
  match l with
  | [] => None
  | x :: l => match f x with Some y => Some y | None => first_some f l end
  end.

Lemma first_some_Some {B} (f : A -> option B) l y :
  first_some f l = Some y -> exists x, x ∈ l /\ f x = Some y.
Proof.
  induction l as [|x l IH]; simpl; [done|].
  destruct (f x) eqn:E; intros; simplify_eq.
  - exists x. split; [by left|done].
  - destruct IH as (x' & ? & ?); [done|]. exists x'. split; [by right|done].
Qed.

Lemma first_some_None {B} (f : A -> option B) l :
  first_some f l = None <-> forall x, x ∈ l -> f x = None.
Proof.
  induction l as [|x l IH]; simpl.
  - split; [|done]. intros _ x Hx. by apply elem_of_nil in Hx.
  - destruct (f x) eqn:E.
    + split; [done|]. intros H. specialize (H x ltac:(by left)). congruence.
    + rewrite IH. split.
      * intros H x' [->|Hx]%elem_of_cons; [done|]. by apply H.
      * intros H x' Hx. apply H. by right.
Qed.

Lemma first_some_app {B} (f : A -> option B) l1 l2 :
  first_some f (l1 ++ l2) =
    match first_some f l1 with Some y => Some y | None => first_some f l2 end.
Proof. induction l1 as [|x l1 IH]; simpl; [done|]. by destruct (f x). Qed.

Lemma first_some_ext {B} (f g : A -> option B) l :
  (forall x, x ∈ l -> f x = g x) -> first_some f l = first_some g l.
Proof.
  induction l as [|x l IH]; simpl; intros H; [done|].
  rewrite (H x) by (by left). rewrite IH; [done|]. intros. apply H. by right.
Qed.

Lemma first_some_map {B C} (g : B -> C) (f : A -> option B) l :
  first_some (fun x => g <$> f x) l = g <$> first_some f l.
Proof. induction l as [|x l IH]; simpl; [done|]. by destruct (f x). Qed.
End vectors.

Lemma first_some_fmap {A A' B} (f : A -> option B) (g : A' -> A) l :
  first_some f (g <$> l) = first_some (fun x => f (g x)) l.
Proof. induction l as [|x l IH]; csimpl; [done|]. by destruct (f (g x)). Qed.

Lemma existsb_false_iff {A} (f : A -> bool) l : existsb f l = false <-> forall x, x ∈ l -> f x = false.
Proof.
  induction l as [|x l IH]; simpl.
  - split; [|done]. intros _ x Hx. by apply elem_of_nil in Hx.
  - rewrite orb_false_iff, IH. split.
    + intros [? ?] y [->|?]%elem_of_cons; auto.
    + intros H. split; [apply H; by left|]. intros y Hy. apply H. by right.
Qed.
