(* ===== verification/Machine.v ===== *)
(** Machine integers: the [usize]/[u64] arithmetic of the kernel on [Z], with
    the checked and saturating operations of Rust's core library, bit-level
    operations on 64-bit words, power-of-two alignment, and finite sums. *)

From Stdlib Require Import ZArith Lia.
From stdpp Require Import base list list_numbers numbers.
From S2P Require Import Prelude.

(** * Checked and saturating arithmetic *)
Definition u64_max : Z := 2 ^ 64 - 1.
Definition usize_max : Z := u64_max.

Definition u32_max : Z := 2 ^ 32 - 1.
Definition checked_add (a b : Z) : option Z :=
  if a + b <=? usize_max then Some (a + b) else None.
Definition checked_sub (a b : Z) : option Z :=
  if b <=? a then Some (a - b) else None.
Definition checked_mul (a b : Z) : option Z :=
  if a * b <=? usize_max then Some (a * b) else None.
Definition saturating_add (a b : Z) : Z := Z.min (a + b) usize_max.
Definition saturating_sub (a b : Z) : Z := Z.max (a - b) 0.
Definition saturating_mul (a b : Z) : Z := Z.min (a * b) usize_max.
(** [a.is_multiple_of(b)] *)
Definition is_multiple_of (a b : Z) : bool := a mod b =? 0.

Ltac zb :=
  repeat match goal with
  | H : context [?a <? ?b] |- _ => destruct (Z.ltb_spec a b)
  | H : context [?a <=? ?b] |- _ => destruct (Z.leb_spec a b)
  | H : context [?a =? ?b] |- _ => destruct (Z.eqb_spec a b)
  | |- context [?a <? ?b] => destruct (Z.ltb_spec a b)
  | |- context [?a <=? ?b] => destruct (Z.leb_spec a b)
  | |- context [?a =? ?b] => destruct (Z.eqb_spec a b)
  end; simpl in *.

Lemma checked_add_Some a b : a + b <= usize_max -> checked_add a b = Some (a + b).
Proof. intros. unfold checked_add. zb; [done|lia]. Qed.

Lemma checked_add_inv a b c : checked_add a b = Some c -> c = a + b /\ a + b <= usize_max.
Proof. unfold checked_add. intros. zb; [by simplify_eq|done]. Qed.

Lemma checked_mul_Some a b : a * b <= usize_max -> checked_mul a b = Some (a * b).
Proof. intros. unfold checked_mul. zb; [done|lia]. Qed.

Lemma checked_sub_Some a b : b <= a -> checked_sub a b = Some (a - b).
Proof. intros. unfold checked_sub. zb; [done|lia]. Qed.

(** * Bits of a 64-bit word *)

(** [!x] on [u64]. *)
Definition u64_not (x : Z) : Z := u64_max - x.

(** [x.trailing_zeros()] (64 when [x] is zero) and [x.count_ones()]. *)
Definition trailing_zeros (x : Z) : Z :=
  default 64 (first_some (fun i => if Z.testbit x i then Some i else None) (seqZ 0 64)).
Definition count_ones (x : Z) : Z :=
  foldr (fun i n => Z.b2z (Z.testbit x i) + n) 0 (seqZ 0 64).

Definition is_u64 (x : Z) : Prop := 0 <= x < 2 ^ 64.

Lemma shiftl_1 n : 0 <= n -> Z.shiftl 1 n = 2 ^ n.
Proof. intros. rewrite Z.shiftl_mul_pow2 by lia. lia. Qed.

Lemma pow2_pos n : 0 <= n -> 0 < 2 ^ n.
Proof. intros. by apply Z.pow_pos_nonneg. Qed.

Lemma testbit_pow2 n i : 0 <= n -> Z.testbit (2 ^ n) i = (n =? i).
Proof.
  intros. destruct (Z.eqb_spec n i) as [->|?].
  - by apply Z.pow2_bits_true.
  - by apply Z.pow2_bits_false.
Qed.

Lemma u64_testbit_high x i : is_u64 x -> 64 <= i -> Z.testbit x i = false.
Proof.
  intros [? Hx] ?. destruct (decide (x = 0)) as [->|]; [apply Z.bits_0|].
  apply Z.bits_above_log2; [lia|].
  assert (Z.log2 x < 64) by (apply Z.log2_lt_pow2; lia). lia.
Qed.

Lemma testbit_is_u64 x : 0 <= x -> (forall i, 64 <= i -> Z.testbit x i = false) -> is_u64 x.
Proof.
  intros Hx H. split; [done|]. destruct (decide (x < 2 ^ 64)) as [|Hn]; [done|exfalso].
  assert (64 <= Z.log2 x) by (apply Z.log2_le_pow2; lia).
  specialize (H (Z.log2 x) ltac:(lia)). rewrite Z.bit_log2 in H; [done|lia].
Qed.

Lemma u64_not_testbit x i : is_u64 x -> 0 <= i < 64 -> Z.testbit (u64_not x) i = negb (Z.testbit x i).
Proof.
  intros Hx Hi. unfold u64_not, u64_max.
  replace (2 ^ 64 - 1 - x) with (Z.ldiff (Z.ones 64) x).
  - rewrite Z.ldiff_spec, Z.ones_spec_low by lia. done.
  - rewrite <- Z.sub_nocarry_ldiff; [by rewrite Z.ones_equiv; lia|].
    apply Z.bits_inj'. intros k Hk. rewrite Z.ldiff_spec, Z.bits_0.
    destruct (decide (k < 64)).
    + rewrite Z.ones_spec_low by lia. apply andb_false_r.
    + by rewrite (u64_testbit_high x) by (done || lia).
Qed.

Lemma set_bit_testbit w k i :
  0 <= k -> Z.testbit (Z.lor w (2 ^ k)) i = orb (k =? i) (Z.testbit w i).
Proof. intros. rewrite Z.lor_spec, testbit_pow2 by done. apply orb_comm. Qed.

Lemma set_bit_u64 w k : is_u64 w -> 0 <= k < 64 -> is_u64 (Z.lor w (2 ^ k)).
Proof.
  intros Hw Hk. apply testbit_is_u64.
  - apply Z.lor_nonneg. destruct Hw. pose proof (pow2_pos k). lia.
  - intros i Hi. rewrite set_bit_testbit by lia.
    rewrite (u64_testbit_high w) by (done || lia). zb; [lia|done].
Qed.

Lemma pow2_u64 k : 0 <= k < 64 -> is_u64 (2 ^ k).
Proof.
  intros. split; [apply Z.pow_nonneg; lia|]. apply Z.pow_lt_mono_r; lia.
Qed.

Lemma clear_bit_testbit w k i :
  is_u64 w -> 0 <= k < 64 -> 0 <= i ->
  Z.testbit (Z.land w (u64_not (2 ^ k))) i = andb (Z.testbit w i) (negb (k =? i)).
Proof.
  intros Hw Hk Hi. rewrite Z.land_spec. destruct (decide (i < 64)).
  - rewrite u64_not_testbit, testbit_pow2 by (lia || by apply pow2_u64). done.
  - by rewrite (u64_testbit_high w) by (done || lia).
Qed.

Lemma clear_bit_u64 w k : is_u64 w -> 0 <= k < 64 -> is_u64 (Z.land w (u64_not (2 ^ k))).
Proof.
  intros Hw Hk. apply testbit_is_u64.
  - apply Z.land_nonneg. left. apply Hw.
  - intros i Hi. rewrite Z.land_spec, (u64_testbit_high w) by (done || lia). done.
Qed.

(** [word & mask != 0] for a single-bit mask. *)
Lemma land_pow2_testbit w k : 0 <= k -> negb (Z.land w (2 ^ k) =? 0) = Z.testbit w k.
Proof.
  intros. destruct (Z.testbit w k) eqn:E.
  - destruct (Z.eqb_spec (Z.land w (2 ^ k)) 0) as [H0|]; [|done].
    assert (Z.testbit (Z.land w (2 ^ k)) k = true) as H1.
    { rewrite Z.land_spec, E, testbit_pow2 by done. by rewrite Z.eqb_refl. }
    by rewrite H0, Z.bits_0 in H1.
  - replace (Z.land w (2 ^ k)) with 0; [done|]. symmetry.
    apply Z.bits_inj'. intros i Hi. rewrite Z.land_spec, testbit_pow2, Z.bits_0 by done.
    destruct (Z.eqb_spec k i) as [->|]; [by rewrite E|]. apply andb_false_r.
Qed.

Lemma trailing_zeros_spec x :
  is_u64 x -> x <> 0 ->
  0 <= trailing_zeros x < 64 /\ Z.testbit x (trailing_zeros x) = true.
Proof.
  intros Hx Hn. unfold trailing_zeros.
  destruct (first_some _ _) as [k|] eqn:E; simpl.
  - apply first_some_Some in E as (i & Hi%elem_of_seqZ & E).
    destruct (Z.testbit x i) eqn:?; simplify_eq. split; [lia|done].
  - exfalso. rewrite first_some_None in E. apply Hn, Z.bits_inj'. intros i Hi.
    rewrite Z.bits_0. destruct (decide (i < 64)) as [Hlt|].
    + specialize (E i). rewrite elem_of_seqZ in E. specialize (E ltac:(lia)).
      by destruct (Z.testbit x i).
    + apply u64_testbit_high; [done|lia].
Qed.

Lemma b2z_bounds b : 0 <= Z.b2z b <= 1.
Proof. by destruct b. Qed.

(** * Power-of-two alignment: [idx & (2^o - 1)], [idx >> o], [idx ^ 2^o] *)

Lemma land_pow2_mod x o : 0 <= o -> Z.land x (2 ^ o - 1) = x mod 2 ^ o.
Proof.
  intros. replace (2 ^ o - 1) with (Z.ones o) by (rewrite Z.ones_equiv; lia).
  by apply Z.land_ones.
Qed.

(** Packing a field below a shifted one. *)
Lemma lor_pack x k y : 0 <= k -> 0 <= y < 2 ^ k -> Z.lor (x * 2 ^ k) y = x * 2 ^ k + y.
Proof.
  intros Hk Hy. pose proof (Z.add_lor_land (x * 2 ^ k) y) as H.
  assert (Z.land (x * 2 ^ k) y = 0) as E; [|rewrite E, Z.add_0_r in H; done]. apply Z.bits_inj'. intros n Hn.
  rewrite Z.land_spec, Z.bits_0. destruct (decide (n < k)).
  - by rewrite Z.mul_pow2_bits_low by lia.
  - destruct (decide (y = 0)) as [->|]; [by rewrite Z.bits_0, andb_false_r|].
    rewrite (Z.bits_above_log2 y), andb_false_r; [done|lia|]. apply Z.log2_lt_pow2; [lia|].
    assert (2 ^ k <= 2 ^ n) by (apply Z.pow_le_mono_r; lia). lia.
Qed.

Lemma lxor_1 k : 0 <= k -> Z.lxor k 1 = if Z.even k then k + 1 else k - 1.
Proof.
  intros. assert (Z.lxor k 1 = 2 * (k / 2) + Z.b2z (negb (Z.odd k))) as ->.
  { apply Z.bits_inj'. intros i Hi. rewrite Z.lxor_spec.
    destruct (decide (i = 0)) as [->|].
    - rewrite Z.testbit_0_r, Z.bit0_odd. change (Z.testbit 1 0) with true.
      by destruct (Z.odd k).
    - replace i with (Z.succ (i - 1)) by lia.
      rewrite Z.testbit_succ_r by lia.
      rewrite <- (Z.div2_bits k) by lia.
      replace (Z.testbit 1 (Z.succ (i - 1))) with false; [apply xorb_false_r|].
      symmetry. apply (Z.pow2_bits_false 0). lia. }
  pose proof (Z.div_mod k 2 ltac:(lia)) as Hk. rewrite Zmod_odd in Hk.
  rewrite <- Z.negb_odd. destruct (Z.odd k); simpl; lia.
Qed.

Lemma lxor_pow2 k o : 0 <= k -> 0 <= o -> Z.lxor (k * 2 ^ o) (2 ^ o) = Z.lxor k 1 * 2 ^ o.
Proof.
  intros. rewrite <- (Z.mul_1_l (2 ^ o)) at 2.
  rewrite <- !Z.shiftl_mul_pow2 by lia. symmetry. apply Z.shiftl_lxor.
Qed.

(** * Finite sums *)
Section sums.
Context {A : Type}.
Implicit Types (f g : A -> Z) (l : list A).

Definition sumZ f l : Z := foldr (fun x a => f x + a) 0 l.

Lemma sumZ_cons f x l : sumZ f (x :: l) = f x + sumZ f l.
Proof. done. Qed.

Lemma sumZ_app f l1 l2 : sumZ f (l1 ++ l2) = sumZ f l1 + sumZ f l2.
Proof. induction l1; simpl; [done|]. lia. Qed.

#[export] Instance sumZ_Permutation f : Proper ((≡ₚ) ==> (=)) (sumZ f).
Proof. unfold sumZ. induction 1; simpl; lia. Qed.

Lemma sumZ_ext f g l : (forall x, x ∈ l -> f x = g x) -> sumZ f l = sumZ g l.
Proof.
  induction l as [|x l IH]; intros H; simpl; [done|].
  rewrite (H x) by (by left). rewrite IH; [done|]. intros. apply H. by right.
Qed.

Lemma sumZ_add f g l : sumZ (fun x => f x + g x) l = sumZ f l + sumZ g l.
Proof. induction l; simpl; lia. Qed.

Lemma sumZ_mul c f l : sumZ (fun x => c * f x) l = c * sumZ f l.
Proof. induction l; simpl; lia. Qed.

Lemma sumZ_const c l : sumZ (fun _ => c) l = c * zlen l.
Proof. unfold zlen. induction l; simpl; lia. Qed.

Lemma sumZ_le f g l : (forall x, x ∈ l -> f x <= g x) -> sumZ f l <= sumZ g l.
Proof.
  induction l as [|x l IH]; intros H; simpl; [done|].
  pose proof (H x ltac:(by left)).
  assert (sumZ f l <= sumZ g l) by (apply IH; intros; apply H; by right). lia.
Qed.

Lemma sumZ_nonneg f l : (forall x, x ∈ l -> 0 <= f x) -> 0 <= sumZ f l.
Proof.
  intros H. pose proof (sumZ_le (fun _ => 0) f l H). rewrite sumZ_const in *. lia.
Qed.

Lemma sumZ_zero f l : (forall x, x ∈ l -> f x = 0) -> sumZ f l = 0.
Proof. intros H. rewrite (sumZ_ext f (fun _ => 0)) by done. rewrite sumZ_const. lia. Qed.

Lemma sumZ_pos_ex f l : 0 < sumZ f l -> exists x, x ∈ l /\ 0 < f x.
Proof.
  induction l as [|x l IH]; simpl; [lia|]. intros.
  destruct (decide (0 < f x)) as [|Hx]; [exists x; split; [by left|done]|].
  destruct IH as (y & ? & ?); [lia|]. exists y. split; [by right|done].
Qed.

Lemma sumZ_ge_elem f l x :
  (forall y, y ∈ l -> 0 <= f y) -> x ∈ l -> f x <= sumZ f l.
Proof.
  induction l as [|y l IH]; intros H; [by intros ?%elem_of_nil|]. simpl.
  pose proof (H y ltac:(by left)).
  assert (0 <= sumZ f l) by (apply sumZ_nonneg; intros; apply H; by right).
  intros [->|Hx]%elem_of_cons; [lia|].
  assert (f x <= sumZ f l) by (apply IH; [intros; apply H; by right|done]). lia.
Qed.

Lemma sumZ_ge_two f l x y :
  (forall z, z ∈ l -> 0 <= f z) -> x ∈ l -> y ∈ l -> x <> y -> f x + f y <= sumZ f l.
Proof.
  induction l as [|z l IH]; intros H; [by intros ?%elem_of_nil|]. simpl.
  pose proof (H z ltac:(by left)).
  assert (forall w, w ∈ l -> 0 <= f w) as Hl by (intros; apply H; by right).
  intros [->|Hx]%elem_of_cons [->|Hy]%elem_of_cons Hne.
  - done.
  - pose proof (sumZ_ge_elem f l y Hl Hy). lia.
  - pose proof (sumZ_ge_elem f l x Hl Hx). lia.
  - pose proof (IH Hl Hx Hy Hne). lia.
Qed.

(** Two functions that differ at one element of a duplicate-free list. *)
Lemma sumZ_update f g l x :
  NoDup l -> x ∈ l -> (forall y, y ∈ l -> y <> x -> g y = f y) ->
  sumZ g l = sumZ f l + (g x - f x).
Proof.
  induction 1 as [|y l Hy Hl IH]; [by intros ?%elem_of_nil|]. simpl.
  intros [->|Hx]%elem_of_cons Hne.
  - rewrite (sumZ_ext g f); [lia|]. intros z Hz. apply Hne; [by right|congruence].
  - rewrite IH; [|done|]; [|intros; apply Hne; [by right|done]].
    rewrite (Hne y); [lia|by left|congruence].
Qed.
End sums.

Lemma sumZ_exchange {A B} (f : A -> B -> Z) l m :
  sumZ (fun a => sumZ (f a) m) l = sumZ (fun b => sumZ (fun a => f a b) l) m.
Proof.
  induction l as [|a l IH]; simpl.
  - symmetry. by apply sumZ_zero.
  - rewrite IH. symmetry. apply (sumZ_add (f a)).
Qed.

Lemma seqZ_split m n k : 0 <= k <= n -> seqZ m n = seqZ m k ++ seqZ (m + k) (n - k).
Proof. intros. rewrite <- seqZ_app by lia. f_equal. lia. Qed.

Lemma zlen_seqZ m n : 0 <= n -> zlen (seqZ m n) = n.
Proof. intros. unfold zlen. rewrite length_seqZ. lia. Qed.

Lemma sumZ_shift (f : Z -> Z) a m n : sumZ f (seqZ (a + m) n) = sumZ (fun i => f (a + i)) (seqZ m n).
Proof.
  rewrite <- fmap_add_seqZ. induction (seqZ m n) as [|x l IH]; csimpl; [done|].
  by rewrite IH.
Qed.

Lemma sumZ_tile (f : Z -> Z) k n :
  0 < k -> 0 <= n ->
  sumZ f (seqZ 0 (k * n)) = sumZ (fun w => sumZ (fun i => f (k * w + i)) (seqZ 0 k)) (seqZ 0 n).
Proof.
  intros Hk. revert n. refine (natlike_ind _ _ _).
  - by rewrite Z.mul_0_r.
  - intros n Hn IH. rewrite (seqZ_split 0 (k * Z.succ n) (k * n)) by nia.
    rewrite (seqZ_split 0 (Z.succ n) n) by lia. rewrite !sumZ_app, IH. f_equal.
    replace (k * Z.succ n - k * n) with k by lia. replace (Z.succ n - n) with 1 by lia.
    change (seqZ (0 + n) 1) with [0 + n]. simpl. rewrite !Z.add_0_l, Z.add_0_r.
    rewrite <- (Z.add_0_r (k * n)) at 1. apply sumZ_shift.
Qed.

Lemma sumZ_extend (f : Z -> Z) n m :
  0 <= n <= m -> (forall i, n <= i < m -> f i = 0) ->
  sumZ f (seqZ 0 m) = sumZ f (seqZ 0 n).
Proof.
  intros Hn H. rewrite (seqZ_split 0 m n) by lia. rewrite sumZ_app.
  rewrite (sumZ_zero f (seqZ (0 + n) _)); [lia|].
  intros i Hi%elem_of_seqZ. apply H. lia.
Qed.

(** A search over consecutive numbers, shifted, and grouped by words of [k]. *)
Lemma first_some_shift {B} (f : Z -> option B) a m n :
  first_some f (seqZ (a + m) n) = first_some (fun i => f (a + i)) (seqZ m n).
Proof. rewrite <- fmap_add_seqZ. apply first_some_fmap. Qed.

Lemma first_some_tile {B} (f : Z -> option B) k a n :
  0 < k -> 0 <= n ->
  first_some f (seqZ (k * a) (k * n)) =
  first_some (fun w => first_some f (seqZ (k * w) k)) (seqZ a n).
Proof.
  intros Hk. revert n. refine (natlike_ind _ _ _).
  - by rewrite Z.mul_0_r.
  - intros n Hn IH. rewrite (seqZ_split (k * a) (k * Z.succ n) (k * n)) by nia.
    rewrite (seqZ_split a (Z.succ n) n) by lia. rewrite !first_some_app, IH.
    replace (k * Z.succ n - k * n) with k by lia. replace (Z.succ n - n) with 1 by lia.
    change (seqZ (a + n) 1) with [a + n]. simpl.
    replace (k * (a + n)) with (k * a + k * n) by lia. by destruct (first_some f (seqZ _ k)).
Qed.

(** Changing a summand on one interval changes the sum by that interval's part. *)
Lemma sumZ_interval (f g : Z -> Z) lo n m :
  0 <= lo -> 0 <= n -> lo + n <= m ->
  (forall i, ~ (lo <= i < lo + n) -> g i = f i) ->
  sumZ g (seqZ 0 m) = sumZ f (seqZ 0 m) + (sumZ g (seqZ lo n) - sumZ f (seqZ lo n)).
Proof.
  intros Hlo Hn Hm H. rewrite (seqZ_split 0 m lo) by lia.
  rewrite (seqZ_split (0 + lo) (m - lo) n) by lia. rewrite !sumZ_app, Z.add_0_l.
  rewrite (sumZ_ext g f (seqZ 0 lo)) by (intros i Hi%elem_of_seqZ; apply H; lia).
  rewrite (sumZ_ext g f (seqZ (lo + n) _)) by (intros i Hi%elem_of_seqZ; apply H; lia). lia.
Qed.

Lemma sumZ_seq_const (f : Z -> Z) lo n c :
  0 <= n -> (forall i, lo <= i < lo + n -> f i = c) -> sumZ f (seqZ lo n) = c * n.
Proof.
  intros Hn H. rewrite (sumZ_ext f (fun _ => c)).
  - rewrite sumZ_const, zlen_seqZ by lia. done.
  - intros i Hi%elem_of_seqZ. apply H. lia.
Qed.
