(* ===== verification/Dyadic.v ===== *)
(** Dyadic blocks: block [(o, b)] is the set of pages [p] with [p / 2^o = b].

    The free-block index of a buddy allocator is meant to hold exactly the
    maximal free dyadic blocks ([maxfree]).  This file has the theory of
    maximal blocks over an arbitrary page predicate, and the one lemma both
    splitting and merging rest on: how the maximal blocks change when a block
    is removed from a maximal block ([maxfree_remove]). *)

From Stdlib Require Import ZArith Lia.
From stdpp Require Import base list list_numbers numbers.
From S2P Require Import Prelude.
From S2P Require Import Machine.

(** The largest order of a block. *)
Definition TOP : Z := 10.

Section dyadic.
Implicit Types (F : Z -> bool) (o b p : Z).

Definition allfree F o b : bool := forallb F (seqZ (b * 2 ^ o) (2 ^ o)).

Definition maxfree F o b : bool :=
  allfree F o b && ((o =? TOP) || negb (allfree F (o + 1) (b / 2))).

Lemma in_block o b p : 0 <= o -> p / 2 ^ o = b <-> b * 2 ^ o <= p < (b + 1) * 2 ^ o.
Proof.
  intros. pose proof (pow2_pos o ltac:(done)) as Hp.
  pose proof (Z.div_mod p (2 ^ o) ltac:(lia)). pose proof (Z.mod_pos_bound p (2 ^ o) Hp).
  split; [intros <-; nia|]. intros. symmetry. apply (Z.div_unique p (2 ^ o) b (p - b * 2 ^ o)); lia.
Qed.

Lemma block_head o b : 0 <= o -> (b * 2 ^ o) / 2 ^ o = b.
Proof. intros. apply Z.div_mul. pose proof (pow2_pos o). lia. Qed.

(** The ancestor of a block, and of its pages, at a higher order. *)
Lemma div_pow2_up p o o' : 0 <= o <= o' -> p / 2 ^ o' = p / 2 ^ o / 2 ^ (o' - o).
Proof.
  intros. rewrite Z.div_div by (pose proof (pow2_pos o); pose proof (pow2_pos (o' - o)); lia).
  rewrite <- Z.pow_add_r by lia. f_equal. f_equal. lia.
Qed.

Lemma half_up b n : 0 < n -> b / 2 ^ n = b / 2 / 2 ^ (n - 1).
Proof. intros. apply (div_pow2_up b 1 n). lia. Qed.

Lemma up_half b n : 0 <= n -> b / 2 ^ (n + 1) = b / 2 ^ n / 2.
Proof.
  intros. rewrite (div_pow2_up b n (n + 1)) by lia.
  replace (n + 1 - n) with 1 by lia. done.
Qed.

Lemma lxor1_half b : 0 <= b -> Z.lxor b 1 / 2 = b / 2.
Proof.
  intros. rewrite lxor_1 by done. pose proof (Zmod_even b).
  destruct (Z.even b); Z.to_euclidean_division_equations; lia.
Qed.

Lemma half_eq_cases a b : 0 <= a -> a / 2 = b / 2 <-> b = a \/ b = Z.lxor a 1.
Proof.
  intros Ha. split.
  - intros H. rewrite lxor_1 by done. pose proof (Zmod_even a).
    destruct (Z.even a); Z.to_euclidean_division_equations; lia.
  - intros [->| ->]; [done|]. symmetry. by apply lxor1_half.
Qed.

Lemma lxor1_ne b : 0 <= b -> Z.lxor b 1 <> b.
Proof. intros. rewrite lxor_1 by done. destruct (Z.even b); lia. Qed.

Lemma lxor1_nonneg b : 0 <= b -> 0 <= Z.lxor b 1.
Proof. intros. apply Z.lxor_nonneg. lia. Qed.

Lemma allfree_spec F o b : 0 <= o -> allfree F o b = true <-> forall p, p / 2 ^ o = b -> F p = true.
Proof.
  intros. unfold allfree. rewrite forallb_forall. split.
  - intros Hf p Hp. apply Hf. apply list_elem_of_In, elem_of_seqZ.
    apply in_block in Hp; [|done]. lia.
  - intros Hf p Hp%list_elem_of_In%elem_of_seqZ. apply Hf. apply in_block; [done|lia].
Qed.

Lemma allfree_false F o b p : 0 <= o -> p / 2 ^ o = b -> F p = false -> allfree F o b = false.
Proof.
  intros Ho Hp Hf. destruct (allfree F o b) eqn:E; [|done].
  rewrite allfree_spec in E by done. rewrite E in Hf; done.
Qed.

Lemma allfree_ext F G o b :
  0 <= o -> (forall p, p / 2 ^ o = b -> F p = G p) -> allfree F o b = allfree G o b.
Proof.
  intros Ho H. apply eq_true_iff_eq. rewrite !allfree_spec by done.
  split; intros Hf p Hp; [rewrite <- H|rewrite H]; auto.
Qed.

(** Blocks inside a free block are free. *)
Lemma allfree_down F o b o' b' :
  0 <= o' <= o -> b' / 2 ^ (o - o') = b -> allfree F o b = true -> allfree F o' b' = true.
Proof.
  intros Ho Hb. rewrite !allfree_spec by lia. intros Hf p Hp. apply Hf.
  rewrite (div_pow2_up p o' o) by lia. by rewrite Hp.
Qed.

(** Two free buddies make a free parent. *)
Lemma allfree_join F o b :
  0 <= o -> 0 <= b -> allfree F o b = true -> allfree F o (Z.lxor b 1) = true ->
  allfree F (o + 1) (b / 2) = true.
Proof.
  intros Ho Hb. rewrite !allfree_spec by lia. intros H1 H2 p Hp.
  rewrite up_half in Hp by lia. symmetry in Hp. apply half_eq_cases in Hp as [Hp|Hp]; auto.
Qed.

Lemma maxfree_allfree F o b : maxfree F o b = true -> allfree F o b = true.
Proof. unfold maxfree. by intros [? _]%andb_prop. Qed.

(** No free block properly contains a maximal one. *)
Lemma maxfree_above F o b o' :
  0 <= o -> o < o' <= TOP -> maxfree F o b = true -> allfree F o' (b / 2 ^ (o' - o)) = false.
Proof.
  unfold maxfree, TOP. intros Ho Ho' [_ Hp]%andb_prop.
  destruct (Z.eqb_spec o 10); [lia|]. simpl in Hp. apply negb_true_iff in Hp.
  destruct (allfree F o' _) eqn:E; [|done].
  rewrite (allfree_down F o' (b / 2 ^ (o' - o)) (o + 1) (b / 2)) in Hp; [done|lia| |done].
  rewrite (half_up b (o' - o)) by lia. f_equal. f_equal. lia.
Qed.

Lemma maxfree_unique F o o' p :
  0 <= o <= TOP -> 0 <= o' <= TOP ->
  maxfree F o (p / 2 ^ o) = true -> maxfree F o' (p / 2 ^ o') = true -> o = o'.
Proof.
  intros Ho Ho' H1 H2. destruct (Z.lt_trichotomy o o') as [Hlt|[?|Hlt]]; [exfalso|done|exfalso].
  - apply (maxfree_above F o _ o') in H1; [|lia|lia]. rewrite <- div_pow2_up in H1 by lia.
    apply maxfree_allfree in H2. congruence.
  - apply (maxfree_above F o' _ o) in H2; [|lia|lia]. rewrite <- div_pow2_up in H2 by lia.
    apply maxfree_allfree in H1. congruence.
Qed.

(** Every free block lies in a maximal one. *)
Lemma maxfree_exists F o b :
  0 <= o <= TOP -> allfree F o b = true ->
  exists o', o <= o' <= TOP /\ maxfree F o' (b / 2 ^ (o' - o)) = true.
Proof.
  intros Ho. remember (Z.to_nat (TOP - o)) as n eqn:Hn. revert o b Ho Hn.
  induction n as [|n IH]; intros o b Ho Hn Hf.
  - exists o. split; [lia|]. rewrite Z.sub_diag, Z.div_1_r. unfold maxfree, TOP in *.
    rewrite Hf. by destruct (Z.eqb_spec o 10); [|lia].
  - destruct (allfree F (o + 1) (b / 2)) eqn:E.
    + destruct (IH (o + 1) (b / 2)) as (o' & ? & Hm); [lia|lia|done|].
      exists o'. split; [lia|]. rewrite (half_up b (o' - o)) by lia.
      by replace (o' - o - 1) with (o' - (o + 1)) by lia.
    + exists o. split; [lia|]. rewrite Z.sub_diag, Z.div_1_r. unfold maxfree.
      by rewrite Hf, E, orb_true_r.
Qed.

(** ** Removing a block

    [t], [tb] is the block taken out of the maximal block [s], [sb]. *)
Section remove.
Context (A : Z -> bool) (t tb s sb : Z).
Context (Hts : 0 <= t <= s) (Hs : s <= TOP) (Htb : 0 <= tb) (Hin : tb / 2 ^ (s - t) = sb).
Context (Hmax : maxfree A s sb = true).

Definition removed (p : Z) : bool := A p && negb (p / 2 ^ t =? tb).

(** Block [(o, b)] meets the removed block. *)
Definition meets o b : bool :=
  if t <=? o then tb / 2 ^ (o - t) =? b else b / 2 ^ (t - o) =? tb.

Lemma allfree_removed o b : 0 <= o -> allfree removed o b = allfree A o b && negb (meets o b).
Proof.
  intros Ho. apply eq_true_iff_eq. rewrite andb_true_iff, negb_true_iff, !allfree_spec by done.
  unfold meets, removed. split.
  - intros H. split; [intros p Hp; specialize (H p Hp); by apply andb_prop in H as [? _]|].
    destruct (Z.leb_spec t o).
    + destruct (Z.eqb_spec (tb / 2 ^ (o - t)) b) as [Hb|]; [|done]. exfalso.
      specialize (H (tb * 2 ^ t)). rewrite (div_pow2_up _ t o), block_head, Z.eqb_refl, andb_false_r in H by lia.
      by specialize (H Hb).
    + destruct (Z.eqb_spec (b / 2 ^ (t - o)) tb) as [Hb|]; [|done]. exfalso.
      specialize (H (b * 2 ^ o)). rewrite (div_pow2_up _ o t), block_head, Hb, Z.eqb_refl, andb_false_r in H by lia.
      by specialize (H eq_refl).
  - intros [HA Hm] p Hp. rewrite HA by done. simpl. apply negb_true_iff, Z.eqb_neq. intros Hpt.
    destruct (Z.leb_spec t o).
    + apply Z.eqb_neq in Hm. apply Hm. rewrite <- Hpt, <- Hp. symmetry. apply div_pow2_up. lia.
    + apply Z.eqb_neq in Hm. apply Hm. rewrite <- Hp, <- Hpt. symmetry. apply div_pow2_up. lia.
Qed.

(** Up the tree, meeting the removed block is inherited; off the source block
    nothing meets it. *)
Lemma meets_up o b : 0 <= o -> o < t -> meets (o + 1) (b / 2) = meets o b.
Proof.
  intros. unfold meets. destruct (Z.leb_spec t o); [lia|].
  rewrite (half_up b (t - o)) by lia. destruct (Z.leb_spec t (o + 1)).
  - replace (o + 1 - t) with 0 by lia. replace (t - o - 1) with 0 by lia.
    rewrite !Z.div_1_r. apply Z.eqb_sym.
  - by replace (t - (o + 1)) with (t - o - 1) by lia.
Qed.

Lemma meets_inside o b : 0 <= o <= s -> meets o b = true -> b / 2 ^ (s - o) = sb.
Proof.
  unfold meets. intros Ho. destruct (Z.leb_spec t o); intros H1%Z.eqb_eq.
  - rewrite <- Hin, <- H1, (div_pow2_up tb (o - t) (s - t)) by lia. f_equal. f_equal. lia.
  - rewrite (div_pow2_up b (t - o) (s - o)), H1 by lia. rewrite <- Hin. f_equal. f_equal. lia.
Qed.

Lemma meets_outside o b : s <= o -> meets o b = (sb / 2 ^ (o - s) =? b).
Proof.
  intros. unfold meets. destruct (Z.leb_spec t o); [|lia].
  rewrite (div_pow2_up tb (s - t) (o - t)), Hin by lia. f_equal. f_equal. f_equal. lia.
Qed.

(** The blocks that become maximal: the buddies along the path from the removed
    block up to the source. *)
Definition sibling o b : bool :=
  (t <=? o) && (o <? s) && (b =? Z.lxor (tb / 2 ^ (o - t)) 1).

Lemma sibling_inside o b : sibling o b = true -> 0 <= o < s /\ b / 2 ^ (s - o) = sb.
Proof.
  unfold sibling. intros [[? ?]%andb_prop Hb]%andb_prop. zb; try done. subst b.
  split; [lia|]. rewrite half_up, lxor1_half by (apply Z.div_pos || lia; try apply pow2_pos; lia).
  rewrite <- half_up by lia. rewrite <- Hin, (div_pow2_up tb (o - t) (s - t)) by lia. f_equal. f_equal. lia.
Qed.

Lemma maxfree_remove o b :
  0 <= o <= TOP -> 0 <= b ->
  maxfree removed o b =
    (maxfree A o b && negb ((o =? s) && (b =? sb))) || sibling o b.
Proof.
  intros Ho Hb. unfold TOP in *.
  destruct (decide (s <= o)) as [Hso|Hso].
  - (* at or above the source's order *)
    assert (sibling o b = false) as -> by (unfold sibling; zb; try done; lia).
    rewrite orb_false_r. unfold maxfree at 1. rewrite allfree_removed, meets_outside by lia.
    destruct (Z.eqb_spec (sb / 2 ^ (o - s)) b) as [Hc|Hc]; simpl.
    + rewrite andb_false_r. simpl. symmetry.
      destruct (decide (o = s)) as [->|].
      * rewrite Z.sub_diag, Z.div_1_r in Hc. subst b. by rewrite !Z.eqb_refl, andb_false_r.
      * unfold maxfree. rewrite <- Hc, (maxfree_above A s) by (unfold TOP; lia || done). done.
    + rewrite andb_true_r.
      replace ((o =? s) && (b =? sb)) with false.
      2:{ symmetry. zb; try done. subst. rewrite Z.sub_diag, Z.div_1_r in Hc. done. }
      rewrite andb_true_r. unfold maxfree, TOP. f_equal.
      destruct (Z.eqb_spec o 10); [done|]. simpl. f_equal.
      rewrite allfree_removed, meets_outside by lia.
      destruct (Z.eqb_spec (sb / 2 ^ (o + 1 - s)) (b / 2)) as [Hc2|Hc2]; simpl; [|by rewrite andb_true_r].
      rewrite <- Hc2, (maxfree_above A s) by (unfold TOP; lia || done). done.
  - destruct (decide (b / 2 ^ (s - o) = sb)) as [Hbs|Hbs].
    + (* inside the source *)
      assert (forall o' b', o <= o' <= s -> b' / 2 ^ (s - o') = sb -> allfree A o' b' = true) as HA.
      { intros o' b' ? ?. eapply allfree_down; [..|by eapply maxfree_allfree]; [lia|done]. }
      assert ((b / 2) / 2 ^ (s - (o + 1)) = sb) as Hbs2.
      { rewrite <- Hbs, (half_up b (s - o)) by lia. f_equal. f_equal. lia. }
      unfold maxfree, TOP. rewrite !allfree_removed, (HA o b), (HA (o + 1) (b / 2)) by (done || lia). simpl.
      destruct (Z.eqb_spec o 10); [lia|]. simpl. rewrite negb_involutive.
      unfold sibling. destruct (Z.leb_spec t o); simpl.
      * destruct (Z.ltb_spec o s); [|lia]. simpl. unfold meets.
        destruct (Z.leb_spec t o), (Z.leb_spec t (o + 1)); try lia.
        replace (o + 1 - t) with (o - t + 1) by lia. rewrite up_half by lia.
        set (x := tb / 2 ^ (o - t)).
        assert (0 <= x) by (apply Z.div_pos; [done|apply pow2_pos; lia]).
        pose proof (half_eq_cases x b ltac:(done)). pose proof (lxor1_ne x ltac:(done)).
        zb; try done; naive_solver.
      * rewrite meets_up by lia. by destruct (meets o b).
    + (* off the source *)
      assert (sibling o b = false) as ->.
      { destruct (sibling o b) eqn:E; [|done]. by apply sibling_inside in E as [_ ?]. }
      assert (meets o b = false) as Hm1.
      { destruct (meets o b) eqn:E; [|done]. apply meets_inside in E; [done|lia]. }
      assert (meets (o + 1) (b / 2) = false) as Hm2.
      { destruct (meets (o + 1) (b / 2)) eqn:E; [|done]. exfalso. apply Hbs.
        apply meets_inside in E; [|lia]. rewrite <- E, (half_up b (s - o)) by lia. f_equal. f_equal. lia. }
      unfold maxfree. rewrite !allfree_removed, Hm1, Hm2, !andb_true_r by lia.
      destruct (Z.eqb_spec o s); [lia|]. simpl. by rewrite andb_true_r, orb_false_r.
Qed.
End remove.
End dyadic.
