(* ===== verification/FreeMap.v ===== *)
(** The free-block bitmap of the buddy allocator
    ([FreeMapLayout] and [FixedFreeMap] of kernel/mm/buddy_allocator.rs).

    Order [o], block [b] stands for the page range [[b << o, (b+1) << o)].
    All order bitmaps live in one array of 64-bit words whose length never
    changes; the model keeps the words, the per-order offsets, the counters and
    the search cursors exactly as the code does.  Fixed-size arrays are lists,
    read with [ag] at an index the code has already bounded by [ORDER_COUNT]. *)

From Stdlib Require Import ZArith Lia.
From stdpp Require Import base list list_numbers numbers.
From S2P Require Import Prelude.
From S2P Require Import Machine.

Definition ORDER_COUNT : Z := 11.
Definition PAGE_SIZE : Z := 4096.

Definition PAGE_FREE : Z := 0.
Definition PAGE_ALLOC_START_BASE : Z := 1.
Definition PAGE_ALLOC_TAIL_BASE : Z := 0x40.
Definition PAGE_RESERVED : Z := 255.

Definition allocation_start_state (order : Z) : option Z :=
  if order <? ORDER_COUNT then Some (PAGE_ALLOC_START_BASE + order) else None.

Definition allocation_tail_state (order : Z) : option Z :=
  if order <? ORDER_COUNT then Some (PAGE_ALLOC_TAIL_BASE + order) else None.

Definition decode_allocation_start (state : Z) : option Z :=
  order ← checked_sub state PAGE_ALLOC_START_BASE;
  if order <? ORDER_COUNT then Some order else None.

Definition decode_allocation_tail (state : Z) : option Z :=
  order ← checked_sub state PAGE_ALLOC_TAIL_BASE;
  if order <? ORDER_COUNT then Some order else None.

Inductive BuddyInitError :=
| EmptyRegion | RegionMisaligned | InitAddressOverflow | MetadataSizeOverflow
| MetadataAllocationFailed | InitMetadataCorrupt.

#[global] Instance BuddyInitError_eq_dec : EqDecision BuddyInitError.
Proof. solve_decision. Defined.

Record FreeBit := mkFreeBit {
  word_index : Z;
  mask : Z;
  order : Z;
  block_idx : Z;
}.

#[global] Instance FreeBit_eq_dec : EqDecision FreeBit.
Proof. solve_decision. Defined.

(** A read of a fixed-size array at a bounded index. *)
Definition ag (a : list Z) (i : Z) : Z := default 0 (zget a i).

(** * Layout *)
Record FreeMapLayout := mkLayout {
  lay_word_base : list Z;
  lay_valid_blocks : list Z;
  lay_total_words : Z;
}.

(** One round of the loop of [FreeMapLayout::new]. *)
Definition layout_step (total_pages : Z) (lay : FreeMapLayout) (order : Z)
  : res BuddyInitError FreeMapLayout :=
  let block_pages := Z.shiftl 1 order in
  let blocks := total_pages / block_pages in
  let words := blocks / 64 + (if is_multiple_of blocks 64 then 0 else 1) in
  let valid_blocks := zset (lay_valid_blocks lay) order blocks in
  let word_base := zset (lay_word_base lay) order (lay_total_words lay) in
  let? total_words := ok_or (checked_add (lay_total_words lay) words) MetadataSizeOverflow in
  Ok (mkLayout word_base valid_blocks total_words).

Fixpoint layout_loop (total_pages : Z) (lay : FreeMapLayout) (orders : list Z)
  : res BuddyInitError FreeMapLayout :=
  match orders with
  | [] => Ok lay
  | order :: orders =>
      let? lay := layout_step total_pages lay order in
      layout_loop total_pages lay orders
  end.

Definition layout_new (total_pages : Z) : res BuddyInitError FreeMapLayout :=
  let? lay := layout_loop total_pages
                (mkLayout (replicate 12 0) (replicate 11 0) 0) (seqZ 0 ORDER_COUNT) in
  Ok (mkLayout (zset (lay_word_base lay) ORDER_COUNT (lay_total_words lay))
               (lay_valid_blocks lay) (lay_total_words lay)).

(** * The bitmap *)
Record FixedFreeMap := mkFreeMap {
  words : list Z;
  word_base : list Z;
  valid_blocks : list Z;
  block_count : list Z;
  search_cursor : list Z;
}.

Definition from_storage (layout : FreeMapLayout) (ws : list Z) : res BuddyInitError FixedFreeMap :=
  if negb (zlen ws =? lay_total_words layout) || existsb (fun w => negb (w =? 0)) ws
  then Err InitMetadataCorrupt
  else Ok {| words := ws;
             word_base := lay_word_base layout;
             valid_blocks := lay_valid_blocks layout;
             block_count := replicate 11 0;
             search_cursor := replicate 11 0 |}.

Definition location (fm : FixedFreeMap) (ord idx : Z) : option FreeBit :=
  if ORDER_COUNT <=? ord then None else
  let block_pages := Z.shiftl 1 ord in
  if negb (Z.land idx (block_pages - 1) =? 0) then None else
  let block_no := Z.shiftr idx ord in
  if ag (valid_blocks fm) ord <=? block_no then None else
  let word_offset := block_no / 64 in
  wi ← checked_add (ag (word_base fm) ord) word_offset;
  if (ag (word_base fm) (ord + 1) <=? wi) || (zlen (words fm) <=? wi) then None else
  Some {| word_index := wi;
          mask := Z.shiftl 1 (block_no mod 64);
          order := ord;
          block_idx := idx |}.

Definition is_set (fm : FixedFreeMap) (bit : FreeBit) : bool :=
  match zget (words fm) (word_index bit) with
  | Some word => negb (Z.land word (mask bit) =? 0)
  | None => false
  end.

Definition first_set_in_word (fm : FixedFreeMap) (ord word_offset search_mask : Z)
  : option FreeBit :=
  base ← zget (word_base fm) ord;
  wi ← checked_add base word_offset;
  next ← zget (word_base fm) (ord + 1);
  if next <=? wi then None else
  w ← zget (words fm) wi;
  let block_word := Z.land w search_mask in
  if block_word =? 0 then None else
  let bit_in_word := trailing_zeros block_word in
  scaled ← checked_mul word_offset 64;
  block_no ← checked_add scaled bit_in_word;
  blocks ← zget (valid_blocks fm) ord;
  if blocks <=? block_no then None else
  if 64 <=? ord then None else
  Some {| word_index := wi;
          mask := Z.shiftl 1 bit_in_word;
          order := ord;
          block_idx := Z.shiftl block_no ord mod 2 ^ 64 |}.

(** [valid_mask] of [find_first]: the bits of a word that lie below
    [valid_blocks]. *)
Definition valid_mask (blocks word_offset : Z) : Z :=
  let first_block := saturating_mul word_offset 64 in
  let remaining := saturating_sub blocks first_block in
  if remaining =? 0 then 0
  else if 64 <=? remaining then u64_max
  else Z.shiftl 1 remaining - 1.

Definition find_first (fm : FixedFreeMap) (ord : Z) : option FreeBit :=
  blocks ← zget (valid_blocks fm) ord;
  if blocks =? 0 then None else
  count ← zget (block_count fm) ord;
  if count =? 0 then None else
  word_start ← zget (word_base fm) ord;
  word_end ← zget (word_base fm) (ord + 1);
  word_count ← checked_sub word_end word_start;
  if word_count =? 0 then None else
  let start_block := Z.min (ag (search_cursor fm) ord) (blocks - 1) in
  let start_word := start_block / 64 in
  let start_bit := start_block mod 64 in
  let whole := fun word_offset => first_set_in_word fm ord word_offset (valid_mask blocks word_offset) in
  let suffix_mask := Z.shiftl u64_max start_bit mod 2 ^ 64 in
  match first_set_in_word fm ord start_word (Z.land suffix_mask (valid_mask blocks start_word)) with
  | Some bit => Some bit
  | None =>
  match first_some whole (seqZ (start_word + 1) (word_count - (start_word + 1))) with
  | Some bit => Some bit
  | None =>
  match first_some whole (seqZ 0 start_word) with
  | Some bit => Some bit
  | None =>
    if negb (start_bit =? 0) then
      let prefix_mask := Z.shiftl 1 start_bit - 1 in
      first_set_in_word fm ord start_word (Z.land prefix_mask (valid_mask blocks start_word))
    else None
  end end end.

Definition count_for_order (fm : FixedFreeMap) (ord : Z) : option Z :=
  zget (block_count fm) ord.

(** [None] is an abort: an index out of range or a counter that would leave
    [usize]. *)
Definition commit_set (fm : FixedFreeMap) (bit : FreeBit) (value : bool) : option FixedFreeMap :=
  word ← zget (words fm) (word_index bit);
  count ← zget (block_count fm) (order bit);
  if value then
    count' ← checked_add count 1;
    cursor ← zget (search_cursor fm) (order bit);
    let block_no := Z.shiftr (block_idx bit) (order bit) in
    Some {| words := zset (words fm) (word_index bit) (Z.lor word (mask bit));
            word_base := word_base fm;
            valid_blocks := valid_blocks fm;
            block_count := zset (block_count fm) (order bit) count';
            search_cursor :=
              if (count' =? 1) || (block_no <? cursor)
              then zset (search_cursor fm) (order bit) block_no
              else search_cursor fm |}
  else
    count' ← checked_sub count 1;
    blocks ← zget (valid_blocks fm) (order bit);
    Some {| words := zset (words fm) (word_index bit) (Z.land word (u64_not (mask bit)));
            word_base := word_base fm;
            valid_blocks := valid_blocks fm;
            block_count := zset (block_count fm) (order bit) count';
            search_cursor :=
              if negb (blocks =? 0)
              then zset (search_cursor fm) (order bit)
                     ((Z.shiftr (block_idx bit) (order bit) + 1) mod blocks)
              else search_cursor fm |}.

Definition count_actual (fm : FixedFreeMap) (ord : Z) : option Z :=
  if ORDER_COUNT <=? ord then None else
  let lo := ag (word_base fm) ord in
  let hi := ag (word_base fm) (ord + 1) in
  Some (sumZ (fun i => count_ones (default 0 (zget (words fm) i))) (seqZ lo (hi - lo))).
