(* ===== verification/FreeMapFacts.v ===== *)
(** Facts about the free-block bitmap: the geometry of its words, the meaning
    of each operation on the set of free blocks, and the correctness of the
    word-wise search. *)

From Stdlib Require Import ZArith Lia.
From stdpp Require Import base list list_numbers numbers.
From S2P Require Import Prelude.
From S2P Require Import Machine.
From S2P Require Import FreeMap.

(** Blocks and words of one order for a window of [tp] pages, and where the
    words of an order start. *)
Definition nblocks (tp o : Z) : Z := tp / 2 ^ o.
Definition nwords (tp o : Z) : Z := nblocks tp o / 64 + (if is_multiple_of (nblocks tp o) 64 then 0 else 1).
Definition wbase (tp o : Z) : Z := sumZ (nwords tp) (seqZ 0 o).

(** Bit of order [o], block number [b]. *)
Definition fbit (tp : Z) (fm : FixedFreeMap) (o b : Z) : bool :=
  Z.testbit (default 0 (zget (words fm) (wbase tp o + b / 64))) (b mod 64).

Definition mkbit (tp o b : Z) : FreeBit :=
  {| word_index := wbase tp o + b / 64; mask := 2 ^ (b mod 64); order := o; block_idx := b * 2 ^ o |}.

(** Well-formedness of the bitmap for a window of [tp] pages. *)
Record fm_wf (tp : Z) (fm : FixedFreeMap) : Prop := {
  wf_tp : 0 <= tp <= 2 ^ 40;
  wf_len_base : zlen (word_base fm) = 12;
  wf_len_valid : zlen (valid_blocks fm) = 11;
  wf_len_count : zlen (block_count fm) = 11;
  wf_len_cursor : zlen (search_cursor fm) = 11;
  wf_base : forall o, 0 <= o <= 11 -> zget (word_base fm) o = Some (wbase tp o);
  wf_valid : forall o, 0 <= o < 11 -> zget (valid_blocks fm) o = Some (nblocks tp o);
  wf_words : zlen (words fm) = wbase tp 11;
  wf_u64 : forall i w, zget (words fm) i = Some w -> is_u64 w;
  wf_cursor : forall o c, zget (search_cursor fm) o = Some c -> 0 <= c;
  wf_tail : forall o b, 0 <= o < 11 -> nblocks tp o <= b < 64 * nwords tp o -> fbit tp fm o b = false;
  wf_count : forall o, 0 <= o < 11 ->
    zget (block_count fm) o = Some (sumZ (fun b => Z.b2z (fbit tp fm o b)) (seqZ 0 (nblocks tp o)));
}.

(** A valid block of the map. *)
Definition vblock (tp o b : Z) : Prop := 0 <= o < 11 /\ 0 <= b < nblocks tp o.

(** ** Geometry *)
Section geometry.
Context (tp : Z) (Htp : 0 <= tp).
#[local] Set Default Proof Using "All".

Lemma nblocks_nonneg o : 0 <= o -> 0 <= nblocks tp o.
Proof. intros. apply Z.div_pos; [done|]. by apply pow2_pos. Qed.

Lemma nblocks_le o : 0 <= o -> nblocks tp o <= tp.
Proof.
  intros. unfold nblocks. pose proof (pow2_pos o ltac:(done)).
  apply Z.div_le_upper_bound; nia.
Qed.

Lemma nwords_bounds o : 0 <= o -> nblocks tp o <= 64 * nwords tp o < nblocks tp o + 64.
Proof.
  intros. unfold nwords, is_multiple_of.
  pose proof (Z.div_mod (nblocks tp o) 64 ltac:(lia)).
  pose proof (Z.mod_pos_bound (nblocks tp o) 64 ltac:(lia)).
  zb; lia.
Qed.

Lemma nwords_nonneg o : 0 <= o -> 0 <= nwords tp o.
Proof. intros. pose proof (nwords_bounds o). pose proof (nblocks_nonneg o). lia. Qed.

Lemma wbase_succ o : 0 <= o -> wbase tp (o + 1) = wbase tp o + nwords tp o.
Proof.
  intros. unfold wbase. rewrite (seqZ_split 0 (o + 1) o) by lia.
  rewrite sumZ_app. replace (o + 1 - o) with 1 by lia. simpl. by rewrite Z.add_0_r.
Qed.

Lemma wbase_mono o o' : 0 <= o <= o' -> wbase tp o <= wbase tp o'.
Proof.
  intros. unfold wbase. rewrite (seqZ_split 0 o' o) by lia. rewrite sumZ_app.
  assert (0 <= sumZ (nwords tp) (seqZ (0 + o) (o' - o))); [|lia].
  apply sumZ_nonneg. intros i Hi%elem_of_seqZ. apply nwords_nonneg. lia.
Qed.

Lemma wbase_nonneg o : 0 <= o -> 0 <= wbase tp o.
Proof. intros. apply (wbase_mono 0 o). lia. Qed.

Lemma wbase_bound : tp <= 2 ^ 40 -> wbase tp 11 <= 2 ^ 44.
Proof.
  intros. transitivity (sumZ (fun _ => 2 ^ 40) (seqZ 0 11)).
  - apply sumZ_le. intros o Ho%elem_of_seqZ.
    pose proof (nwords_bounds o ltac:(lia)). pose proof (nblocks_le o ltac:(lia)).
    pose proof (nblocks_nonneg o ltac:(lia)). lia.
  - rewrite sumZ_const, zlen_seqZ by lia. lia.
Qed.

Lemma block_word o b : vblock tp o b -> 0 <= b / 64 < nwords tp o.
Proof.
  intros [Ho Hb]. pose proof (nwords_bounds o ltac:(lia)).
  split; [apply Z.div_pos; lia|]. apply Z.div_lt_upper_bound; lia.
Qed.

Lemma word_in o k : 0 <= o < 11 -> 0 <= k < nwords tp o -> 0 <= wbase tp o + k < wbase tp 11.
Proof.
  intros. pose proof (wbase_nonneg o ltac:(lia)). pose proof (wbase_succ o ltac:(lia)).
  pose proof (wbase_mono (o + 1) 11 ltac:(lia)). lia.
Qed.

(** Distinct blocks occupy distinct bits. *)
Lemma block_word_inj o b o' b' :
  0 <= o < 11 -> 0 <= o' < 11 ->
  0 <= b < 64 * nwords tp o -> 0 <= b' < 64 * nwords tp o' ->
  wbase tp o + b / 64 = wbase tp o' + b' / 64 -> b mod 64 = b' mod 64 -> o = o' /\ b = b'.
Proof.
  intros Ho Ho' Hb Hb' Hw Hm.
  assert (forall x y, 0 <= y -> 0 <= x < 64 * y -> 0 <= x / 64 < y) as Hq.
  { intros x y ? ?. split; [apply Z.div_pos; lia|apply Z.div_lt_upper_bound; lia]. }
  pose proof (nwords_nonneg o ltac:(lia)). pose proof (nwords_nonneg o' ltac:(lia)).
  pose proof (Hq b (nwords tp o) ltac:(done) Hb). pose proof (Hq b' (nwords tp o') ltac:(done) Hb').
  pose proof (wbase_succ o ltac:(lia)). pose proof (wbase_succ o' ltac:(lia)).
  destruct (Z.lt_trichotomy o o') as [?|[->|?]].
  - pose proof (wbase_mono (o + 1) o' ltac:(lia)). lia.
  - split; [done|]. rewrite (Z.div_mod b 64), (Z.div_mod b' 64) by lia. lia.
  - pose proof (wbase_mono (o' + 1) o ltac:(lia)). lia.
Qed.
End geometry.

(** ** Reading *)
Section reading.
Context {tp : Z} {fm : FixedFreeMap} (Hwf : fm_wf tp fm).

Lemma wf_tp0 : 0 <= tp.
Proof. apply (wf_tp _ _ Hwf). Qed.

Lemma wf_word o k : 0 <= o < 11 -> 0 <= k < nwords tp o ->
  exists w, zget (words fm) (wbase tp o + k) = Some w /\ is_u64 w.
Proof.
  intros. destruct (zget_range (words fm) (wbase tp o + k)) as [w Hw].
  - rewrite (wf_words _ _ Hwf). apply word_in; [apply wf_tp0|done|done].
  - exists w. split; [done|]. by apply (wf_u64 _ _ Hwf) in Hw.
Qed.

Lemma ag_base o : 0 <= o <= 11 -> ag (word_base fm) o = wbase tp o.
Proof. intros. unfold ag. by rewrite (wf_base _ _ Hwf). Qed.

Lemma ag_valid o : 0 <= o < 11 -> ag (valid_blocks fm) o = nblocks tp o.
Proof. intros. unfold ag. by rewrite (wf_valid _ _ Hwf). Qed.

Lemma ag_count o : 0 <= o < 11 ->
  ag (block_count fm) o = sumZ (fun b => Z.b2z (fbit tp fm o b)) (seqZ 0 (nblocks tp o)).
Proof. intros. unfold ag. by rewrite (wf_count _ _ Hwf). Qed.

(** [location] answers exactly for the aligned indices of valid blocks. *)
Lemma location_spec o idx :
  0 <= o < 11 -> 0 <= idx ->
  location fm o idx =
    if (idx mod 2 ^ o =? 0) && (idx / 2 ^ o <? nblocks tp o)
    then Some (mkbit tp o (idx / 2 ^ o)) else None.
Proof.
  intros Ho Hidx. unfold location, ORDER_COUNT.
  pose proof (pow2_pos o ltac:(lia)) as Hp. pose proof wf_tp0.
  destruct (Z.leb_spec 11 o); [lia|]. cbv zeta.
  rewrite shiftl_1, land_pow2_mod, Z.shiftr_div_pow2 by lia.
  destruct (Z.eqb_spec (idx mod 2 ^ o) 0) as [Hal|]; simpl; [|done].
  rewrite ag_valid by lia.
  destruct (Z.ltb_spec (idx / 2 ^ o) (nblocks tp o)) as [Hlt|]; [|by destruct (Z.leb_spec (nblocks tp o) (idx / 2 ^ o)); [|lia]].
  destruct (Z.leb_spec (nblocks tp o) (idx / 2 ^ o)); [lia|].
  assert (0 <= idx / 2 ^ o) by (apply Z.div_pos; lia).
  assert (vblock tp o (idx / 2 ^ o)) as Hv by (split; lia).
  pose proof (block_word tp ltac:(done) _ _ Hv) as Hw.
  pose proof (word_in tp ltac:(done) _ _ Ho Hw).
  pose proof (wbase_bound tp ltac:(done) ltac:(apply Hwf)).
  rewrite !ag_base, wbase_succ by lia.
  rewrite checked_add_Some by (unfold usize_max, u64_max; lia). simpl.
  rewrite (wf_words _ _ Hwf).
  destruct (Z.leb_spec (wbase tp o + nwords tp o) (wbase tp o + idx / 2 ^ o / 64)); [lia|].
  destruct (Z.leb_spec (wbase tp 11) (wbase tp o + idx / 2 ^ o / 64)); [lia|]. simpl.
  unfold mkbit. rewrite shiftl_1 by (apply Z.mod_pos_bound; lia). do 2 f_equal.
  pose proof (Z.div_mod idx (2 ^ o) ltac:(lia)). lia.
Qed.

Lemma location_block o b : vblock tp o b -> location fm o (b * 2 ^ o) = Some (mkbit tp o b).
Proof.
  intros [Ho Hb]. pose proof (pow2_pos o ltac:(lia)).
  rewrite location_spec by nia. rewrite Z.mod_mul, Z.div_mul by lia.
  by destruct (Z.ltb_spec b (nblocks tp o)); [|lia].
Qed.

Lemma is_set_mkbit o b : is_set fm (mkbit tp o b) = fbit tp fm o b.
Proof.
  unfold is_set, fbit; simpl. destruct (zget _ _) as [w|] eqn:E; simpl.
  - apply land_pow2_testbit. apply Z.mod_pos_bound. lia.
  - symmetry. apply Z.bits_0.
Qed.

Lemma count_range o : 0 <= o < 11 -> 0 <= ag (block_count fm) o <= nblocks tp o.
Proof.
  intros. rewrite ag_count by done. pose proof (nblocks_nonneg tp wf_tp0 o ltac:(lia)).
  split; [apply sumZ_nonneg; intros; apply b2z_bounds|].
  transitivity (sumZ (fun _ => 1) (seqZ 0 (nblocks tp o))).
  - apply sumZ_le. intros. apply b2z_bounds.
  - rewrite sumZ_const, zlen_seqZ by lia. lia.
Qed.

Lemma count_pos_bit o b : vblock tp o b -> fbit tp fm o b = true -> 1 <= ag (block_count fm) o.
Proof.
  intros [Ho Hb] Hset. rewrite ag_count by done.
  change 1 with (Z.b2z true). rewrite <- Hset.
  apply (sumZ_ge_elem (fun b => Z.b2z (fbit tp fm o b))).
  - intros. apply b2z_bounds.
  - rewrite elem_of_seqZ. lia.
Qed.

Lemma count_pos_ex o : 0 <= o < 11 -> 0 < ag (block_count fm) o ->
  exists b, vblock tp o b /\ fbit tp fm o b = true.
Proof.
  intros Ho. rewrite ag_count by done. intros (b & Hb%elem_of_seqZ & Hf)%sumZ_pos_ex.
  exists b. split; [split; lia|]. by destruct (fbit _ _ _ _).
Qed.

(** The popcount over the words of an order is its recorded count. *)
Lemma count_actual_spec o : 0 <= o < 11 -> count_actual fm o = Some (ag (block_count fm) o).
Proof.
  intros Ho. unfold count_actual, ORDER_COUNT. destruct (Z.leb_spec 11 o); [lia|].
  pose proof wf_tp0. rewrite !ag_base, wbase_succ, ag_count by lia. f_equal.
  replace (wbase tp o + nwords tp o - wbase tp o) with (nwords tp o) by lia.
  pose proof (nwords_bounds tp ltac:(done) o ltac:(lia)).
  pose proof (nblocks_nonneg tp ltac:(done) o ltac:(lia)).
  rewrite <- (sumZ_extend _ (nblocks tp o) (64 * nwords tp o)); [|lia|].
  2:{ intros b Hb. by rewrite (wf_tail _ _ Hwf o b) by lia. }
  rewrite sumZ_tile by lia. replace (wbase tp o) with (wbase tp o + 0) by lia.
  rewrite sumZ_shift. apply sumZ_ext. intros k Hk%elem_of_seqZ.
  unfold count_ones. apply sumZ_ext. intros i Hi%elem_of_seqZ. unfold fbit.
  rewrite (Z.mul_comm 64 k), (Z.add_comm (k * 64) i), Z.div_add, Z.mod_add by lia.
  by rewrite (Z.div_small i), (Z.mod_small i) by lia.
Qed.
End reading.

(** ** Writing *)

(** [fm'] is [fm] with the bit of block [(o, b)] set to [v]. *)
Definition fm_upd (tp : Z) (fm fm' : FixedFreeMap) (o b : Z) (v : bool) : Prop :=
  forall o' b', 0 <= o' < 11 -> 0 <= b' < 64 * nwords tp o' ->
    fbit tp fm' o' b' = if decide (o' = o /\ b' = b) then v else fbit tp fm o' b'.

Section writing.
Context {tp : Z} {fm : FixedFreeMap} (Hwf : fm_wf tp fm).
Context (o b : Z) (Hv : vblock tp o b).

Lemma vblock_slot : 0 <= o < 11 /\ 0 <= b < 64 * nwords tp o.
Proof.
  destruct Hv. pose proof (nwords_bounds tp (wf_tp0 Hwf) o). split; lia.
Qed.

Lemma fm_upd_of_word fm' w w' v :
  words fm' = zset (words fm) (wbase tp o + b / 64) w' ->
  zget (words fm) (wbase tp o + b / 64) = Some w ->
  (forall i, 0 <= i -> Z.testbit w' i = if i =? b mod 64 then v else Z.testbit w i) ->
  fm_upd tp fm fm' o b v.
Proof.
  intros Hws Hw Hbits o' b' Ho' Hb'. unfold fbit. rewrite Hws.
  pose proof vblock_slot as [Ho Hb]. pose proof (zget_Some_range _ _ _ Hw).
  pose proof (Z.mod_pos_bound b' 64 ltac:(lia)).
  destruct (decide (wbase tp o + b / 64 = wbase tp o' + b' / 64)) as [He|Hne].
  - rewrite <- He, zget_zset_eq, Hw by lia. simpl. rewrite Hbits by lia.
    destruct (Z.eqb_spec (b' mod 64) (b mod 64)) as [Hm|Hm].
    + destruct (block_word_inj tp (wf_tp0 Hwf) o b o' b') as [-> ->]; [done..|].
      by rewrite decide_True.
    + rewrite decide_False; [done|]. naive_solver.
  - rewrite zget_zset_ne by done. rewrite decide_False; [done|]. naive_solver.
Qed.

Lemma fm_upd_count fm' v o' :
  fbit tp fm o b = negb v -> fm_upd tp fm fm' o b v -> 0 <= o' < 11 ->
  sumZ (fun b => Z.b2z (fbit tp fm' o' b)) (seqZ 0 (nblocks tp o')) =
  sumZ (fun b => Z.b2z (fbit tp fm o' b)) (seqZ 0 (nblocks tp o')) +
    (if decide (o' = o) then (if v then 1 else -1) else 0).
Proof.
  intros Hold Hupd Ho'. pose proof (nwords_bounds tp (wf_tp0 Hwf) o' ltac:(lia)).
  destruct Hv as [Ho Hb]. case_decide as He.
  - subst o'. rewrite (sumZ_update (fun b => Z.b2z (fbit tp fm o b)) _ _ b).
    + rewrite Hupd, Hold, decide_True by lia. by destruct v.
    + apply NoDup_seqZ.
    + rewrite elem_of_seqZ. lia.
    + intros y Hy%elem_of_seqZ Hne. rewrite Hupd, decide_False by (lia || naive_solver). done.
  - rewrite Z.add_0_r. apply sumZ_ext. intros y Hy%elem_of_seqZ.
    rewrite Hupd, decide_False by (lia || naive_solver). done.
Qed.

(** A map that differs from [fm] in one word, one counter and one cursor as
    [commit_set] writes them is well formed. *)
Lemma fm_wf_upd fm' w w' cnt v :
  words fm' = zset (words fm) (wbase tp o + b / 64) w' ->
  zget (words fm) (wbase tp o + b / 64) = Some w ->
  is_u64 w' ->
  (forall i, 0 <= i -> Z.testbit w' i = if i =? b mod 64 then v else Z.testbit w i) ->
  word_base fm' = word_base fm -> valid_blocks fm' = valid_blocks fm ->
  zget (block_count fm) o = Some cnt ->
  block_count fm' = zset (block_count fm) o (cnt + (if v then 1 else -1)) ->
  (search_cursor fm' = search_cursor fm \/
   exists c, 0 <= c /\ search_cursor fm' = zset (search_cursor fm) o c) ->
  fbit tp fm o b = negb v ->
  fm_wf tp fm' /\ fm_upd tp fm fm' o b v.
Proof.
  intros Hws Hw Hu' Hbits Hb1 Hb2 Hcnt Hbc Hcur Hold.
  pose proof (fm_upd_of_word fm' w w' v Hws Hw Hbits) as Hupd.
  pose proof (fm_upd_count fm' v) as Hcount.
  pose proof vblock_slot as [Ho _]. split; [|done]. destruct Hwf.
  split; rewrite ?Hb1, ?Hb2, ?Hws, ?Hbc, ?zlen_zset; try done.
  - by destruct Hcur as [->|(c & _ & ->)]; rewrite ?zlen_zset.
  - intros i x Hi. destruct (decide (wbase tp o + b / 64 = i)) as [<-|Hne].
    + rewrite zget_zset_eq in Hi by (by eapply zget_Some_range). by simplify_eq.
    + rewrite zget_zset_ne in Hi by done. eauto.
  - intros i x Hi. destruct Hcur as [Heq|(c & Hc & Heq)]; rewrite Heq in Hi; [eauto|].
    destruct (decide (o = i)) as [<-|Hne].
    + rewrite zget_zset_eq in Hi by (rewrite wf_len_cursor0; lia). by simplify_eq.
    + rewrite zget_zset_ne in Hi by done. eauto.
  - intros o' b' Ho' Hb'. pose proof (nblocks_nonneg tp ltac:(lia) o' ltac:(lia)).
    rewrite Hupd by lia. case_decide as Hd; [|eauto]. destruct Hv, Hd; subst. lia.
  - intros o' Ho'. rewrite (Hcount o' Hold Hupd Ho').
    destruct (decide (o' = o)) as [->|Hne].
    + rewrite zget_zset_eq by (rewrite wf_len_count0; lia).
      rewrite wf_count0 in Hcnt by done. by simplify_eq.
    + rewrite zget_zset_ne by done. by rewrite Z.add_0_r, wf_count0.
Qed.

(** [commit_set] on a bit that changes: it does not abort, keeps the bitmap
    well formed, and changes that bit only. *)
Lemma commit_set_spec v :
  fbit tp fm o b = negb v ->
  exists fm', commit_set fm (mkbit tp o b) v = Some fm' /\ fm_wf tp fm' /\
    fm_upd tp fm fm' o b v.
Proof.
  intros Hold. pose proof vblock_slot as [Ho Hb].
  pose proof (block_word tp (wf_tp0 Hwf) o b Hv) as Hbw.
  destruct (wf_word Hwf o (b / 64)) as (w & Hw & Hu); [lia|done|].
  pose proof (Z.mod_pos_bound b 64 ltac:(lia)) as Hm.
  pose proof (count_range Hwf o ltac:(lia)) as Hc.
  pose proof (wf_count _ _ Hwf o ltac:(lia)) as Hcnt.
  unfold ag in Hc. rewrite Hcnt in Hc. simpl in Hc.
  destruct (zget_range (search_cursor fm) o) as [cur Hcur].
  { rewrite (wf_len_cursor _ _ Hwf). lia. }
  pose proof (nblocks_le tp (wf_tp0 Hwf) o ltac:(lia)). pose proof (wf_tp _ _ Hwf) as Htp.
  assert (0 <= Z.shiftr (b * 2 ^ o) o) as Hsh.
  { apply Z.shiftr_nonneg. pose proof (pow2_pos o ltac:(lia)). nia. }
  unfold commit_set; cbn [mkbit word_index order mask block_idx].
  rewrite Hw; cbn [mbind option_bind]. rewrite Hcnt; cbn [mbind option_bind].
  destruct v.
  - rewrite checked_add_Some by (unfold usize_max, u64_max; lia). cbn [mbind option_bind].
    rewrite Hcur; cbn [mbind option_bind]. eexists; split; [done|].
    eapply fm_wf_upd; [done|exact Hw|by apply set_bit_u64| |done|done|exact Hcnt|done| |done].
    + intros i Hi. rewrite set_bit_testbit, Z.eqb_sym by lia. by destruct (i =? b mod 64).
    + simpl. case_match; [right|by left]. eauto.
  - pose proof (count_pos_bit Hwf o b Hv Hold) as Hpos.
    unfold ag in Hpos. rewrite Hcnt in Hpos. simpl in Hpos.
    rewrite checked_sub_Some by lia. cbn [mbind option_bind].
    rewrite (wf_valid _ _ Hwf) by lia. cbn [mbind option_bind]. eexists; split; [done|].
    eapply fm_wf_upd; [done|exact Hw|by apply clear_bit_u64| |done|done|exact Hcnt|done| |done].
    + intros i Hi. rewrite clear_bit_testbit, Z.eqb_sym by done.
      destruct (i =? b mod 64); by rewrite ?andb_false_r, ?andb_true_r.
    + simpl. case_match; [right|by left]. eexists; split; [|done].
      apply Z.mod_pos_bound. destruct Hv; lia.
Qed.
End writing.

(** ** Searching *)

(** The search as it is meant: the first free block of the order, in cyclic
    order from the cursor. *)
Definition find_first_ref (tp : Z) (fm : FixedFreeMap) (o : Z) : option FreeBit :=
  let blocks := nblocks tp o in
  let start := Z.min (ag (search_cursor fm) o) (blocks - 1) in
  first_some (fun b => if fbit tp fm o b then Some (mkbit tp o b) else None)
    (seqZ start (blocks - start) ++ seqZ 0 start).

Section searching.
Context {tp : Z} {fm : FixedFreeMap} (Hwf : fm_wf tp fm).
Context (o : Z) (Ho : 0 <= o < 11).

Let F (b : Z) : option FreeBit := if fbit tp fm o b then Some (mkbit tp o b) else None.

Lemma F_tail b : nblocks tp o <= b < 64 * nwords tp o -> F b = None.
Proof. intros. unfold F. by rewrite (wf_tail _ _ Hwf). Qed.

Lemma first_set_in_word_spec k m :
  0 <= k < nwords tp o -> is_u64 m ->
  first_set_in_word fm o k m =
    first_some (fun i => if Z.testbit m i then F (64 * k + i) else None) (seqZ 0 64).
Proof.
  intros Hk Hm. pose proof (wf_tp0 Hwf) as Htp.
  destruct (wf_word Hwf o k) as (w & Hw & Hu); [done..|].
  pose proof (word_in tp Htp o k Ho Hk). pose proof (wbase_succ tp Htp o ltac:(lia)).
  pose proof (wbase_bound tp Htp ltac:(apply Hwf)).
  pose proof (nwords_bounds tp Htp o ltac:(lia)). pose proof (nblocks_le tp Htp o ltac:(lia)).
  pose proof (wf_tp _ _ Hwf).
  assert (forall i, 0 <= i < 64 -> fbit tp fm o (64 * k + i) = Z.testbit w i) as Hbit.
  { intros i Hi. unfold fbit. rewrite (Z.mul_comm 64 k), (Z.add_comm (k * 64) i).
    rewrite Z.div_add, Z.mod_add, Z.div_small, Z.mod_small, Z.add_0_l, Hw by lia. done. }
  unfold first_set_in_word.
  rewrite (wf_base _ _ Hwf o), (wf_base _ _ Hwf (o + 1)) by lia. cbn [mbind option_bind].
  rewrite checked_add_Some by (unfold usize_max, u64_max; lia). cbn [mbind option_bind].
  destruct (Z.leb_spec (wbase tp (o + 1)) (wbase tp o + k)); [lia|].
  rewrite Hw. cbn [mbind option_bind].
  transitivity ((fun i => mkbit tp o (64 * k + i)) <$>
    first_some (fun i => if Z.testbit (Z.land w m) i then Some i else None) (seqZ 0 64)).
  2:{ rewrite <- first_some_map. apply first_some_ext. intros i Hi%elem_of_seqZ.
      rewrite Z.land_spec. unfold F. rewrite Hbit by lia.
      by destruct (Z.testbit w i), (Z.testbit m i). }
  destruct (Z.eqb_spec (Z.land w m) 0) as [->|Hne].
  { rewrite (proj2 (first_some_None _ _)); [done|]. intros. by rewrite Z.bits_0. }
  assert (is_u64 (Z.land w m)) as Hu2.
  { apply testbit_is_u64; [apply Z.land_nonneg; left; apply Hu|].
    intros i Hi. by rewrite Z.land_spec, (u64_testbit_high w). }
  pose proof (trailing_zeros_spec _ Hu2 Hne) as [Ht Htb].
  assert (first_some (fun i => if Z.testbit (Z.land w m) i then Some i else None) (seqZ 0 64)
          = Some (trailing_zeros (Z.land w m))) as ->.
  { unfold trailing_zeros in *. by destruct (first_some _ _); simpl in *; [|lia]. }
  set (t := trailing_zeros _) in *.
  rewrite Z.land_spec in Htb. apply andb_prop in Htb as [Htw Htm].
  rewrite checked_mul_Some by (unfold usize_max, u64_max; lia). cbn [mbind option_bind].
  rewrite checked_add_Some by (unfold usize_max, u64_max; lia). cbn [mbind option_bind].
  rewrite (wf_valid _ _ Hwf) by lia. cbn [mbind option_bind].
  destruct (Z.leb_spec (nblocks tp o) (k * 64 + t)).
  { pose proof (Hbit t Ht) as Hf. rewrite (wf_tail _ _ Hwf o) in Hf by lia. congruence. }
  destruct (Z.leb_spec 64 o); [lia|]. simpl. f_equal. unfold mkbit.
  rewrite shiftl_1 by lia. rewrite Z.shiftl_mul_pow2 by lia.
  rewrite (Z.mul_comm 64 k), (Z.add_comm (k * 64) t).
  rewrite Z.div_add, (Z.mod_add t), (Z.div_small t), (Z.mod_small t), Z.add_0_l by lia. f_equal.
  assert (2 ^ o <= 2 ^ 10) by (apply Z.pow_le_mono_r; lia).
  pose proof (pow2_pos o ltac:(lia)).
  rewrite Z.mod_small; [lia|]. split; [nia|]. change (2 ^ 64) with (2 ^ 54 * 2 ^ 10). nia.
Qed.

Lemma valid_mask_u64 k : is_u64 (valid_mask (nblocks tp o) k).
Proof.
  unfold valid_mask, saturating_sub. repeat case_match; try (unfold is_u64, u64_max; lia).
  zb; try done. rewrite shiftl_1 by lia.
  assert (2 ^ Z.max (nblocks tp o - saturating_mul k 64) 0 < 2 ^ 64) by (apply Z.pow_lt_mono_r; lia).
  pose proof (pow2_pos (Z.max (nblocks tp o - saturating_mul k 64) 0) ltac:(lia)).
  unfold is_u64. lia.
Qed.

Lemma ones_testbit n i : 0 <= n -> 0 <= i -> Z.testbit (2 ^ n - 1) i = (i <? n).
Proof.
  intros. replace (2 ^ n - 1) with (Z.ones n) by (rewrite Z.ones_equiv; lia).
  zb; [apply Z.ones_spec_low; lia|apply Z.ones_spec_high; lia].
Qed.

Lemma valid_mask_testbit k i :
  0 <= k < nwords tp o -> 0 <= i < 64 ->
  Z.testbit (valid_mask (nblocks tp o) k) i = (64 * k + i <? nblocks tp o).
Proof.
  intros Hk Hi. pose proof (wf_tp0 Hwf) as Htp. pose proof (wf_tp _ _ Hwf).
  pose proof (nwords_bounds tp Htp o ltac:(lia)). pose proof (nblocks_le tp Htp o ltac:(lia)).
  unfold valid_mask, saturating_sub, saturating_mul.
  rewrite (Z.min_l (k * 64)) by (unfold usize_max, u64_max; lia).
  destruct (Z.eqb_spec (Z.max (nblocks tp o - k * 64) 0) 0).
  { rewrite Z.bits_0. zb; [lia|done]. }
  destruct (Z.leb_spec 64 (Z.max (nblocks tp o - k * 64) 0)).
  - unfold u64_max. rewrite ones_testbit by lia. zb; try done; lia.
  - rewrite shiftl_1, ones_testbit by lia. zb; try done; lia.
Qed.

Lemma whole_word_spec k :
  0 <= k < nwords tp o ->
  first_set_in_word fm o k (valid_mask (nblocks tp o) k) = first_some F (seqZ (64 * k) 64).
Proof.
  intros Hk. rewrite first_set_in_word_spec by (done || apply valid_mask_u64).
  replace (seqZ (64 * k) 64) with (seqZ (64 * k + 0) 64) by (f_equal; lia).
  rewrite first_some_shift.
  apply first_some_ext. intros i Hi%elem_of_seqZ.
  rewrite valid_mask_testbit by lia. zb; [done|].
  symmetry. apply F_tail. lia.
Qed.

Lemma whole_words_spec a n :
  0 <= a -> 0 <= n -> a + n <= nwords tp o ->
  first_some (fun k => first_set_in_word fm o k (valid_mask (nblocks tp o) k)) (seqZ a n) =
  first_some F (seqZ (64 * a) (64 * n)).
Proof.
  intros. rewrite first_some_tile by lia. apply first_some_ext.
  intros k Hk%elem_of_seqZ. apply whole_word_spec. lia.
Qed.

(** A word searched under a mask that keeps the bits of [[lo, hi)]. *)
Lemma masked_word_spec k m lo hi :
  0 <= k < nwords tp o -> 0 <= lo -> lo <= hi -> hi <= 64 -> is_u64 m ->
  (forall i, 0 <= i < 64 -> Z.testbit m i = (lo <=? i) && (i <? hi)) ->
  first_set_in_word fm o k (Z.land m (valid_mask (nblocks tp o) k)) =
  first_some F (seqZ (64 * k + lo) (hi - lo)).
Proof.
  intros Hk Hlo Hlh Hhi Hu Hm. rewrite first_set_in_word_spec; [|done|].
  2:{ apply testbit_is_u64; [apply Z.land_nonneg; left; apply Hu|].
      intros i Hi. by rewrite Z.land_spec, (u64_testbit_high m). }
  rewrite first_some_shift.
  rewrite (seqZ_split 0 64 lo), (seqZ_split (0 + lo) (64 - lo) (hi - lo)) by lia.
  rewrite !first_some_app, !Z.add_0_l.
  rewrite (proj2 (first_some_None _ (seqZ 0 lo))).
  2:{ intros i Hi%elem_of_seqZ. rewrite Z.land_spec, Hm by lia. by zb; try lia. }
  rewrite (proj2 (first_some_None _ (seqZ (lo + (hi - lo)) _))).
  2:{ intros i Hi%elem_of_seqZ. rewrite Z.land_spec, Hm by lia. zb; try lia; done. }
  rewrite (first_some_ext _ (fun i => F (64 * k + i))).
  { by destruct (first_some _ _). }
  intros i Hi%elem_of_seqZ. rewrite Z.land_spec, Hm, valid_mask_testbit by lia.
  zb; try lia; [done|]. symmetry. apply F_tail. lia.
Qed.

Lemma suffix_mask_spec sb :
  0 <= sb < 64 ->
  is_u64 (Z.shiftl u64_max sb mod 2 ^ 64) /\
  forall i, 0 <= i < 64 -> Z.testbit (Z.shiftl u64_max sb mod 2 ^ 64) i = (sb <=? i) && (i <? 64).
Proof.
  intros Hsb. split; [apply Z.mod_pos_bound; lia|]. intros i Hi.
  rewrite Z.mod_pow2_bits_low, Z.shiftl_spec by lia. unfold u64_max.
  destruct (Z.leb_spec sb i); simpl.
  - rewrite ones_testbit by lia. zb; try done; lia.
  - by rewrite Z.testbit_neg_r by lia.
Qed.

Lemma prefix_mask_spec sb :
  0 <= sb < 64 ->
  is_u64 (Z.shiftl 1 sb - 1) /\
  forall i, 0 <= i < 64 -> Z.testbit (Z.shiftl 1 sb - 1) i = (0 <=? i) && (i <? sb).
Proof.
  intros Hsb. rewrite shiftl_1 by lia.
  pose proof (pow2_u64 sb ltac:(lia)) as [? ?]. pose proof (pow2_pos sb ltac:(lia)).
  split; [unfold is_u64; lia|]. intros i Hi. rewrite ones_testbit by lia. by zb; try lia.
Qed.

(** The word-wise search is the reference search. *)
Lemma find_first_correct :
  find_first fm o =
    if ag (block_count fm) o =? 0 then None else find_first_ref tp fm o.
Proof.
  pose proof (wf_tp0 Hwf) as Htp. pose proof (nblocks_nonneg tp Htp o ltac:(lia)).
  pose proof (count_range Hwf o Ho). pose proof (nwords_bounds tp Htp o ltac:(lia)).
  pose proof (wbase_succ tp Htp o ltac:(lia)).
  unfold find_first. rewrite (wf_valid _ _ Hwf o Ho). cbn [mbind option_bind].
  destruct (zget_range (block_count fm) o) as [c Hc].
  { rewrite (wf_len_count _ _ Hwf). lia. }
  assert (ag (block_count fm) o = c) as Hag by (unfold ag; by rewrite Hc).
  rewrite Hag in *. rewrite Hc. cbn [mbind option_bind].
  destruct (Z.eqb_spec c 0) as [->|Hcn]; [by case_match|].
  destruct (Z.eqb_spec (nblocks tp o) 0) as [|Hb]; [simpl in *; lia|].
  rewrite (wf_base _ _ Hwf o), (wf_base _ _ Hwf (o + 1)) by lia. cbn [mbind option_bind].
  rewrite checked_sub_Some by lia. cbn [mbind option_bind].
  replace (wbase tp (o + 1) - wbase tp o) with (nwords tp o) by lia.
  destruct (Z.eqb_spec (nwords tp o) 0); [lia|].
  unfold find_first_ref. fold F.
  destruct (zget_range (search_cursor fm) o) as [cur Hcur].
  { rewrite (wf_len_cursor _ _ Hwf). lia. }
  pose proof (wf_cursor _ _ Hwf _ _ Hcur) as Hc0.
  assert (ag (search_cursor fm) o = cur) as -> by (unfold ag; by rewrite Hcur).
  set (st := Z.min cur (nblocks tp o - 1)). assert (0 <= st < nblocks tp o) as Hst by lia.
  pose proof (Z.div_mod st 64 ltac:(lia)) as Hdm. pose proof (Z.mod_pos_bound st 64 ltac:(lia)) as Hsb.
  assert (0 <= st / 64 < nwords tp o) as Hsw.
  { split; [apply Z.div_pos; lia|apply Z.div_lt_upper_bound; lia]. }
  destruct (suffix_mask_spec (st mod 64) Hsb) as [Hu1 Hm1].
  destruct (prefix_mask_spec (st mod 64) Hsb) as [Hu2 Hm2].
  rewrite (masked_word_spec (st / 64) _ (st mod 64) 64 Hsw ltac:(lia) ltac:(lia) ltac:(lia) Hu1 Hm1).
  rewrite (masked_word_spec (st / 64) _ 0 (st mod 64) Hsw ltac:(lia) ltac:(lia) ltac:(lia) Hu2 Hm2).
  rewrite !whole_words_spec by lia.
  transitivity (first_some F (seqZ st (64 * nwords tp o - st) ++ seqZ 0 st)).
  - rewrite (seqZ_split st (64 * nwords tp o - st) (64 - st mod 64)) by lia.
    rewrite (seqZ_split 0 st (64 * (st / 64))) by lia. rewrite !first_some_app.
    replace (64 * (st / 64) + st mod 64) with st by lia.
    replace (st + (64 - st mod 64)) with (64 * (st / 64 + 1)) by lia.
    replace (64 * nwords tp o - st - (64 - st mod 64))
      with (64 * (nwords tp o - (st / 64 + 1))) by lia.
    replace (0 + 64 * (st / 64)) with (64 * (st / 64) + 0) by lia.
    replace (st - 64 * (st / 64)) with (st mod 64 - 0) by lia.
    destruct (first_some F (seqZ st _)); [done|].
    destruct (first_some F (seqZ (64 * (st / 64 + 1)) _)); [done|].
    rewrite Z.mul_0_r. destruct (first_some F (seqZ 0 _)); [done|].
    destruct (Z.eqb_spec (st mod 64) 0) as [->|]; done.
  - rewrite (seqZ_split st (64 * nwords tp o - st) (nblocks tp o - st)) by lia.
    rewrite <- app_assoc, !first_some_app.
    rewrite (proj2 (first_some_None _ (seqZ (st + _) _))); [done|].
    intros b Hbb%elem_of_seqZ. apply F_tail. lia.
Qed.

(** The search succeeds exactly when the order has a free block, and what it
    returns is one. *)
Lemma find_first_Some bit :
  find_first fm o = Some bit ->
  exists b, vblock tp o b /\ fbit tp fm o b = true /\ bit = mkbit tp o b.
Proof.
  rewrite find_first_correct. destruct (Z.eqb_spec (ag (block_count fm) o) 0) as [|Hne]; [done|].
  pose proof (count_range Hwf o Ho).
  destruct (count_pos_ex Hwf o Ho) as (b0 & [_ Hb0] & _); [lia|].
  intros (b & Hb & Hf)%first_some_Some. exists b. fold F in Hf.
  destruct (fbit tp fm o b) eqn:E; simplify_eq. split; [|done]. split; [done|].
  pose proof (zget_range (search_cursor fm) o) as [cur Hcur].
  { rewrite (wf_len_cursor _ _ Hwf). lia. }
  pose proof (wf_cursor _ _ Hwf _ _ Hcur). unfold ag in Hb. rewrite Hcur in Hb. simpl in Hb.
  apply elem_of_app in Hb as [Hb%elem_of_seqZ|Hb%elem_of_seqZ]; lia.
Qed.

Lemma find_first_is_Some :
  0 < ag (block_count fm) o -> exists bit, find_first fm o = Some bit.
Proof.
  intros Hpos. rewrite find_first_correct. destruct (Z.eqb_spec (ag (block_count fm) o) 0); [lia|].
  destruct (find_first_ref tp fm o) as [bit|] eqn:E; [eauto|exfalso].
  unfold find_first_ref in E. rewrite first_some_None in E.
  destruct (count_pos_ex Hwf o Ho Hpos) as (b & [_ Hb] & Hset).
  specialize (E b). rewrite Hset in E. discriminate E.
  rewrite elem_of_app, !elem_of_seqZ. lia.
Qed.
End searching.

(** ** Construction *)
Lemma existsb_replicate_0 n : existsb (fun w => negb (w =? 0)) (replicate n 0) = false.
Proof. by induction n. Qed.

Section construction.
Context (tp : Z) (Htp : 0 <= tp <= 2 ^ 40).

(** The layout after the rounds for the orders below [o]. *)
Record lay_upto (o : Z) (lay : FreeMapLayout) : Prop := {
  lu_base_len : zlen (lay_word_base lay) = 12;
  lu_valid_len : zlen (lay_valid_blocks lay) = 11;
  lu_base : forall k, 0 <= k < o -> zget (lay_word_base lay) k = Some (wbase tp k);
  lu_valid : forall k, 0 <= k < o -> zget (lay_valid_blocks lay) k = Some (nblocks tp k);
  lu_total : lay_total_words lay = wbase tp o;
}.

Lemma layout_step_ok o lay :
  0 <= o < 11 -> lay_upto o lay ->
  exists lay', layout_step tp lay o = Ok lay' /\ lay_upto (o + 1) lay'.
Proof.
  intros Ho []. assert (0 <= tp) as Htp0 by lia.
  pose proof (wbase_succ tp Htp0 o ltac:(lia)) as Hs.
  pose proof (wbase_mono tp Htp0 (o + 1) 11 ltac:(lia)).
  pose proof (wbase_bound tp Htp0 ltac:(lia)).
  unfold layout_step. rewrite shiftl_1 by lia. fold (nblocks tp o). cbv zeta.
  fold (nwords tp o). rewrite lu_total0.
  rewrite checked_add_Some by (unfold usize_max, u64_max; lia). simpl.
  eexists; split; [done|]. split; simpl; rewrite ?zlen_zset; try done.
  - intros k Hk. destruct (decide (o = k)) as [<-|].
    + rewrite zget_zset_eq by lia. done.
    + rewrite zget_zset_ne by done. apply lu_base0. lia.
  - intros k Hk. destruct (decide (o = k)) as [<-|].
    + rewrite zget_zset_eq by lia. done.
    + rewrite zget_zset_ne by done. apply lu_valid0. lia.
Qed.

Lemma layout_loop_ok n : forall o lay,
  0 <= o -> o + Z.of_nat n = 11 -> lay_upto o lay ->
  exists lay', layout_loop tp lay (seqZ o (Z.of_nat n)) = Ok lay' /\ lay_upto 11 lay'.
Proof.
  induction n as [|n IH]; intros o lay Ho Hn Hlay.
  - exists lay. replace o with 11 in * by lia. done.
  - rewrite seqZ_cons by lia. cbn [layout_loop].
    destruct (layout_step_ok o lay) as (lay1 & -> & H1); [lia|done|]. cbn [res_bind].
    replace (Z.pred (Z.of_nat (S n))) with (Z.of_nat n) by lia.
    replace (Z.succ o) with (o + 1) by lia. apply IH; [lia|lia|done].
Qed.

Lemma layout_new_ok :
  exists lay, layout_new tp = Ok lay /\ lay_total_words lay = wbase tp 11 /\
    zlen (lay_word_base lay) = 12 /\ zlen (lay_valid_blocks lay) = 11 /\
    (forall o, 0 <= o <= 11 -> zget (lay_word_base lay) o = Some (wbase tp o)) /\
    (forall o, 0 <= o < 11 -> zget (lay_valid_blocks lay) o = Some (nblocks tp o)).
Proof.
  unfold layout_new, ORDER_COUNT.
  destruct (layout_loop_ok 11 0 (mkLayout (replicate 12 0) (replicate 11 0) 0))
    as (lay & Hl & []); [lia|lia| |].
  { split; simpl; try done; intros; lia. }
  change (Z.of_nat 11) with 11 in Hl. rewrite Hl. simpl. eexists; split; [done|]. simpl.
  rewrite zlen_zset. split_and!; try done.
  intros o Ho. destruct (decide (11 = o)) as [<-|].
  - rewrite zget_zset_eq by lia. by rewrite lu_total0.
  - rewrite zget_zset_ne by done. apply lu_base0. lia.
Qed.

(** A bitmap over zeroed storage is well formed and has no free block. *)
Lemma from_storage_ok lay :
  layout_new tp = Ok lay ->
  exists fm, from_storage lay (replicate (Z.to_nat (lay_total_words lay)) 0) = Ok fm /\
    fm_wf tp fm /\ forall o b, fbit tp fm o b = false.
Proof.
  intros Hl. destruct layout_new_ok as (lay' & Hl' & Htot & Hlb & Hlv & Hb & Hv).
  rewrite Hl in Hl'. simplify_eq.
  pose proof (wbase_nonneg tp ltac:(lia) 11 ltac:(lia)).
  unfold from_storage. rewrite zlen_replicate, Z2Nat.id, Z.eqb_refl by lia. simpl.
  rewrite (existsb_replicate_0).
  eexists; split; [done|].
  assert (forall o b, fbit tp {| words := replicate (Z.to_nat (lay_total_words lay')) 0;
     word_base := lay_word_base lay'; valid_blocks := lay_valid_blocks lay';
     block_count := replicate 11 0; search_cursor := replicate 11 0 |} o b = false) as Hf.
  { intros o b. unfold fbit; simpl.
    destruct (zget _ _) as [w|] eqn:E; simpl; [|apply Z.bits_0].
    apply zget_in, elem_of_replicate in E as [-> _]. apply Z.bits_0. }
  split; [|done]. split; simpl; try done.
  - rewrite zlen_replicate, Htot. lia.
  - intros i w [-> _]%zget_in%elem_of_replicate. done.
  - intros i c Hc. apply zget_in in Hc. change (c ∈ replicate 11 0) in Hc.
    by apply elem_of_replicate in Hc as [-> _].
  - intros o Ho. rewrite sumZ_zero by (intros; by rewrite Hf).
    change (zget (replicate 11 0) o = Some 0). apply zget_replicate. lia.
Qed.
End construction.
