(* ===== verification/Buddy.v ===== *)
(** The buddy physical page allocator ([BuddyAllocator] and the global entry
    points of kernel/mm/buddy_allocator.rs).

    Every operation is the whole function of the source.  [try_alloc_pages] and
    [try_free_pages] keep the source's two phases: a preflight that reads the
    metadata and either fails (saying whether the failure poisons the
    allocator) or returns the transaction, and a commit that only writes. *)

From Stdlib Require Import ZArith Lia.
From stdpp Require Import base list list_numbers numbers.
From S2P Require Import Prelude.
From S2P Require Import Machine.
From S2P Require Import FreeMap.

(** * Physical addresses of the [x86_64] crate

    [PhysAddr::try_new] rejects an address with a bit above bit 51;
    [PhysFrame::from_start_address] rejects one that is not page aligned. *)
Class PhysArch := {
  phys_addr_try_new : Z -> bool;
  phys_frame_from_start : Z -> bool;
}.

Class PhysArchLaws (arch : PhysArch) : Prop := {
  phys_addr_try_new_spec : forall a, 0 <= a -> phys_addr_try_new a = (a <? 2 ^ 52);
  phys_frame_from_start_spec : forall a, 0 <= a -> phys_frame_from_start a = (a mod 4096 =? 0);
}.

Inductive AllocError :=
| InvalidOrder | Exhausted | AllocUnavailable | AllocAddressOverflow
| AllocMetadataCorrupt | AllocPoisoned.

Inductive FreeError :=
| InvalidCount | OrderTooLarge | FreeUnavailable | AddressBelowBase | AddressMisaligned
| RangeOutOfBounds | NotAllocationStart | OrderMismatch | PageNotAllocated | ReservedPage
| FreeMetadataCorrupt | FreePoisoned.

#[global] Instance AllocError_eq_dec : EqDecision AllocError.
Proof. solve_decision. Defined.
#[global] Instance FreeError_eq_dec : EqDecision FreeError.
Proof. solve_decision. Defined.

Definition is_metadata_corruption (e : FreeError) : bool :=
  match e with FreeMetadataCorrupt | FreePoisoned => true | _ => false end.

Record BuddyAllocator := mkBuddy {
  free_map : FixedFreeMap;
  page_state : list Z;
  base_addr : Z;
  total_pages : Z;
  free_pages : Z;
  reserved_pages : Z;
  poisoned : bool;
}.

Definition poison (self : BuddyAllocator) : BuddyAllocator :=
  mkBuddy (free_map self) (page_state self) (base_addr self) (total_pages self)
    (free_pages self) (reserved_pages self) true.

Definition with_metadata (self : BuddyAllocator) (fm : FixedFreeMap) (ps : list Z) (fp : Z)
  : BuddyAllocator :=
  mkBuddy fm ps (base_addr self) (total_pages self) fp (reserved_pages self) (poisoned self).

(** [v[i] = x]; [None] is the out-of-range abort. *)
Definition zput {A} (l : list A) (i : Z) (x : A) : option (list A) :=
  if (0 <=? i) && (i <? zlen l) then Some (zset l i x) else None.

(** [for i in lo..lo+n { v[i] = x }] *)
Fixpoint fill_loop {A} (l : list A) (ixs : list Z) (x : A) : option (list A) :=
  match ixs with
  | [] => Some l
  | i :: ixs => l' ← zput l i x; fill_loop l' ixs x
  end.
Definition fill {A} (l : list A) (lo n : Z) (x : A) : option (list A) :=
  fill_loop l (seqZ lo n) x.

(** Apply [commit_set] to each bit in turn. *)
Fixpoint commit_all (fm : FixedFreeMap) (bits : list FreeBit) (v : bool) : option FixedFreeMap :=
  match bits with
  | [] => Some fm
  | bit :: bits => fm' ← commit_set fm bit v; commit_all fm' bits v
  end.

(** * Queries *)
Definition range_is_free (self : BuddyAllocator) (start_idx pages : Z) : bool :=
  match checked_add start_idx pages with
  | Some e =>
      if e <=? zlen (page_state self) then
        forallb (fun i => bool_decide (zget (page_state self) i = Some PAGE_FREE)) (seqZ start_idx pages)
      else false
  | None => false
  end.

Definition bit_is_allowed (bit : FreeBit) (allowed : list FreeBit) : bool :=
  existsb (fun c => (order c =? order bit) && (block_idx c =? block_idx bit)) allowed.

(** One order of the overlap scan: some block of the order that meets the range
    is free and not allowed. *)
Definition overlap_at (self : BuddyAllocator) (start_idx end_idx : Z) (allowed : list FreeBit) (o : Z) : bool :=
  let block_pages := Z.shiftl 1 o in
  let first := start_idx / block_pages in
  let last := (end_idx - 1) / block_pages in
  existsb (fun block_no =>
    match checked_mul block_no block_pages with
    | None => true
    | Some idx =>
        match location (free_map self) o idx with
        | None => false
        | Some bit => is_set (free_map self) bit && negb (bit_is_allowed bit allowed)
        end
    end) (seqZ first (last + 1 - first)).

Definition has_unexpected_free_overlap (self : BuddyAllocator) (start_idx pages : Z)
    (allowed : list FreeBit) : bool :=
  match checked_add start_idx pages with
  | None => true
  | Some end_idx =>
      if (pages =? 0) || (total_pages self <? end_idx) then true
      else existsb (overlap_at self start_idx end_idx allowed) (seqZ 0 ORDER_COUNT)
  end.

(** * Allocation *)

(** The source search of [try_alloc_pages]: the smallest order with a free
    block; [Err] when a counter promises a block the bitmap does not have. *)
Fixpoint find_source (fm : FixedFreeMap) (orders : list Z) : res AllocError (option FreeBit) :=
  match orders with
  | [] => Ok None
  | o :: orders =>
      let recorded := default 0 (count_for_order fm o) in
      if recorded =? 0 then find_source fm orders
      else match find_first fm o with
           | None => Err AllocMetadataCorrupt
           | Some bit => Ok (Some bit)
           end
  end.

(** A failed preflight: the error, and whether the allocator is poisoned. *)
Abbreviation alloc_fail := (AllocError * bool)%type.

(** The split loop [while current_order > order], from the order below the
    source's down to the requested one. *)
Fixpoint split_loop (fm : FixedFreeMap) (src_idx : Z) (orders : list Z)
  : res alloc_fail (list FreeBit) :=
  match orders with
  | [] => Ok []
  | current_order :: orders =>
      let? buddy_idx := ok_or (checked_add src_idx (Z.shiftl 1 current_order)) (AllocMetadataCorrupt, false) in
      let? bit := ok_or (location fm current_order buddy_idx) (AllocMetadataCorrupt, false) in
      if is_set fm bit || (ag (block_count fm) current_order =? usize_max)
      then Err (AllocMetadataCorrupt, true)
      else let? rest := split_loop fm src_idx orders in Ok (bit :: rest)
  end.

(** Orders [hi-1, hi-2, ..., lo]. *)
Definition orders_down (hi lo : Z) : list Z := reverse (seqZ lo (hi - lo)).

Record AllocPlan := mkAllocPlan {
  plan_source : FreeBit;
  plan_split : list FreeBit;
  plan_free_pages : Z;
  plan_phys : Z;
}.

Section allocation.
Context {arch : PhysArch}.

Definition alloc_preflight (self : BuddyAllocator) (ord : Z) : res alloc_fail AllocPlan :=
  if poisoned self then Err (AllocPoisoned, false) else
  if ORDER_COUNT <=? ord then Err (InvalidOrder, false) else
  let? found := match find_source (free_map self) (seqZ ord (ORDER_COUNT - ord)) with
                | Ok found => Ok found
                | Err e => Err (e, true)
                | Panic => Panic
                end in
  let? source := ok_or found (Exhausted, false) in
  let source_pages := Z.shiftl 1 (order source) in
  if negb (range_is_free self (block_idx source) source_pages) then Err (AllocMetadataCorrupt, true) else
  if has_unexpected_free_overlap self (block_idx source) source_pages [source]
  then Err (AllocMetadataCorrupt, true) else
  let target_pages := Z.shiftl 1 ord in
  let? new_free_pages := ok_or (checked_sub (free_pages self) target_pages) (AllocMetadataCorrupt, true) in
  let? byte_offset := ok_or (checked_mul (block_idx source) PAGE_SIZE) (AllocAddressOverflow, false) in
  let? phys := ok_or (checked_add (base_addr self) byte_offset) (AllocAddressOverflow, false) in
  if negb (phys_addr_try_new phys) then Err (AllocAddressOverflow, false) else
  if negb (phys_frame_from_start phys) then Err (AllocAddressOverflow, false) else
  let? split := split_loop (free_map self) (block_idx source) (orders_down (order source) ord) in
  if ag (block_count (free_map self)) (order source) =? 0 then Err (AllocMetadataCorrupt, true) else
  Ok (mkAllocPlan source split new_free_pages phys).

(** The commit phase; an abort leaves no state to speak of. *)
Definition alloc_commit (self : BuddyAllocator) (ord : Z) (plan : AllocPlan)
  : res AllocError Z * BuddyAllocator :=
  let src := plan_source plan in
  match (fm ← commit_set (free_map self) src false; commit_all fm (plan_split plan) true) with
  | None => (Panic, self)
  | Some fm =>
      let self1 := with_metadata self fm (page_state self) (free_pages self) in
      match allocation_start_state ord, allocation_tail_state ord with
      | Some start_state, Some tail_state =>
          match (ps ← zput (page_state self) (block_idx src) start_state;
                 fill ps (block_idx src + 1) (Z.shiftl 1 ord - 1) tail_state) with
          | None => (Panic, self)
          | Some ps => (Ok (plan_phys plan), with_metadata self fm ps (plan_free_pages plan))
          end
      | _, _ => (Err InvalidOrder, self1)
      end
  end.

Definition try_alloc_pages (self : BuddyAllocator) (ord : Z) : res AllocError Z * BuddyAllocator :=
  match alloc_preflight self ord with
  | Ok plan => alloc_commit self ord plan
  | Err (e, p) => (Err e, if p then poison self else self)
  | Panic => (Panic, self)
  end.

Definition alloc_pages (self : BuddyAllocator) (ord : Z) : option Z * BuddyAllocator :=
  match try_alloc_pages self ord with
  | (Ok frame, self) => (Some frame, self)
  | (_, self) => (None, self)
  end.
End allocation.

(** * Deallocation *)
Abbreviation free_fail := (FreeError * bool)%type.

(** The merge loop of [try_free_pages]; [fuel] bounds its rounds, one per order
    below [ORDER_COUNT - 1]. *)
Fixpoint merge_loop (fuel : nat) (self : BuddyAllocator) (merged_start final_order : Z)
    (merge_bits : list FreeBit) : res free_fail (list FreeBit * Z * Z) :=
  match fuel with
  | O => Panic
  | S fuel =>
      if final_order <? ORDER_COUNT - 1 then
        let buddy_pages := Z.shiftl 1 final_order in
        let buddy_idx := Z.lxor merged_start buddy_pages in
        if (match checked_add buddy_idx buddy_pages with
            | None => true | Some e => total_pages self <? e end)
        then Ok (merge_bits, merged_start, final_order)
        else
          let? bit := ok_or (location (free_map self) final_order buddy_idx) (FreeMetadataCorrupt, true) in
          if is_set (free_map self) bit then
            if negb (range_is_free self buddy_idx buddy_pages)
               || (ag (block_count (free_map self)) final_order =? 0)
            then Err (FreeMetadataCorrupt, true)
            else merge_loop fuel self (Z.min merged_start buddy_idx) (final_order + 1) (merge_bits ++ [bit])
          else if range_is_free self buddy_idx buddy_pages then Err (FreeMetadataCorrupt, true)
          else Ok (merge_bits, merged_start, final_order)
      else Ok (merge_bits, merged_start, final_order)
  end.

Record FreePlan := mkFreePlan {
  fplan_block_idx : Z;
  fplan_merge : list FreeBit;
  fplan_final : FreeBit;
  fplan_free_pages : Z;
}.

(** The checks of [try_free_pages] up to the merge: the start of the block in
    the window, or the reason it is rejected. *)
Definition free_validate (self : BuddyAllocator) (frame ord : Z) : res free_fail Z :=
  if poisoned self then Err (FreePoisoned, false) else
  if ORDER_COUNT <=? ord then Err (OrderTooLarge, false) else
  if frame <? base_addr self then Err (AddressBelowBase, false) else
  let offset := frame - base_addr self in
  if negb (offset mod PAGE_SIZE =? 0) then Err (AddressMisaligned, false) else
  let idx := offset / PAGE_SIZE in
  let pages := Z.shiftl 1 ord in
  if negb (Z.land idx (pages - 1) =? 0) then Err (AddressMisaligned, false) else
  if (match checked_add idx pages with None => true | Some e => total_pages self <? e end)
  then Err (RangeOutOfBounds, false) else
  let? start_state := ok_or (zget (page_state self) idx) (RangeOutOfBounds, false) in
  if start_state =? PAGE_RESERVED then Err (ReservedPage, false) else
  if (start_state =? PAGE_FREE) || bool_decide (is_Some (decode_allocation_tail start_state))
  then Err (NotAllocationStart, false) else
  let? recorded_order := ok_or (decode_allocation_start start_state) (NotAllocationStart, false) in
  if negb (recorded_order =? ord) then Err (OrderMismatch, false) else
  let? expected_tail := ok_or (allocation_tail_state ord) (OrderTooLarge, false) in
  if existsb (fun i => negb (bool_decide (zget (page_state self) i = Some expected_tail)))
       (seqZ (idx + 1) (pages - 1))
  then Err (FreeMetadataCorrupt, true) else
  if has_unexpected_free_overlap self idx pages [] then Err (FreeMetadataCorrupt, true) else
  Ok idx.

Definition free_preflight (self : BuddyAllocator) (frame ord : Z) : res free_fail FreePlan :=
  let? idx := free_validate self frame ord in
  let pages := Z.shiftl 1 ord in
  let? (merge_bits, merged_start, final_order) := merge_loop 12 self idx ord [] in
  if has_unexpected_free_overlap self merged_start (Z.shiftl 1 final_order) merge_bits
  then Err (FreeMetadataCorrupt, true) else
  let? final_bit := ok_or (location (free_map self) final_order merged_start) (FreeMetadataCorrupt, true) in
  if is_set (free_map self) final_bit || (ag (block_count (free_map self)) final_order =? usize_max)
  then Err (FreeMetadataCorrupt, true) else
  let? new_free_pages := ok_or (checked_add (free_pages self) pages) (FreeMetadataCorrupt, true) in
  if saturating_sub (total_pages self) (reserved_pages self) <? new_free_pages
  then Err (FreeMetadataCorrupt, true) else
  Ok (mkFreePlan idx merge_bits final_bit new_free_pages).

Definition free_commit (self : BuddyAllocator) (ord : Z) (plan : FreePlan)
  : res FreeError unit * BuddyAllocator :=
  match (fm ← commit_all (free_map self) (fplan_merge plan) false;
         ps ← fill (page_state self) (fplan_block_idx plan) (Z.shiftl 1 ord) PAGE_FREE;
         fm' ← commit_set fm (fplan_final plan) true;
         Some (fm', ps)) with
  | None => (Panic, self)
  | Some (fm, ps) => (Ok tt, with_metadata self fm ps (fplan_free_pages plan))
  end.

Definition try_free_pages (self : BuddyAllocator) (frame ord : Z) : res FreeError unit * BuddyAllocator :=
  match free_preflight self frame ord with
  | Ok plan => free_commit self ord plan
  | Err (e, p) => (Err e, if p then poison self else self)
  | Panic => (Panic, self)
  end.

(** [free_pages]: the same, quarantining the allocator on a corrupt ledger. *)
Definition free_pages_or_quarantine (self : BuddyAllocator) (frame ord : Z) : BuddyAllocator :=
  match try_free_pages self frame ord with
  | (Err e, self) => if is_metadata_corruption e then poison self else self
  | (_, self) => self
  end.
