(* ===== verification/BuddyBoot.v ===== *)
(** Construction, audit and the global entry points of the buddy allocator
    (kernel/mm/buddy_allocator.rs). *)

From Stdlib Require Import ZArith Lia.
From stdpp Require Import base list list_numbers numbers.
From S2P Require Import Prelude.
From S2P Require Import Machine.
From S2P Require Import FreeMap.
From S2P Require Import Buddy.

(** * Audit: [validate_metadata] *)

(** No block of order [o] is free together with its buddy. *)
Definition buddies_coalesced (fm : FixedFreeMap) (o : Z) : bool :=
  forallb (fun block_no =>
    let idx := Z.shiftl block_no o in
    match location fm o idx with
    | None => false
    | Some bit =>
        if is_set fm bit then
          match location fm o (Z.lxor idx (Z.shiftl 1 o)) with
          | Some buddy => negb (is_set fm buddy)
          | None => true
          end
        else true
    end) (seqZ 0 (ag (valid_blocks fm) o)).

(** The loop over the orders: counters, coalescing, and the weighted number of
    free pages. *)
Fixpoint validate_orders (fm : FixedFreeMap) (orders : list Z) (weighted_free : Z) : option Z :=
  match orders with
  | [] => Some weighted_free
  | o :: orders =>
      actual ← count_actual fm o;
      if negb (actual =? ag (block_count fm) o) then None else
      w ← checked_mul actual (Z.shiftl 1 o);
      weighted_free ← checked_add weighted_free w;
      if (o + 1 <? ORDER_COUNT) && negb (buddies_coalesced fm o) then None
      else validate_orders fm orders weighted_free
  end.

(** How many free blocks cover a page. *)
Definition covering (fm : FixedFreeMap) (page : Z) : Z :=
  sumZ (fun o =>
    let block_pages := Z.shiftl 1 o in
    match location fm o ((page / block_pages) * block_pages) with
    | Some bit => Z.b2z (is_set fm bit)
    | None => 0
    end) (seqZ 0 ORDER_COUNT).

(** The loop over the pages, which counts the reserved ones. *)
Fixpoint validate_pages (fuel : nat) (self : BuddyAllocator) (page reserved : Z) : option Z :=
  match fuel with
  | O => None
  | S fuel =>
      if page <? total_pages self then
        state ← zget (page_state self) page;
        if state =? PAGE_RESERVED then
          if has_unexpected_free_overlap self page 1 [] then None else
          reserved ← checked_add reserved 1;
          validate_pages fuel self (page + 1) reserved
        else if state =? PAGE_FREE then
          if negb (covering (free_map self) page =? 1) then None
          else validate_pages fuel self (page + 1) reserved
        else
          ord ← decode_allocation_start state;
          let pages := Z.shiftl 1 ord in
          if negb (Z.land page (pages - 1) =? 0)
             || (match checked_add page pages with None => true | Some e => total_pages self <? e end)
          then None else
          tail ← allocation_tail_state ord;
          if existsb (fun i => negb (bool_decide (zget (page_state self) i = Some tail)))
               (seqZ (page + 1) (pages - 1)) then None else
          if has_unexpected_free_overlap self page pages [] then None
          else validate_pages fuel self (page + pages) reserved
      else Some reserved
  end.

Definition validate_metadata (self : BuddyAllocator) : bool :=
  if negb (zlen (page_state self) =? total_pages self) then false else
  match validate_orders (free_map self) (seqZ 0 ORDER_COUNT) 0 with
  | None => false
  | Some weighted_free =>
      if negb (weighted_free =? free_pages self) then false else
      match validate_pages (S (Z.to_nat (total_pages self))) self 0 0 with
      | None => false
      | Some reserved => reserved =? reserved_pages self
      end
  end.

(** * Statistics *)

(** [stats]; [largest_free_block] is what the fragmentation ratio is computed
    from, and [None] is the unchecked subtraction overflowing. *)
Record AllocatorStats := mkStats {
  st_total_pages : Z;
  st_free_pages : Z;
  st_reserved_pages : Z;
  st_used_pages : Z;
  st_largest_free_block : Z;
}.

Definition largest_free_block (self : BuddyAllocator) : Z :=
  foldl (fun largest o =>
    let block_size := Z.shiftl 1 o in
    if negb (ag (block_count (free_map self)) o =? 0) && (largest <? block_size)
    then block_size else largest) 0 (seqZ 0 ORDER_COUNT).

Definition stats (self : BuddyAllocator) : option AllocatorStats :=
  used ← checked_sub (total_pages self) (free_pages self);
  Some (mkStats (total_pages self) (free_pages self) (reserved_pages self) used (largest_free_block self)).

(** * Construction *)

Definition validated_page_count `{arch : PhysArch} (base size : Z) : res BuddyInitError Z :=
  if size =? 0 then Err EmptyRegion else
  if negb (is_multiple_of size PAGE_SIZE) || negb (is_multiple_of base PAGE_SIZE)
  then Err RegionMisaligned else
  let? region_end := ok_or (checked_add base size) InitAddressOverflow in
  if (region_end =? 0) || negb (phys_addr_try_new (region_end - 1))
  then Err InitAddressOverflow
  else Ok (size / PAGE_SIZE).

Definition checked_next_multiple_of (a b : Z) : option Z :=
  if a mod b =? 0 then Some a else checked_add a (b - a mod b).

Definition state_bytes (pages : Z) : res BuddyInitError Z :=
  ok_or (checked_next_multiple_of pages 8) MetadataSizeOverflow.

Definition word_bytes (layout : FreeMapLayout) : res BuddyInitError Z :=
  ok_or (checked_mul (lay_total_words layout) 8) MetadataSizeOverflow.

Definition metadata_bytes (size : Z) : res BuddyInitError Z :=
  let pages := size / PAGE_SIZE in
  let? layout := layout_new pages in
  let? sb := state_bytes pages in
  let? wb := word_bytes layout in
  ok_or (checked_add sb wb) MetadataSizeOverflow.

(** One page of a reservation: withheld once however many ranges cover it. *)
Definition mark_page (st : list Z * Z) (page_idx : Z) : option (list Z * Z) :=
  state ← zget st.1 page_idx;
  if state =? PAGE_FREE then
    n ← checked_add st.2 1;
    Some (zset st.1 page_idx PAGE_RESERVED, n)
  else Some st.

Fixpoint mark_pages (st : list Z * Z) (pages : list Z) : option (list Z * Z) :=
  match pages with
  | [] => Some st
  | p :: pages => st ← mark_page st p; mark_pages st pages
  end.

(** The page range a reservation withholds: clamped to the window
    [[region_start, region_end)], rounded outward to whole pages. *)
Definition reservation_pages (region_start region_end total : Z) (r : Z * Z) : option (Z * Z) :=
  let '(phys_start, len_bytes) := r in
  if len_bytes =? 0 then None else
  let phys_end := saturating_add phys_start len_bytes in
  if (phys_end <=? region_start) || (region_end <=? phys_start) then None else
  let rel_start := Z.max phys_start region_start - region_start in
  let rel_end := Z.min phys_end region_end - region_start in
  let start_idx := rel_start / PAGE_SIZE in
  let end_idx := Z.min (rel_end / PAGE_SIZE + (if is_multiple_of rel_end PAGE_SIZE then 0 else 1)) total in
  Some (start_idx, end_idx).

Fixpoint mark_ranges (base region_end total : Z) (st : list Z * Z) (reserved : list (Z * Z))
  : option (list Z * Z) :=
  match reserved with
  | [] => Some st
  | r :: reserved =>
      st ← match reservation_pages base region_end total r with
           | None => Some st
           | Some (s, e) => mark_pages st (seqZ s (e - s))
           end;
      mark_ranges base region_end total st reserved
  end.

Definition mark_reserved_ranges (base total : Z) (st : list Z * Z) (reserved : list (Z * Z))
  : option (list Z * Z) :=
  region_bytes ← checked_mul total PAGE_SIZE;
  mark_ranges base (saturating_add base region_bytes) total st reserved.

Definition largest_aligned_order (start_idx remaining : Z) : Z :=
  default 0 (first_some (fun o =>
    let block_pages := Z.shiftl 1 o in
    if (block_pages <=? remaining) && (Z.land start_idx (block_pages - 1) =? 0)
    then Some o else None) (orders_down ORDER_COUNT 1)).

(** [while start_idx < end_idx]; each round frees at least one page, so
    [end_idx - start_idx] rounds suffice. *)
Fixpoint add_free_run_loop (fuel : nat) (fm : FixedFreeMap) (start_idx end_idx : Z)
  : res BuddyInitError FixedFreeMap :=
  if start_idx <? end_idx then
    match fuel with
    | O => Panic
    | S fuel =>
        let remaining := end_idx - start_idx in
        let ord := largest_aligned_order start_idx remaining in
        let? bit := ok_or (location fm ord start_idx) InitMetadataCorrupt in
        if is_set fm bit || (ag (block_count fm) ord =? usize_max) then Err InitMetadataCorrupt else
        let? fm := or_panic (commit_set fm bit true) in
        add_free_run_loop fuel fm (start_idx + Z.shiftl 1 ord) end_idx
    end
  else Ok fm.

Definition add_free_run (fm : FixedFreeMap) (start_idx end_idx : Z) : res BuddyInitError FixedFreeMap :=
  add_free_run_loop (Z.to_nat (end_idx - start_idx)) fm start_idx end_idx.

(** [init_memory_region]: the maximal runs of pages that are not reserved. *)
Fixpoint init_region_loop (ps : list Z) (total : Z) (pages : list Z) (fm : FixedFreeMap)
    (run_start : option Z) : res BuddyInitError FixedFreeMap :=
  match pages with
  | [] => match run_start with
          | Some start => add_free_run fm start total
          | None => Ok fm
          end
  | page_idx :: pages =>
      let? state := or_panic (zget ps page_idx) in
      if state =? PAGE_RESERVED then
        match run_start with
        | Some start =>
            let? fm := add_free_run fm start page_idx in
            init_region_loop ps total pages fm None
        | None => init_region_loop ps total pages fm None
        end
      else match run_start with
           | None => init_region_loop ps total pages fm (Some page_idx)
           | Some _ => init_region_loop ps total pages fm run_start
           end
  end.

Definition init_memory_region (ps : list Z) (total : Z) (fm : FixedFreeMap) : res BuddyInitError FixedFreeMap :=
  init_region_loop ps total (seqZ 0 total) fm None.

Definition from_metadata (base pages : Z) (reserved : list (Z * Z)) (layout : FreeMapLayout)
    (ps ws : list Z) : res BuddyInitError BuddyAllocator :=
  if negb (zlen ps =? pages) || existsb (fun s => negb (s =? PAGE_FREE)) ps
  then Err InitMetadataCorrupt else
  let? fm := from_storage layout ws in
  let? (ps, n) := or_panic (mark_reserved_ranges base pages (ps, 0) reserved) in
  let free := saturating_sub pages n in
  if pages <? n then Panic else
  let? fm := init_memory_region ps pages fm in
  let self := mkBuddy fm ps base pages free n false in
  if validate_metadata self then Ok self else Err InitMetadataCorrupt.

Section constructors.
Context {arch : PhysArch}.

(** [heap_ok n]: the fallible reservation of [n] elements succeeds. *)
Definition new_with_reservations (heap_ok : Z -> bool) (base size : Z) (reserved : list (Z * Z))
  : res BuddyInitError BuddyAllocator :=
  let? pages := validated_page_count base size in
  let? layout := layout_new pages in
  if negb (heap_ok pages) then Err MetadataAllocationFailed else
  if negb (heap_ok (lay_total_words layout)) then Err MetadataAllocationFailed else
  from_metadata base pages reserved layout
    (replicate (Z.to_nat pages) PAGE_FREE) (replicate (Z.to_nat (lay_total_words layout)) 0).

Definition new (heap_ok : Z -> bool) (base size : Z) : res BuddyInitError BuddyAllocator :=
  new_with_reservations heap_ok base size [].

(** Boot storage of [storage_len] bytes at address [storage_addr]. *)
Definition new_with_reservations_in (base size : Z) (reserved : list (Z * Z))
    (storage_addr storage_len : Z) : res BuddyInitError BuddyAllocator :=
  let? pages := validated_page_count base size in
  let? layout := layout_new pages in
  let? sb := state_bytes pages in
  let? wb := word_bytes layout in
  let? required := ok_or (checked_add sb wb) MetadataSizeOverflow in
  if storage_len <? required then Err MetadataAllocationFailed else
  if negb ((storage_addr + sb) mod 8 =? 0) then Err RegionMisaligned else
  from_metadata base pages reserved layout
    (replicate (Z.to_nat pages) PAGE_FREE) (replicate (Z.to_nat (lay_total_words layout)) 0).

(** The boot entry points: build the allocator and publish it. *)
Definition init_buddy_allocator (heap_ok : Z -> bool) (g : option BuddyAllocator) (base size : Z)
    (reserved : list (Z * Z)) : res BuddyInitError unit * option BuddyAllocator :=
  match new_with_reservations heap_ok base size reserved with
  | Ok allocator => (Ok tt, Some allocator)
  | Err e => (Err e, g)
  | Panic => (Panic, g)
  end.

Definition init_buddy_allocator_in (g : option BuddyAllocator) (base size : Z)
    (reserved : list (Z * Z)) (storage_addr storage_len : Z)
  : res BuddyInitError unit * option BuddyAllocator :=
  match new_with_reservations_in base size reserved storage_addr storage_len with
  | Ok allocator => (Ok tt, Some allocator)
  | Err e => (Err e, g)
  | Panic => (Panic, g)
  end.

(** * Global entry points, on the contents of [BUDDY_ALLOCATOR] *)

Definition checked_next_power_of_two (n : Z) : option Z :=
  let p := 2 ^ Z.log2_up n in
  if p <=? usize_max then Some p else None.

(** [oom] is the OOM killer run between the two attempts, with the allocator
    unlocked: what it leaves in [BUDDY_ALLOCATOR]. *)
Definition try_alloc_physical_pages (oom : Z -> option BuddyAllocator -> option BuddyAllocator)
    (g : option BuddyAllocator) (count : Z) : res AllocError Z * option BuddyAllocator :=
  if count =? 0 then (Err InvalidOrder, g) else
  match checked_next_power_of_two count with
  | None => (Err InvalidOrder, g)
  | Some pages_needed =>
      let ord := trailing_zeros pages_needed in
      if ORDER_COUNT <=? ord then (Err InvalidOrder, g) else
      match g with
      | None => (Err AllocUnavailable, g)
      | Some a =>
          match try_alloc_pages a ord with
          | (Err Exhausted, a) =>
              match oom pages_needed (Some a) with
              | None => (Err AllocUnavailable, None)
              | Some a => let '(r, a) := try_alloc_pages a ord in (r, Some a)
              end
          | (r, a) => (r, Some a)
          end
      end
  end.

(** [alloc_physical_pages]: a corrupt ledger stops the kernel. *)
Definition alloc_physical_pages (oom : Z -> option BuddyAllocator -> option BuddyAllocator)
    (g : option BuddyAllocator) (count : Z) : res Empty_set (option Z) * option BuddyAllocator :=
  match try_alloc_physical_pages oom g count with
  | (Ok frame, g) => (Ok (Some frame), g)
  | (Err (AllocMetadataCorrupt | AllocPoisoned), g) => (Panic, g)
  | (Err _, g) => (Ok None, g)
  | (Panic, g) => (Panic, g)
  end.

Definition try_free_physical_pages (g : option BuddyAllocator) (frame count : Z)
  : res FreeError unit * option BuddyAllocator :=
  if count =? 0 then (Err InvalidCount, g) else
  match checked_next_power_of_two count with
  | None => (Err InvalidCount, g)
  | Some pages =>
      if negb (pages =? count) then (Err InvalidCount, g) else
      let ord := trailing_zeros pages in
      match g with
      | None => (Err FreeUnavailable, g)
      | Some a => let '(r, a) := try_free_pages a frame ord in (r, Some a)
      end
  end.

Definition free_physical_pages (g : option BuddyAllocator) (frame count : Z) : option BuddyAllocator :=
  if count =? 0 then g else
  match checked_next_power_of_two count with
  | None => g
  | Some pages => (fun a => free_pages_or_quarantine a frame (trailing_zeros pages)) <$> g
  end.
End constructors.
