(* ===== verification/BuddyInv.v ===== *)
(** The invariant of the buddy allocator, and what its queries and its commit
    primitives mean under it. *)

From Stdlib Require Import ZArith Lia.
From stdpp Require Import base list list_numbers numbers.
From S2P Require Import Prelude.
From S2P Require Import Machine.
From S2P Require Import Dyadic.
From S2P Require Import FreeMap.
From S2P Require Import FreeMapFacts.
From S2P Require Import Buddy.

(** Page [p] is free / reserved. *)
Definition fpage (ps : list Z) (p : Z) : bool := bool_decide (zget ps p = Some PAGE_FREE).
Definition rpage (ps : list Z) (p : Z) : bool := bool_decide (zget ps p = Some PAGE_RESERVED).

(** Block [(o, b)] is a live allocation: its first page carries the start mark
    of its order, the others the tail mark. *)
Definition alloc_block (ps : list Z) (o b : Z) : Prop :=
  0 <= o < ORDER_COUNT /\ 0 <= b /\
  zget ps (b * 2 ^ o) = Some (PAGE_ALLOC_START_BASE + o) /\
  forall q, b * 2 ^ o < q < (b + 1) * 2 ^ o -> zget ps q = Some (PAGE_ALLOC_TAIL_BASE + o).

(** Every page is free, reserved, or part of a live allocation. *)
Definition pages_ok (ps : list Z) : Prop :=
  forall p x, zget ps p = Some x ->
    x = PAGE_FREE \/ x = PAGE_RESERVED \/ exists o, alloc_block ps o (p / 2 ^ o).

Record buddy_inv (s : BuddyAllocator) : Prop := {
  bi_wf : fm_wf (total_pages s) (free_map s);
  bi_len : zlen (page_state s) = total_pages s;
  bi_base : 0 <= base_addr s;
  bi_align : base_addr s mod PAGE_SIZE = 0;
  bi_end : base_addr s + total_pages s * PAGE_SIZE <= 2 ^ 52;
  bi_sound : poisoned s = false;
  bi_pages : pages_ok (page_state s);
  bi_canon : forall o b, vblock (total_pages s) o b ->
    fbit (total_pages s) (free_map s) o b = maxfree (fpage (page_state s)) o b;
  bi_free : free_pages s = sumZ (fun p => Z.b2z (fpage (page_state s) p)) (seqZ 0 (total_pages s));
  bi_reserved : reserved_pages s = sumZ (fun p => Z.b2z (rpage (page_state s) p)) (seqZ 0 (total_pages s));
}.

(** ** Blocks and pages *)

Lemma maxfree_ext F G o b : 0 <= o -> (forall p, F p = G p) -> maxfree F o b = maxfree G o b.
Proof.
  intros Ho H. unfold maxfree.
  by rewrite (allfree_ext F G o b), (allfree_ext F G (o + 1) (b / 2)) by (lia || done).
Qed.

Lemma allfree_vblock ps tp o b :
  zlen ps = tp -> 0 <= o < 11 -> 0 <= b -> allfree (fpage ps) o b = true -> vblock tp o b.
Proof.
  intros Hlen Ho Hb Hf. split; [done|]. split; [done|].
  rewrite allfree_spec in Hf by lia. pose proof (pow2_pos o ltac:(lia)).
  specialize (Hf ((b + 1) * 2 ^ o - 1)). unfold fpage in Hf. rewrite bool_decide_eq_true in Hf.
  assert (((b + 1) * 2 ^ o - 1) / 2 ^ o = b) as Hd by (apply in_block; lia).
  apply Hf, zget_Some_range in Hd. rewrite Hlen in Hd.
  unfold nblocks. assert (b + 1 <= tp / 2 ^ o); [|lia]. apply Z.div_le_lower_bound; lia.
Qed.

Lemma vblock_end tp o b : vblock tp o b -> (b + 1) * 2 ^ o <= tp.
Proof.
  intros [Ho Hb]. unfold nblocks in Hb. pose proof (pow2_pos o ltac:(lia)).
  pose proof (Z.mul_div_le tp (2 ^ o) ltac:(lia)). nia.
Qed.

Lemma vblock_intro tp o b : 0 <= o < 11 -> 0 <= b -> (b + 1) * 2 ^ o <= tp -> vblock tp o b.
Proof.
  intros Ho Hb He. split; [done|]. split; [done|]. pose proof (pow2_pos o ltac:(lia)).
  unfold nblocks. assert (b + 1 <= tp / 2 ^ o); [|lia]. apply Z.div_le_lower_bound; lia.
Qed.

Lemma alloc_block_page ps o b p :
  alloc_block ps o b -> p / 2 ^ o = b ->
  zget ps p = Some (if p =? b * 2 ^ o then PAGE_ALLOC_START_BASE + o else PAGE_ALLOC_TAIL_BASE + o).
Proof.
  intros (Ho & Hb & Hh & Ht) Hp. apply in_block in Hp; [|lia].
  destruct (Z.eqb_spec p (b * 2 ^ o)) as [->|]; [done|]. apply Ht. lia.
Qed.

Lemma alloc_block_not_free ps o b p : alloc_block ps o b -> p / 2 ^ o = b -> fpage ps p = false.
Proof.
  intros Ha Hp. unfold fpage. rewrite (alloc_block_page ps o b p) by done.
  destruct Ha as (Ho & _). unfold ORDER_COUNT in *. apply bool_decide_eq_false.
  case_match; intros [=]; unfold PAGE_FREE, PAGE_ALLOC_START_BASE, PAGE_ALLOC_TAIL_BASE in *; lia.
Qed.

Lemma alloc_block_not_reserved ps o b p : alloc_block ps o b -> p / 2 ^ o = b -> rpage ps p = false.
Proof.
  intros Ha Hp. unfold rpage. rewrite (alloc_block_page ps o b p) by done.
  destruct Ha as (Ho & _). unfold ORDER_COUNT in *. apply bool_decide_eq_false.
  case_match; intros [=]; unfold PAGE_RESERVED, PAGE_ALLOC_START_BASE, PAGE_ALLOC_TAIL_BASE in *; lia.
Qed.

(** Two live allocations that share a page are the same. *)
Lemma alloc_block_unique ps o b o' b' p :
  alloc_block ps o b -> alloc_block ps o' b' -> p / 2 ^ o = b -> p / 2 ^ o' = b' -> o = o' /\ b = b'.
Proof.
  intros H1 H2 Hp Hp'. pose proof (alloc_block_page _ _ _ _ H1 Hp) as E1.
  rewrite (alloc_block_page _ _ _ _ H2 Hp') in E1. destruct H1 as (Ho & _), H2 as (Ho' & _).
  unfold ORDER_COUNT, PAGE_ALLOC_START_BASE, PAGE_ALLOC_TAIL_BASE in *.
  assert (o = o') as ->; [|split; congruence].
  injection E1. repeat case_match; lia.
Qed.

(** A start mark stands at the head of a live allocation of its order. *)
Lemma start_mark ps p o :
  pages_ok ps -> 0 <= o < ORDER_COUNT -> zget ps p = Some (PAGE_ALLOC_START_BASE + o) ->
  alloc_block ps o (p / 2 ^ o) /\ p = p / 2 ^ o * 2 ^ o.
Proof.
  intros Hok Ho Hp. unfold ORDER_COUNT, PAGE_ALLOC_START_BASE in *.
  destruct (Hok _ _ Hp) as [?|[?|(o' & Ha)]]; unfold PAGE_FREE, PAGE_RESERVED in *; [lia..|].
  pose proof (alloc_block_page _ _ _ p Ha eq_refl) as E. rewrite Hp in E.
  pose proof Ha as (Ho' & _). unfold ORDER_COUNT, PAGE_ALLOC_START_BASE, PAGE_ALLOC_TAIL_BASE in *.
  injection E. destruct (Z.eqb_spec p (p / 2 ^ o' * 2 ^ o')) as [Heq|]; [|lia].
  intros. assert (o = o') as -> by lia. done.
Qed.

Lemma start_not_tail x : 0 <= x < ORDER_COUNT -> decode_allocation_tail (PAGE_ALLOC_START_BASE + x) = None.
Proof.
  unfold ORDER_COUNT, decode_allocation_tail, PAGE_ALLOC_START_BASE, PAGE_ALLOC_TAIL_BASE, checked_sub.
  intros. by zb; try lia.
Qed.

Lemma start_decode x : 0 <= x < ORDER_COUNT -> decode_allocation_start (PAGE_ALLOC_START_BASE + x) = Some x.
Proof.
  unfold ORDER_COUNT, decode_allocation_start, PAGE_ALLOC_START_BASE, ORDER_COUNT, checked_sub. intros.
  zb; try lia; simpl; zb; f_equal; lia.
Qed.

Lemma decode_start_Some x o :
  decode_allocation_start x = Some o -> 0 <= o < 11 /\ x = PAGE_ALLOC_START_BASE + o.
Proof.
  unfold decode_allocation_start, checked_sub, ORDER_COUNT. zb; try done. cbn [mbind option_bind].
  zb; intros [= <-]; lia.
Qed.

(** ** Queries *)

Lemma range_is_free_spec s i n :
  zlen (page_state s) <= usize_max -> 0 <= i -> 0 <= n ->
  range_is_free s i n = true <->
  i + n <= zlen (page_state s) /\ forall p, i <= p < i + n -> fpage (page_state s) p = true.
Proof.
  intros Hu Hi Hn. unfold range_is_free, checked_add.
  destruct (Z.leb_spec (i + n) usize_max); [|split; [done|lia]].
  destruct (Z.leb_spec (i + n) (zlen (page_state s))); [|split; [done|lia]].
  rewrite forallb_forall. split.
  - intros Hf. split; [done|]. intros p Hp. apply Hf, list_elem_of_In, elem_of_seqZ. lia.
  - intros [_ Hf] p Hp%list_elem_of_In%elem_of_seqZ. apply Hf. lia.
Qed.

Section overlap.
Context {s : BuddyAllocator} (Hwf : fm_wf (total_pages s) (free_map s)).
Abbreviation tp := (total_pages s).

(** The overlap scan: it finds nothing iff the range is a non-empty part of the
    window and each free block that meets it is allowed. *)
Lemma overlap_spec start n allowed :
  0 <= start -> 0 <= n -> start + n <= usize_max ->
  has_unexpected_free_overlap s start n allowed = false <->
  0 < n /\ start + n <= tp /\
  forall o b, vblock tp o b -> fbit tp (free_map s) o b = true ->
    b * 2 ^ o < start + n -> start < (b + 1) * 2 ^ o ->
    exists c, c ∈ allowed /\ order c = o /\ block_idx c = b * 2 ^ o.
Proof using Hwf.
  intros Hst Hn Hu. unfold has_unexpected_free_overlap. rewrite checked_add_Some by done.
  destruct (Z.eqb_spec n 0); cbn [orb]; [split; [done|lia]|].
  destruct (Z.ltb_spec tp (start + n)); [split; [done|lia]|].
  rewrite existsb_false_iff. split.
  - intros Hf. split_and!; [lia|done|]. intros o b Hv Hset H1 H2. pose proof Hv as [Ho Hb].
    specialize (Hf o ltac:(rewrite elem_of_seqZ; unfold ORDER_COUNT; lia)).
    unfold overlap_at in Hf. rewrite shiftl_1, existsb_false_iff in Hf by lia.
    pose proof (pow2_pos o ltac:(lia)). specialize (Hf b).
    assert (start / 2 ^ o <= b) by (apply Z.lt_succ_r, Z.div_lt_upper_bound; lia).
    assert (b <= (start + n - 1) / 2 ^ o) by (apply Z.div_le_lower_bound; lia).
    specialize (Hf ltac:(rewrite elem_of_seqZ; lia)).
    pose proof (vblock_end _ _ _ Hv). pose proof (wf_tp _ _ Hwf).
    rewrite checked_mul_Some in Hf by (unfold usize_max, u64_max; nia).
    rewrite (location_block Hwf), (is_set_mkbit (fm:=free_map s)) in Hf by done.
    rewrite Hset in Hf. simpl in Hf. apply negb_false_iff in Hf. unfold bit_is_allowed in Hf.
    apply existsb_exists in Hf as (c & Hc%list_elem_of_In & Heq). exists c. simpl in Heq.
    apply andb_prop in Heq as [?%Z.eqb_eq ?%Z.eqb_eq]. done.
  - intros (_ & _ & Hf) o Ho%elem_of_seqZ. unfold ORDER_COUNT in Ho.
    unfold overlap_at. rewrite shiftl_1, existsb_false_iff by lia.
    pose proof (pow2_pos o ltac:(lia)). intros b Hb%elem_of_seqZ.
    assert (0 <= start / 2 ^ o) by (apply Z.div_pos; lia).
    assert (b * 2 ^ o < start + n).
    { assert (b <= (start + n - 1) / 2 ^ o) by lia.
      pose proof (Z.mul_div_le (start + n - 1) (2 ^ o) ltac:(lia)). nia. }
    assert (start < (b + 1) * 2 ^ o).
    { pose proof (Z.mul_succ_div_gt start (2 ^ o) ltac:(lia)). nia. }
    pose proof (wf_tp _ _ Hwf).
    rewrite checked_mul_Some by (unfold usize_max, u64_max; lia).
    rewrite (location_spec Hwf) by nia. rewrite Z.mod_mul, Z.div_mul by lia. simpl.
    destruct (Z.ltb_spec b (nblocks tp o)); [|done].
    rewrite is_set_mkbit. destruct (fbit tp (free_map s) o b) eqn:E; [|done]. simpl.
    apply negb_false_iff. unfold bit_is_allowed. apply existsb_exists.
    destruct (Hf o b) as (c & Hc & ? & ?); [split; lia|done..|].
    exists c. rewrite <- list_elem_of_In. split; [done|]. simpl. apply andb_true_iff.
    by rewrite !Z.eqb_eq.
Qed.
End overlap.

Section with_inv.
Context {s : BuddyAllocator} (Hs : buddy_inv s).

Abbreviation tp := (total_pages s).
Abbreviation ps := (page_state s).

Lemma tp_bound : 0 <= tp <= 2 ^ 40.
Proof using Hs. apply (wf_tp _ _ (bi_wf _ Hs)). Qed.

Lemma block_range_is_free o b :
  0 <= o < 11 -> 0 <= b -> range_is_free s (b * 2 ^ o) (2 ^ o) = allfree (fpage ps) o b.
Proof using Hs.
  intros Ho Hb. pose proof (pow2_pos o ltac:(lia)). pose proof tp_bound.
  apply eq_true_iff_eq. rewrite range_is_free_spec, allfree_spec;
    [|lia|rewrite (bi_len _ Hs); unfold usize_max, u64_max; lia|nia|lia].
  split.
  - intros [_ Hf] p Hp%in_block; [|lia]. apply Hf. lia.
  - intros Hf. split.
    + destruct (allfree_vblock ps tp o b (bi_len _ Hs)) as [_ ?]; [done|done|by apply allfree_spec; [lia|]|].
      rewrite (bi_len _ Hs). pose proof (vblock_end tp o b). rewrite Z.mul_add_distr_r in *.
      unfold vblock in *. lia.
    + intros p Hp. apply Hf. apply in_block; lia.
Qed.

(** Free blocks meet an allocated or reserved page nowhere, and a page of a
    free block only in that block. *)
Lemma set_block_page o b p :
  vblock tp o b -> fbit tp (free_map s) o b = true -> p / 2 ^ o = b -> fpage ps p = true.
Proof using Hs.
  intros Hv Hset Hp. rewrite (bi_canon _ Hs) in Hset by done. apply maxfree_allfree in Hset.
  destruct Hv. rewrite allfree_spec in Hset by lia. auto.
Qed.

Lemma set_block_unique o b o' b' p :
  vblock tp o b -> fbit tp (free_map s) o b = true ->
  vblock tp o' b' -> fbit tp (free_map s) o' b' = true ->
  p / 2 ^ o = b -> p / 2 ^ o' = b' -> o = o' /\ b = b'.
Proof using Hs.
  intros Hv H1 Hv' H2 <- <-. rewrite (bi_canon _ Hs) in H1, H2 by done.
  pose proof Hv as [? _]. pose proof Hv' as [? _].
  assert (o = o') as <-; [|done]. eapply (maxfree_unique (fpage ps)); [..|exact H1|exact H2]; unfold TOP; lia.
Qed.
End with_inv.

(** ** Taking and returning a block of pages *)
Section take.
Context (ps ps' : list Z) (t tb : Z).
Context (Ht : 0 <= t < ORDER_COUNT) (Htb : 0 <= tb).

(** [ps'] is [ps] with block [(t, tb)] rewritten by [f]. *)
Definition rewrites (f : Z -> Z) : Prop :=
  zlen ps' = zlen ps /\
  forall p, zget ps' p = if p / 2 ^ t =? tb then Some (f p) else zget ps p.

(** Marking a block allocated, and marking it free again. *)
Definition mark_alloc (p : Z) : Z :=
  if p =? tb * 2 ^ t then PAGE_ALLOC_START_BASE + t else PAGE_ALLOC_TAIL_BASE + t.

Lemma take_block : rewrites mark_alloc -> alloc_block ps' t tb.
Proof.
  intros [_ H]. split; [done|]. split; [done|]. split.
  - rewrite H, block_head, Z.eqb_refl by lia. unfold mark_alloc. by rewrite Z.eqb_refl.
  - intros q Hq. rewrite H. rewrite (proj2 (in_block t tb q ltac:(lia))) by lia.
    rewrite Z.eqb_refl. unfold mark_alloc. by destruct (Z.eqb_spec q (tb * 2 ^ t)); [lia|].
Qed.

Lemma take_fpage : rewrites mark_alloc -> forall p, fpage ps' p = removed (fpage ps) t tb p.
Proof.
  intros [_ H] p. unfold removed, fpage. rewrite H.
  destruct (Z.eqb_spec (p / 2 ^ t) tb); simpl; [|by rewrite andb_true_r].
  rewrite andb_false_r. apply bool_decide_eq_false. unfold mark_alloc, ORDER_COUNT in *.
  case_match; intros [=]; unfold PAGE_FREE, PAGE_ALLOC_START_BASE, PAGE_ALLOC_TAIL_BASE in *; lia.
Qed.

(** A live allocation that shares no page with the block stays live. *)
Lemma rewrites_other f o b :
  rewrites f -> alloc_block ps o b -> (forall p, p / 2 ^ o = b -> p / 2 ^ t <> tb) ->
  alloc_block ps' o b.
Proof.
  intros [_ H] (Ho & Hb & Hh & Hq) Hd. split; [done|]. split; [done|]. split.
  - rewrite H. destruct (Z.eqb_spec (b * 2 ^ o / 2 ^ t) tb) as [E|]; [|done].
    exfalso. eapply Hd; [|exact E]. apply block_head. lia.
  - intros q Hr. rewrite H. destruct (Z.eqb_spec (q / 2 ^ t) tb) as [E|]; [|by apply Hq].
    exfalso. eapply Hd; [|exact E]. apply in_block; lia.
Qed.

Lemma rewrites_back f o b :
  rewrites f -> alloc_block ps' o b -> (forall p, p / 2 ^ o = b -> p / 2 ^ t <> tb) ->
  alloc_block ps o b.
Proof.
  intros [_ H] (Ho & Hb & Hh & Hq) Hd. pose proof (pow2_pos o ltac:(lia)).
  assert (forall p, p / 2 ^ o = b -> zget ps' p = zget ps p) as Heq.
  { intros p Hp. rewrite H. by destruct (Z.eqb_spec (p / 2 ^ t) tb) as [E|]; [destruct (Hd p Hp E)|]. }
  split; [done|]. split; [done|]. split.
  - rewrite <- Heq; [done|]. apply block_head. lia.
  - intros q Hr. rewrite <- Heq; [by apply Hq|]. apply in_block; lia.
Qed.

Lemma take_other o b :
  rewrites mark_alloc -> allfree (fpage ps) t tb = true -> alloc_block ps o b -> alloc_block ps' o b.
Proof.
  intros H Hf Ha. eapply rewrites_other; [done|done|]. intros p Hp Hpt.
  rewrite allfree_spec in Hf by lia. specialize (Hf p Hpt).
  by rewrite (alloc_block_not_free ps o b p) in Hf.
Qed.

Lemma take_pages_ok :
  rewrites mark_alloc -> allfree (fpage ps) t tb = true -> pages_ok ps -> pages_ok ps'.
Proof.
  intros H Hf Hok p x Hp. pose proof H as [_ Hg]. rewrite Hg in Hp.
  destruct (Z.eqb_spec (p / 2 ^ t) tb) as [E|].
  - right; right. exists t. rewrite E. by apply take_block.
  - destruct (Hok p x Hp) as [->|[->|[o Ho]]]; [by left|by right; left|].
    right; right. exists o. by apply take_other.
Qed.

(** Returning a live block. *)
Context (Ha : alloc_block ps t tb).

Lemma give_fpage : rewrites (fun _ => PAGE_FREE) -> forall p, fpage ps p = removed (fpage ps') t tb p.
Proof.
  intros [_ H] p. unfold removed. destruct (Z.eqb_spec (p / 2 ^ t) tb) as [E|].
  - rewrite andb_false_r. by apply (alloc_block_not_free ps t tb).
  - rewrite andb_true_r. unfold fpage. rewrite H. by destruct (Z.eqb_spec (p / 2 ^ t) tb).
Qed.

Lemma give_other o b :
  rewrites (fun _ => PAGE_FREE) -> alloc_block ps o b -> (o, b) <> (t, tb) -> alloc_block ps' o b.
Proof.
  intros H Hb Hne. eapply rewrites_other; [done|done|]. intros p Hp Hpt. apply Hne.
  destruct (alloc_block_unique ps o b t tb p) as [-> ->]; done.
Qed.

Lemma give_pages_ok : rewrites (fun _ => PAGE_FREE) -> pages_ok ps -> pages_ok ps'.
Proof.
  intros H Hok p x Hp. pose proof H as [_ Hg]. rewrite Hg in Hp.
  destruct (Z.eqb_spec (p / 2 ^ t) tb) as [E|Hne]; [left; congruence|].
  destruct (Hok p x Hp) as [->|[->|[o Ho]]]; [by left|by right; left|].
  right; right. exists o. apply give_other; [done|done|]. intros [= -> ?]. done.
Qed.

Lemma give_allfree : rewrites (fun _ => PAGE_FREE) -> allfree (fpage ps') t tb = true.
Proof.
  intros [_ H]. apply allfree_spec; [lia|]. intros p Hp. unfold fpage. rewrite H, Hp, Z.eqb_refl.
  by apply bool_decide_eq_true.
Qed.
End take.

(** Taking a free block and returning it restores the page states. *)
Lemma take_give ps ps1 ps2 t tb :
  rewrites ps ps1 t tb (mark_alloc t tb) -> rewrites ps1 ps2 t tb (fun _ => PAGE_FREE) ->
  allfree (fpage ps) t tb = true -> 0 <= t -> ps2 = ps.
Proof.
  intros [Hl1 H1] [Hl2 H2] Hf Ht. apply zlist_ext; [lia|]. intros p _. rewrite H2, H1.
  destruct (Z.eqb_spec (p / 2 ^ t) tb) as [E|]; [|done].
  rewrite allfree_spec in Hf by done. specialize (Hf p E). by apply bool_decide_eq_true in Hf.
Qed.

(** The number of free (reserved) pages when a block of pages is rewritten. *)
Lemma count_rewrites (C : list Z -> Z -> bool) ps ps' t tb f c c' :
  (forall l l' p, zget l p = zget l' p -> C l p = C l' p) ->
  0 <= t -> 0 <= tb -> (tb + 1) * 2 ^ t <= zlen ps -> rewrites ps ps' t tb f ->
  (forall p, p / 2 ^ t = tb -> Z.b2z (C ps p) = c /\ Z.b2z (C ps' p) = c') ->
  sumZ (fun p => Z.b2z (C ps' p)) (seqZ 0 (zlen ps)) =
  sumZ (fun p => Z.b2z (C ps p)) (seqZ 0 (zlen ps)) + (c' - c) * 2 ^ t.
Proof.
  intros HC Ht Htb Hend [_ H] Hc. pose proof (pow2_pos t ltac:(lia)).
  rewrite (sumZ_interval (fun p => Z.b2z (C ps p)) _ (tb * 2 ^ t) (2 ^ t)); [|nia|lia|lia|].
  - rewrite (sumZ_seq_const (fun p => Z.b2z (C ps' p)) (tb * 2 ^ t) _ c'),
      (sumZ_seq_const (fun p => Z.b2z (C ps p)) (tb * 2 ^ t) _ c); [ring|lia| |lia|].
    + intros i Hi. apply Hc. apply in_block; lia.
    + intros i Hi. apply Hc. apply in_block; lia.
  - intros i Hi. f_equal. apply HC. rewrite H.
    destruct (Z.eqb_spec (i / 2 ^ t) tb) as [E|]; [|done]. apply in_block in E; lia.
Qed.

Lemma fpage_local l l' p : zget l p = zget l' p -> fpage l p = fpage l' p.
Proof. unfold fpage. by intros ->. Qed.
Lemma rpage_local l l' p : zget l p = zget l' p -> rpage l p = rpage l' p.
Proof. unfold rpage. by intros ->. Qed.

(** The invariant after a block is taken or returned, given a bitmap that holds
    the maximal free blocks of the new page states. *)
Section transitions.
Context {s : BuddyAllocator} (Hs : buddy_inv s).
Context (t tb : Z) (fm' : FixedFreeMap) (ps' : list Z).
Context (Ht : 0 <= t < ORDER_COUNT) (Htb : 0 <= tb) (Hwf' : fm_wf (total_pages s) fm').
Abbreviation tp := (total_pages s).
Abbreviation ps := (page_state s).

Lemma take_inv :
  allfree (fpage ps) t tb = true -> rewrites ps ps' t tb (mark_alloc t tb) ->
  (forall o b, vblock tp o b -> fbit tp fm' o b = maxfree (removed (fpage ps) t tb) o b) ->
  buddy_inv (with_metadata s fm' ps' (free_pages s - 2 ^ t)).
Proof using Hs Ht Htb Hwf'.
  intros Hf Hrw Hcan. pose proof (take_block ps ps' t tb Ht Htb Hrw) as Hblk.
  pose proof (take_fpage ps ps' t tb Ht Hrw) as Hfp.
  assert ((tb + 1) * 2 ^ t <= tp) as Hend.
  { apply vblock_end, (allfree_vblock ps); unfold ORDER_COUNT in *; (done || apply Hs). }
  split; simpl; try apply Hs; try done.
  - rewrite (proj1 Hrw). apply Hs.
  - exact (take_pages_ok ps ps' t tb Ht Htb Hrw Hf (bi_pages _ Hs)).
  - intros o b Hv. rewrite Hcan by done. apply maxfree_ext; [destruct Hv; lia|]. intros. by rewrite Hfp.
  - rewrite (bi_free _ Hs), <- (bi_len _ Hs) in *.
    rewrite (count_rewrites fpage ps ps' t tb (mark_alloc t tb) 1 0 fpage_local); [lia|lia|lia|lia|done|].
    intros p Hp. rewrite Hfp. unfold removed. rewrite Hp, Z.eqb_refl, andb_false_r.
    rewrite allfree_spec in Hf by lia. by rewrite Hf.
  - rewrite (bi_reserved _ Hs), <- (bi_len _ Hs) in *.
    rewrite (count_rewrites rpage ps ps' t tb (mark_alloc t tb) 0 0 rpage_local); [lia|lia|lia|lia|done|].
    intros p Hp. rewrite (alloc_block_not_reserved ps' t tb) by done. split; [|done].
    rewrite allfree_spec in Hf by lia. specialize (Hf p Hp). apply bool_decide_eq_true in Hf.
    unfold rpage. by rewrite Hf.
Qed.

Lemma give_inv :
  alloc_block ps t tb -> rewrites ps ps' t tb (fun _ => PAGE_FREE) ->
  (forall o b, vblock tp o b -> fbit tp fm' o b = maxfree (fpage ps') o b) ->
  buddy_inv (with_metadata s fm' ps' (free_pages s + 2 ^ t)).
Proof using Hs Ht Htb Hwf'.
  intros Ha Hrw Hcan. pose proof (give_allfree ps ps' t tb Ht Hrw) as Hf.
  assert ((tb + 1) * 2 ^ t <= tp) as Hend.
  { apply vblock_end, (allfree_vblock ps'); [|done..]. rewrite (proj1 Hrw). apply Hs. }
  rewrite allfree_spec in Hf by lia.
  split; simpl; try apply Hs; try done.
  - rewrite (proj1 Hrw). apply Hs.
  - exact (give_pages_ok ps ps' t tb Ha Hrw (bi_pages _ Hs)).
  - rewrite (bi_free _ Hs), <- (bi_len _ Hs) in *.
    rewrite (count_rewrites fpage ps ps' t tb (fun _ => PAGE_FREE) 0 1 fpage_local); [lia|lia|lia|lia|done|].
    intros p Hp. rewrite (alloc_block_not_free ps t tb) by done. by rewrite Hf.
  - rewrite (bi_reserved _ Hs), <- (bi_len _ Hs) in *.
    rewrite (count_rewrites rpage ps ps' t tb (fun _ => PAGE_FREE) 0 0 rpage_local); [lia|lia|lia|lia|done|].
    intros p Hp. rewrite (alloc_block_not_reserved ps t tb) by done. split; [done|].
    unfold rpage. rewrite (proj2 Hrw), Hp, Z.eqb_refl. done.
Qed.
End transitions.
