(* ===== verification/BuddyAlloc.v ===== *)
(** Allocation: [try_alloc_pages] under the invariant. *)

From Stdlib Require Import ZArith Lia.
From stdpp Require Import base list list_numbers numbers.
From S2P Require Import Prelude.
From S2P Require Import Machine.
From S2P Require Import Dyadic.
From S2P Require Import FreeMap.
From S2P Require Import FreeMapFacts.
From S2P Require Import Buddy.
From S2P Require Import BuddyInv.

(** ** The write primitives *)

Lemma zput_Some {A} (l : list A) i x : 0 <= i < zlen l -> zput l i x = Some (zset l i x).
Proof. intros. unfold zput. by zb; try lia. Qed.

Lemma fill_spec {A} (l : list A) lo n x :
  0 <= lo -> 0 <= n -> lo + n <= zlen l ->
  exists l', fill l lo n x = Some l' /\ zlen l' = zlen l /\
    forall i, zget l' i = if decide (lo <= i < lo + n) then Some x else zget l i.
Proof.
  intros Hlo Hn. unfold fill. revert n Hn lo l Hlo. refine (natlike_ind _ _ _).
  - intros lo l Hlo Hl. exists l. split_and!; try done. intros i. by rewrite decide_False by lia.
  - intros n Hn IH lo l Hlo Hl. rewrite seqZ_cons by lia. cbn [fill_loop].
    rewrite zput_Some by lia. cbn [mbind option_bind]. rewrite Z.pred_succ.
    destruct (IH (Z.succ lo) (zset l lo x)) as (l' & -> & Hlen & Hg); [lia|rewrite zlen_zset; lia|].
    exists l'. rewrite Hlen, zlen_zset. split_and!; try done. intros i. rewrite Hg.
    destruct (decide (lo = i)) as [<-|Hne].
    + rewrite (decide_False (P:=_ <= lo < _)) by lia. rewrite decide_True by lia.
      apply zget_zset_eq. lia.
    + rewrite zget_zset_ne by done. repeat case_decide; done || lia.
Qed.

Definition mkbits (tp : Z) (L : list (Z * Z)) : list FreeBit := (fun '(o, b) => mkbit tp o b) <$> L.

Lemma commit_all_spec tp v L : forall fm,
  fm_wf tp fm -> NoDup L ->
  (forall o b, (o, b) ∈ L -> vblock tp o b /\ fbit tp fm o b = negb v) ->
  exists fm', commit_all fm (mkbits tp L) v = Some fm' /\ fm_wf tp fm' /\
    forall o b, 0 <= o < 11 -> 0 <= b < 64 * nwords tp o ->
      fbit tp fm' o b = if decide ((o, b) ∈ L) then v else fbit tp fm o b.
Proof.
  induction L as [|[o b] L IH]; intros fm Hwf Hnd HL.
  - by exists fm.
  - apply list.NoDup_cons in Hnd as [Hni Hnd].
    destruct (HL o b) as [Hv Hf]; [by left|].
    destruct (commit_set_spec Hwf o b Hv v Hf) as (fm1 & Hc & Hwf1 & Hu).
    cbn [mkbits fmap list_fmap commit_all]. fold (mkbits tp L). rewrite Hc. cbn [mbind option_bind].
    destruct (IH fm1) as (fm' & -> & Hwf' & Hb); [done|done| |].
    + intros o' b' Hin. destruct (HL o' b') as [Hv' Hf']; [by right|]. split; [done|].
      destruct (vblock_slot Hwf o' b' Hv'). rewrite Hu by done. rewrite decide_False; [done|].
      intros [-> ->]. done.
    + exists fm'. split_and!; try done. intros o' b' Ho' Hb'. rewrite Hb, Hu by done.
      destruct (decide ((o', b') ∈ L)) as [|Hn'].
      * rewrite decide_True; [done|by right].
      * case_decide as Hd.
        -- destruct Hd as [-> ->]. by rewrite decide_True by (by left).
        -- rewrite decide_False; [done|]. intros [?|?]%elem_of_cons; naive_solver.
Qed.

Lemma elem_of_orders_down hi lo k : k ∈ orders_down hi lo <-> lo <= k < hi.
Proof. unfold orders_down. rewrite elem_of_reverse, elem_of_seqZ. lia. Qed.

Lemma NoDup_orders_down hi lo : NoDup (orders_down hi lo).
Proof. unfold orders_down. rewrite reverse_Permutation. apply NoDup_seqZ. Qed.

(** ** Finding the source *)
Lemma find_source_spec tp fm (Hwf : fm_wf tp fm) n : forall o,
  0 <= o -> o + Z.of_nat n = 11 ->
  (find_source fm (seqZ o (Z.of_nat n)) = Ok None /\
     forall k, o <= k < 11 -> ag (block_count fm) k = 0) \/
  exists k b, o <= k < 11 /\ vblock tp k b /\ fbit tp fm k b = true /\
    find_source fm (seqZ o (Z.of_nat n)) = Ok (Some (mkbit tp k b)).
Proof.
  induction n as [|n IH]; intros o Ho Hn.
  - left. split; [done|]. intros; lia.
  - rewrite seqZ_cons by lia. cbn [find_source]. unfold count_for_order.
    fold (ag (block_count fm) o).
    replace (Z.pred (Z.of_nat (S n))) with (Z.of_nat n) by lia.
    destruct (Z.eqb_spec (ag (block_count fm) o) 0) as [Hz|Hz].
    + replace (Z.succ o) with (o + 1) by lia.
      destruct (IH (o + 1)) as [[-> Hk]|(k & b & ? & ?)]; [lia|lia| |].
      * left. split; [done|]. intros k ?. destruct (decide (k = o)) as [->|]; [done|]. apply Hk. lia.
      * right. exists k, b. split; [lia|done].
    + right. pose proof (count_range Hwf o ltac:(lia)).
      destruct (find_first_is_Some Hwf o ltac:(lia)) as [bit Hf]; [lia|].
      destruct (find_first_Some Hwf o ltac:(lia) bit Hf) as (b & Hv & Hset & ->).
      exists o, b. rewrite Hf. split_and!; try done; lia.
Qed.

(** ** The allocation transaction *)

(** What a successful allocation of block [(ord, b)] does. *)
Record alloc_post (s : BuddyAllocator) (ord b : Z) (s' : BuddyAllocator) : Prop := {
  ap_inv : buddy_inv s';
  ap_base : base_addr s' = base_addr s;
  ap_total : total_pages s' = total_pages s;
  ap_reserved : reserved_pages s' = reserved_pages s;
  ap_free : free_pages s' = free_pages s - 2 ^ ord;
  ap_was_free : allfree (fpage (page_state s)) ord b = true;
  ap_rewrites : rewrites (page_state s) (page_state s') ord b (mark_alloc ord b);
}.

Section alloc.
Context {arch : PhysArch} {laws : PhysArchLaws arch}.
Context {s : BuddyAllocator} (Hs : buddy_inv s).
Abbreviation tp := (total_pages s).
Abbreviation ps := (page_state s).

Section source.
Context (so sb : Z) (Hv : vblock tp so sb) (Hset : fbit tp (free_map s) so sb = true).

Lemma src_allfree : allfree (fpage ps) so sb = true.
Proof using Hs Hv Hset.
  apply maxfree_allfree. by rewrite <- (bi_canon _ Hs).
Qed.

Definition split_blocks (orders : list Z) : list (Z * Z) :=
  (fun k => (k, sb * 2 ^ (so - k) + 1)) <$> orders.

Lemma split_idx k : 0 <= k <= so -> sb * 2 ^ so = sb * 2 ^ (so - k) * 2 ^ k.
Proof using.
  intros. rewrite <- Z.mul_assoc, <- Z.pow_add_r by lia. do 2 f_equal. lia.
Qed.

(** The upper halves split off the source are valid blocks and not yet free. *)
Lemma split_block_ok k :
  0 <= k < so -> vblock tp k (sb * 2 ^ (so - k) + 1) /\
    fbit tp (free_map s) k (sb * 2 ^ (so - k) + 1) = false /\
    (sb * 2 ^ (so - k) + 1) / 2 ^ (so - k) = sb.
Proof using Hs Hv Hset.
  intros Hk. pose proof Hv as [Hso [Hsb _]]. pose proof (vblock_end _ _ _ Hv) as He.
  assert (2 <= 2 ^ (so - k)) as H2.
  { change 2 with (2 ^ 1) at 1. apply Z.pow_le_mono_r; lia. }
  assert (2 ^ so = 2 ^ (so - k) * 2 ^ k) as Hp.
  { rewrite <- Z.pow_add_r by lia. f_equal. lia. }
  pose proof (pow2_pos k ltac:(lia)).
  assert ((sb * 2 ^ (so - k) + 1) / 2 ^ (so - k) = sb) as Hq.
  { rewrite Z.add_comm, Z.div_add, Z.div_small by lia. lia. }
  assert (vblock tp k (sb * 2 ^ (so - k) + 1)) as Hvk.
  { apply vblock_intro; [lia|nia|]. rewrite Hp in He. nia. }
  split_and!; try done.
  destruct (fbit tp (free_map s) k _) eqn:E; [|done]. exfalso.
  destruct (set_block_unique Hs k (sb * 2 ^ (so - k) + 1) so sb ((sb * 2 ^ (so - k) + 1) * 2 ^ k)); try done.
  - apply block_head. lia.
  - rewrite (div_pow2_up _ k so), block_head by lia. done.
  - lia.
Qed.

Lemma split_loop_spec orders :
  (forall k, k ∈ orders -> 0 <= k < so) ->
  split_loop (free_map s) (sb * 2 ^ so) orders = Ok (mkbits tp (split_blocks orders)).
Proof using Hs Hv Hset.
  induction orders as [|k orders IH]; intros Hk; [done|]. cbn [split_loop].
  pose proof (Hk k ltac:(by left)) as Hkr.
  destruct (split_block_ok k Hkr) as (Hvk & Hfk & _).
  rewrite shiftl_1 by lia. pose proof (tp_bound Hs).
  assert (sb * 2 ^ so + 2 ^ k = (sb * 2 ^ (so - k) + 1) * 2 ^ k) as Hidx.
  { rewrite (split_idx k) by lia. lia. }
  pose proof (vblock_end _ _ _ Hvk). pose proof (pow2_pos k ltac:(lia)).
  rewrite checked_add_Some by (unfold usize_max, u64_max; lia). cbn [ok_or res_bind].
  rewrite Hidx, (location_block (bi_wf _ Hs)) by done. cbn [ok_or res_bind].
  rewrite is_set_mkbit, Hfk. pose proof (count_range (bi_wf _ Hs) k ltac:(destruct Hv; lia)).
  pose proof (nblocks_le tp ltac:(lia) k ltac:(lia)).
  destruct (Z.eqb_spec (ag (block_count (free_map s)) k) usize_max);
    [unfold usize_max, u64_max in *; lia|]. cbn [orb].
  rewrite IH; [done|]. intros. apply Hk. by right.
Qed.

(** Under the invariant the source always passes the preflight. *)
Lemma source_no_overlap : has_unexpected_free_overlap s (sb * 2 ^ so) (2 ^ so) [mkbit tp so sb] = false.
Proof using Hs Hv Hset.
  pose proof Hv as [Hso [Hsb _]]. pose proof (vblock_end _ _ _ Hv) as He.
  pose proof (pow2_pos so ltac:(lia)). pose proof (tp_bound Hs).
  apply (overlap_spec (bi_wf _ Hs)); [nia|lia|unfold usize_max, u64_max; lia|].
  split_and!; [lia|lia|]. intros o b Hvb Hfb H1 H2. pose proof Hvb as [Ho [Hb _]].
  exists (mkbit tp so sb). split; [by left|]. simpl.
  pose proof (pow2_pos o ltac:(lia)).
  set (p := Z.max (sb * 2 ^ so) (b * 2 ^ o)).
  destruct (set_block_unique Hs so sb o b p) as [-> ->]; try done; apply in_block; lia.
Qed.

(** The free pages of the source are counted. *)
Lemma source_counted : 2 ^ so <= free_pages s.
Proof using Hs Hv Hset.
  pose proof Hv as [Hso [Hsb _]]. pose proof (vblock_end _ _ _ Hv) as He.
  pose proof (pow2_pos so ltac:(lia)). rewrite (bi_free _ Hs).
  rewrite (seqZ_split 0 tp (sb * 2 ^ so)) by nia. rewrite sumZ_app.
  rewrite (seqZ_split (0 + sb * 2 ^ so) _ (2 ^ so)) by lia. rewrite sumZ_app.
  rewrite (sumZ_seq_const _ (0 + sb * 2 ^ so) (2 ^ so) 1); [|lia|].
  2:{ intros i Hi. rewrite (set_block_page Hs so sb i) by (done || apply in_block; lia). done. }
  assert (forall l, 0 <= sumZ (fun p => Z.b2z (fpage ps p)) l) as Hnn
    by (intros; apply sumZ_nonneg; intros; apply b2z_bounds).
  pose proof (Hnn (seqZ 0 (sb * 2 ^ so))).
  pose proof (Hnn (seqZ (0 + sb * 2 ^ so + 2 ^ so) (tp - sb * 2 ^ so - 2 ^ so))). lia.
Qed.

(** The block handed out is the lowest one of the source. *)
Section target.
Context (ord : Z) (Hord : 0 <= ord <= so).
Abbreviation tb := (sb * 2 ^ (so - ord)).

Lemma target_in : tb / 2 ^ (so - ord) = sb.
Proof using Hord. apply block_head. lia. Qed.

Lemma target_allfree : allfree (fpage ps) ord tb = true.
Proof using Hs Hv Hset Hord.
  eapply allfree_down; [|apply target_in|apply src_allfree]. lia.
Qed.

Lemma split_sibling o : ord <= o < so -> Z.lxor (tb / 2 ^ (o - ord)) 1 = sb * 2 ^ (so - o) + 1.
Proof using Hv Hord.
  intros Ho. destruct Hv as [_ [Hsb _]].
  replace tb with (sb * 2 ^ (so - o) * 2 ^ (o - ord)).
  2:{ rewrite <- Z.mul_assoc, <- Z.pow_add_r by lia. do 2 f_equal. lia. }
  rewrite Z.div_mul by (pose proof (pow2_pos (o - ord)); lia).
  pose proof (pow2_pos (so - o) ltac:(lia)).
  rewrite lxor_1, Z.even_mul, (Z.even_pow 2 (so - o)) by nia. by rewrite orb_true_r.
Qed.

Lemma sibling_split o b :
  sibling ord tb so o b = bool_decide ((o, b) ∈ split_blocks (orders_down so ord)).
Proof using Hv Hord.
  apply eq_true_iff_eq. rewrite bool_decide_eq_true. unfold sibling, split_blocks.
  rewrite list_elem_of_fmap. setoid_rewrite elem_of_orders_down. split.
  - intros [[?%Z.leb_le ?%Z.ltb_lt]%andb_prop Hb%Z.eqb_eq]%andb_prop.
    exists o. split; [|lia]. by rewrite Hb, split_sibling by lia.
  - intros (k & [= -> ->] & Hk). rewrite split_sibling by lia.
    rewrite Z.eqb_refl. by zb; try lia.
Qed.

Abbreviation split_list := (split_blocks (orders_down so ord)).

Lemma split_list_nodup : NoDup split_list.
Proof using. apply NoDup_fmap_2; [|apply NoDup_orders_down]. by intros ?? [=]. Qed.

(** The bitmap writes of the commit phase leave the maximal free blocks of what
    remains. *)
Lemma alloc_bitmap :
  exists fm1 fm2, commit_set (free_map s) (mkbit tp so sb) false = Some fm1 /\
    commit_all fm1 (mkbits tp split_list) true = Some fm2 /\ fm_wf tp fm2 /\
    forall o b, vblock tp o b -> fbit tp fm2 o b = maxfree (removed (fpage ps) ord tb) o b.
Proof using Hs Hv Hset Hord.
  pose proof Hv as [Hso [Hsb _]]. pose proof (pow2_pos (so - ord) ltac:(lia)).
  destruct (commit_set_spec (bi_wf _ Hs) so sb Hv false Hset) as (fm1 & Hc1 & Hwf1 & Hu1).
  destruct (commit_all_spec tp true split_list fm1 Hwf1 split_list_nodup) as (fm2 & Hc2 & Hwf2 & Hu2).
  { intros o b (k & [= -> ->] & Hk%elem_of_orders_down)%list_elem_of_fmap.
    destruct (split_block_ok k ltac:(lia)) as (Hvk & Hfk & _). split; [done|].
    destruct (vblock_slot (bi_wf _ Hs) _ _ Hvk). rewrite Hu1, decide_False by (done || lia). done. }
  exists fm1, fm2. split_and!; try done. intros o b Hvb. pose proof Hvb as [Ho Hb].
  destruct (vblock_slot (bi_wf _ Hs) _ _ Hvb).
  rewrite (maxfree_remove _ _ _ so sb); [|lia|unfold TOP; lia|nia|apply target_in| |unfold TOP; lia|lia].
  2:{ by rewrite <- (bi_canon _ Hs). }
  rewrite sibling_split, Hu2, Hu1, <- (bi_canon _ Hs) by done.
  destruct (decide ((o, b) ∈ split_list)) as [Hin|Hin].
  - by rewrite bool_decide_eq_true_2, orb_true_r by done.
  - rewrite bool_decide_eq_false_2, orb_false_r by done.
    destruct (decide (o = so /\ b = sb)) as [[-> ->]|Hne].
    + by rewrite !Z.eqb_refl, andb_false_r.
    + by destruct (Z.eqb_spec o so), (Z.eqb_spec b sb); rewrite ?andb_true_r; naive_solver.
Qed.

(** Its page-state writes mark exactly the target. *)
Lemma alloc_marks :
  exists ps2, (l ← zput ps (tb * 2 ^ ord) (PAGE_ALLOC_START_BASE + ord);
               fill l (tb * 2 ^ ord + 1) (2 ^ ord - 1) (PAGE_ALLOC_TAIL_BASE + ord)) = Some ps2 /\
    rewrites ps ps2 ord tb (mark_alloc ord tb).
Proof using Hs Hv Hset Hord.
  pose proof Hv as [Hso [Hsb _]]. pose proof (pow2_pos (so - ord) ltac:(lia)).
  pose proof (pow2_pos ord ltac:(lia)).
  assert ((tb + 1) * 2 ^ ord <= zlen ps).
  { rewrite (bi_len _ Hs).
    apply vblock_end, (allfree_vblock ps); [apply Hs|lia|nia|apply target_allfree]. }
  rewrite zput_Some by nia. cbn [mbind option_bind].
  destruct (fill_spec (zset ps (tb * 2 ^ ord) (PAGE_ALLOC_START_BASE + ord)) (tb * 2 ^ ord + 1) (2 ^ ord - 1)
    (PAGE_ALLOC_TAIL_BASE + ord)) as (ps2 & -> & Hlen & Hg); [nia|lia|rewrite zlen_zset; lia|].
  rewrite zlen_zset in Hlen. exists ps2. split; [done|]. split; [done|].
  intros p. rewrite Hg. unfold mark_alloc.
  destruct (Z.eqb_spec (p / 2 ^ ord) tb) as [E|E].
  - apply in_block in E; [|lia]. destruct (Z.eqb_spec p (tb * 2 ^ ord)) as [->|].
    + by rewrite decide_False, zget_zset_eq by nia.
    + by rewrite decide_True by lia.
  - assert (~ (tb * 2 ^ ord <= p < (tb + 1) * 2 ^ ord)) by (rewrite <- in_block by lia; done).
    by rewrite decide_False, zget_zset_ne by lia.
Qed.

(** The commit phase performs the transaction. *)
Lemma alloc_commit_spec phys :
  exists s', alloc_commit s ord
      (mkAllocPlan (mkbit tp so sb) (mkbits tp split_list) (free_pages s - 2 ^ ord) phys)
      = (Ok phys, s') /\ alloc_post s ord tb s'.
Proof using Hs Hv Hset Hord.
  pose proof Hv as [Hso [Hsb _]]. pose proof (pow2_pos (so - ord) ltac:(lia)).
  destruct alloc_bitmap as (fm1 & fm2 & Hc1 & Hc2 & Hwf2 & Hcan).
  destruct alloc_marks as (ps2 & Hps & Hrw).
  unfold alloc_commit. cbn [plan_source plan_split plan_free_pages plan_phys].
  rewrite Hc1. cbn [mbind option_bind]. rewrite Hc2. cbn [mkbit block_idx].
  unfold allocation_start_state, allocation_tail_state, ORDER_COUNT.
  destruct (Z.ltb_spec ord 11); [|lia].
  rewrite shiftl_1, (split_idx ord), Hps by lia. eexists; split; [done|].
  split; try done; [|apply target_allfree].
  apply (take_inv Hs ord tb); try done; unfold ORDER_COUNT; [lia|nia|apply target_allfree].
Qed.

(** The preflight accepts the source and plans exactly this transaction. *)
Lemma alloc_preflight_source :
  find_source (free_map s) (seqZ ord (ORDER_COUNT - ord)) = Ok (Some (mkbit tp so sb)) ->
  alloc_preflight s ord = Ok (mkAllocPlan (mkbit tp so sb) (mkbits tp split_list)
    (free_pages s - 2 ^ ord) (base_addr s + tb * 2 ^ ord * PAGE_SIZE)).
Proof using Hs Hv Hset Hord laws.
  intros Hf. pose proof Hv as [Hso [Hsb _]]. pose proof (vblock_end _ _ _ Hv) as He.
  pose proof (tp_bound Hs). pose proof (pow2_pos so ltac:(lia)).
  assert (2 ^ ord <= 2 ^ so) by (apply Z.pow_le_mono_r; lia).
  pose proof source_counted. pose proof (bi_base _ Hs). pose proof (bi_end _ Hs).
  pose proof (bi_align _ Hs) as Hal. unfold PAGE_SIZE in *.
  unfold alloc_preflight. rewrite (bi_sound _ Hs), Hf. unfold ORDER_COUNT.
  destruct (Z.leb_spec 11 ord); [lia|]. cbn [res_bind ok_or mkbit order block_idx].
  rewrite !shiftl_1, (block_range_is_free Hs), src_allfree by (done || lia). cbn [negb].
  fold (mkbit tp so sb). rewrite source_no_overlap by done.
  rewrite checked_sub_Some by lia. cbn [res_bind ok_or]. unfold PAGE_SIZE.
  rewrite checked_mul_Some by (unfold usize_max, u64_max; nia). cbn [res_bind ok_or].
  rewrite checked_add_Some by (unfold usize_max, u64_max; nia). cbn [res_bind ok_or].
  rewrite phys_addr_try_new_spec by nia. destruct (Z.ltb_spec (base_addr s + sb * 2 ^ so * 4096) (2 ^ 52)); [|nia].
  rewrite phys_frame_from_start_spec by nia. rewrite Z.mod_add, Hal by lia. cbn [negb Z.eqb].
  rewrite split_loop_spec; [|by intros k Hk%elem_of_orders_down; lia]. cbn [res_bind].
  pose proof (count_pos_bit (bi_wf _ Hs) so sb Hv Hset).
  destruct (Z.eqb_spec (ag (block_count (free_map s)) so) 0); [lia|].
  by rewrite (split_idx ord) by lia.
Qed.
End target.
End source.

(** [try_alloc_pages] under the invariant: an invalid order and exhaustion
    leave the allocator unchanged; otherwise it hands out a block.  No other
    outcome is possible: the metadata is never reported corrupt and the kernel
    never panics. *)
Lemma try_alloc_pages_spec ord :
  0 <= ord ->
  (ORDER_COUNT <= ord /\ try_alloc_pages s ord = (Err InvalidOrder, s)) \/
  (ord < ORDER_COUNT /\ (forall o b, ord <= o < ORDER_COUNT -> 0 <= b -> allfree (fpage ps) o b = false) /\
     try_alloc_pages s ord = (Err Exhausted, s)) \/
  (ord < ORDER_COUNT /\ exists b s', 0 <= b /\
     try_alloc_pages s ord = (Ok (base_addr s + b * 2 ^ ord * PAGE_SIZE), s') /\ alloc_post s ord b s').
Proof using Hs laws.
  intros Ho. unfold ORDER_COUNT. destruct (decide (11 <= ord)) as [Hge|Hlt].
  { left. split; [done|]. unfold try_alloc_pages, alloc_preflight, ORDER_COUNT.
    rewrite (bi_sound _ Hs). by destruct (Z.leb_spec 11 ord); [|lia]. }
  right. pose proof (find_source_spec tp (free_map s) (bi_wf _ Hs) (Z.to_nat (11 - ord)) ord Ho ltac:(lia)) as Hf.
  rewrite Z2Nat.id in Hf by lia. destruct Hf as [[Hf Hz]|(so & sb & Hso & Hv & Hset & Hf)].
  - left. split; [lia|]. split.
    + intros o b Hob Hb. destruct (allfree (fpage ps) o b) eqn:E; [exfalso|done].
      destruct (maxfree_exists (fpage ps) o b) as (o' & Ho' & Hm); [unfold TOP; lia|done|]. unfold TOP in Ho'.
      assert (0 <= b / 2 ^ (o' - o)) by (apply Z.div_pos; [done|apply pow2_pos; lia]).
      assert (vblock tp o' (b / 2 ^ (o' - o))) as Hv.
      { apply (allfree_vblock ps); [apply Hs|lia|done|by apply maxfree_allfree]. }
      rewrite <- (bi_canon _ Hs) in Hm by done.
      pose proof (count_pos_bit (bi_wf _ Hs) _ _ Hv Hm). rewrite Hz in *; lia.
    + unfold try_alloc_pages, alloc_preflight, ORDER_COUNT. rewrite (bi_sound _ Hs), Hf.
      by destruct (Z.leb_spec 11 ord); [lia|].
  - right. split; [lia|]. pose proof Hv as [Hso' [Hsb _]]. pose proof (pow2_pos (so - ord) ltac:(lia)).
    exists (sb * 2 ^ (so - ord)). unfold try_alloc_pages.
    rewrite (alloc_preflight_source so sb Hv Hset) by (done || lia).
    destruct (alloc_commit_spec so sb Hv Hset ord ltac:(lia)
      (base_addr s + sb * 2 ^ (so - ord) * 2 ^ ord * PAGE_SIZE)) as (s' & -> & Hpost).
    exists s'. split; [nia|done].
Qed.
End alloc.
