(* ===== verification/BuddyFree.v ===== *)
(** Deallocation: [try_free_pages] under the invariant. *)

From Stdlib Require Import ZArith Lia.
From stdpp Require Import base list list_numbers numbers.
From S2P Require Import Prelude.
From S2P Require Import Machine.
From S2P Require Import Dyadic.
From S2P Require Import FreeMap.
From S2P Require Import FreeMapFacts.
From S2P Require Import Buddy.
From S2P Require Import BuddyInv.
From S2P Require Import BuddyAlloc.

(** [frame] is the address of a live allocation of order [ord]. *)
Definition live (s : BuddyAllocator) (frame ord : Z) : Prop :=
  exists b, frame = base_addr s + b * 2 ^ ord * PAGE_SIZE /\ alloc_block (page_state s) ord b.

(** What a successful release of block [(ord, b)] does. *)
Record free_post (s : BuddyAllocator) (ord b : Z) (s' : BuddyAllocator) : Prop := {
  fp_inv : buddy_inv s';
  fp_base : base_addr s' = base_addr s;
  fp_total : total_pages s' = total_pages s;
  fp_reserved : reserved_pages s' = reserved_pages s;
  fp_free : free_pages s' = free_pages s + 2 ^ ord;
  fp_was_live : alloc_block (page_state s) ord b;
  fp_rewrites : rewrites (page_state s) (page_state s') ord b (fun _ => PAGE_FREE);
}.

Section free.
Context {s : BuddyAllocator} (Hs : buddy_inv s).
Abbreviation tp := (total_pages s).
Abbreviation ps := (page_state s).

Section live_block.
Context (t tb : Z) (Ha : alloc_block ps t tb).

(** The free pages once the block is returned. *)
Definition added (p : Z) : bool := fpage ps p || (p / 2 ^ t =? tb).

Lemma block_t : 0 <= t < 11.
Proof using Ha. destruct Ha. done. Qed.
Lemma block_tb : 0 <= tb.
Proof using Ha. by destruct Ha as (_ & ? & _). Qed.

Lemma removed_added p : removed added t tb p = fpage ps p.
Proof using Ha.
  unfold removed, added. destruct (Z.eqb_spec (p / 2 ^ t) tb) as [E|E].
  - by rewrite andb_false_r, (alloc_block_not_free ps t tb).
  - by rewrite andb_true_r, orb_false_r.
Qed.

Lemma added_block : allfree added t tb = true.
Proof using Ha.
  apply allfree_spec; [apply block_t|]. intros p Hp. unfold added. by rewrite Hp, Z.eqb_refl, orb_true_r.
Qed.

(** A block that does not contain the returned one. *)
Lemma added_other k c :
  t <= k -> tb / 2 ^ (k - t) <> c -> allfree added k c = allfree (fpage ps) k c.
Proof using Ha.
  intros Hk Hc. pose proof block_t. apply allfree_ext; [lia|]. intros p Hp. unfold added.
  destruct (Z.eqb_spec (p / 2 ^ t) tb) as [E|]; [|by rewrite orb_false_r].
  exfalso. apply Hc. by rewrite <- E, <- div_pow2_up by lia.
Qed.

Lemma block_end : (tb + 1) * 2 ^ t <= tp.
Proof using Hs Ha.
  pose proof block_t. pose proof (pow2_pos t ltac:(lia)).
  pose proof (alloc_block_page ps t tb ((tb + 1) * 2 ^ t - 1) Ha ltac:(apply in_block; lia)) as H1.
  apply zget_Some_range in H1. rewrite (bi_len _ Hs) in H1. lia.
Qed.

(** ** The merge loop *)

(** The ancestor of the block at order [k], and its buddy. *)
Abbreviation anc k := (tb / 2 ^ (k - t)).
Abbreviation bud k := (Z.lxor (anc k) 1).

Lemma anc_nonneg k : t <= k -> 0 <= anc k.
Proof using Ha. intros. pose proof block_tb. apply Z.div_pos; [lia|apply pow2_pos; lia]. Qed.
Lemma bud_nonneg k : t <= k -> 0 <= bud k.
Proof using Ha. intros. by apply lxor1_nonneg, anc_nonneg. Qed.
Lemma anc_ne_bud k : t <= k -> anc k <> bud k.
Proof using Ha. intros. apply not_eq_sym, lxor1_ne, anc_nonneg. done. Qed.

Lemma anc_up k : t <= k -> anc (k + 1) = anc k / 2.
Proof using. intros. rewrite <- up_half by lia. do 2 f_equal. lia. Qed.

(** A free buddy is a maximal free block: the parent contains the live block. *)
Lemma bud_maxfree k : t <= k < 10 -> maxfree (fpage ps) k (bud k) = allfree (fpage ps) k (bud k).
Proof using Ha.
  intros Hk. pose proof block_t. pose proof block_tb. unfold maxfree.
  rewrite lxor1_half, <- anc_up by (try apply anc_nonneg; lia).
  rewrite (allfree_false (fpage ps) (k + 1) (anc (k + 1)) (tb * 2 ^ t)), orb_true_r, andb_true_r; try done; [lia| |].
  - by rewrite (div_pow2_up _ t (k + 1)), block_head by lia.
  - apply (alloc_block_not_free ps t tb); [done|]. apply block_head. lia.
Qed.

(** The merge stops at the maximal free block around the returned one. *)
Lemma merge_stop k :
  t <= k < 11 -> allfree added k (anc k) = true ->
  k = 10 \/ allfree (fpage ps) k (bud k) = false -> maxfree added k (anc k) = true.
Proof using Ha.
  intros Hk Hf Hor. unfold maxfree, TOP. rewrite Hf. destruct (Z.eqb_spec k 10); [done|].
  destruct Hor as [|Hb]; [done|]. rewrite <- (added_other k) in Hb by (try apply anc_ne_bud; lia).
  apply orb_true_iff. right. apply negb_true_iff. destruct (allfree added (k + 1) _) eqn:E; [|done].
  rewrite <- Hb. symmetry. eapply allfree_down; [|..|exact E]; [pose proof block_t; lia|].
  replace (k + 1 - k) with 1 by lia. apply lxor1_half, anc_nonneg. lia.
Qed.

Definition merge_blocks (lo n : Z) : list (Z * Z) := (fun k => (k, bud k)) <$> seqZ lo n.

Lemma merge_start k :
  t <= k -> Z.min (anc k * 2 ^ k) (bud k * 2 ^ k) = anc (k + 1) * 2 ^ (k + 1).
Proof using Ha.
  intros Hk. pose proof block_t. pose proof (anc_nonneg k Hk) as Hc. rewrite anc_up by done.
  rewrite Z.pow_add_r by lia. pose proof (pow2_pos k ltac:(lia)). rewrite lxor_1 by done.
  pose proof (Z.div_mod (anc k) 2 ltac:(lia)) as Hd. pose proof (Zmod_even (anc k)) as He.
  destruct (Z.even (anc k)); nia.
Qed.

Lemma merge_loop_spec fuel : forall k acc,
  t <= k < 11 -> 11 - k <= Z.of_nat fuel -> allfree added k (anc k) = true ->
  exists o, k <= o < 11 /\ maxfree added o (anc o) = true /\
    (forall j, k <= j < o -> vblock tp j (bud j) /\ fbit tp (free_map s) j (bud j) = true) /\
    merge_loop fuel s (anc k * 2 ^ k) k acc =
      Ok (acc ++ mkbits tp (merge_blocks k (o - k)), anc o * 2 ^ o, o).
Proof using Hs Ha.
  pose proof block_t. pose proof (tp_bound Hs).
  induction fuel as [|fuel IH]; intros k acc Hk Hfuel Hf; [lia|].
  cbn [merge_loop]. unfold ORDER_COUNT.
  assert (forall j, k <= j < k -> vblock tp j (bud j) /\ fbit tp (free_map s) j (bud j) = true) by lia.
  assert (mkbits tp (merge_blocks k (k - k)) = []) as Hnil by (by rewrite Z.sub_diag).
  destruct (Z.ltb_spec k (11 - 1)).
  2:{ exists k. rewrite Hnil, app_nil_r. split_and!; try done; try lia. apply merge_stop; [done..|lia]. }
  pose proof (anc_nonneg k ltac:(lia)). pose proof (bud_nonneg k ltac:(lia)).
  pose proof (pow2_pos k ltac:(lia)). rewrite shiftl_1, lxor_pow2 by lia.
  rewrite (block_range_is_free Hs) by lia.
  destruct (match checked_add _ _ with None => true | Some e => tp <? e end) eqn:Eend.
  { exists k. rewrite Hnil, app_nil_r. split_and!; try done; try lia. apply merge_stop; [done..|right].
    destruct (allfree (fpage ps) k (bud k)) eqn:E; [|done]. exfalso.
    apply (allfree_vblock ps tp), vblock_end in E; [|apply Hs|lia|done].
    rewrite checked_add_Some in Eend by (unfold usize_max, u64_max; lia).
    apply Z.ltb_lt in Eend. lia. }
  assert (vblock tp k (bud k)) as Hvb.
  { apply vblock_intro; [lia|done|]. destruct (checked_add _ _) eqn:E; [|done].
    apply checked_add_inv in E as [-> _]. apply Z.ltb_ge in Eend. lia. }
  rewrite (location_block (bi_wf _ Hs)) by done. cbn [ok_or res_bind].
  rewrite is_set_mkbit, (bi_canon _ Hs), bud_maxfree by (done || lia).
  destruct (allfree (fpage ps) k (bud k)) eqn:E; cbn [negb orb].
  2:{ exists k. rewrite Hnil, app_nil_r. split_and!; try done; try lia. apply merge_stop; [done..|by right]. }
  assert (fbit tp (free_map s) k (bud k) = true) as Hset.
  { by rewrite (bi_canon _ Hs), bud_maxfree by (done || lia). }
  pose proof (count_pos_bit (bi_wf _ Hs) _ _ Hvb Hset).
  destruct (Z.eqb_spec (ag (block_count (free_map s)) k) 0); [lia|].
  rewrite merge_start by lia.
  destruct (IH (k + 1) (acc ++ [mkbit tp k (bud k)])) as (o & Ho & Hm & Hb & ->); [lia|lia| |].
  { rewrite anc_up by lia. apply allfree_join; [lia|done|done|].
    by rewrite (added_other k) by (try apply anc_ne_bud; lia). }
  exists o. split_and!; try done; try lia.
  - intros j Hj. destruct (decide (j = k)) as [->|]; [done|]. apply Hb. lia.
  - unfold merge_blocks. rewrite (seqZ_cons k (o - k)) by lia.
    replace (Z.succ k) with (k + 1) by lia. replace (Z.pred (o - k)) with (o - (k + 1)) by lia.
    by rewrite <- app_assoc.
Qed.

(** Free, reserved and live pages do not overlap, so the count cannot exceed
    what the window has. *)
Lemma free_room : free_pages s + 2 ^ t <= tp - reserved_pages s.
Proof using Hs Ha.
  pose proof block_t. pose proof block_tb. pose proof block_end as Hend.
  pose proof (pow2_pos t ltac:(lia)). pose proof (tp_bound Hs).
  rewrite (bi_free _ Hs), (bi_reserved _ Hs).
  assert (sumZ (fun p => Z.b2z (p / 2 ^ t =? tb)) (seqZ 0 tp) = 2 ^ t) as Hb.
  { rewrite (seqZ_split 0 tp (tb * 2 ^ t)), sumZ_app by nia.
    rewrite (seqZ_split (0 + tb * 2 ^ t) _ (2 ^ t)), sumZ_app by lia.
    rewrite (sumZ_seq_const _ (0 + tb * 2 ^ t) (2 ^ t) 1), !sumZ_zero; [lia|..|lia|];
      intros i Hi; try rewrite elem_of_seqZ in Hi;
      destruct (Z.eqb_spec (i / 2 ^ t) tb) as [E|E]; try done; exfalso;
      [apply in_block in E; lia..|apply E, in_block; lia]. }
  rewrite <- Hb at 1. enough (sumZ (fun p => (Z.b2z (fpage ps p) + Z.b2z (p / 2 ^ t =? tb)) + Z.b2z (rpage ps p))
    (seqZ 0 tp) <= sumZ (fun _ => 1) (seqZ 0 tp)) as Hle.
  { rewrite !sumZ_add, sumZ_const, zlen_seqZ in Hle by lia. lia. }
  apply sumZ_le. intros p _. destruct (Z.eqb_spec (p / 2 ^ t) tb) as [E|E].
  - by rewrite (alloc_block_not_free ps t tb), (alloc_block_not_reserved ps t tb).
  - unfold fpage, rpage. repeat case_bool_decide; simpl; try lia. unfold PAGE_FREE, PAGE_RESERVED in *; congruence.
Qed.

(** ** The merged block *)
Section merged.
Context (o : Z) (Ho : t <= o < 11) (Hm : maxfree added o (anc o) = true).
Abbreviation merged_list := (merge_blocks t (o - t)).

Lemma merged_vblock : vblock tp o (anc o).
Proof using Hs Ha Ho Hm.
  pose proof block_t. pose proof block_end. apply maxfree_allfree in Hm as Hf.
  apply vblock_intro; [lia|apply anc_nonneg; lia|]. pose proof (pow2_pos o ltac:(lia)).
  rewrite allfree_spec in Hf by lia.
  specialize (Hf ((anc o + 1) * 2 ^ o - 1) ltac:(apply in_block; lia)).
  apply orb_prop in Hf as [Hf|Hf%Z.eqb_eq].
  - apply bool_decide_eq_true, zget_Some_range in Hf. rewrite (bi_len _ Hs) in Hf. lia.
  - apply in_block in Hf; lia.
Qed.

Lemma sibling_merged k b : sibling t tb o k b = bool_decide ((k, b) ∈ merged_list).
Proof using.
  apply eq_true_iff_eq. rewrite bool_decide_eq_true. unfold sibling, merge_blocks.
  rewrite list_elem_of_fmap. setoid_rewrite elem_of_seqZ. split.
  - intros [[?%Z.leb_le ?%Z.ltb_lt]%andb_prop Hb%Z.eqb_eq]%andb_prop.
    exists k. split; [by rewrite Hb|lia].
  - intros (j & [= -> ->] & Hk). rewrite Z.eqb_refl. by zb; try lia.
Qed.

(** The free blocks before the release, in terms of those after it. *)
Lemma freed_bits k b :
  vblock tp k b -> fbit tp (free_map s) k b =
    (maxfree added k b && negb ((k =? o) && (b =? anc o))) || bool_decide ((k, b) ∈ merged_list).
Proof using Hs Ha Ho Hm.
  intros Hv. pose proof Hv as [Hk [Hb _]]. pose proof block_t. pose proof block_tb.
  rewrite (bi_canon _ Hs), (maxfree_ext _ (removed added t tb)) by (done || lia || intros; by rewrite removed_added).
  rewrite (maxfree_remove _ t tb o (anc o)) by (unfold TOP; done || lia). by rewrite sibling_merged.
Qed.

Lemma merged_list_nodup : NoDup merged_list.
Proof using. apply NoDup_fmap_2; [|apply NoDup_seqZ]. by intros ?? [=]. Qed.

Lemma merged_not_set : fbit tp (free_map s) o (anc o) = false.
Proof using Hs Ha Ho Hm.
  rewrite freed_bits, !Z.eqb_refl, andb_false_r by apply merged_vblock.
  apply bool_decide_eq_false. intros (k & [= -> ?] & Hk%elem_of_seqZ)%list_elem_of_fmap. lia.
Qed.

Lemma merged_no_overlap :
  has_unexpected_free_overlap s (anc o * 2 ^ o) (2 ^ o) (mkbits tp merged_list) = false.
Proof using Hs Ha Ho Hm.
  pose proof block_t. pose proof (vblock_end _ _ _ merged_vblock). pose proof (tp_bound Hs).
  pose proof (pow2_pos o ltac:(lia)). pose proof (anc_nonneg o ltac:(lia)).
  apply (overlap_spec (bi_wf _ Hs)); [nia|lia|unfold usize_max, u64_max; lia|].
  split_and!; [lia|lia|]. intros k b Hv Hset H1' H2'. pose proof Hv as [Hk [Hb _]].
  pose proof (pow2_pos k ltac:(lia)). rewrite freed_bits in Hset by done.
  apply orb_prop in Hset as [[Hmk Hne]%andb_prop|Hin%bool_decide_eq_true].
  - exfalso. set (p := Z.max (anc o * 2 ^ o) (b * 2 ^ k)).
    assert (p / 2 ^ o = anc o) as Ep by (apply in_block; lia).
    assert (p / 2 ^ k = b) as Ek by (apply in_block; lia).
    assert (k = o) as ->.
    { apply (maxfree_unique added k o p); [unfold TOP; lia..|by rewrite Ek|by rewrite Ep]. }
    rewrite <- Ek, Ep, !Z.eqb_refl in Hne. done.
  - exists (mkbit tp k b). split; [|done]. apply list_elem_of_fmap. by exists (k, b).
Qed.

(** The buddies merged are no longer maximal. *)
Lemma merged_consumed k b : (k, b) ∈ merged_list -> maxfree added k b = false.
Proof using Ha Ho Hm.
  intros (j & [= -> ->] & Hj%elem_of_seqZ)%list_elem_of_fmap. pose proof block_t.
  apply not_true_iff_false. intros Hmk.
  apply maxfree_allfree in Hm as Hf. apply (maxfree_above _ j _ o) in Hmk; [|unfold TOP; lia..].
  rewrite half_up, lxor1_half, <- half_up in Hmk by (try apply anc_nonneg; lia).
  replace (anc j / 2 ^ (o - j)) with (anc o) in Hmk; [congruence|].
  rewrite (div_pow2_up tb (j - t) (o - t)) by lia. do 2 f_equal. lia.
Qed.

(** The bitmap writes leave the maximal free blocks of the new page states. *)
Lemma free_bitmap :
  (forall j, t <= j < o -> vblock tp j (bud j) /\ fbit tp (free_map s) j (bud j) = true) ->
  exists fm1 fm2, commit_all (free_map s) (mkbits tp merged_list) false = Some fm1 /\
    commit_set fm1 (mkbit tp o (anc o)) true = Some fm2 /\ fm_wf tp fm2 /\
    forall k b, vblock tp k b -> fbit tp fm2 k b = maxfree added k b.
Proof using Hs Ha Ho Hm.
  intros Hbud. pose proof merged_vblock as Hmv. destruct (vblock_slot (bi_wf _ Hs) _ _ Hmv).
  destruct (commit_all_spec tp false merged_list (free_map s) (bi_wf _ Hs) merged_list_nodup)
    as (fm1 & Hc1 & Hwf1 & Hu1).
  { intros k b (j & [= -> ->] & Hj%elem_of_seqZ)%list_elem_of_fmap. apply Hbud. lia. }
  destruct (commit_set_spec Hwf1 o (anc o) Hmv true) as (fm2 & Hc2 & Hwf2 & Hu2).
  { rewrite Hu1 by done. case_decide; [done|]. apply merged_not_set. }
  exists fm1, fm2. split_and!; try done. intros k b Hv. destruct (vblock_slot (bi_wf _ Hs) _ _ Hv).
  rewrite Hu2, Hu1 by done. case_decide as E1; [by destruct E1 as [-> ->]; rewrite Hm|].
  case_decide as E2; [symmetry; by apply merged_consumed|].
  rewrite freed_bits, (bool_decide_eq_false_2 (_ ∈ _)), orb_false_r by done.
  destruct (Z.eqb_spec k o), (Z.eqb_spec b (anc o)); rewrite ?andb_true_r; naive_solver.
Qed.

(** The commit phase performs the transaction. *)
Lemma free_commit_spec :
  (forall j, t <= j < o -> vblock tp j (bud j) /\ fbit tp (free_map s) j (bud j) = true) ->
  exists s', free_commit s t
      (mkFreePlan (tb * 2 ^ t) (mkbits tp merged_list) (mkbit tp o (anc o)) (free_pages s + 2 ^ t))
      = (Ok tt, s') /\ free_post s t tb s'.
Proof using Hs Ha Ho Hm.
  intros Hbud. pose proof block_t. pose proof block_tb. pose proof block_end.
  pose proof (pow2_pos t ltac:(lia)).
  destruct (free_bitmap Hbud) as (fm1 & fm2 & Hc1 & Hc2 & Hwf2 & Hcan).
  destruct (fill_spec ps (tb * 2 ^ t) (2 ^ t) PAGE_FREE) as (ps2 & Hps & Hlen & Hg);
    [nia|lia|rewrite (bi_len _ Hs); lia|].
  unfold free_commit. cbn [fplan_merge fplan_final fplan_block_idx fplan_free_pages].
  rewrite Hc1. cbn [mbind option_bind]. rewrite shiftl_1, Hps by lia. cbn [mbind option_bind].
  rewrite Hc2. cbn [mbind option_bind]. eexists; split; [done|].
  assert (rewrites ps ps2 t tb (fun _ => PAGE_FREE)) as Hrw.
  { split; [done|]. intros p. rewrite Hg. destruct (Z.eqb_spec (p / 2 ^ t) tb) as [E|E].
    - apply in_block in E; [|lia]. by rewrite decide_True by lia.
    - rewrite decide_False; [done|]. intros ?. apply E, in_block; lia. }
  split; try done. apply (give_inv Hs t tb); try done.
  intros k b Hv. rewrite Hcan by done. destruct Hv as [Hk _]. apply maxfree_ext; [lia|].
  intros p. unfold added, fpage. rewrite (proj2 Hrw).
  destruct (Z.eqb_spec (p / 2 ^ t) tb); [|by rewrite orb_false_r]. by rewrite orb_true_r.
Qed.
End merged.

(** ** Validation *)
Lemma live_no_overlap : has_unexpected_free_overlap s (tb * 2 ^ t) (2 ^ t) [] = false.
Proof using Hs Ha.
  pose proof block_t. pose proof block_tb. pose proof block_end. pose proof (tp_bound Hs).
  pose proof (pow2_pos t ltac:(lia)).
  apply (overlap_spec (bi_wf _ Hs)); [nia|lia|unfold usize_max, u64_max; lia|].
  split_and!; [lia|lia|]. intros k b Hv Hset H1' H2'. exfalso. pose proof Hv as [Hk [Hb _]].
  pose proof (pow2_pos k ltac:(lia)). set (p := Z.max (tb * 2 ^ t) (b * 2 ^ k)).
  assert (fpage ps p = true) as Hp by (apply (set_block_page Hs k b); [done..|apply in_block; lia]).
  rewrite (alloc_block_not_free ps t tb) in Hp; [done..|apply in_block; lia].
Qed.

Lemma live_tails : existsb (fun i => negb (bool_decide (zget ps i = Some (PAGE_ALLOC_TAIL_BASE + t))))
  (seqZ (tb * 2 ^ t + 1) (2 ^ t - 1)) = false.
Proof using Ha.
  apply existsb_false_iff. intros i Hi%elem_of_seqZ. destruct Ha as (_ & _ & _ & Htl).
  rewrite Htl by lia. by rewrite bool_decide_eq_true_2.
Qed.

Lemma free_validate_live : free_validate s (base_addr s + tb * 2 ^ t * PAGE_SIZE) t = Ok (tb * 2 ^ t).
Proof using Hs Ha.
  pose proof block_t. pose proof block_tb. pose proof block_end. pose proof (tp_bound Hs).
  pose proof (pow2_pos t ltac:(lia)). pose proof (bi_base _ Hs).
  unfold free_validate. rewrite (bi_sound _ Hs). unfold ORDER_COUNT at 1. destruct (Z.leb_spec 11 t); [lia|].
  destruct (Z.ltb_spec (base_addr s + tb * 2 ^ t * PAGE_SIZE) (base_addr s)); [unfold PAGE_SIZE in *; nia|].
  rewrite Z.add_simpl_l, Z.mod_mul, Z.div_mul by done. cbn [Z.eqb negb].
  rewrite shiftl_1, land_pow2_mod, Z.mod_mul by lia. cbn [Z.eqb negb].
  rewrite checked_add_Some by (unfold usize_max, u64_max; lia).
  destruct (Z.ltb_spec tp (tb * 2 ^ t + 2 ^ t)); [lia|].
  rewrite (proj1 (proj2 (proj2 Ha))). cbn [ok_or res_bind].
  unfold PAGE_RESERVED, PAGE_FREE. rewrite start_not_tail, start_decode by done.
  rewrite bool_decide_eq_false_2 by (by intros [? ?]). unfold PAGE_ALLOC_START_BASE.
  zb; try lia. cbn [orb ok_or res_bind]. rewrite Z.eqb_refl. cbn [negb].
  unfold allocation_tail_state, ORDER_COUNT. zb; try lia. cbn [ok_or res_bind].
  by rewrite live_tails, live_no_overlap.
Qed.

Lemma free_preflight_live :
  exists o, t <= o < 11 /\ maxfree added o (anc o) = true /\
    (forall j, t <= j < o -> vblock tp j (bud j) /\ fbit tp (free_map s) j (bud j) = true) /\
    free_preflight s (base_addr s + tb * 2 ^ t * PAGE_SIZE) t =
      Ok (mkFreePlan (tb * 2 ^ t) (mkbits tp (merge_blocks t (o - t))) (mkbit tp o (anc o)) (free_pages s + 2 ^ t)).
Proof using Hs Ha.
  pose proof block_t. pose proof (tp_bound Hs). pose proof free_room as Hroom.
  pose proof (merge_loop_spec 12 t []) as Hmerge. rewrite Z.sub_diag, Z.pow_0_r, Z.div_1_r in Hmerge.
  destruct Hmerge as (o & Ho & Hm & Hbud & Hl); [lia|lia|apply added_block|].
  exists o. split_and!; try done; try lia. unfold free_preflight. rewrite free_validate_live. cbn [res_bind].
  rewrite Hl. cbn [res_bind app]. rewrite !shiftl_1, merged_no_overlap by (done || lia).
  pose proof (merged_vblock o Ho Hm) as Hmv. rewrite (location_block (bi_wf _ Hs)) by done.
  cbn [ok_or res_bind]. rewrite is_set_mkbit, merged_not_set by done. cbn [orb].
  pose proof (count_range (bi_wf _ Hs) o ltac:(lia)). pose proof (nblocks_le tp ltac:(lia) o ltac:(lia)).
  destruct (Z.eqb_spec (ag (block_count (free_map s)) o) usize_max);
    [unfold usize_max, u64_max in *; lia|].
  assert (0 <= reserved_pages s) by (rewrite (bi_reserved _ Hs); apply sumZ_nonneg; intros; apply b2z_bounds).
  rewrite checked_add_Some by (unfold usize_max, u64_max; lia). cbn [ok_or res_bind].
  unfold saturating_sub. destruct (Z.ltb_spec (Z.max (tp - reserved_pages s) 0) (free_pages s + 2 ^ t)); [lia|done].
Qed.
End live_block.

(** Anything that is not the address and order of a live allocation is turned
    away by a check that does not touch the ledger. *)
Lemma free_validate_not_live frame ord :
  0 <= ord -> ~ live s frame ord ->
  exists e, free_validate s frame ord = Err (e, false) /\ is_metadata_corruption e = false.
Proof using Hs.
  intros Ho Hnl. unfold free_validate. rewrite (bi_sound _ Hs).
  destruct (Z.leb_spec ORDER_COUNT ord); [by eexists|]. destruct (Z.ltb_spec frame (base_addr s)); [by eexists|].
  destruct (Z.eqb_spec ((frame - base_addr s) mod PAGE_SIZE) 0) as [Hm|]; [|by eexists]. cbn [negb].
  set (idx := (frame - base_addr s) / PAGE_SIZE).
  destruct (Z.land _ _ =? 0); [|by eexists]. cbn [negb].
  destruct (match checked_add _ _ with None => true | Some e => tp <? e end); [by eexists|].
  destruct (zget ps idx) as [x|] eqn:Ex; [|by eexists]. cbn [ok_or res_bind].
  destruct (x =? PAGE_RESERVED); [by eexists|].
  destruct (_ || _); [by eexists|].
  destruct (decode_allocation_start x) as [r|] eqn:Er; [|by eexists]. cbn [ok_or res_bind].
  destruct (Z.eqb_spec r ord) as [->|]; [|by eexists]. exfalso. apply Hnl.
  assert (x = PAGE_ALLOC_START_BASE + ord) as ->.
  { unfold decode_allocation_start, checked_sub in Er. revert Er. zb; try done; cbn [mbind option_bind].
    zb; intros [= ?]; lia. }
  destruct (start_mark ps idx ord (bi_pages _ Hs) ltac:(lia) Ex) as [Hblk Hidx].
  exists (idx / 2 ^ ord). split; [|done]. rewrite <- Hidx. subst idx.
  pose proof (Z.div_mod (frame - base_addr s) PAGE_SIZE ltac:(done)). lia.
Qed.

(** [try_free_pages] under the invariant: a live allocation is returned, and
    anything else is rejected with the allocator unchanged. *)
Lemma try_free_pages_live b ord :
  alloc_block ps ord b ->
  exists s', try_free_pages s (base_addr s + b * 2 ^ ord * PAGE_SIZE) ord = (Ok tt, s') /\ free_post s ord b s'.
Proof using Hs.
  intros Ha. destruct (free_preflight_live ord b Ha) as (o & Ho & Hm & Hbud & Hp).
  unfold try_free_pages. rewrite Hp. by apply free_commit_spec.
Qed.

Lemma try_free_pages_not_live frame ord :
  0 <= ord -> ~ live s frame ord ->
  exists e, try_free_pages s frame ord = (Err e, s) /\ is_metadata_corruption e = false.
Proof using Hs.
  intros Ho Hnl. destruct (free_validate_not_live frame ord Ho Hnl) as (e & He & Hc).
  exists e. unfold try_free_pages, free_preflight. by rewrite He.
Qed.
End free.

(** Being live is decided by the start mark. *)
Lemma live_dec s frame ord : buddy_inv s -> 0 <= ord -> live s frame ord \/ ~ live s frame ord.
Proof.
  intros Hs Ho. set (idx := (frame - base_addr s) / PAGE_SIZE).
  destruct (decide (ord < ORDER_COUNT /\ zget (page_state s) idx = Some (PAGE_ALLOC_START_BASE + ord) /\
    (frame - base_addr s) mod PAGE_SIZE = 0)) as [(Hlt & Hx & Hm)|Hno].
  - left. destruct (start_mark _ _ _ (bi_pages _ Hs) (conj Ho Hlt) Hx) as [Ha Hidx].
    exists (idx / 2 ^ ord). split; [|done]. rewrite <- Hidx. subst idx.
    pose proof (Z.div_mod (frame - base_addr s) PAGE_SIZE ltac:(done)). lia.
  - right. intros (b & -> & Ha). apply Hno. subst idx.
    rewrite Z.add_simpl_l, Z.mod_mul, Z.div_mul by done. destruct Ha as (? & _ & ? & _). split; [lia|done].
Qed.

(** A block just returned is not live under any order. *)
Lemma freed_not_live s ord b s' ord' :
  free_post s ord b s' -> ~ live s' (base_addr s + b * 2 ^ ord * PAGE_SIZE) ord'.
Proof.
  intros Hp (c & Heq & Ha). rewrite (fp_base _ _ _ _ Hp) in Heq.
  assert (b * 2 ^ ord = c * 2 ^ ord') as E by (unfold PAGE_SIZE in Heq; lia).
  pose proof (fp_was_live _ _ _ _ Hp) as (Ho & _). pose proof Ha as (Ho' & _).
  assert (fpage (page_state s') (c * 2 ^ ord') = false) as Hf.
  { apply (alloc_block_not_free _ ord' c); [done|]. apply block_head. lia. }
  unfold fpage in Hf. rewrite <- E, (proj2 (fp_rewrites _ _ _ _ Hp)), block_head, Z.eqb_refl in Hf by lia.
  by rewrite bool_decide_eq_true_2 in Hf.
Qed.
