(* ===== verification/BuddyAudit.v ===== *)
(** The audit of the buddy ledger: [validate_metadata] accepts exactly the
    ledgers that satisfy the invariant. *)

From Stdlib Require Import ZArith Lia.
From stdpp Require Import base list list_numbers numbers.
From S2P Require Import Prelude.
From S2P Require Import Machine.
From S2P Require Import Dyadic.
From S2P Require Import FreeMap.
From S2P Require Import FreeMapFacts.
From S2P Require Import Buddy.
From S2P Require Import BuddyBoot.
From S2P Require Import BuddyInv.

(** ** Covers *)

(** Page [p] lies in a free block of order [o]. *)
Definition cover (tp : Z) (fm : FixedFreeMap) (o p : Z) : bool :=
  (p / 2 ^ o <? nblocks tp o) && fbit tp fm o (p / 2 ^ o).

Section map.
Context {tp : Z} {fm : FixedFreeMap} (Hwf : fm_wf tp fm).

Lemma cover_block o b p : vblock tp o b -> p / 2 ^ o = b -> cover tp fm o p = fbit tp fm o b.
Proof using. intros [_ Hb] Hp. unfold cover. rewrite Hp. by zb; try lia. Qed.

Lemma cover_vblock o p :
  0 <= o < 11 -> 0 <= p -> cover tp fm o p = true ->
  vblock tp o (p / 2 ^ o) /\ fbit tp fm o (p / 2 ^ o) = true.
Proof using.
  intros Ho Hp [Hb%Z.ltb_lt ?]%andb_prop. split; [|done]. split; [done|]. split; [|done].
  apply Z.div_pos; [done|apply pow2_pos; lia].
Qed.

Lemma covering_spec p :
  0 <= p -> covering fm p = sumZ (fun o => Z.b2z (cover tp fm o p)) (seqZ 0 ORDER_COUNT).
Proof using Hwf.
  intros Hp. unfold covering. apply sumZ_ext. intros o Ho%elem_of_seqZ. unfold ORDER_COUNT in Ho.
  pose proof (pow2_pos o ltac:(lia)). rewrite shiftl_1 by lia.
  rewrite (location_spec Hwf) by (try apply Z.mul_nonneg_nonneg; try apply Z.div_pos; lia).
  rewrite Z.mod_mul, Z.div_mul by lia. cbn [Z.eqb andb]. unfold cover.
  destruct (_ <? _); [|done]. by rewrite is_set_mkbit.
Qed.

(** The weighted number of free blocks counts each page once per cover. *)
Lemma weighted_order o :
  0 <= o < 11 -> ag (block_count fm) o * 2 ^ o = sumZ (fun p => Z.b2z (cover tp fm o p)) (seqZ 0 tp).
Proof using Hwf.
  intros Ho. pose proof (pow2_pos o ltac:(lia)). pose proof (wf_tp _ _ Hwf).
  pose proof (nblocks_nonneg tp ltac:(lia) o ltac:(lia)).
  unfold ag. rewrite (wf_count _ _ Hwf) by done. simpl.
  assert (2 ^ o * nblocks tp o <= tp) by (unfold nblocks; apply Z.mul_div_le; lia).
  rewrite (sumZ_extend _ (2 ^ o * nblocks tp o) tp); [|nia|].
  - rewrite sumZ_tile, Z.mul_comm, <- sumZ_mul by lia. apply sumZ_ext. intros b Hb%elem_of_seqZ.
    rewrite (sumZ_seq_const _ 0 (2 ^ o) (Z.b2z (fbit tp fm o b))); [lia|lia|].
    intros i Hi. f_equal. apply cover_block; [by split; lia|]. apply in_block; lia.
  - intros i Hi. unfold cover. destruct (Z.ltb_spec (i / 2 ^ o) (nblocks tp o)) as [Hlt|]; [|done].
    pose proof (Z.mul_succ_div_gt i (2 ^ o) ltac:(lia)). nia.
Qed.

Lemma weighted_covering :
  sumZ (fun o => ag (block_count fm) o * 2 ^ o) (seqZ 0 ORDER_COUNT) = sumZ (covering fm) (seqZ 0 tp).
Proof using Hwf.
  rewrite (sumZ_ext (covering fm) (fun p => sumZ (fun o => Z.b2z (cover tp fm o p)) (seqZ 0 ORDER_COUNT))).
  2:{ intros p Hp%elem_of_seqZ. apply covering_spec. lia. }
  rewrite sumZ_exchange. apply sumZ_ext. intros o Ho%elem_of_seqZ. apply weighted_order. unfold ORDER_COUNT in Ho. lia.
Qed.

(** ** The loop over the orders *)
Definition coalesced (o : Z) : Prop :=
  forall b, vblock tp o b -> vblock tp o (Z.lxor b 1) -> fbit tp fm o b = true -> fbit tp fm o (Z.lxor b 1) = false.

Lemma buddies_coalesced_spec o : 0 <= o < 10 -> buddies_coalesced fm o = true <-> coalesced o.
Proof using Hwf.
  intros Ho. unfold buddies_coalesced, coalesced, ag. rewrite (wf_valid _ _ Hwf) by lia. simpl.
  rewrite forallb_forall. setoid_rewrite <- list_elem_of_In. setoid_rewrite elem_of_seqZ.
  pose proof (pow2_pos o ltac:(lia)).
  assert (forall b, 0 <= b < nblocks tp o -> location fm o (Z.shiftl b o) = Some (mkbit tp o b)) as Hloc.
  { intros b Hb. rewrite Z.shiftl_mul_pow2 by lia. apply (location_block Hwf); split; lia. }
  assert (forall b, 0 <= b -> location fm o (Z.lxor (Z.shiftl b o) (Z.shiftl 1 o)) =
    if Z.lxor b 1 <? nblocks tp o then Some (mkbit tp o (Z.lxor b 1)) else None) as Hbud.
  { intros b Hb. rewrite shiftl_1, Z.shiftl_mul_pow2, lxor_pow2 by lia. pose proof (lxor1_nonneg b Hb).
    rewrite (location_spec Hwf) by nia. by rewrite Z.mod_mul, Z.div_mul by lia. }
  split.
  - intros H1 b [_ Hb] [_ Hb'] Hset. specialize (H1 b ltac:(lia)).
    rewrite Hloc, is_set_mkbit, Hset, Hbud in H1 by lia. revert H1. zb; [|lia].
    rewrite is_set_mkbit. by intros ?%negb_true_iff.
  - intros H1 b Hb. rewrite Hloc, is_set_mkbit by lia. destruct (fbit tp fm o b) eqn:E; [|done].
    rewrite Hbud by lia. zb; [|done]. rewrite is_set_mkbit. apply negb_true_iff, H1; [by split; lia| |done].
    split; [lia|]. split; [apply lxor1_nonneg|]; lia.
Qed.

Lemma validate_orders_spec n : forall o acc,
  0 <= o -> o + Z.of_nat n = 11 -> 0 <= acc <= o * 2 ^ 40 ->
  (forall k, o <= k < 10 -> coalesced k) ->
  validate_orders fm (seqZ o (Z.of_nat n)) acc =
    Some (acc + sumZ (fun k => ag (block_count fm) k * 2 ^ k) (seqZ o (Z.of_nat n))).
Proof using Hwf.
  pose proof (wf_tp _ _ Hwf).
  induction n as [|n IH]; intros o acc Ho Hn Hacc Hco; [by rewrite Z.add_0_r|].
  rewrite seqZ_cons by lia. cbn [validate_orders]. replace (Z.succ o) with (o + 1) by lia.
  replace (Z.pred (Z.of_nat (S n))) with (Z.of_nat n) by lia.
  rewrite (count_actual_spec Hwf) by lia. cbn [mbind option_bind]. rewrite Z.eqb_refl. cbn [negb].
  rewrite shiftl_1 by lia. pose proof (pow2_pos o ltac:(lia)).
  pose proof (count_range Hwf o ltac:(lia)).
  assert (nblocks tp o * 2 ^ o <= tp) by (unfold nblocks; rewrite Z.mul_comm; apply Z.mul_div_le; lia).
  rewrite checked_mul_Some by (unfold usize_max, u64_max; nia). cbn [mbind option_bind].
  rewrite checked_add_Some by (unfold usize_max, u64_max; nia). cbn [mbind option_bind].
  unfold ORDER_COUNT. replace (_ && _) with false.
  2:{ destruct (Z.ltb_spec (o + 1) 11); [|done].
      by rewrite (proj2 (buddies_coalesced_spec o ltac:(lia)) (Hco o ltac:(lia))). }
  rewrite IH; [cbn [sumZ foldr]; f_equal; unfold sumZ; lia|lia|lia|nia|]. intros. apply Hco. lia.
Qed.

Lemma validate_orders_sound n : forall o acc w,
  0 <= o -> o + Z.of_nat n = 11 -> validate_orders fm (seqZ o (Z.of_nat n)) acc = Some w ->
  forall k, o <= k < 10 -> coalesced k.
Proof using Hwf.
  induction n as [|n IH]; intros o acc w Ho Hn; [lia|].
  rewrite seqZ_cons by lia. cbn [validate_orders].
  replace (Z.succ o) with (o + 1) by lia. replace (Z.pred (Z.of_nat (S n))) with (Z.of_nat n) by lia.
  destruct (count_actual fm o); [|done]. cbn [mbind option_bind]. destruct (negb _); [done|].
  destruct (checked_mul _ _); [|done]. cbn [mbind option_bind].
  destruct (checked_add _ _) as [acc'|]; [|done]. cbn [mbind option_bind]. unfold ORDER_COUNT.
  destruct (_ && _) eqn:E; [done|]. intros Hv k Hk.
  destruct (decide (k = o)) as [->|]; [|eapply IH; [..|exact Hv|]; lia].
  apply buddies_coalesced_spec; [lia|]. destruct (Z.ltb_spec (o + 1) 11); [|lia].
  by destruct (buddies_coalesced fm o).
Qed.
End map.

(** ** The loop over the pages *)
Section pages.
Context {s : BuddyAllocator} (Hwf : fm_wf (total_pages s) (free_map s)).
Context (Hlen : zlen (page_state s) = total_pages s).
Abbreviation tp := (total_pages s).
Abbreviation ps := (page_state s).

Definition uncovered (p : Z) : Prop := forall o, 0 <= o < 11 -> cover tp (free_map s) o p = false.

Lemma uncovered_covering p : 0 <= p -> uncovered p -> covering (free_map s) p = 0.
Proof using Hwf.
  intros Hp Hu. rewrite (covering_spec Hwf) by done. apply sumZ_zero. intros o Ho%elem_of_seqZ.
  unfold ORDER_COUNT in Ho. by rewrite Hu by lia.
Qed.

Lemma no_overlap_spec start n :
  0 <= start -> 0 < n -> start + n <= tp ->
  has_unexpected_free_overlap s start n [] = false <-> forall p, start <= p < start + n -> uncovered p.
Proof using Hwf.
  intros Hst Hn He. pose proof (wf_tp _ _ Hwf).
  rewrite (overlap_spec Hwf) by (unfold usize_max, u64_max; lia). split.
  - intros (_ & _ & H1) p Hp o Ho. apply not_true_iff_false. intros Hc.
    destruct (cover_vblock o p Ho ltac:(lia) Hc) as [Hv Hset].
    destruct (proj1 (in_block o _ p ltac:(lia)) eq_refl).
    destruct (H1 _ _ Hv Hset) as (c & Hc' & _); [lia|lia|]. by apply elem_of_nil in Hc'.
  - intros H1. split_and!; [done|done|]. intros o b Hv Hset Hlo Hhi. exfalso.
    pose proof Hv as [Ho [Hb _]]. pose proof (pow2_pos o ltac:(lia)).
    specialize (H1 (Z.max start (b * 2 ^ o)) ltac:(lia) o Ho).
    rewrite (cover_block o b) in H1; [congruence|done|]. apply in_block; lia.
Qed.

(** What the audit checks of a page. *)
Definition page_ok (p : Z) : Prop :=
  (zget ps p = Some PAGE_FREE /\ covering (free_map s) p = 1) \/
  (zget ps p = Some PAGE_RESERVED /\ uncovered p) \/
  (exists o, alloc_block ps o (p / 2 ^ o) /\ uncovered p).

Abbreviation reserved_in lo n := (sumZ (fun p => Z.b2z (rpage ps p)) (seqZ lo n)).

Lemma reserved_cons p n : 0 < n -> reserved_in p n = Z.b2z (rpage ps p) + reserved_in (p + 1) (n - 1).
Proof using. intros. by rewrite seqZ_cons by lia. Qed.

Lemma reserved_skip o b n :
  alloc_block ps o b -> 2 ^ o <= n -> reserved_in (b * 2 ^ o) n = reserved_in (b * 2 ^ o + 2 ^ o) (n - 2 ^ o).
Proof using.
  intros Ha Hn. pose proof Ha as (Ho & Hb & _). pose proof (pow2_pos o ltac:(lia)).
  rewrite (seqZ_split _ n (2 ^ o)) by lia. rewrite sumZ_app, (sumZ_zero _ (seqZ (b * 2 ^ o) (2 ^ o))); [lia|].
  intros p Hp%elem_of_seqZ. rewrite (alloc_block_not_reserved ps o b); [done|done|]. apply in_block; lia.
Qed.

(** An allocation start that passes the checks of the loop is a live block. *)
Lemma start_checks p o :
  0 <= p -> 0 <= o < 11 -> zget ps p = Some (PAGE_ALLOC_START_BASE + o) ->
  Z.land p (Z.shiftl 1 o - 1) = 0 ->
  existsb (fun i => negb (bool_decide (zget ps i = Some (PAGE_ALLOC_TAIL_BASE + o))))
    (seqZ (p + 1) (Z.shiftl 1 o - 1)) = false ->
  alloc_block ps o (p / 2 ^ o) /\ p = p / 2 ^ o * 2 ^ o.
Proof using.
  intros Hp Ho Hx Hal Htl. pose proof (pow2_pos o ltac:(lia)).
  rewrite shiftl_1, ?land_pow2_mod in * by lia.
  assert (p = p / 2 ^ o * 2 ^ o) as Hpb by (pose proof (Z.div_mod p (2 ^ o) ltac:(lia)); lia).
  split; [|done]. split; [done|]. split; [apply Z.div_pos; lia|]. rewrite <- Hpb. split; [done|].
  intros q Hq. rewrite existsb_false_iff in Htl. specialize (Htl q ltac:(rewrite elem_of_seqZ; lia)).
  by apply negb_false_iff, bool_decide_eq_true in Htl.
Qed.

Lemma validate_pages_sound fuel : forall page acc r,
  0 <= page <= tp -> validate_pages fuel s page acc = Some r ->
  (forall p, page <= p < tp -> page_ok p) /\ r = acc + reserved_in page (tp - page).
Proof using Hwf Hlen.
  pose proof (wf_tp _ _ Hwf).
  induction fuel as [|fuel IH]; intros page acc r Hpage; [done|]. cbn [validate_pages].
  destruct (Z.ltb_spec page tp).
  2:{ intros [= <-]. split; [lia|]. replace (tp - page) with 0 by lia. by rewrite Z.add_0_r. }
  destruct (zget ps page) as [x|] eqn:Ex; [|done]. cbn [mbind option_bind].
  assert (forall q, page_ok page -> (forall p, page + 1 <= p < tp -> page_ok p) -> page <= q < tp -> page_ok q) as Hone.
  { intros q ? Hr ?. destruct (decide (q = page)) as [->|]; [done|]. apply Hr. lia. }
  destruct (Z.eqb_spec x PAGE_RESERVED) as [->|].
  - destruct (has_unexpected_free_overlap s page 1 []) eqn:Eo; [done|].
    destruct (checked_add acc 1) as [acc'|] eqn:Ea; [|done]. cbn [mbind option_bind]. intros Hv.
    apply checked_add_inv in Ea as [-> _]. apply IH in Hv as [Hok ->]; [|lia].
    rewrite no_overlap_spec in Eo by lia. split.
    + intros p. apply Hone; [|done]. right; left. split; [done|]. apply Eo. lia.
    + rewrite (reserved_cons page) by lia. unfold rpage at 2. rewrite Ex, bool_decide_eq_true_2 by done.
      replace (tp - (page + 1)) with (tp - page - 1) by lia. simpl. lia.
  - destruct (Z.eqb_spec x PAGE_FREE) as [->|].
    + destruct (Z.eqb_spec (covering (free_map s) page) 1); [|done]. cbn [negb]. intros Hv.
      apply IH in Hv as [Hok ->]; [|lia]. split.
      * intros p. apply Hone; [|done]. by left.
      * rewrite (reserved_cons page) by lia. unfold rpage at 2. rewrite Ex, bool_decide_eq_false_2 by done.
        replace (tp - (page + 1)) with (tp - page - 1) by lia. simpl. lia.
    + destruct (decode_allocation_start x) as [o|] eqn:Ed; [|done]. cbn [mbind option_bind].
      apply decode_start_Some in Ed as [Ho ->].
      destruct (Z.eqb_spec (Z.land page (Z.shiftl 1 o - 1)) 0) as [Hal|]; [|done]. cbn [negb orb].
      destruct (match checked_add _ _ with None => true | Some e => tp <? e end) eqn:Ee; [done|].
      unfold allocation_tail_state, ORDER_COUNT. destruct (Z.ltb_spec o 11); [|lia]. cbn [mbind option_bind].
      destruct (existsb _ _) eqn:Et; [done|].
      destruct (start_checks page o ltac:(lia) Ho Ex Hal Et) as [Hblk Hpb].
      destruct (has_unexpected_free_overlap s _ _ _) eqn:Eo; [done|]. intros Hv.
      rewrite shiftl_1 in * by lia. pose proof (pow2_pos o ltac:(lia)).
      destruct (checked_add page (2 ^ o)) as [e|] eqn:Ea; [|done]. apply checked_add_inv in Ea as [-> _].
      apply Z.ltb_ge in Ee. apply IH in Hv as [Hok ->]; [|lia].
      rewrite no_overlap_spec in Eo by lia. split.
      * intros p Hp. destruct (decide (p < page + 2 ^ o)) as [Hlt|]; [|apply Hok; lia].
        right; right. exists o. replace (p / 2 ^ o) with (page / 2 ^ o); [by split; [|apply Eo; lia]|].
        symmetry. apply in_block; lia.
      * rewrite Hpb at 3 4. rewrite (reserved_skip o) by (done || lia).
        rewrite <- Hpb. do 3 f_equal. lia.
Qed.

Lemma live_end o b : alloc_block ps o b -> (b + 1) * 2 ^ o <= tp.
Proof using Hlen.
  intros Ha. pose proof Ha as (Ho & _). pose proof (pow2_pos o ltac:(lia)).
  rewrite <- Hlen. enough ((b + 1) * 2 ^ o - 1 < zlen ps) by lia.
  eapply zget_Some_range, (alloc_block_page ps o b); [done|]. apply in_block; lia.
Qed.

Lemma page_ok_live p o : page_ok p -> alloc_block ps o (p / 2 ^ o) -> uncovered p.
Proof using.
  intros [[Hx _]|[[_ ?]|(? & _ & ?)]] Ha; [|done..].
  apply (alloc_block_not_free ps _ _ p) in Ha; [|done]. unfold fpage in Ha.
  by rewrite Hx, bool_decide_eq_true_2 in Ha.
Qed.

(** The step over a live block. *)
Lemma validate_start fuel o b acc :
  alloc_block ps o b -> (forall p, p / 2 ^ o = b -> uncovered p) ->
  validate_pages (S fuel) s (b * 2 ^ o) acc = validate_pages fuel s (b * 2 ^ o + 2 ^ o) acc.
Proof using Hwf Hlen.
  intros Ha Hu. pose proof Ha as (Ho & Hb & Hx & Htl). unfold ORDER_COUNT in Ho. pose proof (wf_tp _ _ Hwf).
  pose proof (pow2_pos o ltac:(lia)). pose proof (live_end o b Ha).
  cbn [validate_pages]. destruct (Z.ltb_spec (b * 2 ^ o) tp); [|lia]. rewrite Hx. cbn [mbind option_bind].
  rewrite start_decode by done.
  destruct (Z.eqb_spec (PAGE_ALLOC_START_BASE + o) PAGE_RESERVED);
    [unfold PAGE_ALLOC_START_BASE, PAGE_RESERVED in *; lia|].
  destruct (Z.eqb_spec (PAGE_ALLOC_START_BASE + o) PAGE_FREE);
    [unfold PAGE_ALLOC_START_BASE, PAGE_FREE in *; lia|].
  cbn [mbind option_bind]. rewrite shiftl_1, land_pow2_mod, Z.mod_mul by lia. cbn [Z.eqb negb orb].
  rewrite checked_add_Some by (unfold usize_max, u64_max; lia).
  destruct (Z.ltb_spec tp (b * 2 ^ o + 2 ^ o)); [lia|].
  unfold allocation_tail_state, ORDER_COUNT. destruct (Z.ltb_spec o 11); [|lia]. cbn [mbind option_bind].
  rewrite (proj2 (existsb_false_iff _ (seqZ (b * 2 ^ o + 1) _))).
  2:{ intros i Hi%elem_of_seqZ. rewrite Htl by lia. by rewrite bool_decide_eq_true_2. }
  rewrite (proj2 (no_overlap_spec (b * 2 ^ o) (2 ^ o) ltac:(lia) ltac:(lia) ltac:(lia))); [done|].
  intros p Hp. apply Hu, in_block; lia.
Qed.

(** A page the loop visits is never inside an allocation. *)
Definition boundary (p : Z) : Prop := forall o, alloc_block ps o (p / 2 ^ o) -> p = p / 2 ^ o * 2 ^ o.

Lemma boundary_next p : boundary p -> (forall o, ~ alloc_block ps o (p / 2 ^ o)) -> boundary (p + 1).
Proof using.
  intros _ Hno o Ha. pose proof Ha as (Ho & Hb & _). pose proof (pow2_pos o ltac:(lia)).
  destruct (proj1 (in_block o _ (p + 1) ltac:(lia)) eq_refl) as [Hlo Hhi].
  destruct (decide (p + 1 = (p + 1) / 2 ^ o * 2 ^ o)) as [|Hne]; [done|]. exfalso. apply (Hno o).
  replace (p / 2 ^ o) with ((p + 1) / 2 ^ o); [done|]. symmetry. apply in_block; lia.
Qed.

Lemma boundary_skip o b : alloc_block ps o b -> boundary (b * 2 ^ o + 2 ^ o).
Proof using.
  intros Ha o' Ha'. pose proof Ha as (Ho & Hb & _). pose proof Ha' as (Ho' & _).
  set (q := b * 2 ^ o + 2 ^ o) in *. pose proof (pow2_pos o ltac:(lia)). pose proof (pow2_pos o' ltac:(lia)).
  destruct (proj1 (in_block o' _ q ltac:(lia)) eq_refl) as [Hlo Hhi].
  destruct (decide (q = q / 2 ^ o' * 2 ^ o')) as [|Hne]; [done|]. exfalso.
  destruct (alloc_block_unique ps o b o' (q / 2 ^ o') (q - 1)) as [<- Hbq]; try done; try (apply in_block; lia).
  rewrite <- Hbq in Hhi. subst q. lia.
Qed.

Lemma validate_pages_complete fuel : forall page acc,
  (forall p, 0 <= p < tp -> page_ok p) -> 0 <= page <= tp -> boundary page ->
  tp - page < Z.of_nat fuel -> 0 <= acc <= page ->
  validate_pages fuel s page acc = Some (acc + reserved_in page (tp - page)).
Proof using Hwf Hlen.
  pose proof (wf_tp _ _ Hwf).
  induction fuel as [|fuel IH]; intros page acc Hok Hpage Hbd Hfuel Hacc; [lia|].
  destruct (decide (page < tp)) as [Hlt|].
  2:{ cbn [validate_pages]. replace (tp - page) with 0 by lia. rewrite Z.add_0_r. by zb; try lia. }
  assert (page <? tp = true) as Hb by (by apply Z.ltb_lt).
  assert (page_ok page) as [[Hx Hc]|[[Hx Hc]|(o & Hblk & Hu)]] by (apply Hok; lia).
  - cbn [validate_pages]. rewrite Hb, Hx. cbn [mbind option_bind]. change (PAGE_FREE =? PAGE_RESERVED) with false. rewrite Z.eqb_refl, Hc. cbn [negb Z.eqb].
    rewrite IH; [|done|lia| |lia|lia].
    + rewrite (reserved_cons page) by lia. unfold rpage at 2. rewrite Hx, bool_decide_eq_false_2 by done.
      by replace (tp - (page + 1)) with (tp - page - 1) by lia.
    + apply boundary_next; [done|]. intros o Ha. apply (alloc_block_not_free ps _ _ page) in Ha; [|done].
      unfold fpage in Ha. by rewrite Hx, bool_decide_eq_true_2 in Ha.
  - cbn [validate_pages]. rewrite Hb, Hx. cbn [mbind option_bind]. rewrite Z.eqb_refl.
    rewrite (proj2 (no_overlap_spec page 1 ltac:(lia) ltac:(lia) ltac:(lia))).
    2:{ intros p Hp. by replace p with page by lia. }
    rewrite checked_add_Some by (unfold usize_max, u64_max; lia). cbn [mbind option_bind].
    rewrite IH; [|done|lia| |lia|lia].
    + rewrite (reserved_cons page) by lia. unfold rpage at 2. rewrite Hx, bool_decide_eq_true_2 by done.
      replace (tp - (page + 1)) with (tp - page - 1) by lia. simpl. f_equal. lia.
    + apply boundary_next; [done|]. intros o Ha. apply (alloc_block_not_reserved ps _ _ page) in Ha; [|done].
      unfold rpage in Ha. by rewrite Hx, bool_decide_eq_true_2 in Ha.
  - pose proof (Hbd o Hblk) as Heq. pose proof Hblk as (Ho & Hb' & _). pose proof (pow2_pos o ltac:(lia)).
    pose proof (live_end o _ Hblk) as Hend. set (b := page / 2 ^ o) in *. clearbody b. subst page.
    rewrite validate_start, IH, (reserved_skip o); try done; try lia.
    + do 4 f_equal. lia.
    + by apply boundary_skip.
    + intros p Hp. destruct (proj1 (in_block o b p ltac:(lia)) Hp).
      apply (page_ok_live p o); [apply Hok; lia|by rewrite Hp].
Qed.
End pages.

(** ** From covers to maximal free blocks *)
Section canonical.
Context {s : BuddyAllocator} (Hwf : fm_wf (total_pages s) (free_map s)).
Context (Hlen : zlen (page_state s) = total_pages s).
Abbreviation tp := (total_pages s).
Abbreviation ps := (page_state s).
Abbreviation cov := (cover tp (free_map s)).

(** In a canonical bitmap a page has exactly one cover if it is free. *)
Lemma canonical_covering :
  (forall o b, vblock tp o b -> fbit tp (free_map s) o b = maxfree (fpage ps) o b) ->
  forall p, 0 <= p -> covering (free_map s) p = Z.b2z (fpage ps p).
Proof using Hwf Hlen.
  intros Hcan p Hp. rewrite (covering_spec Hwf) by done.
  assert (forall o, 0 <= o < 11 -> cov o p = maxfree (fpage ps) o (p / 2 ^ o)) as Hc.
  { intros o Ho. assert (0 <= p / 2 ^ o) by (apply Z.div_pos; [done|apply pow2_pos; lia]).
    unfold cover. destruct (Z.ltb_spec (p / 2 ^ o) (nblocks tp o)); [apply Hcan; by split; lia|].
    symmetry. apply not_true_iff_false. intros Hm%maxfree_allfree.
    apply (allfree_vblock ps tp) in Hm as [_ ?]; lia || done. }
  destruct (fpage ps p) eqn:Ef.
  - destruct (maxfree_exists (fpage ps) 0 p) as (o & Ho & Hm); [unfold TOP; lia| |].
    { apply allfree_spec; [lia|]. intros q. rewrite Z.pow_0_r, Z.div_1_r. congruence. }
    rewrite Z.sub_0_r in Hm. unfold TOP in Ho.
    rewrite (sumZ_update (fun _ => 0) _ _ o); [|apply NoDup_seqZ|rewrite elem_of_seqZ; unfold ORDER_COUNT; lia|].
    + rewrite sumZ_const, Hc, Hm by lia. done.
    + intros k Hk%elem_of_seqZ Hne. unfold ORDER_COUNT in Hk. rewrite Hc by lia.
      destruct (maxfree (fpage ps) k (p / 2 ^ k)) eqn:E; [|done]. exfalso. apply Hne.
      apply (maxfree_unique (fpage ps) k o p); unfold TOP; lia || done.
  - apply sumZ_zero. intros k Hk%elem_of_seqZ. unfold ORDER_COUNT in Hk. rewrite Hc by lia.
    destruct (maxfree (fpage ps) k (p / 2 ^ k)) eqn:E; [|done]. exfalso. apply maxfree_allfree in E.
    rewrite allfree_spec in E by lia. rewrite E in Ef; done.
Qed.

Context (Hok : forall p, 0 <= p < tp -> page_ok (s := s) p).
Context (Hco : forall k, 0 <= k < 10 -> coalesced (tp := tp) (fm := free_map s) k).

Lemma cov_free o p : 0 <= o < 11 -> 0 <= p < tp -> cov o p = true -> fpage ps p = true.
Proof using Hok.
  intros Ho Hp Hc. destruct (Hok p Hp) as [[Hx _]|[[_ Hu]|(? & _ & Hu)]].
  - unfold fpage. by rewrite Hx, bool_decide_eq_true_2.
  - by rewrite Hu in Hc.
  - by rewrite Hu in Hc.
Qed.

Lemma free_covered p : 0 <= p < tp -> fpage ps p = true -> covering (free_map s) p = 1.
Proof using Hok.
  intros Hp Hf%bool_decide_eq_true. destruct (Hok p Hp) as [[_ ?]|[[Hx _]|(o & Ha & _)]]; [done| |].
  - rewrite Hf in Hx. done.
  - apply (alloc_block_not_free ps o _ p) in Ha; [|done]. unfold fpage in Ha.
    by rewrite Hf, bool_decide_eq_true_2 in Ha.
Qed.

Lemma cov_unique o o' p :
  0 <= o < 11 -> 0 <= o' < 11 -> 0 <= p < tp -> cov o p = true -> cov o' p = true -> o = o'.
Proof using Hwf Hok.
  intros Ho Ho' Hp H1 H2. pose proof (free_covered p Hp (cov_free o p Ho Hp H1)) as Hc.
  destruct (decide (o = o')) as [|Hne]; [done|]. exfalso.
  rewrite (covering_spec Hwf) in Hc by lia.
  pose proof (sumZ_ge_two (fun k => Z.b2z (cov k p)) (seqZ 0 ORDER_COUNT) o o') as Htwo.
  cbv beta in Htwo. rewrite H1, H2, Hc in Htwo. change (Z.b2z true) with 1 in Htwo.
  enough (1 + 1 <= 1) by lia. apply Htwo; [intros; apply b2z_bounds| | |done];
    rewrite elem_of_seqZ; unfold ORDER_COUNT; lia.
Qed.

Lemma free_cov_ex p : 0 <= p < tp -> fpage ps p = true -> exists o, 0 <= o < 11 /\ cov o p = true.
Proof using Hwf Hok.
  intros Hp Hf. pose proof (free_covered p Hp Hf) as Hc. rewrite (covering_spec Hwf) in Hc by lia.
  destruct (sumZ_pos_ex (fun k => Z.b2z (cov k p)) (seqZ 0 ORDER_COUNT)) as (o & Ho%elem_of_seqZ & H1); [lia|].
  unfold ORDER_COUNT in Ho. exists o. split; [lia|]. by destruct (cov o p).
Qed.

(** A free block is covered by a block at least as large: smaller covers would
    be two free buddies somewhere inside. *)
Lemma covered_from_above n : forall o b,
  o = Z.of_nat n -> o < 11 -> 0 <= b -> allfree (fpage ps) o b = true ->
  exists k, o <= k < 11 /\ cov k (b * 2 ^ o) = true.
Proof using Hwf Hlen Hok Hco.
  induction n as [|n IH]; intros o b Heq Ho Hb Hf;
    pose proof (allfree_vblock ps tp o b Hlen ltac:(lia) Hb Hf) as Hv;
    pose proof (vblock_end _ _ _ Hv) as Hend; pose proof (pow2_pos o ltac:(lia)).
  - destruct (free_cov_ex (b * 2 ^ o)) as (k & Hk & Hc); [nia| |exists k; split; [lia|done]].
    rewrite allfree_spec in Hf by lia. apply Hf, block_head. lia.
  - assert (forall c, c / 2 = b -> exists k, o - 1 <= k < 11 /\ cov k (c * 2 ^ (o - 1)) = true) as Hhalf.
    { intros c Hc. apply IH; [lia|lia|pose proof (Z.mul_div_le c 2 ltac:(lia)); lia|]. eapply allfree_down; [|..|exact Hf]; [lia|].
      by replace (o - (o - 1)) with 1 by lia. }
    assert (forall c k, c / 2 = b -> o <= k -> c * 2 ^ (o - 1) / 2 ^ k = b * 2 ^ o / 2 ^ k) as Hup.
    { intros c k Hc Hk. rewrite (div_pow2_up _ (o - 1) k), block_head by lia.
      rewrite (div_pow2_up _ o k), block_head, <- Hc by lia. rewrite half_up by lia. do 2 f_equal. lia. }
    assert (2 * b / 2 = b) as E0 by (symmetry; apply (Z.div_unique _ 2 b 0); lia).
    assert ((2 * b + 1) / 2 = b) as E1 by (symmetry; apply (Z.div_unique _ 2 b 1); lia).
    destruct (Hhalf _ E0) as (k & Hk & Hc), (Hhalf _ E1) as (k' & Hk' & Hc').
    destruct (decide (o <= k)); [|destruct (decide (o <= k'))].
    + exists k. split; [lia|]. unfold cover in *. by rewrite (Hup _ _ E0) in Hc by lia.
    + exists k'. split; [lia|]. unfold cover in *. by rewrite (Hup _ _ E1) in Hc' by lia.
    + exfalso. replace k with (o - 1) in Hc by lia. replace k' with (o - 1) in Hc' by lia.
      pose proof (pow2_pos (o - 1) ltac:(lia)).
      apply cover_vblock in Hc as [Hv1 H1]; [|lia|nia]. apply cover_vblock in Hc' as [Hv2 H2]; [|lia|nia].
      rewrite block_head in Hv1, H1, Hv2, H2 by lia.
      pose proof (Hco (o - 1) ltac:(lia) (2 * b) Hv1) as Hcontra.
      rewrite lxor_1, Z.even_mul in Hcontra by lia. cbn [Z.even orb] in Hcontra.
      rewrite Hcontra in H2; done.
Qed.

(** A ledger that passes the checks is canonical. *)
Lemma audited_canonical o b : vblock tp o b -> fbit tp (free_map s) o b = maxfree (fpage ps) o b.
Proof using Hwf Hlen Hok Hco.
  intros Hv. pose proof Hv as [Ho [Hb _]]. pose proof (vblock_end _ _ _ Hv) as Hend.
  pose proof (pow2_pos o ltac:(lia)).
  assert (forall p, p / 2 ^ o = b -> 0 <= p < tp) as Hin by (intros p Hp%in_block; nia || lia).
  assert (fbit tp (free_map s) o b = true -> allfree (fpage ps) o b = true) as Hsound.
  { intros Hset. apply allfree_spec; [lia|]. intros p Hp. apply (cov_free o p); [done|by apply Hin|].
    by rewrite (cover_block o b). }
  apply eq_true_iff_eq. split.
  - intros Hset. unfold maxfree. rewrite Hsound by done. destruct (Z.eqb_spec o TOP); [done|].
    apply negb_true_iff, not_true_iff_false. intros Hpar. unfold TOP in *.
    destruct (covered_from_above (Z.to_nat (o + 1)) (o + 1) (b / 2)) as (k & Hk & Hc); [lia|lia|apply Z.div_pos; lia|done|].
    assert (k = o); [|lia]. apply (cov_unique k o (b * 2 ^ o)); [lia|done|apply Hin, block_head; lia| |].
    + unfold cover in *. rewrite (div_pow2_up _ (o + 1) k), block_head in Hc by lia.
      rewrite (div_pow2_up _ o k), block_head, half_up by lia.
      by replace (k - o - 1) with (k - (o + 1)) by lia.
    + by rewrite (cover_block o b) by (done || apply block_head; lia).
  - intros Hm. destruct (covered_from_above (Z.to_nat o) o b) as (k & Hk & Hc); [lia|lia|done|by apply maxfree_allfree|].
    destruct (decide (k = o)) as [->|Hne].
    + rewrite (cover_block o b) in Hc; [done|done|]. apply block_head. lia.
    + exfalso. apply (maxfree_above (fpage ps) o b k) in Hm; [|unfold TOP; lia..].
      assert (0 <= b * 2 ^ o) by lia. apply cover_vblock in Hc as [Hvk Hset]; [|lia|done].
      rewrite (div_pow2_up _ o k), block_head in Hvk, Hset by lia.
      rewrite <- not_true_iff_false in Hm. apply Hm, allfree_spec; [lia|]. intros p Hp.
      pose proof (vblock_end _ _ _ Hvk). pose proof (pow2_pos k ltac:(lia)). pose proof Hvk as [_ [? _]].
      apply (cov_free k p); [lia| |by rewrite (cover_block k _ p Hvk Hp)].
      apply in_block in Hp; [nia|lia].
Qed.
End canonical.

(** ** The audit *)

(** The bitmap with its counters recomputed from the bits. *)
Definition recount (tp : Z) (fm : FixedFreeMap) : FixedFreeMap :=
  mkFreeMap (words fm) (word_base fm) (valid_blocks fm)
    ((fun o => sumZ (fun b => Z.b2z (fbit tp fm o b)) (seqZ 0 (nblocks tp o))) <$> seqZ 0 ORDER_COUNT)
    (search_cursor fm).

(** What the audit takes for granted: the arrays have their sizes and the
    window is a valid one.  Bits, counters, page states and totals are
    arbitrary, except for the unused bits of the last word of an order. *)
Record ledger_shape (s : BuddyAllocator) : Prop := {
  ls_map : fm_wf (total_pages s) (recount (total_pages s) (free_map s));
  ls_counts : zlen (block_count (free_map s)) = ORDER_COUNT;
  ls_base : 0 <= base_addr s;
  ls_align : base_addr s mod PAGE_SIZE = 0;
  ls_end : base_addr s + total_pages s * PAGE_SIZE <= 2 ^ 52;
  ls_sound : poisoned s = false;
}.

Lemma validate_orders_counts fm orders : forall acc w,
  validate_orders fm orders acc = Some w ->
  forall k, k ∈ orders -> count_actual fm k = Some (ag (block_count fm) k).
Proof.
  induction orders as [|o orders IH]; intros acc w Hv k; [by intros ?%elem_of_nil|].
  cbn [validate_orders] in Hv.
  destruct (count_actual fm o) as [c|] eqn:Ec; [|done]. cbn [mbind option_bind] in Hv.
  destruct (Z.eqb_spec c (ag (block_count fm) o)) as [->|]; [|done]. cbn [negb] in Hv.
  destruct (checked_mul _ _); [|done]. cbn [mbind option_bind] in Hv.
  destruct (checked_add _ _) as [acc'|]; [|done]. cbn [mbind option_bind] in Hv.
  destruct (_ && _); [done|]. intros [->|Hk]%elem_of_cons; [done|]. eauto.
Qed.

Lemma audited_counts s w :
  ledger_shape s -> validate_orders (free_map s) (seqZ 0 ORDER_COUNT) 0 = Some w ->
  fm_wf (total_pages s) (free_map s).
Proof.
  intros Hs Hv. pose proof (ls_map _ Hs) as Hwf. set (fm := free_map s) in *.
  enough (recount (total_pages s) fm = fm) as Heq by (by rewrite Heq in Hwf).
  destruct fm as [ws wb vb bc sc] eqn:Efm. unfold recount. cbn [words word_base valid_blocks search_cursor]. f_equal.
  pose proof (ls_counts _ Hs) as Hn. fold fm in Hn. rewrite Efm in Hn. cbn [block_count] in Hn.
  pose proof (wf_len_count _ _ Hwf) as Hn'. unfold recount in Hn'. cbn [block_count] in Hn'.
  apply zlist_ext; [unfold ORDER_COUNT in Hn; lia|]. intros o Ho.
  pose proof (validate_orders_counts _ _ _ _ Hv o) as Hc.
  rewrite elem_of_seqZ in Hc. specialize (Hc ltac:(unfold ORDER_COUNT; lia)).
  pose proof (count_actual_spec Hwf o ltac:(lia)) as Hr.
  change (count_actual (recount _ (mkFreeMap ws wb vb bc sc)) o) with (count_actual (mkFreeMap ws wb vb bc sc) o) in Hr.
  rewrite Hc in Hr. apply (inj Some) in Hr. revert Hr. unfold ag, recount. cbn [block_count].
  destruct (zget_range bc o) as [x ->]; [unfold ORDER_COUNT in Hn; lia|].
  destruct (zget_range _ o Ho) as [y Hy]. rewrite !Hy. cbn [default from_option id]. congruence.
Qed.

Lemma inv_shape s : buddy_inv s -> ledger_shape s.
Proof.
  intros Hs. split; [|apply (wf_len_count _ _ (bi_wf _ Hs))|apply Hs..].
  destruct (bi_wf _ Hs) as []. unfold recount. split; try done.
  intros o Ho. cbn [block_count]. unfold zget. rewrite list_lookup_fmap.
  destruct (Z.ltb_spec o 0); [lia|]. rewrite lookup_seqZ_lt by (unfold ORDER_COUNT; lia). simpl.
  by replace (0 + Z.of_nat (Z.to_nat o)) with o by lia.
Qed.

Section audit_inv.
Context {s : BuddyAllocator} (Hs : buddy_inv s).
Abbreviation tp := (total_pages s).
Abbreviation ps := (page_state s).

Lemma inv_covering p : 0 <= p -> covering (free_map s) p = Z.b2z (fpage ps p).
Proof using Hs. apply (canonical_covering (bi_wf _ Hs) (bi_len _ Hs) (bi_canon _ Hs)). Qed.

Lemma inv_coalesced k : 0 <= k < 10 -> coalesced (tp := tp) (fm := free_map s) k.
Proof using Hs.
  intros Hk b Hv Hv' Hset. apply not_true_iff_false. intros Hset'.
  rewrite (bi_canon _ Hs) in Hset, Hset' by done. pose proof Hv as [_ [Hb _]].
  pose proof (maxfree_above (fpage ps) k b (k + 1) ltac:(lia) ltac:(unfold TOP; lia) Hset) as Hno.
  replace (k + 1 - k) with 1 in Hno by lia. change (2 ^ 1) with 2 in Hno.
  rewrite allfree_join in Hno; [done|lia|lia|by apply maxfree_allfree..].
Qed.

Lemma inv_uncovered p : 0 <= p -> fpage ps p = false -> uncovered (s := s) p.
Proof using Hs.
  intros Hp Hf o Ho. apply not_true_iff_false. intros [Hv Hset]%cover_vblock; [|lia|done].
  by rewrite (set_block_page Hs _ _ p Hv Hset) in Hf.
Qed.

Lemma inv_page_ok p : 0 <= p < tp -> page_ok (s := s) p.
Proof using Hs.
  intros Hp. destruct (zget_range ps p) as [x Hx]; [rewrite (bi_len _ Hs); lia|].
  destruct (bi_pages _ Hs p x Hx) as [->|[->|[o Ha]]].
  - left. split; [done|]. rewrite inv_covering by lia. unfold fpage. by rewrite Hx, bool_decide_eq_true_2.
  - right; left. split; [done|]. apply inv_uncovered; [lia|]. unfold fpage. by rewrite Hx, bool_decide_eq_false_2.
  - right; right. exists o. split; [done|]. apply inv_uncovered; [lia|]. by eapply alloc_block_not_free.
Qed.

(** A ledger that satisfies the invariant passes the audit. *)
Lemma inv_validates : validate_metadata s = true.
Proof using Hs.
  unfold validate_metadata. rewrite (bi_len _ Hs), Z.eqb_refl. cbn [negb]. pose proof (tp_bound Hs).
  change ORDER_COUNT with (Z.of_nat 11).
  rewrite (validate_orders_spec (bi_wf _ Hs) 11 0 0 ltac:(lia) ltac:(lia) ltac:(lia) ltac:(intros; apply inv_coalesced; lia)).
  change (Z.of_nat 11) with ORDER_COUNT. rewrite Z.add_0_l, (weighted_covering (bi_wf _ Hs)).
  rewrite (sumZ_ext _ (fun p => Z.b2z (fpage ps p))), <- (bi_free _ Hs), Z.eqb_refl.
  2:{ intros p Hp%elem_of_seqZ. apply inv_covering. lia. }
  cbn [negb]. rewrite (validate_pages_complete (bi_wf _ Hs) (bi_len _ Hs)); [|apply inv_page_ok|lia| |lia|lia].
  - by rewrite Z.add_0_l, Z.sub_0_r, <- (bi_reserved _ Hs), Z.eqb_refl.
  - intros o Ha. by rewrite Z.div_0_l by (pose proof (pow2_pos o); destruct Ha; lia).
Qed.
End audit_inv.

(** The audit is sound: a ledger it accepts satisfies the invariant. *)
Lemma validates_inv s : ledger_shape s -> validate_metadata s = true -> buddy_inv s.
Proof.
  intros Hs. unfold validate_metadata.
  destruct (Z.eqb_spec (zlen (page_state s)) (total_pages s)) as [Hlen|]; [|done]. cbn [negb].
  destruct (validate_orders _ _ _) as [w|] eqn:Ev; [|done].
  destruct (Z.eqb_spec w (free_pages s)) as [->|]; [|done]. cbn [negb].
  destruct (validate_pages _ _ _ _) as [r|] eqn:Ep; [|done]. intros Hr%Z.eqb_eq.
  pose proof (audited_counts s _ Hs Ev) as Hwf. pose proof (wf_tp _ _ Hwf).
  assert (forall k, 0 <= k < 10 -> coalesced (tp := total_pages s) (fm := free_map s) k) as Hco.
  { exact (validate_orders_sound Hwf 11 0 _ _ ltac:(lia) ltac:(lia) Ev). }
  apply (validate_pages_sound Hwf Hlen) in Ep as [Hok ->]; [|lia].
  pose proof (audited_canonical Hwf Hlen Hok Hco) as Hcan.
  split; try apply Hs; try done.
  - intros p x Hx. apply zget_Some_range in Hx as Hp.
    destruct (Hok p ltac:(lia)) as [[? _]|[[? _]|(o & ? & _)]]; [left; congruence|right; left; congruence|].
    right; right. by exists o.
  - rewrite (sumZ_ext _ (covering (free_map s))), <- (weighted_covering Hwf).
    + change ORDER_COUNT with (Z.of_nat 11) in *.
      rewrite (validate_orders_spec Hwf 11 0 0) in Ev by (lia || (intros; apply Hco; lia)). apply (inj Some) in Ev. by rewrite <- Ev, Z.add_0_l.
    + intros p Hp%elem_of_seqZ. symmetry. apply (canonical_covering Hwf Hlen Hcan). lia.
  - rewrite <- Hr, Z.add_0_l. by rewrite Z.sub_0_r.
Qed.
