(* ===== verification/BuddyInit.v ===== *)
(** Construction of the buddy allocator: every constructor that succeeds
    establishes the invariant, and it succeeds on every valid window. *)

From Stdlib Require Import ZArith Lia.
From stdpp Require Import base list list_numbers numbers.
From S2P Require Import Prelude.
From S2P Require Import Machine.
From S2P Require Import Dyadic.
From S2P Require Import FreeMap.
From S2P Require Import FreeMapFacts.
From S2P Require Import Buddy.
From S2P Require Import BuddyBoot.
From S2P Require Import BuddyInv.
From S2P Require Import BuddyAlloc.
From S2P Require Import BuddyAudit.

(** ** Reservations *)
Section marking.
Context (total : Z) (Htotal : 0 <= total <= 2 ^ 40).

(** The page states and the count when exactly the pages in [W] are withheld. *)
Definition marked (W : Z -> bool) (st : list Z * Z) : Prop :=
  zlen st.1 = total /\
  (forall p, 0 <= p < total -> zget st.1 p = Some (if W p then PAGE_RESERVED else PAGE_FREE)) /\
  st.2 = sumZ (fun p => Z.b2z (W p)) (seqZ 0 total).

Lemma marked_ext W W' st : (forall p, 0 <= p < total -> W p = W' p) -> marked W st -> marked W' st.
Proof using.
  intros H (Hl & Hg & Hn). split_and!; [done|intros p Hp; rewrite <- H by done; auto|].
  rewrite Hn. apply sumZ_ext. intros p Hp%elem_of_seqZ. rewrite H; [done|lia].
Qed.

Lemma mark_page_ok W st p :
  marked W st -> 0 <= p < total ->
  exists st', mark_page st p = Some st' /\ marked (fun q => W q || (q =? p)) st'.
Proof using Htotal.
  intros (Hl & Hg & Hn) Hp. unfold mark_page. rewrite Hg by done. cbn [mbind option_bind].
  destruct (W p) eqn:EW.
  - change (PAGE_RESERVED =? PAGE_FREE) with false. exists st. split; [done|].
    apply (marked_ext W); [|done]. intros q Hq. destruct (Z.eqb_spec q p) as [->|]; by rewrite ?EW, ?orb_false_r.
  - rewrite Z.eqb_refl.
    assert (st.2 <= total).
    { rewrite Hn. transitivity (sumZ (fun _ : Z => 1) (seqZ 0 total));
        [apply sumZ_le; intros; apply b2z_bounds|rewrite sumZ_const, zlen_seqZ; lia]. }
    rewrite checked_add_Some by (unfold usize_max, u64_max; lia). cbn [mbind option_bind].
    eexists; split; [done|]. split_and!; cbn [fst snd].
    + by rewrite zlen_zset.
    + intros q Hq. destruct (Z.eqb_spec q p) as [->|].
      * rewrite orb_true_r. apply zget_zset_eq. lia.
      * rewrite orb_false_r, zget_zset_ne by done. auto.
    + rewrite Hn. rewrite (sumZ_update (fun q => Z.b2z (W q)) (fun q => Z.b2z (W q || (q =? p))) _ p).
      * rewrite EW, Z.eqb_refl. done.
      * apply NoDup_seqZ.
      * rewrite elem_of_seqZ. lia.
      * intros q _ Hne. destruct (Z.eqb_spec q p); [done|]. by rewrite orb_false_r.
Qed.

Lemma mark_pages_ok ixs : forall W st,
  marked W st -> (forall p, p ∈ ixs -> 0 <= p < total) ->
  exists st', mark_pages st ixs = Some st' /\ marked (fun q => W q || existsb (Z.eqb q) ixs) st'.
Proof using Htotal.
  induction ixs as [|p ixs IH]; intros W st Hm Hr.
  - exists st. split; [done|]. eapply marked_ext; [|exact Hm]. intros. by rewrite orb_false_r.
  - destruct (mark_page_ok W st p Hm) as (st1 & H1 & Hm1); [apply Hr; by left|].
    cbn [mark_pages]. rewrite H1. cbn [mbind option_bind].
    destruct (IH _ st1 Hm1) as (st2 & H2 & Hm2); [intros; apply Hr; by right|].
    exists st2. split; [done|]. eapply marked_ext; [|exact Hm2]. intros q _. cbn [existsb]. by rewrite orb_assoc.
Qed.

(** Reservation [r] covers page [p] of the window. *)
Definition reservation_covers (base region_end : Z) (p : Z) (r : Z * Z) : bool :=
  match reservation_pages base region_end total r with
  | Some (s, e) => (s <=? p) && (p <? e)
  | None => false
  end.

Lemma mark_ranges_ok base region_end reserved : forall W st,
  region_end = base + total * PAGE_SIZE ->
  marked W st ->
  exists st', mark_ranges base region_end total st reserved = Some st' /\
    marked (fun q => W q || existsb (reservation_covers base region_end q) reserved) st'.
Proof using Htotal.
  induction reserved as [|r reserved IH]; intros W st He Hm.
  - exists st. split; [done|]. eapply marked_ext; [|exact Hm]. intros. by rewrite orb_false_r.
  - cbn [mark_ranges existsb].
    assert (exists st1, match reservation_pages base region_end total r with
         | Some (s, e) => mark_pages st (seqZ s (e - s)) | None => Some st end = Some st1 /\
        marked (fun q => W q || reservation_covers base region_end q r) st1) as (st1 & -> & Hm1).
    { unfold reservation_covers. destruct (reservation_pages _ _ _ _) as [[a e]|] eqn:Er.
      - destruct (mark_pages_ok (seqZ a (e - a)) W st Hm) as (st1 & H1 & Hm1).
        + intros p Hp%elem_of_seqZ. unfold reservation_pages in Er. destruct r as [ps l].
          destruct (l =? 0); [done|]. destruct (_ || _); [done|]. injection Er as <- <-.
          assert (0 <= (Z.max ps base - base) / PAGE_SIZE) by (apply Z.div_pos; [lia|done]).
          set (q := Z.min _ total) in Hp. assert (q <= total) by apply Z.le_min_r. lia.
        + exists st1. split; [done|]. eapply marked_ext; [|exact Hm1]. intros q _. cbv beta. f_equal.
          apply eq_true_iff_eq. rewrite existsb_exists. setoid_rewrite <- list_elem_of_In.
          setoid_rewrite elem_of_seqZ. setoid_rewrite Z.eqb_eq. rewrite andb_true_iff, Z.leb_le, Z.ltb_lt.
          split; [intros (? & ? & <-); lia|]. intros. exists q. lia.
      - exists st. split; [done|]. eapply marked_ext; [|exact Hm]. intros. by rewrite orb_false_r. }
    cbn [mbind option_bind]. destruct (IH _ st1 He Hm1) as (st2 & H2 & Hm2).
    exists st2. split; [done|]. eapply marked_ext; [|exact Hm2]. intros q _. by rewrite orb_assoc.
Qed.
End marking.

(** A page is withheld iff it shares a byte with a reservation. *)
Definition withheld (base : Z) (reserved : list (Z * Z)) (p : Z) : bool :=
  existsb (fun r => (r.1 <? base + (p + 1) * PAGE_SIZE) && (base + p * PAGE_SIZE <? r.1 + r.2)
                    && negb (r.2 =? 0)) reserved.

Lemma reservation_covers_spec total base p a l :
  0 <= base -> base + total * PAGE_SIZE <= 2 ^ 52 -> 0 <= a <= usize_max -> 0 <= l <= usize_max -> 0 <= p < total ->
  reservation_covers total base (base + total * PAGE_SIZE) p (a, l) =
  (a <? base + (p + 1) * PAGE_SIZE) && (base + p * PAGE_SIZE <? a + l) && negb (l =? 0).
Proof.
  intros Hb He Ha Hl Hp. unfold reservation_covers, reservation_pages.
  destruct (Z.eqb_spec l 0); [by rewrite andb_false_r|]. cbn [negb]. rewrite andb_true_r.
  assert (forall x, x <= 2 ^ 52 -> x < a + l <-> x < saturating_add a l) as Hsat.
  { intros x Hx. unfold saturating_add, usize_max, u64_max in *. lia. }
  set (pe := saturating_add a l) in *. assert (a <= pe) by (unfold pe, saturating_add in *; lia).
  unfold PAGE_SIZE in *. assert ((base + p * 4096 <? a + l) = (base + p * 4096 <? pe)) as ->.
  { apply eq_true_iff_eq. rewrite !Z.ltb_lt. apply Hsat. lia. }
  clearbody pe. clear Hsat.
  destruct (Z.leb_spec pe base); cbn [orb]; [by zb; lia || done|].
  destruct (Z.leb_spec (base + total * 4096) a); [by zb; lia || done|].
  set (x := Z.max a base - base). set (y := Z.min pe (base + total * 4096) - base).
  assert ((x / 4096 <=? p) = (a <? base + (p + 1) * 4096)) as ->.
  { apply eq_true_iff_eq. rewrite Z.leb_le, Z.ltb_lt.
    pose proof (Z.div_mod x 4096 ltac:(lia)). pose proof (Z.mod_pos_bound x 4096 ltac:(lia)). lia. }
  f_equal. apply eq_true_iff_eq. rewrite !Z.ltb_lt. unfold is_multiple_of.
  pose proof (Z.div_mod y 4096 ltac:(lia)). pose proof (Z.mod_pos_bound y 4096 ltac:(lia)).
  zb; lia.
Qed.

(** ** Free runs *)
Lemma largest_aligned_order_spec start n o :
  0 <= o < 11 -> start mod 2 ^ o = 0 -> 2 ^ o <= n ->
  (forall k, o < k < 11 -> start mod 2 ^ k <> 0 \/ n < 2 ^ k) ->
  largest_aligned_order start n = o.
Proof.
  intros Ho Hal Hn Hbig. unfold largest_aligned_order, orders_down, ORDER_COUNT.
  rewrite (seqZ_split 1 (11 - 1) o) by lia. rewrite reverse_app, first_some_app.
  rewrite (proj2 (first_some_None _ (reverse (seqZ (1 + o) _)))).
  2:{ intros k Hk%elem_of_reverse%elem_of_seqZ. rewrite shiftl_1, land_pow2_mod by lia.
      destruct (Hbig k ltac:(lia)); zb; done || lia. }
  destruct (decide (o = 0)) as [->|]; [done|].
  rewrite (seqZ_split 1 o (o - 1)) by lia. rewrite reverse_app, first_some_app.
  replace (1 + (o - 1)) with o by lia. replace (o - (o - 1)) with 1 by lia.
  change (seqZ o 1) with [o]. cbn [reverse rev_append first_some].
  unfold reverse. cbn [rev_append first_some]. rewrite shiftl_1, land_pow2_mod by lia. by zb; try lia.
Qed.

Section runs.
Context (tp : Z) (F : Z -> bool).
Context (HF : forall p, F p = true -> 0 <= p < tp).

(** The bitmap holds the maximal free blocks that lie below page [lim]. *)
Definition filled (fm : FixedFreeMap) (lim : Z) : Prop :=
  fm_wf tp fm /\ forall o b, vblock tp o b ->
    fbit tp fm o b = maxfree F o b && ((b + 1) * 2 ^ o <=? lim).

(** No maximal free block straddles page [lim]. *)
Definition clean (lim : Z) : Prop :=
  forall o b, 0 <= o < 11 -> maxfree F o b = true -> b * 2 ^ o < lim -> (b + 1) * 2 ^ o <= lim.

Lemma clean_boundary lim : F (lim - 1) = false \/ F lim = false -> clean lim.
Proof using.
  intros Hor o b Ho Hm Hlt. apply maxfree_allfree in Hm. rewrite allfree_spec in Hm by lia.
  destruct (decide ((b + 1) * 2 ^ o <= lim)) as [|Hgt]; [done|]. exfalso.
  destruct Hor as [Hf|Hf]; rewrite Hm in Hf; try done; apply in_block; lia.
Qed.

(** Between clean limits with no free page the bitmap is the same. *)
Lemma filled_skip fm lim lim' :
  lim <= lim' -> filled fm lim -> clean lim' -> (forall p, lim <= p < lim' -> F p = false) -> filled fm lim'.
Proof using.
  intros Hle [Hwf Hb] Hcl Hno. split; [done|]. intros o b Hv. rewrite Hb by done.
  destruct (maxfree F o b) eqn:Hm; [|done]. cbn [andb]. pose proof Hv as [Ho _].
  pose proof (pow2_pos o ltac:(lia)). apply maxfree_allfree in Hm. rewrite allfree_spec in Hm by lia.
  zb; try done; try lia. exfalso.
  specialize (Hm ((b + 1) * 2 ^ o - 1) ltac:(apply in_block; lia)). rewrite Hno in Hm; [done|lia].
Qed.

(** The maximal free block at the start of a run is the largest aligned one. *)
Lemma run_block start e :
  0 <= start < e -> clean start -> (forall p, start <= p < e -> F p = true) -> F e = false ->
  exists o, 0 <= o < 11 /\ maxfree F o (start / 2 ^ o) = true /\ start / 2 ^ o * 2 ^ o = start /\
    start + 2 ^ o <= e /\ largest_aligned_order start (e - start) = o.
Proof using HF.
  intros Hse Hcl Hrun Hend.
  destruct (maxfree_exists F 0 start) as (o & Ho & Hm); [unfold TOP; lia| |].
  { apply allfree_spec; [lia|]. intros q. rewrite Z.pow_0_r, Z.div_1_r. intros ->. apply Hrun. lia. }
  rewrite Z.sub_0_r in Hm. unfold TOP in Ho. pose proof (pow2_pos o ltac:(lia)).
  destruct (proj1 (in_block o _ start ltac:(lia)) eq_refl) as [Hlo Hhi].
  assert (start / 2 ^ o * 2 ^ o = start) as Heq.
  { destruct (decide (start / 2 ^ o * 2 ^ o = start)) as [|Hne]; [done|].
    pose proof (Hcl o _ ltac:(lia) Hm ltac:(lia)). lia. }
  assert (start + 2 ^ o <= e) as Hfit.
  { destruct (decide (start + 2 ^ o <= e)) as [|Hgt]; [done|]. exfalso.
    apply maxfree_allfree in Hm as Hf. rewrite allfree_spec in Hf by lia. rewrite Hf in Hend; [done|].
    apply in_block; lia. }
  exists o. split_and!; try done; try lia. apply largest_aligned_order_spec; [lia| |lia|].
  - rewrite <- Heq. apply Z.mod_mul. lia.
  - intros k Hk. destruct (decide (start mod 2 ^ k = 0)) as [Hal|]; [right|by left].
    destruct (decide (e - start < 2 ^ k)) as [|Hge]; [done|]. exfalso. pose proof (pow2_pos k ltac:(lia)).
    apply (maxfree_above F o _ k) in Hm; [|unfold TOP; lia..]. rewrite <- div_pow2_up in Hm by lia.
    rewrite <- not_true_iff_false in Hm. apply Hm, allfree_spec; [lia|]. intros p Hp%in_block; [|lia].
    pose proof (Z.div_mod start (2 ^ k) ltac:(lia)). apply Hrun. lia.
Qed.

Lemma filled_block fm start o :
  0 <= o < 11 -> filled fm start -> maxfree F o (start / 2 ^ o) = true -> start / 2 ^ o * 2 ^ o = start -> 0 <= start ->
  clean start -> vblock tp o (start / 2 ^ o) /\
  exists fm', commit_set fm (mkbit tp o (start / 2 ^ o)) true = Some fm' /\ filled fm' (start + 2 ^ o) /\
    fbit tp fm o (start / 2 ^ o) = false.
Proof using HF.
  intros Ho [Hwf Hb] Hm Heq Hst Hcl. set (b := start / 2 ^ o) in *. clearbody b. subst start.
  pose proof (pow2_pos o ltac:(lia)). apply maxfree_allfree in Hm as Hf. rewrite allfree_spec in Hf by lia.
  assert (vblock tp o b) as Hv.
  { apply vblock_intro; [done|nia|]. pose proof (HF _ (Hf ((b + 1) * 2 ^ o - 1) ltac:(apply in_block; lia))). lia. }
  split; [done|]. assert (fbit tp fm o b = false) as Hno.
  { rewrite Hb, Hm by done. cbn [andb]. apply Z.leb_gt. lia. }
  destruct (commit_set_spec Hwf o b Hv true Hno) as (fm' & Hc & Hwf' & Hu).
  exists fm'. split; [done|]. split; [|done]. split; [done|]. intros k c Hvk.
  destruct (vblock_slot Hwf _ _ Hvk). rewrite Hu by done. case_decide as Hd.
  - destruct Hd as [-> ->]. rewrite Hm. symmetry. apply Z.leb_le. lia.
  - rewrite Hb by done. destruct (maxfree F k c) eqn:Hmk; [|done]. cbn [andb].
    pose proof Hvk as [Hk _]. pose proof (pow2_pos k ltac:(lia)). zb; try done; try lia. exfalso.
    assert (b * 2 ^ o <= c * 2 ^ k).
    { destruct (decide (c * 2 ^ k < b * 2 ^ o)); [|lia]. pose proof (Hcl k c Hk Hmk ltac:(lia)). lia. }
    assert (c * 2 ^ k / 2 ^ o = b) as Ec by (apply in_block; lia).
    assert (k = o) as ->.
    { apply (maxfree_unique F k o (c * 2 ^ k)); [unfold TOP; lia..|rewrite block_head by lia; done|by rewrite Ec]. }
    apply Hd. split; [done|]. nia.
Qed.

Lemma clean_next o b : 0 <= o < 11 -> maxfree F o b = true -> clean (b * 2 ^ o) -> clean (b * 2 ^ o + 2 ^ o).
Proof using.
  intros Ho Hm Hcl k c Hk Hmk Hlt. pose proof (pow2_pos o ltac:(lia)). pose proof (pow2_pos k ltac:(lia)).
  destruct (decide (c * 2 ^ k < b * 2 ^ o)); [pose proof (Hcl k c Hk Hmk ltac:(lia)); lia|].
  assert (c * 2 ^ k / 2 ^ o = b) as Ec by (apply in_block; lia).
  assert (k = o) as ->; [|rewrite block_head in Ec by lia; subst; lia].
  apply (maxfree_unique F k o (c * 2 ^ k)); [unfold TOP; lia..|rewrite block_head by lia; done|by rewrite Ec].
Qed.

Lemma add_free_run_loop_ok fuel : forall fm start e,
  0 <= start <= e -> e - start <= Z.of_nat fuel -> filled fm start -> clean start ->
  (forall p, start <= p < e -> F p = true) -> F e = false ->
  exists fm', add_free_run_loop fuel fm start e = Ok fm' /\ filled fm' e.
Proof using HF.
  induction fuel as [|fuel IH]; intros fm start e Hse Hfuel Hfill Hcl Hrun Hend; cbn [add_free_run_loop];
    destruct (Z.ltb_spec start e); try lia; try (exists fm; by replace e with start by lia).
  destruct (run_block start e) as (o & Ho & Hm & Heq & Hfit & ->); [lia|done..|].
  destruct (filled_block fm start o Ho Hfill Hm Heq ltac:(lia) Hcl) as (Hv & fm1 & Hc & Hfill1 & Hno).
  pose proof (proj1 Hfill) as Hwf. pose proof (wf_tp _ _ Hwf).
  assert (location fm o start = Some (mkbit tp o (start / 2 ^ o))) as ->.
  { rewrite <- Heq at 1. by apply (location_block Hwf). }
  cbn [ok_or res_bind]. rewrite is_set_mkbit, Hno. cbn [orb].
  pose proof (count_range Hwf o Ho). pose proof (nblocks_le tp ltac:(lia) o ltac:(lia)).
  destruct (Z.eqb_spec (ag (block_count fm) o) usize_max); [unfold usize_max, u64_max in *; lia|].
  rewrite Hc. cbn [or_panic res_bind]. rewrite shiftl_1 by lia. pose proof (pow2_pos o ltac:(lia)).
  apply IH; [lia|lia|done| |intros; apply Hrun; lia|done].
  rewrite <- Heq. apply clean_next; [done|done|by rewrite Heq].
Qed.

Context (ps : list Z) (Hps : forall p, 0 <= p < tp ->
  zget ps p = Some (if F p then PAGE_FREE else PAGE_RESERVED)).

Lemma init_region_loop_ok n : forall p fm run,
  0 <= p -> p + Z.of_nat n = tp ->
  match run with
  | None => filled fm p /\ clean p /\ F (p - 1) = false
  | Some a => 0 <= a < p /\ filled fm a /\ clean a /\ forall q, a <= q < p -> F q = true
  end ->
  exists fm', init_region_loop ps tp (seqZ p (Z.of_nat n)) fm run = Ok fm' /\ filled fm' tp.
Proof using HF Hps.
  assert (F tp = false) as Htp by (apply not_true_iff_false; intros ?%HF; lia).
  induction n as [|n IH]; intros p fm run Hp Hn Hrun.
  - replace p with tp in * by lia. cbn [seqZ init_region_loop]. destruct run as [a|].
    + destruct Hrun as (Ha & Hfill & Hcl & Hq). unfold add_free_run. apply add_free_run_loop_ok; lia || done.
    + exists fm. split; [done|apply Hrun].
  - rewrite seqZ_cons by lia. cbn [init_region_loop]. rewrite Hps by lia. cbn [or_panic res_bind].
    replace (Z.succ p) with (p + 1) by lia. replace (Z.pred (Z.of_nat (S n))) with (Z.of_nat n) by lia.
    destruct (F p) eqn:EF.
    + change (PAGE_FREE =? PAGE_RESERVED) with false. cbv iota. destruct run as [a|].
      * destruct Hrun as (Ha & Hfill & Hcl & Hq). apply IH; [lia|lia|]. split_and!; try done; try lia.
        intros q Hqr. destruct (decide (q = p)) as [->|]; [done|]. apply Hq. lia.
      * destruct Hrun as (Hfill & Hcl & Hq). apply IH; [lia|lia|]. split_and!; try done; try lia.
        intros q Hqr. by replace q with p by lia.
    + rewrite Z.eqb_refl. assert (clean (p + 1)) as Hcl1.
      { apply clean_boundary. left. by replace (p + 1 - 1) with p by lia. }
      assert (forall fm', filled fm' p -> filled fm' (p + 1)) as Hskip.
      { intros fm' Hf. apply (filled_skip fm' p); [lia|done|done|]. intros q Hq. by replace q with p by lia. }
      destruct run as [a|].
      * destruct Hrun as (Ha & Hfill & Hcl & Hq). unfold add_free_run.
        destruct (add_free_run_loop_ok (Z.to_nat (p - a)) fm a p) as (fm1 & -> & Hfill1); try lia; try done.
        cbn [res_bind]. apply IH; [lia|lia|]. replace (p + 1 - 1) with p by lia. auto.
      * apply IH; [lia|lia|]. replace (p + 1 - 1) with p by lia. destruct Hrun. auto.
Qed.

Lemma init_memory_region_ok fm :
  0 <= tp -> fm_wf tp fm -> (forall o b, fbit tp fm o b = false) ->
  exists fm', init_memory_region ps tp fm = Ok fm' /\ fm_wf tp fm' /\
    forall o b, vblock tp o b -> fbit tp fm' o b = maxfree F o b.
Proof using HF Hps.
  intros Htp Hwf Hz. unfold init_memory_region.
  assert (forall q, q < 0 -> F q = false) as Hneg by (intros q Hq; apply not_true_iff_false; intros ?%HF; lia).
  assert (clean 0) as Hcl by (apply clean_boundary; left; apply Hneg; lia).
  destruct (init_region_loop_ok (Z.to_nat tp) 0 fm None) as (fm' & Hi & Hwf' & Hb); [lia|lia| |].
  - split_and!; [|done|apply Hneg; lia]. split; [done|]. intros o b Hv. rewrite Hz. symmetry.
    pose proof Hv as [Ho [Hb _]]. pose proof (pow2_pos o ltac:(lia)). apply andb_false_iff. right.
    apply Z.leb_gt. nia.
  - rewrite Z2Nat.id in Hi by lia. exists fm'. split_and!; try done. intros o b Hv. rewrite Hb by done.
    pose proof (vblock_end _ _ _ Hv). destruct (Z.leb_spec ((b + 1) * 2 ^ o) tp); [by rewrite andb_true_r|lia].
Qed.
End runs.

(** ** The constructors *)
Section construction.
Context {arch : PhysArch} {laws : PhysArchLaws arch}.

(** What a constructor makes of a window of [pages] pages at [base]. *)
Record initial (base pages : Z) (reserved : list (Z * Z)) (s : BuddyAllocator) : Prop := {
  init_inv : buddy_inv s;
  init_base : base_addr s = base;
  init_total : total_pages s = pages;
  init_pages : forall p, 0 <= p < pages ->
    zget (page_state s) p = Some (if withheld base reserved p then PAGE_RESERVED else PAGE_FREE);
  init_reserved : reserved_pages s = sumZ (fun p => Z.b2z (withheld base reserved p)) (seqZ 0 pages);
  init_free : free_pages s = pages - reserved_pages s;
}.

Definition valid_range (r : Z * Z) : Prop := 0 <= r.1 <= usize_max /\ 0 <= r.2 <= usize_max.

Lemma mark_reserved_ranges_ok base pages reserved :
  0 <= base -> 0 < pages -> base + pages * PAGE_SIZE <= 2 ^ 52 -> Forall valid_range reserved ->
  exists st, mark_reserved_ranges base pages (replicate (Z.to_nat pages) PAGE_FREE, 0) reserved = Some st /\
    marked pages (withheld base reserved) st.
Proof.
  intros Hb Hp He Hr. unfold mark_reserved_ranges. pose proof He as He'. unfold PAGE_SIZE in He'.
  rewrite checked_mul_Some by (unfold usize_max, u64_max, PAGE_SIZE; lia). cbn [mbind option_bind].
  assert (saturating_add base (pages * PAGE_SIZE) = base + pages * PAGE_SIZE) as ->.
  { unfold saturating_add, usize_max, u64_max, PAGE_SIZE. lia. }
  destruct (mark_ranges_ok pages ltac:(lia) base _ reserved (fun _ => false)
    (replicate (Z.to_nat pages) PAGE_FREE, 0) eq_refl) as (st & -> & Hm).
  - split_and!; cbn [fst snd].
    + rewrite zlen_replicate; lia.
    + intros p Hpr. apply zget_replicate. lia.
    + symmetry. by apply sumZ_zero.
  - exists st. split; [done|]. eapply marked_ext; [|exact Hm]. intros p Hpr. cbv beta. cbn [orb].
    unfold withheld. clear Hm. induction Hr as [|[a l] rs [Ha Hl] Hrs IH]; [done|]. cbn [existsb fst snd].
    rewrite reservation_covers_spec by done. by rewrite IH.
Qed.

Lemma withheld_count base reserved pages :
  0 <= pages -> sumZ (fun p => Z.b2z (withheld base reserved p)) (seqZ 0 pages) +
    sumZ (fun p => Z.b2z (negb (withheld base reserved p))) (seqZ 0 pages) = pages.
Proof.
  intros Hp. rewrite <- sumZ_add, (sumZ_ext _ (fun _ => 1)), sumZ_const, zlen_seqZ by lia || (intros; by destruct (withheld _ _ _)).
  lia.
Qed.

Lemma from_metadata_ok base pages reserved lay :
  0 <= base -> base mod PAGE_SIZE = 0 -> 0 < pages -> base + pages * PAGE_SIZE <= 2 ^ 52 ->
  Forall valid_range reserved -> layout_new pages = Ok lay ->
  exists s, from_metadata base pages reserved lay (replicate (Z.to_nat pages) PAGE_FREE)
      (replicate (Z.to_nat (lay_total_words lay)) 0) = Ok s /\ initial base pages reserved s.
Proof.
  intros Hb Hal Hp He Hr Hlay. unfold from_metadata. pose proof He as He'. unfold PAGE_SIZE in He'.
  rewrite zlen_replicate, Z2Nat.id, Z.eqb_refl by lia. cbn [negb orb].
  unfold PAGE_FREE at 1 2. rewrite existsb_replicate_0.
  destruct (from_storage_ok pages ltac:(lia) lay Hlay) as (fm & -> & Hwf & Hz). cbn [res_bind].
  destruct (mark_reserved_ranges_ok base pages reserved Hb Hp He Hr) as ([ps n] & -> & Hlen & Hg & Hn).
  cbn [or_panic res_bind fst snd] in *. pose proof (withheld_count base reserved pages ltac:(lia)) as Hcount.
  set (W := withheld base reserved) in *.
  assert (0 <= sumZ (fun p => Z.b2z (W p)) (seqZ 0 pages)) by (apply sumZ_nonneg; intros; apply b2z_bounds).
  assert (0 <= sumZ (fun p => Z.b2z (negb (W p))) (seqZ 0 pages)) by (apply sumZ_nonneg; intros; apply b2z_bounds).
  destruct (Z.ltb_spec pages n); [lia|].
  assert (forall p, 0 <= p < pages -> fpage ps p = negb (W p) /\ rpage ps p = W p) as Hfr.
  { intros p Hpr. unfold fpage, rpage. rewrite Hg by done. by destruct (W p). }
  destruct (init_memory_region_ok pages (fpage ps)) with (ps := ps) (fm := fm) as (fm' & -> & Hwf' & Hcan); [..|done|done|].
  { intros p Hf%bool_decide_eq_true%zget_Some_range. lia. }
  { intros p Hpr. destruct (Hfr p Hpr) as [-> _]. rewrite Hg by done. by destruct (W p). }
  { lia. }
  cbn [res_bind]. set (s := mkBuddy fm' ps base pages (saturating_sub pages n) n false).
  assert (buddy_inv s) as Hinv.
  { split; simpl; try done.
    - intros p x Hx. apply zget_Some_range in Hx as Hpr. rewrite Hg in Hx by lia. injection Hx as <-.
      destruct (W p); auto.
    - rewrite (sumZ_ext (fun p => Z.b2z (fpage ps p)) (fun p => Z.b2z (negb (W p)))).
      + unfold saturating_sub. lia.
      + intros p Hpr%elem_of_seqZ. by rewrite (proj1 (Hfr p ltac:(lia))).
    - rewrite Hn. apply sumZ_ext. intros p Hpr%elem_of_seqZ. by rewrite (proj2 (Hfr p ltac:(lia))). }
  rewrite (inv_validates Hinv). exists s. split; [done|]. split; try done.
  simpl. unfold saturating_sub. lia.
Qed.

(** The windows the constructors accept. *)
Definition valid_window (base size : Z) : Prop :=
  0 < size /\ size mod PAGE_SIZE = 0 /\ base mod PAGE_SIZE = 0 /\ base + size <= 2 ^ 52.

Lemma validated_page_count_spec base size :
  0 <= base -> 0 <= size ->
  (valid_window base size /\ validated_page_count base size = Ok (size / PAGE_SIZE) /\
     0 < size / PAGE_SIZE /\ size / PAGE_SIZE * PAGE_SIZE = size) \/
  (~ valid_window base size /\ exists e, validated_page_count base size = Err e).
Proof using laws.
  intros Hb Hsz. unfold validated_page_count, valid_window, is_multiple_of.
  destruct (Z.eqb_spec size 0); [right; split; [lia|by eexists]|].
  destruct (Z.eqb_spec (size mod PAGE_SIZE) 0) as [Hm|]; cbn [negb orb]; [|right; split; [lia|by eexists]].
  destruct (Z.eqb_spec (base mod PAGE_SIZE) 0); cbn [negb orb]; [|right; split; [lia|by eexists]].
  destruct (checked_add base size) as [e0|] eqn:Ea.
  2:{ right. split; [|by eexists]. unfold checked_add in Ea. revert Ea. zb; [done|].
      unfold usize_max, u64_max in *. lia. }
  apply checked_add_inv in Ea as [-> _]. cbn [ok_or res_bind]. rewrite phys_addr_try_new_spec by lia.
  destruct (Z.eqb_spec (base + size) 0); [lia|]. cbn [orb].
  destruct (Z.ltb_spec (base + size - 1) (2 ^ 52)); cbn [negb]; [left|right; split; [lia|by eexists]].
  pose proof (Z.div_mod size PAGE_SIZE ltac:(done)). unfold PAGE_SIZE in *. split_and!; try done; lia.
Qed.

(** [new_with_reservations] on every input: it builds the allocator on a valid
    window when the heap has room for the metadata, and reports an error
    otherwise.  It never panics. *)
Lemma new_with_reservations_total heap_ok base size reserved :
  0 <= base -> 0 <= size -> Forall valid_range reserved ->
  (exists s, new_with_reservations heap_ok base size reserved = Ok s /\
     valid_window base size /\ initial base (size / PAGE_SIZE) reserved s) \/
  (exists e, new_with_reservations heap_ok base size reserved = Err e /\
     (valid_window base size -> exists n, heap_ok n = false)).
Proof using laws.
  intros Hb Hsz Hr. unfold new_with_reservations.
  destruct (validated_page_count_spec base size Hb Hsz) as [(Hw & -> & Hp & Heq)|(Hw & e & ->)].
  2:{ right. exists e. by split; [|intros ?]. }
  cbn [res_bind]. pose proof Hw as (_ & _ & Hal & He).
  destruct (layout_new_ok (size / PAGE_SIZE)) as (lay & Hl & _); [unfold PAGE_SIZE in *; lia|].
  rewrite Hl. cbn [res_bind].
  destruct (heap_ok (size / PAGE_SIZE)) eqn:E1; cbn [negb]; [|right; eexists; split; [done|by eexists]].
  destruct (heap_ok (lay_total_words lay)) eqn:E2; cbn [negb]; [|right; eexists; split; [done|by eexists]].
  destruct (from_metadata_ok base (size / PAGE_SIZE) reserved lay) as (s & -> & Hinit); try done; [lia|].
  left. by exists s.
Qed.

(** Boot storage as large as [metadata_bytes] says, and aligned, is enough. *)
Lemma new_with_reservations_in_ok base size reserved addr len n :
  0 <= base -> valid_window base size -> Forall valid_range reserved ->
  metadata_bytes size = Ok n -> n <= len -> addr mod 8 = 0 ->
  exists s, new_with_reservations_in base size reserved addr len = Ok s /\
    initial base (size / PAGE_SIZE) reserved s.
Proof using laws.
  intros Hb Hw Hr Hn Hlen Hal. unfold new_with_reservations_in, metadata_bytes in *.
  destruct (validated_page_count_spec base size Hb) as [(_ & -> & Hp & Heq)|(? & _)]; [destruct Hw; lia| |done].
  cbn [res_bind]. pose proof Hw as (_ & _ & Hal' & He).
  destruct (layout_new_ok (size / PAGE_SIZE)) as (lay & Hl & _); [unfold PAGE_SIZE in *; lia|].
  rewrite Hl in *. cbn [res_bind] in *.
  destruct (state_bytes (size / PAGE_SIZE)) as [sb| |] eqn:Es; try done. cbn [res_bind] in *.
  destruct (word_bytes lay) as [wb| |] eqn:Ew; try done. cbn [res_bind] in *.
  destruct (checked_add sb wb) as [r|]; [|done]. injection Hn as ->. cbn [ok_or res_bind].
  destruct (Z.ltb_spec len n); [lia|].
  assert (sb mod 8 = 0) as Hsb.
  { unfold state_bytes, checked_next_multiple_of in Es. destruct (Z.eqb_spec (size / PAGE_SIZE mod 8) 0); [by simplify_eq/=|].
    destruct (checked_add _ _) as [x|] eqn:Ea; [|done]. apply checked_add_inv in Ea as [-> _].
    injection Es as <-. Z.div_mod_to_equations. lia. }
  rewrite Z.add_mod, Hal, Hsb by lia. cbn [Z.add Z.modulo Z.eqb negb].
  apply from_metadata_ok; try done. lia.
Qed.
End construction.
