(* ===== verification/BuddyTrace.v ===== *)
(** Runs of the buddy allocator: what holds after any sequence of allocations
    and releases, the frames handed out by the public entry points, and the
    canonicity of the ledger. *)

From Stdlib Require Import ZArith Lia.
From stdpp Require Import base list list_numbers numbers.
From S2P Require Import Prelude.
From S2P Require Import Machine.
From S2P Require Import Dyadic.
From S2P Require Import FreeMap.
From S2P Require Import FreeMapFacts.
From S2P Require Import Buddy.
From S2P Require Import BuddyBoot.
From S2P Require Import BuddyInv.
From S2P Require Import BuddyAlloc.
From S2P Require Import BuddyFree.
From S2P Require Import BuddyAudit.
From S2P Require Import BuddyInit.

(** ** The ledger is a function of the page states *)

(** Equality up to the search cursors, which only steer the search. *)
Record same_ledger (s s' : BuddyAllocator) : Prop := {
  sl_words : words (free_map s) = words (free_map s');
  sl_base : word_base (free_map s) = word_base (free_map s');
  sl_valid : valid_blocks (free_map s) = valid_blocks (free_map s');
  sl_count : block_count (free_map s) = block_count (free_map s');
  sl_pages : page_state s = page_state s';
  sl_addr : base_addr s = base_addr s';
  sl_total : total_pages s = total_pages s';
  sl_free : free_pages s = free_pages s';
  sl_reserved : reserved_pages s = reserved_pages s';
  sl_poisoned : poisoned s = poisoned s';
}.

#[global] Instance same_ledger_equiv : Equivalence same_ledger.
Proof.
  split.
  - by intros s.
  - intros s s' []. by split.
  - intros s s' s'' [] []. split; congruence.
Qed.

(** Bits determine the words: every bit of a word is a block of its order or
    one of the unused bits at the end of the order. *)
Lemma words_determined tp fm fm' :
  fm_wf tp fm -> fm_wf tp fm' ->
  (forall o b, vblock tp o b -> fbit tp fm o b = fbit tp fm' o b) -> words fm = words fm'.
Proof.
  intros Hwf Hwf' Hb. pose proof (wf_tp _ _ Hwf).
  assert (forall o b, 0 <= o < 11 -> 0 <= b < 64 * nwords tp o -> fbit tp fm o b = fbit tp fm' o b) as Hall.
  { intros o b Ho Hr. destruct (decide (b < nblocks tp o)); [apply Hb; split; lia|].
    by rewrite (wf_tail _ _ Hwf), (wf_tail _ _ Hwf') by lia. }
  assert (forall o, 0 <= o <= 11 -> forall i, 0 <= i < wbase tp o -> zget (words fm) i = zget (words fm') i) as Hpre.
  { intros o Ho. destruct Ho as [Ho Ho']. revert o Ho Ho'. refine (natlike_ind _ _ _); [intros; unfold wbase in *; simpl in *; lia|].
    intros o Ho IH Ho' i Hi. rewrite <- Z.add_1_r, wbase_succ in Hi by lia.
    destruct (decide (i < wbase tp o)); [apply IH; lia|].
    pose proof (wbase_mono tp ltac:(lia) (o + 1) 11 ltac:(lia)). rewrite wbase_succ in * by lia.
    destruct (zget_range (words fm) i) as [w Hw]; [rewrite (wf_words _ _ Hwf); lia|].
    destruct (zget_range (words fm') i) as [w' Hw']; [rewrite (wf_words _ _ Hwf'); lia|].
    rewrite Hw, Hw'. f_equal. apply Z.bits_inj'. intros j Hj.
    destruct (decide (64 <= j)).
    { rewrite !u64_testbit_high; [done|by eapply (wf_u64 _ _ Hwf')|lia|by eapply (wf_u64 _ _ Hwf)|lia]. }
    specialize (Hall o (64 * (i - wbase tp o) + j) ltac:(lia) ltac:(lia)). unfold fbit in Hall.
    assert ((64 * (i - wbase tp o) + j) / 64 = i - wbase tp o) as Hq.
    { symmetry. apply (Z.div_unique _ 64 _ j); lia. }
    assert ((64 * (i - wbase tp o) + j) mod 64 = j) as Hm.
    { symmetry. apply (Z.mod_unique _ 64 (i - wbase tp o)); lia. }
    rewrite Hq, Hm in Hall. replace (wbase tp o + (i - wbase tp o)) with i in Hall by lia.
    by rewrite Hw, Hw' in Hall. }
  apply zlist_ext; [by rewrite (wf_words _ _ Hwf), (wf_words _ _ Hwf')|].
  intros i Hi. rewrite (wf_words _ _ Hwf) in Hi. by apply (Hpre 11).
Qed.

Lemma ledger_canonical s s' :
  buddy_inv s -> buddy_inv s' -> base_addr s = base_addr s' -> total_pages s = total_pages s' ->
  page_state s = page_state s' -> same_ledger s s'.
Proof.
  intros Hs Hs' Hb Ht Hp. pose proof (bi_wf _ Hs) as Hwf. pose proof (bi_wf _ Hs') as Hwf'.
  rewrite <- Ht in Hwf'.
  assert (forall o b, vblock (total_pages s) o b ->
    fbit (total_pages s) (free_map s) o b = fbit (total_pages s) (free_map s') o b) as Hbits.
  { intros o b Hv. rewrite (bi_canon _ Hs), Hp by done. rewrite Ht in *. by rewrite (bi_canon _ Hs'). }
  split; try done.
  - by apply (words_determined (total_pages s)).
  - apply zlist_ext; [by rewrite (wf_len_base _ _ Hwf), (wf_len_base _ _ Hwf')|]. intros i Hi.
    rewrite (wf_len_base _ _ Hwf) in Hi. by rewrite (wf_base _ _ Hwf), (wf_base _ _ Hwf') by lia.
  - apply zlist_ext; [by rewrite (wf_len_valid _ _ Hwf), (wf_len_valid _ _ Hwf')|]. intros i Hi.
    rewrite (wf_len_valid _ _ Hwf) in Hi. by rewrite (wf_valid _ _ Hwf), (wf_valid _ _ Hwf') by lia.
  - apply zlist_ext; [by rewrite (wf_len_count _ _ Hwf), (wf_len_count _ _ Hwf')|]. intros i Hi.
    rewrite (wf_len_count _ _ Hwf) in Hi. rewrite (wf_count _ _ Hwf), (wf_count _ _ Hwf') by lia.
    f_equal. apply sumZ_ext. intros b Hbr%elem_of_seqZ. by rewrite Hbits by (split; lia).
  - by rewrite (bi_free _ Hs), (bi_free _ Hs'), Ht, Hp.
  - by rewrite (bi_reserved _ Hs), (bi_reserved _ Hs'), Ht, Hp.
  - by rewrite (bi_sound _ Hs), (bi_sound _ Hs').
Qed.

(** ** Runs *)
Section runs.
Context {arch : PhysArch} {laws : PhysArchLaws arch}.
Context (base pages : Z) (reserved : list (Z * Z)).

(** The operations a client may issue.  A release may name any frame and
    order: a stale, foreign or forged one is just an operation that fails. *)
Inductive BuddyOp :=
| OpAlloc (ord : Z)
| OpFree (frame ord : Z).

Definition op_ok (op : BuddyOp) : Prop :=
  match op with OpAlloc ord => 0 <= ord | OpFree _ ord => 0 <= ord end.

(** The allocator and the allocations handed out and not yet returned. *)
Definition run_op (st : BuddyAllocator * list (Z * Z)) (op : BuddyOp) : BuddyAllocator * list (Z * Z) :=
  let '(s, L) := st in
  match op with
  | OpAlloc ord =>
      match try_alloc_pages s ord with
      | (Ok frame, s') => (s', (frame, ord) :: L)
      | (_, s') => (s', L)
      end
  | OpFree frame ord =>
      match try_free_pages s frame ord with
      | (Ok _, s') => (s', filter (fun fo => fo <> (frame, ord)) L)
      | (_, s') => (s', L)
      end
  end.

Definition run (s : BuddyAllocator) (ops : list BuddyOp) : BuddyAllocator * list (Z * Z) :=
  foldl run_op (s, []) ops.

(** The bookkeeping: the outstanding allocations are the live blocks. *)
Record run_inv (s : BuddyAllocator) (L : list (Z * Z)) : Prop := {
  ri_inv : buddy_inv s;
  ri_base : base_addr s = base;
  ri_total : total_pages s = pages;
  ri_nodup : NoDup L;
  ri_live : forall frame ord, (frame, ord) ∈ L <-> live s frame ord;
  ri_reserved : forall p, 0 <= p < pages -> rpage (page_state s) p = withheld base reserved p;
  ri_count : sumZ (fun fo => 2 ^ fo.2) L + free_pages s + reserved_pages s = pages;
}.

Lemma live_order s frame ord : live s frame ord -> 0 <= ord < 11.
Proof using. by intros (b & _ & Ho & _). Qed.

Lemma init_run s : initial base pages reserved s -> run_inv s [].
Proof using.
  intros Hi. pose proof (init_inv _ _ _ _ Hi) as Hs. split; try done.
  - by apply Hi.
  - by apply Hi.
  - apply NoDup_nil_2.
  - intros frame ord. split; [by intros ?%elem_of_nil|]. intros (b & -> & Ha). exfalso.
    pose proof Ha as (Ho & Hb & Hx & _). apply zget_Some_range in Hx as Hr.
    rewrite (bi_len _ Hs), (init_total _ _ _ _ Hi) in Hr. rewrite (init_pages _ _ _ _ Hi) in Hx by done.
    unfold ORDER_COUNT, PAGE_RESERVED, PAGE_FREE, PAGE_ALLOC_START_BASE in *.
    injection Hx. destruct (withheld _ _ _); lia.
  - intros p Hp. unfold rpage. rewrite (init_pages _ _ _ _ Hi) by done. by destruct (withheld _ _ _).
  - rewrite (init_free _ _ _ _ Hi). simpl. lia.
Qed.

(** A live block after a block is taken, and after one is returned. *)
Lemma live_after_alloc s ord b s' frame o :
  buddy_inv s -> 0 <= ord < 11 -> 0 <= b -> alloc_post s ord b s' ->
  live s' frame o <-> live s frame o \/ (frame, o) = (base_addr s + b * 2 ^ ord * PAGE_SIZE, ord).
Proof using.
  intros Hs Ho Hb Hp. pose proof (ap_rewrites _ _ _ _ Hp) as Hrw. pose proof (ap_was_free _ _ _ _ Hp) as Hf.
  pose proof (take_block _ _ _ _ Ho Hb Hrw) as Hblk. unfold live. rewrite (ap_base _ _ _ _ Hp). split.
  - intros (c & -> & Ha). destruct (decide ((o, c) = (ord, b))) as [[= -> ->]|Hne]; [by right|left].
    exists c. split; [done|]. eapply rewrites_back; [exact Hrw|exact Ha|].
    intros p Hp1 Hp2. apply Hne. by destruct (alloc_block_unique _ _ _ _ _ _ Ha Hblk Hp1 Hp2) as [-> ->].
  - intros [(c & -> & Ha)|[= -> ->]]; [|by exists b]. exists c. split; [done|].
    by apply (take_other (page_state s) _ ord b).
Qed.

Lemma live_after_free s ord b s' frame o :
  buddy_inv s -> free_post s ord b s' ->
  live s' frame o <-> live s frame o /\ (frame, o) <> (base_addr s + b * 2 ^ ord * PAGE_SIZE, ord).
Proof using.
  intros Hs Hp. pose proof (fp_rewrites _ _ _ _ Hp) as Hrw. pose proof (fp_was_live _ _ _ _ Hp) as Hblk.
  pose proof Hblk as (Ho & Hb & _). unfold live. rewrite (fp_base _ _ _ _ Hp). split.
  - intros (c & -> & Ha). pose proof Ha as (Hoc & Hc & _).
    assert (forall p, p / 2 ^ o = c -> p / 2 ^ ord <> b) as Hdis.
    { intros p Hp1 Hp2. pose proof (alloc_block_not_free _ _ _ _ Ha Hp1) as Hf. unfold fpage in Hf.
      by rewrite (proj2 Hrw), Hp2, Z.eqb_refl, bool_decide_eq_true_2 in Hf. }
    split; [exists c; split; [done|]; by eapply rewrites_back|].
    intros [= Heq ->]. assert (c = b) as ->.
    { pose proof (pow2_pos ord ltac:(lia)). unfold PAGE_SIZE in *. nia. }
    eapply (Hdis (b * 2 ^ ord)); apply block_head; lia.
  - intros [(c & -> & Ha) Hne]. exists c. split; [done|].
    apply (give_other (page_state s) _ ord b Hblk); [done|done|]. intros [= -> ->]. done.
Qed.

(** Neither operation touches a reserved page. *)
Lemma alloc_rpage s ord b s' p :
  0 <= ord < 11 -> 0 <= b -> alloc_post s ord b s' -> rpage (page_state s') p = rpage (page_state s) p.
Proof using.
  intros Ho Hb Hp. pose proof (ap_rewrites _ _ _ _ Hp) as Hrw. destruct (decide (p / 2 ^ ord = b)) as [E|E].
  - rewrite (alloc_block_not_reserved _ ord b) by (done || apply (take_block (page_state s)); done || lia).
    pose proof (ap_was_free _ _ _ _ Hp) as Hf. rewrite allfree_spec in Hf by lia.
    specialize (Hf p E). apply bool_decide_eq_true in Hf. unfold rpage. by rewrite Hf.
  - apply rpage_local. rewrite (proj2 Hrw). by destruct (Z.eqb_spec (p / 2 ^ ord) b).
Qed.

Lemma free_rpage s ord b s' p : free_post s ord b s' -> rpage (page_state s') p = rpage (page_state s) p.
Proof using.
  intros Hp. pose proof (fp_rewrites _ _ _ _ Hp) as Hrw. destruct (decide (p / 2 ^ ord = b)) as [E|E].
  - rewrite (alloc_block_not_reserved (page_state s) ord b) by (done || apply Hp).
    unfold rpage. by rewrite (proj2 Hrw), E, Z.eqb_refl.
  - apply rpage_local. rewrite (proj2 Hrw). by destruct (Z.eqb_spec (p / 2 ^ ord) b).
Qed.

Lemma sumZ_filter_ne {A} `{EqDecision A} (f : A -> Z) l x :
  NoDup l -> x ∈ l -> sumZ f (filter (fun y => y <> x) l) = sumZ f l - f x.
Proof using.
  induction 1 as [|y l Hy Hl IH]; [by intros ?%elem_of_nil|].
  intros [->|Hx]%elem_of_cons.
  - rewrite filter_cons_False by (intros H; by apply H). cbn [sumZ foldr].
    replace (filter (fun z => z <> y) l) with l; [unfold sumZ; lia|]. clear IH Hl.
    induction l as [|z l IH]; [done|]. apply not_elem_of_cons in Hy as [Hne Hy].
    rewrite filter_cons_True by congruence. by rewrite <- IH.
  - rewrite filter_cons_True by congruence. cbn [sumZ foldr]. unfold sumZ in *. rewrite IH by done. lia.
Qed.

Lemma run_alloc_inv s L ord :
  run_inv s L -> 0 <= ord -> let '(s', L') := run_op (s, L) (OpAlloc ord) in run_inv s' L'.
Proof using laws.
  intros HI Hop. pose proof (ri_inv _ _ HI) as Hs. cbn [run_op].
  destruct (try_alloc_pages_spec Hs ord Hop) as [[_ ->]|[(_ & _ & ->)|(Ho & b & s' & Hb & -> & Hp)]]; [done..|].
  unfold ORDER_COUNT in Ho.
  split; try (rewrite (ap_base _ _ _ _ Hp) || rewrite (ap_total _ _ _ _ Hp)); try apply HI; try apply Hp.
  - apply list.NoDup_cons. split; [|apply HI]. rewrite (ri_live _ _ HI). intros (c & Hc & Ha).
    pose proof (ap_was_free _ _ _ _ Hp) as Hf. pose proof (pow2_pos ord ltac:(lia)).
    assert (c = b) as -> by (unfold PAGE_SIZE in *; nia).
    rewrite allfree_spec in Hf by lia. specialize (Hf (b * 2 ^ ord) ltac:(apply block_head; lia)).
    rewrite (alloc_block_not_free _ _ _ _ Ha) in Hf; [done|]. apply block_head. lia.
  - intros frame o. rewrite (live_after_alloc s ord b s') by (done || lia).
    rewrite elem_of_cons, (ri_live _ _ HI). tauto.
  - intros p Hpr. rewrite <- (ri_reserved _ _ HI) by done. eapply alloc_rpage; [|done..]. lia.
  - cbn [sumZ foldr snd]. rewrite (ap_free _ _ _ _ Hp), (ap_reserved _ _ _ _ Hp).
    pose proof (ri_count _ _ HI). unfold sumZ in *. lia.
Qed.

Lemma run_free_inv s L frame ord :
  run_inv s L -> 0 <= ord -> let '(s', L') := run_op (s, L) (OpFree frame ord) in run_inv s' L'.
Proof using.
  intros HI Hop. pose proof (ri_inv _ _ HI) as Hs. cbn [run_op].
  destruct (decide ((frame, ord) ∈ L)) as [Hin|Hni].
  2:{ destruct (try_free_pages_not_live Hs frame ord Hop) as (e & -> & _); [|done].
      by rewrite <- (ri_live _ _ HI). }
  apply (ri_live _ _ HI) in Hin as Hlive. destruct Hlive as (b & -> & Ha).
  destruct (try_free_pages_live Hs b ord Ha) as (s' & -> & Hp).
  split; try (rewrite (fp_base _ _ _ _ Hp) || rewrite (fp_total _ _ _ _ Hp)); try apply HI; try apply Hp.
  - apply list.NoDup_filter, HI.
  - intros frame o. rewrite (live_after_free s ord b s') by done.
    rewrite list_elem_of_filter, (ri_live _ _ HI). tauto.
  - intros p Hpr. rewrite <- (ri_reserved _ _ HI) by done. by eapply free_rpage.
  - rewrite (fp_free _ _ _ _ Hp), (fp_reserved _ _ _ _ Hp), sumZ_filter_ne by (done || apply HI).
    cbn [snd]. pose proof (ri_count _ _ HI). lia.
Qed.

Lemma run_preserves ops : forall s L,
  run_inv s L -> Forall op_ok ops -> let '(s', L') := foldl run_op (s, L) ops in run_inv s' L'.
Proof using laws.
  induction ops as [|op ops IH]; intros s L HI Hops; [done|]. cbn [foldl].
  apply list.Forall_cons in Hops as [Hop Hops]. destruct (run_op (s, L) op) as [s1 L1] eqn:E.
  apply IH; [|done]. destruct op as [ord|frame ord].
  - pose proof (run_alloc_inv s L ord HI Hop) as H. by rewrite E in H.
  - pose proof (run_free_inv s L frame ord HI Hop) as H. by rewrite E in H.
Qed.

(** Outstanding allocations lie in the window, off every reserved byte, and
    do not overlap. *)
Lemma live_bounds s L frame ord :
  run_inv s L -> (frame, ord) ∈ L ->
  base <= frame /\ frame + 2 ^ ord * PAGE_SIZE <= base + pages * PAGE_SIZE.
Proof using.
  intros HI Hin. apply (ri_live _ _ HI) in Hin as (b & -> & Ha). pose proof (ri_inv _ _ HI) as Hs.
  pose proof (block_end Hs _ _ Ha). pose proof Ha as (Ho & Hb & _). pose proof (pow2_pos ord ltac:(lia)).
  rewrite (ri_base _ _ HI), (ri_total _ _ HI) in *. unfold PAGE_SIZE. nia.
Qed.

Lemma live_unreserved s L frame ord p :
  run_inv s L -> (frame, ord) ∈ L -> 0 <= p < pages ->
  frame < base + (p + 1) * PAGE_SIZE -> base + p * PAGE_SIZE < frame + 2 ^ ord * PAGE_SIZE ->
  withheld base reserved p = false.
Proof using.
  intros HI Hin Hp H1 H2. apply (ri_live _ _ HI) in Hin as (b & -> & Ha). rewrite (ri_base _ _ HI) in *.
  pose proof Ha as (Ho & Hb & _). rewrite <- (ri_reserved _ _ HI) by done.
  apply (alloc_block_not_reserved _ ord b); [done|]. apply in_block; [lia|]. unfold PAGE_SIZE in *. lia.
Qed.

Lemma live_disjoint s L f o f' o' :
  run_inv s L -> (f, o) ∈ L -> (f', o') ∈ L -> (f, o) <> (f', o') ->
  f + 2 ^ o * PAGE_SIZE <= f' \/ f' + 2 ^ o' * PAGE_SIZE <= f.
Proof using.
  intros HI Hin Hin' Hne. apply (ri_live _ _ HI) in Hin as (b & -> & Ha), Hin' as (b' & -> & Ha').
  pose proof Ha as (Ho & Hb & _). pose proof Ha' as (Ho' & Hb' & _).
  pose proof (pow2_pos o ltac:(lia)). pose proof (pow2_pos o' ltac:(lia)). unfold PAGE_SIZE.
  destruct (decide (b * 2 ^ o + 2 ^ o <= b' * 2 ^ o')); [lia|].
  destruct (decide (b' * 2 ^ o' + 2 ^ o' <= b * 2 ^ o)); [lia|]. exfalso. apply Hne.
  destruct (alloc_block_unique _ _ _ _ _ (Z.max (b * 2 ^ o) (b' * 2 ^ o')) Ha Ha') as [-> ->]; [apply in_block; lia..|done].
Qed.
End runs.
