(* ===== verification/BuddyCorrect.v ===== *)
(** The correctness theorems of the buddy allocator. *)

From Stdlib Require Import ZArith Lia.
From stdpp Require Import base list list_numbers numbers.
From S2P Require Import Prelude.
From S2P Require Import Machine.
From S2P Require Import Dyadic.
From S2P Require Import FreeMap.
From S2P Require Import FreeMapFacts.
From S2P Require Import Buddy.
From S2P Require Import BuddyBoot.
From S2P Require Import BuddyInv.
From S2P Require Import BuddyAlloc.
From S2P Require Import BuddyFree.
From S2P Require Import BuddyAudit.
From S2P Require Import BuddyInit.
From S2P Require Import BuddyTrace.

(** ** A concrete window

    The address rules of the architecture, and a window of 64 pages at 1 MiB
    with a reservation that touches two pages. *)
#[local] Instance x86_arch : PhysArch := {
  phys_addr_try_new a := a <? 2 ^ 52;
  phys_frame_from_start a := a mod 4096 =? 0;
}.
#[local] Instance x86_laws : PhysArchLaws x86_arch.
Proof. by split. Qed.

Definition demo_reserved : list (Z * Z) := [(0x104800, 0x1000)].
Definition demo_build : res BuddyInitError BuddyAllocator :=
  new_with_reservations (fun _ => true) 0x100000 (64 * 4096) demo_reserved.
Definition demo : BuddyAllocator :=
  match demo_build with
  | Ok s => s
  | _ => mkBuddy (mkFreeMap [] [] [] [] []) [] 0 0 0 0 true
  end.

Lemma demo_ranges : Forall valid_range demo_reserved.
Proof. repeat constructor; vm_compute; congruence. Qed.

Lemma demo_window : valid_window 0x100000 (64 * 4096).
Proof. split_and!; vm_compute; congruence. Qed.

Lemma demo_initial : initial 0x100000 64 demo_reserved demo.
Proof.
  destruct (new_with_reservations_total (fun _ => true) 0x100000 (64 * 4096) demo_reserved)
    as [(s & Hs & _ & Hi)|(e & _ & Hno)]; [lia|lia|apply demo_ranges| |].
  - unfold demo, demo_build. rewrite Hs. exact Hi.
  - exfalso. by destruct (Hno demo_window).
Qed.

Lemma demo_inv : buddy_inv demo.
Proof. apply demo_initial. Qed.

(** ** Allocation *)

(** C1 [try_alloc_pages] on a sound ledger.  An order above the largest is
    rejected; if no block of the order is wholly free the request is reported
    exhausted; in both cases the allocator is unchanged.  Otherwise it returns
    the address of a block whose pages were all free, marks exactly those pages
    allocated, takes them off the free count and keeps the ledger sound.  No
    other outcome exists: the ledger is never reported corrupt or poisoned, and
    no index or assertion of the code fails. *)
Theorem try_alloc_pages_correct (arch : PhysArch) (laws : PhysArchLaws arch) s ord :
  buddy_inv s -> 0 <= ord ->
  (ORDER_COUNT <= ord /\ try_alloc_pages s ord = (Err InvalidOrder, s)) \/
  (ord < ORDER_COUNT /\
     (forall o b, ord <= o < ORDER_COUNT -> 0 <= b -> allfree (fpage (page_state s)) o b = false) /\
     try_alloc_pages s ord = (Err Exhausted, s)) \/
  (ord < ORDER_COUNT /\ exists b s', 0 <= b /\
     try_alloc_pages s ord = (Ok (base_addr s + b * 2 ^ ord * PAGE_SIZE), s') /\ alloc_post s ord b s').
Proof. intros Hs. by apply try_alloc_pages_spec. Qed.

Lemma try_alloc_pages_witness :
  exists b s', try_alloc_pages demo 3 = (Ok (0x100000 + b * 2 ^ 3 * PAGE_SIZE), s') /\ alloc_post demo 3 b s'.
Proof.
  destruct (try_alloc_pages_correct x86_arch x86_laws demo 3 demo_inv ltac:(lia))
    as [[H _]|[(_ & _ & H)|(_ & b & s' & _ & H & Hp)]].
  - by vm_compute in H.
  - apply (f_equal fst) in H. by vm_compute in H.
  - exists b, s'. split; [exact H|exact Hp].
Defined.

(** C2 [try_free_pages] on a sound ledger.  The address and order of a live
    allocation are accepted: exactly its pages become free again and the ledger
    stays sound.  Every other request (a foreign or misaligned address, a wrong
    order, an interior or reserved page, a block already returned) is rejected
    with an error that is not a corruption report, and changes nothing. *)
Theorem try_free_pages_correct s frame ord :
  buddy_inv s -> 0 <= ord ->
  (exists b s', frame = base_addr s + b * 2 ^ ord * PAGE_SIZE /\ alloc_block (page_state s) ord b /\
     try_free_pages s frame ord = (Ok tt, s') /\ free_post s ord b s') \/
  (~ live s frame ord /\ exists e, try_free_pages s frame ord = (Err e, s) /\ is_metadata_corruption e = false).
Proof.
  intros Hs Ho. destruct (live_dec s frame ord Hs Ho) as [(b & -> & Ha)|Hnl].
  - left. destruct (try_free_pages_live Hs b ord Ha) as (s' & Hf & Hp). by exists b, s'.
  - right. split; [done|]. by apply try_free_pages_not_live.
Qed.

(** One page handed out of the smallest free block. *)
Definition demo1 : BuddyAllocator := (try_alloc_pages demo 0).2.

Lemma demo1_inv : buddy_inv demo1.
Proof.
  destruct (try_alloc_pages_spec demo_inv 0 ltac:(lia)) as [[H _]|[(_ & _ & H)|(_ & b & s' & _ & H & Hp)]].
  - by vm_compute in H.
  - apply (f_equal fst) in H. by vm_compute in H.
  - unfold demo1. rewrite H. apply Hp.
Qed.

Lemma try_free_pages_witness :
  (exists b s', try_free_pages demo1 0x106000 0 = (Ok tt, s') /\ free_post demo1 0 b s') /\
  (exists e, try_free_pages demo1 0x101000 0 = (Err e, demo1) /\ is_metadata_corruption e = false).
Proof.
  split.
  - destruct (try_free_pages_correct demo1 0x106000 0 demo1_inv ltac:(lia))
      as [(b & s' & _ & _ & Hf & Hp)|(_ & e & Hf & _)].
    + exists b, s'. split; [exact Hf|exact Hp].
    + apply (f_equal fst) in Hf. by vm_compute in Hf.
  - destruct (try_free_pages_correct demo1 0x101000 0 demo1_inv ltac:(lia))
      as [(b & s' & _ & _ & Hf & Hp)|(_ & He)].
    + apply (f_equal fst) in Hf. by vm_compute in Hf.
    + exact He.
Defined.

(** ** Double free *)

(** Releasing a block twice: once a release has succeeded, releasing the
    same address again is rejected under every order, with the allocator
    unchanged and not quarantined. *)
Theorem double_free_rejected s frame ord s' ord' :
  buddy_inv s -> 0 <= ord -> 0 <= ord' -> try_free_pages s frame ord = (Ok tt, s') ->
  exists e, try_free_pages s' frame ord' = (Err e, s') /\ is_metadata_corruption e = false.
Proof.
  intros Hs Ho Ho' Hf. destruct (live_dec s frame ord Hs Ho) as [(b & -> & Ha)|Hnl].
  2:{ destruct (try_free_pages_not_live Hs frame ord Ho Hnl) as (e & He & _). congruence. }
  destruct (try_free_pages_live Hs b ord Ha) as (s1 & Hf1 & Hp). rewrite Hf in Hf1. injection Hf1 as <-.
  apply try_free_pages_not_live; [apply Hp|done|]. by eapply freed_not_live.
Qed.

Lemma double_free_witness :
  exists s', try_free_pages demo1 0x106000 0 = (Ok tt, s') /\
    exists e, try_free_pages s' 0x106000 0 = (Err e, s') /\ is_metadata_corruption e = false.
Proof.
  destruct (try_free_pages demo1 0x106000 0) as [r s'] eqn:E.
  assert (r = Ok tt) as -> by (apply (f_equal fst) in E; vm_compute in E; congruence).
  exists s'. split; [reflexivity|].
  apply (double_free_rejected demo1 0x106000 0 s' 0 demo1_inv ltac:(lia) ltac:(lia) E).
Defined.

(** ** Round trip *)

(** Allocating a block and returning it restores the ledger: page states,
    bitmap words, per-order counters and totals are those before the
    allocation, whatever splits and merges happened in between.  Only the
    search cursors may differ. *)
Theorem alloc_free_roundtrip (arch : PhysArch) (laws : PhysArchLaws arch) s ord frame s1 :
  buddy_inv s -> 0 <= ord -> try_alloc_pages s ord = (Ok frame, s1) ->
  exists s2, try_free_pages s1 frame ord = (Ok tt, s2) /\ same_ledger s2 s.
Proof.
  intros Hs Ho Ha.
  destruct (try_alloc_pages_spec Hs ord Ho) as [[_ H]|[(_ & _ & H)|(Hlt & b & s' & Hb & H & Hp)]];
    rewrite Ha in H; [done..|]. injection H as -> <-. rewrite <- (ap_base _ _ _ _ Hp).
  pose proof (ap_inv _ _ _ _ Hp) as Hs1.
  destruct (try_free_pages_live Hs1 b ord) as (s2 & Hf & Hq).
  { eapply (take_block (page_state s)); [lia|done|apply Hp]. }
  exists s2. split; [done|]. apply ledger_canonical; try done; [apply Hq|..].
  - by rewrite (fp_base _ _ _ _ Hq), (ap_base _ _ _ _ Hp).
  - by rewrite (fp_total _ _ _ _ Hq), (ap_total _ _ _ _ Hp).
  - eapply take_give; [apply Hp|apply Hq|apply Hp|]; lia.
Qed.

Lemma alloc_free_roundtrip_witness :
  exists frame s1 s2, try_alloc_pages demo 2 = (Ok frame, s1) /\
    try_free_pages s1 frame 2 = (Ok tt, s2) /\ same_ledger s2 demo.
Proof.
  destruct (try_alloc_pages demo 2) as [r s1] eqn:E.
  assert (exists frame, r = Ok frame) as [frame ->].
  { apply (f_equal fst) in E. vm_compute in E. exists 0x100000. congruence. }
  destruct (alloc_free_roundtrip x86_arch x86_laws demo 2 frame s1 demo_inv ltac:(lia) E) as (s2 & H1 & H2).
  exists frame, s1, s2. split; [reflexivity|]. split; [exact H1|exact H2].
Defined.

(** ** Runs *)

(** C3 After any sequence of allocations and releases (releases of arbitrary
    addresses included) on an allocator built over a window with reservations:
    the ledger is sound, the allocations handed out and not yet returned lie in
    the window, share no byte with one another and touch no withheld page, the
    withheld pages are the ones withheld at construction, and outstanding, free
    and reserved pages add up to the window. *)
Theorem runs_correct (arch : PhysArch) (laws : PhysArchLaws arch) base pages reserved s0 ops :
  initial base pages reserved s0 -> Forall op_ok ops ->
  let '(s, L) := run s0 ops in
  buddy_inv s /\
  (forall f o, (f, o) ∈ L -> base <= f /\ f + 2 ^ o * PAGE_SIZE <= base + pages * PAGE_SIZE) /\
  (forall f o f' o', (f, o) ∈ L -> (f', o') ∈ L -> (f, o) <> (f', o') ->
     f + 2 ^ o * PAGE_SIZE <= f' \/ f' + 2 ^ o' * PAGE_SIZE <= f) /\
  (forall f o p, (f, o) ∈ L -> 0 <= p < pages -> f < base + (p + 1) * PAGE_SIZE ->
     base + p * PAGE_SIZE < f + 2 ^ o * PAGE_SIZE -> withheld base reserved p = false) /\
  (forall p, 0 <= p < pages -> rpage (page_state s) p = withheld base reserved p) /\
  sumZ (fun fo => 2 ^ fo.2) L + free_pages s + reserved_pages s = pages.
Proof.
  intros Hi Hops. pose proof (run_preserves base pages reserved ops s0 [] (init_run _ _ _ _ Hi) Hops) as H.
  unfold run. destruct (foldl run_op (s0, []) ops) as [s L]. split_and!.
  - apply H.
  - intros f o. by eapply live_bounds.
  - intros f o f' o'. by eapply live_disjoint.
  - intros f o p. by eapply live_unreserved.
  - apply H.
  - apply (ri_count _ _ _ _ _ H).
Qed.

Definition demo_ops : list BuddyOp :=
  [OpAlloc 0; OpAlloc 3; OpAlloc 2; OpFree 0x106000 0; OpFree 0x106000 0; OpFree 0x100000 1; OpAlloc 10; OpAlloc 1].

Lemma runs_witness :
  zlen (run demo demo_ops).2 = 3 /\ free_pages (run demo demo_ops).1 = 48 /\
  let '(s, L) := run demo demo_ops in sumZ (fun fo => 2 ^ fo.2) L + free_pages s + reserved_pages s = 64.
Proof.
  split; [vm_compute; reflexivity|]. split; [vm_compute; reflexivity|].
  pose proof (runs_correct x86_arch x86_laws 0x100000 64 demo_reserved demo demo_ops demo_initial) as H.
  destruct (run demo demo_ops) as [s L].
  destruct H as (_ & _ & _ & _ & _ & H); [repeat constructor; simpl; lia|exact H].
Defined.

(** ** Construction and audit *)

(** C4 [new_with_reservations] on every window and every list of reservations:
    when it succeeds the window is valid and the allocator is sound, with
    exactly the pages that share a byte with a reservation withheld and all
    others free; when it fails on a valid window it is because the heap refused
    the metadata.  It never panics, and the final audit never rejects what it
    built. *)
Theorem new_with_reservations_correct (arch : PhysArch) (laws : PhysArchLaws arch) heap_ok base size reserved :
  0 <= base -> 0 <= size -> Forall valid_range reserved ->
  (exists s, new_with_reservations heap_ok base size reserved = Ok s /\
     valid_window base size /\ initial base (size / PAGE_SIZE) reserved s) \/
  (exists e, new_with_reservations heap_ok base size reserved = Err e /\
     (valid_window base size -> exists n, heap_ok n = false)).
Proof. intros. by apply new_with_reservations_total. Qed.

Lemma new_with_reservations_witness :
  exists s, new_with_reservations (fun _ => true) 0x100000 (64 * 4096) demo_reserved = Ok s /\
    free_pages s = 62 /\ zget (page_state s) 5 = Some PAGE_RESERVED.
Proof.
  destruct (new_with_reservations_correct x86_arch x86_laws (fun _ => true) 0x100000 (64 * 4096) demo_reserved)
    as [(s & Hs & _ & Hi)|(e & _ & H)]; [lia|lia|exact demo_ranges| |].
  - exists s. split; [exact Hs|]. split.
    + rewrite (init_free _ _ _ _ Hi), (init_reserved _ _ _ _ Hi). vm_compute. reflexivity.
    + rewrite (init_pages _ _ _ _ Hi); [|vm_compute; split; congruence]. vm_compute. reflexivity.
  - destruct (H demo_window) as [n Hn]. discriminate.
Defined.

(** Boot storage: storage of at least [metadata_bytes] bytes at an 8-byte
    aligned address is always enough for [new_with_reservations_in] on a valid
    window, and builds the same kind of allocator. *)
Theorem metadata_bytes_suffice (arch : PhysArch) (laws : PhysArchLaws arch) base size reserved addr len n :
  0 <= base -> valid_window base size -> Forall valid_range reserved ->
  metadata_bytes size = Ok n -> n <= len -> addr mod 8 = 0 ->
  exists s, new_with_reservations_in base size reserved addr len = Ok s /\
    initial base (size / PAGE_SIZE) reserved s.
Proof. intros. by eapply new_with_reservations_in_ok. Qed.

Lemma metadata_bytes_witness :
  exists s, new_with_reservations_in 0x100000 (64 * 4096) demo_reserved 0x8000 200 = Ok s /\ total_pages s = 64.
Proof.
  destruct (metadata_bytes_suffice x86_arch x86_laws 0x100000 (64 * 4096) demo_reserved 0x8000 200 120)
    as (s & Hs & Hi); [lia|exact demo_window|exact demo_ranges|vm_compute; reflexivity|lia|reflexivity|].
  exists s. split; [exact Hs|]. rewrite (init_total _ _ _ _ Hi). reflexivity.
Defined.

(** C5 The audit decides soundness, up to what it does not look at.  On any ledger
    whose arrays have the right sizes, whose bitmap has no bit set beyond the blocks of
    an order, whose window is page-aligned and ends at or below 2^52, and which is not
    poisoned, [validate_metadata] returns true exactly when the bitmap holds the
    maximal free blocks of the page states, every page is free, reserved or
    part of a well-formed allocation, and the counters and totals agree.  Every
    ledger that the allocator comes to meets these conditions ([inv_shape]); a stray bit
    in the last word of an order would go unnoticed. *)
Theorem validate_metadata_correct s : ledger_shape s -> validate_metadata s = true <-> buddy_inv s.
Proof. intros Hs. split; [by apply validates_inv|apply inv_validates]. Qed.

Lemma validate_metadata_witness : ledger_shape demo1 /\ validate_metadata demo1 = true.
Proof.
  split; [exact (inv_shape demo1 demo1_inv)|].
  apply (validate_metadata_correct demo1 (inv_shape demo1 demo1_inv)). exact demo1_inv.
Defined.

(** The word-wise search: on a well-formed bitmap [find_first], which scans
    machine words from a cursor with masks and trailing-zero counts, returns
    what a block-by-block scan from the cursor, wrapping around, returns. *)
Theorem find_first_scan tp fm o :
  fm_wf tp fm -> 0 <= o < ORDER_COUNT ->
  find_first fm o = if ag (block_count fm) o =? 0 then None else find_first_ref tp fm o.
Proof. intros Hwf Ho. by apply find_first_correct. Qed.

Lemma find_first_scan_witness :
  find_first (free_map demo) 1 = find_first_ref 64 (free_map demo) 1 /\ is_Some (find_first (free_map demo) 1).
Proof.
  assert (total_pages demo = 64) as Ht by (vm_compute; reflexivity).
  pose proof (bi_wf _ demo_inv) as Hwf. rewrite Ht in Hwf.
  split; [|vm_compute; eexists; reflexivity].
  rewrite (find_first_scan 64 (free_map demo) 1 Hwf); [|vm_compute; split; congruence].
  vm_compute. reflexivity.
Defined.

(** ** The global entry points *)
Lemma trailing_zeros_pow2 k : 0 <= k < 64 -> trailing_zeros (2 ^ k) = k.
Proof.
  intros Hk. destruct (trailing_zeros_spec (2 ^ k)) as [Hr Ht]; [by apply pow2_u64|pose proof (pow2_pos k); lia|].
  rewrite Z.pow2_bits_eqb in Ht by lia. apply Z.eqb_eq in Ht. lia.
Qed.

Lemma next_power_of_two count :
  1 <= count <= 1024 -> checked_next_power_of_two count = Some (2 ^ Z.log2_up count) /\
    0 <= Z.log2_up count < ORDER_COUNT /\ count <= 2 ^ Z.log2_up count.
Proof.
  intros Hc. pose proof (Z.log2_up_nonneg count).
  assert (Z.log2_up count <= 10) by (apply (Z.log2_up_le_mono count 1024); lia).
  unfold checked_next_power_of_two, ORDER_COUNT. split_and!; try lia.
  - assert (2 ^ Z.log2_up count <= 2 ^ 10) by (apply Z.pow_le_mono_r; lia).
    zb; [done|]. unfold usize_max, u64_max in *. lia.
  - destruct (decide (count = 1)) as [->|]; [done|]. apply Z.log2_up_spec. lia.
Qed.

(** The kernel-wide entry points: a request for 1 to 1024 pages that finds
    a free block gets at least that many pages, and handing the same count back
    restores the ledger.  The checked release accepts the count only when it is
    a power of two, and then does the same. *)
Theorem physical_pages_roundtrip (arch : PhysArch) (laws : PhysArchLaws arch) oom s count frame g :
  buddy_inv s -> 1 <= count <= 1024 ->
  (exists b, 0 <= b /\ allfree (fpage (page_state s)) (Z.log2_up count) b = true) ->
  try_alloc_physical_pages oom (Some s) count = (Ok frame, g) ->
  count <= 2 ^ Z.log2_up count /\
  exists s1 s2, g = Some s1 /\ live s1 frame (Z.log2_up count) /\
    free_physical_pages g frame count = Some s2 /\ same_ledger s2 s /\
    try_free_physical_pages g frame count =
      (if count =? 2 ^ Z.log2_up count then (Ok tt, Some s2) else (Err InvalidCount, g)).
Proof.
  intros Hs Hc (b0 & Hb0 & Hfree). destruct (next_power_of_two count Hc) as (Hnp & Ho & Hge).
  unfold try_alloc_physical_pages. destruct (Z.eqb_spec count 0); [lia|]. rewrite Hnp.
  rewrite trailing_zeros_pow2 by (unfold ORDER_COUNT in *; lia).
  destruct (Z.leb_spec ORDER_COUNT (Z.log2_up count)); [lia|].
  destruct (try_alloc_pages_spec Hs (Z.log2_up count) ltac:(lia))
    as [[? _]|[(_ & Hno & _)|(_ & b & s1 & Hb & -> & Hp)]]; [lia|by rewrite Hno in Hfree by lia|].
  intros [= <- <-]. split; [done|]. rewrite <- (ap_base _ _ _ _ Hp).
  assert (alloc_block (page_state s1) (Z.log2_up count) b) as Hblk.
  { eapply (take_block (page_state s)); [lia|done|apply Hp]. }
  destruct (try_free_pages_live (ap_inv _ _ _ _ Hp) b _ Hblk) as (s2 & Hf & Hq).
  exists s1, s2. split_and!; [done|by exists b| | |].
  - unfold free_physical_pages. destruct (Z.eqb_spec count 0); [lia|]. rewrite Hnp.
    rewrite trailing_zeros_pow2 by (unfold ORDER_COUNT in *; lia). unfold free_pages_or_quarantine. cbn [fmap option_fmap option_map].
    by rewrite Hf.
  - apply ledger_canonical; try done; [apply Hq|..].
    + by rewrite (fp_base _ _ _ _ Hq), (ap_base _ _ _ _ Hp).
    + by rewrite (fp_total _ _ _ _ Hq), (ap_total _ _ _ _ Hp).
    + eapply take_give; [apply Hp|apply Hq|apply Hp|]; lia.
  - unfold try_free_physical_pages. destruct (Z.eqb_spec count 0); [lia|]. rewrite Hnp.
    rewrite (Z.eqb_sym count). destruct (Z.eqb_spec (2 ^ Z.log2_up count) count); cbn [negb]; [|done].
    rewrite trailing_zeros_pow2 by (unfold ORDER_COUNT in *; lia). by rewrite Hf.
Qed.

Lemma physical_pages_witness :
  exists frame s1 s2, try_alloc_physical_pages (fun _ g => g) (Some demo) 3 = (Ok frame, Some s1) /\
    free_physical_pages (Some s1) frame 3 = Some s2 /\ same_ledger s2 demo.
Proof.
  destruct (try_alloc_physical_pages (fun _ g => g) (Some demo) 3) as [r g] eqn:E.
  assert (exists frame, r = Ok frame) as [frame ->].
  { apply (f_equal fst) in E. vm_compute in E. exists 0x100000. congruence. }
  destruct (physical_pages_roundtrip x86_arch x86_laws (fun _ g => g) demo 3 frame g demo_inv) as (_ & s1 & s2 & -> & _ & H1 & H2 & _);
    [lia|exists 0; split; [lia|vm_compute; reflexivity]|exact E|].
  exists frame, s1, s2. split; [reflexivity|]. split; [exact H1|exact H2].
Defined.
