(* ===== verification/Cap.v ===== *)
(** The per-process capability table (kernel/cap/types.rs, kernel/cap/lib.rs).

    Every operation takes the contents of the table's mutex and returns them
    with its result.  A [Vec] is its elements and its capacity: a push beyond
    the capacity reallocates, which the kernel forbids under the table lock, so
    the model counts it as an abort.  Heap admission is an oracle chosen anew
    for every operation.  [debug] selects the builds in which [debug_assert!]
    is compiled in. *)

From Stdlib Require Import ZArith Lia.
From stdpp Require Import base list list_numbers numbers.
From S2P Require Import Prelude.
From S2P Require Import Machine.

(** * Identifiers, rights, flags *)

(** [CapId]: 48 bits of generation above 16 bits of slot index. *)
Definition GEN_MASK : Z := 0x0000FFFFFFFFFFFF.
Definition from_parts (index generation : Z) : Z :=
  Z.lor (Z.shiftl (Z.land generation GEN_MASK) 16) index.
Definition cap_index (id : Z) : Z := Z.land id 0xFFFF.
Definition cap_generation (id : Z) : Z := Z.shiftr id 16.
Definition cap_is_valid (id : Z) : bool := 0 <? cap_generation id.

(** [CapRights] and [CapFlags] are bit masks. *)
Definition contains (held required : Z) : bool := Z.land held required =? required.
Definition restrict (rights mask : Z) : Z := Z.land rights mask.

Definition CLOEXEC : Z := 1.
Definition CLOFORK : Z := 2.
Definition O_PATH : Z := 4.
Definition NOXFER : Z := 8.

(** * Objects and entries *)
Inductive PipeEndType := PipeRead | PipeWrite.

(** Reference-counted handles ([Arc]) stand for their identity. *)
Inductive CapObject :=
| File (handle : Z)
| Endpoint (id : Z)
| Socket (socket_id net_ns_id : Z)
| Pipe (pipe_id : Z) (end_type : PipeEndType)
| RegularFile (inode_id fs_id : Z)
| Shm (handle : Z)
| Timer (handle : Z)
| Process (pid : Z)
| Namespace (ns : Z).

Definition is_fd_backed (o : CapObject) : bool :=
  match o with Socket _ _ | Pipe _ _ | RegularFile _ _ => true | _ => false end.
Definition is_namespace (o : CapObject) : bool :=
  match o with Namespace _ => true | _ => false end.

Record CapEntry := mkEntry {
  object : CapObject;
  rights : Z;
  flags : Z;
  refcount : Z;
}.

Definition with_flags (o : CapObject) (r f : Z) : CapEntry := mkEntry o r f 1.
Definition set_refcount (e : CapEntry) (n : Z) : CapEntry := mkEntry (object e) (rights e) (flags e) n.
Definition inherits_on_exec (e : CapEntry) : bool := negb (contains (flags e) CLOEXEC).
Definition inherits_on_fork (e : CapEntry) : bool := negb (contains (flags e) CLOFORK).
Definition allows (e : CapEntry) (required : Z) : bool := contains (rights e) required.

Inductive CapError :=
| InvalidCapId | InsufficientRights | TableFull | NoCurrentProcess | DelegationDenied
| InvalidOperation | GenerationExhausted | OutOfMemory.

#[global] Instance PipeEndType_eq_dec : EqDecision PipeEndType.
Proof. solve_decision. Defined.
#[global] Instance CapObject_eq_dec : EqDecision CapObject.
Proof. solve_decision. Defined.
#[global] Instance CapEntry_eq_dec : EqDecision CapEntry.
Proof. solve_decision. Defined.
#[global] Instance CapError_eq_dec : EqDecision CapError.
Proof. solve_decision. Defined.

Record CapSlot := mkSlot { generation : Z; entry : CapEntry }.
#[global] Instance CapSlot_eq_dec : EqDecision CapSlot.
Proof. solve_decision. Defined.

(** * The table *)
Definition DEFAULT_CAP_SLOTS : Z := 64.
Definition MAX_CAP_SLOTS : Z := 65535.
Definition MAX_GENERATION : Z := 0x0000FFFFFFFFFFFF.

(** [free] is listed from the top of the stack, the end of the vector. *)
Record CapTableInner := mkTable {
  slots : list (option CapSlot);
  slots_cap : Z;
  free : list Z;
  free_cap : Z;
  slots_charged : bool;
  free_charged : bool;
  next_generation : Z;
  reserved_allocations : Z;
}.

Definition set_slots (t : CapTableInner) (s : list (option CapSlot)) : CapTableInner :=
  mkTable s (slots_cap t) (free t) (free_cap t) (slots_charged t) (free_charged t)
    (next_generation t) (reserved_allocations t).
Definition set_free (t : CapTableInner) (f : list Z) : CapTableInner :=
  mkTable (slots t) (slots_cap t) f (free_cap t) (slots_charged t) (free_charged t)
    (next_generation t) (reserved_allocations t).
Definition set_reserved (t : CapTableInner) (n : Z) : CapTableInner :=
  mkTable (slots t) (slots_cap t) (free t) (free_cap t) (slots_charged t) (free_charged t)
    (next_generation t) n.
Definition set_generation (t : CapTableInner) (g : Z) : CapTableInner :=
  mkTable (slots t) (slots_cap t) (free t) (free_cap t) (slots_charged t) (free_charged t)
    g (reserved_allocations t).

(** [prepare_cap_vec]: heap admission and a vector of at least the requested
    capacity, for the two element types; [None] is out of memory. *)
Class CapHeap := {
  prepare_slots : Z -> option Z;
  prepare_free : Z -> option Z;
}.
(** [Vec::try_reserve_exact] leaves a capacity of at least what was asked. *)
Class CapHeapLaws (heap : CapHeap) : Prop := {
  prepare_slots_ge : forall c c', prepare_slots c = Some c' -> c <= c';
  prepare_free_ge : forall c c', prepare_free c = Some c' -> c <= c';
}.

(** [free.push(index)] *)
Definition push_free (t : CapTableInner) (index : Z) : option CapTableInner :=
  if zlen (free t) <? free_cap t then Some (set_free t (index :: free t)) else None.

Definition occupied (s : option CapSlot) : bool := bool_decide (is_Some s).

Definition reclaim_if_unused (t : CapTableInner) : CapTableInner :=
  if negb (reserved_allocations t =? 0) || existsb occupied (slots t) then t
  else mkTable [] 0 [] 0 false false (next_generation t) (reserved_allocations t).

Definition cap_growth_target (current_capacity required : Z) : Z :=
  Z.max (Z.min (Z.max (default MAX_CAP_SLOTS (checked_mul current_capacity 2)) DEFAULT_CAP_SLOTS) MAX_CAP_SLOTS)
    required.

(** [try_with_capacity], the fallible constructor. *)
Definition try_with_capacity `{heap : CapHeap} (capacity : Z) : res CapError CapTableInner :=
  let capacity := Z.min capacity MAX_CAP_SLOTS in
  let? sc := ok_or (prepare_slots capacity) OutOfMemory in
  let? fc := ok_or (prepare_free capacity) OutOfMemory in
  Ok (mkTable (replicate (Z.to_nat capacity) None) sc (reverse (seqZ 0 capacity)) fc true true 1 0).

Section operations.
Context (debug : bool).

Section growth.
Context {heap : CapHeap}.

(** [prepare_growth] *)
Definition prepare_growth (needs_slots needs_free : bool) (capacity : Z) : option (option Z * option Z) :=
  s ← (if needs_slots then Some <$> prepare_slots capacity else Some None);
  f ← (if needs_free then Some <$> prepare_free capacity else Some None);
  Some (s, f).

(** [install_cap_vec] for the two vectors: the replacement must be able to hold
    what is live. *)
Definition install_slots_vec (t : CapTableInner) (prepared : option Z) : option CapTableInner :=
  match prepared with
  | None => Some t
  | Some c => if c <? zlen (slots t) then None else
      Some (mkTable (slots t) c (free t) (free_cap t) true (free_charged t) (next_generation t) (reserved_allocations t))
  end.
Definition install_free_vec (t : CapTableInner) (prepared : option Z) : option CapTableInner :=
  match prepared with
  | None => Some t
  | Some c => if c <? zlen (free t) then None else
      Some (mkTable (slots t) (slots_cap t) (free t) c (slots_charged t) true (next_generation t) (reserved_allocations t))
  end.

(** The growth branch of [reserve_allocation]: one more vacant slot. *)
Definition grow (t : CapTableInner) : res CapError (Z * CapTableInner) :=
  if MAX_CAP_SLOTS <=? zlen (slots t) then Err TableFull else
  let? new_len := ok_or (checked_add (zlen (slots t)) 1) OutOfMemory in
  let current_capacity := Z.max (slots_cap t) (free_cap t) in
  let preferred := cap_growth_target current_capacity new_len in
  let needs_slots := slots_cap t <? new_len in
  let needs_free := free_cap t <? new_len in
  let? (sp, fp) := match prepare_growth needs_slots needs_free preferred with
                   | Some prepared => Ok prepared
                   | None =>
                       if negb (preferred =? new_len)
                       then ok_or (prepare_growth needs_slots needs_free new_len) OutOfMemory
                       else Err OutOfMemory
                   end in
  let? t := or_panic (install_slots_vec t sp) in
  let? t := or_panic (install_free_vec t fp) in
  if slots_cap t <=? zlen (slots t) then Panic else
  Ok (zlen (slots t), set_slots t (slots t ++ [None])).

(** [reserve_allocation]; a failure before the table is touched returns it as
    it was. *)
Definition reserve_allocation (t : CapTableInner) : res CapError (Z * Z) * CapTableInner :=
  if MAX_GENERATION <=? next_generation t then (Err GenerationExhausted, t) else
  match checked_add (reserved_allocations t) 1 with
  | None => (Err OutOfMemory, t)
  | Some next_reserved =>
      match (match free t with
             | idx :: rest => Ok (idx, set_free t rest)
             | [] => grow t
             end) with
      | Err e => (Err e, t)
      | Panic => (Panic, t)
      | Ok (index, t) =>
          let generation := next_generation t in
          match checked_add generation 1 with
          | None => (Err GenerationExhausted, t)
          | Some g =>
              let g := if g =? 0 then 1 else g in
              (Ok (index, generation), set_reserved (set_generation t g) next_reserved)
          end
      end
  end.
End growth.

(** The guard shared by [install_reserved] and [cancel_reserved]. *)
Definition reservation_intact (t : CapTableInner) (index : Z) : bool :=
  negb (reserved_allocations t =? 0) && (index <? zlen (slots t)) &&
  bool_decide (zget (slots t) index = Some None) &&
  negb (debug && existsb (Z.eqb index) (free t)).

Definition install_reserved (t : CapTableInner) (index generation : Z) (e : CapEntry)
  : option (Z * CapTableInner) :=
  if reservation_intact t index then
    let t := set_slots t (zset (slots t) index (Some (mkSlot generation e))) in
    Some (from_parts index generation, set_reserved t (reserved_allocations t - 1))
  else None.

Definition cancel_reserved (t : CapTableInner) (index : Z) : option CapTableInner :=
  if reservation_intact t index then
    if debug && (free_cap t <? zlen (slots t)) then None else
    t ← push_free t index;
    Some (reclaim_if_unused (set_reserved t (reserved_allocations t - 1)))
  else None.

Definition allocate `{heap : CapHeap} (t : CapTableInner) (e : CapEntry) : res CapError Z * CapTableInner :=
  match reserve_allocation t with
  | (Ok (index, generation), t') =>
      match install_reserved t' index generation e with
      | Some (id, t'') => (Ok id, t'')
      | None => (Panic, t')
      end
  | (Err e, t') => (Err e, t')
  | (Panic, t') => (Panic, t')
  end.

(** The slot a [CapId] names, if it is current. *)
Definition find_slot (t : CapTableInner) (id : Z) : res CapError (Z * CapSlot) :=
  if negb (cap_is_valid id) then Err InvalidCapId else
  let index := cap_index id in
  if zlen (slots t) <=? index then Err InvalidCapId else
  match zget (slots t) index with
  | Some (Some slot) => if generation slot =? cap_generation id then Ok (index, slot) else Err InvalidCapId
  | _ => Err InvalidCapId
  end.

Definition lookup (t : CapTableInner) (id : Z) : res CapError CapEntry :=
  let? (_, slot) := find_slot t id in Ok (entry slot).

Definition revoke_retaining_capacity (t : CapTableInner) (id : Z) : res CapError CapEntry * CapTableInner :=
  match find_slot t id with
  | Ok (index, slot) =>
      let t' := set_slots t (zset (slots t) index None) in
      if debug && (free_cap t' <? zlen (slots t')) then (Panic, t) else
      match push_free t' index with
      | Some t'' => (Ok (entry slot), t'')
      | None => (Panic, t)
      end
  | Err e => (Err e, t)
  | Panic => (Panic, t)
  end.

Definition revoke (t : CapTableInner) (id : Z) : res CapError CapEntry * CapTableInner :=
  match revoke_retaining_capacity t id with
  | (Ok e, t) => (Ok e, reclaim_if_unused t)
  | r => r
  end.

Definition delegate `{heap : CapHeap} (t : CapTableInner) (id rights_mask fl : Z)
  : res CapError Z * CapTableInner :=
  match lookup t id with
  | Err e => (Err e, t)
  | Panic => (Panic, t)
  | Ok src =>
      if contains (flags src) NOXFER then (Err DelegationDenied, t) else
      if is_namespace (object src) then (Err DelegationDenied, t) else
      let enforced_flags := Z.lor fl (flags src) in
      allocate t (with_flags (object src) (restrict (rights src) rights_mask) enforced_flags)
  end.

(** * Reference counts *)
Definition check_rights (t : CapTableInner) (id required : Z) : res CapError bool :=
  let? e := lookup t id in Ok (allows e required).

(** Overwrite the reference count behind a current identifier. *)
Definition store_refcount (t : CapTableInner) (index : Z) (slot : CapSlot) (n : Z) : CapTableInner :=
  set_slots t (zset (slots t) index (Some (mkSlot (generation slot) (set_refcount (entry slot) n)))).

Definition increment_refcount (t : CapTableInner) (id : Z) : res CapError unit * CapTableInner :=
  match find_slot t id with
  | Ok (index, slot) =>
      match checked_add (refcount (entry slot)) 1 with
      | Some n => (Ok tt, store_refcount t index slot n)
      | None => (if debug then Panic else Ok tt, t)
      end
  | Err e => (Err e, t)
  | Panic => (Panic, t)
  end.

Definition decrement_refcount (t : CapTableInner) (id : Z) : res CapError bool * CapTableInner :=
  match find_slot t id with
  | Ok (index, slot) =>
      let prev := refcount (entry slot) in
      let t' := store_refcount t index slot (default 0 (checked_sub prev 1)) in
      if debug && (prev =? 0) then (Panic, t') else (Ok (prev =? 1), t')
  | Err e => (Err e, t)
  | Panic => (Panic, t)
  end.

Definition get_refcount (t : CapTableInner) (id : Z) : option Z :=
  match lookup t id with Ok e => Some (refcount e) | _ => None end.

Definition has_rights (t : CapTableInner) (required : Z) : bool :=
  existsb (fun s => match s with Some slot => allows (entry slot) required | None => false end) (slots t).

Definition cap_len (t : CapTableInner) : Z := zlen (filter is_Some (slots t)).
Definition cap_is_empty (t : CapTableInner) : bool := cap_len t =? 0.

(** * Fork *)

(** [rebuild_free_list]: push every vacant index, in increasing order. *)
Fixpoint push_vacant (t : CapTableInner) (idx : Z) (ss : list (option CapSlot)) : option CapTableInner :=
  match ss with
  | [] => Some t
  | Some _ :: ss => push_vacant t (idx + 1) ss
  | None :: ss => t ← push_free t idx; push_vacant t (idx + 1) ss
  end.
Definition rebuild_free_list (t : CapTableInner) : option CapTableInner :=
  push_vacant (set_free t []) 0 (slots t).

(** The loop that copies the inheritable slots into the child's vacant ones. *)
Definition inherit_slot (s : option CapSlot) : option CapSlot :=
  match s with
  | Some slot => if inherits_on_fork (entry slot) then Some slot else None
  | None => None
  end.

(** [admits] is the heap's verdict on the allocation of the table itself and
    on the ledger commits; [Err] is [Err(())]. *)
Definition try_clone_for_fork `{heap : CapHeap} (admits : bool) (t : CapTableInner) : res unit CapTableInner :=
  let capacity := Z.min (zlen (slots t)) MAX_CAP_SLOTS in
  if negb admits then Err tt else
  let? sc := ok_or (prepare_slots capacity) tt in
  let? fc := ok_or (prepare_free capacity) tt in
  if capacity <? zlen (slots t) then Panic else
  let child := mkTable (inherit_slot <$> slots t) sc [] fc true true (next_generation t) 0 in
  let? child := or_panic (rebuild_free_list child) in
  Ok (reclaim_if_unused child).

(** [binary_search_by_key] of the standard library on [(CapId, usize)] pairs:
    halve the range, then compare the remaining candidate. *)
Fixpoint search_loop (fuel : nat) (counts : list (Z * Z)) (id base size : Z) : Z :=
  match fuel with
  | O => base
  | S fuel =>
      if 1 <? size then
        let half := size / 2 in
        let mid := base + half in
        let base := if id <? (default (0, 0) (zget counts mid)).1 then base else mid in
        search_loop fuel counts id base (size - half)
      else base
  end.
Definition binary_search (counts : list (Z * Z)) (id : Z) : option Z :=
  if zlen counts =? 0 then None else
  let base := search_loop (length counts) counts id 0 (zlen counts) in
  if (default (0, 0) (zget counts base)).1 =? id then Some base else None.

Definition child_fd_count (counts : list (Z * Z)) (id : Z) : Z :=
  match binary_search counts id with
  | Some index => (default (0, 0) (zget counts index)).2
  | None => 0
  end.

(** One round of the index loop of [reconcile_refcounts_after_fork]; the
    result of the revocation is ignored. *)
Definition reconcile_slot (counts : list (Z * Z)) (t : CapTableInner) (idx : Z) : option CapTableInner :=
  s ← zget (slots t) idx;
  match s with
  | Some slot =>
      if is_fd_backed (object (entry slot)) then
        let id := from_parts idx (generation slot) in
        let n := child_fd_count counts id in
        if n =? 0 then
          match revoke_retaining_capacity t id with
          | (Panic, _) => None
          | (_, t) => Some t
          end
        else Some (store_refcount t idx slot n)
      else Some t
  | None => Some t
  end.

Fixpoint reconcile_loop (counts : list (Z * Z)) (t : CapTableInner) (ixs : list Z) : option CapTableInner :=
  match ixs with
  | [] => Some t
  | idx :: ixs => t ← reconcile_slot counts t idx; reconcile_loop counts t ixs
  end.

Definition reconcile_refcounts_after_fork (counts : list (Z * Z)) (t : CapTableInner) : option CapTableInner :=
  reclaim_if_unused <$> reconcile_loop counts t (seqZ 0 (zlen (slots t))).

(** * Exec *)
Definition is_cloexec (s : option CapSlot) : bool :=
  match s with Some slot => negb (inherits_on_exec (entry slot)) | None => false end.

(** [None] when no slot is left to revoke. *)
Definition take_cloexec_slot (t : CapTableInner) : res Empty_set (option (CapSlot * CapTableInner)) :=
  match list_find is_cloexec (slots t) with
  | None => Ok None
  | Some (index, s) =>
      match s with
      | None => Ok None
      | Some old_slot =>
          let index := Z.of_nat index in
          let? t := or_panic (push_free (set_slots t (zset (slots t) index None)) index) in
          Ok (Some (old_slot, t))
      end
  end.

(** The loop of [apply_cloexec]: each round removes one slot, so one round more
    than there are slots ends it. *)
Fixpoint cloexec_loop (fuel : nat) (t : CapTableInner) : res Empty_set CapTableInner :=
  match fuel with
  | O => Panic
  | S fuel =>
      if debug && (free_cap t <? zlen (slots t)) then Panic else
      let? r := take_cloexec_slot t in
      match r with
      | None => Ok t
      | Some (_, t) => cloexec_loop fuel t
      end
  end.

Definition apply_cloexec (t : CapTableInner) : res Empty_set CapTableInner :=
  let? t := cloexec_loop (S (length (slots t))) t in
  Ok (reclaim_if_unused t).
End operations.
