(* ===== verification/CapFacts.v ===== *)
(** The invariant of the capability table and what each operation does under
    it. *)

From Stdlib Require Import ZArith Lia.
From stdpp Require Import base list list_numbers numbers.
From S2P Require Import Prelude.
From S2P Require Import Machine.
From S2P Require Import Cap.

(** ** Identifiers *)
Definition is_u16 (i : Z) : Prop := 0 <= i < 2 ^ 16.
Definition is_u48 (g : Z) : Prop := 0 <= g < 2 ^ 48.

Lemma from_parts_add i g : is_u16 i -> is_u48 g -> from_parts i g = g * 2 ^ 16 + i.
Proof.
  intros Hi Hg. unfold from_parts, GEN_MASK. change 0x0000FFFFFFFFFFFF with (2 ^ 48 - 1).
  rewrite land_pow2_mod, Z.mod_small, Z.shiftl_mul_pow2 by (unfold is_u48 in *; lia).
  apply lor_pack; [lia|done].
Qed.

Lemma from_parts_index i g : is_u16 i -> is_u48 g -> cap_index (from_parts i g) = i.
Proof.
  intros Hi Hg. rewrite from_parts_add by done. unfold cap_index. change 0xFFFF with (2 ^ 16 - 1).
  rewrite land_pow2_mod, Z.add_comm, Z.mod_add by lia. by apply Z.mod_small.
Qed.

Lemma from_parts_generation i g : is_u16 i -> is_u48 g -> cap_generation (from_parts i g) = g.
Proof.
  intros Hi Hg. rewrite from_parts_add by done. unfold cap_generation.
  rewrite Z.shiftr_div_pow2, Z.div_add_l, Z.div_small by (done || lia). lia.
Qed.

Lemma cap_parts id : is_u64 id ->
  is_u16 (cap_index id) /\ is_u48 (cap_generation id) /\ from_parts (cap_index id) (cap_generation id) = id.
Proof.
  intros Hid. unfold is_u64, is_u16, is_u48 in *.
  assert (cap_index id = id mod 2 ^ 16) as Ei.
  { unfold cap_index. change 0xFFFF with (2 ^ 16 - 1). by rewrite land_pow2_mod by lia. }
  assert (cap_generation id = id / 2 ^ 16) as Eg by (unfold cap_generation; by rewrite Z.shiftr_div_pow2 by lia).
  pose proof (Z.mod_pos_bound id (2 ^ 16) ltac:(lia)). pose proof (Z.div_mod id (2 ^ 16) ltac:(lia)).
  rewrite from_parts_add; unfold is_u16, is_u48; rewrite ?Ei, ?Eg; lia.
Qed.

(** ** The invariant *)

(** [R] lists the reservations handed out and neither installed nor cancelled. *)
Record cap_wf (t : CapTableInner) (R : list (Z * Z)) : Prop := {
  cw_len : zlen (slots t) <= MAX_CAP_SLOTS;
  cw_scap : zlen (slots t) <= slots_cap t;
  cw_fcap : zlen (slots t) <= free_cap t;
  cw_nodup : NoDup (free t ++ R.*1);
  cw_free : forall i, i ∈ free t ++ R.*1 <-> zget (slots t) i = Some None;
  cw_gen : 1 <= next_generation t <= MAX_GENERATION;
  cw_slot : forall i s, zget (slots t) i = Some (Some s) -> 1 <= generation s < next_generation t;
  cw_res : forall i g, (i, g) ∈ R -> 1 <= g < next_generation t;
  cw_reserved : reserved_allocations t = zlen R;
}.

#[global] Instance cap_wf_perm : Proper (eq ==> (≡ₚ) ==> iff) cap_wf.
Proof.
  assert (forall t R R', R ≡ₚ R' -> cap_wf t R -> cap_wf t R') as H.
  { intros t R R' HR []. split; try done.
    - by rewrite <- HR.
    - intros i. by rewrite <- HR.
    - intros i g. rewrite <- HR. apply cw_res0.
    - unfold zlen in *. by rewrite <- HR. }
  intros t ? <- R R' HR. split; apply H; [done|by symmetry].
Qed.

(** The capability named by slot [i] and generation [g]. *)
Definition current (t : CapTableInner) (i g : Z) (e : CapEntry) : Prop :=
  zget (slots t) i = Some (Some (mkSlot g e)).

Definition same_caps (t t' : CapTableInner) : Prop := forall i g e, current t i g e <-> current t' i g e.
#[global] Instance same_caps_equiv : Equivalence same_caps.
Proof.
  split; [by intros t i g e| |].
  - intros t t' H i g e. symmetry. apply H.
  - intros t t' t'' H1 H2 i g e. etransitivity; [apply H1|apply H2].
Qed.
#[global] Instance current_proper : Proper (same_caps ==> eq ==> eq ==> eq ==> iff) current.
Proof. intros t t' H i ? <- g ? <- e ? <-. apply H. Qed.

Lemma current_unique t i g e g' e' : current t i g e -> current t i g' e' -> g = g' /\ e = e'.
Proof. unfold current. intros -> [=]. done. Qed.

Lemma zlen_nodup_le (l : list Z) n : 0 <= n -> NoDup l -> (forall i, i ∈ l -> 0 <= i < n) -> zlen l <= n.
Proof.
  intros Hn Hnd Hr. assert (l ⊆+ seqZ 0 n) as Hs.
  { apply NoDup_submseteq; [done|]. intros i Hi. apply elem_of_seqZ. specialize (Hr i Hi). lia. }
  apply submseteq_length in Hs. rewrite length_seqZ in Hs. unfold zlen. lia.
Qed.

Section wf.
Context {t : CapTableInner} {R : list (Z * Z)} (Hwf : cap_wf t R).

Lemma wf_free_vacant i : i ∈ free t -> zget (slots t) i = Some None.
Proof using Hwf. intros Hi. apply (cw_free _ _ Hwf). apply elem_of_app. by left. Qed.

Lemma wf_indices i : i ∈ free t ++ R.*1 -> 0 <= i < zlen (slots t).
Proof using Hwf. intros Hi%(cw_free _ _ Hwf). by apply zget_Some_range in Hi. Qed.

(** A push of an index that is not in the list fits the capacity. *)
Lemma push_fits i : 0 <= i < zlen (slots t) -> i ∉ free t -> zlen (free t) < free_cap t.
Proof using Hwf.
  intros Hi Hni. pose proof (cw_fcap _ _ Hwf). pose proof (cw_nodup _ _ Hwf) as Hnd.
  enough (zlen (i :: free t) <= zlen (slots t)) by (unfold zlen in *; simpl in *; lia).
  apply zlen_nodup_le; [unfold zlen; lia| |].
  - apply list.NoDup_cons. split; [done|]. apply list.NoDup_app in Hnd; apply Hnd.
  - intros j [->|Hj]%elem_of_cons; [done|]. apply wf_indices, elem_of_app. by left.
Qed.

Lemma wf_reserved_bound : 0 <= reserved_allocations t <= MAX_CAP_SLOTS.
Proof using Hwf.
  rewrite (cw_reserved _ _ Hwf). pose proof (cw_len _ _ Hwf). pose proof (cw_nodup _ _ Hwf) as Hnd.
  enough (zlen R.*1 <= zlen (slots t)) by (unfold zlen in *; rewrite length_fmap in *; lia).
  apply zlen_nodup_le; [unfold zlen; lia|apply list.NoDup_app in Hnd; apply Hnd|].
  intros j Hj. apply wf_indices, elem_of_app. by right.
Qed.

Lemma existsb_occupied : existsb occupied (slots t) = false <-> forall i g e, ~ current t i g e.
Proof using.
  rewrite existsb_false_iff. split.
  - intros Hno i g e Hc. assert (Some (mkSlot g e) ∈ slots t) as Hin by (by eapply zget_in).
    specialize (Hno _ Hin). by apply bool_decide_eq_false in Hno; destruct Hno.
  - intros Hno s Hs. apply in_zget in Hs as [i Hi]. apply bool_decide_eq_false. intros [[g e] ->].
    by eapply Hno.
Qed.

Lemma reclaim_same : same_caps t (reclaim_if_unused t).
Proof using.
  intros i g e. unfold reclaim_if_unused. destruct (negb _); [done|]. cbn [orb].
  destruct (existsb occupied (slots t)) eqn:E; [done|]. rewrite existsb_occupied in E.
  split; [by intros ?%E|]. unfold current. simpl. unfold zget. by case_match.
Qed.

Lemma reclaim_wf : cap_wf (reclaim_if_unused t) R.
Proof using Hwf.
  unfold reclaim_if_unused. rewrite (cw_reserved _ _ Hwf).
  destruct (Z.eqb_spec (zlen R) 0) as [Hz|]; [|done]. cbn [negb orb].
  destruct (existsb occupied (slots t)) eqn:E; [done|].
  destruct R as [|x R']; [|unfold zlen in Hz; simpl in Hz; lia].
  pose proof (cw_gen _ _ Hwf). split; simpl; try done; try (unfold zlen; simpl; lia).
  - apply NoDup_nil_2.
  - intros i. split; [by intros ?%elem_of_nil|]. unfold zget. by case_match.
  - intros i s. unfold zget. by case_match.
  - by intros i g ?%elem_of_nil.
Qed.
End wf.

(** ** Reservations *)
Section reservations.
Context {heap : CapHeap} {laws : CapHeapLaws heap}.

Lemma same_caps_slots t t' : slots t = slots t' -> same_caps t t'.
Proof using. intros H i g e. unfold current. by rewrite H. Qed.

Lemma zget_snoc {A} (l : list A) x i : 
  zget (l ++ [x]) i = if i =? zlen l then Some x else zget l i.
Proof using.
  unfold zget, zlen. destruct (Z.ltb_spec i 0); [by destruct (Z.eqb_spec i (Z.of_nat (length l))); [lia|]|].
  destruct (Z.eqb_spec i (Z.of_nat (length l))) as [->|].
  - rewrite Nat2Z.id. apply list_lookup_middle. done.
  - destruct (decide (i < Z.of_nat (length l))).
    + apply lookup_app_l. lia.
    + rewrite lookup_ge_None_2, (lookup_ge_None_2 l); [done|lia|rewrite length_app; simpl; lia].
Qed.

(** The growth branch: one more vacant slot, or the table as it was. *)
Lemma prepare_growth_ge ns nf c sp fp :
  prepare_growth ns nf c = Some (sp, fp) ->
  (match sp with Some c' => c <= c' | None => ns = false end) /\
  (match fp with Some c' => c <= c' | None => nf = false end).
Proof using laws.
  unfold prepare_growth. destruct ns, nf.
  - destruct (prepare_slots c) eqn:E1; [|done]. simpl. destruct (prepare_free c) eqn:E2; [|done].
    intros [= <- <-]. split; [by apply prepare_slots_ge|by apply prepare_free_ge].
  - destruct (prepare_slots c) eqn:E1; [|done]. intros [= <- <-]. split; [by apply prepare_slots_ge|done].
  - destruct (prepare_free c) eqn:E2; [|done]. intros [= <- <-]. split; [done|by apply prepare_free_ge].
  - by intros [= <- <-].
Qed.

Lemma growth_target_ge c n : n <= cap_growth_target c n.
Proof using. unfold cap_growth_target. lia. Qed.

Lemma prepare_growth_None ns nf c : prepare_growth ns nf c = None -> prepare_slots c = None \/ prepare_free c = None.
Proof using.
  unfold prepare_growth. destruct (prepare_slots c); [|by left]. destruct (prepare_free c); [|by right]. by destruct ns, nf.
Qed.

(** What can stop the table from growing: its limit, or a heap that refuses even
    one more slot *)
Definition growth_error (t : CapTableInner) (e : CapError) : Prop :=
  (e = TableFull /\ MAX_CAP_SLOTS <= zlen (slots t)) \/
  (e = OutOfMemory /\ (prepare_slots (zlen (slots t) + 1) = None \/ prepare_free (zlen (slots t) + 1) = None)).

Lemma grow_spec t R :
  cap_wf t R -> free t = [] ->
  (exists e, grow t = Err e /\ growth_error t e) \/
  (exists t', grow t = Ok (zlen (slots t), t') /\ slots t' = slots t ++ [None] /\ free t' = [] /\
     zlen (slots t') <= slots_cap t' /\ zlen (slots t') <= free_cap t' /\ zlen (slots t') <= MAX_CAP_SLOTS /\
     next_generation t' = next_generation t /\ reserved_allocations t' = reserved_allocations t).
Proof using laws.
  intros Hwf Hf. assert (zlen (free t) = 0) as Hf0 by (by rewrite Hf).
  pose proof (cw_scap _ _ Hwf). pose proof (cw_fcap _ _ Hwf). pose proof (cw_len _ _ Hwf).
  assert (0 <= zlen (slots t)) by (unfold zlen; lia).
  assert (zlen (slots t ++ [None]) = zlen (slots t) + 1) as Hlen by (unfold zlen; rewrite length_app; simpl; lia).
  unfold grow. destruct (Z.leb_spec MAX_CAP_SLOTS (zlen (slots t))); [left; eexists; split; [done|by left]|].
  rewrite checked_add_Some by (unfold usize_max, u64_max, MAX_CAP_SLOTS in *; lia). cbn [ok_or res_bind].
  set (n := zlen (slots t) + 1) in *. set (pref := cap_growth_target _ n).
  assert (n <= pref) by apply growth_target_ge.
  destruct (match prepare_growth _ _ pref with Some p => Ok p | None => _ end) as [[sp fp]|e|] eqn:Ep.
  - right. assert ((match sp with Some c' => n <= c' | None => n <= slots_cap t end) /\
        (match fp with Some c' => n <= c' | None => n <= free_cap t end)) as [Hsp Hfp].
    { destruct (prepare_growth _ _ pref) as [[sp' fp']|] eqn:E1.
      - injection Ep as -> ->. apply prepare_growth_ge in E1 as [E1 E2].
        destruct sp, fp; rewrite ?Z.ltb_ge in *; lia.
      - destruct (negb _); [|done]. destruct (prepare_growth _ _ n) as [[sp' fp']|] eqn:E2; [|done].
        injection Ep as -> ->. apply prepare_growth_ge in E2 as [E2 E3].
        destruct sp, fp; rewrite ?Z.ltb_ge in *; lia. }
    cbn [res_bind]. unfold install_slots_vec, install_free_vec.
    destruct sp as [sc|], fp as [fc|]; cbn [or_panic res_bind slots free slots_cap free_cap].
    all: repeat match goal with
      | |- context [?c <? zlen ?l] => destruct (Z.ltb_spec c (zlen l)); [lia|];
          cbn [or_panic res_bind slots free slots_cap free_cap]
      end.
    all: match goal with |- context [?a <=? ?b] => destruct (Z.leb_spec a b); [lia|] end.
    all: eexists; split; [done|]; unfold set_slots; simpl; rewrite ?Hlen; split_and!; done || lia.
  - left. exists e. split; [done|]. right. destruct (prepare_growth _ _ pref) eqn:E1; [done|].
    destruct (Z.eqb_spec pref n) as [E|E]; cbn [negb] in Ep.
    + injection Ep as <-. split; [done|]. rewrite E in E1. by eapply prepare_growth_None.
    + destruct (prepare_growth _ _ n) eqn:E2; [done|]. injection Ep as <-. split; [done|]. by eapply prepare_growth_None.
  - destruct (prepare_growth _ _ pref); [done|]. destruct (negb _); [|done].
    by destruct (prepare_growth _ _ n).
Qed.

(** The invariant after an index leaves the pool of vacant ones for [R]. *)
Lemma reserve_wf t t' R i :
  cap_wf t R -> next_generation t < MAX_GENERATION ->
  (forall j, zget (slots t') j = Some None <-> zget (slots t) j = Some None \/ j = i) ->
  (forall j s, zget (slots t') j = Some (Some s) <-> zget (slots t) j = Some (Some s)) ->
  (i :: free t') ++ R.*1 ≡ₚ free t ++ R.*1 \/ (free t' = free t /\ i ∉ free t ++ R.*1) ->
  zlen (slots t') <= MAX_CAP_SLOTS -> zlen (slots t') <= slots_cap t' -> zlen (slots t') <= free_cap t' ->
  next_generation t' = next_generation t + 1 -> reserved_allocations t' = reserved_allocations t + 1 ->
  cap_wf t' ((i, next_generation t) :: R).
Proof using.
  intros Hwf Hg Hvac Hocc Hfr Hl1 Hl2 Hl3 Hng Hres. pose proof (cw_gen _ _ Hwf).
  assert (NoDup ((i :: free t') ++ R.*1) /\ forall j, j ∈ (i :: free t') ++ R.*1 <-> zget (slots t') j = Some None) as [Hnd Hin].
  { destruct Hfr as [Hp|[Hp Hni]].
    - rewrite Hp. split; [apply Hwf|]. intros j. rewrite Hp, Hvac, <- (cw_free _ _ Hwf). split; [by left|].
      intros [?| ->]; [done|]. rewrite <- Hp. by left.
    - rewrite Hp. split; [cbn [app]; apply list.NoDup_cons; split; [done|apply Hwf]|].
      intros j. rewrite Hvac, <- (cw_free _ _ Hwf). simpl. rewrite elem_of_cons. tauto. }
  assert (free t' ++ i :: R.*1 ≡ₚ (i :: free t') ++ R.*1) as Hperm.
  { simpl. symmetry. apply Permutation_middle. }
  split; try done; cbn [fmap list_fmap fst].
  - by rewrite Hperm.
  - intros j. by rewrite Hperm, Hin.
  - lia.
  - intros j s Hj%Hocc. pose proof (cw_slot _ _ Hwf _ _ Hj). lia.
  - intros j g [[= -> ->]|Hj]%elem_of_cons; [lia|]. pose proof (cw_res _ _ Hwf _ _ Hj). lia.
  - rewrite Hres, (cw_reserved _ _ Hwf). unfold zlen. simpl. lia.
Qed.

Definition reserve_error (t : CapTableInner) (e : CapError) : Prop :=
  (e = GenerationExhausted /\ MAX_GENERATION <= next_generation t) \/ (free t = [] /\ growth_error t e).

Lemma reserve_allocation_spec t R :
  cap_wf t R ->
  (exists e, reserve_allocation t = (Err e, t) /\ reserve_error t e) \/
  (exists i t', reserve_allocation t = (Ok (i, next_generation t), t') /\
     cap_wf t' ((i, next_generation t) :: R) /\ same_caps t t' /\
     next_generation t' = next_generation t + 1 /\ next_generation t < MAX_GENERATION).
Proof using laws.
  intros Hwf. pose proof (cw_gen _ _ Hwf). pose proof (wf_reserved_bound Hwf).
  unfold reserve_allocation, reserve_error.
  destruct (Z.leb_spec MAX_GENERATION (next_generation t)); [left; eauto|].
  unfold MAX_GENERATION, MAX_CAP_SLOTS in *.
  rewrite checked_add_Some by (unfold usize_max, u64_max; lia).
  destruct (free t) as [|i rest] eqn:Ef.
  - destruct (grow_spec t R Hwf Ef) as [(e & -> & He)|(t1 & -> & Hs & Hfr & Hc1 & Hc2 & Hc3 & Hg1 & Hr1)];
      [left; eexists; split; [done|right; done]|].
    rewrite Hg1, checked_add_Some by (unfold usize_max, u64_max; lia).
    destruct (Z.eqb_spec (next_generation t + 1) 0); [lia|]. right. eexists _, _. split; [done|].
    split_and!; try done.
    + apply (reserve_wf t); simpl; try done.
      * intros j. rewrite Hs, zget_snoc. destruct (Z.eqb_spec j (zlen (slots t))) as [->|]; [|naive_solver].
        split; [by right|done].
      * intros j s. rewrite Hs, zget_snoc. destruct (Z.eqb_spec j (zlen (slots t))) as [->|]; [|done].
        split; [done|]. intros ?%zget_Some_range. lia.
      * right. rewrite Hfr, Ef. split; [done|]. intros Hin. apply elem_of_app in Hin as [Hin|Hin]; [by apply elem_of_nil in Hin|].
        assert (zlen (slots t) ∈ free t ++ R.*1) as Hi2 by (apply elem_of_app; by right).
        apply (wf_indices Hwf) in Hi2. lia.
    + intros j g e. unfold current. simpl. rewrite Hs, zget_snoc.
      destruct (Z.eqb_spec j (zlen (slots t))) as [->|]; [|done]. split; [|done]. intros ?%zget_Some_range. lia.
  - cbn [set_free next_generation]. rewrite checked_add_Some by (unfold usize_max, u64_max; lia).
    destruct (Z.eqb_spec (next_generation t + 1) 0); [lia|]. right. eexists _, _. split; [done|].
    split_and!; try done. apply (reserve_wf t); simpl; try done; try apply Hwf.
    + intros j. split; [by left|]. intros [?| ->]; [done|]. apply (wf_free_vacant Hwf). rewrite Ef. by left.
    + left. by rewrite Ef.
Qed.
End reservations.

Section slots.
Context {debug : bool}.

Lemma elem_existsb i l : existsb (Z.eqb i) l = true <-> i ∈ l.
Proof using.
  rewrite existsb_exists. setoid_rewrite <- list_elem_of_In. setoid_rewrite Z.eqb_eq.
  split; [by intros (x & ? & ->)|by exists i].
Qed.

Lemma reserved_intact t R i g :
  cap_wf t ((i, g) :: R) -> reservation_intact debug t i = true /\ zget (slots t) i = Some None /\ i ∉ free t.
Proof using.
  intros Hwf. assert (zget (slots t) i = Some None) as Hv.
  { apply (cw_free _ _ Hwf), elem_of_app. right. by left. }
  assert (i ∉ free t) as Hni.
  { pose proof (cw_nodup _ _ Hwf) as Hnd. apply list.NoDup_app in Hnd as (_ & Hd & _). intros Hi.
    apply (Hd i Hi). by left. }
  split_and!; try done. unfold reservation_intact. rewrite (cw_reserved _ _ Hwf).
  apply zget_Some_range in Hv as Hr. rewrite bool_decide_eq_true_2 by done.
  destruct (Z.eqb_spec (zlen ((i, g) :: R)) 0); [unfold zlen in *; simpl in *; lia|].
  destruct (Z.ltb_spec i (zlen (slots t))); [|lia]. cbn [negb andb].
  apply negb_true_iff, andb_false_iff. right. apply not_true_iff_false. by rewrite elem_existsb.
Qed.

(** Publishing a reservation adds exactly its capability. *)
Lemma install_reserved_spec t R i g e :
  cap_wf t ((i, g) :: R) ->
  exists t', install_reserved debug t i g e = Some (from_parts i g, t') /\ cap_wf t' R /\
    next_generation t' = next_generation t /\
    forall j h d, current t' j h d <-> (if decide (j = i) then h = g /\ d = e else current t j h d).
Proof using.
  intros Hwf. destruct (reserved_intact t R i g Hwf) as (Hi & Hv & Hni). unfold install_reserved. rewrite Hi.
  apply zget_Some_range in Hv as Hr. eexists; split; [done|].
  assert (forall j, zget (zset (slots t) i (Some (mkSlot g e))) j = if decide (j = i) then Some (Some (mkSlot g e)) else zget (slots t) j) as Hz.
  { intros j. destruct (decide (j = i)) as [->|]; [by apply zget_zset_eq|by apply zget_zset_ne]. }
  pose proof (cw_nodup _ _ Hwf) as Hnd. cbn [fmap list_fmap fst] in Hnd. rewrite <- Permutation_middle in Hnd.
  apply list.NoDup_cons in Hnd as [Hni' Hnd].
  split_and!; try done.
  - split; simpl; rewrite ?zlen_zset; try apply Hwf; try done.
    + intros j. rewrite Hz. destruct (decide (j = i)) as [->|Hne]; [done|].
      rewrite <- (cw_free _ _ Hwf). cbn [fmap list_fmap fst]. rewrite <- Permutation_middle, elem_of_cons. naive_solver.
    + intros j s. rewrite Hz. destruct (decide (j = i)) as [->|Hne]; [|apply Hwf].
      intros [= <-]. simpl. apply (cw_res _ _ Hwf i). by left.
    + intros j h Hj. apply (cw_res _ _ Hwf j). by right.
    + rewrite (cw_reserved _ _ Hwf). unfold zlen. simpl. lia.
  - intros j h d. unfold current. simpl. rewrite Hz. destruct (decide (j = i)); [|done]. naive_solver.
Qed.

(** Cancelling a reservation publishes nothing and keeps every capability. *)
Lemma cancel_reserved_spec t R i g :
  cap_wf t ((i, g) :: R) ->
  exists t', cancel_reserved debug t i = Some t' /\ cap_wf t' R /\ same_caps t t' /\
    next_generation t' = next_generation t.
Proof using.
  intros Hwf. destruct (reserved_intact t R i g Hwf) as (Hi & Hv & Hni). unfold cancel_reserved. rewrite Hi.
  apply zget_Some_range in Hv as Hr. pose proof (cw_fcap _ _ Hwf).
  destruct (Z.ltb_spec (free_cap t) (zlen (slots t))); [lia|]. rewrite andb_false_r.
  unfold push_free. pose proof (push_fits Hwf i Hr Hni).
  destruct (Z.ltb_spec (zlen (free t)) (free_cap t)); [|lia]. cbn [mbind option_bind].
  eexists; split; [done|]. set (t1 := set_reserved _ _).
  assert (cap_wf t1 R) as Hwf1.
  { split; simpl; try apply Hwf.
    - pose proof (cw_nodup _ _ Hwf) as Hnd. cbn [fmap list_fmap fst] in Hnd. by rewrite <- Permutation_middle in Hnd.
    - intros j. rewrite <- (cw_free _ _ Hwf). cbn [fmap list_fmap fst]. by rewrite <- Permutation_middle.
    - intros j h Hj. apply (cw_res _ _ Hwf j). by right.
    - rewrite (cw_reserved _ _ Hwf). unfold zlen. simpl. lia. }
  split_and!; [by apply reclaim_wf| |].
  - etransitivity; [|apply reclaim_same]. by apply same_caps_slots.
  - unfold reclaim_if_unused. by destruct (_ || _).
Qed.

(** Clearing an occupied slot. *)
Lemma vacate_spec t R i s :
  cap_wf t R -> zget (slots t) i = Some (Some s) ->
  exists t', push_free (set_slots t (zset (slots t) i None)) i = Some t' /\ cap_wf t' R /\
    slots t' = zset (slots t) i None /\ next_generation t' = next_generation t /\
    forall j h d, current t' j h d <-> j <> i /\ current t j h d.
Proof using.
  intros Hwf Hs. apply zget_Some_range in Hs as Hr.
  assert (i ∉ free t ++ R.*1) as Hni by (intros Hi%(cw_free _ _ Hwf); congruence).
  pose proof (push_fits Hwf i Hr ltac:(intros ?; apply Hni, elem_of_app; by left)).
  unfold push_free. cbn [set_slots free free_cap]. destruct (Z.ltb_spec (zlen (free t)) (free_cap t)); [|lia].
  assert (forall j, zget (zset (slots t) i None) j = if decide (j = i) then Some None else zget (slots t) j) as Hz.
  { intros j. destruct (decide (j = i)) as [->|]; [by apply zget_zset_eq|by apply zget_zset_ne]. }
  eexists; split; [done|]. split_and!; try done.
  - split; simpl; rewrite ?zlen_zset; try apply Hwf.
    + apply list.NoDup_cons. split; [done|apply Hwf].
    + intros j. rewrite Hz, elem_of_cons, (cw_free _ _ Hwf). case_decide; naive_solver.
    + intros j s'. rewrite Hz. case_decide; [done|apply Hwf].
  - intros j h d. unfold current. simpl. rewrite Hz. case_decide; naive_solver.
Qed.

(** ** Lookup and revocation *)
Lemma find_slot_spec t R id :
  cap_wf t R -> is_u64 id ->
  (exists e, current t (cap_index id) (cap_generation id) e /\
     find_slot t id = Ok (cap_index id, mkSlot (cap_generation id) e)) \/
  ((forall e, ~ current t (cap_index id) (cap_generation id) e) /\ find_slot t id = Err InvalidCapId).
Proof using.
  intros Hwf Hid. destruct (cap_parts id Hid) as (Hi & Hg & _). unfold find_slot, cap_is_valid, current.
  destruct (Z.ltb_spec 0 (cap_generation id)); cbn [negb].
  2:{ right. split; [|done]. intros e Hc. pose proof (cw_slot _ _ Hwf _ _ Hc). simpl in *. lia. }
  destruct (Z.leb_spec (zlen (slots t)) (cap_index id)).
  { right. split; [|done]. intros e Hc%zget_Some_range. lia. }
  destruct (zget (slots t) (cap_index id)) as [[[g e]|]|] eqn:E; [|right; split; [|done]; congruence..].
  cbn [generation]. destruct (Z.eqb_spec g (cap_generation id)) as [->|].
  - left. by exists e.
  - right. split; [|done]. intros ? [=]. done.
Qed.

Lemma lookup_spec t R id :
  cap_wf t R -> is_u64 id ->
  (exists e, current t (cap_index id) (cap_generation id) e /\ lookup t id = Ok e) \/
  ((forall e, ~ current t (cap_index id) (cap_generation id) e) /\ lookup t id = Err InvalidCapId).
Proof using.
  intros Hwf Hid. unfold lookup. destruct (find_slot_spec t R id Hwf Hid) as [(e & Hc & ->)|(Hno & ->)]; eauto.
Qed.

(** Looking up sees only the capabilities. *)
Lemma lookup_same t t' R R' id :
  cap_wf t R -> cap_wf t' R' -> is_u64 id -> 
  (forall e, current t (cap_index id) (cap_generation id) e <-> current t' (cap_index id) (cap_generation id) e) ->
  lookup t id = lookup t' id.
Proof using.
  intros Hwf Hwf' Hid Hs. destruct (lookup_spec t R id Hwf Hid) as [(e & Hc & ->)|(Hno & ->)],
    (lookup_spec t' R' id Hwf' Hid) as [(e' & Hc' & ->)|(Hno' & ->)]; try done.
  - f_equal. apply Hs in Hc. by destruct (current_unique _ _ _ _ _ _ Hc Hc').
  - apply Hs in Hc. by destruct (Hno' e).
  - apply Hs in Hc'. by destruct (Hno e').
Qed.

Lemma revoke_retaining_spec t R id :
  cap_wf t R -> is_u64 id ->
  (exists e t', current t (cap_index id) (cap_generation id) e /\
     revoke_retaining_capacity debug t id = (Ok e, t') /\ cap_wf t' R /\
     slots t' = zset (slots t) (cap_index id) None /\ next_generation t' = next_generation t /\
     forall j h d, current t' j h d <-> j <> cap_index id /\ current t j h d) \/
  ((forall e, ~ current t (cap_index id) (cap_generation id) e) /\
     revoke_retaining_capacity debug t id = (Err InvalidCapId, t)).
Proof using.
  intros Hwf Hid. unfold revoke_retaining_capacity.
  destruct (find_slot_spec t R id Hwf Hid) as [(e & Hc & ->)|(Hno & ->)]; [|by right]. left.
  destruct (vacate_spec t R _ _ Hwf Hc) as (t' & Hp & Hwf' & Hs' & Hg' & Hcur).
  cbn [set_slots slots free_cap]. rewrite zlen_zset. pose proof (cw_fcap _ _ Hwf).
  destruct (Z.ltb_spec (free_cap t) (zlen (slots t))); [lia|]. rewrite andb_false_r.
  fold (set_slots t (zset (slots t) (cap_index id) None)). rewrite Hp. exists e, t'. by split_and!.
Qed.

Lemma revoke_spec t R id :
  cap_wf t R -> is_u64 id ->
  (exists e t', current t (cap_index id) (cap_generation id) e /\ revoke debug t id = (Ok e, t') /\
     cap_wf t' R /\ next_generation t' = next_generation t /\
     forall j h d, current t' j h d <-> j <> cap_index id /\ current t j h d) \/
  ((forall e, ~ current t (cap_index id) (cap_generation id) e) /\ revoke debug t id = (Err InvalidCapId, t)).
Proof using.
  intros Hwf Hid. unfold revoke.
  destruct (revoke_retaining_spec t R id Hwf Hid) as [(e & t' & Hc & -> & Hwf' & _ & Hg & Hcur)|(Hno & ->)]; [|by right].
  left. exists e, (reclaim_if_unused t'). split_and!; try done.
  - by apply reclaim_wf.
  - rewrite <- Hg. unfold reclaim_if_unused. by destruct (_ || _).
  - intros j h d. by rewrite <- (reclaim_same (t := t')), Hcur.
Qed.

(** ** Allocation and delegation *)
Lemma allocate_spec `{heap : CapHeap} {laws : CapHeapLaws heap} t R e :
  cap_wf t R ->
  (exists err, allocate debug t e = (Err err, t) /\ reserve_error t err) \/
  (exists i t', allocate debug t e = (Ok (from_parts i (next_generation t)), t') /\ cap_wf t' R /\
     0 <= i < MAX_CAP_SLOTS /\ next_generation t < MAX_GENERATION /\
     next_generation t' = next_generation t + 1 /\ (forall h d, ~ current t i h d) /\
     forall j h d, current t' j h d <->
       (if decide (j = i) then h = next_generation t /\ d = e else current t j h d)).
Proof using.
  intros Hwf. unfold allocate.
  destruct (reserve_allocation_spec t R Hwf) as [(err & -> & He)|(i & t1 & -> & Hwf1 & Hs1 & Hg1 & Hlt)]; [by left; exists err|].
  destruct (install_reserved_spec t1 R i _ e Hwf1) as (t' & -> & Hwf' & Hg' & Hcur). right.
  destruct (reserved_intact t1 R i _ Hwf1) as (_ & Hv & _). apply zget_Some_range in Hv as Hr.
  pose proof (cw_len _ _ Hwf1). exists i, t'. split_and!; try done; try lia.
  - intros h d. rewrite Hs1. unfold current. by rewrite Hv.
  - intros j h d. rewrite Hcur. case_decide; [done|]. by rewrite Hs1.
Qed.

(** ** Reference counts *)
Lemma store_refcount_spec t R i g e n :
  cap_wf t R -> current t i g e ->
  cap_wf (store_refcount t i (mkSlot g e) n) R /\
  forall j h d, current (store_refcount t i (mkSlot g e) n) j h d <->
    (if decide (j = i) then h = g /\ d = set_refcount e n else current t j h d).
Proof using.
  intros Hwf Hc. apply zget_Some_range in Hc as Hr. unfold store_refcount. cbn [generation entry].
  set (x := Some (mkSlot g (set_refcount e n))).
  assert (forall j, zget (zset (slots t) i x) j = if decide (j = i) then Some x else zget (slots t) j) as Hz.
  { intros j. destruct (decide (j = i)) as [->|]; [by apply zget_zset_eq|by apply zget_zset_ne]. }
  split.
  - split; simpl; rewrite ?zlen_zset; try apply Hwf.
    + intros j. rewrite Hz. case_decide as Hj; [|apply Hwf]. subst j.
      rewrite (cw_free _ _ Hwf), Hc. done.
    + intros j s. rewrite Hz. case_decide as Hj; [|apply Hwf]. intros [= <-]. apply (cw_slot _ _ Hwf _ _ Hc).
  - intros j h d. unfold current. simpl. rewrite Hz. subst x. case_decide; naive_solver.
Qed.
End slots.

(** ** Exec *)
Section exec.
Context {debug : bool}.

Definition cloexec_left (t : CapTableInner) : nat := length (filter (fun s => Is_true (is_cloexec s)) (slots t)).

Lemma take_cloexec_spec t R :
  cap_wf t R ->
  (take_cloexec_slot t = Ok None /\ forall i g e, current t i g e -> inherits_on_exec e = true) \/
  (exists i g e t', take_cloexec_slot t = Ok (Some (mkSlot g e, t')) /\ current t i g e /\
     inherits_on_exec e = false /\ cap_wf t' R /\ next_generation t' = next_generation t /\
     (cloexec_left t' < cloexec_left t)%nat /\
     forall j h d, current t' j h d <-> j <> i /\ current t j h d).
Proof using.
  intros Hwf. unfold take_cloexec_slot. destruct (list_find is_cloexec (slots t)) as [[n s]|] eqn:El.
  - apply list_find_Some in El as (Hn & Hs & _). destruct s as [[g e]|]; [|done]. right.
    assert (zget (slots t) (Z.of_nat n) = Some (Some (mkSlot g e))) as Hc.
    { unfold zget. destruct (Z.ltb_spec (Z.of_nat n) 0); [lia|]. by rewrite Nat2Z.id. }
    destruct (vacate_spec t R _ _ Hwf Hc) as (t' & Hp & Hwf' & Hs' & Hg' & Hcur).
    exists (Z.of_nat n), g, e, t'. rewrite Hp. split_and!; try done.
    + simpl in Hs. by destruct (inherits_on_exec e).
    + unfold cloexec_left. rewrite Hs'. unfold zset. destruct (Z.ltb_spec (Z.of_nat n) 0); [lia|]. rewrite Nat2Z.id.
      apply lookup_lt_Some in Hn as Hlt. rewrite insert_take_drop by done.
      rewrite <- (take_drop_middle _ _ _ Hn) at 3. rewrite !list.filter_app, !length_app, filter_cons_False by auto.
      rewrite filter_cons_True by done. simpl. lia.
  - left. split; [done|]. intros i g e Hc. apply list_find_None in El. rewrite list.Forall_forall in El.
    apply zget_in in Hc as Hin. specialize (El _ Hin). simpl in El. by destruct (inherits_on_exec e).
Qed.

Lemma cloexec_loop_spec fuel : forall t R,
  cap_wf t R -> (cloexec_left t < fuel)%nat ->
  exists t', cloexec_loop debug fuel t = Ok t' /\ cap_wf t' R /\ next_generation t' = next_generation t /\
    forall j h d, current t' j h d <-> current t j h d /\ inherits_on_exec d = true.
Proof using.
  induction fuel as [|fuel IH]; intros t R Hwf Hfuel; [lia|]. cbn [cloexec_loop].
  pose proof (cw_fcap _ _ Hwf). destruct (Z.ltb_spec (free_cap t) (zlen (slots t))); [lia|]. rewrite andb_false_r.
  destruct (take_cloexec_spec t R Hwf) as [[-> Hall]|(i & g & e & t1 & -> & Hc & He & Hwf1 & Hg1 & Hlt & Hcur)]; cbn [res_bind].
  - exists t. split_and!; try done. intros j h d. naive_solver.
  - destruct (IH t1 R Hwf1 ltac:(lia)) as (t' & -> & Hwf' & Hg' & Hcur'). exists t'. split_and!; try done; [congruence|].
    intros j h d. rewrite Hcur', Hcur. split; [naive_solver|]. intros [Hd Hi]. split_and!; try done.
    intros ->. destruct (current_unique _ _ _ _ _ _ Hc Hd) as [-> ->]. congruence.
Qed.

Lemma apply_cloexec_spec t R :
  cap_wf t R ->
  exists t', apply_cloexec debug t = Ok t' /\ cap_wf t' R /\ next_generation t' = next_generation t /\
    forall j h d, current t' j h d <-> current t j h d /\ inherits_on_exec d = true.
Proof using.
  intros Hwf. unfold apply_cloexec.
  destruct (cloexec_loop_spec (S (length (slots t))) t R Hwf) as (t1 & -> & Hwf1 & Hg1 & Hcur1).
  { unfold cloexec_left. pose proof (list.length_filter (fun s => Is_true (is_cloexec s)) (slots t)). lia. }
  cbn [res_bind]. eexists; split; [done|]. split_and!; [by apply reclaim_wf| |].
  - rewrite <- Hg1. unfold reclaim_if_unused. by destruct (_ || _).
  - intros j h d. by rewrite <- (reclaim_same (t := t1)), Hcur1.
Qed.
End exec.

(** ** Fork *)

(** The vacant indices of a slot vector, counted from [idx]. *)
Fixpoint vacants (idx : Z) (ss : list (option CapSlot)) : list Z :=
  match ss with
  | [] => []
  | Some _ :: ss => vacants (idx + 1) ss
  | None :: ss => idx :: vacants (idx + 1) ss
  end.

Lemma zget_cons {A} (x : A) l i : zget (x :: l) i = if i =? 0 then Some x else zget l (i - 1).
Proof.
  unfold zget. destruct (Z.eqb_spec i 0) as [->|]; [done|].
  destruct (Z.ltb_spec i 0), (Z.ltb_spec (i - 1) 0); try done; try lia.
  replace (Z.to_nat i) with (S (Z.to_nat (i - 1))) by lia. done.
Qed.

Lemma vacants_spec ss : forall idx i, i ∈ vacants idx ss <-> zget ss (i - idx) = Some None.
Proof.
  induction ss as [|[s|] ss IH]; intros idx i; cbn [vacants].
  - split; [by intros ?%elem_of_nil|]. unfold zget. by case_match.
  - rewrite IH, zget_cons. replace (i - (idx + 1)) with (i - idx - 1) by lia.
    destruct (Z.eqb_spec (i - idx) 0); [|done]. replace (i - idx - 1) with (-1) by lia. by unfold zget.
  - rewrite elem_of_cons, IH, zget_cons. replace (i - (idx + 1)) with (i - idx - 1) by lia.
    destruct (Z.eqb_spec (i - idx) 0) as [E|E].
    + replace i with idx by lia. split; [done|by left].
    + split; [intros [->|?]; [lia|done]|by right].
Qed.

Lemma vacants_nodup ss : forall idx, NoDup (vacants idx ss).
Proof.
  induction ss as [|[s|] ss IH]; intros idx; cbn [vacants]; [apply NoDup_nil_2|apply IH|].
  apply list.NoDup_cons. split; [|apply IH]. rewrite vacants_spec. intros Hx%zget_Some_range. lia.
Qed.

Lemma push_vacant_spec ss : forall t idx,
  zlen (free t) + zlen ss <= free_cap t ->
  push_vacant t idx ss = Some (set_free t (reverse (vacants idx ss) ++ free t)).
Proof.
  induction ss as [|[s|] ss IH]; intros t idx Hc; cbn [push_vacant vacants].
  - by destruct t.
  - rewrite zlen_cons in Hc. apply IH. lia.
  - rewrite zlen_cons in Hc. assert (0 <= zlen ss) by (unfold zlen; lia).
    unfold push_free. destruct (Z.ltb_spec (zlen (free t)) (free_cap t)); [|lia]. cbn [mbind option_bind].
    rewrite IH; cbn [set_free free free_cap]; [|rewrite zlen_cons; lia].
    rewrite reverse_cons, <- app_assoc. done.
Qed.

Lemma try_clone_for_fork_spec `{heap : CapHeap} {laws : CapHeapLaws heap} admits t R :
  cap_wf t R ->
  try_clone_for_fork admits t = Err tt \/
  (exists child, try_clone_for_fork admits t = Ok child /\ cap_wf child [] /\
     next_generation child = next_generation t /\
     forall i g e, current child i g e <-> current t i g e /\ inherits_on_fork e = true).
Proof.
  intros Hwf. unfold try_clone_for_fork. pose proof (cw_len _ _ Hwf).
  rewrite Z.min_l by done. destruct admits; [|by left]. cbn [negb].
  destruct (prepare_slots _) as [sc|] eqn:Es; [|by left]. apply prepare_slots_ge in Es. cbn [ok_or res_bind].
  destruct (prepare_free _) as [fc|] eqn:Ef; [|by left]. apply prepare_free_ge in Ef. cbn [ok_or res_bind].
  destruct (Z.ltb_spec (zlen (slots t)) (zlen (slots t))); [lia|]. right.
  assert (zlen (inherit_slot <$> slots t) = zlen (slots t)) as Hlen by (unfold zlen; by rewrite length_fmap).
  unfold rebuild_free_list. cbn [set_free slots]. rewrite push_vacant_spec; cbn [free free_cap set_free].
  2:{ rewrite Hlen. unfold zlen in *. simpl. lia. }
  cbn [or_panic res_bind]. rewrite app_nil_r. eexists; split; [done|]. set (c := set_free _ (reverse _)).
  assert (forall i, zget (slots c) i = inherit_slot <$> zget (slots t) i) as Hz.
  { intros i. subst c. simpl. unfold zget. case_match; [done|]. apply list_lookup_fmap. }
  assert (forall i g e, current c i g e <-> current t i g e /\ inherits_on_fork e = true) as Hcur.
  { intros i g e. unfold current. rewrite Hz. destruct (zget (slots t) i) as [[[g' e']|]|]; cbn [fmap option_fmap option_map inherit_slot entry]; [|naive_solver..].
    destruct (inherits_on_fork e') eqn:E; [|split; [done|intros [[= -> ->] ?]; congruence]]. split; [intros [= -> ->]; done|intros [[= -> ->] _]; done]. }
  assert (cap_wf c []) as Hwfc.
  { split; subst c; cbn [set_free slots slots_cap free free_cap next_generation reserved_allocations fmap list_fmap]; rewrite ?Hlen, ?app_nil_r; try done; try apply Hwf.
    - rewrite reverse_Permutation. apply vacants_nodup.
    - intros i. rewrite elem_of_reverse, vacants_spec. by replace (i - 0) with i by lia.
    - intros i [g e] [Hs _]%Hcur. apply (cw_slot _ _ Hwf _ _ Hs).
    - by intros i g ?%elem_of_nil. }
  split_and!; [by apply reclaim_wf|unfold reclaim_if_unused; by destruct (_ || _)|].
  intros i g e. by rewrite <- (reclaim_same (t := c)), Hcur.
Qed.

(** ** The histogram search *)
Section search.
Context (counts : list (Z * Z)).
Definition key (i : Z) : Z := (default (0, 0) (zget counts i)).1.

(** Strictly increasing keys. *)
Definition sorted_counts : Prop := forall i j, 0 <= i < j -> j < zlen counts -> key i < key j.

Lemma search_loop_spec fuel : forall base size id p,
  sorted_counts -> 0 <= base -> 0 < size -> base + size <= zlen counts -> size <= Z.of_nat fuel ->
  base <= p < base + size -> key p = id -> search_loop fuel counts id base size = p.
Proof.
  induction fuel as [|fuel IH]; intros base size id p Hs Hb Hsz Hr Hf Hp Hk; [lia|]. cbn [search_loop].
  destruct (Z.ltb_spec 1 size); [|lia].
  assert (0 < size / 2 < size) by (split; [apply Z.div_str_pos; lia|apply Z.div_lt; lia]).
  change (default (0, 0) (zget counts (base + size / 2))).1 with (key (base + size / 2)).
  destruct (Z.ltb_spec id (key (base + size / 2))).
  - apply IH; try done; try lia.
    destruct (decide (p < base + size / 2)); [|exfalso].
    + pose proof (Z.mul_div_le size 2 ltac:(lia)). lia.
    + destruct (decide (p = base + size / 2)) as [->|]; [lia|].
      pose proof (Hs (base + size / 2) p ltac:(lia) ltac:(lia)). lia.
  - apply IH; try done; try lia.
    destruct (decide (base + size / 2 <= p)); [lia|].
    pose proof (Hs p (base + size / 2) ltac:(lia) ltac:(lia)). lia.
Qed.

Lemma search_loop_range fuel : forall base size id,
  0 <= base -> 0 < size -> base + size <= zlen counts ->
  0 <= search_loop fuel counts id base size < zlen counts.
Proof.
  induction fuel as [|fuel IH]; intros base size id Hb Hsz Hr; cbn [search_loop]; [lia|].
  destruct (Z.ltb_spec 1 size); [|lia].
  assert (0 < size / 2 < size) by (split; [apply Z.div_str_pos; lia|apply Z.div_lt; lia]).
  apply IH; [|lia|]; case_match; lia.
Qed.

(** The search finds the count recorded for an identifier, and zero for one
    that is not recorded. *)
Lemma child_fd_count_found id n :
  sorted_counts -> (id, n) ∈ counts -> child_fd_count counts id = n.
Proof.
  intros Hs Hin. apply in_zget in Hin as [p Hp]. apply zget_Some_range in Hp as Hr.
  unfold child_fd_count, binary_search. destruct (Z.eqb_spec (zlen counts) 0); [lia|].
  rewrite (search_loop_spec _ 0 (zlen counts) id p); try done; try lia; [|unfold key; by rewrite Hp].
  rewrite Hp. simpl. rewrite Z.eqb_refl. by rewrite Hp.
Qed.

Lemma child_fd_count_absent id : id ∉ counts.*1 -> child_fd_count counts id = 0.
Proof.
  intros Hni. unfold child_fd_count, binary_search. destruct (Z.eqb_spec (zlen counts) 0); [done|].
  assert (0 <= zlen counts) by (unfold zlen; lia).
  pose proof (search_loop_range (length counts) 0 (zlen counts) id ltac:(lia) ltac:(lia) ltac:(lia)) as Hr.
  destruct (zget_range counts _ Hr) as [[k m] Hp]. rewrite Hp. simpl.
  destruct (Z.eqb_spec k id) as [->|]; [|done]. exfalso. apply Hni, list_elem_of_fmap. exists (id, m).
  split; [done|]. by eapply zget_in.
Qed.
End search.

(** ** Reconciliation after fork *)
Section reconcile.
Context {debug : bool} (counts : list (Z * Z)).

(** What reconciliation makes of capability [(i, g)]: an fd-backed one gets the
    child's count and is dropped when that is zero, any other is untouched. *)
Definition reconciled (i g : Z) (e e' : CapEntry) : Prop :=
  if is_fd_backed (object e) then
    child_fd_count counts (from_parts i g) <> 0 /\ e' = set_refcount e (child_fd_count counts (from_parts i g))
  else e' = e.

Lemma wf_current_id t R i g e :
  cap_wf t R -> current t i g e ->
  is_u64 (from_parts i g) /\ cap_index (from_parts i g) = i /\ cap_generation (from_parts i g) = g.
Proof using.
  intros Hwf Hc. apply zget_Some_range in Hc as Hr. pose proof (cw_slot _ _ Hwf _ _ Hc) as Hg. simpl in Hg.
  pose proof (cw_len _ _ Hwf). pose proof (cw_gen _ _ Hwf). unfold MAX_CAP_SLOTS, MAX_GENERATION in *.
  assert (is_u16 i) by (unfold is_u16; lia). assert (is_u48 g) by (unfold is_u48; lia).
  split_and!; [|by apply from_parts_index|by apply from_parts_generation].
  rewrite from_parts_add by done. unfold is_u64, is_u16, is_u48 in *. lia.
Qed.

Lemma reconcile_slot_spec t R idx :
  cap_wf t R -> 0 <= idx < zlen (slots t) ->
  exists t', reconcile_slot debug counts t idx = Some t' /\ cap_wf t' R /\ zlen (slots t') = zlen (slots t) /\
    next_generation t' = next_generation t /\
    forall j h d, current t' j h d <->
      (if decide (j = idx) then exists d0, current t j h d0 /\ reconciled j h d0 d else current t j h d).
Proof using.
  intros Hwf Hidx. unfold reconcile_slot. destruct (zget_range _ _ Hidx) as [s Hs]. rewrite Hs. cbn [mbind option_bind].
  destruct s as [[g e]|].
  2:{ exists t. split_and!; try done. intros j h d. case_decide as E; [|done]. subst j. unfold current. rewrite Hs.
      split; [done|]. by intros (? & ? & _). }
  cbn [entry generation]. destruct (wf_current_id t R idx g e Hwf Hs) as (Hid & Hi & Hg).
  destruct (is_fd_backed (object e)) eqn:Efd.
  2:{ exists t. split_and!; try done. intros j h d. case_decide as E; [|done]. subst j. split.
      - intros Hc. exists d. split; [done|]. destruct (current_unique _ _ _ _ _ _ Hs Hc) as [<- <-].
        unfold reconciled. by rewrite Efd.
      - intros (d0 & Hc & Hr). destruct (current_unique _ _ _ _ _ _ Hs Hc) as [<- <-].
        unfold reconciled in Hr. rewrite Efd in Hr. by subst d. }
  destruct (Z.eqb_spec (child_fd_count counts (from_parts idx g)) 0) as [Hz|Hnz].
  - destruct (revoke_retaining_spec (debug := debug) t R _ Hwf Hid) as [(e' & t' & Hc & -> & Hwf' & Hsl & Hng & Hcur)|(Hno & _)].
    2:{ exfalso. eapply Hno. rewrite Hi, Hg. exact Hs. }
    exists t'. split_and!; try done; [by rewrite Hsl, zlen_zset|]. intros j h d. rewrite Hcur, Hi. case_decide as E; [|naive_solver].
    subst j. split; [naive_solver|]. intros (d0 & Hc0 & Hr). exfalso.
    destruct (current_unique _ _ _ _ _ _ Hs Hc0) as [<- <-]. unfold reconciled in Hr. rewrite Efd in Hr. by destruct Hr.
  - destruct (store_refcount_spec t R idx g e (child_fd_count counts (from_parts idx g)) Hwf Hs) as [Hwf' Hcur].
    eexists; split; [done|]. split_and!; try done; [unfold store_refcount; simpl; by rewrite zlen_zset|].
    intros j h d. rewrite Hcur. case_decide as E; [|done]. subst j. split.
    + intros [-> ->]. exists e. split; [done|]. unfold reconciled. by rewrite Efd.
    + intros (d0 & Hc0 & Hr). destruct (current_unique _ _ _ _ _ _ Hs Hc0) as [<- <-].
      unfold reconciled in Hr. rewrite Efd in Hr. by destruct Hr as [_ ->].
Qed.

Lemma reconcile_loop_spec n : forall t R k,
  cap_wf t R -> 0 <= k -> k + Z.of_nat n = zlen (slots t) ->
  exists t', reconcile_loop debug counts t (seqZ k (Z.of_nat n)) = Some t' /\ cap_wf t' R /\
    next_generation t' = next_generation t /\
    forall j h d, current t' j h d <->
      (if decide (k <= j) then exists d0, current t j h d0 /\ reconciled j h d0 d else current t j h d).
Proof using.
  induction n as [|n IH]; intros t R k Hwf Hk Hn.
  - exists t. split_and!; try done. intros j h d. case_decide; [|done]. split.
    + intros Hc%zget_Some_range. lia.
    + intros (d0 & Hc%zget_Some_range & _). lia.
  - rewrite seqZ_cons by lia. cbn [reconcile_loop].
    replace (Z.succ k) with (k + 1) by lia. replace (Z.pred (Z.of_nat (S n))) with (Z.of_nat n) by lia.
    destruct (reconcile_slot_spec t R k Hwf ltac:(lia)) as (t1 & -> & Hwf1 & Hl1 & Hg1 & Hc1). cbn [mbind option_bind].
    destruct (IH t1 R (k + 1) Hwf1 ltac:(lia) ltac:(lia)) as (t' & -> & Hwf' & Hg' & Hc').
    exists t'. split_and!; try done; [congruence|]. intros j h d. rewrite Hc'.
    destruct (decide (k + 1 <= j)), (decide (k <= j)); try lia.
    + split; intros (d0 & Hd & Hr); exists d0; (split; [|done]).
      * by rewrite Hc1, decide_False in Hd by lia.
      * by rewrite Hc1, decide_False by lia.
    + rewrite Hc1. by rewrite decide_True by lia.
    + rewrite Hc1. by rewrite decide_False by lia.
Qed.

Lemma reconcile_spec t R :
  cap_wf t R ->
  exists t', reconcile_refcounts_after_fork debug counts t = Some t' /\ cap_wf t' R /\
    next_generation t' = next_generation t /\
    forall i g e', current t' i g e' <-> exists e, current t i g e /\ reconciled i g e e'.
Proof using.
  intros Hwf. unfold reconcile_refcounts_after_fork.
  destruct (reconcile_loop_spec (length (slots t)) t R 0 Hwf ltac:(lia)) as (t1 & H1 & Hwf1 & Hg1 & Hc1); [unfold zlen; lia|].
  unfold zlen. rewrite H1. eexists; split; [done|]. split_and!; [by apply reclaim_wf| |].
  - rewrite <- Hg1. unfold reclaim_if_unused. by destruct (_ || _).
  - intros i g e'. rewrite <- (reclaim_same (t := t1)), Hc1. case_decide; [done|].
    split; [intros Hc%zget_Some_range; lia|]. intros (e & Hc%zget_Some_range & _). lia.
Qed.
End reconcile.
