(* ===== verification/CapCorrect.v ===== *)
(** The correctness theorems of the capability table. *)

From Stdlib Require Import ZArith Lia.
From stdpp Require Import base list list_numbers numbers.
From S2P Require Import Prelude.
From S2P Require Import Machine.
From S2P Require Import Cap.
From S2P Require Import CapFacts.

(** ** Runs of a table *)

(** The operations on one table and, through [CFork], on the table of a child.
    [CInstall] and [CCancel] name an outstanding reservation by position. *)
Inductive CapOp :=
| CAllocate (heap : CapHeap) (e : CapEntry)
| CPrepare (heap : CapHeap)
| CInstall (n : nat) (e : CapEntry)
| CCancel (n : nat)
| CRevoke (id : Z)
| CDelegate (heap : CapHeap) (id rights_mask fl : Z)
| CIncrement (id : Z)
| CDecrement (id : Z)
| CCloexec
| CFork (heap : CapHeap) (admits : bool)
| CReconcile (counts : list (Z * Z)).

Definition cap_op_ok (op : CapOp) : Prop :=
  match op with
  | CAllocate heap _ | CPrepare heap | CFork heap _ => CapHeapLaws heap
  | CDelegate heap id _ _ => CapHeapLaws heap /\ is_u64 id
  | CRevoke id | CIncrement id | CDecrement id => is_u64 id
  | _ => True
  end.

(** Drop the result of an operation; [None] is an abort of the kernel. *)
Definition settle {A} (r : res CapError A * CapTableInner) : option CapTableInner :=
  match r with (Panic, _) => None | (_, t) => Some t end.

Definition cap_step (debug : bool) (st : CapTableInner * list (Z * Z)) (op : CapOp)
  : option (CapTableInner * list (Z * Z)) :=
  let '(t, R) := st in
  match op with
  | CAllocate heap e => (fun t => (t, R)) <$> settle (allocate debug t e)
  | CPrepare heap =>
      match reserve_allocation t with
      | (Ok ig, t) => Some (t, ig :: R)
      | (Err _, t) => Some (t, R)
      | (Panic, _) => None
      end
  | CInstall n e =>
      match R !! n with
      | Some (i, g) => (fun r => (r.2, delete n R)) <$> install_reserved debug t i g e
      | None => Some (t, R)
      end
  | CCancel n =>
      match R !! n with
      | Some (i, g) => (fun t => (t, delete n R)) <$> cancel_reserved debug t i
      | None => Some (t, R)
      end
  | CRevoke id => (fun t => (t, R)) <$> settle (revoke debug t id)
  | CDelegate heap id rights_mask fl => (fun t => (t, R)) <$> settle (delegate debug t id rights_mask fl)
  | CIncrement id => (fun t => (t, R)) <$> settle (increment_refcount debug t id)
  | CDecrement id => (fun t => (t, R)) <$> settle (decrement_refcount debug t id)
  | CCloexec => match apply_cloexec debug t with Ok t => Some (t, R) | _ => None end
  | CFork heap admits =>
      match try_clone_for_fork admits t with
      | Ok child => Some (child, [])
      | Err _ => Some (t, R)
      | Panic => None
      end
  | CReconcile counts => (fun t => (t, R)) <$> reconcile_refcounts_after_fork debug counts t
  end.

Fixpoint cap_run (debug : bool) (st : CapTableInner * list (Z * Z)) (ops : list CapOp)
  : option (CapTableInner * list (Z * Z)) :=
  match ops with
  | [] => Some st
  | op :: ops => st ← cap_step debug st op; cap_run debug st ops
  end.

(** Identities come from three sources only: the table, a reservation, or a
    generation not used before. *)
Record step_ok (t : CapTableInner) (R : list (Z * Z)) (t' : CapTableInner) (R' : list (Z * Z)) : Prop := {
  so_wf : cap_wf t' R';
  so_gen : next_generation t <= next_generation t';
  so_current : forall i g e, current t' i g e ->
    (exists e0, current t i g e0) \/ (i, g) ∈ R \/ next_generation t <= g;
  so_res : forall i g, (i, g) ∈ R' -> (i, g) ∈ R \/ next_generation t <= g;
}.

(** An identity that is not current, not reserved and already used. *)
Definition dead (t : CapTableInner) (R : list (Z * Z)) (i g : Z) : Prop :=
  g < next_generation t /\ (i, g) ∉ R /\ forall e, ~ current t i g e.

Lemma dead_step t R t' R' i g : step_ok t R t' R' -> dead t R i g -> dead t' R' i g.
Proof.
  intros [Hwf Hg Hc Hr] (Hlt & Hni & Hno). split_and!; [lia| |].
  - intros [?|?]%Hr; [done|lia].
  - intros e [(e0 & He0)|[?|?]]%Hc; [by eapply Hno|done|lia].
Qed.

(** A step that only removes or rewrites capabilities. *)
Lemma step_shrink t R t' R' :
  cap_wf t' R' -> next_generation t' = next_generation t ->
  (forall i g e, current t' i g e -> exists e0, current t i g e0) ->
  (forall x, x ∈ R' -> x ∈ R) -> step_ok t R t' R'.
Proof. intros Hwf Hg Hc Hr. split; [done|lia|eauto|eauto]. Qed.

Lemma step_refl t R : cap_wf t R -> step_ok t R t R.
Proof. intros Hwf. apply step_shrink; eauto. Qed.

(** Operations that only remove capabilities keep every other one as it was. *)
Lemma allocate_step debug (heap : CapHeap) (laws : CapHeapLaws heap) t R e :
  cap_wf t R -> exists t', settle (allocate debug t e) = Some t' /\ step_ok t R t' R.
Proof.
  intros Hwf. destruct (allocate_spec (debug := debug) t R e Hwf) as [(err & -> & _)|(i & t' & -> & Hwf' & _ & _ & Hg & _ & Hc)].
  - exists t. split; [done|]. by apply step_refl.
  - exists t'. split; [done|]. split; [done|lia| |eauto]. intros j g d. rewrite Hc. case_decide; [|eauto].
    intros [-> _]. right; right. lia.
Qed.

Lemma refcount_step t R i g e n :
  cap_wf t R -> current t i g e -> step_ok t R (store_refcount t i (mkSlot g e) n) R.
Proof.
  intros Hwf Hc. destruct (store_refcount_spec t R i g e n Hwf Hc) as [Hwf' Hcur].
  apply step_shrink; [done|done| |done]. intros j h d. rewrite Hcur. case_decide as E; [|eauto].
  subst j. intros [-> _]. eauto.
Qed.

Lemma delete_perm (R : list (Z * Z)) n x : R !! n = Some x -> R ≡ₚ x :: delete n R.
Proof. apply delete_Permutation. Qed.

Lemma delete_subset (R : list (Z * Z)) n x : x ∈ delete n R -> x ∈ R.
Proof. intros Hx. eapply elem_of_sublist; [done|]. apply sublist_delete. Qed.

Definition counts_refs (op : CapOp) : bool :=
  match op with CIncrement _ | CDecrement _ => true | _ => false end.

Lemma table_step_ok debug t R op :
  cap_wf t R -> cap_op_ok op -> (debug = true -> counts_refs op = false) ->
  match op with CAllocate _ _ | CRevoke _ | CDelegate _ _ _ _ | CIncrement _ | CDecrement _ | CCloexec | CReconcile _ => True | _ => False end ->
  exists t', cap_step debug (t, R) op = Some (t', R) /\ step_ok t R t' R.
Proof.
  intros Hwf Hop Hdbg Hkind. destruct op; cbn [cap_step cap_op_ok] in *; try done.
  - destruct (allocate_step debug heap Hop t R e Hwf) as (t' & -> & Hs). by exists t'.
  - destruct (revoke_spec (debug := debug) t R id Hwf Hop) as [(e & t' & _ & -> & Hwf' & Hg & Hc)|(_ & ->)].
    + exists t'. split; [done|]. apply step_shrink; try done. intros i g d. rewrite Hc. naive_solver.
    + exists t. split; [done|]. by apply step_refl.
  - destruct Hop as [Hlaws Hid]. unfold delegate.
    destruct (lookup_spec t R id Hwf Hid) as [(e & _ & ->)|(_ & ->)]; [|exists t; split; [done|by apply step_refl]].
    destruct (contains _ _); [exists t; split; [done|by apply step_refl]|].
    destruct (is_namespace _); [exists t; split; [done|by apply step_refl]|].
    destruct (allocate_step debug heap Hlaws t R (with_flags (object e) (restrict (rights e) rights_mask) (Z.lor fl (flags e))) Hwf) as (t' & -> & Hs).
    by exists t'.
  - unfold increment_refcount. destruct debug; [by specialize (Hdbg eq_refl)|].
    destruct (find_slot_spec t R id Hwf Hop) as [(e & Hc & ->)|(_ & ->)]; [|exists t; split; [done|by apply step_refl]].
    cbn [entry]. destruct (checked_add _ _) as [n|]; [|exists t; split; [done|by apply step_refl]].
    eexists; split; [done|]. by apply refcount_step.
  - unfold decrement_refcount. destruct debug; [by specialize (Hdbg eq_refl)|].
    destruct (find_slot_spec t R id Hwf Hop) as [(e & Hc & ->)|(_ & ->)]; [|exists t; split; [done|by apply step_refl]].
    cbn [entry andb]. eexists; split; [done|]. by apply refcount_step.
  - destruct (apply_cloexec_spec (debug := debug) t R Hwf) as (t' & -> & Hwf' & Hg & Hc).
    exists t'. split; [done|]. apply step_shrink; try done. intros i g e [? _]%Hc. eauto.
  - destruct (reconcile_spec (debug := debug) counts t R Hwf) as (t' & -> & Hwf' & Hg & Hc).
    exists t'. split; [done|]. apply step_shrink; try done. intros i g e (e0 & ? & _)%Hc. eauto.
Qed.

Lemma cap_step_ok debug t R op :
  cap_wf t R -> cap_op_ok op -> (debug = true -> counts_refs op = false) ->
  exists t' R', cap_step debug (t, R) op = Some (t', R') /\ step_ok t R t' R'.
Proof.
  intros Hwf Hop Hdbg.
  destruct op; try (by destruct (table_step_ok debug t R _ Hwf Hop Hdbg) as (t' & Ht & Hs); [done|exists t', R]);
    cbn [cap_step cap_op_ok] in *.
  - destruct (reserve_allocation_spec (laws := Hop) t R Hwf) as [(err & -> & _)|(i & t' & -> & Hwf' & Hs & Hg & _)].
    + exists t, R. split; [done|]. by apply step_refl.
    + exists t', ((i, next_generation t) :: R). split; [done|]. split; [done|lia| |].
      * intros j g e Hc. left. exists e. by rewrite Hs.
      * intros j g [[= -> ->]|?]%elem_of_cons; [right; lia|by left].
  - destruct (R !! n) as [[i g]|] eqn:En; [|exists t, R; split; [done|by apply step_refl]].
    pose proof (delete_perm _ _ _ En) as Hp. pose proof Hwf as Hwf'. rewrite Hp in Hwf'.
    destruct (install_reserved_spec (debug := debug) t _ i g e Hwf') as (t' & -> & Hwf1 & Hg & Hc).
    exists t', (delete n R). split; [done|]. split; [done|lia| |].
    + intros j h d. rewrite Hc. case_decide as E; [|eauto]. subst j. intros [-> _]. right; left.
      by eapply list_elem_of_lookup_2.
    + intros j h Hj%delete_subset. by left.
  - destruct (R !! n) as [[i g]|] eqn:En; [|exists t, R; split; [done|by apply step_refl]].
    pose proof (delete_perm _ _ _ En) as Hp. pose proof Hwf as Hwf'. rewrite Hp in Hwf'.
    destruct (cancel_reserved_spec (debug := debug) t _ i g Hwf') as (t' & -> & Hwf1 & Hs & Hg).
    exists t', (delete n R). split; [done|]. apply step_shrink; try done.
    + intros j h d Hd. exists d. by rewrite Hs.
    + intros x. apply delete_subset.
  - destruct (try_clone_for_fork_spec (laws := Hop) admits t R Hwf) as [->|(c & -> & Hwf' & Hg & Hc)].
    + exists t, R. split; [done|]. by apply step_refl.
    + exists c, []. split; [done|]. apply step_shrink; try done.
      * intros i g e [? _]%Hc. eauto.
      * by intros x ?%elem_of_nil.
Qed.

Lemma cap_run_ok debug ops : forall t R,
  cap_wf t R -> Forall cap_op_ok ops -> Forall (fun op => debug = true -> counts_refs op = false) ops ->
  exists t' R', cap_run debug (t, R) ops = Some (t', R') /\ cap_wf t' R' /\
    (forall i g, dead t R i g -> dead t' R' i g).
Proof.
  induction ops as [|op ops IH]; intros t R Hwf Hops Hdbg; [by exists t, R|].
  apply list.Forall_cons in Hops as [Hop Hops]. apply list.Forall_cons in Hdbg as [Hd Hdbg]. cbn [cap_run].
  destruct (cap_step_ok debug t R op Hwf Hop Hd) as (t1 & R1 & -> & Hs). cbn [mbind option_bind].
  destruct (IH t1 R1 (so_wf _ _ _ _ Hs) Hops Hdbg) as (t' & R' & -> & Hwf' & Hdead).
  exists t', R'. split_and!; try done. intros i g Hig. by eapply Hdead, dead_step.
Qed.

Lemma try_with_capacity_wf `{heap : CapHeap} {laws : CapHeapLaws heap} capacity t :
  0 <= capacity -> try_with_capacity capacity = Ok t -> cap_wf t [].
Proof.
  intros Hc. unfold try_with_capacity. set (c := Z.min capacity MAX_CAP_SLOTS).
  assert (0 <= c <= MAX_CAP_SLOTS) by (unfold MAX_CAP_SLOTS in *; lia).
  destruct (prepare_slots c) as [sc|] eqn:Es; [|done]. apply prepare_slots_ge in Es. cbn [ok_or res_bind].
  destruct (prepare_free c) as [fc|] eqn:Ef; [|done]. apply prepare_free_ge in Ef. cbn [ok_or res_bind].
  intros [= <-]. split; simpl; rewrite ?zlen_replicate, ?Z2Nat.id, ?app_nil_r by lia; try done; try lia.
  - rewrite reverse_Permutation. apply NoDup_seqZ.
  - intros i. rewrite elem_of_reverse, elem_of_seqZ. split.
    + intros Hi. apply zget_replicate. lia.
    + intros Hi%zget_Some_range. rewrite zlen_replicate in Hi. lia.
  - intros i s Hi. apply zget_Some_range in Hi as Hr. rewrite zlen_replicate in Hr. rewrite zget_replicate in Hi by lia. done.
  - by intros i g ?%elem_of_nil.
Qed.

(** ** A concrete table *)
#[local] Instance roomy_heap : CapHeap := { prepare_slots c := Some c; prepare_free c := Some c }.
#[local] Instance roomy_laws : CapHeapLaws roomy_heap.
Proof. split; intros c c' [= <-]; lia. Qed.

Definition demo0 : CapTableInner :=
  match try_with_capacity 2 with Ok t => t | _ => mkTable [] 0 [] 0 false false 1 0 end.
Definition demo_entry : CapEntry := mkEntry (Socket 7 1) 0x7 0 1.
Definition demo : CapTableInner := (allocate true demo0 demo_entry).2.
Definition demo_id : Z := from_parts 1 1.

Lemma demo0_wf : cap_wf demo0 [].
Proof. apply (try_with_capacity_wf 2); [lia|reflexivity]. Qed.

Lemma demo_wf : cap_wf demo [].
Proof.
  destruct (allocate_spec (debug := true) demo0 [] demo_entry demo0_wf) as [(err & H & _)|(i & t' & H & Hwf & _)].
  - apply (f_equal fst) in H. by vm_compute in H.
  - unfold demo. by rewrite H.
Qed.

Lemma demo_id_u64 : is_u64 demo_id.
Proof. by vm_compute. Qed.

(** ** The theorems *)

(** C6 The table never aborts the kernel and keeps its invariant: after any
    sequence of operations on a fresh table (allocations, prepared allocations
    installed or cancelled in any order, revocations, delegations, reference
    counting, exec, fork into the child, reconciliation), whatever the heap
    answers, every index is in exactly one of the free list, a pending
    reservation or an occupied slot, generations in use are below the next one,
    and the free list has room for every slot, so no push reallocates under the
    lock.  Builds with debug assertions are covered except for the two
    reference-count operations, whose assertions report misuse by the caller. *)
Theorem cap_runs_correct debug (heap : CapHeap) (laws : CapHeapLaws heap) capacity t ops :
  0 <= capacity -> try_with_capacity capacity = Ok t -> Forall cap_op_ok ops ->
  Forall (fun op => debug = true -> counts_refs op = false) ops ->
  exists t' R, cap_run debug (t, []) ops = Some (t', R) /\ cap_wf t' R.
Proof.
  intros Hc Ht Hops Hdbg. pose proof (try_with_capacity_wf capacity t Hc Ht) as Hwf.
  destruct (cap_run_ok debug ops t [] Hwf Hops Hdbg) as (t' & R & Hr & Hwf' & _). by exists t', R.
Qed.

Definition demo_ops : list CapOp :=
  [CAllocate roomy_heap demo_entry; CPrepare roomy_heap; CDelegate roomy_heap demo_id 3 0; CRevoke demo_id;
   CPrepare roomy_heap; CInstall 1 demo_entry; CCancel 0; CCloexec; CFork roomy_heap true; CReconcile []].

Lemma demo_ops_ok : Forall cap_op_ok demo_ops.
Proof.
  unfold demo_ops. repeat (apply list.Forall_cons; split); try apply Forall_nil_2; cbn [cap_op_ok];
    (exact I || apply roomy_laws || apply demo_id_u64 || (split; [apply roomy_laws|apply demo_id_u64])).
Qed.

Lemma cap_runs_witness :
  exists t R, cap_run true (demo0, []) demo_ops = Some (t, R) /\ cap_wf t R /\ slots t = [].
Proof.
  destruct (cap_runs_correct true roomy_heap roomy_laws 2 demo0 demo_ops) as (t & R & H & Hwf).
  - lia.
  - reflexivity.
  - exact demo_ops_ok.
  - repeat constructor.
  - exists t, R. split; [exact H|]. split; [exact Hwf|].
    apply (f_equal (fun o => match o with Some (t, _) => slots t | None => [None] end)) in H. symmetry. exact H.
Defined.

(** C7 A revoked capability is gone for good: once [revoke] has succeeded, the
    identifier is rejected by every later lookup, whatever is allocated,
    installed, delegated or inherited in between, and whether or not its slot
    is reused. *)
Theorem revoked_never_valid debug t R id e t' ops :
  cap_wf t R -> is_u64 id -> revoke debug t id = (Ok e, t') -> Forall cap_op_ok ops ->
  Forall (fun op => debug = true -> counts_refs op = false) ops ->
  exists t'' R'', cap_run debug (t', R) ops = Some (t'', R'') /\ lookup t'' id = Err InvalidCapId.
Proof.
  intros Hwf Hid Hrev Hops Hdbg.
  destruct (revoke_spec (debug := debug) t R id Hwf Hid) as [(e' & t1 & Hc & H & Hwf' & Hg & Hcur)|(_ & H)];
    rewrite Hrev in H; [|done]. injection H as <- <-.
  destruct (cap_run_ok debug ops t' R Hwf' Hops Hdbg) as (t'' & R'' & Hrun & Hwf'' & Hdead).
  exists t'', R''. split; [done|].
  destruct (Hdead (cap_index id) (cap_generation id)) as (_ & _ & Hno).
  { split_and!.
    - pose proof (cw_slot _ _ Hwf _ _ Hc). simpl in *. lia.
    - intros Hin. assert (zget (slots t) (cap_index id) = Some None) as Hv.
      { apply (cw_free _ _ Hwf), elem_of_app. right. apply list_elem_of_fmap. by exists (cap_index id, cap_generation id). }
      unfold current in Hc. congruence.
    - intros d [? _]%Hcur. done. }
  destruct (lookup_spec t'' R'' id Hwf'' Hid) as [(d & Hd & _)|(_ & ->)]; [|done]. by destruct (Hno d).
Qed.

Lemma revoked_never_valid_witness :
  exists e t' t'' R'', revoke true demo demo_id = (Ok e, t') /\
    cap_run true (t', []) [CAllocate roomy_heap demo_entry] = Some (t'', R'') /\ lookup t'' demo_id = Err InvalidCapId.
Proof.
  destruct (revoke true demo demo_id) as [r t'] eqn:E.
  assert (r = Ok demo_entry) as -> by (apply (f_equal fst) in E; vm_compute in E; rewrite <- E; reflexivity).
  destruct (revoked_never_valid true demo [] demo_id demo_entry t' [CAllocate roomy_heap demo_entry] demo_wf demo_id_u64 E)
    as (t'' & R'' & H1 & H2).
  - apply list.Forall_cons. split; [exact roomy_laws|constructor].
  - repeat constructor.
  - exists demo_entry, t', t'', R''. split; [reflexivity|]. split; [exact H1|exact H2].
Defined.

(** Allocation: a failure (generations exhausted, table full, out of
    memory) leaves the table as it was; a success returns an identifier that
    was not valid before, that now looks up the entry given, and leaves every
    other identifier's lookup as it was. *)
Theorem allocate_correct debug (heap : CapHeap) (laws : CapHeapLaws heap) t R e :
  cap_wf t R ->
  (exists err, allocate debug t e = (Err err, t) /\ reserve_error t err) \/
  (exists id t', allocate debug t e = (Ok id, t') /\ cap_wf t' R /\ is_u64 id /\
     lookup t id = Err InvalidCapId /\ lookup t' id = Ok e /\
     forall id', is_u64 id' -> id' <> id -> lookup t' id' = lookup t id').
Proof.
  intros Hwf. destruct (allocate_spec (debug := debug) t R e Hwf) as [?|(i & t' & Ha & Hwf' & Hi & Hlt & Hg & Hno & Hc)]; [by left|].
  right. pose proof (cw_gen _ _ Hwf). unfold MAX_CAP_SLOTS, MAX_GENERATION in *.
  assert (current t' i (next_generation t) e) as Hcur by (rewrite Hc, decide_True by done; done).
  destruct (wf_current_id t' R _ _ _ Hwf' Hcur) as (Hid & Hidx & Hgen).
  exists (from_parts i (next_generation t)), t'. split_and!; try done.
  - destruct (lookup_spec t R _ Hwf Hid) as [(d & Hd & _)|(_ & ->)]; [|done]. rewrite Hidx in Hd. by destruct (Hno _ _ Hd).
  - destruct (lookup_spec t' R _ Hwf' Hid) as [(d & Hd & ->)|(Hn & _)]; rewrite Hidx, Hgen in *.
    + by destruct (current_unique _ _ _ _ _ _ Hcur Hd) as [_ <-].
    + by destruct (Hn e).
  - intros id' Hid' Hne. apply (lookup_same t' t R R); try done. intros d. rewrite Hc. case_decide as E; [|done].
    split; [|intros Hd; rewrite E in Hd; by destruct (Hno _ _ Hd)]. intros [Eg _]. exfalso. apply Hne.
    destruct (cap_parts id' Hid') as (_ & _ & <-). by rewrite E, Eg.
Qed.

Lemma allocate_witness :
  exists id t', allocate true demo demo_entry = (Ok id, t') /\ lookup t' id = Ok demo_entry /\
    lookup t' demo_id = lookup demo demo_id.
Proof.
  destruct (allocate_correct true roomy_heap roomy_laws demo [] demo_entry demo_wf) as [(err & H & _)|(id & t' & H & _ & _ & Hn & Hl & Ho)].
  - apply (f_equal fst) in H. vm_compute in H. discriminate.
  - exists id, t'. split; [exact H|]. split; [exact Hl|]. apply Ho; [exact demo_id_u64|].
    intros Heq. rewrite <- Heq in Hn. vm_compute in Hn. discriminate.
Defined.

Lemma contains_noxfer f : contains f NOXFER = Z.testbit f 3.
Proof.
  unfold contains. change NOXFER with (2 ^ 3). destruct (Z.testbit f 3) eqn:E.
  - apply Z.eqb_eq, Z.bits_inj'. intros n Hn. rewrite Z.land_spec, Z.pow2_bits_eqb by lia. destruct (Z.eqb_spec 3 n) as [<-|]; [by rewrite E|apply andb_false_r].
  - apply Z.eqb_neq. intros H. apply (f_equal (fun x => Z.testbit x 3)) in H. rewrite Z.land_spec, E, Z.pow2_bits_true in H by lia. done.
Qed.

(** C8 Delegation, on every branch: an identifier that is not valid is refused; a
    capability with the non-transferable flag (bit 3), or one for a namespace, is
    refused, and in both cases nothing changes.  Otherwise either no allocation is
    possible, because generations are used up, or the free list is empty and the
    table is full or the heap refuses one more slot; then nothing changes.  Or a
    new identifier, not valid before, names the same object with exactly the rights
    of both source and mask, the flags of both source and request and reference
    count 1, and every other identifier keeps its entry. *)
Theorem delegate_correct debug (heap : CapHeap) (laws : CapHeapLaws heap) t R id rights_mask fl :
  cap_wf t R -> is_u64 id ->
  match lookup t id with
  | Ok src =>
      if Z.testbit (flags src) 3 || match object src with Namespace _ => true | _ => false end
      then delegate debug t id rights_mask fl = (Err DelegationDenied, t)
      else
        (exists err, delegate debug t id rights_mask fl = (Err err, t) /\ reserve_error t err) \/
        (exists id' t', delegate debug t id rights_mask fl = (Ok id', t') /\ cap_wf t' R /\ is_u64 id' /\
           lookup t id' = Err InvalidCapId /\
           lookup t' id' = Ok (mkEntry (object src) (Z.land (rights src) rights_mask) (Z.lor fl (flags src)) 1) /\
           forall other, is_u64 other -> other <> id' -> lookup t' other = lookup t other)
  | _ => delegate debug t id rights_mask fl = (Err InvalidCapId, t)
  end.
Proof.
  intros Hwf Hid. unfold delegate. destruct (lookup_spec t R id Hwf Hid) as [(src & _ & ->)|(_ & ->)]; [|done].
  rewrite contains_noxfer. destruct (Z.testbit (flags src) 3); [done|]. cbn [orb]. change (match object src with Namespace _ => true | _ => false end) with (is_namespace (object src)).
  destruct (is_namespace (object src)); [done|]. by apply (allocate_correct debug heap laws).
Qed.

Lemma delegate_witness :
  exists id' t', delegate true demo demo_id 0x3 CLOEXEC = (Ok id', t') /\
    lookup t' id' = Ok (mkEntry (object demo_entry) (Z.land (rights demo_entry) 3) (Z.lor CLOEXEC (flags demo_entry)) 1) /\ lookup t' demo_id = Ok demo_entry.
Proof.
  pose proof (delegate_correct true roomy_heap roomy_laws demo [] demo_id 0x3 CLOEXEC demo_wf demo_id_u64) as H.
  assert (Hl : lookup demo demo_id = Ok demo_entry) by (vm_compute; reflexivity). rewrite Hl in H.
  destruct H as [(err & H & _)|(id' & t' & H & _ & _ & Hn & He & Ho)].
  - apply (f_equal fst) in H. vm_compute in H. discriminate.
  - exists id', t'. split; [exact H|]. split; [exact He|]. rewrite Ho; [exact Hl|exact demo_id_u64|]. intros E. rewrite <- E, Hl in Hn. discriminate.
Defined.

(** Identifiers: packing a 16-bit index and a 48-bit generation and
    unpacking gives them back, and every 64-bit value is the packing of its
    parts, so distinct pairs are distinct identifiers. *)
Theorem cap_id_roundtrip :
  (forall i g, is_u16 i -> is_u48 g ->
     is_u64 (from_parts i g) /\ cap_index (from_parts i g) = i /\ cap_generation (from_parts i g) = g) /\
  (forall id, is_u64 id -> from_parts (cap_index id) (cap_generation id) = id).
Proof.
  split.
  - intros i g Hi Hg. split_and!; [|by apply from_parts_index|by apply from_parts_generation].
    rewrite from_parts_add by done. unfold is_u64, is_u16, is_u48 in *. lia.
  - intros id Hid. by apply cap_parts.
Qed.

(** Fork: when it succeeds, the child's table is sound, carries the
    parent's generation counter, and looks up every identifier exactly as the
    parent does, except that a capability marked close-on-fork is not there. *)
Theorem fork_correct (heap : CapHeap) (laws : CapHeapLaws heap) admits t R child :
  cap_wf t R -> try_clone_for_fork admits t = Ok child ->
  cap_wf child [] /\ next_generation child = next_generation t /\
  forall id, is_u64 id -> lookup child id =
    match lookup t id with
    | Ok e => if inherits_on_fork e then Ok e else Err InvalidCapId
    | r => r
    end.
Proof.
  intros Hwf Hf. destruct (try_clone_for_fork_spec admits t R Hwf) as [H|(c & H & Hwfc & Hg & Hc)];
    rewrite Hf in H; [done|]. injection H as <-. split_and!; try done. intros id Hid.
  destruct (lookup_spec t R id Hwf Hid) as [(e & He & ->)|(Hno & ->)],
    (lookup_spec child [] id Hwfc Hid) as [(d & Hd & ->)|(Hno' & ->)]; try done.
  - apply Hc in Hd as [Hd Hi]. destruct (current_unique _ _ _ _ _ _ He Hd) as [_ <-]. by rewrite Hi.
  - destruct (inherits_on_fork e) eqn:E; [|done]. destruct (Hno' e). by apply Hc.
  - apply Hc in Hd as [Hd _]. by destruct (Hno d).
Qed.

Lemma fork_witness :
  exists child, try_clone_for_fork true demo = Ok child /\ lookup child demo_id = Ok demo_entry.
Proof.
  destruct (try_clone_for_fork true demo) as [child| |] eqn:E; try (vm_compute in E; discriminate).
  exists child. split; [reflexivity|].
  destruct (fork_correct roomy_heap roomy_laws true demo [] child demo_wf E) as (_ & _ & H).
  rewrite (H demo_id demo_id_u64). vm_compute. reflexivity.
Defined.

(** Exec: [apply_cloexec] terminates without aborting, keeps the table
    sound, and removes exactly the capabilities marked close-on-exec. *)
Theorem cloexec_correct debug t R :
  cap_wf t R ->
  exists t', apply_cloexec debug t = Ok t' /\ cap_wf t' R /\
    forall id, is_u64 id -> lookup t' id =
      match lookup t id with
      | Ok e => if inherits_on_exec e then Ok e else Err InvalidCapId
      | r => r
      end.
Proof.
  intros Hwf. destruct (apply_cloexec_spec (debug := debug) t R Hwf) as (t' & Ha & Hwf' & _ & Hc).
  exists t'. split_and!; try done. intros id Hid.
  destruct (lookup_spec t R id Hwf Hid) as [(e & He & ->)|(Hno & ->)],
    (lookup_spec t' R id Hwf' Hid) as [(d & Hd & ->)|(Hno' & ->)]; try done.
  - apply Hc in Hd as [Hd Hi]. destruct (current_unique _ _ _ _ _ _ He Hd) as [_ <-]. by rewrite Hi.
  - destruct (inherits_on_exec e) eqn:E; [|done]. destruct (Hno' e). by apply Hc.
  - apply Hc in Hd as [Hd _]. by destruct (Hno d).
Qed.

Lemma cloexec_witness : exists t', apply_cloexec true demo = Ok t' /\ lookup t' demo_id = Ok demo_entry.
Proof.
  destruct (cloexec_correct true demo [] demo_wf) as (t' & Ha & _ & H). exists t'. split; [exact Ha|].
  rewrite (H demo_id demo_id_u64). vm_compute. reflexivity.
Defined.

(** Reconciliation after fork with a histogram sorted by identifier: a
    capability whose life is tied to descriptors gets the child's descriptor
    count as its reference count, and is revoked when the child has none; any
    other capability is left as it was. *)
Theorem reconcile_correct debug counts t R :
  cap_wf t R -> sorted_counts counts ->
  exists t', reconcile_refcounts_after_fork debug counts t = Some t' /\ cap_wf t' R /\
    forall id e, is_u64 id -> lookup t id = Ok e ->
      (is_fd_backed (object e) = false -> lookup t' id = Ok e) /\
      (is_fd_backed (object e) = true -> forall n, (id, n) ∈ counts -> n <> 0 -> lookup t' id = Ok (set_refcount e n)) /\
      (is_fd_backed (object e) = true -> ((id, 0) ∈ counts \/ id ∉ counts.*1) -> lookup t' id = Err InvalidCapId).
Proof.
  intros Hwf Hsort. destruct (reconcile_spec (debug := debug) counts t R Hwf) as (t' & Hr & Hwf' & _ & Hc).
  exists t'. split_and!; try done. intros id e Hid Hl.
  destruct (lookup_spec t R id Hwf Hid) as [(d & Hd & H)|(_ & H)]; rewrite Hl in H; [|done]. injection H as <-.
  destruct (cap_parts id Hid) as (_ & _ & Heq). set (i := cap_index id) in *. set (g := cap_generation id) in *.
  assert (forall e', lookup t' id = Ok e' <-> reconciled counts i g e e') as Hiff.
  { intros e'. destruct (lookup_spec t' R id Hwf' Hid) as [(d & Hd' & ->)|(Hno & ->)].
    - apply Hc in Hd' as (e0 & He0 & Hrec). destruct (current_unique _ _ _ _ _ _ Hd He0) as [_ <-].
      split; [by intros [= <-]|]. intros Hrec'. f_equal. unfold reconciled in *.
      destruct (is_fd_backed (object e)); [|congruence]. by destruct Hrec as [_ ->], Hrec' as [_ ->].
    - split; [done|]. intros Hrec. destruct (Hno e'). apply Hc. by exists e. }
  unfold reconciled in Hiff. rewrite Heq in Hiff. split_and!; intros Hfd; rewrite Hfd in Hiff.
  - by apply Hiff.
  - intros n Hin Hn. apply Hiff. by rewrite (child_fd_count_found counts id n).
  - intros Hz. assert (child_fd_count counts id = 0) as Hcz.
    { destruct Hz as [?|?]; [by apply child_fd_count_found|by apply child_fd_count_absent]. }
    destruct (lookup_spec t' R id Hwf' Hid) as [(d & Hd' & H)|(_ & ->)]; [|done].
    apply Hiff in H as [H _]. by rewrite Hcz in H.
Qed.

Lemma reconcile_witness :
  exists t', reconcile_refcounts_after_fork true [(5, 2); (demo_id, 3)] demo = Some t' /\
    lookup t' demo_id = Ok (set_refcount demo_entry 3).
Proof.
  destruct (reconcile_correct true [(5, 2); (demo_id, 3)] demo [] demo_wf) as (t' & H & _ & Hl).
  - intros i j Hij Hj. assert (i = 0 /\ j = 1) as [-> ->] by (unfold zlen in Hj; simpl in Hj; lia). vm_compute. reflexivity.
  - exists t'. split; [exact H|].
    destruct (Hl demo_id demo_entry demo_id_u64) as (_ & Hfd & _); [vm_compute; reflexivity|].
    apply Hfd; [reflexivity|right; left|discriminate].
Defined.
