(* ===== verification/Seccomp.v ===== *)
(** Syscall filtering: actions, the filter instruction set and its interpreter,
    program validation, the fast-allow bitmap and the filter chain of a process
    (src/kernel/seccomp/types.rs).

    Every machine integer of this component is unsigned except the errno of
    [Errno], so programs, arguments and syscall numbers are [N]. *)

From Stdlib Require Import ZArith Lia.
From stdpp Require Import base list list_numbers numbers.
From Equations Require Import Equations.
From S2P Require Import Prelude.

#[local] Open Scope N_scope.

(** * Actions *)
Inductive SeccompAction := Allow | Log | Errno (e : Z) | Trap | Kill.

#[export] Instance SeccompAction_eq_dec : EqDecision SeccompAction.
Proof. solve_decision. Defined.

Definition severity (a : SeccompAction) : N :=
  match a with Allow => 0 | Log => 1 | Errno _ => 2 | Trap => 3 | Kill => 4 end.

Definition more_restrictive_than (a other : SeccompAction) : bool :=
  severity other <? severity a.

Record SeccompVerdict := mkVerdict { action : SeccompAction; filter_id : N }.

Definition verdict_allow : SeccompVerdict := mkVerdict Allow 0.
Definition verdict_kill (id : N) : SeccompVerdict := mkVerdict Kill id.

(** * Instructions *)
Inductive SeccompInsn :=
| LdSyscallNr
| LdArg (idx : N)
| LdConst (v : N)
| And (v : N)
| Or (v : N)
| Shr (shift : N)
| JmpEq (v t f : N)
| JmpNe (v t f : N)
| JmpLt (v t f : N)
| JmpLe (v t f : N)
| JmpGt (v t f : N)
| JmpGe (v t f : N)
| Jmp (offset : N)
| Ret (a : SeccompAction).

#[export] Instance SeccompInsn_eq_dec : EqDecision SeccompInsn.
Proof. solve_decision. Defined.

Definition MAX_INSNS : nat := 64.
Definition MAX_TRUSTED_INSNS : nat := 256.
Definition MAX_FILTER_INSNS_TOTAL : nat := MAX_INSNS * 32.

Inductive SeccompError :=
| ProgramTooLong | InvalidInstruction | InvalidJump | NoTerminator
| InvalidArgIndex | InvalidPromise | OutOfMemory | NotPermitted | Fault.

(** * Interpreter

    [exec_insn] is one iteration of the loop of [interpret_program]: it leaves
    the loop with an action or goes on with a new accumulator and program
    counter. *)
Inductive Flow := Continue (acc : N) (pc : nat) | Return (a : SeccompAction).

(** [pc += 1 + offset; if pc >= prog.len() { return Trap }] *)
Definition jump (len : nat) (acc : N) (pc : nat) (offset : N) : Flow :=
  let pc := (pc + (1 + N.to_nat offset))%nat in
  if (len <=? pc)%nat then Return Trap else Continue acc pc.

(** [acc.checked_shr(shift as u32)] on [u64] *)
Definition checked_shr (acc shift : N) : option N :=
  if shift <? 64 then Some (N.shiftr acc shift) else None.

Section interpreter.
Context (prog : list SeccompInsn) (default_action : SeccompAction).
Context (syscall_nr : N) (args : list N).

Definition exec_insn (acc : N) (pc : nat) (insn : SeccompInsn) : Flow :=
  match insn with
  | LdSyscallNr => Continue syscall_nr (pc + 1)
  | LdArg idx => Continue (if idx <? 6 then nth (N.to_nat idx) args 0 else 0) (pc + 1)
  | LdConst val => Continue val (pc + 1)
  | And val => Continue (N.land acc val) (pc + 1)
  | Or val => Continue (N.lor acc val) (pc + 1)
  | Shr shift =>
      match checked_shr acc shift with
      | None => Return Trap
      | Some shifted => Continue shifted (pc + 1)
      end
  | JmpEq val t f => jump (length prog) acc pc (if acc =? val then t else f)
  | JmpNe val t f => jump (length prog) acc pc (if negb (acc =? val) then t else f)
  | JmpLt val t f => jump (length prog) acc pc (if acc <? val then t else f)
  | JmpLe val t f => jump (length prog) acc pc (if acc <=? val then t else f)
  | JmpGt val t f => jump (length prog) acc pc (if val <? acc then t else f)
  | JmpGe val t f => jump (length prog) acc pc (if val <=? acc then t else f)
  | Jmp offset => jump (length prog) acc pc offset
  | Ret a => Return a
  end.

Lemma exec_insn_advances acc pc insn acc' pc' :
  exec_insn acc pc insn = Continue acc' pc' -> (pc < pc')%nat.
Proof.
  destruct insn; unfold exec_insn, jump; repeat case_match; intros [=]; lia.
Qed.

Definition inspect {A} (a : A) : {b | a = b} := exist _ a eq_refl.

(** The loop; the program counter only moves forward, so the instructions left
    bound the iterations. *)
Equations interpret_loop (acc : N) (pc : nat) : SeccompAction by wf (length prog - pc)%nat lt :=
  interpret_loop acc pc with inspect (prog !! pc) := {
  | exist _ None _ => default_action
  | exist _ (Some insn) Hi with inspect (exec_insn acc pc insn) := {
    | exist _ (Return a) _ => a
    | exist _ (Continue acc' pc') He => interpret_loop acc' pc' } }.
Next Obligation. apply exec_insn_advances in He. apply lookup_lt_Some in Hi. lia. Qed.

Definition interpret_program : SeccompAction := interpret_loop 0 0.
End interpreter.

Definition is_ld_arg (i : SeccompInsn) : bool := match i with LdArg _ => true | _ => false end.
Definition program_reads_args (prog : list SeccompInsn) : bool := existsb is_ld_arg prog.

(** * Fast-allow bitmap: eight [u64] words *)
Record FastAllowSet := mkFastAllow { bits : list N }.

Definition fast_empty : FastAllowSet := mkFastAllow (replicate 8 0).

Definition fast_set (s : FastAllowSet) (idx : N) : FastAllowSet :=
  if idx <? 512
  then mkFastAllow (alter (fun w => N.lor w (N.shiftl 1 (idx mod 64))) (N.to_nat (idx / 64)) (bits s))
  else s.

Definition fast_get (s : FastAllowSet) (idx : N) : bool :=
  if idx <? 512
  then negb (N.land (N.shiftr (nth (N.to_nat (idx / 64)) (bits s) 0) (idx mod 64)) 1 =? 0)
  else false.

Definition is_allow (a : SeccompAction) : bool := match a with Allow => true | _ => false end.

Definition compute_fast_allow (prog : list SeccompInsn) (default_action : SeccompAction) : FastAllowSet :=
  if bool_decide (prog = []) || program_reads_args prog then fast_empty else
  foldl (fun set nr =>
           if is_allow (interpret_program prog default_action nr (replicate 6 0))
           then fast_set set nr else set)
    fast_empty (N.of_nat <$> seq 0 512).

(** * Validation *)
Section validation.
Context (len : nat).

Definition target (i : nat) (offset : N) : nat := (i + 1 + N.to_nat offset)%nat.

(** The body of the [for] loop for instruction [i]; [None] goes on. *)
Definition check_insn (i : nat) (insn : SeccompInsn) : option SeccompError :=
  match insn with
  | LdArg idx => if 6 <=? idx then Some InvalidArgIndex else None
  | Shr shift => if 64 <=? shift then Some InvalidInstruction else None
  | JmpEq _ t f | JmpNe _ t f | JmpLt _ t f | JmpLe _ t f | JmpGt _ t f | JmpGe _ t f =>
      if ((len <=? target i t)%nat || (len <=? target i f)%nat) then Some InvalidJump else None
  | Jmp offset => if (len <=? target i offset)%nat then Some InvalidJump else None
  | _ => None
  end.

Fixpoint check_insns (i : nat) (l : list SeccompInsn) : option SeccompError :=
  match l with
  | [] => None
  | insn :: l => match check_insn i insn with Some e => Some e | None => check_insns (S i) l end
  end.
End validation.

Definition is_ret (i : option SeccompInsn) : bool := match i with Some (Ret _) => true | _ => false end.

Definition validate_program_with_limit (prog : list SeccompInsn) (max_insns : nat) : res SeccompError unit :=
  if bool_decide (prog = []) then Err NoTerminator else
  if (max_insns <? length prog)%nat then Err ProgramTooLong else
  match check_insns (length prog) 0 prog with
  | Some e => Err e
  | None => if is_ret (list.last prog) then Ok tt else Err NoTerminator
  end.

Definition validate_program (prog : list SeccompInsn) : res SeccompError unit :=
  validate_program_with_limit prog MAX_INSNS.

(** * Filter identity: FNV-1a over the fields of the program *)
Definition fnv_byte (hash byte : N) : N := (N.lxor hash byte * 1099511628211) mod 2 ^ 64.

(** [to_le_bytes] of an integer of [n] bytes *)
Fixpoint le_bytes (n : nat) (v : N) : list N :=
  match n with O => [] | S n => v mod 256 :: le_bytes n (v / 256) end.

Definition fnv_u64 (hash v : N) : N := foldl fnv_byte hash (le_bytes 8 v).
Definition fnv_i32 (hash : N) (v : Z) : N := foldl fnv_byte hash (le_bytes 4 (Z.to_N (v mod 2 ^ 32))).

Definition hash_action (hash : N) (a : SeccompAction) : N :=
  match a with
  | Allow => fnv_byte hash 0
  | Log => fnv_byte hash 1
  | Errno e => fnv_i32 (fnv_byte hash 2) e
  | Trap => fnv_byte hash 3
  | Kill => fnv_byte hash 4
  end.

Definition hash_jump (hash op v t f : N) : N :=
  fnv_byte (fnv_byte (fnv_u64 (fnv_byte hash op) v) t) f.

Definition hash_insn (hash : N) (insn : SeccompInsn) : N :=
  match insn with
  | LdSyscallNr => fnv_byte hash 0
  | LdArg idx => fnv_byte (fnv_byte hash 1) idx
  | LdConst v => fnv_u64 (fnv_byte hash 2) v
  | And v => fnv_u64 (fnv_byte hash 3) v
  | Or v => fnv_u64 (fnv_byte hash 4) v
  | Shr s => fnv_byte (fnv_byte hash 5) s
  | JmpEq v t f => hash_jump hash 6 v t f
  | JmpNe v t f => hash_jump hash 7 v t f
  | JmpLt v t f => hash_jump hash 8 v t f
  | JmpLe v t f => hash_jump hash 9 v t f
  | JmpGt v t f => hash_jump hash 10 v t f
  | JmpGe v t f => hash_jump hash 11 v t f
  | Jmp off => fnv_byte (fnv_byte hash 12) off
  | Ret a => hash_action (fnv_byte hash 13) a
  end.

Definition compute_filter_id (prog : list SeccompInsn) : N :=
  foldl hash_insn 14695981039346656037 prog.

(** * Filters *)

(** [SeccompFlags] *)
Definition FLAG_LOG : N := 1.
Definition FLAG_TSYNC : N := 2.
Definition FLAG_NEW_THREADS : N := 4.

Record SeccompFilter := mkFilter {
  default_action : SeccompAction;
  prog : list SeccompInsn;
  fast_allow : FastAllowSet;
  id : N;
  flags : N;
}.

(** What the kernel heap answers: whether the program of a filter (its vector
    and its [Arc]) and the growth of a filter chain are admitted and
    allocated.  Any refusal surfaces as [OutOfMemory] or [Err(())]. *)
Class SeccompHeap := {
  program_admitted : nat -> bool;
  chain_admitted : nat -> bool;
  clone_admitted : nat -> bool;
}.

Section filters.
Context {heap : SeccompHeap}.

Definition new_validated_from_slice (p : list SeccompInsn) (d : SeccompAction) (fl : N)
  : res SeccompError SeccompFilter :=
  if negb (program_admitted (length p)) then Err OutOfMemory else
  Ok (mkFilter d p (compute_fast_allow p d) (compute_filter_id p) fl).

Definition new_from_slice (p : list SeccompInsn) (d : SeccompAction) (fl : N)
  : res SeccompError SeccompFilter :=
  let? _ := validate_program p in new_validated_from_slice p d fl.

Definition new_trusted_from_slice (p : list SeccompInsn) (d : SeccompAction) (fl : N)
  : res SeccompError SeccompFilter :=
  let? _ := validate_program_with_limit p MAX_TRUSTED_INSNS in new_validated_from_slice p d fl.
End filters.

Definition program_id (p : list SeccompInsn) : N := compute_filter_id p.
Definition prog_len (f : SeccompFilter) : nat := length (prog f).

Definition filter_evaluate (f : SeccompFilter) (syscall_nr : N) (args : list N) : SeccompAction :=
  if (syscall_nr <? 512) && fast_get (fast_allow f) syscall_nr then Allow else
  interpret_program (prog f) (default_action f) syscall_nr args.

(** * Per-process state *)
Record SeccompState := mkSeccompState {
  filters : list SeccompFilter;
  no_new_privs : bool;
  log_violations : bool;
}.

Definition seccomp_new : SeccompState := mkSeccompState [] false false.

(** The loop of [SeccompState::evaluate] over the remaining filters. *)
Fixpoint evaluate_loop (l : list SeccompFilter) (syscall_nr : N) (args : list N)
  (result : SeccompVerdict) : SeccompVerdict :=
  match l with
  | [] => result
  | f :: l =>
      let a := filter_evaluate f syscall_nr args in
      let result :=
        if more_restrictive_than a (action result) then mkVerdict a (id f) else result in
      match action result with
      | Kill => result
      | _ => evaluate_loop l syscall_nr args result
      end
  end.

Definition state_evaluate (s : SeccompState) (syscall_nr : N) (args : list N) : SeccompVerdict :=
  evaluate_loop (filters s) syscall_nr args verdict_allow.

Definition total_insns (l : list SeccompFilter) : nat := sum_list (prog_len <$> l).

Definition add_filter `{heap : SeccompHeap} (s : SeccompState) (f : SeccompFilter) : res unit SeccompState :=
  if (MAX_FILTER_INSNS_TOTAL <? total_insns (filters s) + prog_len f)%nat then Err tt else
  if negb (chain_admitted (length (filters s))) then Err tt else
  Ok (mkSeccompState (filters s ++ [f]) (no_new_privs s) (log_violations s)).

Definition has_filters (s : SeccompState) : bool := negb (bool_decide (filters s = [])).
Definition filter_count (s : SeccompState) : nat := length (filters s).

Definition single_filter_id (s : SeccompState) : option N :=
  if (length (filters s) =? 1)%nat then id <$> head (filters s) else None.

Definition seccomp_try_clone `{heap : SeccompHeap} (s : SeccompState) : res unit SeccompState :=
  if negb (clone_admitted (length (filters s))) then Err tt else
  Ok (mkSeccompState (filters s) (no_new_privs s) (log_violations s)).
