(* ===== verification/Pledge.v ===== *)
(** Pledge promises, the generated filters and the current-process hooks
    (src/kernel/seccomp/types.rs and src/kernel/seccomp/lib.rs). *)

From Stdlib Require Import ZArith Lia.
From stdpp Require Import base list list_numbers numbers strings sorting.
From S2P Require Import Prelude Seccomp.

#[local] Open Scope N_scope.

(** * Syscall numbers *)
Definition SYS_EXIT : N := 60.
Definition SYS_EXIT_GROUP : N := 231.
Definition SYS_FORK : N := 57.
Definition SYS_VFORK : N := 58.
Definition SYS_CLONE : N := 56.
Definition SYS_EXECVE : N := 59.
Definition SYS_WAIT4 : N := 61.
Definition SYS_WAITID : N := 247.
Definition SYS_KILL : N := 62.
Definition SYS_READ : N := 0.
Definition SYS_WRITE : N := 1.
Definition SYS_OPEN : N := 2.
Definition SYS_CLOSE : N := 3.
Definition SYS_STAT : N := 4.
Definition SYS_FSTAT : N := 5.
Definition SYS_LSTAT : N := 6.
Definition SYS_LSEEK : N := 8.
Definition SYS_FSYNC : N := 74.
Definition SYS_FDATASYNC : N := 75.
Definition SYS_SYNC : N := 162.
Definition SYS_SYNC_FILE_RANGE : N := 277.
Definition SYS_MMAP : N := 9.
Definition SYS_MPROTECT : N := 10.
Definition SYS_MUNMAP : N := 11.
Definition SYS_BRK : N := 12.
Definition SYS_MREMAP : N := 25.
Definition SYS_GETPID : N := 39.
Definition SYS_GETUID : N := 102.
Definition SYS_GETGID : N := 104.
Definition SYS_GETEUID : N := 107.
Definition SYS_GETEGID : N := 108.
Definition SYS_GETPPID : N := 110.
Definition SYS_SCHED_YIELD : N := 24.
Definition SYS_RENAME : N := 82.
Definition SYS_MKDIR : N := 83.
Definition SYS_RMDIR : N := 84.
Definition SYS_LINK : N := 86.
Definition SYS_UNLINK : N := 87.
Definition SYS_SYMLINK : N := 88.
Definition SYS_READLINK : N := 89.
Definition SYS_CHMOD : N := 90.
Definition SYS_FCHMOD : N := 91.
Definition SYS_CHOWN : N := 92.
Definition SYS_FCHOWN : N := 93.
Definition SYS_GETRLIMIT : N := 97.
Definition SYS_SETRLIMIT : N := 160.
Definition SYS_PRLIMIT64 : N := 302.
Definition SYS_FUTEX : N := 202.
Definition SYS_SET_TID_ADDRESS : N := 218.
Definition SYS_GETDENTS64 : N := 217.
Definition SYS_OPENAT : N := 257.
Definition SYS_CLOCK_GETTIME : N := 228.
Definition SYS_GETRANDOM : N := 318.
Definition SYS_SELECT : N := 23.
Definition SYS_PSELECT6 : N := 270.
Definition SYS_PPOLL : N := 271.
Definition SYS_POLL : N := 7.

(** * Promise sets: a [u32] of flags *)
Definition STDIO : N := N.shiftl 1 0.
Definition RPATH : N := N.shiftl 1 1.
Definition WPATH : N := N.shiftl 1 2.
Definition CPATH : N := N.shiftl 1 3.
Definition TMPPATH : N := N.shiftl 1 4.
Definition PROC : N := N.shiftl 1 5.
Definition THREAD : N := N.shiftl 1 6.
Definition EXEC : N := N.shiftl 1 7.
Definition UNIX : N := N.shiftl 1 8.
Definition INET : N := N.shiftl 1 9.
Definition DNS : N := N.shiftl 1 10.
Definition FATTR : N := N.shiftl 1 11.
Definition RLIMIT : N := N.shiftl 1 12.
Definition TIME : N := N.shiftl 1 13.
Definition SENDSIG : N := N.shiftl 1 14.
Definition PTRACE : N := N.shiftl 1 15.
Definition PROT_EXEC : N := N.shiftl 1 16.
Definition VM : N := N.shiftl 1 17.

(** [contains], [intersects] and [all] of the flag type *)
Definition promises_contain (p q : N) : bool := N.land p q =? q.
Definition promises_intersect (p q : N) : bool := negb (N.land p q =? 0).
Definition all_promises : N := N.ones 18.

(** A [&str] as its sequence of [char]s. *)
Definition str := list N.
Definition chars (s : string) : str := Ascii.N_of_ascii <$> String.list_ascii_of_string s.

(** The words [PledgePromises::parse] matches, with the flag each one adds. *)
Definition promise_words : list (str * N) :=
  [(chars "stdio", STDIO); (chars "rpath", RPATH); (chars "wpath", WPATH);
   (chars "cpath", CPATH); (chars "tmppath", TMPPATH); (chars "proc", PROC);
   (chars "thread", THREAD); (chars "exec", EXEC); (chars "unix", UNIX);
   (chars "inet", INET); (chars "dns", DNS); (chars "fattr", FATTR);
   (chars "rlimit", RLIMIT); (chars "time", TIME); (chars "sendsig", SENDSIG);
   (chars "ptrace", PTRACE); (chars "prot_exec", PROT_EXEC); (chars "vm", VM)].

Definition promise_of_word (w : str) : option N :=
  first_some (fun wp => if decide (wp.1 = w) then Some wp.2 else None) promise_words.

(** [char::is_whitespace]: the characters of the Unicode property White_Space *)
Definition is_whitespace (c : N) : bool :=
  ((9 <=? c) && (c <=? 13)) || (c =? 32) || (c =? 133) || (c =? 160) || (c =? 5760) ||
  ((8192 <=? c) && (c <=? 8202)) || (c =? 8232) || (c =? 8233) || (c =? 8239) ||
  (c =? 8287) || (c =? 12288).

(** [str::split_whitespace]: the maximal runs of other characters; [word] is
    the run read so far, in reverse. *)
Definition emit (word : str) (rest : list str) : list str :=
  match word with [] => rest | _ => reverse word :: rest end.

Fixpoint split_from (word s : str) : list str :=
  match s with
  | [] => emit word []
  | c :: s => if is_whitespace c then emit word (split_from [] s) else split_from (c :: word) s
  end.

Definition split_whitespace (s : str) : list str := split_from [] s.

Fixpoint parse_words (promises : N) (l : list str) : res SeccompError N :=
  match l with
  | [] => Ok promises
  | w :: l =>
      match promise_of_word w with
      | Some p => parse_words (N.lor promises p) l
      | None => Err InvalidPromise
      end
  end.

Definition parse (s : str) : res SeccompError N := parse_words 0 (split_whitespace s).

(** * The semantic gate *)
Definition one_of (nr : N) (l : list N) : bool := existsb (N.eqb nr) l.

Definition O_ACCMODE : N := 3.
Definition O_WRONLY : N := 1.
Definition O_RDWR : N := 2.
Definition O_CREAT : N := 64.
Definition O_TRUNC : N := 512.
Definition O_APPEND : N := 1024.

Definition CLONE_VM : N := 256.
Definition CLONE_SIGHAND : N := 2048.
Definition CLONE_THREAD : N := 65536.
Definition CLONE_NEWNS : N := 131072.
Definition CLONE_NEWUTS : N := 67108864.
Definition CLONE_NEWIPC : N := 134217728.
Definition CLONE_NEWUSER : N := 268435456.
Definition CLONE_NEWPID : N := 536870912.
Definition CLONE_NEWNET : N := 1073741824.

Definition ns_disallowed : N :=
  N.lor (N.lor (N.lor (N.lor (N.lor CLONE_NEWNS CLONE_NEWUTS) CLONE_NEWIPC) CLONE_NEWUSER)
    CLONE_NEWPID) CLONE_NEWNET.

Definition thread_required : N := N.lor (N.lor CLONE_THREAD CLONE_VM) CLONE_SIGHAND.

Definition arg (args : list N) (i : nat) : N := nth i args 0.

(** The [open]/[openat] branch: access mode against the path promises. *)
Definition allows_open (promises flags : N) : bool :=
  let accmode := N.land flags O_ACCMODE in
  let wants_write := (accmode =? O_WRONLY) || (accmode =? O_RDWR) in
  let wants_create := negb (N.land flags (N.lor O_CREAT O_TRUNC) =? 0) in
  let wants_append := negb (N.land flags O_APPEND =? 0) in
  let has_path := promises_intersect promises (N.lor (N.lor (N.lor RPATH WPATH) CPATH) TMPPATH) in
  let w := promises_contain promises WPATH in
  let c := promises_contain promises CPATH in
  let t := promises_contain promises TMPPATH in
  if negb has_path then false else
  if (wants_write || wants_append) && negb (w || c || t) then false else
  if wants_create && negb (c || t) then false else
  if negb wants_write && negb wants_create
  then promises_contain promises RPATH || w || c || t
  else true.

(** [args[2] as i32] and the test of [PROT_EXEC] *)
Definition as_i32 (v : N) : Z :=
  let w := Z.of_N (v mod 2 ^ 32) in if (w <? 2 ^ 31)%Z then w else (w - 2 ^ 32)%Z.

Definition allows_map (promises prot : N) : bool :=
  if negb (promises_contain promises VM) then false else
  if negb (Z.land (as_i32 prot) 4 =? 0)%Z && negb (promises_contain promises PROT_EXEC) then false
  else true.

(** [clone] under PROC and under THREAD *)
Definition proc_allows_clone (promises clone_flags : N) : bool :=
  if negb (N.land clone_flags ns_disallowed =? 0) then false else
  if negb (N.land clone_flags CLONE_VM =? 0)
  then promises_contain promises THREAD && (N.land clone_flags thread_required =? thread_required)
  else true.

Definition thread_allows_clone (clone_flags : N) : bool :=
  if negb (N.land clone_flags ns_disallowed =? 0) then false else
  N.land clone_flags thread_required =? thread_required.

Definition stdio_syscalls : list N :=
  [SYS_READ; SYS_WRITE; SYS_CLOSE; SYS_FSTAT; SYS_LSEEK; SYS_GETPID; SYS_GETUID; SYS_GETGID;
   SYS_GETEUID; SYS_GETEGID; SYS_GETPPID; SYS_SCHED_YIELD; SYS_POLL; SYS_SELECT; SYS_PSELECT6;
   SYS_PPOLL; SYS_FSYNC; SYS_FDATASYNC; SYS_SYNC; SYS_SYNC_FILE_RANGE].

Definition promise_allows_syscall (promises nr : N) (args : list N) : bool :=
  if (nr =? SYS_EXIT) || (nr =? SYS_EXIT_GROUP) then true else
  if one_of nr [SYS_OPEN; SYS_OPENAT]
  then allows_open promises (if nr =? SYS_OPEN then arg args 1 else arg args 2) else
  if one_of nr [SYS_MMAP; SYS_MPROTECT] then allows_map promises (arg args 2) else
  if promises_contain promises STDIO && one_of nr stdio_syscalls then true else
  if promises_contain promises RPATH && one_of nr [SYS_STAT; SYS_LSTAT; SYS_READLINK; SYS_GETDENTS64]
  then true else
  if promises_contain promises WPATH && one_of nr [SYS_RENAME; SYS_UNLINK; SYS_SYMLINK] then true else
  if promises_contain promises CPATH && one_of nr [SYS_MKDIR; SYS_RMDIR; SYS_LINK] then true else
  if promises_contain promises VM && one_of nr [SYS_MUNMAP; SYS_BRK; SYS_MREMAP] then true else
  if promises_contain promises PROC && one_of nr [SYS_FORK; SYS_VFORK; SYS_WAIT4; SYS_WAITID; SYS_KILL]
  then true else
  if promises_contain promises PROC && (nr =? SYS_CLONE) then proc_allows_clone promises (arg args 0) else
  if promises_contain promises EXEC && (nr =? SYS_EXECVE) then true else
  if promises_contain promises THREAD && one_of nr [SYS_FUTEX; SYS_SET_TID_ADDRESS] then true else
  if promises_contain promises THREAD && (nr =? SYS_CLONE) then thread_allows_clone (arg args 0) else
  if promises_contain promises TIME && one_of nr [SYS_CLOCK_GETTIME; SYS_GETRANDOM] then true else
  if promises_contain promises SENDSIG && (nr =? SYS_KILL) then true else
  if promises_contain promises FATTR && one_of nr [SYS_CHMOD; SYS_CHOWN; SYS_FCHMOD; SYS_FCHOWN]
  then true else
  if promises_contain promises RLIMIT && one_of nr [SYS_GETRLIMIT; SYS_SETRLIMIT; SYS_PRLIMIT64]
  then true else
  false.

Definition promise_allows_syscall_probe (promises nr : N) : bool :=
  promise_allows_syscall promises nr (replicate 6 0).

Record PledgeState := mkPledge { promises : N; exec_promises : option N }.

Definition pledge_new (p : N) : PledgeState := mkPledge p None.
Definition pledge_allows (s : PledgeState) (nr : N) (args : list N) : bool :=
  promise_allows_syscall (promises s) nr args.

(** What a successful [execve] does to the promises. *)
Definition pledge_exec (s : PledgeState) : PledgeState :=
  match exec_promises s with
  | Some p => mkPledge p None
  | None => s
  end.

(** * Generated filters *)

(** [Vec::dedup] *)
Fixpoint dedup (l : list N) : list N :=
  match l with
  | x :: (y :: _) as l' => if x =? y then dedup l' else x :: dedup l'
  | _ => l
  end.

Definition when (b : bool) (l : list N) : list N := if b then l else [].

(** The vector before it is sorted. *)
Definition pledge_pushed (p : N) : list N :=
  [SYS_EXIT; SYS_EXIT_GROUP] ++
  when (promises_contain p STDIO)
    [SYS_READ; SYS_WRITE; SYS_CLOSE; SYS_FSTAT; SYS_LSEEK; SYS_GETPID; SYS_GETUID; SYS_GETGID;
     SYS_GETEUID; SYS_GETEGID; SYS_GETPPID; SYS_SCHED_YIELD; SYS_POLL; SYS_SELECT; SYS_PSELECT6;
     SYS_PPOLL; SYS_FSYNC; SYS_FDATASYNC; SYS_SYNC; SYS_SYNC_FILE_RANGE] ++
  when (promises_contain p RPATH)
    [SYS_OPEN; SYS_OPENAT; SYS_STAT; SYS_LSTAT; SYS_READLINK; SYS_GETDENTS64] ++
  when (promises_contain p WPATH) [SYS_OPEN; SYS_OPENAT; SYS_RENAME; SYS_UNLINK; SYS_SYMLINK] ++
  when (promises_contain p CPATH) [SYS_OPEN; SYS_OPENAT; SYS_MKDIR; SYS_RMDIR; SYS_LINK] ++
  when (promises_contain p TMPPATH) [SYS_OPEN; SYS_OPENAT] ++
  when (promises_contain p VM) [SYS_MMAP; SYS_MPROTECT; SYS_MUNMAP; SYS_BRK; SYS_MREMAP] ++
  when (promises_contain p PROC)
    [SYS_CLONE; SYS_FORK; SYS_VFORK; SYS_WAIT4; SYS_KILL; SYS_WAITID] ++
  when (promises_contain p EXEC) [SYS_EXECVE] ++
  when (promises_contain p THREAD) [SYS_CLONE; SYS_FUTEX; SYS_SET_TID_ADDRESS] ++
  when (promises_contain p TIME) [SYS_CLOCK_GETTIME; SYS_GETRANDOM] ++
  when (promises_contain p SENDSIG) [SYS_KILL] ++
  when (promises_contain p FATTR) [SYS_CHMOD; SYS_CHOWN; SYS_FCHMOD; SYS_FCHOWN] ++
  when (promises_contain p RLIMIT) [SYS_GETRLIMIT; SYS_SETRLIMIT; SYS_PRLIMIT64].

Definition pledge_syscall_list (p : N) : list N := dedup (merge_sort N.le (pledge_pushed p)).

Definition pledge_full_syscall_union : list N := pledge_syscall_list all_promises.

(** [JmpEq(nr, 0, 1); Ret(Allow)] for each allowed number *)
Definition whitelist (l : list N) : list SeccompInsn :=
  LdSyscallNr :: concat ((fun nr => [JmpEq nr 0 1; Ret Allow]) <$> l) ++ [Ret Kill].

Definition STRICT_ALLOWED : list N := [0; 1; 15; 60; 231].

Definition STRICT_PROGRAM : list SeccompInsn :=
  [LdSyscallNr;
   JmpEq 0 0 1; Ret Allow; JmpEq 1 0 1; Ret Allow; JmpEq 15 0 1; Ret Allow;
   JmpEq 60 0 1; Ret Allow; JmpEq 231 0 1; Ret Allow;
   Ret Kill].

Definition MAX_PLEDGE_SYSCALLS : nat := 64.
Definition WORST_CASE_PLEDGE_INSNS : nat := 2 + 2 * MAX_PLEDGE_SYSCALLS.

Section generators.
Context {heap : SeccompHeap}.

(** [.expect] on the constructor: a refusal of the heap aborts. *)
Definition deny_all_filter : res SeccompError SeccompFilter :=
  match new_trusted_from_slice [Ret Kill] Kill 0 with
  | Ok f => Ok f
  | _ => Panic
  end.

Definition or_deny_all (r : res SeccompError SeccompFilter) : res SeccompError SeccompFilter :=
  match r with
  | Ok f => Ok f
  | Err _ => deny_all_filter
  | Panic => Panic
  end.

Definition try_strict_filter : res SeccompError SeccompFilter :=
  new_trusted_from_slice STRICT_PROGRAM Kill 0.

Definition strict_filter : res SeccompError SeccompFilter := or_deny_all try_strict_filter.

Definition pledge_to_filter (p : N) : res SeccompError SeccompFilter :=
  or_deny_all (new_trusted_from_slice (whitelist (pledge_syscall_list p)) Kill 0).
End generators.

Definition strict_filter_id : N := program_id STRICT_PROGRAM.

(** * Current-process hooks *)
Record SeccompHooks := mkHooks {
  current_evaluator : option (N -> list N -> SeccompVerdict);
  current_enabled_check : option bool;
  seccomp_initialized : bool;
}.

Definition hooks_boot : SeccompHooks := mkHooks None None false.

Definition register_current_hooks (ev : N -> list N -> SeccompVerdict) (enabled : bool) (h : SeccompHooks)
  : SeccompHooks := mkHooks (Some ev) (Some enabled) true.

Definition evaluate_current (h : SeccompHooks) (nr : N) (args : list N) : SeccompVerdict :=
  match current_evaluator h with
  | Some evaluator => evaluator nr args
  | None => if seccomp_initialized h then mkVerdict Kill 0 else verdict_allow
  end.

Definition is_enabled (h : SeccompHooks) : bool :=
  match current_enabled_check h with Some check => check | None => false end.
