(* ===== verification/SeccompSys.v ===== *)
(** The syscalls that install filters and the check made on every syscall
    (src/kernel/kernel_core/syscall.rs, src/kernel/kernel_core/process.rs).

    The process table and user memory belong to other components: what a call
    observes of them is a [Scene] and a [UserMemory], arguments of the
    handlers.  The handler drops the process lock between its two checks of
    [seccomp_installing]; the scene carries the first observation, the state
    argument is the one found when the lock is taken again. *)

From Stdlib Require Import ZArith Lia.
From stdpp Require Import base list list_numbers numbers.
From S2P Require Import Prelude Seccomp Pledge.

#[local] Open Scope N_scope.

Inductive SyscallError := EINVAL | ESRCH | EBUSY | EPERM | E2BIG | ENOMEM | EFAULT | EOVERFLOW | EAGAIN.

Definition SECCOMP_SET_MODE_STRICT : N := 0.
Definition SECCOMP_SET_MODE_FILTER : N := 1.
Definition SECCOMP_MODE_DISABLED : N := 0.
Definition SECCOMP_MODE_STRICT : N := 1.
Definition SECCOMP_MODE_FILTER : N := 2.
Definition PR_GET_SECCOMP : Z := 21.
Definition PR_SET_SECCOMP : Z := 22.
Definition PR_SET_NO_NEW_PRIVS : Z := 38.
Definition PR_GET_NO_NEW_PRIVS : Z := 39.

(** * Programs in user memory *)
Record UserSeccompInsn := mkUserInsn { op : N; arg0 : N; arg1 : N; arg2 : N }.
Record UserSeccompProg := mkUserProg { ulen : N; udefault : N; ufilter : N }.

Definition seccomp_error_to_syscall (e : SeccompError) : SyscallError :=
  match e with
  | Fault => EFAULT
  | NotPermitted => EPERM
  | ProgramTooLong => E2BIG
  | OutOfMemory => ENOMEM
  | _ => EINVAL
  end.

Definition map_err {E F A} (f : E -> F) (r : res E A) : res F A :=
  match r with Ok a => Ok a | Err e => Err (f e) | Panic => Panic end.

Definition decode_user_action (code aux : N) : res SyscallError SeccompAction :=
  match code with
  | 0 => Ok Allow
  | 1 => Ok Log
  | 2 => if 2 ^ 31 - 1 <? aux then Err EINVAL else Ok (Errno (as_i32 aux))
  | 3 => Ok Trap
  | 4 => Ok Kill
  | _ => Err EINVAL
  end.

Definition to_u8_checked (val : N) : res SyscallError N :=
  if 255 <? val then Err EINVAL else Ok (val mod 256).

Definition to_shift_amount_checked (val : N) : res SyscallError N :=
  if 63 <? val then Err EINVAL else Ok (val mod 256).

(** The six conditional jumps decode their operands alike. *)
Definition translate_jump (mk : N -> N -> N -> SeccompInsn) (insn : UserSeccompInsn)
  : res SyscallError SeccompInsn :=
  let? t := to_u8_checked (arg1 insn) in
  let? f := to_u8_checked (arg2 insn) in
  Ok (mk (arg0 insn) t f).

Definition translate_user_insn (insn : UserSeccompInsn) : res SyscallError SeccompInsn :=
  match op insn with
  | 0 => Ok LdSyscallNr
  | 1 => let? idx := to_u8_checked (arg0 insn) in
         if 6 <=? idx then Err EINVAL else Ok (LdArg idx)
  | 2 => Ok (LdConst (arg0 insn))
  | 3 => Ok (And (arg0 insn))
  | 4 => Ok (Or (arg0 insn))
  | 5 => let? s := to_shift_amount_checked (arg0 insn) in Ok (Shr s)
  | 6 => translate_jump JmpEq insn
  | 7 => translate_jump JmpNe insn
  | 8 => translate_jump JmpLt insn
  | 9 => translate_jump JmpLe insn
  | 10 => translate_jump JmpGt insn
  | 11 => translate_jump JmpGe insn
  | 12 => let? off := to_u8_checked (arg0 insn) in Ok (Jmp off)
  | 13 => let? a := decode_user_action (arg0 insn mod 2 ^ 32) (arg1 insn) in Ok (Ret a)
  | _ => Err EINVAL
  end.

Fixpoint translate_all (l : list UserSeccompInsn) : res SyscallError (list SeccompInsn) :=
  match l with
  | [] => Ok []
  | i :: l => let? i := translate_user_insn i in
              let? l := translate_all l in
              Ok (i :: l)
  end.

(** [copy_from_user] of the header, and [validate_user_ptr] followed by
    [copy_from_user] of the given number of instructions. *)
Record UserMemory := mkUserMemory {
  read_prog : N -> UserSeccompProg + SyscallError;
  read_insns : N -> nat -> list UserSeccompInsn + SyscallError;
}.

Definition of_user {A} (r : A + SyscallError) : res SyscallError A :=
  match r with inl a => Ok a | inr e => Err e end.

(** [SeccompFlags::from_bits]: no unknown bit *)
Definition flags_from_bits (fl : N) : option N :=
  if N.land fl (N.lor (N.lor FLAG_LOG FLAG_TSYNC) FLAG_NEW_THREADS) =? fl then Some fl else None.

Definition load_user_seccomp_filter `{heap : SeccompHeap} (mem : UserMemory) (fl args : N)
  : res SyscallError SeccompFilter :=
  if negb (N.land fl FLAG_TSYNC =? 0) then Err EINVAL else
  if negb (N.land fl FLAG_NEW_THREADS =? 0) then Err EINVAL else
  let? filter_flags := ok_or (flags_from_bits fl) EINVAL in
  let? up := of_user (read_prog mem args) in
  let len := N.to_nat (ulen up) in
  if (len =? 0)%nat || (MAX_INSNS <? len)%nat then Err EINVAL else
  if ufilter up =? 0 then Err EFAULT else
  let? raw := of_user (read_insns mem (ufilter up) len) in
  let? d := decode_user_action (udefault up) 0 in
  let? p := translate_all raw in
  map_err seccomp_error_to_syscall (new_from_slice p d filter_flags).

(** * Installation *)
Record SeccompProc := mkProc {
  seccomp_state : SeccompState;
  pledge_state : option PledgeState;
  seccomp_installing : bool;
  seccomp_generation : N;
}.

(** What the call sees of the process table: whether the caller is found, the
    counts taken before the lock is retaken with the flag seen then, and the
    recount made under the lock ([None] on contention). *)
Record Scene := mkScene {
  found : bool;
  installing_before : bool;
  thread_count : N;
  pure_vm_siblings : N;
  recount : option (N * N);
}.

Section install.
Context {heap : SeccompHeap}.

(** From [seccomp_installing = true] on: the chain grows or nothing changes. *)
Definition commit_filter (proc : SeccompProc) (f : SeccompFilter) (wants_log : bool)
  : res SyscallError N * SeccompProc :=
  if seccomp_generation proc =? 2 ^ 64 - 1 then (Err EOVERFLOW, proc) else
  match add_filter (seccomp_state proc) f with
  | Ok s =>
      (Ok 0,
       mkProc (mkSeccompState (filters s) true (log_violations s || wants_log))
         (pledge_state proc) false (seccomp_generation proc + 1))
  | _ => (Err ENOMEM, mkProc (seccomp_state proc) (pledge_state proc) false (seccomp_generation proc))
  end.

Definition seccomp_strict (sc : Scene) (proc : SeccompProc) (fl args : N)
  : res SyscallError N * SeccompProc :=
  if negb (fl =? 0) || negb (args =? 0) then (Err EINVAL, proc) else
  if negb (found sc) then (Err ESRCH, proc) else
  if installing_before sc then (Err EBUSY, proc) else
  if 1 <? thread_count sc then (Err EPERM, proc) else
  if 0 <? pure_vm_siblings sc then (Err EPERM, proc) else
  match map_err seccomp_error_to_syscall try_strict_filter with
  | Err e => (Err e, proc)
  | Panic => (Panic, proc)
  | Ok f =>
      if seccomp_installing proc then (Err EBUSY, proc) else
      match recount sc with
      | None => (Err EBUSY, proc)
      | Some (threads, vm_siblings) =>
          if (threads <=? 1) && (vm_siblings =? 0) then commit_filter proc f false
          else (Err EPERM, proc)
      end
  end.

Definition seccomp_filter (mem : UserMemory) (sc : Scene) (proc : SeccompProc) (fl args : N)
  : res SyscallError N * SeccompProc :=
  match load_user_seccomp_filter mem fl args with
  | Err e => (Err e, proc)
  | Panic => (Panic, proc)
  | Ok f =>
      if negb (found sc) then (Err ESRCH, proc) else
      if installing_before sc then (Err EBUSY, proc) else
      let tsync_requested := negb (N.land fl FLAG_TSYNC =? 0) in
      if (1 <? thread_count sc) && negb tsync_requested then (Err EPERM, proc) else
      if 0 <? pure_vm_siblings sc then (Err EBUSY, proc) else
      if seccomp_installing proc then (Err EBUSY, proc) else
      match recount sc with
      | None => (Err EBUSY, proc)
      | Some (threads, vm_siblings) =>
          if (1 <? threads) && negb tsync_requested then (Err EPERM, proc) else
          if 0 <? vm_siblings then (Err EBUSY, proc) else
          commit_filter proc f (N.land (flags f) FLAG_LOG =? FLAG_LOG)
      end
  end.

Definition sys_seccomp (mem : UserMemory) (sc : Scene) (proc : SeccompProc) (sop fl args : N)
  : res SyscallError N * SeccompProc :=
  match sop with
  | 0 => seccomp_strict sc proc fl args
  | 1 => seccomp_filter mem sc proc fl args
  | _ => (Err EINVAL, proc)
  end.

Definition current_seccomp_mode (s : SeccompState) : N :=
  if (filter_count s =? 0)%nat then SECCOMP_MODE_DISABLED else
  match single_filter_id s with
  | Some i => if i =? strict_filter_id then SECCOMP_MODE_STRICT else SECCOMP_MODE_FILTER
  | None => SECCOMP_MODE_FILTER
  end.

(** [sys_prctl] without its test-only options; [lsm] is what the security hook
    called first answers, or the error of building its context. *)
Definition sys_prctl (mem : UserMemory) (sc : Scene) (lsm : bool + SyscallError) (proc : SeccompProc)
  (option : Z) (a2 a3 a4 a5 : N) : res SyscallError N * SeccompProc :=
  if negb (found sc) then (Err ESRCH, proc) else
  match lsm with
  | inr e => (Err e, proc)
  | inl false => (Err EPERM, proc)
  | inl true =>
      if (option =? PR_SET_NO_NEW_PRIVS)%Z then
        if negb (a2 =? 1) then (Err EINVAL, proc) else
        (Ok 0,
         mkProc (mkSeccompState (filters (seccomp_state proc)) true (log_violations (seccomp_state proc)))
           (pledge_state proc) (seccomp_installing proc) (seccomp_generation proc))
      else if (option =? PR_GET_NO_NEW_PRIVS)%Z then
        (Ok (N.b2n (no_new_privs (seccomp_state proc))), proc)
      else if (option =? PR_GET_SECCOMP)%Z then (Ok (current_seccomp_mode (seccomp_state proc)), proc)
      else if (option =? PR_SET_SECCOMP)%Z then
        if negb (a4 =? 0) || negb (a5 =? 0) then (Err EINVAL, proc) else
        match a2 mod 2 ^ 32 with
        | 0 => if negb (a3 =? 0) then (Err EINVAL, proc)
               else sys_seccomp mem sc proc SECCOMP_SET_MODE_STRICT 0 0
        | 1 => sys_seccomp mem sc proc SECCOMP_SET_MODE_FILTER 0 a3
        | _ => (Err EINVAL, proc)
        end
      else (Err EINVAL, proc)
  end.
End install.

(** * The check on every syscall *)

(** [proc] is the current process, if it is found. *)
Definition evaluate_seccomp (proc : option SeccompProc) (nr : N) (args : list N) : SeccompVerdict :=
  match proc with
  | None => verdict_kill 0
  | Some proc =>
      if match pledge_state proc with Some pledge => negb (pledge_allows pledge nr args) | None => false end
      then verdict_kill 0 else
      if has_filters (seccomp_state proc) then
        let verdict := state_evaluate (seccomp_state proc) nr args in
        if log_violations (seccomp_state proc) && is_allow (action verdict)
        then mkVerdict Log (filter_id verdict) else verdict
      else verdict_allow
  end.

Definition has_seccomp_enabled (proc : option SeccompProc) : bool :=
  match proc with
  | None => false
  | Some proc => has_filters (seccomp_state proc) || bool_decide (is_Some (pledge_state proc))
  end.

Definition has_no_new_privs (proc : option SeccompProc) : bool :=
  match proc with None => false | Some proc => no_new_privs (seccomp_state proc) end.

(** The part of [execve] that concerns filtering. *)
Definition exec_seccomp (proc : SeccompProc) : SeccompProc :=
  mkProc (seccomp_state proc) (pledge_exec <$> pledge_state proc) false (seccomp_generation proc).
