(* ===== verification/SeccompFacts.v ===== *)
(** Facts about the filter interpreter, validation, the fast-allow bitmap and
    the filter chain. *)

From Stdlib Require Import ZArith Lia.
From stdpp Require Import base list list_numbers numbers.
From S2P Require Import Prelude Seccomp.

#[local] Open Scope N_scope.

Section interpreter_facts.
Context (prog : list SeccompInsn).
Implicit Types (d a : SeccompAction) (nr acc : N) (args : list N) (pc : nat).

Lemma interpret_loop_unfold d nr args acc pc :
  interpret_loop prog d nr args acc pc =
  match prog !! pc with
  | None => d
  | Some insn =>
      match exec_insn prog nr args acc pc insn with
      | Return a => a
      | Continue acc' pc' => interpret_loop prog d nr args acc' pc'
      end
  end.
Proof.
  rewrite interpret_loop_equation_1.
  destruct (inspect (prog !! pc)) as [[insn|] Hi]; cbn; [|by rewrite Hi].
  destruct (inspect (exec_insn prog nr args acc pc insn)) as [[] He]; cbn; by rewrite Hi, He.
Qed.

(** The loop is entered at increasing program counters only. *)
Lemma interpret_loop_ind (P : N -> nat -> Prop) nr args :
  (forall acc pc,
     (forall insn acc' pc', prog !! pc = Some insn ->
        exec_insn prog nr args acc pc insn = Continue acc' pc' -> P acc' pc') -> P acc pc) ->
  forall acc pc, P acc pc.
Proof.
  intros step acc pc. remember (length prog - pc)%nat as m eqn:Em.
  revert acc pc Em. induction (lt_wf m) as [m _ IH]; intros acc pc ->.
  apply step. intros insn acc' pc' Hi He.
  eapply IH; [|done]. apply exec_insn_advances in He. apply lookup_lt_Some in Hi. lia.
Qed.

(** Without [LdArg] the arguments do not matter. *)
Lemma exec_insn_args nr args args' acc pc insn :
  is_ld_arg insn = false -> exec_insn prog nr args acc pc insn = exec_insn prog nr args' acc pc insn.
Proof. by destruct insn. Qed.

Lemma interpret_loop_args d nr args args' acc pc :
  program_reads_args prog = false ->
  interpret_loop prog d nr args acc pc = interpret_loop prog d nr args' acc pc.
Proof.
  intros Hra. revert acc pc.
  apply (interpret_loop_ind _ nr args). intros acc pc IH. rewrite !interpret_loop_unfold.
  destruct (prog !! pc) as [insn|] eqn:Hi; [|done].
  rewrite (exec_insn_args nr args' args); last first.
  { unfold program_reads_args in Hra. apply not_true_is_false. intros Hl.
    apply not_true_iff_false in Hra. apply Hra, existsb_exists.
    exists insn. split; [|done]. by eapply list_elem_of_In, list_elem_of_lookup_2. }
  destruct (exec_insn prog nr args acc pc insn) eqn:He; [|done]. by eapply IH.
Qed.

(** ** Validated programs *)
Lemma check_insns_lookup len k l i insn :
  check_insns len k l = None -> l !! i = Some insn -> check_insn len (k + i) insn = None.
Proof.
  revert k i. induction l as [|x l IH]; intros k i H Hi; [done|]. simpl in H.
  destruct (check_insn len k x) eqn:Hx; [done|].
  destruct i as [|i]; simpl in Hi.
  - simplify_eq. by rewrite Nat.add_0_r.
  - replace (k + S i)%nat with (S k + i)%nat by lia. by apply IH.
Qed.

(** What [validate_program_with_limit] accepts. *)
Definition valid_program (limit : nat) : Prop :=
  (length prog <= limit)%nat /\
  (forall i insn, prog !! i = Some insn -> check_insn (length prog) i insn = None) /\
  exists a, list.last prog = Some (Ret a).

Lemma validate_valid limit :
  validate_program_with_limit prog limit = Ok tt -> valid_program limit.
Proof.
  unfold validate_program_with_limit.
  destruct (bool_decide_reflect (prog = [])); [done|].
  destruct (Nat.ltb_spec limit (length prog)); [done|].
  destruct (check_insns _ _ _) eqn:Hc; [done|].
  destruct (list.last prog) as [[]|] eqn:Hl; try done. intros _.
  split_and!; [done| |by eexists].
  intros i insn Hi. by apply (check_insns_lookup _ 0 prog).
Qed.

Lemma jump_valid acc pc offset :
  (target pc offset < length prog)%nat ->
  jump (length prog) acc pc offset = Continue acc (target pc offset).
Proof.
  unfold jump, target. intros. rewrite (proj2 (Nat.leb_gt _ _)) by lia. f_equal. lia.
Qed.

(** A validated instruction either returns its own action or goes on at the
    next instruction or at another one of the program. *)
Definition stays (pc : nat) (insn : SeccompInsn) (flow : Flow) : Prop :=
  (exists a, insn = Ret a /\ flow = Return a) \/
  (exists acc' pc', flow = Continue acc' pc' /\ (pc' = pc + 1 \/ pc' < length prog)%nat).

Lemma branch_stays acc pc insn (b : bool) t f :
  (if ((length prog <=? target pc t)%nat || (length prog <=? target pc f)%nat)
   then Some InvalidJump else None) = None ->
  stays pc insn (jump (length prog) acc pc (if b then t else f)).
Proof.
  destruct (Nat.leb_spec (length prog) (target pc t)); [done|].
  destruct (Nat.leb_spec (length prog) (target pc f)); [done|]. intros _.
  destruct b; rewrite jump_valid by done; right; eauto.
Qed.

Lemma exec_insn_valid nr args acc pc insn :
  check_insn (length prog) pc insn = None ->
  stays pc insn (exec_insn prog nr args acc pc insn).
Proof.
  destruct insn as [| | | | |shift| | | | | | |offset|]; cbn [check_insn exec_insn]; intros Hc;
    try (by apply branch_stays); try (right; by eauto); try (left; by eauto).
  - right. unfold checked_shr. destruct (N.leb_spec 64 shift); [done|].
    rewrite (proj2 (N.ltb_lt _ _)) by lia. eauto.
  - apply (branch_stays acc pc (Jmp offset) true offset offset). by destruct (_ <=? _)%nat.
Qed.

(** A validated program answers with the action of one of its [Ret]s, whatever
    the default action. *)
Lemma interpret_loop_valid limit d nr args acc pc :
  valid_program limit -> (pc < length prog)%nat ->
  exists a, Ret a ∈ prog /\ forall d', interpret_loop prog d' nr args acc pc = a.
Proof.
  intros (_ & Hc & r & Hlast). revert acc pc.
  apply (interpret_loop_ind (fun acc pc => (pc < length prog)%nat -> _) nr args).
  intros acc pc IH Hpc. setoid_rewrite interpret_loop_unfold.
  destruct (lookup_lt_is_Some_2 prog pc Hpc) as [insn Hi]. rewrite Hi.
  destruct (exec_insn_valid nr args acc pc insn (Hc _ _ Hi)) as [(a & -> & ->)|(acc' & pc' & He & Hpc')].
  - exists a. split; [by eapply list_elem_of_lookup_2|done].
  - rewrite He. eapply IH; [done..|]. destruct Hpc' as [->|]; [|done].
    destruct (decide (pc + 1 = length prog)%nat) as [Hend|]; [exfalso|lia].
    rewrite last_lookup in Hlast. replace (pred (length prog)) with pc in Hlast by lia.
    by simplify_eq.
Qed.
End interpreter_facts.

(** * Fast-allow bitmap *)
Definition fast_wf (s : FastAllowSet) : Prop := length (bits s) = 8%nat.

Lemma fast_get_testbit s i :
  i < 512 -> fast_get s i = N.testbit (nth (N.to_nat (i / 64)) (bits s) 0) (i mod 64).
Proof.
  intros Hi. unfold fast_get. rewrite (proj2 (N.ltb_lt _ _)) by done.
  change 1 with (N.ones 1). rewrite N.land_ones.
  rewrite N.testbit_eqb, N.shiftr_div_pow2. change (2 ^ 1) with 2.
  set (b := _ mod 2). assert (b < 2) by (apply N.mod_lt; done).
  destruct (N.eqb_spec b 0), (N.eqb_spec b 1); try done; lia.
Qed.

Lemma fast_set_wf s i : fast_wf s -> fast_wf (fast_set s i).
Proof. unfold fast_wf, fast_set. case_match; [|done]. simpl. by rewrite length_alter. Qed.

Lemma fast_get_set s i j :
  fast_wf s -> i < 512 -> j < 512 -> fast_get (fast_set s i) j = (i =? j) || fast_get s j.
Proof.
  intros Hs Hi Hj. rewrite !fast_get_testbit by done.
  unfold fast_set. rewrite (proj2 (N.ltb_lt _ _)) by done. cbn [bits].
  assert (i / 64 < 8) by (apply N.Div0.div_lt_upper_bound; lia).
  assert (j / 64 < 8) by (apply N.Div0.div_lt_upper_bound; lia).
  rewrite !nth_lookup.
  destruct (decide (i / 64 = j / 64)) as [E|E].
  - rewrite E, list_lookup_alter_eq.
    destruct (lookup_lt_is_Some_2 (bits s) (N.to_nat (j / 64))) as [w Hw].
    { rewrite Hs. lia. }
    rewrite Hw. simpl. rewrite N.lor_spec, orb_comm. f_equal.
    rewrite N.shiftl_1_l, N.pow2_bits_eqb.
    pose proof (N.div_mod i 64). pose proof (N.div_mod j 64).
    destruct (N.eqb_spec (i mod 64) (j mod 64)), (N.eqb_spec i j); try done; lia.
  - rewrite list_lookup_alter_ne by lia.
    destruct (N.eqb_spec i j); [by subst|done].
Qed.

Lemma fast_get_empty i : i < 512 -> fast_get fast_empty i = false.
Proof.
  intros Hi. rewrite fast_get_testbit by done. cbn [bits fast_empty].
  rewrite nth_lookup. assert (i / 64 < 8) by (apply N.Div0.div_lt_upper_bound; lia).
  rewrite lookup_replicate_2 by lia. apply N.bits_0.
Qed.

(** The loop that fills the set leaves exactly the numbers it was told to set. *)
Lemma fast_fill_spec (p : N -> bool) l s j :
  fast_wf s -> Forall (fun i => i < 512) l -> j < 512 ->
  fast_get (foldl (fun s i => if p i then fast_set s i else s) s l) j =
  fast_get s j || existsb (fun i => p i && (i =? j)) l.
Proof.
  intros Hs Hl Hj. revert s Hs. induction Hl as [|i l Hi _ IH]; intros s Hs; simpl.
  - by rewrite orb_false_r.
  - rewrite IH by (case_match; auto using fast_set_wf).
    destruct (p i); simpl; [|done]. rewrite fast_get_set by done.
    by rewrite (orb_comm (i =? j)), orb_assoc.
Qed.

Lemma compute_fast_allow_spec p d nr :
  nr < 512 ->
  fast_get (compute_fast_allow p d) nr =
  negb (bool_decide (p = []) || program_reads_args p) && is_allow (interpret_program p d nr (replicate 6 0)).
Proof.
  intros Hnr. unfold compute_fast_allow. destruct (_ || _); [by apply fast_get_empty|]. cbn [negb andb].
  rewrite (fast_fill_spec (fun nr => is_allow (interpret_program p d nr (replicate 6 0))));
    [|apply length_replicate| |exact Hnr].
  - rewrite fast_get_empty by done. cbn [orb]. apply eq_bool_prop_intro. split.
    + intros (i & Hin & [Hp He%N.eqb_eq]%andb_prop)%Is_true_eq_true%existsb_exists.
      subst. by apply Is_true_eq_left.
    + intros Hp%Is_true_eq_true. apply Is_true_eq_left, existsb_exists. exists nr.
      split; [|by rewrite Hp, N.eqb_refl].
      apply list_elem_of_In, list_elem_of_fmap. exists (N.to_nat nr).
      split; [lia|]. apply elem_of_seq. lia.
  - apply list.Forall_forall. intros ? (k & -> & Hk%elem_of_seq)%list_elem_of_fmap. lia.
Qed.

(** * Filters *)

(** What every constructor establishes. *)
Record filter_wf (f : SeccompFilter) : Prop := {
  wf_prog : valid_program (prog f) MAX_TRUSTED_INSNS;
  wf_fast : fast_allow f = compute_fast_allow (prog f) (default_action f);
  wf_id : id f = compute_filter_id (prog f);
}.

(** INV-SEC-01: the bitmap is never a second policy. *)
Lemma filter_evaluate_interprets f nr args :
  filter_wf f ->
  filter_evaluate f nr args = interpret_program (prog f) (default_action f) nr args.
Proof.
  intros Hf. unfold filter_evaluate.
  destruct (N.ltb_spec nr 512); [|done]. simpl.
  destruct (fast_get (fast_allow f) nr) eqn:Hg; [|done].
  rewrite (wf_fast _ Hf), compute_fast_allow_spec in Hg by done.
  apply andb_prop in Hg as [[_ Hra]%negb_true_iff%orb_false_iff Ha].
  unfold interpret_program in *. rewrite (interpret_loop_args _ _ _ args (replicate 6 0)) by done.
  by destruct (interpret_loop _ _ _ _ _ _).
Qed.

Lemma new_validated_wf `{heap : SeccompHeap} limit p d fl f :
  validate_program_with_limit p limit = Ok tt -> (limit <= MAX_TRUSTED_INSNS)%nat ->
  new_validated_from_slice p d fl = Ok f ->
  filter_wf f /\ prog f = p /\ default_action f = d /\ flags f = fl.
Proof.
  intros (Hlen & Hc & Hr)%validate_valid Hlim. unfold new_validated_from_slice.
  destruct (program_admitted _); intros; simplify_eq/=. split_and!; try done.
  split; simpl; try done. split; [lia|done].
Qed.

Lemma new_from_slice_wf `{heap : SeccompHeap} p d fl f :
  new_from_slice p d fl = Ok f -> filter_wf f /\ prog f = p /\ default_action f = d /\ flags f = fl.
Proof.
  unfold new_from_slice, validate_program, MAX_INSNS.
  destruct (validate_program_with_limit _ _) as [[]| |] eqn:Hv; try done. simpl.
  intros H. eapply new_validated_wf; [done| |done]. unfold MAX_TRUSTED_INSNS. lia.
Qed.

Lemma new_trusted_wf `{heap : SeccompHeap} p d fl f :
  new_trusted_from_slice p d fl = Ok f ->
  filter_wf f /\ prog f = p /\ default_action f = d /\ flags f = fl.
Proof.
  unfold new_trusted_from_slice.
  destruct (validate_program_with_limit _ _) as [[]| |] eqn:Hv; try done. simpl.
  intros H. by eapply new_validated_wf.
Qed.

(** Constructing from a valid program is up to the heap. *)
Lemma new_trusted_valid `{heap : SeccompHeap} p d fl :
  validate_program_with_limit p MAX_TRUSTED_INSNS = Ok tt ->
  new_trusted_from_slice p d fl =
  if program_admitted (length p)
  then Ok (mkFilter d p (compute_fast_allow p d) (compute_filter_id p) fl) else Err OutOfMemory.
Proof.
  intros Hv. unfold new_trusted_from_slice, new_validated_from_slice. rewrite Hv. cbn [res_bind].
  by destruct (program_admitted _).
Qed.

Lemma valid_filter_wf p d fl :
  validate_program_with_limit p MAX_TRUSTED_INSNS = Ok tt ->
  filter_wf (mkFilter d p (compute_fast_allow p d) (compute_filter_id p) fl).
Proof. intros. split; cbn [prog]; [by apply validate_valid|done..]. Qed.

(** * Filter chains *)

(** The severities a chain reaches on one call. *)
Definition chain_severity (l : list SeccompFilter) (nr : N) (args : list N) : N :=
  foldr (fun f m => N.max (severity (filter_evaluate f nr args)) m) 0 l.

Lemma severity_le_kill a : severity a <= 4.
Proof. destruct a; simpl; lia. Qed.

Lemma severity_kill a : severity a = 4 -> a = Kill.
Proof. destruct a; simpl; (lia || done). Qed.

Lemma chain_severity_le l nr args : chain_severity l nr args <= 4.
Proof.
  induction l as [|f l IH]; simpl; [lia|].
  pose proof (severity_le_kill (filter_evaluate f nr args)). lia.
Qed.

Lemma chain_severity_app l1 l2 nr args :
  chain_severity (l1 ++ l2) nr args = N.max (chain_severity l1 nr args) (chain_severity l2 nr args).
Proof. induction l1 as [|f l IH]; simpl; [lia|]. rewrite IH. lia. Qed.

Lemma chain_severity_elem l nr args f :
  f ∈ l -> severity (filter_evaluate f nr args) <= chain_severity l nr args.
Proof. induction 1; simpl; lia. Qed.

(** The verdict of the loop: what it started with if no filter is stricter,
    otherwise that of the first of the strictest filters. *)
Definition chain_verdict (l : list SeccompFilter) (nr : N) (args : list N) (r0 r : SeccompVerdict) : Prop :=
  (r = r0 /\ chain_severity l nr args <= severity (action r0)) \/
  (exists l1 f l2,
     l = l1 ++ f :: l2 /\ r = mkVerdict (filter_evaluate f nr args) (id f) /\
     severity (action r0) < severity (action r) /\
     chain_severity l1 nr args < severity (action r) /\
     chain_severity l2 nr args <= severity (action r)).

Lemma chain_verdict_severity l nr args r0 r :
  chain_verdict l nr args r0 r ->
  severity (action r) = N.max (severity (action r0)) (chain_severity l nr args).
Proof.
  intros [(-> & ?)|(l1 & f & l2 & -> & -> & ? & ? & ?)]; [lia|].
  rewrite chain_severity_app. simpl in *. lia.
Qed.

(** Going on with the verdict of the first filter taken into account. *)
Lemma chain_verdict_cons f l nr args r0 r :
  let a := filter_evaluate f nr args in
  let r1 := if more_restrictive_than a (action r0) then mkVerdict a (id f) else r0 in
  chain_verdict l nr args r1 r -> chain_verdict (f :: l) nr args r0 r.
Proof.
  intros a r1. subst r1. unfold more_restrictive_than.
  destruct (N.ltb_spec (severity (action r0)) (severity a)) as [Hm|Hm].
  - intros [(-> & ?)|(l1 & g & l2 & -> & -> & Hlt & ? & ?)]; right.
    + exists [], f, l. simpl in *. split_and!; try done; lia.
    + exists (f :: l1), g, l2. simpl in *. split_and!; try done; subst a; lia.
  - intros [(-> & ?)|(l1 & g & l2 & -> & -> & Hlt & ? & ?)].
    + left. simpl. split; [done|]. subst a. lia.
    + right. exists (f :: l1), g, l2. simpl in *. split_and!; try done; subst a; lia.
Qed.

Lemma evaluate_loop_spec l nr args r0 : chain_verdict l nr args r0 (evaluate_loop l nr args r0).
Proof.
  revert r0. induction l as [|f l IH]; intros r0; simpl; [left; split; [done|apply N.le_0_l]|].
  apply chain_verdict_cons.
  set (r1 := if more_restrictive_than _ _ then _ else _).
  destruct (action r1) eqn:Ea; try apply IH.
  left. split; [reflexivity|]. rewrite Ea. apply chain_severity_le.
Qed.

Lemma state_evaluate_severity s nr args :
  severity (action (state_evaluate s nr args)) = chain_severity (filters s) nr args.
Proof.
  unfold state_evaluate. rewrite (chain_verdict_severity _ _ _ _ _ (evaluate_loop_spec _ _ _ _)).
  simpl. lia.
Qed.

(** The chain of a process: well-formed filters within the total budget. *)
Record state_wf (s : SeccompState) : Prop := {
  wf_filters : Forall filter_wf (filters s);
  wf_total : (total_insns (filters s) <= MAX_FILTER_INSNS_TOTAL)%nat;
}.

Lemma seccomp_new_wf : state_wf seccomp_new.
Proof. split; [constructor|]. apply Nat.le_0_l. Qed.

Lemma total_insns_snoc l f : total_insns (l ++ [f]) = (total_insns l + prog_len f)%nat.
Proof.
  unfold total_insns. rewrite fmap_app. induction l as [|g l IH]; [simpl; lia|].
  rewrite fmap_cons, <- app_comm_cons. cbn [sum_list]. rewrite IH. lia.
Qed.

Lemma add_filter_wf `{heap : SeccompHeap} s f s' :
  state_wf s -> filter_wf f -> add_filter s f = Ok s' -> state_wf s'.
Proof.
  intros [Hf Ht] Hwf. unfold add_filter.
  destruct (Nat.ltb_spec MAX_FILTER_INSNS_TOTAL (total_insns (filters s) + prog_len f)); [done|].
  destruct (chain_admitted _); [|done]. intros [= <-]. split; simpl.
  - apply Forall_app. split; [done|]. by constructor.
  - by rewrite total_insns_snoc.
Qed.

Lemma add_filter_filters `{heap : SeccompHeap} s f s' :
  add_filter s f = Ok s' ->
  filters s' = filters s ++ [f] /\ no_new_privs s' = no_new_privs s /\ log_violations s' = log_violations s.
Proof. unfold add_filter. repeat case_match; intros [=]; by subst. Qed.

(** * Filter identity *)

(** The bytes [compute_filter_id] folds for one instruction. *)
Definition action_bytes (a : SeccompAction) : list N :=
  match a with
  | Allow => [0] | Log => [1]
  | Errno e => 2 :: le_bytes 4 (Z.to_N (e mod 2 ^ 32))
  | Trap => [3] | Kill => [4]
  end.

Definition insn_bytes (i : SeccompInsn) : list N :=
  let jmp op v t f := op :: le_bytes 8 v ++ [t; f] in
  match i with
  | LdSyscallNr => [0]
  | LdArg idx => [1; idx]
  | LdConst v => 2 :: le_bytes 8 v
  | And v => 3 :: le_bytes 8 v
  | Or v => 4 :: le_bytes 8 v
  | Shr s => [5; s]
  | JmpEq v t f => jmp 6 v t f
  | JmpNe v t f => jmp 7 v t f
  | JmpLt v t f => jmp 8 v t f
  | JmpLe v t f => jmp 9 v t f
  | JmpGt v t f => jmp 10 v t f
  | JmpGe v t f => jmp 11 v t f
  | Jmp off => [12; off]
  | Ret a => 13 :: action_bytes a
  end.

Lemma hash_insn_bytes h i : hash_insn h i = foldl fnv_byte h (insn_bytes i).
Proof.
  unfold hash_insn, hash_action, hash_jump, fnv_u64, fnv_i32, insn_bytes, action_bytes.
  generalize fnv_byte as g, le_bytes as b. intros g b.
  destruct i as [| | | | | | | | | | | | |[]]; cbn [foldl app]; rewrite ?foldl_app; reflexivity.
Qed.

Lemma compute_filter_id_bytes p :
  compute_filter_id p = foldl fnv_byte 14695981039346656037 (concat (insn_bytes <$> p)).
Proof.
  unfold compute_filter_id. generalize 14695981039346656037.
  induction p as [|i p IH]; intros h; [done|].
  cbn [foldl fmap list_fmap concat]. by rewrite foldl_app, <- hash_insn_bytes, IH.
Qed.

(** The ranges of the fields. *)
Definition action_in_range (a : SeccompAction) : Prop :=
  match a with Errno e => (- 2 ^ 31 <= e < 2 ^ 31)%Z | _ => True end.

Definition insn_in_range (i : SeccompInsn) : Prop :=
  match i with
  | LdConst v | And v | Or v => v < 2 ^ 64
  | JmpEq v _ _ | JmpNe v _ _ | JmpLt v _ _ | JmpLe v _ _ | JmpGt v _ _ | JmpGe v _ _ => v < 2 ^ 64
  | Ret a => action_in_range a
  | _ => True
  end.

Lemma le_bytes_app_inj n v w r s :
  v < 256 ^ N.of_nat n -> w < 256 ^ N.of_nat n ->
  le_bytes n v ++ r = le_bytes n w ++ s -> v = w /\ r = s.
Proof.
  revert v w. induction n as [|n IH]; intros v w Hv Hw H.
  - simpl in *. split; [lia|done].
  - cbn [le_bytes app] in H. injection H as Hm Hr.
    rewrite Nat2N.inj_succ, N.pow_succ_r' in Hv, Hw.
    apply IH in Hr as [Hd ->]; [|by apply N.Div0.div_lt_upper_bound..].
    split; [|done]. rewrite (N.div_mod v 256), (N.div_mod w 256) by done. by rewrite Hm, Hd.
Qed.

Lemma u64_bytes_inj v w r s :
  v < 2 ^ 64 -> w < 2 ^ 64 -> le_bytes 8 v ++ r = le_bytes 8 w ++ s -> v = w /\ r = s.
Proof. change (2 ^ 64) with (256 ^ N.of_nat 8). apply le_bytes_app_inj. Qed.

Lemma i32_bytes_inj e e' r s :
  (- 2 ^ 31 <= e < 2 ^ 31)%Z -> (- 2 ^ 31 <= e' < 2 ^ 31)%Z ->
  le_bytes 4 (Z.to_N (e mod 2 ^ 32)) ++ r = le_bytes 4 (Z.to_N (e' mod 2 ^ 32)) ++ s ->
  e = e' /\ r = s.
Proof.
  intros He He' H.
  pose proof (Z.mod_pos_bound e (2 ^ 32) ltac:(lia)). pose proof (Z.mod_pos_bound e' (2 ^ 32) ltac:(lia)).
  apply le_bytes_app_inj in H as [Hm ->]; [|change (256 ^ N.of_nat 4) with (2 ^ 32); lia..].
  split; [|done]. apply Z2N.inj in Hm; [|lia..].
  pose proof (Z.div_mod e (2 ^ 32)). pose proof (Z.div_mod e' (2 ^ 32)).
  assert (- 1 <= e / 2 ^ 32 <= 0)%Z by (split; [apply Z.div_le_lower_bound|apply Z.lt_succ_r, Z.div_lt_upper_bound]; lia).
  assert (- 1 <= e' / 2 ^ 32 <= 0)%Z by (split; [apply Z.div_le_lower_bound|apply Z.lt_succ_r, Z.div_lt_upper_bound]; lia).
  lia.
Qed.

(** No instruction's bytes begin another's. *)
Lemma insn_bytes_app_inj i j r s :
  insn_in_range i -> insn_in_range j -> insn_bytes i ++ r = insn_bytes j ++ s -> i = j /\ r = s.
Proof.
  intros Hi Hj H.
  assert (Hop : head (insn_bytes i) = head (insn_bytes j)).
  { apply (f_equal head) in H. by destruct i, j. }
  destruct i, j; try discriminate Hop; clear Hop; cbn [insn_bytes app] in H; simpl in Hi, Hj;
    apply (f_equal tail) in H; cbn [tail] in H;
    lazymatch type of H with
    | context [le_bytes 8 _] =>
        rewrite <- ?app_assoc in H; apply u64_bytes_inj in H as [-> H]; [|done..]; by simplify_eq/=
    | context [action_bytes] => idtac
    | _ => by simplify_eq
    end.
  destruct a, a0; cbn [action_bytes app] in H; simpl in Hi, Hj;
    apply (f_equal head) in H as Hop; try discriminate Hop; apply (f_equal tail) in H; cbn [tail] in H;
    [by subst..| |by subst|by subst].
  apply (i32_bytes_inj _ _ _ _ Hi Hj) in H as [-> ->]. done.
Qed.

Lemma program_bytes_inj p q :
  Forall insn_in_range p -> Forall insn_in_range q ->
  concat (insn_bytes <$> p) = concat (insn_bytes <$> q) -> p = q.
Proof.
  intros Hp. revert q. induction Hp as [|i p Hi _ IH]; intros q Hq H.
  - destruct Hq as [|j q]; [done|]. by destruct j.
  - destruct Hq as [|j q Hj Hq]; [by destruct i|].
    cbn [fmap list_fmap concat] in H. apply insn_bytes_app_inj in H as [-> H]; [|done..].
    f_equal. by apply IH.
Qed.
