(* ===== verification/PledgeFacts.v ===== *)
(** Facts about promise sets, the semantic gate, promise strings and the
    generated whitelist programs. *)

From Stdlib Require Import ZArith Lia.
From stdpp Require Import base list list_numbers numbers strings sorting.
From S2P Require Import Prelude Seccomp SeccompFacts Pledge.

#[local] Open Scope N_scope.

(** * Promise sets *)
Lemma contain_flag p k : promises_contain p (N.shiftl 1 k) = N.testbit p k.
Proof.
  unfold promises_contain. rewrite N.shiftl_1_l.
  destruct (N.testbit p k) eqn:Hb.
  - apply N.eqb_eq, N.bits_inj. intros n. rewrite N.land_spec, N.pow2_bits_eqb.
    destruct (N.eqb_spec k n) as [->|]; [by rewrite Hb|by rewrite andb_false_r].
  - apply N.eqb_neq. intros E. apply (f_equal (fun v => N.testbit v k)) in E.
    rewrite N.land_spec, Hb, N.pow2_bits_true in E. done.
Qed.

(** [p] promises no more than [q]. *)
Definition narrower (p q : N) : Prop := N.land p q = p.

Lemma narrower_contain p q flag :
  narrower p q -> promises_contain p flag = true -> promises_contain q flag = true.
Proof.
  unfold narrower, promises_contain. intros Hpq [= Hp]%N.eqb_eq. apply N.eqb_eq.
  apply N.bits_inj. intros n.
  apply (f_equal (fun v => N.testbit v n)) in Hp, Hpq. rewrite !N.land_spec in *.
  destruct (N.testbit p n), (N.testbit q n), (N.testbit flag n); done.
Qed.

Lemma contain_intersect p q r :
  promises_intersect p (N.lor q r) = promises_intersect p q || promises_intersect p r.
Proof.
  unfold promises_intersect. rewrite N.land_lor_distr_r, <- negb_andb. f_equal.
  apply eq_bool_prop_intro. split.
  - intros [-> ->]%Is_true_eq_true%N.eqb_eq%N.lor_eq_0_iff. done.
  - intros [->%N.eqb_eq ->%N.eqb_eq]%Is_true_eq_true%andb_prop. done.
Qed.

Lemma intersect_flag p k : promises_intersect p (N.shiftl 1 k) = promises_contain p (N.shiftl 1 k).
Proof.
  rewrite contain_flag. unfold promises_intersect. rewrite N.shiftl_1_l.
  destruct (N.testbit p k) eqn:Hb.
  - apply negb_true_iff, N.eqb_neq. intros E. apply (f_equal (fun v => N.testbit v k)) in E.
    by rewrite N.land_spec, Hb, N.pow2_bits_true in E.
  - apply negb_false_iff, N.eqb_eq, N.bits_inj_0. intros n. rewrite N.land_spec, N.pow2_bits_eqb.
    destruct (N.eqb_spec k n) as [->|]; [by rewrite Hb|by rewrite andb_false_r].
Qed.

(** * The semantic gate *)

(** The promises that allow syscalls whatever their arguments. *)
Definition unconditional : list (N * list N) :=
  [(STDIO, stdio_syscalls);
   (RPATH, [SYS_STAT; SYS_LSTAT; SYS_READLINK; SYS_GETDENTS64]);
   (WPATH, [SYS_RENAME; SYS_UNLINK; SYS_SYMLINK]);
   (CPATH, [SYS_MKDIR; SYS_RMDIR; SYS_LINK]);
   (VM, [SYS_MUNMAP; SYS_BRK; SYS_MREMAP]);
   (PROC, [SYS_FORK; SYS_VFORK; SYS_WAIT4; SYS_WAITID; SYS_KILL]);
   (EXEC, [SYS_EXECVE]);
   (THREAD, [SYS_FUTEX; SYS_SET_TID_ADDRESS]);
   (TIME, [SYS_CLOCK_GETTIME; SYS_GETRANDOM]);
   (SENDSIG, [SYS_KILL]);
   (FATTR, [SYS_CHMOD; SYS_CHOWN; SYS_FCHMOD; SYS_FCHOWN]);
   (RLIMIT, [SYS_GETRLIMIT; SYS_SETRLIMIT; SYS_PRLIMIT64])].

(** A [clone] makes a thread, or a process without sharing memory; never a
    namespace. *)
Definition clone_policy (p fl : N) : bool :=
  (N.land fl ns_disallowed =? 0) &&
  (promises_contain p THREAD && (N.land fl thread_required =? thread_required) ||
   promises_contain p PROC && (N.land fl CLONE_VM =? 0)).

(** Opening a file needs a path promise, writing one that is not read-only,
    creating or truncating one that creates. *)
Definition open_policy (p fl : N) : bool :=
  let c := promises_contain p CPATH || promises_contain p TMPPATH in
  let w := promises_contain p WPATH || c in
  let accmode := N.land fl O_ACCMODE in
  (promises_contain p RPATH || w) &&
  implb ((accmode =? O_WRONLY) || (accmode =? O_RDWR) || negb (N.land fl O_APPEND =? 0)) w &&
  implb (negb (N.land fl (N.lor O_CREAT O_TRUNC) =? 0)) c.

(** Mapping memory needs VM, mapping it executable PROT_EXEC as well. *)
Definition map_policy (p prot : N) : bool :=
  promises_contain p VM && implb (N.testbit prot 2) (promises_contain p PROT_EXEC).

(** The policy the promises stand for. *)
Definition policy (p nr : N) (args : list N) : bool :=
  one_of nr [SYS_EXIT; SYS_EXIT_GROUP] ||
  (nr =? SYS_OPEN) && open_policy p (arg args 1) ||
  (nr =? SYS_OPENAT) && open_policy p (arg args 2) ||
  one_of nr [SYS_MMAP; SYS_MPROTECT] && map_policy p (arg args 2) ||
  (nr =? SYS_CLONE) && clone_policy p (arg args 0) ||
  existsb (fun fl => promises_contain p fl.1 && one_of nr fl.2) unconditional.

Lemma allows_open_policy p fl : allows_open p fl = open_policy p fl.
Proof.
  unfold allows_open, open_policy. rewrite !contain_intersect.
  unfold RPATH, WPATH, CPATH, TMPPATH. rewrite !intersect_flag.
  destruct (promises_contain p (N.shiftl 1 1)), (promises_contain p (N.shiftl 1 2)),
    (promises_contain p (N.shiftl 1 3)), (promises_contain p (N.shiftl 1 4)),
    (N.land fl O_ACCMODE =? O_WRONLY), (N.land fl O_ACCMODE =? O_RDWR),
    (N.land fl O_APPEND =? 0), (N.land fl (N.lor O_CREAT O_TRUNC) =? 0); reflexivity.
Qed.

Lemma as_i32_bit2 v : (Z.land (as_i32 v) 4 =? 0)%Z = negb (N.testbit v 2).
Proof.
  assert (Hb : Z.testbit (as_i32 v) 2 = N.testbit v 2).
  { unfold as_i32. set (w := v mod 2 ^ 32).
    assert (Hw : N.testbit w 2 = N.testbit v 2) by (apply N.mod_pow2_bits_low; lia).
    rewrite <- Hw, <- N2Z.inj_testbit. change (Z.of_N 2) with 2%Z.
    destruct (_ <? _)%Z; [done|].
    replace (Z.of_N w - 2 ^ 32)%Z with (Z.of_N w + (-1) * 2 ^ 32)%Z by lia.
    rewrite <- (Z.mod_pow2_bits_low _ 32) by lia. rewrite Z.mod_add by lia.
    rewrite Z.mod_pow2_bits_low by lia. done. }
  rewrite <- Hb. destruct (Z.testbit (as_i32 v) 2) eqn:E; simpl.
  - apply Z.eqb_neq. intros H. apply (f_equal (fun z => Z.testbit z 2)) in H.
    by rewrite Z.land_spec, E in H.
  - apply Z.eqb_eq, Z.bits_inj_0. intros n. rewrite Z.land_spec.
    destruct (decide (n = 2)%Z) as [->|]; [by rewrite E|].
    change 4%Z with (2 ^ 2)%Z. rewrite Z.pow2_bits_false by lia. apply andb_false_r.
Qed.

Lemma allows_map_policy p prot : allows_map p prot = map_policy p prot.
Proof.
  unfold allows_map, map_policy. rewrite as_i32_bit2.
  by destruct (promises_contain p VM), (N.testbit prot 2), (promises_contain p PROT_EXEC).
Qed.

Lemma thread_required_vm fl :
  N.land fl thread_required =? thread_required = true -> N.land fl CLONE_VM =? 0 = false.
Proof.
  intros H%N.eqb_eq. apply N.eqb_neq. intros E.
  apply (f_equal (fun v => N.testbit v 8)) in H, E. rewrite N.land_spec in *.
  change (N.testbit thread_required 8) with true in H. change (N.testbit CLONE_VM 8) with true in E.
  rewrite andb_true_r in *. rewrite H in E. by rewrite N.bits_0 in E.
Qed.

Lemma clone_policy_spec p fl :
  (if promises_contain p PROC then proc_allows_clone p fl
   else if promises_contain p THREAD then thread_allows_clone fl else false) = clone_policy p fl.
Proof.
  unfold proc_allows_clone, thread_allows_clone, clone_policy.
  destruct (N.land fl ns_disallowed =? 0); [|by repeat case_match].
  pose proof (thread_required_vm fl) as Hvm.
  destruct (promises_contain p PROC), (promises_contain p THREAD),
    (N.land fl thread_required =? thread_required), (N.land fl CLONE_VM =? 0); try done;
    by specialize (Hvm eq_refl).
Qed.

(** Every number some promise mentions. *)
Definition known : list N := pledge_pushed all_promises.

Lemma one_of_elem nr l : one_of nr l = true <-> nr ∈ l.
Proof.
  unfold one_of. rewrite existsb_exists. setoid_rewrite N.eqb_eq. setoid_rewrite <- list_elem_of_In.
  naive_solver.
Qed.

Lemma one_of_if {A} nr l (x y : A) :
  (if one_of nr l then x else y) = if decide (nr ∈ l) then x else y.
Proof.
  destruct (decide (nr ∈ l)) as [Hin%one_of_elem|Hn]; [by rewrite Hin|].
  destruct (one_of nr l) eqn:E; [by apply one_of_elem in E|done].
Qed.

Lemma one_of_unknown nr l :
  one_of nr known = false -> forallb (fun x => one_of x known) l = true -> one_of nr l = false.
Proof.
  intros Hn Hl. apply not_true_iff_false. intros Hin%one_of_elem.
  rewrite forallb_forall in Hl. specialize (Hl nr (proj1 (list_elem_of_In _ _) Hin)). congruence.
Qed.

Lemma eqb_unknown nr n : one_of nr known = false -> one_of n known = true -> (nr =? n) = false.
Proof. intros Hn Hk. apply N.eqb_neq. intros ->. congruence. Qed.

(** The gate on a number no promise mentions. *)
Lemma gate_unknown p nr args :
  one_of nr known = false -> promise_allows_syscall p nr args = false /\ policy p nr args = false.
Proof.
  intros Hn. unfold promise_allows_syscall, policy, unconditional. cbn [existsb fst snd].
  rewrite !(one_of_unknown nr _ Hn), !(eqb_unknown nr _ Hn) by reflexivity.
  by rewrite !andb_false_r.
Qed.

(** Case analysis on the promises a goal still asks about. *)
Ltac promise_cases p :=
  repeat match goal with |- context [promises_contain p ?fl] => destruct (promises_contain p fl) end.

(** Go through the numbers of a list. *)
Ltac each_number H :=
  repeat (apply elem_of_cons in H as [->|H]; [|]); try by apply elem_of_nil in H.

Ltac gate_simpl :=
  cbn -[promises_contain open_policy map_policy clone_policy proc_allows_clone thread_allows_clone N.land];
  rewrite ?andb_false_r, ?andb_true_r, ?orb_false_r; cbn [orb].

Lemma gate_is_policy p nr args : promise_allows_syscall p nr args = policy p nr args.
Proof.
  destruct (one_of nr known) eqn:Hk; last first.
  { by destruct (gate_unknown p nr args Hk) as [-> ->]. }
  apply one_of_elem in Hk. unfold promise_allows_syscall, policy, unconditional.
  rewrite allows_open_policy, allows_map_policy, <- clone_policy_spec. cbn [existsb fst snd].
  each_number Hk; gate_simpl; promise_cases p; done.
Qed.

(** ** Promising less allows less *)
Lemma open_policy_narrower p q fl : narrower p q -> open_policy p fl = true -> open_policy q fl = true.
Proof.
  intros Hn. unfold open_policy.
  pose proof (narrower_contain p q RPATH Hn) as Hr. pose proof (narrower_contain p q WPATH Hn) as Hw.
  pose proof (narrower_contain p q CPATH Hn) as Hc. pose proof (narrower_contain p q TMPPATH Hn) as Ht.
  rewrite !andb_true_iff, !implb_true_iff, !orb_true_iff. naive_solver.
Qed.

Lemma policy_narrower p q nr args : narrower p q -> policy p nr args = true -> policy q nr args = true.
Proof.
  intros Hn. unfold policy. pose proof (fun fl => narrower_contain p q fl Hn) as Hc.
  rewrite !orb_true_iff, !andb_true_iff, !existsb_exists.
  intros [[[[[H|[? H]]|[? H]]|[? H]]|[? H]]|(fl & ? & [? ?]%andb_prop)].
  - tauto.
  - pose proof (open_policy_narrower p q _ Hn H). tauto.
  - pose proof (open_policy_narrower p q _ Hn H). tauto.
  - unfold map_policy in *. rewrite !andb_true_iff, !implb_true_iff in *.
    pose proof (Hc VM). pose proof (Hc PROT_EXEC). tauto.
  - unfold clone_policy in *. rewrite !andb_true_iff, !orb_true_iff, !andb_true_iff in *.
    pose proof (Hc THREAD). pose proof (Hc PROC). tauto.
  - right. exists fl. split; [done|]. apply andb_true_intro. auto.
Qed.

(** ** The whitelist and the gate agree on the numbers *)
Lemma one_of_app nr l1 l2 : one_of nr (l1 ++ l2) = one_of nr l1 || one_of nr l2.
Proof. apply existsb_app. Qed.

Lemma one_of_when nr b l : one_of nr (when b l) = b && one_of nr l.
Proof. by destruct b. Qed.

Lemma pushed_unknown p nr : one_of nr known = false -> one_of nr (pledge_pushed p) = false.
Proof.
  intros Hn. unfold pledge_pushed. rewrite !one_of_app, !one_of_when.
  rewrite !(one_of_unknown nr _ Hn) by reflexivity. by rewrite !andb_false_r.
Qed.

(** Arguments under which a promise set allows all it can of a syscall. *)
Definition widest (p nr : N) : list N :=
  if (nr =? SYS_CLONE) && promises_contain p THREAD then [thread_required; 0; 0; 0; 0; 0]
  else replicate 6 0.

Lemma policy_widest p nr : policy p nr (widest p nr) = one_of nr (pledge_pushed p).
Proof.
  destruct (one_of nr known) eqn:Hk; last first.
  { destruct (gate_unknown p nr (widest p nr) Hk) as [_ ->]. by rewrite pushed_unknown. }
  apply one_of_elem in Hk. unfold pledge_pushed, policy, unconditional. rewrite !one_of_app, !one_of_when.
  each_number Hk; unfold widest, open_policy, map_policy, clone_policy; gate_simpl;
    promise_cases p; reflexivity.
Qed.

Lemma policy_pushed p nr args : policy p nr args = true -> one_of nr (pledge_pushed p) = true.
Proof.
  destruct (one_of nr known) eqn:Hk; last first.
  { by destruct (gate_unknown p nr args Hk) as [_ ->]. }
  apply one_of_elem in Hk. unfold pledge_pushed, policy, unconditional. rewrite !one_of_app, !one_of_when.
  each_number Hk; unfold open_policy, map_policy, clone_policy; gate_simpl;
    promise_cases p; rewrite ?andb_false_r; done.
Qed.

(** ** The list: sorted, without duplicates, bounded *)
Lemma dedup_cons2 a b l :
  dedup (a :: b :: l) = if a =? b then dedup (b :: l) else a :: dedup (b :: l).
Proof. reflexivity. Qed.

Lemma elem_of_dedup x l : x ∈ dedup l <-> x ∈ l.
Proof.
  induction l as [|a [|b l] IH]; [done..|]. rewrite dedup_cons2.
  destruct (N.eqb_spec a b) as [->|].
  - rewrite IH, !elem_of_cons. tauto.
  - rewrite elem_of_cons, IH. by rewrite (elem_of_cons (b :: l)).
Qed.

Lemma dedup_sorted l : StronglySorted N.le l -> StronglySorted N.lt (dedup l).
Proof.
  induction l as [|a [|b l] IH]; intros Hs; [constructor|by repeat constructor|].
  apply StronglySorted_inv in Hs as [Hs Ha]. rewrite dedup_cons2.
  destruct (N.eqb_spec a b); [by apply IH|]. constructor; [by apply IH|].
  apply list.Forall_forall. intros x Hx. rewrite elem_of_dedup in Hx.
  apply StronglySorted_inv in Hs as [_ Hb]. rewrite list.Forall_forall in Ha, Hb.
  pose proof (Ha b ltac:(by left)). apply elem_of_cons in Hx as [->|Hx]; [lia|].
  specialize (Hb x Hx). lia.
Qed.

Lemma sorted_lt_NoDup l : StronglySorted N.lt l -> NoDup l.
Proof.
  induction 1 as [|a l Hs IH Ha]; constructor; [|done].
  intros Hin. rewrite list.Forall_forall in Ha. specialize (Ha a Hin). lia.
Qed.

Lemma elem_of_pledge_list p nr : nr ∈ pledge_syscall_list p <-> one_of nr (pledge_pushed p) = true.
Proof.
  unfold pledge_syscall_list. rewrite elem_of_dedup, one_of_elem.
  by rewrite (merge_sort_Permutation N.le (pledge_pushed p)).
Qed.

Lemma pledge_list_sorted p : StronglySorted N.lt (pledge_syscall_list p).
Proof. apply dedup_sorted, StronglySorted_merge_sort; apply _. Qed.

Lemma pledge_list_length p : (length (pledge_syscall_list p) <= 57)%nat.
Proof.
  transitivity (length pledge_full_syscall_union); [|vm_compute; lia].
  apply submseteq_length, NoDup_submseteq; [apply sorted_lt_NoDup, pledge_list_sorted|].
  intros nr Hnr%elem_of_pledge_list. apply elem_of_pledge_list.
  destruct (one_of nr (pledge_pushed all_promises)) eqn:E; [done|].
  change (one_of nr known = false) in E. by rewrite pushed_unknown in Hnr.
Qed.

(** * Whitelist programs *)
Definition arms (l : list N) : list SeccompInsn := concat ((fun nr => [JmpEq nr 0 1; Ret Allow]) <$> l).

Lemma length_arms l : length (arms l) = (2 * length l)%nat.
Proof.
  induction l as [|n l IH]; [done|].
  change (arms (n :: l)) with ([JmpEq n 0 1; Ret Allow] ++ arms l). rewrite length_app, IH. simpl. lia.
Qed.

Lemma length_whitelist l : length (whitelist l) = (2 + 2 * length l)%nat.
Proof.
  change (whitelist l) with (LdSyscallNr :: arms l ++ [Ret Kill]).
  simpl. rewrite length_app, length_arms. simpl. lia.
Qed.

(** The arms from the [k]-th on decide membership in the rest of the list. *)
Lemma whitelist_arms pre l d nr args :
  interpret_loop (pre ++ arms l ++ [Ret Kill]) d nr args nr (length pre) =
  if one_of nr l then Allow else Kill.
Proof.
  revert pre. induction l as [|n l IH]; intros pre; rewrite interpret_loop_unfold.
  - by rewrite lookup_app_r, Nat.sub_diag by lia.
  - change (arms (n :: l)) with (JmpEq n 0 1 :: Ret Allow :: arms l).
    rewrite lookup_app_r, Nat.sub_diag by lia. cbn [app lookup list_lookup exec_insn one_of existsb].
    unfold jump. rewrite !length_app. cbn [length]. rewrite length_app. cbn [length].
    destruct (N.eqb_spec nr n) as [->|Hne]; cbn [orb].
    + rewrite (proj2 (Nat.leb_gt _ _)) by lia. rewrite interpret_loop_unfold.
      rewrite lookup_app_r by lia. by replace (length pre + (1 + N.to_nat 0) - length pre)%nat with 1%nat by lia.
    + rewrite (proj2 (Nat.leb_gt _ _)) by lia.
      replace (length pre + (1 + N.to_nat 1))%nat with (length (pre ++ [JmpEq n 0 1; Ret Allow]))
        by (rewrite length_app; simpl; lia).
      change (existsb (N.eqb nr) l) with (one_of nr l).
      rewrite <- (IH (pre ++ [JmpEq n 0 1; Ret Allow])). f_equal. by rewrite <- app_assoc.
Qed.

Lemma interpret_whitelist l d nr args :
  interpret_program (whitelist l) d nr args = if one_of nr l then Allow else Kill.
Proof.
  unfold interpret_program. change (whitelist l) with ([LdSyscallNr] ++ arms l ++ [Ret Kill]).
  rewrite interpret_loop_unfold. cbn [app lookup list_lookup exec_insn Nat.add].
  apply (whitelist_arms [LdSyscallNr]).
Qed.

Lemma check_arms len k l :
  (k + 2 * length l < len)%nat -> check_insns len k (arms l ++ [Ret Kill]) = None.
Proof.
  revert k. induction l as [|n l IH]; intros k Hk; [done|]. simpl in Hk.
  change (arms (n :: l)) with ([JmpEq n 0 1; Ret Allow] ++ arms l).
  cbn [app check_insns check_insn]. unfold target.
  rewrite !(proj2 (Nat.leb_gt _ _)) by (simpl; lia). cbn [orb]. apply IH. lia.
Qed.

Lemma validate_whitelist l limit :
  (2 + 2 * length l <= limit)%nat -> validate_program_with_limit (whitelist l) limit = Ok tt.
Proof.
  intros Hl. unfold validate_program_with_limit. rewrite length_whitelist.
  rewrite bool_decide_false by done. rewrite (proj2 (Nat.ltb_ge _ _)) by done.
  change (whitelist l) with (LdSyscallNr :: arms l ++ [Ret Kill]).
  cbn [check_insns check_insn]. rewrite check_arms by lia.
  by rewrite app_comm_cons, last_snoc.
Qed.

Lemma strict_program_whitelist : STRICT_PROGRAM = whitelist STRICT_ALLOWED.
Proof. reflexivity. Qed.

(** * Promise strings *)
Definition word_ok (w : str) : Prop := w <> [] /\ Forall (fun c => is_whitespace c = false) w.

#[export] Instance word_ok_dec w : Decision (word_ok w).
Proof. unfold word_ok. apply _. Defined.

Lemma split_from_word acc w s :
  Forall (fun c => is_whitespace c = false) w ->
  split_from acc (w ++ s) = split_from (reverse w ++ acc) s.
Proof.
  intros Hw. revert acc. induction Hw as [|c w Hc _ IH]; intros acc; [done|].
  cbn [app split_from]. rewrite Hc, IH, reverse_cons, <- app_assoc. done.
Qed.

(** Words separated by single spaces. *)
Fixpoint join (ws : list str) : str :=
  match ws with
  | [] => []
  | [w] => w
  | w :: ws => w ++ 32 :: join ws
  end.

Lemma emit_word w rest : w <> [] -> emit (reverse w) rest = w :: rest.
Proof.
  intros Hw. unfold emit. destruct (reverse w) as [|c r] eqn:E.
  - apply (f_equal reverse) in E. by rewrite reverse_involutive in E.
  - by rewrite <- E, reverse_involutive.
Qed.

Lemma split_join ws : Forall word_ok ws -> split_whitespace (join ws) = ws.
Proof.
  unfold split_whitespace. induction 1 as [|w ws [Hne Hw] Hws IH]; [done|].
  destruct ws as [|w' ws].
  - cbn [join]. rewrite <- (app_nil_r w) at 1. rewrite split_from_word, app_nil_r by done.
    cbn [split_from]. by apply emit_word.
  - change (join (w :: w' :: ws)) with (w ++ 32 :: join (w' :: ws)).
    rewrite split_from_word, app_nil_r by done.
    change (split_from (reverse w) (32 :: join (w' :: ws)))
      with (emit (reverse w) (split_from [] (join (w' :: ws)))).
    by rewrite IH, emit_word.
Qed.

(** The words of a promise set, and their flags. *)
Definition promise_string (p : N) : str :=
  join (filter (fun wp => promises_contain p wp.2 = true) promise_words).*1.

Lemma promise_words_ok : Forall (fun wp => word_ok wp.1 /\ promise_of_word wp.1 = Some wp.2) promise_words.
Proof. repeat constructor; simpl; done. Qed.

Lemma parse_words_spec acc l :
  Forall (fun wp => promise_of_word wp.1 = Some wp.2) l ->
  parse_words acc l.*1 = Ok (foldl N.lor acc l.*2).
Proof.
  intros Hl. revert acc. induction Hl as [|wp l Hwp _ IH]; intros acc; [done|].
  cbn [fmap list_fmap parse_words foldl]. rewrite Hwp. apply IH.
Qed.

Lemma contain_land p k :
  N.land p (N.shiftl 1 k) = if promises_contain p (N.shiftl 1 k) then N.shiftl 1 k else 0.
Proof.
  pose proof (intersect_flag p k) as Hi. unfold promises_contain, promises_intersect in *.
  destruct (N.eqb_spec (N.land p (N.shiftl 1 k)) (N.shiftl 1 k)); [done|].
  by apply negb_false_iff, N.eqb_eq in Hi.
Qed.

Lemma fold_contained p acc (l : list (str * N)) :
  Forall (fun wp => exists k, wp.2 = N.shiftl 1 k) l ->
  foldl N.lor acc (filter (fun wp => promises_contain p wp.2 = true) l).*2 =
  N.lor acc (N.land p (foldl N.lor 0 l.*2)).
Proof.
  assert (Hacc : forall (l : list N) a, foldl N.lor a l = N.lor a (foldl N.lor 0 l)).
  { intros l'. induction l' as [|x l' IH]; intros a; cbn [foldl]; [by rewrite N.lor_0_r|].
    rewrite IH, (IH (N.lor 0 x)), N.lor_0_l. by rewrite N.lor_assoc. }
  intros Hl. revert acc. induction Hl as [|[w fl] l [k Hk] _ IH]; intros acc.
  { simpl. by rewrite N.land_0_r, N.lor_0_r. }
  simpl in Hk. subst fl. rewrite filter_cons. cbn [snd fmap list_fmap foldl].
  rewrite N.lor_0_l, (Hacc _ (N.shiftl 1 k)), N.land_lor_distr_r, contain_land, N.lor_assoc.
  destruct (decide (promises_contain p (N.shiftl 1 k) = true)) as [->|Hn].
  - cbn [fmap list_fmap foldl snd]. apply IH.
  - apply not_true_is_false in Hn. rewrite Hn, N.lor_0_r. apply IH.
Qed.

Lemma parse_promise_string p : N.land p all_promises = p -> parse (promise_string p) = Ok p.
Proof.
  intros Hp. unfold parse, promise_string.
  pose proof promise_words_ok as Hok.
  assert (Hf : Forall (fun wp => word_ok wp.1 /\ promise_of_word wp.1 = Some wp.2)
                 (filter (fun wp => promises_contain p wp.2 = true) promise_words)).
  { rewrite list.Forall_forall in *. intros wp [_ Hin]%list_elem_of_filter. auto. }
  rewrite split_join; last first.
  { apply Forall_fmap. eapply Forall_impl; [exact Hf|]. by intros wp [? _]. }
  rewrite parse_words_spec by (eapply Forall_impl; [exact Hf|]; by intros wp [_ ?]).
  f_equal. rewrite fold_contained; [by rewrite N.lor_0_l|].
  repeat constructor; simpl; by eexists.
Qed.

(** Parsing succeeds exactly when every word is a promise, with their union. *)
Lemma parse_words_mapM acc l :
  parse_words acc l =
  match mapM promise_of_word l with Some fls => Ok (foldl N.lor acc fls) | None => Err InvalidPromise end.
Proof.
  revert acc. induction l as [|w l IH]; intros acc; [done|].
  cbn [parse_words mapM]. destruct (promise_of_word w) as [fl|]; [|done].
  rewrite IH. cbn. by destruct (mapM promise_of_word l).
Qed.
