(* ===== verification/SeccompRun.v ===== *)
(** Facts about filter installation, the per-syscall check and sequences of
    sandboxing syscalls. *)

From Stdlib Require Import ZArith Lia.
From stdpp Require Import base list list_numbers numbers.
From S2P Require Import Prelude Seccomp SeccompFacts Pledge PledgeFacts SeccompSys.

#[local] Open Scope N_scope.

(** * Loading a program from user memory *)
Lemma load_user_filter_wf `{heap : SeccompHeap} mem fl args f :
  load_user_seccomp_filter mem fl args = Ok f ->
  filter_wf f /\ (prog_len f <= MAX_INSNS)%nat /\ N.land fl FLAG_TSYNC = 0 /\ flags f = fl.
Proof.
  unfold load_user_seccomp_filter.
  destruct (N.eqb_spec (N.land fl FLAG_TSYNC) 0) as [Ht|]; [cbn [negb]|done].
  destruct (N.eqb_spec (N.land fl FLAG_NEW_THREADS) 0) as [Hn|]; [cbn [negb]|done].
  unfold flags_from_bits. destruct (_ =? fl); [|done]. cbn [ok_or res_bind].
  destruct (read_prog mem args) as [up|]; [cbn [of_user res_bind]|done].
  destruct (_ || _); [done|]. destruct (ufilter up =? 0); [done|].
  destruct (read_insns _ _ _) as [raw|]; [cbn [of_user res_bind]|done].
  destruct (decode_user_action _ _) as [d| |]; [cbn [res_bind]|done..].
  destruct (translate_all raw) as [p| |]; [cbn [res_bind]|done..].
  destruct (new_from_slice p d fl) as [g| |] eqn:Hnew; [cbn [map_err]|done..]. intros [= <-].
  apply new_from_slice_wf in Hnew as Hg. destruct Hg as (Hwf & Hp & _ & Hfl).
  split_and!; [done| |done|done].
  unfold prog_len. rewrite Hp. revert Hnew. unfold new_from_slice, validate_program.
  destruct (validate_program_with_limit p MAX_INSNS) as [[]| |] eqn:Hv; [|done..].
  by apply validate_valid in Hv as [? _].
Qed.

Lemma strict_filter_wf `{heap : SeccompHeap} f : try_strict_filter = Ok f -> filter_wf f.
Proof. intros [? _]%new_trusted_wf. done. Qed.

(** * Installation *)
Section install_facts.
Context {heap : SeccompHeap}.

(** The process after a filter went in. *)
Definition installed (proc : SeccompProc) (f : SeccompFilter) (wants_log : bool) : SeccompProc :=
  mkProc (mkSeccompState (filters (seccomp_state proc) ++ [f]) true
            (log_violations (seccomp_state proc) || wants_log))
    (pledge_state proc) false (seccomp_generation proc + 1).

(** What it took: room in the chain and in the generation counter, and no
    installation under way. *)
Definition installable (proc : SeccompProc) (f : SeccompFilter) : Prop :=
  seccomp_installing proc = false /\ seccomp_generation proc < 2 ^ 64 - 1 /\
  (total_insns (filters (seccomp_state proc)) + prog_len f <= MAX_FILTER_INSNS_TOTAL)%nat.

(** The caller is alone in its thread group and its address space, before and
    under the lock. *)
Definition isolated (sc : Scene) : Prop :=
  found sc = true /\ thread_count sc <= 1 /\ pure_vm_siblings sc = 0 /\
  exists threads, recount sc = Some (threads, 0) /\ threads <= 1.

(** The two ways an installation ends. *)
Definition install_outcome (sc : Scene) (proc : SeccompProc) (r : res SyscallError N * SeccompProc) : Prop :=
  (exists e, r = (Err e, proc)) \/
  (exists f wants_log, r = (Ok 0, installed proc f wants_log) /\
     filter_wf f /\ isolated sc /\ installable proc f).

Lemma commit_filter_outcome proc f wants_log :
  seccomp_generation proc < 2 ^ 64 -> seccomp_installing proc = false ->
  (exists e, commit_filter proc f wants_log = (Err e, proc)) \/
  (commit_filter proc f wants_log = (Ok 0, installed proc f wants_log) /\ installable proc f).
Proof.
  intros Hg Hi. unfold commit_filter, installable.
  destruct (N.eqb_spec (seccomp_generation proc) (2 ^ 64 - 1)); [left; by eexists|].
  unfold add_filter. destruct (Nat.ltb_spec MAX_FILTER_INSNS_TOTAL
    (total_insns (filters (seccomp_state proc)) + prog_len f)).
  { left. exists ENOMEM. destruct proc; simpl in *; by subst. }
  destruct (chain_admitted _); cbn [negb].
  - right. split; [done|]. split_and!; [done|lia|done].
  - left. exists ENOMEM. destruct proc; simpl in *; by subst.
Qed.

(** [commit_filter] after all the checks *)
Lemma commit_outcome sc proc f wants_log :
  seccomp_generation proc < 2 ^ 64 -> seccomp_installing proc = false ->
  filter_wf f -> isolated sc -> install_outcome sc proc (commit_filter proc f wants_log).
Proof.
  intros Hg Hi Hf Hsc. destruct (commit_filter_outcome proc f wants_log Hg Hi) as [[e He]|[He ?]].
  - left. by exists e.
  - right. by exists f, wants_log.
Qed.

Ltac refuse := left; by eexists.

Lemma seccomp_strict_outcome sc proc fl args :
  seccomp_generation proc < 2 ^ 64 -> install_outcome sc proc (seccomp_strict sc proc fl args).
Proof.
  intros Hg. unfold seccomp_strict. destruct (_ || _); [refuse|].
  destruct (found sc) eqn:Hfound; [cbn [negb]|refuse].
  destruct (installing_before sc); [refuse|].
  destruct (N.ltb_spec 1 (thread_count sc)); [refuse|].
  destruct (N.ltb_spec 0 (pure_vm_siblings sc)); [refuse|].
  destruct try_strict_filter as [f|e|] eqn:Hf; cbn [map_err]; [|refuse|].
  2: { exfalso. revert Hf. unfold try_strict_filter, new_trusted_from_slice, new_validated_from_slice.
       rewrite strict_program_whitelist, validate_whitelist by (vm_compute; lia).
       cbn [res_bind]. by case_match. }
  destruct (seccomp_installing proc) eqn:Hi; [refuse|].
  destruct (recount sc) as [[threads vm]|] eqn:Hrc; [|refuse].
  destruct (N.leb_spec threads 1), (N.eqb_spec vm 0) as [->|]; cbn [andb]; try refuse.
  apply commit_outcome; [done..|by apply strict_filter_wf|].
  split_and!; [done|done|lia|by eexists].
Qed.

Lemma decode_user_action_no_panic c a : decode_user_action c a <> Panic.
Proof. unfold decode_user_action. no_panic. Qed.

Lemma to_u8_no_panic v : to_u8_checked v <> Panic.
Proof. unfold to_u8_checked. no_panic. Qed.

Lemma to_shift_no_panic v : to_shift_amount_checked v <> Panic.
Proof. unfold to_shift_amount_checked. no_panic. Qed.

#[local] Hint Resolve decode_user_action_no_panic to_u8_no_panic to_shift_no_panic : no_panic.

Lemma translate_jump_no_panic mk i : translate_jump mk i <> Panic.
Proof. unfold translate_jump. no_panic. Qed.

#[local] Hint Resolve translate_jump_no_panic : no_panic.

Lemma translate_user_insn_no_panic i : translate_user_insn i <> Panic.
Proof.
  unfold translate_user_insn. repeat case_match; try done; eauto with no_panic.
  apply res_bind_no_panic; [apply to_u8_no_panic|]. intros. no_panic.
Qed.

Lemma translate_all_no_panic l : translate_all l <> Panic.
Proof.
  induction l as [|i l IH]; [done|]. cbn [translate_all].
  apply res_bind_no_panic; [apply translate_user_insn_no_panic|eauto with no_panic].
Qed.

Lemma new_from_slice_no_panic p d fl : new_from_slice p d fl <> Panic.
Proof.
  unfold new_from_slice, validate_program, validate_program_with_limit, new_validated_from_slice.
  apply res_bind_no_panic; [no_panic|]. intros. no_panic.
Qed.

Lemma load_user_no_panic mem fl args : load_user_seccomp_filter mem fl args <> Panic.
Proof.
  unfold load_user_seccomp_filter. do 2 (case_match; [done|]).
  apply res_bind_no_panic; [apply ok_or_no_panic|intros fl'].
  apply res_bind_no_panic; [by destruct (read_prog _ _)|intros up].
  do 2 (case_match; [done|]).
  apply res_bind_no_panic; [by destruct (read_insns _ _ _)|intros raw].
  apply res_bind_no_panic; [apply decode_user_action_no_panic|intros d].
  apply res_bind_no_panic; [apply translate_all_no_panic|intros p].
  pose proof (new_from_slice_no_panic p d fl'). by destruct (new_from_slice p d fl').
Qed.

Lemma seccomp_filter_outcome mem sc proc fl args :
  seccomp_generation proc < 2 ^ 64 -> install_outcome sc proc (seccomp_filter mem sc proc fl args).
Proof.
  intros Hg. unfold seccomp_filter. pose proof (load_user_no_panic mem fl args) as Hnp.
  destruct (load_user_seccomp_filter mem fl args) as [f|e|] eqn:Hf; [|refuse|done].
  apply load_user_filter_wf in Hf as (Hwf & _ & Ht & _).
  destruct (found sc) eqn:Hfound; [cbn [negb]|refuse].
  destruct (installing_before sc); [refuse|]. rewrite Ht. cbn [N.eqb negb].
  destruct (N.ltb_spec 1 (thread_count sc)); [refuse|]. cbn [andb].
  destruct (N.ltb_spec 0 (pure_vm_siblings sc)); [refuse|].
  destruct (seccomp_installing proc) eqn:Hi; [refuse|].
  destruct (recount sc) as [[threads vm]|] eqn:Hrc; [|refuse].
  destruct (N.ltb_spec 1 threads); [refuse|]. cbn [andb].
  destruct (N.ltb_spec 0 vm); [refuse|].
  apply commit_outcome; [done..|].
  replace vm with 0 in Hrc by lia. split_and!; [done|done|lia|by eexists].
Qed.

Lemma sys_seccomp_outcome mem sc proc sop fl args :
  seccomp_generation proc < 2 ^ 64 -> install_outcome sc proc (sys_seccomp mem sc proc sop fl args).
Proof.
  intros Hg. unfold sys_seccomp. repeat case_match;
    (by apply seccomp_strict_outcome) || (by apply seccomp_filter_outcome) || refuse.
Qed.
End install_facts.

(** * The check on every syscall *)

(** How strict the check is on one call. *)
Definition check_severity (proc : SeccompProc) (nr : N) (args : list N) : N :=
  severity (action (evaluate_seccomp (Some proc) nr args)).

Definition pledge_denies (proc : SeccompProc) (nr : N) (args : list N) : bool :=
  match pledge_state proc with Some pledge => negb (pledge_allows pledge nr args) | None => false end.

Lemma check_severity_spec proc nr args :
  check_severity proc nr args =
  if pledge_denies proc nr args then 4
  else if has_filters (seccomp_state proc)
  then N.max (chain_severity (filters (seccomp_state proc)) nr args)
         (N.b2n (log_violations (seccomp_state proc)))
  else 0.
Proof.
  unfold check_severity, evaluate_seccomp.
  change (match pledge_state proc with Some _ => _ | None => false end) with (pledge_denies proc nr args).
  destruct (pledge_denies proc nr args); [done|].
  destruct (has_filters (seccomp_state proc)); [|done].
  pose proof (state_evaluate_severity (seccomp_state proc) nr args) as Hs.
  destruct (log_violations (seccomp_state proc)), (action (state_evaluate _ nr args)) eqn:Ha;
    cbn [andb is_allow action severity N.b2n] in *; rewrite ?Ha; simpl in *; lia.
Qed.

(** [q] is sandboxed at least as tightly as [p]. *)
Record tighter (p q : SeccompProc) : Prop := {
  tighter_chain : filters (seccomp_state p) `prefix_of` filters (seccomp_state q);
  tighter_privs : no_new_privs (seccomp_state p) = true -> no_new_privs (seccomp_state q) = true;
  tighter_log : log_violations (seccomp_state p) = true -> log_violations (seccomp_state q) = true;
  tighter_pledge : pledge_state q = pledge_state p;
  tighter_generation : seccomp_generation p <= seccomp_generation q;
}.

#[export] Instance tighter_preorder : PreOrder tighter.
Proof.
  split.
  - intros p. by split.
  - intros p q r [] []. split; [by etrans|auto..|congruence|lia].
Qed.

Lemma tighter_check p q nr args : tighter p q -> check_severity p nr args <= check_severity q nr args.
Proof.
  intros [[l Hl] _ Hlog Hp _]. rewrite !check_severity_spec.
  unfold pledge_denies. rewrite Hp. destruct (match pledge_state p with Some _ => _ | None => _ end); [done|].
  unfold has_filters. rewrite Hl, chain_severity_app.
  destruct (filters (seccomp_state p)) as [|f fs]; simpl; [lia|].
  destruct (log_violations (seccomp_state p)); [rewrite Hlog by done; simpl|simpl]; lia.
Qed.

(** * Sequences of sandboxing syscalls *)
Definition proc_wf (p : SeccompProc) : Prop :=
  state_wf (seccomp_state p) /\ seccomp_generation p < 2 ^ 64.

Lemma installed_wf p f wants_log :
  proc_wf p -> filter_wf f -> installable p f -> proc_wf (installed p f wants_log).
Proof.
  intros [[Hf Ht] Hg] Hwf (_ & Hgen & Hroom). split; [split; simpl|simpl; lia].
  - apply Forall_app. split; [done|]. by constructor.
  - by rewrite total_insns_snoc.
Qed.

Lemma installed_tighter p f wants_log : tighter p (installed p f wants_log).
Proof.
  split; simpl; [by eexists|done| |done|lia]. by intros ->.
Qed.

Definition sandbox_ok (p : SeccompProc) (r : res SyscallError N * SeccompProc) : Prop :=
  r.1 <> Panic /\ proc_wf r.2 /\ tighter p r.2.

Lemma unchanged_ok p r : proc_wf p -> r <> Panic -> sandbox_ok p (r, p).
Proof. by intros. Qed.

Lemma outcome_ok sc p r : proc_wf p -> install_outcome sc p r -> sandbox_ok p r.
Proof.
  intros Hp [[e ->]|(f & wants_log & -> & Hf & _ & Hroom)]; [by apply unchanged_ok|].
  split_and!; simpl; [done|by apply installed_wf|apply installed_tighter].
Qed.

(** A sandboxing syscall, with what it observes. *)
Inductive SandboxOp :=
| OpSeccomp (heap : SeccompHeap) (mem : UserMemory) (sc : Scene) (sop fl args : N)
| OpPrctl (heap : SeccompHeap) (mem : UserMemory) (sc : Scene) (lsm : bool + SyscallError)
    (option : Z) (a2 a3 a4 a5 : N).

Definition sandbox_step (p : SeccompProc) (op : SandboxOp) : res SyscallError N * SeccompProc :=
  match op with
  | OpSeccomp heap mem sc sop fl args => sys_seccomp mem sc p sop fl args
  | OpPrctl heap mem sc lsm option a2 a3 a4 a5 => sys_prctl mem sc lsm p option a2 a3 a4 a5
  end.

Definition sandbox_run (p : SeccompProc) (ops : list SandboxOp) : SeccompProc :=
  foldl (fun p op => (sandbox_step p op).2) p ops.

Lemma sys_prctl_ok `{heap : SeccompHeap} mem sc lsm p option a2 a3 a4 a5 :
  proc_wf p -> sandbox_ok p (sys_prctl mem sc lsm p option a2 a3 a4 a5).
Proof.
  intros Hp. pose proof (proj2 Hp) as Hg. unfold sys_prctl.
  destruct (found sc); [cbn [negb]|by apply unchanged_ok].
  destruct lsm as [[]|]; [|by apply unchanged_ok..].
  destruct (option =? PR_SET_NO_NEW_PRIVS)%Z.
  { destruct (a2 =? 1); [cbn [negb]|by apply unchanged_ok]. destruct Hp as [[Hf Ht] _].
    split_and!; simpl; [done|by split|split; simpl; (done || lia)]. }
  do 2 (case_match; [by apply unchanged_ok|]).
  case_match; [|by apply unchanged_ok]. case_match; [by apply unchanged_ok|].
  repeat case_match; (by eapply outcome_ok, sys_seccomp_outcome) || by apply unchanged_ok.
Qed.

Lemma sandbox_step_ok p op : proc_wf p -> sandbox_ok p (sandbox_step p op).
Proof.
  intros Hp. destruct op; simpl; [|by apply sys_prctl_ok].
  eapply outcome_ok; [done|]. apply sys_seccomp_outcome, Hp.
Qed.

Lemma sandbox_run_ok p ops : proc_wf p -> proc_wf (sandbox_run p ops) /\ tighter p (sandbox_run p ops).
Proof.
  unfold sandbox_run. revert p. induction ops as [|op ops IH]; intros p Hp; [by split|].
  destruct (sandbox_step_ok p op Hp) as (_ & Hp' & Ht). cbn [foldl].
  destruct (IH _ Hp') as [? ?]. split; [done|]. by etrans.
Qed.

(** * Programs a process can write *)

(** The user-memory form of an instruction. *)
Definition encode_action (a : SeccompAction) : N * N :=
  match a with
  | Allow => (0, 0) | Log => (1, 0) | Errno e => (2, Z.to_N e) | Trap => (3, 0) | Kill => (4, 0)
  end.

Definition encode_user_insn (i : SeccompInsn) : UserSeccompInsn :=
  match i with
  | LdSyscallNr => mkUserInsn 0 0 0 0
  | LdArg idx => mkUserInsn 1 idx 0 0
  | LdConst v => mkUserInsn 2 v 0 0
  | And v => mkUserInsn 3 v 0 0
  | Or v => mkUserInsn 4 v 0 0
  | Shr s => mkUserInsn 5 s 0 0
  | JmpEq v t f => mkUserInsn 6 v t f
  | JmpNe v t f => mkUserInsn 7 v t f
  | JmpLt v t f => mkUserInsn 8 v t f
  | JmpLe v t f => mkUserInsn 9 v t f
  | JmpGt v t f => mkUserInsn 10 v t f
  | JmpGe v t f => mkUserInsn 11 v t f
  | Jmp off => mkUserInsn 12 off 0 0
  | Ret a => mkUserInsn 13 (encode_action a).1 (encode_action a).2 0
  end.

(** Only errno values that fit a non-negative [i32] have a user form. *)
Definition action_writable (a : SeccompAction) : Prop :=
  match a with Errno e => (0 <= e < 2 ^ 31)%Z | _ => True end.

Definition insn_writable (i : SeccompInsn) : Prop :=
  match i with Ret a => action_writable a | _ => True end.

Lemma decode_encode_action a :
  action_writable a ->
  decode_user_action ((encode_action a).1 mod 2 ^ 32) (encode_action a).2 = Ok a.
Proof.
  destruct a as [| |e| |]; intros He; try done. simpl in He.
  change ((encode_action (Errno e)).1 mod 2 ^ 32) with 2. cbn [decode_user_action encode_action snd].
  rewrite (proj2 (N.ltb_ge _ _)) by lia. unfold as_i32.
  rewrite N.mod_small by lia. rewrite Z2N.id by lia. rewrite (proj2 (Z.ltb_lt _ _)) by lia. done.
Qed.

Lemma to_u8_small v : v < 256 -> to_u8_checked v = Ok v.
Proof.
  intros. unfold to_u8_checked. rewrite (proj2 (N.ltb_ge _ _)) by lia. by rewrite N.mod_small.
Qed.

Lemma translate_branch mk op v t f :
  t < 256 -> f < 256 -> translate_jump mk (mkUserInsn op v t f) = Ok (mk v t f).
Proof. intros. unfold translate_jump. cbn [arg0 arg1 arg2]. by rewrite !to_u8_small. Qed.

(** An instruction of a validated program of at most 256 instructions. *)
Lemma translate_encode len i insn :
  (len <= 256)%nat -> check_insn len i insn = None -> insn_writable insn ->
  translate_user_insn (encode_user_insn insn) = Ok insn.
Proof.
  intros Hlen Hc Hw.
  assert (Hj : forall off, (len <=? target i off)%nat = false -> off < 256).
  { intros off H%Nat.leb_gt. unfold target in H. lia. }
  destruct insn as [|idx| | | |shift|v t f|v t f|v t f|v t f|v t f|v t f|off|a]; try done;
    cbn [check_insn] in Hc; unfold translate_user_insn; cbn [encode_user_insn op arg0 arg1];
    try (destruct (len <=? target i t)%nat eqn:Ht; [done|];
         destruct (len <=? target i f)%nat eqn:Hf; [done|]; apply translate_branch; by apply Hj).
  - destruct (N.leb_spec 6 idx); [done|]. rewrite to_u8_small by lia. cbn [res_bind].
    by rewrite (proj2 (N.leb_gt _ _)).
  - destruct (N.leb_spec 64 shift); [done|]. unfold to_shift_amount_checked.
    rewrite (proj2 (N.ltb_ge _ _)) by lia. cbn [res_bind]. rewrite N.mod_small by lia. done.
  - destruct (len <=? target i off)%nat eqn:Ho; [done|]. rewrite to_u8_small by auto. done.
  - by rewrite decode_encode_action.
Qed.

Lemma translate_all_encode len i p :
  (len <= 256)%nat -> check_insns len i p = None -> Forall insn_writable p ->
  translate_all (encode_user_insn <$> p) = Ok p.
Proof.
  intros Hlen. revert i. induction p as [|x p IH]; intros i Hc Hw; [done|].
  apply list.Forall_cons in Hw as [Hx Hw]. cbn [check_insns] in Hc.
  destruct (check_insn len i x) eqn:Hcx; [done|]. cbn [fmap list_fmap translate_all].
  rewrite (translate_encode len i) by done. cbn [res_bind].
  change (list_fmap _ _ encode_user_insn p) with (encode_user_insn <$> p).
  by rewrite (IH (S i)).
Qed.

(** A valid program laid out in user memory is the one that gets installed. *)
Lemma load_user_roundtrip `{heap : SeccompHeap} mem fl a ptr p d :
  (fl = 0 \/ fl = FLAG_LOG) -> validate_program p = Ok tt -> Forall insn_writable p ->
  (forall e, d = Errno e -> e = 0%Z) ->
  program_admitted (length p) = true -> ptr <> 0 ->
  read_prog mem a = inl (mkUserProg (N.of_nat (length p)) (encode_action d).1 ptr) ->
  read_insns mem ptr (length p) = inl (encode_user_insn <$> p) ->
  exists f, load_user_seccomp_filter mem fl a = Ok f /\ prog f = p /\ default_action f = d /\ flags f = fl.
Proof.
  intros Hfl Hv Hw Hd Hadm Hptr Hprog Hinsns. unfold load_user_seccomp_filter.
  assert (Hflags : N.land fl FLAG_TSYNC = 0 /\ N.land fl FLAG_NEW_THREADS = 0 /\ flags_from_bits fl = Some fl)
    by (destruct Hfl; subst; done).
  destruct Hflags as (-> & -> & ->). cbn [N.eqb negb ok_or res_bind].
  rewrite Hprog. cbn [of_user res_bind ulen ufilter udefault]. rewrite Nat2N.id.
  pose proof Hv as Hv'. unfold validate_program in Hv'. apply validate_valid in Hv' as (Hlen & _ & _).
  assert (Hne' : (length p =? 0)%nat = false).
  { destruct p; [|done]. unfold validate_program, validate_program_with_limit in Hv. done. }
  rewrite Hne', (proj2 (Nat.ltb_ge _ _)) by done. cbn [orb].
  rewrite (proj2 (N.eqb_neq _ _)) by done. rewrite Hinsns. cbn [of_user res_bind].
  assert (Hdd : decode_user_action (encode_action d).1 0 = Ok d)
    by (destruct d as [| |e| |]; try done; by rewrite (Hd e)).
  rewrite Hdd. cbn [res_bind].
  unfold validate_program, validate_program_with_limit in Hv. rewrite bool_decide_false in Hv by (by destruct p).
  destruct (_ <? _)%nat; [done|]. destruct (check_insns (length p) 0 p) eqn:Hc; [done|].
  rewrite (translate_all_encode (length p) 0 p) by (done || unfold MAX_INSNS in *; lia). cbn [res_bind].
  unfold new_from_slice, validate_program, validate_program_with_limit.
  rewrite bool_decide_false by (by destruct p). rewrite (proj2 (Nat.ltb_ge _ _)), Hc by done.
  destruct (is_ret _); [|done]. cbn [res_bind]. unfold new_validated_from_slice. rewrite Hadm.
  cbn [negb map_err]. by eexists.
Qed.

(** * Strict mode *)
Definition strict_value : SeccompFilter :=
  mkFilter Kill STRICT_PROGRAM (compute_fast_allow STRICT_PROGRAM Kill) (compute_filter_id STRICT_PROGRAM) 0.

Lemma validate_strict limit :
  (12 <= limit)%nat -> validate_program_with_limit STRICT_PROGRAM limit = Ok tt.
Proof. rewrite strict_program_whitelist. exact (validate_whitelist STRICT_ALLOWED limit). Qed.

Lemma strict_value_wf : filter_wf strict_value.
Proof.
  apply valid_filter_wf, validate_strict. unfold MAX_TRUSTED_INSNS. lia.
Qed.

Lemma strict_value_evaluate nr args :
  filter_evaluate strict_value nr args = if one_of nr STRICT_ALLOWED then Allow else Kill.
Proof.
  rewrite filter_evaluate_interprets by apply strict_value_wf.
  cbn [prog strict_value]. rewrite strict_program_whitelist. apply interpret_whitelist.
Qed.

Lemma try_strict_admitted `{heap : SeccompHeap} :
  program_admitted 12 = true -> try_strict_filter = Ok strict_value.
Proof.
  intros Hadm. unfold try_strict_filter.
  rewrite new_trusted_valid by (apply validate_strict; unfold MAX_TRUSTED_INSNS; lia).
  change (length STRICT_PROGRAM) with 12%nat. by rewrite Hadm.
Qed.

Lemma sys_seccomp_strict_installs `{heap : SeccompHeap} mem sc proc :
  program_admitted 12 = true -> chain_admitted 0 = true ->
  filters (seccomp_state proc) = [] -> seccomp_installing proc = false ->
  seccomp_generation proc < 2 ^ 64 - 1 ->
  found sc = true -> installing_before sc = false -> thread_count sc <= 1 ->
  pure_vm_siblings sc = 0 -> recount sc = Some (1, 0) ->
  sys_seccomp mem sc proc SECCOMP_SET_MODE_STRICT 0 0 = (Ok 0, installed proc strict_value false).
Proof.
  intros Hadm Hch Hf Hi Hg Hfound Hb Ht Hv Hr.
  unfold sys_seccomp, seccomp_strict. change SECCOMP_SET_MODE_STRICT with 0.
  rewrite Hfound, Hb, Hv, Hr, try_strict_admitted, Hi by done.
  rewrite (proj2 (N.ltb_ge 1 (thread_count sc))) by lia. cbn -[commit_filter strict_value].
  unfold commit_filter. rewrite (proj2 (N.eqb_neq _ _)) by lia. unfold add_filter, installed. rewrite Hf.
  rewrite (proj2 (Nat.ltb_ge _ _)) by (vm_compute; lia). change (length (@nil SeccompFilter)) with 0%nat.
  by rewrite Hch.
Qed.
