(* ===== verification/SeccompCorrect.v ===== *)
(** Correctness of syscall filtering: the properties of the interpreter, the
    chain, the sandboxing syscalls and the pledge generators. *)

From Stdlib Require Import ZArith Lia.
From stdpp Require Import base list list_numbers numbers sorting.
From S2P Require Import Prelude Seccomp SeccompFacts Pledge PledgeFacts SeccompSys SeccompRun.

#[local] Open Scope N_scope.

(** A heap that admits everything, and one that admits nothing. *)
Definition rich_heap : SeccompHeap :=
  {| program_admitted _ := true; chain_admitted _ := true; clone_admitted _ := true |}.

Definition demo_prog : list SeccompInsn :=
  [LdArg 1; Shr 4; JmpGt 3 0 1; Ret (Errno 13); LdSyscallNr; JmpEq 2 1 0; Ret Allow; Ret Kill].

(** C10 A validated program decides every call by one of its own [Ret]
    instructions: the interpreter terminates, never leaves the program, never
    raises the fail-closed [Trap] of a bad jump or shift, and never falls
    through to the default action. *)
Theorem validated_program_returns p limit d nr args :
  validate_program_with_limit p limit = Ok tt ->
  exists a, Ret a ∈ p /\ interpret_program p d nr args = a /\
    forall d', interpret_program p d' nr args = a.
Proof.
  intros Hv%validate_valid. assert (Hne : (0 < length p)%nat).
  { destruct Hv as (_ & _ & a & Hl). destruct p; [done|simpl; lia]. }
  destruct (interpret_loop_valid p limit d nr args 0 0 Hv Hne) as (a & Ha & Hd). eauto.
Qed.

Lemma validated_program_returns_witness :
  validate_program_with_limit demo_prog 64 = Ok tt /\
  exists a, Ret a ∈ demo_prog /\ interpret_program demo_prog Allow 1 [0; 100] = a /\
    forall d', interpret_program demo_prog d' 1 [0; 100] = a.
Proof. split; [reflexivity|]. apply (validated_program_returns demo_prog 64). reflexivity. Defined.

(** C11 The install-time bitmap is not a second policy: for a filter built by
    either constructor, [evaluate] gives exactly the interpreter's action on
    every call, fast path included; and the fast path is taken for a number
    below 512 exactly when the program reads no argument and allows it. *)
Theorem fast_path_equivalent (heap : SeccompHeap) p d fl f :
  new_from_slice p d fl = Ok f \/ new_trusted_from_slice p d fl = Ok f ->
  (forall nr args, filter_evaluate f nr args = interpret_program p d nr args) /\
  (forall nr, nr < 512 ->
     fast_get (fast_allow f) nr = true <->
     program_reads_args p = false /\ forall args, interpret_program p d nr args = Allow).
Proof.
  intros Hf.
  assert (Hwf : filter_wf f /\ prog f = p /\ default_action f = d).
  { destruct Hf as [(?&?&?&_)%new_from_slice_wf|(?&?&?&_)%new_trusted_wf]; done. }
  destruct Hwf as (Hwf & <- & <-). split; [intros; by apply filter_evaluate_interprets|].
  intros nr Hnr. rewrite (wf_fast _ Hwf), compute_fast_allow_spec by done.
  rewrite bool_decide_false; [cbn [orb]|destruct (wf_prog _ Hwf) as (_ & _ & ? & Hl); by intros E; rewrite E in Hl].
  split.
  - intros [Hra%negb_true_iff Ha]%andb_prop. split; [done|]. intros args.
    unfold interpret_program in *. rewrite (interpret_loop_args _ _ _ args (replicate 6 0)) by done.
    by destruct (interpret_loop _ _ _ _ _ _).
  - intros [-> Ha]. by rewrite Ha.
Qed.

Lemma fast_path_equivalent_witness :
  exists f, @new_from_slice rich_heap STRICT_PROGRAM Kill 0 = Ok f /\
    forall nr args, filter_evaluate f nr args = interpret_program STRICT_PROGRAM Kill nr args.
Proof.
  eexists. split; [reflexivity|].
  apply (fast_path_equivalent rich_heap STRICT_PROGRAM Kill 0). left. reflexivity.
Defined.

(** A chain answers with the strictest of its filters, the first one in
    installation order among equally strict ones, and allows only if every
    filter does; the early exit on [Kill] loses nothing. *)
Theorem chain_most_restrictive s nr args :
  let v := state_evaluate s nr args in
  (forall f, f ∈ filters s -> severity (filter_evaluate f nr args) <= severity (action v)) /\
  (v = verdict_allow \/
   exists l1 f l2, filters s = l1 ++ f :: l2 /\ v = mkVerdict (filter_evaluate f nr args) (id f) /\
     forall g, g ∈ l1 -> severity (filter_evaluate g nr args) < severity (action v)) /\
  (action v = Allow <-> forall f, f ∈ filters s -> filter_evaluate f nr args = Allow).
Proof.
  intros v. pose proof (state_evaluate_severity s nr args) as Hs. fold v in Hs.
  assert (Hall : forall f, f ∈ filters s -> severity (filter_evaluate f nr args) <= severity (action v)).
  { intros f Hf. rewrite Hs. by apply chain_severity_elem. }
  split_and!; [done| |].
  - destruct (evaluate_loop_spec (filters s) nr args verdict_allow) as [(Hv & _)|(l1 & f & l2 & Hl & Hv & _ & H1 & _)].
    + by left.
    + right. exists l1, f, l2. split_and!; [done|done|]. intros g Hg.
      eapply N.le_lt_trans; [by apply chain_severity_elem|]. exact H1.
  - split.
    + intros Ha f Hf. specialize (Hall f Hf). rewrite Ha in Hall.
      destruct (filter_evaluate f nr args); simpl in Hall; (done || lia).
    + intros Ha. assert (chain_severity (filters s) nr args = 0) as H0.
      { clear -Ha. induction (filters s) as [|f l IH]; [done|]. simpl.
        rewrite (Ha f) by (by left). rewrite IH; [done|]. intros g Hg. apply Ha. by right. }
      rewrite H0 in Hs. destruct (action v); simpl in Hs; (done || lia).
Qed.

Definition demo_scene : Scene := mkScene true false 1 0 (Some (1, 0)).
Definition demo_mem : UserMemory :=
  mkUserMemory
    (fun a => if a =? 4096 then inl (mkUserProg 8 0 8192) else inr EFAULT)
    (fun a _ => if a =? 8192 then inl (encode_user_insn <$> demo_prog) else inr EFAULT).

Definition fresh_proc : SeccompProc := mkProc seccomp_new None false 0.

Lemma fresh_proc_wf : proc_wf fresh_proc.
Proof. split; [apply seccomp_new_wf|done]. Qed.

(** C9 Sandboxing is one-way.  Whatever sequence of [seccomp] and [prctl] calls
    a process makes, and whatever memory, process table, security hook and heap
    answer, no call aborts the kernel, the check on every syscall is afterwards
    at least as strict as before, [no_new_privs] stays set once set, every
    filter in force stays in force, and the chain stays within its instruction
    budget with all its programs validated. *)
Theorem sandbox_one_way p ops op :
  proc_wf p ->
  let q := sandbox_run p ops in
  (sandbox_step q op).1 <> Panic /\
  (forall nr args, severity (action (evaluate_seccomp (Some p) nr args)) <=
                   severity (action (evaluate_seccomp (Some q) nr args))) /\
  (has_no_new_privs (Some p) = true -> has_no_new_privs (Some q) = true) /\
  filters (seccomp_state p) `prefix_of` filters (seccomp_state q) /\
  (total_insns (filters (seccomp_state q)) <= MAX_FILTER_INSNS_TOTAL)%nat /\
  Forall filter_wf (filters (seccomp_state q)).
Proof.
  intros Hp q. destruct (sandbox_run_ok p ops Hp) as [Hq Ht]. fold q in Hq, Ht.
  destruct (sandbox_step_ok q op Hq) as [Hnp _].
  split_and!; [done| |apply Ht|apply Ht|apply Hq|apply Hq].
  intros nr args. exact (tighter_check p q nr args Ht).
Qed.

Definition demo_sandbox : list SandboxOp :=
  [OpSeccomp rich_heap demo_mem demo_scene 1 1 4096; OpSeccomp rich_heap demo_mem demo_scene 0 0 0].

Lemma sandbox_one_way_witness :
  let q := sandbox_run fresh_proc demo_sandbox in
  length (filters (seccomp_state q)) = 2%nat /\
  action (evaluate_seccomp (Some fresh_proc) 2 [0; 100]) = Allow /\
  action (evaluate_seccomp (Some q) 2 [0; 100]) = Kill /\
  (total_insns (filters (seccomp_state q)) <= MAX_FILTER_INSNS_TOTAL)%nat.
Proof.
  split_and!; [vm_compute; reflexivity..|].
  apply (sandbox_one_way fresh_proc demo_sandbox (OpSeccomp rich_heap demo_mem demo_scene 0 0 0)),
    fresh_proc_wf.
Defined.

(** C12 [sys_seccomp] either fails and changes nothing, or installs one
    validated filter at the end of the chain, sets [no_new_privs] and advances
    the generation by one.  It succeeds only when the caller is alone in its
    thread group and in its address space, both before and under the lock, no
    other installation is under way and the chain and the generation counter
    have room: the code that would admit several threads under TSYNC is never
    reached. *)
Theorem sys_seccomp_correct (heap : SeccompHeap) mem sc proc sop fl args :
  proc_wf proc ->
  (exists e, sys_seccomp mem sc proc sop fl args = (Err e, proc)) \/
  (exists f wants_log,
     sys_seccomp mem sc proc sop fl args =
       (Ok 0, mkProc (mkSeccompState (filters (seccomp_state proc) ++ [f]) true
                        (log_violations (seccomp_state proc) || wants_log))
                (pledge_state proc) false (seccomp_generation proc + 1)) /\
     filter_wf f /\
     (found sc = true /\ thread_count sc <= 1 /\ pure_vm_siblings sc = 0 /\
      exists threads, recount sc = Some (threads, 0) /\ threads <= 1) /\
     (seccomp_installing proc = false /\ seccomp_generation proc < 2 ^ 64 - 1 /\
      (total_insns (filters (seccomp_state proc)) + prog_len f <= MAX_FILTER_INSNS_TOTAL)%nat)).
Proof. intros [_ Hg]. by apply sys_seccomp_outcome. Qed.

Lemma sys_seccomp_witness :
  proc_wf fresh_proc /\ seccomp_installing fresh_proc = false /\
  ((exists e, @sys_seccomp rich_heap demo_mem demo_scene fresh_proc 0 0 0 = (Err e, fresh_proc)) \/
   exists f wants_log, @sys_seccomp rich_heap demo_mem demo_scene fresh_proc 0 0 0 =
     (Ok 0, mkProc (mkSeccompState [f] true wants_log) None false 1)).
Proof.
  split; [apply fresh_proc_wf|]. split; [reflexivity|].
  destruct (sys_seccomp_correct rich_heap demo_mem demo_scene fresh_proc 0 0 0 fresh_proc_wf)
    as [?|(f & w & H & _)]; [by left|right; by exists f, w].
Defined.

(** Strict mode: when the heap admits the program, entering strict mode
    from a process without filters succeeds, is reported as strict mode, and
    leaves [read], [write], [rt_sigreturn], [exit] and [exit_group] allowed and
    every other syscall fatal, whatever the arguments. *)
Theorem strict_mode_correct (heap : SeccompHeap) mem sc proc :
  program_admitted 12 = true -> chain_admitted 0 = true ->
  filters (seccomp_state proc) = [] -> pledge_state proc = None ->
  log_violations (seccomp_state proc) = false ->
  seccomp_installing proc = false -> seccomp_generation proc < 2 ^ 64 - 1 ->
  found sc = true -> installing_before sc = false -> thread_count sc <= 1 ->
  pure_vm_siblings sc = 0 -> recount sc = Some (1, 0) ->
  exists proc', sys_seccomp mem sc proc SECCOMP_SET_MODE_STRICT 0 0 = (Ok 0, proc') /\
    current_seccomp_mode (seccomp_state proc') = SECCOMP_MODE_STRICT /\
    forall nr args, action (evaluate_seccomp (Some proc') nr args) =
      if decide (nr ∈ [0; 1; 15; 60; 231]) then Allow else Kill.
Proof.
  intros Hadm Hch Hf Hp Hlog Hi Hg Hfound Hb Ht Hv Hr.
  eexists. split; [by apply sys_seccomp_strict_installs|]. unfold installed. cbn [seccomp_state].
  rewrite Hf, Hlog, Hp. split; [vm_compute; reflexivity|]. intros nr args.
  unfold evaluate_seccomp, state_evaluate. cbn [pledge_state seccomp_state filters log_violations app].
  change (has_filters _) with true. cbn [evaluate_loop verdict_allow action].
  rewrite strict_value_evaluate, one_of_if. change STRICT_ALLOWED with [0; 1; 15; 60; 231].
  by destruct (decide _).
Qed.

Lemma strict_mode_witness :
  exists proc', @sys_seccomp rich_heap demo_mem demo_scene fresh_proc SECCOMP_SET_MODE_STRICT 0 0 = (Ok 0, proc') /\
    current_seccomp_mode (seccomp_state proc') = SECCOMP_MODE_STRICT.
Proof.
  destruct (strict_mode_correct rich_heap demo_mem demo_scene fresh_proc) as (proc' & ? & ? & _);
    [reflexivity || (vm_compute; congruence)..|]. by exists proc'.
Defined.

(** C13 The filter generated from promises.  When the heap admits the program,
    [pledge_to_filter] returns, for every promise set, a validated filter that
    allows exactly the numbers of [pledge_syscall_list], a strictly sorted list
    of at most 57 numbers, and kills on all others: the bound on trusted
    programs is never exceeded, so the deny-all fallback is not taken.  When the
    heap refuses that program but not a one-instruction one, everything is
    denied.  When it refuses both, the generator panics. *)
Theorem pledge_to_filter_correct (heap : SeccompHeap) p :
  StronglySorted N.lt (pledge_syscall_list p) /\ (length (pledge_syscall_list p) <= 57)%nat /\
  if program_admitted (2 + 2 * length (pledge_syscall_list p)) then
    exists f, pledge_to_filter p = Ok f /\ filter_wf f /\
      forall nr args, filter_evaluate f nr args = if decide (nr ∈ pledge_syscall_list p) then Allow else Kill
  else if program_admitted 1 then
    exists f, pledge_to_filter p = Ok f /\ filter_wf f /\ forall nr args, filter_evaluate f nr args = Kill
  else pledge_to_filter p = Panic.
Proof.
  pose proof (pledge_list_length p) as Hlen.
  split; [apply pledge_list_sorted|]. split; [done|].
  unfold pledge_to_filter, or_deny_all, deny_all_filter. set (l := pledge_syscall_list p) in *.
  assert (Hv : validate_program_with_limit (whitelist l) MAX_TRUSTED_INSNS = Ok tt)
    by (apply validate_whitelist; unfold MAX_TRUSTED_INSNS; lia).
  assert (Hk : validate_program_with_limit [Ret Kill] MAX_TRUSTED_INSNS = Ok tt) by reflexivity.
  rewrite !new_trusted_valid, length_whitelist by done. change (length [Ret Kill]) with 1%nat.
  destruct (program_admitted (2 + 2 * length l)); [|destruct (program_admitted 1); [|done]].
  - eexists. split; [reflexivity|]. split; [by apply valid_filter_wf|]. intros nr args.
    rewrite filter_evaluate_interprets by (by apply valid_filter_wf).
    cbn [prog default_action]. rewrite interpret_whitelist. apply one_of_if.
  - eexists. split; [reflexivity|]. split; [by apply valid_filter_wf|]. intros nr args.
    by rewrite filter_evaluate_interprets by (by apply valid_filter_wf).
Qed.

(** The two places that enforce promises agree.  The semantic gate is the
    stated policy: exits always; opening by access mode against the path
    promises; mapping under VM, executable only with PROT_EXEC; [clone] for
    threads under THREAD or for processes that share no memory under PROC, never
    with a namespace flag; and the fixed table of the other promises.  A number
    is on the generated whitelist exactly when the gate allows it for some
    arguments, so the filter never blocks what the gate lets through. *)
Theorem pledge_gate_agrees p nr :
  (forall args, promise_allows_syscall p nr args = policy p nr args) /\
  (nr ∈ pledge_syscall_list p <->
   exists args, length args = 6%nat /\ promise_allows_syscall p nr args = true).
Proof.
  split; [apply gate_is_policy|]. rewrite elem_of_pledge_list. split.
  - intros H. exists (widest p nr). split; [unfold widest; by case_match|].
    by rewrite gate_is_policy, policy_widest.
  - intros (args & _ & H). rewrite gate_is_policy in H. by apply policy_pushed in H.
Qed.

(** Giving up promises never grants anything: what a narrower promise set
    allows, the wider one allows with the same arguments, and its generated
    whitelist is contained in the wider one's. *)
Theorem promises_monotone p q :
  N.land p q = p ->
  (forall nr args, promise_allows_syscall p nr args = true -> promise_allows_syscall q nr args = true) /\
  pledge_syscall_list p ⊆ pledge_syscall_list q.
Proof.
  intros Hn. assert (Hm : forall nr args, policy p nr args = true -> policy q nr args = true)
    by (intros; by eapply policy_narrower).
  split; [intros nr args; rewrite !gate_is_policy; apply Hm|].
  intros nr. rewrite !elem_of_pledge_list, <- (policy_widest p). intros H%Hm. by eapply policy_pushed.
Qed.

Lemma promises_monotone_witness :
  promise_allows_syscall (N.lor STDIO THREAD) SYS_CLONE [thread_required] = true /\
  promise_allows_syscall all_promises SYS_CLONE [thread_required] = true.
Proof.
  split; [reflexivity|]. apply (promises_monotone (N.lor STDIO THREAD) all_promises); reflexivity.
Defined.

(** Promise strings: parsing accepts a string exactly when each of its
    whitespace-separated words is a promise, and gives their union; writing out
    the words of a promise set and parsing them gives the set back. *)
Theorem promise_string_roundtrip :
  (forall s, parse s = match mapM promise_of_word (split_whitespace s) with
                       | Some fls => Ok (foldl N.lor 0 fls)
                       | None => Err InvalidPromise
                       end) /\
  (forall p, N.land p all_promises = p -> parse (promise_string p) = Ok p).
Proof. split; [intros s; apply parse_words_mapM|apply parse_promise_string]. Qed.

(** A program a process writes in memory is the one installed: for a valid
    program whose errno values are not negative, laid out in user memory in the
    documented format, [load_user_seccomp_filter] builds the filter with that
    program, default action and flags. *)
Theorem load_user_correct (heap : SeccompHeap) mem fl a ptr p d :
  (fl = 0 \/ fl = FLAG_LOG) -> validate_program p = Ok tt -> Forall insn_writable p ->
  (forall e, d = Errno e -> e = 0%Z) -> program_admitted (length p) = true -> ptr <> 0 ->
  read_prog mem a = inl (mkUserProg (N.of_nat (length p)) (encode_action d).1 ptr) ->
  read_insns mem ptr (length p) = inl (encode_user_insn <$> p) ->
  exists f, load_user_seccomp_filter mem fl a = Ok f /\ prog f = p /\ default_action f = d /\ flags f = fl.
Proof. intros. by eapply load_user_roundtrip. Qed.

Lemma load_user_witness :
  exists f, @load_user_seccomp_filter rich_heap demo_mem 1 4096 = Ok f /\ prog f = demo_prog /\
    default_action f = Allow /\ flags f = 1.
Proof.
  apply (load_user_correct rich_heap demo_mem 1 4096 8192 demo_prog Allow);
    [by right|reflexivity| |done|reflexivity|done|reflexivity|reflexivity].
  repeat constructor; simpl; lia.
Defined.
