(* ===== verification/OrdMap.v ===== *)
(** The ordered map of kernel metadata (src/kernel/mm/fallible_map.rs): entries
    in a vector sorted by key, with a capacity that only grows where the caller
    can handle a failure. [AdmittedMap] (src/kernel/net/src/admitted.rs) is this
    map with its backing charged to a heap class. *)

From Stdlib Require Import ZArith Lia.
From stdpp Require Import base list list_numbers numbers.
From S2P Require Import Prelude Machine.

(** * Orders ([Ord]) *)
Class Ord (K : Type) := cmp : K -> K -> comparison.

#[export] Instance Z_ord : Ord Z := Z.compare.

(** Lexicographic, as derived for structs, tuples and arrays *)
Fixpoint list_cmp {K} `{Ord K} (l1 l2 : list K) : comparison :=
  match l1, l2 with
  | [], [] => Eq
  | [], _ :: _ => Lt
  | _ :: _, [] => Gt
  | x :: l1, y :: l2 => match cmp x y with Eq => list_cmp l1 l2 | c => c end
  end.
#[export] Instance list_ord {K} `{Ord K} : Ord (list K) := list_cmp.

Record OrdMap (K V : Type) := mkMap { entries : list (K * V); capacity : Z }.
Arguments mkMap {K V}.
Arguments entries {K V}.
Arguments capacity {K V}.

Section operations.
Context {K V : Type} `{Ord K}.
Implicit Types (m : OrdMap K V) (l : list (K * V)) (k : K) (v : V).

Definition map_new : OrdMap K V := mkMap [] 0.
Definition map_len m : Z := zlen (entries m).

(** ** Searching

    [binary_search_by] on the sorted entries: the index of the key, or the one
    to insert it at *)
Fixpoint find l k : nat + nat :=
  match l with
  | [] => inr O
  | (k', _) :: l =>
      match cmp k' k with
      | Eq => inl O
      | Gt => inr O
      | Lt => match find l k with inl i => inl (S i) | inr i => inr (S i) end
      end
  end.

Definition get m k : option V :=
  match find (entries m) k with
  | inl i => snd <$> entries m !! i
  | inr _ => None
  end.

Definition contains_key m k : bool := match find (entries m) k with inl _ => true | inr _ => false end.

(** [get_mut] and an assignment through it; no effect on an absent key *)
Definition update m k (f : V -> V) : OrdMap K V :=
  match find (entries m) k with
  | inl i => mkMap (alter (fun kv => (kv.1, f kv.2)) i (entries m)) (capacity m)
  | inr _ => m
  end.

(** ** Capacity *)

(** [try_reserve]: [spare] is what the allocator gives beyond the request *)
Definition try_reserve (additional : Z) (spare : option Z) m : option (OrdMap K V) :=
  if map_len m + additional <=? capacity m then Some m
  else match spare with
       | Some s => Some (mkMap (entries m) (map_len m + additional + Z.max s 0))
       | None => None
       end.

(** [replace_backing_deferred]: the prepared capacity, if it holds the entries *)
Definition replace_backing (prepared : Z) m : option (OrdMap K V) :=
  if prepared <? map_len m then None else Some (mkMap (entries m) prepared).

(** ** Insertion and removal *)
Definition insert_at (i : nat) (kv : K * V) l : list (K * V) := take i l ++ kv :: drop i l.

Definition try_insert (spare : option Z) k v m : option (option V * OrdMap K V) :=
  match find (entries m) k with
  | inl i => Some (snd <$> entries m !! i, update m k (fun _ => v))
  | inr i => m' ← try_reserve 1 spare m; Some (None, mkMap (insert_at i (k, v) (entries m')) (capacity m'))
  end.

(** Allocation-free; [None] on a duplicate key or a full backing *)
Definition insert_unique_reserved k v m : option (OrdMap K V) :=
  match find (entries m) k with
  | inl _ => None
  | inr i => if map_len m =? capacity m then None else Some (mkMap (insert_at i (k, v) (entries m)) (capacity m))
  end.

Definition remove_entry k m : option (K * V) * OrdMap K V :=
  match find (entries m) k with
  | inl i => (entries m !! i, mkMap (delete i (entries m)) (capacity m))
  | inr _ => (None, m)
  end.
Definition remove k m : option V * OrdMap K V := let '(e, m') := remove_entry k m in (snd <$> e, m').

Definition map_clear m : OrdMap K V := mkMap [] (capacity m).
Definition map_retain (keep : K -> V -> bool) m : OrdMap K V :=
  mkMap (List.filter (fun kv => keep kv.1 kv.2) (entries m)) (capacity m).

(** ** Ranges *)
Inductive Bound := Included (k : K) | Excluded (k : K) | Unbounded.

Fixpoint partition_point (P : K -> bool) l : nat :=
  match l with
  | [] => O
  | (k, _) :: l => if P k then S (partition_point P l) else O
  end.

Definition is_lt (c : comparison) : bool := match c with Lt => true | _ => false end.
Definition is_le (c : comparison) : bool := match c with Gt => false | _ => true end.

Definition lower_bound m k : nat := partition_point (fun probe => is_lt (cmp probe k)) (entries m).
Definition upper_bound m k : nat := partition_point (fun probe => is_le (cmp probe k)) (entries m).

Definition bounds_to_indices m (lo hi : Bound) : nat * nat :=
  let lo := match lo with Unbounded => O | Included k => lower_bound m k | Excluded k => upper_bound m k end in
  let hi := match hi with
            | Unbounded => length (entries m) | Included k => upper_bound m k | Excluded k => lower_bound m k
            end in
  if (hi <? lo)%nat then (lo, lo) else (lo, hi).

Definition range m (lo hi : Bound) : list (K * V) :=
  let '(lo, hi) := bounds_to_indices m lo hi in take (hi - lo) (drop lo (entries m)).

(** ** Copies *)

(** [try_clone]: exactly the entries, if the backing can be reserved *)
Definition map_try_clone (spare : option Z) m : option (OrdMap K V) :=
  match entries m, spare with
  | [], _ => Some map_new
  | _, Some s => Some (mkMap (entries m) (map_len m + Z.max s 0))
  | _, None => None
  end.

(** [from_sorted_vec], with its debug assertion *)
Fixpoint ascending l : bool :=
  match l with
  | (k1, _) :: (((k2, _) :: _) as l') => is_lt (cmp k1 k2) && ascending l'
  | _ => true
  end.
Definition from_sorted_vec l (cap : Z) : option (OrdMap K V) :=
  if ascending l then Some (mkMap l cap) else None.
End operations.

Arguments Included {K}.
Arguments Excluded {K}.
Arguments Unbounded {K}.
