(* ===== verification/OrdMapFacts.v ===== *)
(** Lemmas on the ordered map of [OrdMap]: its invariant, and its operations as
    operations on a finite map with ascending keys. *)

From Stdlib Require Import ZArith Lia Sorted.
From stdpp Require Import base list list_numbers numbers sorting.
From S2P Require Import Prelude Machine OrdMap.

Create HintDb ord_map.

(** * Laws of an order *)
Class OrdLaws (K : Type) `{Ord K} : Prop := {
  cmp_eq (x y : K) : cmp x y = Eq <-> x = y;
  cmp_antisym (x y : K) : cmp y x = CompOpp (cmp x y);
  cmp_trans (x y z : K) : cmp x y = Lt -> cmp y z = Lt -> cmp x z = Lt;
}.

#[export] Instance Z_ord_laws : OrdLaws Z.
Proof.
  split; intros *; unfold cmp, Z_ord.
  - apply Z.compare_eq_iff.
  - symmetry. apply Zcompare_antisym.
  - rewrite !Z.compare_lt_iff. lia.
Qed.

Section list_laws.
Context {K : Type} `{OrdLaws K}.

Lemma cmp_refl (x : K) : cmp x x = Eq.
Proof. by apply cmp_eq. Qed.

Lemma list_cmp_eq (l1 l2 : list K) : list_cmp l1 l2 = Eq <-> l1 = l2.
Proof.
  revert l2. induction l1 as [|x l1 IH]; intros [|y l2]; cbn; try done.
  destruct (cmp x y) eqn:E; [apply cmp_eq in E as ->; rewrite IH; split; congruence| |];
    split; try done; intros [= -> ->]; by rewrite cmp_refl in E.
Qed.

Lemma list_cmp_antisym (l1 l2 : list K) : list_cmp l2 l1 = CompOpp (list_cmp l1 l2).
Proof.
  revert l2. induction l1 as [|x l1 IH]; intros [|y l2]; cbn; try done.
  rewrite (cmp_antisym x y). by destruct (cmp x y); cbn.
Qed.

Lemma list_cmp_trans (l1 l2 l3 : list K) : list_cmp l1 l2 = Lt -> list_cmp l2 l3 = Lt -> list_cmp l1 l3 = Lt.
Proof.
  revert l2 l3. induction l1 as [|x l1 IH]; intros [|y l2] [|z l3]; cbn; try done.
  destruct (cmp x y) eqn:E1, (cmp y z) eqn:E2; try done.
  - apply cmp_eq in E1 as ->, E2 as ->. rewrite cmp_refl. apply IH.
  - apply cmp_eq in E1 as ->. by rewrite E2.
  - apply cmp_eq in E2 as ->. by rewrite E1.
  - by rewrite (cmp_trans x y z).
Qed.
End list_laws.

#[export] Instance list_ord_laws {K} `{OrdLaws K} : OrdLaws (list K).
Proof. split; [apply list_cmp_eq|apply list_cmp_antisym|apply list_cmp_trans]. Qed.

Section map.
Context {K V : Type} `{OrdLaws K, !EqDecision K}.
Implicit Types (m : OrdMap K V) (l : list (K * V)) (k : K) (v : V).

Definition before (a b : K * V) : Prop := cmp a.1 b.1 = Lt.
Definition sorted l : Prop := StronglySorted before l.

(** The invariant of a map: ascending keys, entries within the backing *)
Record map_ok m : Prop := { mo_sorted : sorted (entries m); mo_fits : map_len m <= capacity m }.

Lemma before_ne a b : before a b -> a.1 <> b.1.
Proof. unfold before. intros Hlt Heq. rewrite Heq, cmp_refl in Hlt. done. Qed.

#[local] Instance before_trans : Transitive before.
Proof. intros x y z. apply cmp_trans. Qed.

(** * Searching *)
Definition below k (a : K * V) : Prop := cmp a.1 k = Lt.
Definition above k (a : K * V) : Prop := cmp k a.1 = Lt.

(** What [find] says of a sorted list: the key splits it. *)
Lemma find_spec l k : sorted l ->
  match find l k with
  | inl i => exists l1 v l2, l = l1 ++ (k, v) :: l2 /\ length l1 = i /\ Forall (below k) l1 /\ Forall (above k) l2
  | inr i => exists l1 l2, l = l1 ++ l2 /\ length l1 = i /\ Forall (below k) l1 /\ Forall (above k) l2
  end.
Proof.
  induction l as [|[k' v'] l IH]; intros Hs; cbn [find]; [by exists [], []|].
  apply StronglySorted_inv in Hs as [Hs Hall]. specialize (IH Hs). destruct (cmp k' k) eqn:E.
  - apply cmp_eq in E as ->. by exists [], v', l.
  - destruct (find l k) as [i|i].
    + destruct IH as (l1 & v & l2 & -> & <- & H1 & H2). exists ((k', v') :: l1), v, l2. by repeat split; [constructor|].
    + destruct IH as (l1 & l2 & -> & <- & H1 & H2). exists ((k', v') :: l1), l2. by repeat split; [constructor|].
  - assert (above k (k', v')) as Hk by (unfold above; cbn; by rewrite (cmp_antisym k' k), E).
    exists [], ((k', v') :: l). repeat split; [constructor|]. constructor; [done|].
    eapply Forall_impl; [exact Hall|]. intros [k2 v2] Hlt. by apply (cmp_trans k k' k2).
Qed.

Lemma split_not_in k l1 l2 v : Forall (below k) l1 -> Forall (above k) l2 -> ~ (k, v) ∈ l1 ++ l2.
Proof.
  rewrite !list.Forall_forall. intros H1 H2 [Hin|Hin]%elem_of_app.
  - apply H1 in Hin. unfold below in Hin. cbn in Hin. by rewrite cmp_refl in Hin.
  - apply H2 in Hin. unfold above in Hin. cbn in Hin. by rewrite cmp_refl in Hin.
Qed.

Lemma get_Some m k v : sorted (entries m) -> get m k = Some v <-> (k, v) ∈ entries m.
Proof.
  intros Hs. unfold get. pose proof (find_spec _ k Hs) as Hf. destruct (find _ k) as [i|i].
  - destruct Hf as (l1 & v' & l2 & -> & <- & H1 & H2). rewrite list_lookup_middle by done. cbn. split.
    + intros [= ->]. apply elem_of_app. right. by left.
    + intros [Hin|[[= ->]|Hin]%elem_of_cons]%elem_of_app; [|done|]; exfalso;
        apply (split_not_in k l1 l2 v H1 H2), elem_of_app; auto.
  - destruct Hf as (l1 & l2 & -> & _ & H1 & H2). split; [done|]. intros Hin. by apply split_not_in in Hin.
Qed.

Lemma get_None m k : sorted (entries m) -> get m k = None <-> (forall v, ~ (k, v) ∈ entries m).
Proof.
  intros Hs. split.
  - intros Hn v Hin. apply get_Some in Hin; [|done]. congruence.
  - intros Hn. destruct (get m k) as [v|] eqn:E; [|done]. apply get_Some in E; [|done]. by apply Hn in E.
Qed.

Lemma contains_key_spec m k : sorted (entries m) -> contains_key m k = true <-> exists v, get m k = Some v.
Proof.
  intros Hs. unfold contains_key, get. pose proof (find_spec _ k Hs) as Hf. destruct (find _ k).
  - destruct Hf as (l1 & v & l2 & -> & <- & _). rewrite list_lookup_middle by done. cbn. split; [eauto|done].
  - split; [done|]. by intros [? ?].
Qed.

Lemma contains_key_false m k : sorted (entries m) -> contains_key m k = false <-> get m k = None.
Proof.
  intros Hs. rewrite <- not_true_iff_false, (contains_key_spec m k Hs).
  destruct (get m k); split; try done; [intros []; eauto|]. by intros _ [? ?].
Qed.

Lemma get_find m k v : sorted (entries m) -> get m k = Some v ->
  exists l1 l2, entries m = l1 ++ (k, v) :: l2 /\ find (entries m) k = inl (length l1) /\
    Forall (below k) l1 /\ Forall (above k) l2.
Proof.
  intros Hs Hg. unfold get in Hg. pose proof (find_spec _ k Hs) as Hf. destruct (find _ k) as [i|i] eqn:Efind; [|done].
  destruct Hf as (l1 & v' & l2 & Hl & <- & H1 & H2). rewrite Hl, list_lookup_middle in Hg by done. cbn in Hg.
  injection Hg as ->. by exists l1, l2.
Qed.

Lemma get_none_find m k : sorted (entries m) -> get m k = None ->
  exists l1 l2, entries m = l1 ++ l2 /\ find (entries m) k = inr (length l1) /\
    Forall (below k) l1 /\ Forall (above k) l2.
Proof.
  intros Hs Hg. unfold get in Hg. pose proof (find_spec _ k Hs) as Hf. destruct (find _ k) as [i|i] eqn:Efind.
  - destruct Hf as (l1 & v & l2 & Hl & <- & _). by rewrite Hl, list_lookup_middle in Hg.
  - destruct Hf as (l1 & l2 & Hl & <- & H1 & H2). by exists l1, l2.
Qed.

(** * Sorted splits *)
Lemma sorted_app l1 l2 : sorted (l1 ++ l2) <-> sorted l1 /\ sorted l2 /\ (forall a b, a ∈ l1 -> b ∈ l2 -> before a b).
Proof.
  unfold sorted. split.
  - intros Hs. split; [by eapply StronglySorted_app_1_l|]. split; [by eapply StronglySorted_app_1_r|].
    intros a b Ha Hb. by eapply StronglySorted_app_1_elem_of.
  - intros (H1 & H2 & H12). induction l1 as [|x l1 IH]; cbn; [done|].
    apply StronglySorted_inv in H1 as [H1 Hx]. constructor.
    + apply IH; [done|]. intros a b Ha. apply H12. by right.
    + apply Forall_app. split; [done|]. apply list.Forall_forall. intros b. apply H12. by left.
Qed.

Lemma sorted_insert l1 l2 k v : sorted (l1 ++ l2) -> Forall (below k) l1 -> Forall (above k) l2 -> sorted (l1 ++ (k, v) :: l2).
Proof.
  intros (H1 & H2 & H12)%sorted_app Hl Hr. apply sorted_app. split; [done|]. split; [by constructor|].
  intros a b Ha [->|Hb]%elem_of_cons; [|by apply H12]. rewrite list.Forall_forall in Hl. by apply Hl.
Qed.

Lemma sorted_remove l1 l2 a : sorted (l1 ++ a :: l2) -> sorted (l1 ++ l2).
Proof.
  intros (H1 & H2 & H12)%sorted_app. apply StronglySorted_inv in H2 as [H2 _]. apply sorted_app. split; [done|].
  split; [done|]. intros x y Hx Hy. apply H12; [done|by right].
Qed.

Lemma sorted_replace l1 l2 k v w : sorted (l1 ++ (k, v) :: l2) -> sorted (l1 ++ (k, w) :: l2).
Proof.
  intros (H1 & H2 & H12)%sorted_app. apply StronglySorted_inv in H2 as [H2 Ha]. apply sorted_app. split; [done|].
  split; [by constructor|]. intros x y Hx [->|Hy]%elem_of_cons; [|apply H12; [done|by right]].
  apply (H12 x (k, v)); [done|by left].
Qed.

(** * Insertion, update and removal *)

(** A key that is absent goes in between smaller and greater ones. *)
Lemma insert_entries m k v cap : sorted (entries m) -> get m k = None ->
  exists i, find (entries m) k = inr i /\
    let m' := mkMap (insert_at i (k, v) (entries m)) cap in
    sorted (entries m') /\ entries m' ≡ₚ (k, v) :: entries m /\
    (forall k', get m' k' = if decide (k' = k) then Some v else get m k').
Proof.
  intros Hs Hg. destruct (get_none_find m k Hs Hg) as (l1 & l2 & Hl & Hf & H1 & H2).
  exists (length l1). split; [done|]. cbv zeta. unfold insert_at. rewrite Hl in *.
  rewrite take_app_length, drop_app_length. cbn [entries].
  assert (sorted (l1 ++ (k, v) :: l2)) as Hs' by (by apply sorted_insert). split; [done|].
  split; [by rewrite Permutation_middle|]. intros k'. apply option_eq. intros w. rewrite get_Some by done. cbn [entries].
  rewrite elem_of_app, elem_of_cons. case_decide as Hk.
  - subst k'. pose proof (split_not_in k l1 l2 w H1 H2) as Hn. rewrite elem_of_app in Hn. naive_solver.
  - rewrite get_Some by (by rewrite Hl). rewrite Hl, elem_of_app. naive_solver.
Qed.

Lemma update_entries m k f : sorted (entries m) ->
  match get m k with
  | Some v => exists l, entries m ≡ₚ (k, v) :: l /\ entries (update m k f) ≡ₚ (k, f v) :: l
  | None => update m k f = m
  end /\
  sorted (entries (update m k f)) /\ map_len (update m k f) = map_len m /\ capacity (update m k f) = capacity m /\
  (forall k', get (update m k f) k' = if decide (k' = k) then f <$> get m k else get m k').
Proof.
  intros Hs. destruct (get m k) as [v|] eqn:Hg.
  - destruct (get_find m k v Hs Hg) as (l1 & l2 & Hl & Hf & H1 & H2). unfold update, map_len. rewrite Hf, Hl. cbn [entries capacity].
    rewrite alter_app_r_alt by lia. replace (length l1 - length l1)%nat with O by lia. cbn [alter list_alter fst snd].
    assert (sorted (l1 ++ (k, f v) :: l2)) as Hs' by (rewrite Hl in Hs; by eapply sorted_replace).
    split; [exists (l1 ++ l2); split; by rewrite <- Permutation_middle|]. split; [done|].
    split; [unfold zlen; rewrite !length_app; done|]. split; [done|]. intros k'. apply option_eq. intros w.
    rewrite get_Some by done. cbn [entries]. rewrite elem_of_app, elem_of_cons. pose proof (split_not_in k l1 l2 w H1 H2) as Hn.
    rewrite elem_of_app in Hn. case_decide as Hk; [subst k'; cbn; naive_solver|].
    rewrite get_Some by done. rewrite Hl, elem_of_app, elem_of_cons. naive_solver.
  - destruct (get_none_find m k Hs Hg) as (l1 & l2 & Hl & Hf & _). unfold update. rewrite Hf.
    repeat (split; [done|]). intros k'. case_decide; [by subst|done].
Qed.

Lemma remove_entries m k : sorted (entries m) ->
  let '(o, m') := remove k m in
  o = get m k /\
  entries m ≡ₚ match o with Some v => [(k, v)] | None => [] end ++ entries m' /\
  sorted (entries m') /\ capacity m' = capacity m /\
  (forall k', get m' k' = if decide (k' = k) then None else get m k').
Proof.
  intros Hs. unfold remove, remove_entry. destruct (get m k) as [v|] eqn:Hg.
  - destruct (get_find m k v Hs Hg) as (l1 & l2 & Hl & Hf & H1 & H2). rewrite Hf, Hl, list_lookup_middle by done.
    rewrite delete_middle. cbn [fmap option_fmap option_map snd entries capacity app].
    assert (sorted (l1 ++ l2)) as Hs' by (rewrite Hl in Hs; by eapply sorted_remove).
    split; [done|]. split; [by rewrite <- Permutation_middle|]. split; [done|]. split; [done|].
    intros k'. apply option_eq. intros w. rewrite get_Some by done. cbn [entries]. case_decide as Hk.
    + subst k'. split; [|done]. intros Hin. by apply split_not_in in Hin.
    + rewrite get_Some by done. rewrite Hl, !elem_of_app, elem_of_cons. naive_solver.
  - destruct (get_none_find m k Hs Hg) as (l1 & l2 & Hl & Hf & _). rewrite Hf.
    repeat (split; [done|]). intros k'. case_decide; [by subst|done].
Qed.

Lemma perm_len (l1 l2 : list (K * V)) : l1 ≡ₚ l2 -> zlen l1 = zlen l2.
Proof. intros Hp. unfold zlen. by rewrite Hp. Qed.

(** ** The operations keep the invariant *)
Lemma map_new_ok : map_ok (@map_new K V).
Proof. split; [constructor|done]. Qed.

Lemma insert_reserved_ok m k v : map_ok m -> get m k = None -> map_len m < capacity m ->
  exists m', insert_unique_reserved k v m = Some m' /\ map_ok m' /\ entries m' ≡ₚ (k, v) :: entries m /\
    capacity m' = capacity m /\ (forall k', get m' k' = if decide (k' = k) then Some v else get m k').
Proof.
  intros [Hs Hf] Hg Hlt. destruct (insert_entries m k v (capacity m) Hs Hg) as (i & Hi & Hs' & Hp & Hget).
  unfold insert_unique_reserved. rewrite Hi. destruct (Z.eqb_spec (map_len m) (capacity m)); [lia|].
  eexists. split; [done|]. split; [|done]. split; [done|]. unfold map_len in *. rewrite (perm_len _ _ Hp), zlen_cons. cbn. lia.
Qed.

Lemma insert_reserved_full m k v : map_ok m -> get m k = None ->
  insert_unique_reserved k v m = None <-> map_len m = capacity m.
Proof.
  intros [Hs Hf] Hg. destruct (insert_entries m k v (capacity m) Hs Hg) as (i & Hi & _). unfold insert_unique_reserved.
  rewrite Hi. destruct (Z.eqb_spec (map_len m) (capacity m)); done.
Qed.

Lemma update_ok m k f : map_ok m -> map_ok (update m k f).
Proof.
  intros [Hs Hf]. destruct (update_entries m k f Hs) as (_ & Hs' & Hl & Hc & _). split; [done|]. by rewrite Hl, Hc.
Qed.

Lemma remove_ok m k : map_ok m -> map_ok (remove k m).2.
Proof.
  intros [Hs Hf]. pose proof (remove_entries m k Hs) as Hr. destruct (remove k m) as [o m'].
  destruct Hr as (_ & Hp & Hs' & Hc & _). split; [done|]. cbn. rewrite Hc. unfold map_len in *.
  rewrite (perm_len _ _ Hp) in Hf. destruct o; cbn [app] in Hf; [rewrite zlen_cons in Hf|]; lia.
Qed.

Lemma remove_len m k : map_ok m -> map_len (remove k m).2 = map_len m - (if get m k then 1 else 0).
Proof.
  intros [Hs Hf]. pose proof (remove_entries m k Hs) as Hr. destruct (remove k m) as [o m'].
  destruct Hr as (-> & Hp & _). unfold map_len. cbn. rewrite (perm_len _ _ Hp).
  destruct (get m k); cbn [app]; [rewrite zlen_cons|]; lia.
Qed.

Lemma try_reserve_ok n spare m : map_ok m -> 0 <= n ->
  match try_reserve n spare m with
  | Some m' => map_ok m' /\ entries m' = entries m /\ map_len m + n <= capacity m'
  | None => capacity m < map_len m + n /\ spare = None
  end.
Proof.
  intros [Hs Hf] Hn. unfold try_reserve. destruct (Z.leb_spec (map_len m + n) (capacity m)).
  - split; [done|]. split; [done|lia].
  - destruct spare; [|done]. split; [|split; [done|cbn; lia]]. split; [done|]. unfold map_len in *. cbn. lia.
Qed.

(** Fallible insertion: a replacement never fails, a new key only for lack of memory. *)
Lemma try_insert_spec spare k v m : map_ok m ->
  match try_insert spare k v m with
  | Some (old, m') => old = get m k /\ map_ok m' /\
      (forall k', get m' k' = if decide (k' = k) then Some v else get m k') /\
      (get m k = None -> entries m' ≡ₚ (k, v) :: entries m)
  | None => get m k = None /\ spare = None /\ map_len m = capacity m
  end.
Proof.
  intros Hok. pose proof Hok as [Hs Hf]. unfold try_insert. destruct (get m k) as [w|] eqn:Hg.
  - destruct (get_find m k w Hs Hg) as (l1 & l2 & Hl & Hfind & _). rewrite Hfind, Hl, list_lookup_middle by done.
    destruct (update_entries m k (fun _ => v) Hs) as (_ & _ & _ & _ & Hget).
    split; [done|]. split; [by apply update_ok|]. split; [|done]. intros k'. rewrite Hget, Hg. by case_decide.
  - destruct (insert_entries m k v (capacity m) Hs Hg) as (i & Hi & _). rewrite Hi.
    pose proof (try_reserve_ok 1 spare m Hok ltac:(lia)) as Hr. destruct (try_reserve 1 spare m) as [m1|]; cbn.
    + destruct Hr as ([Hs1 Hf1] & He & Hc). rewrite He.
      destruct (insert_entries m k v (capacity m1) Hs Hg) as (i' & Hi' & Hs' & Hp & Hget). rewrite Hi in Hi'. injection Hi' as <-.
      split; [done|]. split; [|split; [done|by intros _]]. split; [done|].
      unfold map_len in *. rewrite (perm_len _ _ Hp), zlen_cons. cbn. lia.
    + destruct Hr as [? ->]. split; [done|]. split; [done|]. lia.
Qed.

Lemma map_retain_spec keep m : map_ok m ->
  map_ok (map_retain keep m) /\
  (forall k, get (map_retain keep m) k = match get m k with Some v => if keep k v then Some v else None | None => None end).
Proof.
  intros [Hs Hf]. assert (sorted (List.filter (fun kv => keep kv.1 kv.2) (entries m))) as Hs'.
  { clear Hf. unfold sorted in *. induction Hs as [|a l Hs IH Ha]; cbn; [constructor|]. destruct (keep a.1 a.2); [|done].
    constructor; [done|]. rewrite list.Forall_forall in *. intros b [Hb _]%list_elem_of_In%filter_In.
    by apply Ha, list_elem_of_In. }
  split.
  - split; [done|]. unfold map_len in *. cbn. pose proof (filter_length_le (fun kv => keep kv.1 kv.2) (entries m)). unfold zlen in *. lia.
  - intros k. apply option_eq. intros w. rewrite get_Some by done. cbn [entries map_retain].
    rewrite list_elem_of_In, filter_In, <- list_elem_of_In, <- get_Some by done. cbn.
    destruct (get m k) as [u|]; [|split; [by intros [? _]|done]].
    split; [intros [[= ->] ->]; done|]. destruct (keep k u) eqn:E; intros [= ->]. done.
Qed.

(** * Ranges *)
Definition within (lo hi : Bound) (a : K * V) : bool :=
  match lo with Unbounded => true | Included k => is_le (cmp k a.1) | Excluded k => is_lt (cmp k a.1) end &&
  match hi with Unbounded => true | Included k => is_le (cmp a.1 k) | Excluded k => is_lt (cmp a.1 k) end.

(** A predicate that holds up to a point of the order *)
Definition initial (P : K -> bool) : Prop := forall a b, cmp a b = Lt -> P b = true -> P a = true.

Lemma initial_rest P k v l : initial P -> Forall (before (k, v)) l -> P k = false -> forall b, b ∈ l -> P b.1 = false.
Proof.
  intros HP Hall Hk b Hb. apply not_true_iff_false. intros Hb1. rewrite list.Forall_forall in Hall.
  rewrite (HP k b.1 (Hall b Hb) Hb1) in Hk. done.
Qed.

Lemma partition_point_none P l : (forall b, b ∈ l -> P b.1 = false) -> partition_point P l = O.
Proof. destruct l as [|[k v] l]; cbn; [done|]. intros Hn. specialize (Hn (k, v)). cbn in Hn. rewrite Hn; [done|by left]. Qed.

Lemma filter_none (Q : K * V -> bool) l : (forall b, b ∈ l -> Q b = false) -> List.filter Q l = [].
Proof. induction l as [|b l IH]; cbn; intros Hn; [done|]. rewrite Hn by (by left). apply IH. intros. apply Hn. by right. Qed.

Lemma cut_filter P1 P2 l : sorted l -> initial P1 -> initial P2 ->
  take (partition_point P2 l - partition_point P1 l) (drop (partition_point P1 l) l) =
  List.filter (fun a => negb (P1 a.1) && P2 a.1) l.
Proof.
  intros Hs H1 H2. induction l as [|[k v] l IH]; [done|]. apply StronglySorted_inv in Hs as [Hs Hall]. specialize (IH Hs).
  cbn. destruct (P2 k) eqn:E2.
  - destruct (P1 k) eqn:E1; cbn; [done|]. f_equal. rewrite <- IH, (partition_point_none P1 l); [|by eapply initial_rest].
    by rewrite Nat.sub_0_r, drop_0.
  - rewrite andb_false_r. cbn. symmetry. apply filter_none. intros b Hb.
    rewrite (initial_rest P2 k v l H2 Hall E2 b Hb). apply andb_false_r.
Qed.

Lemma initial_lt k : initial (fun probe => is_lt (cmp probe k)).
Proof. intros a b Hab. destruct (cmp b k) eqn:E; cbn; try done. by rewrite (cmp_trans a b k). Qed.

Lemma initial_le k : initial (fun probe => is_le (cmp probe k)).
Proof.
  intros a b Hab. destruct (cmp b k) eqn:E; cbn; try done; intros _.
  - apply cmp_eq in E as ->. by rewrite Hab.
  - by rewrite (cmp_trans a b k).
Qed.

Lemma not_lt_le a b : negb (is_lt (cmp a b)) = is_le (cmp b a).
Proof. rewrite (cmp_antisym a b). by destruct (cmp a b). Qed.

Lemma not_le_lt a b : negb (is_le (cmp a b)) = is_lt (cmp b a).
Proof. rewrite (cmp_antisym a b). by destruct (cmp a b). Qed.

Lemma low_index m lo : exists P, initial P /\
  (forall a, negb (P a) = match lo with Unbounded => true | Included k => is_le (cmp k a) | Excluded k => is_lt (cmp k a) end) /\
  match lo with Unbounded => O | Included k => lower_bound m k | Excluded k => upper_bound m k end =
    partition_point P (entries m).
Proof.
  destruct lo as [k|k|].
  - eexists. split; [apply initial_lt|]. split; [intros; apply not_lt_le|done].
  - eexists. split; [apply initial_le|]. split; [intros; apply not_le_lt|done].
  - exists (fun _ => false). split; [done|]. split; [done|]. by rewrite partition_point_none.
Qed.

Lemma high_index m hi : exists P, initial P /\
  (forall a, P a = match hi with Unbounded => true | Included k => is_le (cmp a k) | Excluded k => is_lt (cmp a k) end) /\
  match hi with Unbounded => length (entries m) | Included k => upper_bound m k | Excluded k => lower_bound m k end =
    partition_point P (entries m).
Proof.
  destruct hi as [k|k|].
  - eexists. split; [apply initial_le|done].
  - eexists. split; [apply initial_lt|done].
  - exists (fun _ => true). split; [done|]. split; [done|]. induction (entries m) as [|[k v] l IHl]; cbn; [done|]. by f_equal.
Qed.

(** [range] is a filter by key, in ascending order. *)
Lemma range_spec m lo hi : sorted (entries m) -> range m lo hi = List.filter (within lo hi) (entries m).
Proof.
  intros Hs. unfold range, bounds_to_indices.
  destruct (low_index m lo) as (P1 & HP1 & Hlo & ->), (high_index m hi) as (P2 & HP2 & Hhi & ->).
  transitivity (take (partition_point P2 (entries m) - partition_point P1 (entries m))
                  (drop (partition_point P1 (entries m)) (entries m))).
  - destruct (Nat.ltb_spec (partition_point P2 (entries m)) (partition_point P1 (entries m))); [|done].
    by rewrite Nat.sub_diag, (proj2 (Nat.sub_0_le (partition_point P2 _) _)) by lia.
  - rewrite cut_filter by done. apply filter_ext. intros a. unfold within. by rewrite Hlo, Hhi.
Qed.

Lemma map_try_clone_spec spare m : map_ok m ->
  match map_try_clone spare m with
  | Some m' => map_ok m' /\ entries m' = entries m
  | None => spare = None
  end.
Proof.
  intros [Hs Hf]. unfold map_try_clone, map_len in *. destruct (entries m) as [|a l] eqn:E.
  - split; [apply map_new_ok|done].
  - destruct spare; [|done]. split; [|done]. split; [done|]. unfold map_len. cbn [entries capacity]. lia.
Qed.

Lemma ascending_spec l : ascending l = true <-> sorted l.
Proof.
  unfold sorted. induction l as [|[k v] l IH]; [split; [constructor|done]|]. split.
  - destruct l as [|[k2 v2] l]; [intros _; repeat constructor|]. cbn [ascending]. intros [H1 H2]%andb_true_iff.
    apply IH in H2 as Hs. constructor; [done|]. assert (before (k, v) (k2, v2)) as Hb.
    { unfold before. cbn. by destruct (cmp k k2). }
    constructor; [done|]. apply StronglySorted_inv in Hs as [_ Hall]. eapply Forall_impl; [exact Hall|].
    intros a Ha. by transitivity (k2, v2).
  - intros [Hs Hall]%StronglySorted_inv. destruct l as [|[k2 v2] l]; [done|]. apply Forall_inv in Hall. unfold before in Hall.
    cbn in Hall. apply IH in Hs. cbn [ascending]. by rewrite Hall.
Qed.
End map.

#[export] Hint Resolve map_new_ok update_ok remove_ok : ord_map.
