(* ===== verification/OrdMapCorrect.v ===== *)
(** The ordered metadata map implements a finite map: every sequence of its
    operations answers as a [gmap] would, iterates in ascending order of the keys,
    and keeps the promise of a reservation. *)

From Stdlib Require Import ZArith Lia Sorted.
From stdpp Require Import base list list_numbers numbers gmap sorting.
From S2P Require Import Prelude Machine OrdMap OrdMapFacts.

(** * Operations and answers *)
Section refinement.
Context {V : Type}.
Implicit Types (m : OrdMap Z V) (g : gmap Z V).

Inductive MapOp :=
| OpTryInsert (k : Z) (v : V) (spare : option Z)
| OpInsertReserved (k : Z) (v : V)
| OpReserve (n : Z) (spare : option Z)
| OpGet (k : Z)
| OpUpdate (k : Z) (f : V -> V)
| OpRemove (k : Z)
| OpRetain (keep : Z -> V -> bool)
| OpRange (lo hi : Bound (K := Z))
| OpClear.

Inductive Answer := Value (o : option V) | Listing (l : list (Z * V)) | Done | Refused.

Definition map_exec (op : MapOp) m : Answer * OrdMap Z V :=
  match op with
  | OpTryInsert k v spare => match try_insert spare k v m with Some (old, m') => (Value old, m') | None => (Refused, m) end
  | OpInsertReserved k v => match insert_unique_reserved k v m with Some m' => (Done, m') | None => (Refused, m) end
  | OpReserve n spare => match try_reserve n spare m with Some m' => (Done, m') | None => (Refused, m) end
  | OpGet k => (Value (get m k), m)
  | OpUpdate k f => (Done, update m k f)
  | OpRemove k => let '(old, m') := remove k m in (Value old, m')
  | OpRetain keep => (Done, map_retain keep m)
  | OpRange lo hi => (Listing (range m lo hi), m)
  | OpClear => (Done, map_clear m)
  end.

Fixpoint map_run (ops : list MapOp) m : list Answer * OrdMap Z V :=
  match ops with
  | [] => ([], m)
  | op :: ops => let '(a, m) := map_exec op m in let '(l, m) := map_run ops m in (a :: l, m)
  end.

(** * The specification

    A finite map, and the insertions that are promised not to need memory *)
Definition in_bounds (lo hi : Bound (K := Z)) (k : Z) : Prop :=
  match lo with Included a => a <= k | Excluded a => a < k | Unbounded => True end /\
  match hi with Included a => k <= a | Excluded a => k < a | Unbounded => True end.

Definition op_spec (op : MapOp) (st : gmap Z V * Z) (a : Answer) (st' : gmap Z V * Z) : Prop :=
  let '(g, slack) := st in
  match op with
  | OpTryInsert k v spare =>
      (a = Value (g !! k) /\ st' = (<[k := v]> g, if g !! k then slack else Z.max 0 (slack - 1))) \/
      (a = Refused /\ st' = st /\ g !! k = None /\ spare = None /\ slack = 0)
  | OpInsertReserved k v =>
      (a = Done /\ g !! k = None /\ st' = (<[k := v]> g, Z.max 0 (slack - 1))) \/ (a = Refused /\ st' = st /\ (is_Some (g !! k) \/ slack = 0))
  | OpReserve n spare =>
      (a = Done /\ st' = (g, Z.max slack n)) \/ (a = Refused /\ st' = st /\ spare = None)
  | OpGet k => a = Value (g !! k) /\ st' = st
  | OpUpdate k f => a = Done /\ st' = (alter f k g, slack)
  | OpRemove k => a = Value (g !! k) /\ st' = (delete k g, if g !! k then slack + 1 else slack)
  | OpRetain keep => a = Done /\ st' = (filter (fun kv => keep kv.1 kv.2 = true) g, slack)
  | OpRange lo hi => st' = st /\ exists l, a = Listing l /\ StronglySorted Z.lt (map fst l) /\
      forall k v, (k, v) ∈ l <-> g !! k = Some v /\ in_bounds lo hi k
  | OpClear => a = Done /\ st' = (∅, slack)
  end.

Fixpoint run_spec (ops : list MapOp) (st : gmap Z V * Z) (l : list Answer) (st' : gmap Z V * Z) : Prop :=
  match ops, l with
  | [], [] => st' = st
  | op :: ops, a :: l => exists st1, op_spec op st a st1 /\ run_spec ops st1 l st'
  | _, _ => False
  end.

(** * The simulation *)
Record represents m (st : gmap Z V * Z) : Prop := {
  rp_ok : map_ok m;
  rp_get : forall k, get m k = st.1 !! k;
  rp_slack : 0 <= st.2 /\ map_len m + st.2 <= capacity m;
}.

Lemma sorted_keys (l : list (Z * V)) : sorted l -> StronglySorted Z.lt (map fst l).
Proof.
  intros Hs. induction Hs as [|a l Hs IH Ha]; cbn; constructor; [done|]. rewrite list.Forall_forall. rewrite list.Forall_forall in Ha.
  intros k (b & -> & Hb)%list_elem_of_fmap. specialize (Ha b Hb). unfold before, cmp, Z_ord in Ha. by rewrite Z.compare_lt_iff in Ha.
Qed.

Lemma within_bounds lo hi (kv : Z * V) : within lo hi kv = true <-> in_bounds lo hi kv.1.
Proof.
  unfold within, in_bounds. rewrite andb_true_iff. unfold cmp, Z_ord. assert (forall a b : Z, is_le (a ?= b) = true <-> a <= b) as Hle.
  { intros a b. unfold is_le. destruct (Z.compare_spec a b); lia. }
  assert (forall a b : Z, is_lt (a ?= b) = true <-> a < b) as Hlt. { intros a b. unfold is_lt. destruct (Z.compare_spec a b); lia. }
  destruct lo, hi; rewrite ?Hle, ?Hlt; tauto.
Qed.

Lemma range_refines m g lo hi : map_ok m -> (forall k, get m k = g !! k) ->
  StronglySorted Z.lt (map fst (range m lo hi)) /\ forall k v, (k, v) ∈ range m lo hi <-> g !! k = Some v /\ in_bounds lo hi k.
Proof.
  intros Hm Hg. rewrite range_spec by apply Hm. split.
  - apply sorted_keys. pose proof (mo_sorted _ Hm) as Hs. unfold sorted in *. induction Hs as [|a l Hs IH Ha]; cbn; [constructor|].
    destruct (within lo hi a); [|done]. constructor; [done|]. rewrite list.Forall_forall in *. intros b [Hb _]%list_elem_of_In%filter_In.
    by apply Ha, list_elem_of_In.
  - intros k v. rewrite list_elem_of_In, filter_In, <- list_elem_of_In, <- (get_Some m k v (mo_sorted _ Hm)), Hg, within_bounds. done.
Qed.

Lemma try_insert_capacity spare k v m m' old : map_ok m -> try_insert spare k v m = Some (old, m') ->
  capacity m <= capacity m' /\ map_len m' = map_len m + (if get m k then 0 else 1).
Proof.
  intros Hm. pose proof Hm as [Hs Hf]. unfold try_insert. destruct (get m k) as [w|] eqn:Hg.
  - destruct (get_find m k w Hs Hg) as (l1 & l2 & Hl & Hfind & _). rewrite Hfind. intros [= <- <-].
    destruct (update_entries m k (fun _ => v) Hs) as (_ & _ & -> & -> & _). lia.
  - destruct (insert_entries m k v (capacity m) Hs Hg) as (i & Hi & _ & Hp & _). rewrite Hi. unfold try_reserve.
    destruct (Z.leb_spec (map_len m + 1) (capacity m)); [|destruct spare; [|done]]; cbn; intros [= <- <-]; unfold map_len in *;
      cbn [entries capacity] in *; rewrite (perm_len _ _ Hp), zlen_cons; lia.
Qed.

Lemma insert_refines m g slack spare k v : represents m (g, slack) ->
  let '(a, m') := map_exec (OpTryInsert k v spare) m in exists st', op_spec (OpTryInsert k v spare) (g, slack) a st' /\ represents m' st'.
Proof.
  intros [Hm Hg [Hs0 Hs]]. cbn in *. pose proof (try_insert_spec spare k v m Hm) as Ht. destruct (try_insert spare k v m) as [[old m']|] eqn:E.
  - destruct Ht as (-> & Hm' & Hget & _). destruct (try_insert_capacity _ _ _ _ _ _ Hm E) as [Hc Hl]. pose proof (mo_fits _ Hm') as Hfit.
    eexists. split; [left; split; [by rewrite Hg|done]|]. constructor; [done| |].
    + intros k'. cbn. rewrite Hget, Hg. case_decide; [subst k'; by rewrite lookup_insert_eq|by rewrite lookup_insert_ne].
    + cbn. rewrite Hg in Hl. destruct (g !! k); lia.
  - destruct Ht as (Hno & -> & Hfull). exists (g, slack). split; [|done]. right. split; [done|]. split; [done|]. rewrite <- Hg. split; [done|]. split; [done|]. lia.
Qed.

Lemma reserved_refines m g slack k v : represents m (g, slack) ->
  let '(a, m') := map_exec (OpInsertReserved k v) m in exists st', op_spec (OpInsertReserved k v) (g, slack) a st' /\ represents m' st'.
Proof.
  intros [Hm Hg [Hs0 Hs]]. cbn in *. destruct (get m k) as [w|] eqn:Hk.
  - assert (insert_unique_reserved k v m = None) as ->.
    { unfold insert_unique_reserved. by destruct (get_find m k w (mo_sorted _ Hm) Hk) as (? & ? & _ & -> & _). }
    exists (g, slack). split; [|done]. right. split; [done|]. split; [done|]. left. rewrite <- Hg, Hk. done.
  - destruct (decide (map_len m < capacity m)) as [Hlt|Hge].
    + destruct (insert_reserved_ok m k v Hm Hk Hlt) as (m' & -> & Hm' & Hp & Hc & Hget). eexists. split; [left; split; [done|]; split; [by rewrite <- Hg|done]|].
      constructor; [done| |].
      * intros k'. cbn. rewrite Hget, Hg. case_decide; [subst k'; by rewrite lookup_insert_eq|by rewrite lookup_insert_ne].
      * cbn. unfold map_len in *. rewrite (perm_len _ _ Hp), zlen_cons. lia.
    + pose proof (mo_fits _ Hm) as Hfit. rewrite (proj2 (insert_reserved_full m k v Hm Hk)) by lia. exists (g, slack). split; [|done].
      right. split; [done|]. split; [done|]. right. lia.
Qed.

Lemma reserve_refines m g slack n spare : represents m (g, slack) ->
  let '(a, m') := map_exec (OpReserve n spare) m in exists st', op_spec (OpReserve n spare) (g, slack) a st' /\ represents m' st'.
Proof.
  intros Hr. pose proof Hr as [Hm Hg [Hs0 Hs]]. cbn in *. unfold try_reserve. destruct (Z.leb_spec (map_len m + n) (capacity m)).
  - eexists. split; [by left|]. constructor; [done|done|]. cbn. lia.
  - destruct spare as [s|]; [|exists (g, slack); split; [by right|done]]. eexists. split; [by left|]. constructor; [|done|].
    + split; [apply Hm|]. pose proof (mo_fits _ Hm). unfold map_len in *. cbn. lia.
    + unfold map_len in *. cbn. pose proof (mo_fits _ Hm). unfold map_len in *. lia.
Qed.

Lemma remove_refines m g slack k : represents m (g, slack) ->
  let '(a, m') := map_exec (OpRemove k) m in exists st', op_spec (OpRemove k) (g, slack) a st' /\ represents m' st'.
Proof.
  intros [Hm Hg [Hs0 Hs]]. cbn in *. pose proof (remove_entries m k (mo_sorted _ Hm)) as Hr. pose proof (remove_ok m k Hm) as Hok.
  pose proof (remove_len m k Hm) as Hl. destruct (remove k m) as [o m']. destruct Hr as (-> & _ & _ & Hc & Hget). cbn in Hok, Hl.
  eexists. split; [split; [by rewrite Hg|done]|]. constructor; [done| |].
  - intros k'. cbn. rewrite Hget, Hg. case_decide; [subst k'; by rewrite lookup_delete_eq|by rewrite lookup_delete_ne].
  - cbn. rewrite Hg in Hl. destruct (g !! k); lia.
Qed.

Lemma exec_refines op m st : represents m st -> let '(a, m') := map_exec op m in exists st', op_spec op st a st' /\ represents m' st'.
Proof.
  destruct st as [g slack]. intros Hr. pose proof Hr as [Hm Hg [Hs0 Hs]]. cbn in Hg, Hs0, Hs. destruct op as [k v spare|k v|n spare|k|k f|k|keep|lo hi|].
  - by apply insert_refines.
  - by apply reserved_refines.
  - by apply reserve_refines.
  - exists (g, slack). cbn. by rewrite Hg.
  - cbn. eexists. split; [done|]. destruct (update_entries m k f (mo_sorted _ Hm)) as (_ & _ & Hl & Hc & Hget). constructor; [by apply update_ok| |cbn; lia].
    intros k'. cbn. rewrite Hget, Hg. case_decide; [subst k'; by rewrite lookup_alter_eq|by rewrite lookup_alter_ne].
  - by apply remove_refines.
  - cbn. eexists. split; [done|]. destruct (map_retain_spec keep m Hm) as [Hok Hget]. constructor; [done| |].
    + intros k. cbn. rewrite Hget, Hg, map_lookup_filter. destruct (g !! k) as [v|]; cbn; [|done]. destruct (keep k v) eqn:E.
      * by rewrite option_guard_True.
      * by rewrite option_guard_False by congruence.
    + unfold map_len, map_retain in *. cbn. pose proof (filter_length_le (fun kv => keep kv.1 kv.2) (entries m)). unfold zlen in *. lia.
  - cbn. exists (g, slack). split; [|done]. split; [done|]. eexists. split; [done|]. by apply range_refines.
  - cbn. eexists. split; [done|]. constructor; [|done|].
    + split; [constructor|]. pose proof (mo_fits _ Hm). pose proof (zlen_nonneg (entries m)). unfold map_len in *. cbn. change (zlen []) with 0. lia.
    + unfold map_len in *. cbn. change (zlen []) with 0. pose proof (zlen_nonneg (entries m)). lia.
Qed.

Lemma run_refines ops m st : represents m st -> let '(l, m') := map_run ops m in exists st', run_spec ops st l st' /\ represents m' st'.
Proof.
  revert m st. induction ops as [|op ops IH]; intros m st Hr; cbn [map_run]; [by exists st|].
  pose proof (exec_refines op m st Hr) as Hstep. destruct (map_exec op m) as [a m1]. destruct Hstep as (st1 & Hop & Hr1).
  specialize (IH m1 st1 Hr1). destruct (map_run ops m1) as [l m2]. destruct IH as (st2 & Hrun & Hr2). exists st2. split; [|done]. by exists st1.
Qed.

(** C27 Every sequence of operations on the ordered map answers as on a finite map:
    lookups, replacements and removals give the value that is there, a range gives
    exactly the entries between its bounds in ascending order of the keys, and an
    insertion into reserved room never fails while the reservation lasts. At the end
    the entries are those of the finite map, ascending, within the capacity. *)
Theorem ordered_map_refines ops :
  let '(l, m) := map_run ops map_new in
  exists g slack, run_spec ops (∅, 0) l (g, slack) /\
    StronglySorted Z.lt (map fst (entries m)) /\ (forall k v, (k, v) ∈ entries m <-> g !! k = Some v) /\
    0 <= slack /\ map_len m + slack <= capacity m.
Proof.
  assert (represents map_new (∅, 0)) as H0 by (split; [apply map_new_ok|done|done]).
  pose proof (run_refines ops _ _ H0) as Hr. destruct (map_run ops map_new) as [l m]. destruct Hr as ([g slack] & Hrun & [Hm Hg Hs]).
  exists g, slack. split; [done|]. split; [apply sorted_keys, Hm|]. split; [|done]. intros k v. cbn in Hg. by rewrite <- Hg, (get_Some m k v (mo_sorted _ Hm)).
Qed.
End refinement.
