(* ===== verification/Wire.v ===== *)
(** Packet formats: the Internet checksum, Ethernet, IPv4, UDP and ICMP
    (src/kernel/net/src/ethernet.rs, ipv4.rs, udp.rs, icmp.rs).

    A packet is the list of its bytes. *)

From Stdlib Require Import ZArith Lia.
From stdpp Require Import base list list_numbers numbers.
From S2P Require Import Prelude Machine.

(** * Bytes *)
Definition is_byte (b : Z) : Prop := 0 <= b < 256.
Definition is_u16 (v : Z) : Prop := 0 <= v < 65536.

(** [u16::from_be_bytes] and [to_be_bytes] *)
Definition be16 (hi lo : Z) : Z := hi * 256 + lo.
Definition be16_bytes (v : Z) : list Z := [v / 256; v mod 256].

(** [p[i]] and [&p[a..b]]; out of range aborts. *)
Definition at_ {E} (p : list Z) (i : Z) : res E Z := or_panic (zget p i).
Definition u16_at {E} (p : list Z) (i : Z) : res E Z :=
  let? a := at_ p i in let? b := at_ p (i + 1) in Ok (be16 a b).
Definition slice {E} (p : list Z) (a b : Z) : res E (list Z) :=
  if (0 <=? a) && (a <=? b) && (b <=? zlen p)
  then Ok (take (Z.to_nat (b - a)) (drop (Z.to_nat a) p)) else Panic.

(** * Checksum *)
Definition wrap32 (v : Z) : Z := v mod 2 ^ 32.

(** The summing loops: big-endian words, a last odd byte as a high byte. *)
Fixpoint add_words (sum : Z) (l : list Z) : Z :=
  match l with
  | a :: b :: l => add_words (wrap32 (sum + be16 a b)) l
  | [a] => wrap32 (sum + a * 256)
  | [] => sum
  end.

(** [while (sum >> 16) != 0 { sum = (sum & 0xffff) + (sum >> 16) }]; a 32-bit
    sum leaves the loop within [FOLD_ROUNDS]. *)
Definition FOLD_ROUNDS : nat := 4.

Fixpoint fold_sum (rounds : nat) (sum : Z) : Z :=
  match rounds with
  | O => sum
  | S rounds =>
      if Z.shiftr sum 16 =? 0 then sum
      else fold_sum rounds (Z.land sum 65535 + Z.shiftr sum 16)
  end.

(** [!(sum as u16)] after folding *)
Definition finish_sum (sum : Z) : Z := 65535 - fold_sum FOLD_ROUNDS sum mod 65536.

Definition compute_checksum (data : list Z) (len : Z) : Z :=
  let capped := Z.min (zlen data) len in
  finish_sum (add_words 0 (take (Z.to_nat capped) data)).

Definition calculate_checksum_with_pseudo (pseudo_header data : list Z) : Z :=
  finish_sum (add_words (add_words 0 pseudo_header) data).

(** * Packet buffers
    (src/kernel/net/src/admitted.rs): the bytes of the backing, of which the
    first [wp_start] are room for headers still to come. Whether the heap
    ledger admits an allocation is the argument [wire_admitted]. *)
Class WireHeap := { wire_admitted : Z -> bool }.

Inductive AdmittedAllocError := NoMemory | Arithmetic | Duplicate | CapacityInvariant.

Definition WIRE_ENCAPSULATION_HEADROOM : Z := 80.

Record WirePacket := mkWire { wp_bytes : list Z; wp_start : Z }.

Definition wire_new : WirePacket := mkWire [] 0.

Definition try_zeroed `{heap : WireHeap} (len : Z) : res AdmittedAllocError WirePacket :=
  if len =? 0 then Ok wire_new else
  let? allocation_len := ok_or (checked_add WIRE_ENCAPSULATION_HEADROOM len) Arithmetic in
  if wire_admitted allocation_len
  then Ok (mkWire (replicate (Z.to_nat allocation_len) 0) WIRE_ENCAPSULATION_HEADROOM)
  else Err NoMemory.

Definition as_slice (p : WirePacket) : list Z := drop (Z.to_nat (wp_start p)) (wp_bytes p).
Definition wire_len (p : WirePacket) : Z := saturating_sub (zlen (wp_bytes p)) (wp_start p).

(** [p.as_mut_slice().copy_from_slice(l)], which aborts on another length *)
Definition fill {E} (p : WirePacket) (l : list Z) : res E WirePacket :=
  if zlen l =? wire_len p
  then Ok (mkWire (take (Z.to_nat (wp_start p)) (wp_bytes p) ++ l) (wp_start p)) else Panic.

Definition try_copy_from_slice `{heap : WireHeap} (source : list Z) : res AdmittedAllocError WirePacket :=
  let? packet := try_zeroed (zlen source) in
  fill packet source.

(** [try_fold] of the part lengths *)
Fixpoint parts_len (len : Z) (parts : list (list Z)) : option Z :=
  match parts with
  | [] => Some len
  | part :: parts => len ← checked_add len (zlen part); parts_len len parts
  end.

Definition try_from_slices `{heap : WireHeap} (parts : list (list Z)) : res AdmittedAllocError WirePacket :=
  let? total := ok_or (parts_len 0 parts) Arithmetic in
  let? packet := try_zeroed total in
  fill packet (concat parts).

Definition try_prepend_from_slices (p : WirePacket) (parts : list (list Z))
  : res AdmittedAllocError WirePacket :=
  let? prefix_len := ok_or (parts_len 0 parts) Arithmetic in
  if wp_start p <? prefix_len then Err CapacityInvariant else
  let new_start := wp_start p - prefix_len in
  if zlen (wp_bytes p) <? wp_start p then Panic else
  Ok (mkWire (take (Z.to_nat new_start) (wp_bytes p) ++ concat parts ++
              drop (Z.to_nat (wp_start p)) (wp_bytes p)) new_start).

(** [map_err] to one error *)
Definition map_err {E F A} (r : res E A) (e : F) : res F A :=
  match r with Ok a => Ok a | Err _ => Err e | Panic => Panic end.

(** * Ethernet *)
Definition ETH_HEADER_LEN : Z := 14.
Definition ETHERTYPE_IPV4 : Z := 2048.
Definition ETHERTYPE_ARP : Z := 2054.

(** [EthAddr]: its six octets *)
Record EthAddr := mkMac { mac0 : Z; mac1 : Z; mac2 : Z; mac3 : Z; mac4 : Z; mac5 : Z }.

#[export] Instance EthAddr_eq_dec : EqDecision EthAddr.
Proof. solve_decision. Defined.

Definition eth_octets (a : EthAddr) : list Z := [mac0 a; mac1 a; mac2 a; mac3 a; mac4 a; mac5 a].

Record EthHeader := mkEth { eth_dst : EthAddr; eth_src : EthAddr; ethertype : Z }.

Inductive EthError := EthTruncated | EthUnsupportedProtocol | EthFrameTooLarge | EthAllocationFailed.

Definition eth_to_bytes (h : EthHeader) : list Z :=
  eth_octets (eth_dst h) ++ eth_octets (eth_src h) ++ be16_bytes (ethertype h).

(** [copy_from_slice(&frame[i..i + 6])] *)
Definition mac_at {E} (p : list Z) (i : Z) : res E EthAddr :=
  let? a := at_ p i in let? b := at_ p (i + 1) in let? c := at_ p (i + 2) in
  let? d := at_ p (i + 3) in let? e := at_ p (i + 4) in let? f := at_ p (i + 5) in
  Ok (mkMac a b c d e f).

Definition parse_ethernet (frame : list Z) : res EthError (EthHeader * list Z) :=
  if zlen frame <? ETH_HEADER_LEN then Err EthTruncated else
  let? dst := mac_at frame 0 in
  let? src := mac_at frame 6 in
  let? ty := u16_at frame 12 in
  let? payload := slice frame ETH_HEADER_LEN (zlen frame) in
  Ok (mkEth dst src ty, payload).

Definition try_build_ethernet_frame_from_parts `{heap : WireHeap} (dst src : EthAddr) (ty : Z)
  (payload_parts : list (list Z)) : res EthError WirePacket :=
  let? payload_len := ok_or (parts_len 0 payload_parts) EthFrameTooLarge in
  let? total := ok_or (checked_add ETH_HEADER_LEN payload_len) EthFrameTooLarge in
  let? frame := map_err (try_zeroed total) EthAllocationFailed in
  fill frame (eth_octets dst ++ eth_octets src ++ be16_bytes ty ++ concat payload_parts).

(** [unwrap_or_default]: an error becomes the empty packet. *)
Definition build_ethernet_frame_from_parts `{heap : WireHeap} (dst src : EthAddr) (ty : Z)
  (payload_parts : list (list Z)) : res EthError WirePacket :=
  match try_build_ethernet_frame_from_parts dst src ty payload_parts with
  | Err _ => Ok wire_new
  | r => r
  end.

Definition build_ethernet_frame `{heap : WireHeap} (dst src : EthAddr) (ty : Z) (payload : list Z)
  : res EthError WirePacket :=
  build_ethernet_frame_from_parts dst src ty [payload].

(** * IPv4 *)
Definition IPV4_HEADER_MIN_LEN : Z := 20.

Inductive Ipv4Proto := Icmp | Tcp | Udp.

#[export] Instance Ipv4Proto_eq_dec : EqDecision Ipv4Proto.
Proof. solve_decision. Defined.

Definition to_raw (p : Ipv4Proto) : Z := match p with Icmp => 1 | Tcp => 6 | Udp => 17 end.
Definition from_raw (v : Z) : option Ipv4Proto :=
  if v =? 1 then Some Icmp else if v =? 6 then Some Tcp else if v =? 17 then Some Udp else None.

(** [Ipv4Addr]: its four octets *)
Record Ipv4Addr := mkAddr { oct0 : Z; oct1 : Z; oct2 : Z; oct3 : Z }.

#[export] Instance Ipv4Addr_eq_dec : EqDecision Ipv4Addr.
Proof. solve_decision. Defined.

Definition octets (a : Ipv4Addr) : list Z := [oct0 a; oct1 a; oct2 a; oct3 a].

Definition is_multicast (a : Ipv4Addr) : bool := Z.land (oct0 a) 240 =? 224.
Definition is_broadcast (a : Ipv4Addr) : bool := bool_decide (a = mkAddr 255 255 255 255).
Definition is_unspecified (a : Ipv4Addr) : bool := bool_decide (a = mkAddr 0 0 0 0).
Definition is_loopback (a : Ipv4Addr) : bool := oct0 a =? 127.

Definition is_valid_source (a : Ipv4Addr) : bool :=
  if is_broadcast a || is_multicast a || is_unspecified a then false else
  if is_loopback a then false else
  if oct0 a =? 0 then false else
  if oct3 a =? 255 then false else true.

Record Ipv4Header := mkIpv4 {
  version : Z; ihl : Z; dscp_ecn : Z; total_len : Z; identification : Z; flags_fragment : Z;
  ttl : Z; protocol : Z; ip_checksum : Z; ip_src : Ipv4Addr; ip_dst : Ipv4Addr; options_len : Z;
}.

Definition header_len (h : Ipv4Header) : Z := ihl h * 4.
Definition payload_len (h : Ipv4Header) : Z := saturating_sub (total_len h) (header_len h).
Definition dont_fragment (h : Ipv4Header) : bool := negb (Z.land (flags_fragment h) 16384 =? 0).
Definition more_fragments (h : Ipv4Header) : bool := negb (Z.land (flags_fragment h) 8192 =? 0).
Definition fragment_offset (h : Ipv4Header) : Z := Z.land (flags_fragment h) 8191.
Definition is_fragment (h : Ipv4Header) : bool := more_fragments h || negb (fragment_offset h =? 0).

Inductive Ipv4Error :=
| IpTruncated | BadVersion | BadIhl | BadTotalLen | ChecksumMismatch
| SourceRoutingForbidden | IpInvalidSource | InvalidTtl.

(** The walk over the options; [fuel] bounds its rounds, each of which advances
    by at least one byte. *)
Fixpoint options_walk (fuel : nat) (options : list Z) (i : Z) : res Ipv4Error bool :=
  match fuel with
  | O => Panic
  | S fuel =>
      if i <? zlen options then
        let? opt := at_ options i in
        if opt =? 0 then Ok false else
        if opt =? 1 then options_walk fuel options (i + 1) else
        if (opt =? 131) || (opt =? 137) then Ok true else
        if zlen options <=? i + 1 then Ok false else
        let? len := at_ options (i + 1) in
        if (len <? 2) || (zlen options <? i + len) then Ok false else
        options_walk fuel options (i + len)
      else Ok false
  end.

Definition contains_source_routing (options : list Z) : res Ipv4Error bool :=
  options_walk (S (length options)) options 0.

Definition addr_at {E} (p : list Z) (i : Z) : res E Ipv4Addr :=
  let? a := at_ p i in let? b := at_ p (i + 1) in
  let? c := at_ p (i + 2) in let? d := at_ p (i + 3) in
  Ok (mkAddr a b c d).

Definition parse_ipv4 (packet : list Z) : res Ipv4Error (Ipv4Header * list Z * list Z) :=
  if zlen packet <? IPV4_HEADER_MIN_LEN then Err IpTruncated else
  let? version_ihl := at_ packet 0 in
  let version := Z.shiftr version_ihl 4 in
  let ihl := Z.land version_ihl 15 in
  if negb (version =? 4) then Err BadVersion else
  if ihl <? 5 then Err BadIhl else
  let header_len := ihl * 4 in
  if zlen packet <? header_len then Err IpTruncated else
  let? total_len := u16_at packet 2 in
  if zlen packet <? total_len then Err IpTruncated else
  if total_len <? header_len then Err BadTotalLen else
  let? checksum := u16_at packet 10 in
  let? header := slice packet 0 header_len in
  if negb (compute_checksum header header_len =? 0) then Err ChecksumMismatch else
  let? ttl := at_ packet 8 in
  if ttl =? 0 then Err InvalidTtl else
  let? src := addr_at packet 12 in
  let? dst := addr_at packet 16 in
  if negb (is_valid_source src) then Err IpInvalidSource else
  let options_len := header_len - IPV4_HEADER_MIN_LEN in
  let? options := slice packet IPV4_HEADER_MIN_LEN header_len in
  let? routed := contains_source_routing options in
  if routed then Err SourceRoutingForbidden else
  let? payload := slice packet header_len total_len in
  let? dscp := at_ packet 1 in
  let? ident := u16_at packet 4 in
  let? frag := u16_at packet 6 in
  let? proto := at_ packet 9 in
  Ok (mkIpv4 version ihl dscp total_len ident frag ttl proto checksum src dst options_len, options, payload).

(** [checked_add] on [u16] *)
Definition checked_add_u16 (a b : Z) : option Z := if a + b <? 65536 then Some (a + b) else None.

Definition with_checksum (hdr : list Z) (i checksum : Z) : list Z :=
  zset (zset hdr i (Z.shiftr checksum 8)) (i + 1) (Z.land checksum 255).

Definition try_build_ipv4_header (src dst : Ipv4Addr) (proto : Ipv4Proto) (payload_len ttl : Z)
  : option (list Z) :=
  total_len ← checked_add_u16 IPV4_HEADER_MIN_LEN payload_len;
  let hdr := [69; 0] ++ be16_bytes total_len ++ be16_bytes 0 ++ be16_bytes 16384 ++
             [ttl; to_raw proto; 0; 0] ++ octets src ++ octets dst in
  Some (with_checksum hdr 10 (compute_checksum hdr IPV4_HEADER_MIN_LEN)).

Definition build_ipv4_header (src dst : Ipv4Addr) (proto : Ipv4Proto) (payload_len ttl : Z) : list Z :=
  match try_build_ipv4_header src dst proto payload_len ttl with
  | Some header => header
  | None => replicate 20 0
  end.

(** * UDP *)
Definition UDP_HEADER_LEN : Z := 8.
Definition UDP_PROTO : Z := 17.
Definition UDP_MAX_PAYLOAD : Z := 65507.

Record UdpHeader := mkUdp { src_port : Z; dst_port : Z; udp_length : Z; udp_checksum : Z }.

Inductive UdpError :=
| UdpTruncated | LengthMismatch | ChecksumInvalid | ZeroChecksum | NoListener
| UdpPayloadTooLarge | BroadcastDest | UdpInvalidSource.

Definition udp_to_bytes (h : UdpHeader) : list Z :=
  be16_bytes (src_port h) ++ be16_bytes (dst_port h) ++ be16_bytes (udp_length h) ++ be16_bytes (udp_checksum h).

Definition parse_udp_header (buf : list Z) : res UdpError UdpHeader :=
  if zlen buf <? UDP_HEADER_LEN then Err UdpTruncated else
  let? sp := u16_at buf 0 in
  let? dp := u16_at buf 2 in
  let? len := u16_at buf 4 in
  let? ck := u16_at buf 6 in
  Ok (mkUdp sp dp len ck).

(** The pseudo-header sum: addresses, protocol and length *)
Definition pseudo_sum (src dst : Ipv4Addr) (proto len : Z) : Z :=
  let sum := wrap32 (0 + be16 (oct0 src) (oct1 src)) in
  let sum := wrap32 (sum + be16 (oct2 src) (oct3 src)) in
  let sum := wrap32 (sum + be16 (oct0 dst) (oct1 dst)) in
  let sum := wrap32 (sum + be16 (oct2 dst) (oct3 dst)) in
  let sum := wrap32 (sum + proto) in
  wrap32 (sum + wrap32 len).

Definition compute_udp_checksum (src_ip dst_ip : Ipv4Addr) (udp_segment : list Z) : Z :=
  finish_sum (add_words (pseudo_sum src_ip dst_ip UDP_PROTO (zlen udp_segment)) udp_segment).

Definition verify_udp_checksum (src_ip dst_ip : Ipv4Addr) (udp_segment : list Z) : bool :=
  compute_udp_checksum src_ip dst_ip udp_segment =? 0.

Definition parse_udp (data : list Z) (src_ip dst_ip : Ipv4Addr) : res UdpError (UdpHeader * list Z) :=
  let? header := parse_udp_header data in
  let udp_len := udp_length header in
  if udp_len <? UDP_HEADER_LEN then Err LengthMismatch else
  if zlen data <? udp_len then Err LengthMismatch else
  if udp_checksum header =? 0 then Err ZeroChecksum else
  let? segment := slice data 0 udp_len in
  if negb (verify_udp_checksum src_ip dst_ip segment) then Err ChecksumInvalid else
  if is_broadcast src_ip || is_multicast src_ip then Err UdpInvalidSource else
  let? payload := slice data UDP_HEADER_LEN udp_len in
  Ok (header, payload).

Definition build_udp_datagram `{heap : WireHeap} (src_ip dst_ip : Ipv4Addr) (sp dp : Z) (payload : list Z)
  : res UdpError WirePacket :=
  if UDP_MAX_PAYLOAD <? zlen payload then Err UdpPayloadTooLarge else
  let udp_len := (UDP_HEADER_LEN + zlen payload) mod 65536 in
  let? wire := map_err (try_zeroed udp_len) UdpPayloadTooLarge in
  let datagram := be16_bytes sp ++ be16_bytes dp ++ be16_bytes udp_len ++ [0; 0] ++ payload in
  let checksum := compute_udp_checksum src_ip dst_ip datagram in
  let checksum := if checksum =? 0 then 65535 else checksum in
  fill wire (zset (zset datagram 6 (checksum / 256)) 7 (checksum mod 256)).

(** * ICMP *)
Definition ICMP_TYPE_ECHO_REPLY : Z := 0.
Definition ICMP_TYPE_DEST_UNREACHABLE : Z := 3.
Definition ICMP_TYPE_ECHO_REQUEST : Z := 8.
Definition ICMP_TYPE_TIME_EXCEEDED : Z := 11.
Definition ICMP_TYPE_PARAMETER_PROBLEM : Z := 12.
Definition ICMP_HEADER_LEN : Z := 8.
Definition ICMP_MAX_ECHO_PAYLOAD : Z := 1472.

Record IcmpHeader := mkIcmp { icmp_type : Z; icmp_code : Z; icmp_checksum : Z; rest_of_header : list Z }.

Inductive IcmpError :=
| IcmpTruncated | InvalidChecksum | InvalidType | InvalidCode | RateLimited
| IcmpPayloadTooLarge | NotEchoRequest.

Definition icmp_to_bytes (h : IcmpHeader) : list Z :=
  [icmp_type h; icmp_code h; Z.shiftr (icmp_checksum h) 8; Z.land (icmp_checksum h) 255] ++ rest_of_header h.

Definition echo_id (h : IcmpHeader) : Z :=
  be16 (default 0 (zget (rest_of_header h) 0)) (default 0 (zget (rest_of_header h) 1)).
Definition echo_seq (h : IcmpHeader) : Z :=
  be16 (default 0 (zget (rest_of_header h) 2)) (default 0 (zget (rest_of_header h) 3)).

Definition is_supported_type (t : Z) : bool :=
  existsb (Z.eqb t) [ICMP_TYPE_ECHO_REQUEST; ICMP_TYPE_ECHO_REPLY; ICMP_TYPE_DEST_UNREACHABLE;
                     ICMP_TYPE_TIME_EXCEEDED; ICMP_TYPE_PARAMETER_PROBLEM].

Definition parse_icmp_unchecked (packet : list Z) : res IcmpError (IcmpHeader * list Z) :=
  if zlen packet <? ICMP_HEADER_LEN then Err IcmpTruncated else
  let? ty := at_ packet 0 in
  let? code := at_ packet 1 in
  let? checksum := u16_at packet 2 in
  let? rest := slice packet 4 8 in
  let? payload := slice packet ICMP_HEADER_LEN (zlen packet) in
  Ok (mkIcmp ty code checksum rest, payload).

Definition parse_icmp (packet : list Z) : res IcmpError (IcmpHeader * list Z) :=
  if zlen packet <? ICMP_HEADER_LEN then Err IcmpTruncated else
  let? ty := at_ packet 0 in
  let? code := at_ packet 1 in
  if negb (is_supported_type ty) then Err InvalidType else
  if negb (compute_checksum packet (zlen packet) =? 0) then Err InvalidChecksum else
  let? checksum := u16_at packet 2 in
  let? rest := slice packet 4 8 in
  let? payload := slice packet ICMP_HEADER_LEN (zlen packet) in
  Ok (mkIcmp ty code checksum rest, payload).

Definition build_echo_reply `{heap : WireHeap} (request : list Z) : res IcmpError WirePacket :=
  let? (hdr, _) := parse_icmp request in
  if negb (icmp_type hdr =? ICMP_TYPE_ECHO_REQUEST) then Err NotEchoRequest else
  if negb (icmp_code hdr =? 0) then Err InvalidCode else
  if ICMP_MAX_ECHO_PAYLOAD <? zlen request - ICMP_HEADER_LEN then Err IcmpPayloadTooLarge else
  let? wire := map_err (try_copy_from_slice request) IcmpPayloadTooLarge in
  let reply := zset (zset (zset (as_slice wire) 0 ICMP_TYPE_ECHO_REPLY) 2 0) 3 0 in
  fill wire (with_checksum reply 2 (compute_checksum reply (zlen reply))).

Definition build_error_message `{heap : WireHeap} (ty code : Z) (original_data : list Z)
  : res IcmpError WirePacket :=
  let data_len := Z.min (zlen original_data) 28 in
  match checked_add ICMP_HEADER_LEN data_len with
  | None => Ok wire_new
  | Some packet_len =>
      match try_zeroed packet_len with
      | Ok wire =>
          let packet := [ty; code; 0; 0; 0; 0; 0; 0] ++ take (Z.to_nat data_len) original_data in
          fill wire (with_checksum packet 2 (compute_checksum packet (zlen packet)))
      | Err _ => Ok wire_new
      | Panic => Panic
      end
  end.

Definition build_dest_unreachable `{heap : WireHeap} (code : Z) (original_ip_header : list Z) :=
  build_error_message ICMP_TYPE_DEST_UNREACHABLE code original_ip_header.

Definition build_time_exceeded `{heap : WireHeap} (code : Z) (original_ip_header : list Z) :=
  build_error_message ICMP_TYPE_TIME_EXCEEDED code original_ip_header.

(** * Transmission: a transport payload in its IPv4 and Ethernet headers, as
    [build_frame_and_transmit] puts it on the wire
    (src/kernel/net/src/stack.rs) *)
Definition build_ipv4_frame `{heap : WireHeap} (our_mac dst_mac : EthAddr) (our_ip dst_ip : Ipv4Addr)
  (proto : Ipv4Proto) (payload : list Z) : res EthError WirePacket :=
  let ip_hdr := build_ipv4_header our_ip dst_ip proto (zlen payload mod 65536) 64 in
  try_build_ethernet_frame_from_parts dst_mac our_mac ETHERTYPE_IPV4 [ip_hdr; payload].
