(* ===== verification/WireFacts.v ===== *)
(** Lemmas on the packet formats of [Wire]: what the Internet checksum
    computes, reading bytes back, and packet buffers. *)

From Stdlib Require Import ZArith Lia.
From stdpp Require Import base list list_numbers numbers.
From S2P Require Import Prelude Machine Wire.

(** [lia] on quotients and remainders by constants *)
#[local] Ltac Zify.zify_post_hook ::= Z.to_euclidean_division_equations.

(** * Bytes *)
Notation bytes_ok := (Forall is_byte).

Lemma be16_range a b : is_byte a -> is_byte b -> is_u16 (be16 a b).
Proof. unfold is_byte, is_u16, be16. lia. Qed.

Lemma be16_split v : be16 (v / 256) (v mod 256) = v.
Proof. unfold be16. lia. Qed.

Lemma be16_split_bits v : is_u16 v -> be16 (Z.shiftr v 8) (Z.land v 255) = v.
Proof.
  intros. rewrite Z.shiftr_div_pow2 by lia. change 255 with (Z.ones 8).
  rewrite Z.land_ones by lia. apply be16_split.
Qed.

Lemma be16_bytes_ok v : is_u16 v -> bytes_ok (be16_bytes v).
Proof. unfold is_u16, be16_bytes, is_byte. intros. repeat constructor; lia. Qed.

Lemma split_bits_ok v : is_u16 v -> is_byte (Z.shiftr v 8) /\ is_byte (Z.land v 255).
Proof.
  unfold is_u16, is_byte. intros. rewrite Z.shiftr_div_pow2 by lia. change 255 with (Z.ones 8).
  rewrite Z.land_ones by lia. lia.
Qed.

(** * The sum of the words of a packet *)

(** The sum without the machine's wrap-around *)
Fixpoint wsum (l : list Z) : Z :=
  match l with
  | a :: b :: l => be16 a b + wsum l
  | [a] => a * 256
  | [] => 0
  end.

(** Induction two bytes at a time *)
Lemma pair_ind (P : list Z -> Prop) :
  P [] -> (forall a, P [a]) -> (forall a b l, P l -> P (a :: b :: l)) -> forall l, P l.
Proof.
  intros H0 H1 H2 l. enough (P l /\ forall x, P (x :: l)) by tauto.
  induction l as [|a l [IH IH']]; auto.
Qed.

Lemma wsum_bound l : bytes_ok l -> 0 <= wsum l <= 65535 * (zlen l + 1) / 2.
Proof.
  enough (bytes_ok l -> 0 <= 2 * wsum l <= 65535 * (zlen l + 1)) by (intros; lia).
  induction l as [|a|a b l IH] using pair_ind; unfold zlen in *; cbn [wsum length].
  - lia.
  - rewrite list.Forall_singleton. unfold is_byte. lia.
  - rewrite !list.Forall_cons. intros (Ha & Hb & Hl). specialize (IH Hl).
    pose proof (be16_range a b Ha Hb). unfold is_u16 in *. lia.
Qed.

Lemma wsum_app l1 l2 : Nat.Even (length l1) -> wsum (l1 ++ l2) = wsum l1 + wsum l2.
Proof.
  induction l1 as [|a|a b l IH] using pair_ind; intros [k Hk]; cbn [length app wsum] in *.
  - done.
  - lia.
  - rewrite IH; [lia|]. exists (k - 1)%nat. lia.
Qed.

(** Replacing the byte at [i] moves the sum by its weight. *)
Definition weight (i : nat) : Z := if Nat.even i then 256 else 1.

Lemma wsum_insert l i x y :
  l !! i = Some x -> wsum (<[i := y]> l) = wsum l + (y - x) * weight i.
Proof.
  revert i. induction l as [|a|a b l IH] using pair_ind; intros i; [done| |].
  - destruct i; [|done]. intros [= ->]. unfold weight. simpl. lia.
  - destruct i as [|[|i]]; cbn [lookup list_lookup]; intros Hx.
    + simplify_eq. cbn [insert list_insert wsum]. unfold weight, be16. simpl. lia.
    + simplify_eq. cbn [insert list_insert wsum]. unfold weight, be16. simpl. lia.
    + change (<[S (S i) := y]> (a :: b :: l)) with (a :: b :: <[i := y]> l). cbn [wsum].
      rewrite (IH i Hx). change (weight (S (S i))) with (weight i). lia.
Qed.

Lemma wrap32_add a b : wrap32 (wrap32 a + b) = wrap32 (a + b).
Proof. unfold wrap32. apply Z.add_mod_idemp_l. lia. Qed.

Lemma add_words_wsum l s : s = wrap32 s -> add_words s l = wrap32 (s + wsum l).
Proof.
  revert s. induction l as [|a|a b l IH] using pair_ind; intros s Hs; cbn [add_words wsum].
  - by rewrite Z.add_0_r.
  - done.
  - rewrite IH by (unfold wrap32; by rewrite Z.mod_mod). rewrite wrap32_add. f_equal. lia.
Qed.

Lemma wrap32_id s : 0 <= s < 2 ^ 32 -> wrap32 s = s.
Proof. apply Z.mod_small. Qed.

Lemma add_words_exact l s : bytes_ok l -> 0 <= s -> s + wsum l < 2 ^ 32 -> add_words s l = s + wsum l.
Proof.
  intros Hl Hs Hlt. pose proof (wsum_bound l Hl).
  rewrite add_words_wsum; rewrite wrap32_id; lia.
Qed.

(** * Folding: the residue modulo 65535, with 65535 for a nonzero multiple *)
Definition residue (s : Z) : Z := if s =? 0 then 0 else (s - 1) mod 65535 + 1.

Lemma fold_round s :
  0 <= s -> Z.land s 65535 + Z.shiftr s 16 = s mod 65536 + s / 65536.
Proof.
  intros. change 65535 with (Z.ones 16). rewrite Z.land_ones, Z.shiftr_div_pow2 by lia. done.
Qed.

Lemma residue_round s : 65536 <= s -> residue (s mod 65536 + s / 65536) = residue s.
Proof.
  intros. unfold residue.
  destruct (Z.eqb_spec (s mod 65536 + s / 65536) 0); [lia|].
  destruct (Z.eqb_spec s 0); [lia|]. f_equal.
  replace (s - 1) with (s mod 65536 + s / 65536 - 1 + s / 65536 * 65535) by lia.
  by rewrite Z.mod_add.
Qed.

Lemma fold_sum_S n s :
  0 <= s -> fold_sum (S n) s = if s <? 65536 then s else fold_sum n (s mod 65536 + s / 65536).
Proof.
  intros. cbn [fold_sum]. rewrite fold_round by done. rewrite Z.shiftr_div_pow2 by lia.
  change (2 ^ 16) with 65536.
  destruct (Z.ltb_spec s 65536), (Z.eqb_spec (s / 65536) 0); try done; lia.
Qed.

Lemma residue_small s : 0 <= s < 65536 -> residue s = s.
Proof.
  intros. unfold residue. destruct (Z.eqb_spec s 0); [done|]. rewrite Z.mod_small; lia.
Qed.

(** The loop leaves every 32-bit sum folded, within the rounds given. *)
Lemma fold_sum_spec s : 0 <= s < 2 ^ 32 -> fold_sum FOLD_ROUNDS s = residue s.
Proof.
  intros Hs. unfold FOLD_ROUNDS.
  rewrite fold_sum_S by lia. destruct (Z.ltb_spec s 65536); [by rewrite residue_small by lia|].
  rewrite <- (residue_round s) by done. set (s1 := s mod 65536 + s / 65536).
  assert (0 <= s1 < 131072) by (subst s1; lia).
  rewrite fold_sum_S by lia. destruct (Z.ltb_spec s1 65536); [by rewrite residue_small by lia|].
  rewrite <- (residue_round s1) by done. set (s2 := s1 mod 65536 + s1 / 65536).
  assert (0 <= s2 < 65536) by (subst s2; lia).
  rewrite fold_sum_S by lia. destruct (Z.ltb_spec s2 65536); [by rewrite residue_small by lia|lia].
Qed.

Lemma residue_range s : 0 <= s -> 0 <= residue s <= 65535.
Proof. unfold residue. intros. destruct (Z.eqb_spec s 0); lia. Qed.

Lemma finish_sum_residue s : 0 <= s < 2 ^ 32 -> finish_sum s = 65535 - residue s.
Proof.
  intros. unfold finish_sum. rewrite fold_sum_spec by done.
  pose proof (residue_range s). rewrite Z.mod_small; lia.
Qed.

Lemma finish_sum_range s : 0 <= s < 2 ^ 32 -> is_u16 (finish_sum s).
Proof. intros. rewrite finish_sum_residue by done. pose proof (residue_range s). unfold is_u16. lia. Qed.

(** A packet verifies exactly when its sum is a nonzero multiple of 65535. *)
Lemma finish_sum_zero s : 0 <= s < 2 ^ 32 -> finish_sum s = 0 <-> 0 < s /\ s mod 65535 = 0.
Proof.
  intros. rewrite finish_sum_residue by done. unfold residue.
  destruct (Z.eqb_spec s 0); lia.
Qed.

(** Adding its checksum to a sum makes it verify; so does 0xFFFF for a
    checksum of zero. *)
Lemma finish_sum_insert s :
  0 <= s -> s + 65535 < 2 ^ 32 -> finish_sum (s + finish_sum s) = 0.
Proof.
  intros. pose proof (finish_sum_range s). unfold is_u16 in *.
  rewrite finish_sum_zero by lia. rewrite finish_sum_residue in * by lia.
  unfold residue in *. destruct (Z.eqb_spec s 0); lia.
Qed.

Lemma finish_sum_insert_ones s :
  0 <= s -> s + 65535 < 2 ^ 32 -> finish_sum s = 0 -> finish_sum (s + 65535) = 0.
Proof. intros ??. rewrite !finish_sum_zero by lia. lia. Qed.

(** * Checksums over a packet *)
Lemma wsum_small l : bytes_ok l -> zlen l <= 65536 -> 0 <= wsum l /\ wsum l + 524288 < 2 ^ 32.
Proof. intros Hl ?. pose proof (wsum_bound l Hl). lia. Qed.

Lemma compute_checksum_exact l n :
  bytes_ok l -> zlen l <= 65536 -> zlen l <= n -> compute_checksum l n = finish_sum (wsum l).
Proof.
  intros Hl Hlen Hn. unfold compute_checksum. rewrite Z.min_l by done.
  unfold zlen in *. rewrite Nat2Z.id, take_ge by lia.
  pose proof (wsum_small l Hl). rewrite add_words_exact; [done|done|lia|].
  unfold zlen in *. lia.
Qed.

Lemma wsum_zset l i x y :
  zget l i = Some x -> wsum (zset l i y) = wsum l + (y - x) * weight (Z.to_nat i).
Proof. unfold zget, zset. destruct (i <? 0); [done|]. apply wsum_insert. Qed.

Lemma bytes_ok_zset l i y : bytes_ok l -> is_byte y -> bytes_ok (zset l i y).
Proof. intros. unfold zset. destruct (i <? 0); [done|]. by apply Forall_insert. Qed.

(** Writing a word over a zero word at an even offset adds it to the sum. *)
Definition put16 (l : list Z) (i a b : Z) : list Z := zset (zset l i a) (i + 1) b.

Lemma wsum_put16 l i a b :
  0 <= i -> Z.even i = true -> zget l i = Some 0 -> zget l (i + 1) = Some 0 ->
  wsum (put16 l i a b) = wsum l + be16 a b.
Proof.
  intros Hi He H0 H1. unfold put16.
  rewrite (wsum_zset _ (i + 1) 0) by (rewrite zget_zset_ne by lia; done).
  rewrite (wsum_zset _ i 0) by done.
  assert (Nat.even (Z.to_nat i) = true) as Hev.
  { apply Nat.even_spec. apply Z.even_spec in He as [k Hk]. exists (Z.to_nat k). lia. }
  unfold weight, be16. replace (Z.to_nat (i + 1)) with (S (Z.to_nat i)) by lia.
  rewrite Nat.even_succ, <- Nat.negb_even, Hev. simpl. lia.
Qed.

Lemma zlen_put16 l i a b : zlen (put16 l i a b) = zlen l.
Proof. unfold put16. by rewrite !zlen_zset. Qed.

Lemma bytes_ok_put16 l i a b : bytes_ok l -> is_byte a -> is_byte b -> bytes_ok (put16 l i a b).
Proof. intros. unfold put16. by repeat apply bytes_ok_zset. Qed.

Lemma compute_checksum_range l n :
  bytes_ok l -> zlen l <= 65536 -> zlen l <= n -> is_u16 (compute_checksum l n).
Proof.
  intros Hl ??. rewrite compute_checksum_exact by done.
  pose proof (wsum_small l Hl). apply finish_sum_range. lia.
Qed.

Lemma with_checksum_bytes l i n :
  bytes_ok l -> zlen l <= 65536 -> zlen l <= n -> bytes_ok (with_checksum l i (compute_checksum l n)).
Proof.
  intros Hl ??. pose proof (compute_checksum_range l n) as Hr.
  destruct (split_bits_ok (compute_checksum l n)); auto. by apply bytes_ok_put16.
Qed.

Lemma zlen_with_checksum l i c : zlen (with_checksum l i c) = zlen l.
Proof. apply zlen_put16. Qed.

(** Filling in the checksum of a packet whose checksum field is zero makes the
    packet verify. *)
Lemma with_checksum_verifies l i n m :
  bytes_ok l -> zlen l <= 65536 -> zlen l <= n -> zlen l <= m ->
  0 <= i -> Z.even i = true -> zget l i = Some 0 -> zget l (i + 1) = Some 0 ->
  compute_checksum (with_checksum l i (compute_checksum l n)) m = 0.
Proof.
  intros. pose proof (with_checksum_bytes l i n).
  rewrite compute_checksum_exact; rewrite ?zlen_with_checksum; auto.
  change (with_checksum l i ?c) with (put16 l i (Z.shiftr c 8) (Z.land c 255)).
  rewrite wsum_put16 by done. rewrite be16_split_bits by (by apply compute_checksum_range).
  rewrite compute_checksum_exact by done. pose proof (wsum_small l).
  apply finish_sum_insert; lia.
Qed.

(** * Reading bytes *)
Definition byte (p : list Z) (i : Z) : Z := default 0 (zget p i).
Definition word (p : list Z) (i : Z) : Z := be16 (byte p i) (byte p (i + 1)).

Section reading.
Context {E : Type}.

Lemma at_ok (p : list Z) i : 0 <= i < zlen p -> @at_ E p i = Ok (byte p i).
Proof. intros [x Hx]%zget_range. unfold at_, byte. by rewrite Hx. Qed.

Lemma u16_at_ok (p : list Z) i : 0 <= i -> i + 1 < zlen p -> @u16_at E p i = Ok (word p i).
Proof. intros. unfold u16_at. rewrite !at_ok by lia. done. Qed.

Lemma addr_at_ok (p : list Z) i :
  0 <= i -> i + 3 < zlen p ->
  @addr_at E p i = Ok (mkAddr (byte p i) (byte p (i + 1)) (byte p (i + 2)) (byte p (i + 3))).
Proof. intros. unfold addr_at. rewrite !at_ok by lia. done. Qed.

Lemma mac_at_ok (p : list Z) i :
  0 <= i -> i + 5 < zlen p ->
  @mac_at E p i = Ok (mkMac (byte p i) (byte p (i + 1)) (byte p (i + 2)) (byte p (i + 3))
                            (byte p (i + 4)) (byte p (i + 5))).
Proof. intros. unfold mac_at. rewrite !at_ok by lia. done. Qed.

Lemma slice_ok (p : list Z) a b :
  0 <= a <= b -> b <= zlen p -> @slice E p a b = Ok (take (Z.to_nat (b - a)) (drop (Z.to_nat a) p)).
Proof. intros. unfold slice. zb; try lia; done. Qed.

(** The middle of three parts *)
Lemma slice_mid (l m r : list Z) a b :
  a = zlen l -> b = zlen l + zlen m -> @slice E (l ++ m ++ r) a b = Ok m.
Proof.
  intros -> ->. pose proof (zlen_nonneg l). pose proof (zlen_nonneg m). pose proof (zlen_nonneg r).
  rewrite slice_ok; [|lia|unfold zlen; rewrite !length_app; lia].
  f_equal. replace (Z.to_nat (zlen l)) with (length l) by (unfold zlen; lia).
  rewrite drop_app_length. rewrite take_app_length' by (unfold zlen; lia). done.
Qed.
End reading.

Lemma byte_ok p i : bytes_ok p -> is_byte (byte p i).
Proof.
  intros Hp. unfold byte. destruct (zget p i) eqn:Hi; simpl; [|unfold is_byte; lia].
  apply zget_in in Hi. by eapply list.Forall_forall in Hp.
Qed.

Lemma word_ok p i : bytes_ok p -> is_u16 (word p i).
Proof. intros. apply be16_range; by apply byte_ok. Qed.

(** * Packet buffers *)
Definition wire_ok (w : WirePacket) : Prop := 0 <= wp_start w <= zlen (wp_bytes w).

Lemma wire_len_slice w : wire_ok w -> wire_len w = zlen (as_slice w).
Proof.
  unfold wire_ok, wire_len, as_slice, saturating_sub, zlen. intros. rewrite length_drop. lia.
Qed.

Section buffers.
Context `{heap : WireHeap}.

(** A new buffer has the length asked for, and room for headers unless it is
    empty. *)
Lemma try_zeroed_inv n w :
  0 <= n -> try_zeroed n = Ok w ->
  wire_ok w /\ wire_len w = n /\ (n <> 0 -> wp_start w = WIRE_ENCAPSULATION_HEADROOM).
Proof.
  intros Hn. unfold try_zeroed, WIRE_ENCAPSULATION_HEADROOM. destruct (Z.eqb_spec n 0) as [->|].
  { intros [= <-]. unfold wire_ok, wire_len, zlen. simpl. done. }
  destruct (checked_add 80 n) as [m|] eqn:Hm; [|done]. apply checked_add_inv in Hm as [-> _].
  simpl. destruct (wire_admitted _); [|done]. intros [= <-].
  unfold wire_ok, wire_len, saturating_sub. simpl. rewrite zlen_replicate. lia.
Qed.

Lemma try_zeroed_no_panic n : try_zeroed n <> Panic.
Proof.
  unfold try_zeroed. destruct (n =? 0); [done|].
  apply res_bind_no_panic; [no_panic|]. intros m. by destruct (wire_admitted m).
Qed.

Lemma fill_inv {E} w l :
  wire_ok w -> zlen l = wire_len w ->
  exists w', @fill E w l = Ok w' /\ as_slice w' = l /\ wp_start w' = wp_start w /\ wire_ok w'.
Proof.
  intros Hw Hl. unfold fill. rewrite Hl, Z.eqb_refl. eexists. split; [done|].
  unfold wire_ok, as_slice in *. cbn [wp_bytes wp_start].
  assert (length (take (Z.to_nat (wp_start w)) (wp_bytes w)) = Z.to_nat (wp_start w)).
  { rewrite length_take. unfold zlen in *. lia. }
  rewrite drop_app_length' by done. split; [done|]. split; [done|].
  rewrite zlen_app. pose proof (zlen_nonneg l). unfold zlen in *. lia.
Qed.

Lemma parts_len_spec parts len n : parts_len len parts = Some n -> n = len + zlen (concat parts).
Proof.
  revert len. induction parts as [|p ps IH]; intros len; cbn [parts_len concat].
  - intros [= <-]. unfold zlen. simpl. lia.
  - destruct (checked_add len (zlen p)) eqn:H; [|done]. apply checked_add_inv in H as [-> _].
    simpl. intros ->%IH. rewrite zlen_app. lia.
Qed.

Lemma parts_len_Some parts len :
  0 <= len -> len + zlen (concat parts) <= usize_max -> parts_len len parts = Some (len + zlen (concat parts)).
Proof.
  revert len. induction parts as [|p ps IH]; intros len Hl; cbn [parts_len concat].
  - unfold zlen. simpl. intros. by rewrite Z.add_0_r.
  - rewrite zlen_app. pose proof (zlen_nonneg (concat ps)). pose proof (zlen_nonneg p). intros.
    rewrite checked_add_Some by lia. simpl. rewrite IH by lia. f_equal. lia.
Qed.

(** Headers put in front of a packet leave its bytes in place. *)
Lemma prepend_inv w parts w' :
  wire_ok w -> try_prepend_from_slices w parts = Ok w' ->
  wire_ok w' /\ as_slice w' = concat parts ++ as_slice w.
Proof.
  intros Hw. unfold try_prepend_from_slices. destruct (parts_len 0 parts) eqn:Hp; [|done].
  apply parts_len_spec in Hp as ->. cbn [ok_or res_bind]. rewrite Z.add_0_l. unfold wire_ok in *.
  destruct (Z.ltb_spec (wp_start w) (zlen (concat parts))); [done|].
  destruct (Z.ltb_spec (zlen (wp_bytes w)) (wp_start w)); [lia|]. intros [= <-].
  unfold as_slice. cbn [wp_bytes wp_start]. pose proof (zlen_nonneg (concat parts)).
  rewrite drop_app_length'; [split; [|done]|].
  - rewrite !zlen_app. unfold zlen in *. rewrite length_take, length_drop. lia.
  - rewrite length_take. unfold zlen in *. lia.
Qed.
End buffers.
