(* ===== verification/NetFacts.v ===== *)
(** Lemmas on the packet parsers and builders of [Wire]: IPv4 headers and
    options, and building a packet and parsing it again. *)

From Stdlib Require Import ZArith Lia.
From stdpp Require Import base list list_numbers numbers.
From S2P Require Import Prelude Machine Wire WireFacts.

(** [lia] on quotients and remainders by constants *)
#[local] Ltac dlia := Z.to_euclidean_division_equations; lia.

(** * IPv4 options *)

(** A source route is met walking the options from [i]. *)
Inductive source_route (options : list Z) : Z -> Prop :=
| sr_here i t : zget options i = Some t -> t = 131 \/ t = 137 -> source_route options i
| sr_nop i : zget options i = Some 1 -> source_route options (i + 1) -> source_route options i
| sr_option i t len :
    zget options i = Some t -> t <> 0 -> t <> 1 -> zget options (i + 1) = Some len ->
    2 <= len -> i + len <= zlen options -> source_route options (i + len) ->
    source_route options i.

Lemma source_route_inv options i t :
  zget options i = Some t -> source_route options i ->
  t = 131 \/ t = 137 \/ (t = 1 /\ source_route options (i + 1)) \/
  (t <> 0 /\ t <> 1 /\ exists len, zget options (i + 1) = Some len /\ 2 <= len /\
   i + len <= zlen options /\ source_route options (i + len)).
Proof. intros Hi H. inversion H; simplify_eq; naive_solver. Qed.

Lemma source_route_range options i : source_route options i -> i < zlen options.
Proof. inversion 1; by eapply zget_Some_range. Qed.

(** The walk returns, and finds a source route exactly when there is one. *)
Lemma options_walk_spec fuel options i :
  0 <= i <= zlen options -> zlen options - i < Z.of_nat fuel ->
  exists b, options_walk fuel options i = Ok b /\ (b = true <-> source_route options i).
Proof.
  revert i. induction fuel as [|fuel IH]; intros i Hi Hf; [lia|].
  cbn [options_walk]. destruct (Z.ltb_spec i (zlen options)) as [Hlt|];
    [|exists false; split; [done|]; split; [done|]; intros ?%source_route_range; lia].
  destruct (zget_range options i) as [t Ht]; [lia|]. unfold at_ at 1. rewrite Ht. cbn [or_panic res_bind].
  pose proof (source_route_inv options i t Ht) as Hinv.
  destruct (Z.eqb_spec t 0) as [->|]; [exists false; naive_solver lia|].
  destruct (Z.eqb_spec t 1) as [->|].
  { destruct (IH (i + 1)) as (b & -> & Hb); [lia..|]. exists b. split; [done|]. rewrite Hb.
    split; [by apply sr_nop|]. intros H. destruct (Hinv H) as [|[|[[_ ?]|]]]; naive_solver lia. }
  destruct ((t =? 131) || (t =? 137)) eqn:Hr.
  { exists true. split; [done|]. split; [|done]. intros _. eapply sr_here; [done|].
    apply orb_true_iff in Hr. rewrite !Z.eqb_eq in Hr. done. }
  apply orb_false_iff in Hr as [?%Z.eqb_neq ?%Z.eqb_neq].
  destruct (Z.leb_spec (zlen options) (i + 1)).
  { exists false. split; [done|]. split; [done|]. intros Hs.
    destruct (Hinv Hs) as [|[|[[]|(_ & _ & len & ?%zget_Some_range & _)]]]; lia. }
  destruct (zget_range options (i + 1)) as [len Hlen]; [lia|].
  unfold at_. rewrite Hlen. cbn [or_panic res_bind].
  destruct (Z.ltb_spec len 2), (Z.ltb_spec (zlen options) (i + len)); cbn [orb];
    try (exists false; split; [done|]; split; [done|]; intros Hs;
         destruct (Hinv Hs) as [|[|[[]|(_ & _ & len' & ? & ? & ? & _)]]]; simplify_eq; lia).
  destruct (IH (i + len)) as (b & -> & Hb); [lia..|]. exists b. split; [done|]. rewrite Hb.
  split; [by eapply sr_option|]. intros Hs. destruct (Hinv Hs) as [|[|[[]|]]]; naive_solver.
Qed.

Lemma contains_source_routing_spec options :
  exists b, contains_source_routing options = Ok b /\ (b = true <-> source_route options 0).
Proof. apply options_walk_spec; unfold zlen; lia. Qed.

(** * Parsing IPv4 *)

(** The length of the header as its first byte gives it *)
Definition hdr_len (p : list Z) : Z := byte p 0 mod 16 * 4.
Definition hdr_options (p : list Z) : list Z := take (Z.to_nat (hdr_len p - 20)) (drop (Z.to_nat 20) p).
Definition hdr_source (p : list Z) : Ipv4Addr :=
  mkAddr (byte p 12) (byte p 13) (byte p 14) (byte p 15).

(** What RFC 791 and the kernel's policy ask of a packet *)
Record ipv4_valid (p : list Z) : Prop := {
  iv_length : 20 <= zlen p;
  iv_version : byte p 0 / 16 = 4;
  iv_header : 20 <= hdr_len p <= word p 2;
  iv_total : word p 2 <= zlen p;
  iv_sum : wsum (take (Z.to_nat (hdr_len p)) p) mod 65535 = 0;
  iv_ttl : byte p 8 <> 0;
  iv_source : is_valid_source (hdr_source p) = true;
  iv_options : ~ source_route (hdr_options p) 0;
}.

Definition parsed_header (p : list Z) : Ipv4Header :=
  mkIpv4 (byte p 0 / 16) (byte p 0 mod 16) (byte p 1) (word p 2) (word p 4) (word p 6) (byte p 8)
    (byte p 9) (word p 10) (hdr_source p) (mkAddr (byte p 16) (byte p 17) (byte p 18) (byte p 19))
    (hdr_len p - 20).

Definition parsed_payload (p : list Z) : list Z :=
  take (Z.to_nat (word p 2 - hdr_len p)) (drop (Z.to_nat (hdr_len p)) p).

(** The header verifies when the sum of its words is a multiple of 65535. *)
Lemma header_verifies p :
  bytes_ok p -> byte p 0 / 16 = 4 -> 20 <= hdr_len p <= zlen p ->
  (compute_checksum (take (Z.to_nat (hdr_len p)) p) (hdr_len p) =? 0) =
  bool_decide (wsum (take (Z.to_nat (hdr_len p)) p) mod 65535 = 0).
Proof.
  intros Hp Hv Hl. set (h := take _ p).
  assert (bytes_ok h) as Hh by (by apply Forall_take).
  assert (zlen h = hdr_len p) as Hz by (unfold h, zlen in *; rewrite length_take; lia).
  assert (hdr_len p <= 60) by (unfold hdr_len; dlia).
  assert (0 < wsum h).
  { destruct p as [|a [|b p']]; [unfold zlen in *; simpl in *; lia..|].
    unfold h. destruct (Z.to_nat (hdr_len _)) as [|[|n]] eqn:Hn; [lia..|].
    cbn [take wsum]. rewrite !list.Forall_cons in Hp. destruct Hp as (Ha & Hb & Hp').
    pose proof (wsum_bound (take n p') ltac:(by apply Forall_take)).
    unfold byte, zget in Hv. simpl in Hv. unfold be16, is_byte in *. dlia. }
  rewrite compute_checksum_exact by (done || lia). pose proof (wsum_small h Hh).
  apply eq_bool_prop_intro. rewrite !Is_true_true, Z.eqb_eq, bool_decide_eq_true, finish_sum_zero; lia.
Qed.

(** A valid packet parses to the fields it holds; any other is refused, and
    nothing aborts. *)
Lemma parse_ipv4_spec p :
  bytes_ok p ->
  (ipv4_valid p /\ parse_ipv4 p = Ok (parsed_header p, hdr_options p, parsed_payload p)) \/
  (~ ipv4_valid p /\ exists e, parse_ipv4 p = Err e).
Proof.
  intros Hp. unfold parse_ipv4, IPV4_HEADER_MIN_LEN.
  destruct (Z.ltb_spec (zlen p) 20); [right; split; [intros []; lia|eauto]|].
  rewrite at_ok by lia. cbn [res_bind].
  pose proof (byte_ok p 0 Hp) as H0. unfold is_byte in H0.
  rewrite Z.shiftr_div_pow2 by lia. change 15 with (Z.ones 4). rewrite Z.land_ones by lia.
  change (2 ^ 4) with 16.
  destruct (Z.eqb_spec (byte p 0 / 16) 4) as [Hv|]; cbn [negb];
    [|right; split; [intros []; lia|eauto]].
  destruct (Z.ltb_spec (byte p 0 mod 16) 5);
    [right; split; [intros []; unfold hdr_len in *; dlia|eauto]|].
  fold (hdr_len p). assert (20 <= hdr_len p) by (unfold hdr_len; dlia).
  destruct (Z.ltb_spec (zlen p) (hdr_len p)); [right; split; [intros []; lia|eauto]|].
  rewrite (u16_at_ok p 2) by lia. cbn [res_bind].
  destruct (Z.ltb_spec (zlen p) (word p 2)); [right; split; [intros []; lia|eauto]|].
  destruct (Z.ltb_spec (word p 2) (hdr_len p)); [right; split; [intros []; lia|eauto]|].
  rewrite u16_at_ok by lia. cbn [res_bind]. rewrite slice_ok by lia. cbn [res_bind].
  rewrite Z.sub_0_r, drop_0. rewrite header_verifies by (done || lia).
  case_bool_decide; cbn [negb]; [|right; split; [by intros []|eauto]].
  rewrite at_ok by lia. cbn [res_bind].
  destruct (Z.eqb_spec (byte p 8) 0); [right; split; [by intros []|eauto]|].
  rewrite !addr_at_ok by lia. cbn [res_bind]. change (mkAddr (byte p 12) _ _ _) with (hdr_source p).
  destruct (is_valid_source (hdr_source p)) eqn:Hs; cbn [negb];
    [|right; split; [intros []; congruence|eauto]].
  rewrite slice_ok by lia. cbn [res_bind]. fold (hdr_options p).
  destruct (contains_source_routing_spec (hdr_options p)) as (b & -> & Hb). cbn [res_bind].
  destruct b; [right; split; [intros []; tauto|eauto]|].
  rewrite slice_ok by lia. cbn [res_bind]. rewrite !at_ok, !u16_at_ok by lia. cbn [res_bind].
  left. split; [|done]. split; try done; try lia. intros H'%Hb. done.
Qed.

(** * Building IPv4 headers *)
Definition addr_ok (a : Ipv4Addr) : Prop := bytes_ok (octets a).

(** The header as bytes, its checksum given *)
Definition plain_header (src dst : Ipv4Addr) (proto : Ipv4Proto) (total ttl c1 c2 : Z) : list Z :=
  [69; 0; total / 256; total mod 256; 0; 0; 64; 0; ttl; to_raw proto; c1; c2;
   oct0 src; oct1 src; oct2 src; oct3 src; oct0 dst; oct1 dst; oct2 dst; oct3 dst].

Lemma plain_header_ok src dst proto total ttl :
  addr_ok src -> addr_ok dst -> is_u16 total -> is_byte ttl ->
  bytes_ok (plain_header src dst proto total ttl 0 0).
Proof.
  unfold addr_ok, octets, plain_header. rewrite !list.Forall_cons.
  intros Hs Hd Ht Httl. pose proof (be16_bytes_ok total Ht) as Hb. unfold be16_bytes in Hb.
  rewrite !list.Forall_cons in Hb. unfold is_byte in *.
  destruct proto; cbn [to_raw]; repeat split; try done; try lia; tauto.
Qed.

Lemma build_ipv4_header_inv src dst proto plen ttl :
  addr_ok src -> addr_ok dst -> 0 <= plen <= 65515 -> is_byte ttl ->
  exists c1 c2,
    build_ipv4_header src dst proto plen ttl = plain_header src dst proto (20 + plen) ttl c1 c2 /\
    bytes_ok (plain_header src dst proto (20 + plen) ttl c1 c2) /\
    compute_checksum (plain_header src dst proto (20 + plen) ttl c1 c2) 20 = 0.
Proof.
  intros Hs Hd Hl Ht. set (h := plain_header src dst proto (20 + plen) ttl 0 0).
  assert (bytes_ok h) as Hh by (apply plain_header_ok; try done; unfold is_u16; lia).
  set (c := compute_checksum h 20).
  assert (build_ipv4_header src dst proto plen ttl = with_checksum h 10 c) as Hb.
  { unfold build_ipv4_header, try_build_ipv4_header, checked_add_u16, IPV4_HEADER_MIN_LEN.
    destruct (Z.ltb_spec (20 + plen) 65536); [done|lia]. }
  exists (Z.shiftr c 8), (Z.land c 255).
  change (plain_header _ _ _ _ _ (Z.shiftr c 8) _) with (with_checksum h 10 c).
  assert (zlen h = 20) as Hz by done.
  split; [done|]. split; [apply with_checksum_bytes; [done|lia..]|].
  apply with_checksum_verifies; try done; lia.
Qed.

(** What a built header, its payload and any padding parse to *)
Lemma parse_built_ipv4 src dst proto ttl payload pad :
  addr_ok src -> addr_ok dst -> is_byte ttl -> ttl <> 0 -> is_valid_source src = true ->
  bytes_ok payload -> bytes_ok pad -> zlen payload <= 65515 ->
  exists ck,
    parse_ipv4 (build_ipv4_header src dst proto (zlen payload) ttl ++ payload ++ pad) =
    Ok (mkIpv4 4 5 0 (20 + zlen payload) 0 16384 ttl (to_raw proto) ck src dst 0, [], payload).
Proof.
  intros Hs Hd Ht Ht0 Hv Hp Hpad Hl. pose proof (zlen_nonneg payload).
  destruct (build_ipv4_header_inv src dst proto (zlen payload) ttl)
    as (c1 & c2 & -> & Hok & Hsum); [done..|].
  set (h := plain_header _ _ _ _ _ _ _) in *. set (p := h ++ payload ++ pad).
  assert (bytes_ok p) as Hpok by (unfold p; rewrite !Forall_app; auto).
  assert (word p 2 = 20 + zlen payload) as Hw by apply be16_split.
  assert (zlen p = 20 + zlen payload + zlen pad) as Hz.
  { unfold p. rewrite !zlen_app. change (zlen h) with 20. lia. }
  pose proof (zlen_nonneg pad).
  assert (hdr_source p = src) as Hsrc by (by destruct src).
  assert (take (Z.to_nat (hdr_len p)) p = h) as Htk by done.
  exists (be16 c1 c2). destruct (parse_ipv4_spec p Hpok) as [[_ ->]|[[] _]].
  - f_equal. f_equal.
    + f_equal. unfold parsed_header. rewrite Hsrc, Hw. destruct dst. done.
    + unfold parsed_payload. rewrite Hw. change (hdr_len p) with 20.
      change (drop (Z.to_nat 20) p) with (payload ++ pad). apply take_app_length'. unfold zlen. lia.
  - split; try done; rewrite ?Hw, ?Hsrc; try (change (hdr_len p) with 20; lia); try done; try lia.
    + pose proof (header_verifies p Hpok) as Hver. rewrite Htk in *.
      change (hdr_len p) with 20 in Hver. rewrite Hsum in Hver.
      specialize (Hver ltac:(done) ltac:(lia)). symmetry in Hver.
      by apply bool_decide_eq_true in Hver.
    + intros Hr%source_route_range. by change (zlen (hdr_options p)) with 0 in Hr.
Qed.

(** * UDP *)
Definition addr_sum (a : Ipv4Addr) : Z := be16 (oct0 a) (oct1 a) + be16 (oct2 a) (oct3 a).

Lemma addr_sum_range a : addr_ok a -> 0 <= addr_sum a <= 131070.
Proof.
  unfold addr_ok, octets, addr_sum, be16. rewrite !list.Forall_cons. unfold is_byte. lia.
Qed.

Lemma pseudo_sum_exact src dst proto len :
  addr_ok src -> addr_ok dst -> is_byte proto -> 0 <= len <= 65536 ->
  pseudo_sum src dst proto len = addr_sum src + addr_sum dst + proto + len.
Proof.
  intros Hs Hd Hp Hl. pose proof (addr_sum_range src Hs). pose proof (addr_sum_range dst Hd).
  unfold is_byte, addr_sum in *.
  assert (0 <= be16 (oct0 src) (oct1 src) /\ 0 <= be16 (oct2 src) (oct3 src) /\
          0 <= be16 (oct0 dst) (oct1 dst) /\ 0 <= be16 (oct2 dst) (oct3 dst)) as Hb.
  { unfold addr_ok, octets in *. rewrite !list.Forall_cons in *. unfold be16, is_byte in *. lia. }
  unfold pseudo_sum.
  repeat match goal with
  | |- context [wrap32 ?x] =>
      lazymatch x with context [wrap32 _] => fail | _ => rewrite (wrap32_id x) by lia end
  end. lia.
Qed.

Lemma udp_checksum_exact src dst seg :
  addr_ok src -> addr_ok dst -> bytes_ok seg -> zlen seg <= 65536 ->
  compute_udp_checksum src dst seg =
    finish_sum (addr_sum src + addr_sum dst + 17 + zlen seg + wsum seg).
Proof.
  intros Hs Hd Hg Hl. pose proof (addr_sum_range src Hs). pose proof (addr_sum_range dst Hd).
  pose proof (wsum_small seg Hg Hl). pose proof (zlen_nonneg seg).
  unfold compute_udp_checksum. rewrite pseudo_sum_exact by (done || lia).
  unfold UDP_PROTO. rewrite add_words_exact; [done|done|lia|lia].
Qed.

(** The datagram with the checksum field given *)
Definition plain_udp (sp dp c1 c2 : Z) (payload : list Z) : list Z :=
  [sp / 256; sp mod 256; dp / 256; dp mod 256;
   (8 + zlen payload) / 256; (8 + zlen payload) mod 256; c1; c2] ++ payload.

Lemma plain_udp_ok sp dp c payload :
  is_u16 sp -> is_u16 dp -> is_u16 c -> bytes_ok payload -> zlen payload <= 65507 ->
  bytes_ok (plain_udp sp dp (c / 256) (c mod 256) payload).
Proof.
  intros Hs Hd Hc Hp Hl. pose proof (zlen_nonneg payload).
  unfold plain_udp. rewrite Forall_app. split; [|done].
  pose proof (be16_bytes_ok sp Hs) as H1. pose proof (be16_bytes_ok dp Hd) as H2.
  pose proof (be16_bytes_ok c Hc) as H3.
  pose proof (be16_bytes_ok (8 + zlen payload) ltac:(unfold is_u16; lia)) as H4.
  unfold be16_bytes in *. rewrite !list.Forall_cons in *. tauto.
Qed.

Lemma zlen_plain_udp sp dp c1 c2 payload : zlen (plain_udp sp dp c1 c2 payload) = 8 + zlen payload.
Proof. unfold plain_udp. rewrite zlen_app. done. Qed.

(** The checksum written: zero becomes 0xFFFF. *)
Definition written_checksum (c : Z) : Z := if c =? 0 then 65535 else c.

Lemma written_checksum_range s :
  0 <= s < 2 ^ 32 -> is_u16 (written_checksum (finish_sum s)) /\ written_checksum (finish_sum s) <> 0.
Proof.
  intros Hs. pose proof (finish_sum_range s Hs). unfold written_checksum, is_u16 in *.
  destruct (Z.eqb_spec (finish_sum s) 0); lia.
Qed.

Lemma written_checksum_verifies s :
  0 <= s -> s + 65535 < 2 ^ 32 -> finish_sum (s + written_checksum (finish_sum s)) = 0.
Proof.
  intros. unfold written_checksum. destruct (Z.eqb_spec (finish_sum s) 0).
  - by apply finish_sum_insert_ones.
  - by apply finish_sum_insert.
Qed.

Section builders.
Context `{heap : WireHeap}.

Lemma try_zeroed_admitted n :
  0 <= n -> 80 + n <= usize_max -> wire_admitted (80 + n) = true -> exists w, try_zeroed n = Ok w.
Proof.
  intros. unfold try_zeroed, WIRE_ENCAPSULATION_HEADROOM. destruct (n =? 0); [eauto|].
  rewrite checked_add_Some by done. cbn [ok_or res_bind]. rewrite H1. eauto.
Qed.

(** Allocate and fill a packet of the right length. *)
Lemma zeroed_fill {E} n w l :
  try_zeroed n = Ok w -> zlen l = n ->
  exists w', @fill E w l = Ok w' /\ as_slice w' = l /\ wire_ok w' /\
             (n <> 0 -> wp_start w' = WIRE_ENCAPSULATION_HEADROOM).
Proof.
  intros Hz <-. destruct (try_zeroed_inv _ _ (zlen_nonneg l) Hz) as (Hok & Hlen & Hst).
  destruct (@fill_inv E w l Hok) as (w' & ? & ? & Hs & ?); [done|].
  exists w'. rewrite Hs. auto.
Qed.

(** What a datagram is built to, and that it verifies *)
Lemma build_udp_inv src dst sp dp payload :
  addr_ok src -> addr_ok dst -> is_u16 sp -> is_u16 dp -> bytes_ok payload ->
  zlen payload <= UDP_MAX_PAYLOAD -> wire_admitted (88 + zlen payload) = true ->
  exists w c,
    build_udp_datagram src dst sp dp payload = Ok w /\
    as_slice w = plain_udp sp dp (c / 256) (c mod 256) payload /\
    wp_start w = WIRE_ENCAPSULATION_HEADROOM /\ wire_ok w /\ is_u16 c /\ c <> 0 /\
    verify_udp_checksum src dst (as_slice w) = true.
Proof.
  intros Hs Hd Hsp Hdp Hp Hl Ha. pose proof (zlen_nonneg payload). unfold UDP_MAX_PAYLOAD in *.
  pose proof (addr_sum_range src Hs). pose proof (addr_sum_range dst Hd).
  destruct (try_zeroed_admitted (8 + zlen payload)) as [w0 Hw0];
    [lia|unfold usize_max, u64_max; lia|by rewrite Z.add_assoc|].
  pose (d := plain_udp sp dp 0 0 payload).
  assert (bytes_ok d) as Hdok by (apply (plain_udp_ok sp dp 0); done || lia).
  assert (zlen d = 8 + zlen payload) as Hdl by apply zlen_plain_udp.
  pose proof (wsum_small d Hdok). set (s := addr_sum src + addr_sum dst + 17 + zlen d + wsum d).
  assert (compute_udp_checksum src dst d = finish_sum s) as Hck
    by (apply udp_checksum_exact; done || lia).
  set (c := written_checksum (finish_sum s)).
  destruct (written_checksum_range s) as [Hc Hc0]; [lia|].
  assert (put16 d 6 (c / 256) (c mod 256) = plain_udp sp dp (c / 256) (c mod 256) payload) as Hput by done.
  destruct (@zeroed_fill UdpError _ w0 (plain_udp sp dp (c / 256) (c mod 256) payload) Hw0)
    as (w & Hfill & Hsl & Hwok & Hst); [by rewrite zlen_plain_udp|].
  exists w, c. split; [|split; [done|split; [apply Hst; lia|split; [done|split; [done|split; [done|]]]]]].
  - unfold build_udp_datagram, UDP_MAX_PAYLOAD, UDP_HEADER_LEN.
    destruct (Z.ltb_spec 65507 (zlen payload)); [lia|]. rewrite Z.mod_small by lia.
    rewrite Hw0. cbn [map_err res_bind].
    change (be16_bytes sp ++ _) with d. rewrite Hck. exact Hfill.
  - unfold verify_udp_checksum. rewrite Hsl, udp_checksum_exact; try done.
    + rewrite <- Hput, wsum_put16, zlen_put16, be16_split by done.
      apply Z.eqb_eq. replace (_ + _ + _) with (s + c) by (subst s; lia).
      apply written_checksum_verifies; lia.
    + apply plain_udp_ok; done || lia.
    + rewrite zlen_plain_udp. lia.
Qed.

(** A verified datagram, with anything after it, parses to its fields. *)
Lemma parse_plain_udp src dst sp dp c payload pad :
  is_u16 sp -> is_u16 dp -> c <> 0 -> zlen payload <= UDP_MAX_PAYLOAD ->
  is_broadcast src = false -> is_multicast src = false ->
  verify_udp_checksum src dst (plain_udp sp dp (c / 256) (c mod 256) payload) = true ->
  parse_udp (plain_udp sp dp (c / 256) (c mod 256) payload ++ pad) src dst =
    Ok (mkUdp sp dp (8 + zlen payload) c, payload).
Proof.
  intros Hsp Hdp Hc Hl Hb Hm Hv. pose proof (zlen_nonneg payload). pose proof (zlen_nonneg pad).
  set (d := plain_udp _ _ _ _ _) in *.
  assert (zlen d = 8 + zlen payload) as Hd by apply zlen_plain_udp.
  assert (zlen (d ++ pad) = 8 + zlen payload + zlen pad) as Hz by (rewrite zlen_app; lia).
  unfold parse_udp, parse_udp_header, UDP_HEADER_LEN.
  destruct (Z.ltb_spec (zlen (d ++ pad)) 8); [lia|].
  rewrite !u16_at_ok by lia. cbn [res_bind udp_length udp_checksum].
  change (word (d ++ pad) 0) with (be16 (sp / 256) (sp mod 256)).
  change (word (d ++ pad) 2) with (be16 (dp / 256) (dp mod 256)).
  change (word (d ++ pad) 4) with (be16 ((8 + zlen payload) / 256) ((8 + zlen payload) mod 256)).
  change (word (d ++ pad) 6) with (be16 (c / 256) (c mod 256)). rewrite !be16_split.
  destruct (Z.ltb_spec (8 + zlen payload) 8); [lia|].
  destruct (Z.ltb_spec (zlen (d ++ pad)) (8 + zlen payload)); [lia|].
  destruct (Z.eqb_spec c 0); [done|].
  rewrite (slice_mid [] d pad) by (done || lia). cbn [res_bind]. rewrite Hv, Hb, Hm. cbn [negb orb].
  unfold d, plain_udp. rewrite <- app_assoc. rewrite slice_mid; done.
Qed.

(** * Ethernet *)
Lemma parse_eth_bytes dst src ty payload :
  parse_ethernet (eth_octets dst ++ eth_octets src ++ be16_bytes ty ++ payload) =
    Ok (mkEth dst src ty, payload).
Proof.
  set (h := eth_octets dst ++ eth_octets src ++ be16_bytes ty).
  replace (eth_octets dst ++ _) with (h ++ payload) by (unfold h; by rewrite <- !app_assoc).
  pose proof (zlen_nonneg payload). assert (zlen h = 14) as Hh by done.
  assert (zlen (h ++ payload) = 14 + zlen payload) as Hz by (rewrite zlen_app; lia).
  unfold parse_ethernet, ETH_HEADER_LEN. destruct (Z.ltb_spec (zlen (h ++ payload)) 14); [lia|].
  rewrite !mac_at_ok, u16_at_ok by lia. cbn [res_bind].
  assert (slice (h ++ payload) 14 (zlen (h ++ payload)) = @Ok EthError _ payload) as ->.
  { pose proof (@slice_mid EthError h payload [] 14 (zlen (h ++ payload))) as Hs.
    rewrite app_nil_r in Hs. apply Hs; lia. }
  cbn [res_bind]. change (word (h ++ payload) 12) with (be16 (ty / 256) (ty mod 256)).
  rewrite be16_split. by destruct dst, src.
Qed.

(** A frame is built whenever its length fits and the heap admits it. *)
Lemma build_frame_inv dst src ty parts :
  94 + zlen (concat parts) <= usize_max -> wire_admitted (94 + zlen (concat parts)) = true ->
  exists w, try_build_ethernet_frame_from_parts dst src ty parts = Ok w /\ wire_ok w /\
    as_slice w = eth_octets dst ++ eth_octets src ++ be16_bytes ty ++ concat parts.
Proof.
  intros Hl Ha. pose proof (zlen_nonneg (concat parts)).
  destruct (try_zeroed_admitted (14 + zlen (concat parts))) as [w0 Hw0];
    [lia|lia|by rewrite Z.add_assoc|].
  destruct (@zeroed_fill EthError _ w0
              (eth_octets dst ++ eth_octets src ++ be16_bytes ty ++ concat parts) Hw0)
    as (w & Hw & Hs & Hok & _).
  { rewrite !zlen_app. change (zlen (eth_octets dst)) with 6. change (zlen (eth_octets src)) with 6.
    change (zlen (be16_bytes ty)) with 2. lia. }
  exists w. split; [|done]. unfold try_build_ethernet_frame_from_parts, ETH_HEADER_LEN.
  rewrite parts_len_Some, Z.add_0_l by lia. cbn [ok_or res_bind].
  rewrite checked_add_Some by lia. cbn [ok_or res_bind]. by rewrite Hw0.
Qed.

(** * ICMP *)
Definition icmp_parsed (p : list Z) : IcmpHeader * list Z :=
  (mkIcmp (byte p 0) (byte p 1) (word p 2) (take 4 (drop 4 p)), drop 8 p).

Record icmp_valid (p : list Z) : Prop := {
  im_length : 8 <= zlen p;
  im_type : is_supported_type (byte p 0) = true;
  im_sum : compute_checksum p (zlen p) = 0;
}.

Lemma parse_icmp_spec p :
  (icmp_valid p /\ parse_icmp p = Ok (icmp_parsed p)) \/
  (~ icmp_valid p /\ exists e, parse_icmp p = Err e).
Proof.
  unfold parse_icmp, ICMP_HEADER_LEN.
  destruct (Z.ltb_spec (zlen p) 8); [right; split; [intros []; lia|eauto]|].
  rewrite !at_ok by lia. cbn [res_bind].
  destruct (is_supported_type (byte p 0)) eqn:Ht; cbn [negb];
    [|right; split; [intros []; congruence|eauto]].
  destruct (Z.eqb_spec (compute_checksum p (zlen p)) 0); cbn [negb];
    [|right; split; [by intros []|eauto]].
  rewrite u16_at_ok by lia. cbn [res_bind]. rewrite !slice_ok by lia. cbn [res_bind].
  left. split; [done|]. unfold icmp_parsed. f_equal. f_equal. apply take_ge.
  rewrite length_drop. unfold zlen. lia.
Qed.

(** The reply: the request with type 0 and its checksum filled in again *)
Definition echo_reply_bytes (request : list Z) : list Z :=
  let reply := zset (zset (zset request 0 ICMP_TYPE_ECHO_REPLY) 2 0) 3 0 in
  with_checksum reply 2 (compute_checksum reply (zlen reply)).

Definition echo_request_ok (request : list Z) : Prop :=
  icmp_valid request /\ byte request 0 = ICMP_TYPE_ECHO_REQUEST /\ byte request 1 = 0 /\
  zlen request <= ICMP_HEADER_LEN + ICMP_MAX_ECHO_PAYLOAD.

Lemma build_echo_reply_spec request :
  wire_admitted (80 + zlen request) = true ->
  (echo_request_ok request /\ exists w,
     build_echo_reply request = Ok w /\ as_slice w = echo_reply_bytes request) \/
  (~ echo_request_ok request /\ exists e, build_echo_reply request = Err e).
Proof.
  intros Ha. pose proof (zlen_nonneg request). unfold build_echo_reply, echo_request_ok.
  destruct (parse_icmp_spec request) as [[Hv ->]|[Hv [e ->]]]; cbn [res_bind];
    [|right; split; [tauto|eauto]].
  unfold icmp_parsed, ICMP_HEADER_LEN, ICMP_MAX_ECHO_PAYLOAD. cbn [icmp_type icmp_code].
  destruct (Z.eqb_spec (byte request 0) ICMP_TYPE_ECHO_REQUEST); cbn [negb];
    [|right; split; [tauto|eauto]].
  destruct (Z.eqb_spec (byte request 1) 0); cbn [negb]; [|right; split; [tauto|eauto]].
  destruct (Z.ltb_spec 1472 (zlen request - 8)); [right; split; [lia|eauto]|].
  destruct (try_zeroed_admitted (zlen request)) as [w0 Hw0];
    [lia|unfold usize_max, u64_max; lia|done|].
  left. split; [split; [done|lia]|]. unfold try_copy_from_slice. rewrite Hw0. cbn [res_bind].
  destruct (@zeroed_fill AdmittedAllocError _ w0 request Hw0) as (w1 & -> & Hs1 & Hok1 & _); [done|].
  cbn [map_err res_bind]. rewrite Hs1. fold (echo_reply_bytes request).
  destruct (@fill_inv IcmpError w1 (echo_reply_bytes request) Hok1) as (w & ? & ? & _); [|eauto].
  unfold echo_reply_bytes. rewrite zlen_with_checksum, !zlen_zset, wire_len_slice, Hs1 by done. done.
Qed.

Lemma echo_reply_valid request :
  bytes_ok request -> 8 <= zlen request <= 65536 ->
  icmp_valid (echo_reply_bytes request).
Proof.
  intros Hb Hl. unfold echo_reply_bytes. set (r := zset _ 3 0).
  assert (bytes_ok r) by (repeat apply bytes_ok_zset; done).
  assert (zlen r = zlen request) as Hz by (unfold r; by rewrite !zlen_zset).
  destruct request as [|a [|b [|c [|d l]]]]; try (unfold zlen in Hl; simpl in Hl; lia).
  split.
  - rewrite zlen_with_checksum. lia.
  - done.
  - apply with_checksum_verifies; rewrite ?zlen_with_checksum; done || lia.
Qed.

(** Everything but type and checksum is as in the request. *)
Lemma echo_reply_parsed request ck :
  8 <= zlen request -> byte request 1 = 0 ->
  ck = word (echo_reply_bytes request) 2 ->
  icmp_parsed (echo_reply_bytes request) =
    (mkIcmp 0 0 ck (rest_of_header (icmp_parsed request).1), (icmp_parsed request).2).
Proof.
  intros Hl H1 ->. destruct request as [|a [|b [|c [|d l]]]]; try (unfold zlen in Hl; simpl in Hl; lia).
  unfold byte, zget in H1. simpl in H1. subst b. done.
Qed.
End builders.
