(* ===== verification/TokenBucket.v ===== *)
(** The ICMP response limiter [TokenBucket] (src/kernel/net/src/icmp.rs): the
    refill-and-consume transaction as one operation, and as the sequence of
    atomic accesses that any number of processors interleave. *)

From Stdlib Require Import ZArith Lia.
From stdpp Require Import base list list_numbers numbers.
From S2P Require Import Prelude Machine Wire.

(** * State *)
Record TokenBucket := mkBucket {
  capacity : Z; tokens : Z; rate_per_sec : Z; last_refill_ms : Z; initialized : bool;
}.

Definition MAX_REFILL_WINDOW_MS : Z := 60000.
Definition DEFAULT_RATE_PER_SEC : Z := 10.
Definition DEFAULT_BURST : Z := 20.

Definition bucket_new (rate burst : Z) : TokenBucket := mkBucket burst burst rate 0 false.
Definition new_default : TokenBucket := bucket_new DEFAULT_RATE_PER_SEC DEFAULT_BURST.

Definition set_tokens (b : TokenBucket) (n : Z) : TokenBucket :=
  mkBucket (capacity b) n (rate_per_sec b) (last_refill_ms b) (initialized b).
Definition set_last (b : TokenBucket) (t : Z) : TokenBucket :=
  mkBucket (capacity b) (tokens b) (rate_per_sec b) t (initialized b).
Definition set_init (b : TokenBucket) (i : bool) : TokenBucket :=
  mkBucket (capacity b) (tokens b) (rate_per_sec b) (last_refill_ms b) i.

(** * The transaction *)

(** The milliseconds a call is credited for, and the tokens they are worth *)
Definition elapsed_ms (now last : Z) : Z := Z.min (saturating_sub now last) MAX_REFILL_WINDOW_MS.
Definition added_tokens (rate elapsed : Z) : Z := saturating_mul elapsed rate / 1000.

(** The count after a refill, at most the burst *)
Definition refilled (b : TokenBucket) (added : Z) : Z := Z.min (capacity b) (saturating_add (tokens b) added).

Definition consume (b : TokenBucket) : bool * TokenBucket :=
  if tokens b =? 0 then (false, b) else (true, set_tokens b (tokens b - 1)).

(** [allow], run by a caller that holds the gate *)
Definition allow (now_ms : Z) (b : TokenBucket) : bool * TokenBucket :=
  let last := last_refill_ms b in
  if initialized b && (now_ms <? last) then (false, b) else
  let '(elapsed, b) :=
    if negb (initialized b) then (0, set_init (set_last b now_ms) true)
    else (elapsed_ms now_ms last, b) in
  let b :=
    if 0 <? elapsed then
      let added := added_tokens (rate_per_sec b) elapsed in
      if 0 <? added
      then set_last (set_tokens b (refilled b added)) now_ms
      else b
    else b in
  consume b.

Definition reset (b : TokenBucket) : TokenBucket :=
  set_init (set_last (set_tokens b (capacity b)) 0) false.

(** ICMP errors go out through the limiter. *)
Section limited.
Context `{heap : WireHeap}.

Definition limited (now_ms : Z) (b : TokenBucket) (build : res IcmpError WirePacket)
  : res IcmpError WirePacket * TokenBucket :=
  let '(ok, b) := allow now_ms b in
  if negb ok then (Err RateLimited, b) else
  (let? packet := build in
   if wire_len packet =? 0 then Err IcmpPayloadTooLarge else Ok packet, b).

Definition build_dest_unreachable_limited (code : Z) (original_ip_header : list Z) (now_ms : Z)
  (b : TokenBucket) : res IcmpError WirePacket * TokenBucket :=
  limited now_ms b (build_dest_unreachable code original_ip_header).

Definition build_time_exceeded_limited (code : Z) (original_ip_header : list Z) (now_ms : Z)
  (b : TokenBucket) : res IcmpError WirePacket * TokenBucket :=
  limited now_ms b (build_time_exceeded code original_ip_header).
End limited.

(** * The atomic accesses

    [pc] is where a caller stands, with the values it has loaded. A finished
    [allow] has [Some] answer, a finished [reset] none. *)
Inductive pc :=
| PcEnter (now : Z)                  (* compare_exchange of the gate *)
| PcLoadLast (now : Z)
| PcLoadInit (now last : Z)
| PcStoreLast (now : Z)              (* first call *)
| PcStoreInit
| PcRefillLoad (now added : Z)
| PcRefillStore (now new_tokens : Z)
| PcRefillStamp (now : Z)
| PcLoadTokens
| PcCas (current : Z)                (* compare_exchange_weak of the count *)
| PcResetEnter                       (* compare_exchange_weak of the gate, spinning *)
| PcResetTokens
| PcResetLast
| PcResetInit
| PcRelease (answer : option bool)   (* drop of the guard *)
| PcDone (answer : option bool).

(** The shared memory: the bucket and its gate *)
Record memory := mkMem { bucket : TokenBucket; update_in_progress : bool }.

Definition put (m : memory) (b : TokenBucket) : memory := mkMem b (update_in_progress m).

(** Where a caller goes after both loads *)
Definition after_loads (now last : Z) (b : TokenBucket) : pc :=
  if initialized b && (now <? last) then PcRelease (Some false) else
  if negb (initialized b) then PcStoreLast now else
  let elapsed := elapsed_ms now last in
  if 0 <? elapsed then
    let added := added_tokens (rate_per_sec b) elapsed in
    if 0 <? added then PcRefillLoad now added else PcLoadTokens
  else PcLoadTokens.

(** One access. [spurious] is a failure of a weak compare-exchange whose
    comparison holds. *)
Definition access (spurious : bool) (p : pc) (m : memory) : option (pc * memory) :=
  let b := bucket m in
  match p with
  | PcEnter now =>
      if update_in_progress m then Some (PcDone (Some false), m)
      else Some (PcLoadLast now, mkMem b true)
  | PcLoadLast now => Some (PcLoadInit now (last_refill_ms b), m)
  | PcLoadInit now last => Some (after_loads now last b, m)
  | PcStoreLast now => Some (PcStoreInit, put m (set_last b now))
  | PcStoreInit => Some (PcLoadTokens, put m (set_init b true))
  | PcRefillLoad now added =>
      Some (PcRefillStore now (refilled b added), m)
  | PcRefillStore now n => Some (PcRefillStamp now, put m (set_tokens b n))
  | PcRefillStamp now => Some (PcLoadTokens, put m (set_last b now))
  | PcLoadTokens =>
      if tokens b =? 0 then Some (PcRelease (Some false), m) else Some (PcCas (tokens b), m)
  | PcCas current =>
      if (tokens b =? current) && negb spurious
      then Some (PcRelease (Some true), put m (set_tokens b (current - 1)))
      else Some (PcLoadTokens, m)
  | PcResetEnter =>
      if update_in_progress m || spurious then Some (PcResetEnter, m)
      else Some (PcResetTokens, mkMem b true)
  | PcResetTokens => Some (PcResetLast, put m (set_tokens b (capacity b)))
  | PcResetLast => Some (PcResetInit, put m (set_last b 0))
  | PcResetInit => Some (PcRelease None, put m (set_init b false))
  | PcRelease answer => Some (PcDone answer, mkMem b false)
  | PcDone _ => None
  end.

Inductive call := CallAllow (now : Z) | CallReset.

Definition start (c : call) : pc :=
  match c with CallAllow now => PcEnter now | CallReset => PcResetEnter end.

(** The shared memory, and the calls made so far with where each stands *)
Record system := mkSys { mem : memory; callers : list (call * pc) }.

(** A call arrives, or one caller makes its next access. *)
Inductive step : system -> system -> Prop :=
| step_call s c : step s (mkSys (mem s) ((c, start c) :: callers s))
| step_access s i spurious c p p' m' :
    callers s !! i = Some (c, p) -> access spurious p (mem s) = Some (p', m') ->
    step s (mkSys m' (<[i := (c, p')]> (callers s))).

Inductive reachable (b : TokenBucket) : system -> Prop :=
| reach_init : reachable b (mkSys (mkMem b false) [])
| reach_step s s' : reachable b s -> step s s' -> reachable b s'.

(** * The specification: one operation after another; a busy caller is turned
    away. *)
Inductive operation := OpAllow (now : Z) | OpReset | OpBusy (now : Z).

Definition perform (o : operation) (b : TokenBucket) : option bool * TokenBucket :=
  match o with
  | OpAllow now => let '(r, b) := allow now b in (Some r, b)
  | OpReset => (None, reset b)
  | OpBusy _ => (Some false, b)
  end.

Definition op_call (o : operation) : call :=
  match o with OpAllow now | OpBusy now => CallAllow now | OpReset => CallReset end.

(** The calls with their answers, and the bucket after them *)
Fixpoint perform_all (ops : list operation) (b : TokenBucket) : list (call * option bool) * TokenBucket :=
  match ops with
  | [] => ([], b)
  | o :: ops =>
      let '(r, b) := perform o b in
      let '(rs, b) := perform_all ops b in ((op_call o, r) :: rs, b)
  end.
