(* ===== verification/TokenBucketFacts.v ===== *)
(** Lemmas on the response limiter: the interleaved accesses amount to one
    transaction after another, and what a sequence of transactions grants. *)

From Stdlib Require Import ZArith Lia.
From stdpp Require Import base list list_numbers numbers.
From S2P Require Import Prelude Machine Wire TokenBucket.

(** * Linearisation *)

(** A caller is inside the gate. *)
Definition critical (p : pc) : bool :=
  match p with PcEnter _ | PcResetEnter | PcDone _ => false | _ => true end.

(** The call a caller has yet to begin *)
Definition pending (p : pc) : option call :=
  match p with PcEnter now => Some (CallAllow now) | PcResetEnter => Some CallReset | _ => None end.

Definition answer (p : pc) : option (option bool) :=
  match p with PcDone r => Some r | _ => None end.

(** A call that has returned, with its answer *)
Definition finished (x : call * pc) : option (call * option bool) := pair x.1 <$> answer x.2.

(** What the rest of a transaction does when nothing intervenes *)
Definition finish_tokens (b : TokenBucket) : option bool * TokenBucket :=
  let '(r, b) := consume b in (Some r, b).

Definition finish_refill (now added : Z) (b : TokenBucket) : option bool * TokenBucket :=
  finish_tokens (set_last (set_tokens b (Z.min (capacity b) (saturating_add (tokens b) added))) now).

Definition finish (p : pc) (b : TokenBucket) : option bool * TokenBucket :=
  match p with
  | PcLoadLast now => let '(r, b) := allow now b in (Some r, b)
  | PcLoadInit now last =>
      let '(r, b) := allow now (set_last b last) in (Some r, b)
  | PcStoreLast now => finish_tokens (set_init (set_last b now) true)
  | PcStoreInit => finish_tokens (set_init b true)
  | PcRefillLoad now added => finish_refill now added b
  | PcRefillStore now n => finish_tokens (set_last (set_tokens b n) now)
  | PcRefillStamp now => finish_tokens (set_last b now)
  | PcLoadTokens | PcCas _ => finish_tokens b
  | PcResetTokens => (None, reset b)
  | PcResetLast => (None, set_init (set_last b 0) false)
  | PcResetInit => (None, set_init b false)
  | PcRelease r => (r, b)
  | PcEnter _ | PcResetEnter | PcDone _ => (None, b)
  end.

(** The values a caller carries still hold in memory, while it has the gate. *)
Definition carries (p : pc) (b : TokenBucket) : Prop :=
  match p with
  | PcLoadInit _ last => last = last_refill_ms b
  | PcCas current => current = tokens b /\ current <> 0
  | _ => True
  end.

Lemma set_last_id b : set_last b (last_refill_ms b) = b.
Proof. by destruct b. Qed.

Lemma finish_after_loads now b :
  finish (after_loads now (last_refill_ms b) b) b = (let '(r, b) := allow now b in (Some r, b)) /\
  carries (after_loads now (last_refill_ms b) b) b /\
  critical (after_loads now (last_refill_ms b) b) = true.
Proof.
  unfold after_loads, allow. destruct (initialized b) eqn:Hi; cbn [andb negb].
  - destruct (now <? last_refill_ms b); [done|].
    destruct (0 <? elapsed_ms _ _); [|done]. by destruct (0 <? added_tokens _ _).
  - done.
Qed.

(** An access inside the gate leaves the outcome of the transaction as it was;
    only the last one opens the gate. *)
Lemma access_finish spurious p m p' m' :
  critical p = true -> carries p (bucket m) -> update_in_progress m = true ->
  access spurious p m = Some (p', m') ->
  (exists r, p = PcRelease r /\ p' = PcDone r /\ m' = mkMem (bucket m) false) \/
  (critical p' = true /\ carries p' (bucket m') /\ update_in_progress m' = true /\
   finish p' (bucket m') = finish p (bucket m)).
Proof.
  intros Hc Hk Hg. destruct p; cbn [access critical carries] in *; try done; intros Ha.
  - injection Ha as <- <-. right. cbn [finish carries]. by rewrite set_last_id.
  - injection Ha as <- <-. right. subst last. destruct (finish_after_loads now (bucket m)) as (-> & ? & ?).
    cbn [finish]. by rewrite set_last_id.
  - injection Ha as <- <-. right. done.
  - injection Ha as <- <-. right. done.
  - injection Ha as <- <-. right. done.
  - injection Ha as <- <-. right. done.
  - injection Ha as <- <-. right. done.
  - right. cbn [finish]. unfold finish_tokens, consume.
    destruct (Z.eqb_spec (tokens (bucket m)) 0) as [H0|]; injection Ha as <- <-.
    + done.
    + cbn [finish carries]. unfold finish_tokens, consume. destruct (Z.eqb_spec (tokens (bucket m)) 0); done.
  - right. destruct Hk as [-> Hn]. rewrite Z.eqb_refl in Ha. cbn [finish].
    unfold finish_tokens, consume. destruct (Z.eqb_spec (tokens (bucket m)) 0); [done|].
    destruct spurious; cbn [andb negb] in Ha; injection Ha as <- <-; [|done].
    cbn [finish]. unfold finish_tokens, consume. destruct (Z.eqb_spec (tokens (bucket m)) 0); done.
  - injection Ha as <- <-. right. done.
  - injection Ha as <- <-. right. done.
  - injection Ha as <- <-. right. done.
  - injection Ha as <- <-. left. eauto.
Qed.

(** ** Callers as a bag *)
Lemma insert_Permutation {A} (l : list A) i x y :
  l !! i = Some x -> exists r, l ≡ₚ x :: r /\ <[i := y]> l ≡ₚ y :: r.
Proof.
  intros H. exists (take i l ++ drop (S i) l). pose proof (lookup_lt_Some _ _ _ H).
  split.
  - rewrite <- (take_drop_middle l i x H) at 1. by rewrite Permutation_middle.
  - rewrite insert_take_drop by done. by rewrite Permutation_middle.
Qed.

Lemma Permutation_two {A} (p q : A) D R :
  q :: D ≡ₚ p :: R -> p <> q -> exists R', R ≡ₚ q :: R' /\ D ≡ₚ p :: R'.
Proof.
  intros H Hne. assert (q ∈ R) as Hq.
  { assert (q ∈ p :: R) as Hq by (rewrite <- H; left). apply list_elem_of_In in Hq as [->|Hq]; [done|].
    by apply list_elem_of_In. }
  apply elem_of_Permutation in Hq as [R' HR']. exists R'. split; [done|].
  rewrite HR' in H. rewrite Permutation_swap in H. by apply Permutation_cons_inv in H.
Qed.

(** Outside the gate, and at the start of its own call if it has yet to begin *)
Definition idle (x : call * pc) : Prop := critical x.2 = false /\ (pending x.2 = None \/ pending x.2 = Some x.1).

(** ** The invariant *)
Definition linear (b0 : TokenBucket) (s : system) (ops : list operation) : Prop :=
  let '(outs, b) := perform_all ops b0 in
  if update_in_progress (mem s) then
    exists c p r o, callers s ≡ₚ (c, p) :: r /\ critical p = true /\ Forall idle r /\
      carries p (bucket (mem s)) /\ finish p (bucket (mem s)) = (o, b) /\
      outs ≡ₚ (c, o) :: omap finished r
  else bucket (mem s) = b /\ Forall idle (callers s) /\ outs ≡ₚ omap finished (callers s).

Lemma perform_all_snoc ops o b :
  perform_all (ops ++ [o]) b =
    let '(outs, b) := perform_all ops b in
    let '(r, b) := perform o b in (outs ++ [(op_call o, r)], b).
Proof.
  revert b. induction ops as [|o' ops IH]; intros b; cbn [app perform_all].
  - by destruct (perform o b).
  - destruct (perform o' b) as [r b1]. rewrite IH. destruct (perform_all ops b1) as [rs b2].
    by destruct (perform o b2).
Qed.

Lemma critical_answer p : critical p = true -> answer p = None.
Proof. by destruct p. Qed.

Lemma start_idle c : idle (c, start c).
Proof. destruct c; split; try done; by right. Qed.

Lemma linear_call b0 s ops c : linear b0 s ops -> linear b0 (mkSys (mem s) ((c, start c) :: callers s)) ops.
Proof.
  unfold linear. destruct (perform_all ops b0) as [outs b]. cbn [callers mem]. pose proof (start_idle c) as Hc.
  assert (Hf : finished (c, start c) = None) by (by destruct c). destruct (update_in_progress (mem s)).
  - intros (c' & p & r & o & Hp & Hcr & Hr & Hk & Hf' & Ho). exists c', p, ((c, start c) :: r), o. rewrite Hp. split_and!; try done.
    + apply Permutation_swap.
    + by constructor.
    + cbn [omap list_omap]. by rewrite Hf.
  - intros (Hb & Hi & Ho). split_and!; [done|by constructor|]. cbn [omap list_omap]. by rewrite Hf.
Qed.

(** The owner of the gate makes its next access. *)
Lemma linear_owner b0 s ops i spurious c p p' m' :
  linear b0 s ops -> callers s !! i = Some (c, p) -> critical p = true ->
  access spurious p (mem s) = Some (p', m') ->
  linear b0 (mkSys m' (<[i := (c, p')]> (callers s))) ops.
Proof.
  intros HL Hi Hc Ha. destruct (insert_Permutation (callers s) i (c, p) (c, p') Hi) as (D & HD & HD').
  unfold linear in *. destruct (perform_all ops b0) as [outs b]. cbn [callers mem].
  destruct (update_in_progress (mem s)) eqn:Hg; cycle 1.
  { destruct HL as (_ & Hidle & _). rewrite HD in Hidle. apply list.Forall_cons in Hidle as [[Hp _] _]. cbn in Hp. congruence. }
  destruct HL as (c1 & q & r & o & Hq & Hqc & Hr & Hk & Hf & Ho).
  assert ((c, p) = (c1, q)) as [= -> ->].
  { assert ((c, p) ∈ (c1, q) :: r) as Hin by (rewrite <- Hq, HD; left).
    apply list.elem_of_cons in Hin as [?|Hin]; [done|].
    eapply list.Forall_forall in Hr as [Hr _]; [|exact Hin]. cbn in Hr. congruence. }
  assert (D ≡ₚ r) as HDr by (apply (Permutation_cons_inv (a := (c1, q))); by rewrite <- HD, <- Hq).
  destruct (access_finish spurious q (mem s) p' m') as
    [(a & -> & -> & ->)|(Hc' & Hk' & Hg' & Hf')]; try done.
  - cbn [update_in_progress bucket]. cbn [finish] in Hf. injection Hf as <- Hb. split_and!; [done| |].
    + rewrite HD', HDr. constructor; [|done]. split; [done|by left].
    + by rewrite Ho, HD', HDr.
  - rewrite Hg'. exists c1, p', r, o. rewrite HD', HDr, Hf'. done.
Qed.

(** A caller outside the gate is turned away, spins, or takes it. *)
Lemma linear_idle b0 s ops i spurious c p p' m' :
  linear b0 s ops -> callers s !! i = Some (c, p) -> critical p = false ->
  access spurious p (mem s) = Some (p', m') ->
  exists ops', linear b0 (mkSys m' (<[i := (c, p')]> (callers s))) ops'.
Proof.
  intros HL Hi Hc Ha. destruct (insert_Permutation (callers s) i (c, p) (c, p') Hi) as (D & HD & HD').
  unfold linear in *. destruct (perform_all ops b0) as [outs b] eqn:Hops. destruct (update_in_progress (mem s)) eqn:Hg.
  - destruct HL as (c1 & q & r & o & Hq & Hqc & Hr & Hk & Hf & Ho).
    destruct (Permutation_two (c1, q) (c, p) D r) as (R & HR & HDR); [by rewrite <- HD|congruence|].
    assert (idle (c, p) /\ Forall idle R) as [[_ Hpend] HiR] by (rewrite HR in Hr; by apply list.Forall_cons in Hr).
    destruct p; try done; cbn [access] in Ha; rewrite Hg in Ha; cbn [orb] in Ha; injection Ha as <- <-.
    + destruct Hpend as [?|[= <-]]; [done|]. exists (ops ++ [OpBusy now]). rewrite perform_all_snoc, Hops. cbn [perform callers mem op_call].
      rewrite Hg. exists c1, q, ((CallAllow now, PcDone (Some false)) :: R), o.
      split_and!; try done; [rewrite HD', HDR; apply Permutation_swap|by constructor; [split; [done|by left]|]|].
      rewrite Ho, HR. cbn. by rewrite <- Permutation_cons_append, Permutation_swap.
    + exists ops. rewrite Hops. cbn [callers mem]. rewrite (list_insert_id _ _ _ Hi). rewrite Hg. exists c1, q, r, o. done.
  - destruct HL as (Hb & Hidle & Ho). rewrite HD in Hidle. apply list.Forall_cons in Hidle as [[_ Hpend] HiD].
    destruct p; try done; cbn [access] in Ha; rewrite Hg in Ha; cbn [orb] in Ha.
    + destruct Hpend as [?|[= <-]]; [done|]. injection Ha as <- <-. exists (ops ++ [OpAllow now]). rewrite perform_all_snoc, Hops.
      cbn [perform callers mem op_call]. destruct (allow now b) as [r b'] eqn:Hal.
      cbn [update_in_progress bucket]. exists (CallAllow now), (PcLoadLast now), D, (Some r).
      split_and!; try done; [cbn [finish]; by rewrite Hb, Hal|].
      rewrite Ho, HD. cbn. by rewrite <- Permutation_cons_append.
    + destruct spurious; injection Ha as <- <-.
      * exists ops. rewrite Hops. cbn [callers mem]. rewrite (list_insert_id _ _ _ Hi).
        rewrite Hg. split; [done|]. rewrite HD. split; [by constructor; [split|]|by rewrite Ho, HD].
      * destruct Hpend as [?|[= <-]]; [done|]. exists (ops ++ [OpReset]). rewrite perform_all_snoc, Hops. cbn [perform callers mem op_call].
        cbn [update_in_progress bucket]. exists CallReset, PcResetTokens, D, None.
        split_and!; try done; [cbn [finish]; by rewrite Hb|].
        rewrite Ho, HD. cbn. by rewrite <- Permutation_cons_append.
Qed.

Lemma reachable_linear b s : reachable b s -> exists ops, linear b s ops.
Proof.
  induction 1 as [|s s' _ [ops IH] Hs]; [by exists []|].
  destruct Hs as [s c|s i spurious c p p' m' Hi Ha]; [exists ops; by apply linear_call|].
  destruct (critical p) eqn:Hc; [exists ops; by eapply linear_owner|by eapply linear_idle].
Qed.

(** * What a sequence of operations grants *)

(** Grants to calls made between two times, and resets *)
Definition in_window (t0 t1 : Z) (x : call * option bool) : Z :=
  match x with (CallAllow now, Some true) => if (t0 <=? now) && (now <=? t1) then 1 else 0 | _ => 0 end.
Lemma in_window_nonneg t0 t1 x : 0 <= in_window t0 t1 x.
Proof. destruct x as [[now|] [[]|]]; cbn; try lia. by destruct (_ && _). Qed.

Definition grants (t0 t1 : Z) (outs : list (call * option bool)) : Z := sumZ (in_window t0 t1) outs.
Definition resets (cs : list call) : Z := sumZ (fun c => if c is CallReset then 1 else 0) cs.

Section bound.
Context (t0 t1 cap rate : Z).
Hypothesis Htimes : t0 <= t1.
Hypothesis Hrate : 0 <= rate.
Hypothesis Hcap : 0 <= cap.

(** What one life of the bucket, from one reset to the next, may grant in the
    window (in thousandths): the burst, the rate, and the part of a token that was
    earned before the window *)
Definition allowance : Z := 1000 * (cap + 1) + rate * (t1 - t0).

(** What a life has granted in the window, by where the last refill lies: before
    the window nothing was granted, or less than a token has been earned up to its
    start; inside, the refills of the window pay for it; after, it is over. *)
Definition life (g : Z) (b : TokenBucket) : Prop :=
  let L := last_refill_ms b in
  if initialized b then
    0 <= g /\
    ((g = 0 /\ L < t0) \/
     (L < t0 /\ g + tokens b <= cap /\ rate * (t0 - L) < 1000) \/
     (t0 <= L <= t1 /\ 1000 * (g + tokens b) <= 1000 * (cap + 1) + rate * (L - t0)) \/
     (t1 < L /\ 1000 * g <= allowance))
  else g = 0.

(** After [r] resets and [g] grants in the window *)
Definition spent (r g : Z) (b : TokenBucket) : Prop :=
  capacity b = cap /\ rate_per_sec b = rate /\ 0 <= tokens b <= cap /\
  exists gp gl, g = gp + gl /\ 1000 * gp <= r * allowance /\ life gl b.

Lemma added_tokens_bound elapsed : 0 <= elapsed -> 0 <= 1000 * added_tokens rate elapsed <= elapsed * rate.
Proof using Hrate.
  intros. unfold added_tokens, saturating_mul, usize_max, u64_max.
  pose proof (Z.mul_nonneg_nonneg elapsed rate). Z.to_euclidean_division_equations. lia.
Qed.

(** No whole token is worth less than 1000 thousandths, also when the window of a
    refill is capped. *)
Lemma added_tokens_zero now last : last < now -> added_tokens rate (elapsed_ms now last) <= 0 -> rate * (now - last) < 1000.
Proof using Hrate.
  intros Hl. unfold added_tokens, elapsed_ms, saturating_mul, saturating_sub, usize_max, u64_max, MAX_REFILL_WINDOW_MS. intros Ha.
  assert (Hlt : Z.min (Z.min (Z.max (now - last) 0) 60000 * rate) (2 ^ 64 - 1) < 1000) by (Z.to_euclidean_division_equations; lia). nia.
Qed.

Lemma allowance_nonneg : 0 <= allowance.
Proof using Htimes Hrate Hcap. unfold allowance. pose proof (Z.mul_nonneg_nonneg rate (t1 - t0)). lia. Qed.

(** No life grants more than its allowance. *)
Lemma life_bound g b : 0 <= tokens b -> life g b -> 1000 * g <= allowance.
Proof using Htimes Hrate Hcap.
  unfold life. pose proof allowance_nonneg. pose proof (Z.mul_nonneg_nonneg rate (t1 - t0)).
  destruct (initialized b); [|lia]. intros Ht (_ & [H1|[H1|[H1|H1]]]); unfold allowance in *; try lia.
  pose proof (Z.mul_le_mono_nonneg_l (last_refill_ms b - t0) (t1 - t0) rate). lia.
Qed.

(** A life after the refill of a call: in the window, what it can still grant is
    paid for. *)
Definition ready (now g : Z) (b : TokenBucket) : Prop :=
  initialized b = true /\ life g b /\ (t0 <= now <= t1 -> t0 <= last_refill_ms b \/ rate * (t0 - last_refill_ms b) < 1000) /\
  (last_refill_ms b <= now) /\ capacity b = cap /\ rate_per_sec b = rate /\ 0 <= tokens b <= cap.

Lemma consume_life now g b x b' :
  ready now g b -> consume b = (x, b') ->
  life (g + in_window t0 t1 (CallAllow now, Some x)) b' /\ capacity b' = cap /\ rate_per_sec b' = rate /\ 0 <= tokens b' <= cap.
Proof using Htimes.
  intros (Hi & Hl & Hw & Hn & Hc & Hr & Ht). unfold consume. destruct (Z.eqb_spec (tokens b) 0); intros [= <- <-].
  { cbn [in_window]. by rewrite Z.add_0_r. }
  unfold life in *. cbn [capacity rate_per_sec tokens initialized last_refill_ms set_tokens in_window]. rewrite Hi in *.
  destruct Hl as [Hg Hl]. split; [|split_and!; [done|done|lia..]].
  destruct (Z.leb_spec t0 now), (Z.leb_spec now t1); cbn [andb]; (split; [lia|]); try (destruct Hl as [?|[?|[?|?]]]; lia).
Qed.

(** The refill of a call that comes after the last one *)
Lemma refill_ready now g b :
  initialized b = true -> last_refill_ms b <= now -> life g b ->
  capacity b = cap -> rate_per_sec b = rate -> 0 <= tokens b <= cap ->
  ready now g (if 0 <? elapsed_ms now (last_refill_ms b) then
      if 0 <? added_tokens (rate_per_sec b) (elapsed_ms now (last_refill_ms b))
      then set_last (set_tokens b (refilled b (added_tokens (rate_per_sec b) (elapsed_ms now (last_refill_ms b))))) now
      else b else b).
Proof using Htimes Hrate Hcap.
  intros Hi Hn Hl Hc Hr Ht. rewrite Hr. set (L := last_refill_ms b) in *.
  assert (Hidle : (L < now -> added_tokens rate (elapsed_ms now L) <= 0) -> ready now g b).
  { intros Ha. split_and!; try done; try lia. intros Hw. fold L. destruct (Z.le_gt_cases t0 L); [by left|right].
    pose proof (added_tokens_zero now L ltac:(lia) ltac:(apply Ha; lia)) as Hz.
    pose proof (Z.mul_le_mono_nonneg_l (t0 - L) (now - L) rate). lia. }
  assert (He : 0 <= elapsed_ms now L <= now - L) by (unfold elapsed_ms, saturating_sub, MAX_REFILL_WINDOW_MS; lia).
  destruct (Z.ltb_spec 0 (elapsed_ms now L)) as [He0|He0]; cycle 1.
  { apply Hidle. unfold elapsed_ms, saturating_sub, MAX_REFILL_WINDOW_MS in He0. lia. }
  destruct (Z.ltb_spec 0 (added_tokens rate (elapsed_ms now L))) as [Ha|Ha]; [clear Hidle|by apply Hidle].
  pose proof (added_tokens_bound (elapsed_ms now L) ltac:(lia)) as Hab.
  assert (Hew : elapsed_ms now L * rate <= rate * (now - L)) by nia.
  set (a := added_tokens rate (elapsed_ms now L)) in *.
  unfold ready, life in *. fold L in Hl. rewrite Hi in Hl. destruct Hl as [Hg Hl].
  cbn [capacity rate_per_sec tokens initialized last_refill_ms set_tokens set_last]. rewrite Hi.
  unfold refilled, saturating_add, usize_max, u64_max. rewrite Hc. pose proof allowance_nonneg as HA.
  assert (Hmul : forall x y, x <= y -> rate * x <= rate * y) by (intros; nia). 
  split_and!; try done; try lia. unfold allowance in *.
  destruct (Z.le_gt_cases t0 now) as [Hn0|Hn0]; cycle 1.
  - destruct Hl as [?|[[? [? ?]]|[?|?]]]; [left; lia| |lia..].
    pose proof (Hmul (now - L) (t0 - L) ltac:(lia)). lia.
  - pose proof (Hmul 0 (t1 - t0) ltac:(lia)). pose proof (Hmul 0 (now - t0) ltac:(lia)).
    destruct (Z.le_gt_cases now t1) as [Hn1|Hn1].
    + right; right; left. split; [lia|]. destruct Hl as [?|[[? [? ?]]|[?|?]]]; lia.
    + right; right; right. split; [lia|]. destruct Hl as [?|[?|[[? ?]|?]]]; try lia.
      pose proof (Hmul (L - t0) (t1 - t0) ltac:(lia)). lia.
Qed.

Lemma allow_spent r g now b x b' :
  allow now b = (x, b') -> spent r g b -> spent r (g + in_window t0 t1 (CallAllow now, Some x)) b'.
Proof using Htimes Hrate Hcap.
  intros Ha (Hc & Hr & Ht & gp & gl & -> & Hgp & Hl).
  enough (life (gl + in_window t0 t1 (CallAllow now, Some x)) b' /\ capacity b' = cap /\ rate_per_sec b' = rate /\ 0 <= tokens b' <= cap)
    as (? & ? & ? & ?) by (unfold spent; split_and!; try lia; exists gp; eexists; split; [symmetry; apply Z.add_assoc|done]).
  unfold allow in Ha. destruct (initialized b) eqn:Hi; cbn [andb negb] in Ha.
  - destruct (Z.ltb_spec now (last_refill_ms b)); [injection Ha as <- <-; cbn [in_window]; by rewrite Z.add_0_r|].
    eapply consume_life; [|exact Ha]. by apply refill_ready.
  - eapply consume_life; [|exact Ha]. unfold life in Hl. rewrite Hi in Hl. subst gl.
    cbn [Z.ltb]. unfold ready, life. cbn [capacity rate_per_sec tokens initialized last_refill_ms set_tokens set_last set_init].
    pose proof allowance_nonneg. pose proof (Z.mul_nonneg_nonneg rate (now - t0)). unfold allowance in *. split_and!; done || lia.
Qed.

Lemma reset_spent r g b : spent r g b -> spent (r + 1) g (reset b).
Proof using Htimes Hrate Hcap.
  intros (Hc & Hr & Ht & gp & gl & -> & Hgp & Hl). pose proof (life_bound gl b ltac:(lia) Hl).
  unfold spent, reset, life. cbn [capacity rate_per_sec tokens initialized last_refill_ms set_tokens set_last set_init].
  rewrite Hc. split_and!; try done; try lia. exists (gp + gl), 0. lia.
Qed.

Lemma perform_all_spent ops outs b b' r g :
  perform_all ops b = (outs, b') -> spent r g b ->
  spent (r + resets outs.*1) (g + grants t0 t1 outs) b'.
Proof using Htimes Hrate Hcap.
  revert outs b r g. induction ops as [|o ops IH]; intros outs b r g; cbn [perform_all];
    [intros [= <- <-]; unfold resets, grants; simpl; by rewrite !Z.add_0_r|].
  destruct (perform o b) as [x b1] eqn:Ho. destruct (perform_all ops b1) as [outs' b2] eqn:Hops. intros [= <- <-] Hs.
  change (resets ((op_call o, x) :: outs').*1) with ((if op_call o is CallReset then 1 else 0) + resets outs'.*1).
  change (grants t0 t1 ((op_call o, x) :: outs')) with (in_window t0 t1 (op_call o, x) + grants t0 t1 outs').
  rewrite !Z.add_assoc. eapply IH; [exact Hops|]. destruct o as [now| |now]; cbn [perform op_call] in *.
  - destruct (allow now b) as [y b3] eqn:Hal. injection Ho as <- <-. rewrite Z.add_0_r. by eapply allow_spent.
  - injection Ho as <- <-. rewrite Z.add_0_r. by apply reset_spent.
  - injection Ho as <- <-. by rewrite !Z.add_0_r.
Qed.

(** From a new bucket: every life has its allowance. *)
Lemma perform_all_bound ops outs b :
  perform_all ops (bucket_new rate cap) = (outs, b) ->
  1000 * grants t0 t1 outs <= (resets outs.*1 + 1) * allowance.
Proof using Htimes Hrate Hcap.
  intros Hp. apply (perform_all_spent _ _ _ _ 0 0) in Hp as (_ & _ & Ht & gp & gl & Hg & Hgp & Hl).
  - pose proof (life_bound gl b ltac:(lia) Hl). lia.
  - unfold spent, bucket_new. cbn. split_and!; try done; try lia. exists 0, 0. lia.
Qed.
End bound.

(** ** The callers against the operations *)
Lemma finished_calls l : (omap finished l).*1 ⊆+ l.*1.
Proof.
  induction l as [|[c p] l IH]; [done|]. cbn [omap list_omap]. unfold finished at 1. cbn [fst snd fmap list_fmap].
  destruct (answer p); cbn; [by apply submseteq_skip|by apply submseteq_cons].
Qed.

Lemma linear_answers b0 s ops outs b :
  linear b0 s ops -> perform_all ops b0 = (outs, b) ->
  omap finished (callers s) ⊆+ outs /\ outs.*1 ⊆+ (callers s).*1.
Proof.
  unfold linear. intros HL Hp. rewrite Hp in HL. destruct (update_in_progress (mem s)).
  - destruct HL as (c & p & r & o & Hq & Hc & _ & _ & _ & Ho). rewrite Ho, Hq. cbn [omap list_omap].
    unfold finished at 1. cbn [fst snd]. rewrite (critical_answer p Hc). cbn. split; [by apply submseteq_cons|].
    apply submseteq_skip, finished_calls.
  - destruct HL as (_ & _ & Ho). rewrite Ho. split; [done|]. apply finished_calls.
Qed.

Lemma sumZ_submseteq {A} (f : A -> Z) l k : (forall x, 0 <= f x) -> l ⊆+ k -> sumZ f l <= sumZ f k.
Proof. intros Hf [r ->]%submseteq_Permutation. rewrite sumZ_app. pose proof (sumZ_nonneg f r (fun x _ => Hf x)). lia. Qed.
