(* ===== verification/Firewall.v ===== *)
(** The packet filter (src/kernel/net/src/firewall.rs): rules and how they
    match, the priority-ordered table, the tables of the network namespaces,
    the log limiter; and the next-hop decision of src/kernel/net/src/stack.rs. *)

From Stdlib Require Import ZArith Lia.
From stdpp Require Import base list list_numbers numbers gmap sorting.
From S2P Require Import Prelude Machine Wire.

(** * Actions and match criteria *)
Inductive FirewallAction := Accept | Drop | Reject (icmp_code : Z).

Definition default_action_value : FirewallAction := Drop.

(** [CtDecision] of conntrack.rs *)
Inductive CtDecision := CtNew | CtEstablished | CtRelated | CtInvalid.

Definition ipv4_to_u32 (a : Ipv4Addr) : Z :=
  ((oct0 a * 256 + oct1 a) * 256 + oct2 a) * 256 + oct3 a.

Record PortRange := mkPorts { port_start : Z; port_end : Z }.

Definition port_matches (r : PortRange) (port : Z) : bool :=
  (port_start r <=? port) && (port <=? port_end r).

Record IpCidrMatch := mkCidr { cidr_addr : Ipv4Addr; prefix_len : Z }.

(** [u32::MAX << shift] *)
Definition u32_mask (shift : Z) : Z := wrap32 (Z.shiftl (2 ^ 32 - 1) shift).

Definition cidr_matches (c : IpCidrMatch) (ip : Ipv4Addr) : bool :=
  let prefix := Z.min (prefix_len c) 32 in
  if prefix =? 0 then true else
  let mask := u32_mask (32 - prefix) in
  Z.land (ipv4_to_u32 (cidr_addr c)) mask =? Z.land (ipv4_to_u32 ip) mask.

(** [CtStateMask]: its byte *)
Definition CT_ANY : Z := 15.
Definition CT_NEW : Z := 1.
Definition CT_ESTABLISHED : Z := 2.
Definition CT_RELATED : Z := 4.
Definition CT_INVALID : Z := 8.

Definition bit_for_state (s : CtDecision) : Z :=
  match s with
  | CtNew => CT_NEW | CtEstablished => CT_ESTABLISHED | CtRelated => CT_RELATED | CtInvalid => CT_INVALID
  end.

Definition from_states (states : list CtDecision) : Z :=
  fold_left (fun bits s => Z.lor bits (bit_for_state s)) states 0.

Definition ct_matches (mask : Z) (state : option CtDecision) : bool :=
  match state with
  | Some s => negb (Z.land mask (bit_for_state s) =? 0)
  | None => mask =? CT_ANY
  end.

(** * Rules *)
Record FirewallRule := mkRule {
  id : Z; priority : Z;
  r_src_ip : option IpCidrMatch; r_dst_ip : option IpCidrMatch;
  r_src_port : option PortRange; r_dst_port : option PortRange;
  r_proto : option Ipv4Proto; r_ct_state : Z;
  action : FirewallAction; r_log : bool;
}.

(** [FirewallRuleBuilder::new] and the setters the default rules use *)
Definition builder (i : Z) : FirewallRule :=
  mkRule i 0 None None None None None CT_ANY default_action_value false.
Definition with_priority (p : Z) (r : FirewallRule) : FirewallRule :=
  mkRule (id r) p (r_src_ip r) (r_dst_ip r) (r_src_port r) (r_dst_port r) (r_proto r) (r_ct_state r)
    (action r) (r_log r).
Definition with_ct_state (m : Z) (r : FirewallRule) : FirewallRule :=
  mkRule (id r) (priority r) (r_src_ip r) (r_dst_ip r) (r_src_port r) (r_dst_port r) (r_proto r) m
    (action r) (r_log r).
Definition with_action (a : FirewallAction) (r : FirewallRule) : FirewallRule :=
  mkRule (id r) (priority r) (r_src_ip r) (r_dst_ip r) (r_src_port r) (r_dst_port r) (r_proto r)
    (r_ct_state r) a (r_log r).
Definition with_log (l : bool) (r : FirewallRule) : FirewallRule :=
  mkRule (id r) (priority r) (r_src_ip r) (r_dst_ip r) (r_src_port r) (r_dst_port r) (r_proto r)
    (r_ct_state r) (action r) l.

Record FirewallPacket := mkPacket {
  p_net_ns_id : Z; p_src_ip : Ipv4Addr; p_dst_ip : Ipv4Addr; p_proto : Ipv4Proto;
  p_src_port : option Z; p_dst_port : option Z; p_ct_state : option CtDecision;
}.

Definition match_field_ip (rule : option IpCidrMatch) (value : Ipv4Addr) : bool :=
  match rule with Some cidr => cidr_matches cidr value | None => true end.

Definition match_field_port (rule : option PortRange) (value : option Z) : bool :=
  match rule, value with
  | Some range, Some port => port_matches range port
  | Some _, None => false
  | None, _ => true
  end.

Definition match_field_proto (rule : option Ipv4Proto) (value : Ipv4Proto) : bool :=
  match rule with Some p => bool_decide (p = value) | None => true end.

Definition rule_matches (r : FirewallRule) (p : FirewallPacket) : bool :=
  match_field_ip (r_src_ip r) (p_src_ip p) && match_field_ip (r_dst_ip r) (p_dst_ip p) &&
  match_field_port (r_src_port r) (p_src_port p) && match_field_port (r_dst_port r) (p_dst_port p) &&
  match_field_proto (r_proto r) (p_proto p) && ct_matches (r_ct_state r) (p_ct_state p).

(** * The table *)
Record FirewallVerdict := mkVerdict { v_action : FirewallAction; v_rule_id : option Z; v_log : bool }.

Record FirewallStats := mkStats {
  packets_accepted : Z; packets_dropped : Z; packets_rejected : Z;
  rule_evaluations : Z; default_hits : Z;
}.

Definition stats_new : FirewallStats := mkStats 0 0 0 0 0.

Record FirewallTable := mkTable {
  rules : list FirewallRule; default_action : FirewallAction; stats : FirewallStats;
}.

Inductive FirewallError := TooManyRules.

Definition MAX_FIREWALL_RULES : Z := 4096.

(** The comparison of [sort_rules]: [a] is not after [b]. *)
Definition rule_before (a b : FirewallRule) : bool :=
  (priority b <? priority a) || ((priority a =? priority b) && (id a <=? id b)).

(** [sort_by] is a stable sort: an element stays before those it equals. *)
Fixpoint insert_rule (r : FirewallRule) (l : list FirewallRule) : list FirewallRule :=
  match l with
  | [] => [r]
  | x :: l => if rule_before r x then r :: x :: l else x :: insert_rule r l
  end.
Definition sort_rules (l : list FirewallRule) : list FirewallRule := foldr insert_rule [] l.

Definition check_rule_count (l : list FirewallRule) : res FirewallError unit :=
  if MAX_FIREWALL_RULES <? zlen l then Err TooManyRules else Ok tt.

Definition new_with_rules (default_action : FirewallAction) (l : list FirewallRule)
  : res FirewallError FirewallTable :=
  let? _ := check_rule_count l in
  Ok (mkTable (sort_rules l) default_action stats_new).

Definition replace_rules (t : FirewallTable) (l : list FirewallRule) : res FirewallError FirewallTable :=
  let? _ := check_rule_count l in
  Ok (mkTable (sort_rules l) (default_action t) (stats t)).

(** [fetch_add] on a counter of 64 bits *)
Definition fetch_add (c n : Z) : Z := (c + n) mod 2 ^ 64.

Definition count_action (a : FirewallAction) (s : FirewallStats) : FirewallStats :=
  match a with
  | Accept => mkStats (fetch_add (packets_accepted s) 1) (packets_dropped s) (packets_rejected s)
                (rule_evaluations s) (default_hits s)
  | Drop => mkStats (packets_accepted s) (fetch_add (packets_dropped s) 1) (packets_rejected s)
              (rule_evaluations s) (default_hits s)
  | Reject _ => mkStats (packets_accepted s) (packets_dropped s) (fetch_add (packets_rejected s) 1)
                  (rule_evaluations s) (default_hits s)
  end.

Definition count_evals (n : Z) (s : FirewallStats) : FirewallStats :=
  mkStats (packets_accepted s) (packets_dropped s) (packets_rejected s)
    (fetch_add (rule_evaluations s) n) (default_hits s).

Definition count_default (s : FirewallStats) : FirewallStats :=
  mkStats (packets_accepted s) (packets_dropped s) (packets_rejected s)
    (rule_evaluations s) (fetch_add (default_hits s) 1).

(** The loop over the rules, with the number looked at so far *)
Fixpoint eval_rules (l : list FirewallRule) (packet : FirewallPacket) (evals : Z)
  : option FirewallRule * Z :=
  match l with
  | [] => (None, evals)
  | r :: l => if rule_matches r packet then (Some r, evals + 1) else eval_rules l packet (evals + 1)
  end.

Definition evaluate (t : FirewallTable) (packet : FirewallPacket) : FirewallVerdict * FirewallTable :=
  let '(hit, evals) := eval_rules (rules t) packet 0 in
  match hit with
  | Some r =>
      (mkVerdict (action r) (Some (id r)) (r_log r),
       mkTable (rules t) (default_action t) (count_action (action r) (count_evals evals (stats t))))
  | None =>
      (mkVerdict (default_action t) None false,
       mkTable (rules t) (default_action t)
         (count_action (default_action t) (count_default (count_evals evals (stats t)))))
  end.

(** * The tables of the namespaces *)
Definition default_rules : list FirewallRule :=
  [with_log true (with_action Drop (with_ct_state CT_INVALID (with_priority 1000 (builder 1))));
   with_log false (with_action Accept
     (with_ct_state (Z.lor CT_ESTABLISHED CT_RELATED) (with_priority 900 (builder 2))))].

(** [FIREWALL_TABLES] *)
Notation FirewallTables := (gmap Z FirewallTable).

(** [allocated] tells whether the allocations of a new table succeed: the
    vector of the rules, the table, and the entry of the map. *)
Definition try_firewall_table_for_ns (allocated : bool) (ns_id : Z) (ts : FirewallTables)
  : option FirewallTable * FirewallTables :=
  match ts !! ns_id with
  | Some t => (Some t, ts)
  | None =>
      if negb allocated then (None, ts) else
      match new_with_rules Drop default_rules with
      | Ok t => (Some t, <[ns_id := t]> ts)
      | _ => (None, ts)
      end
  end.

Definition firewall_remove_ns (ns_id : Z) (ts : FirewallTables) : FirewallTables :=
  if ns_id =? 0 then ts else delete ns_id ts.

(** A packet meets its namespace's table, as the receive path does; no table
    means that it is dropped. *)
Definition filter_packet (allocated : bool) (packet : FirewallPacket) (ts : FirewallTables)
  : option FirewallVerdict * FirewallTables :=
  let '(t, ts) := try_firewall_table_for_ns allocated (p_net_ns_id packet) ts in
  match t with
  | None => (None, ts)
  | Some t => let '(v, t) := evaluate t packet in (Some v, <[p_net_ns_id packet := t]> ts)
  end.

(** [firewall_table_for_ns(ns).replace_rules(rules)]; no table is a panic. *)
Definition install_rules (allocated : bool) (ns_id : Z) (l : list FirewallRule) (ts : FirewallTables)
  : res FirewallError unit * FirewallTables :=
  let '(t, ts) := try_firewall_table_for_ns allocated ns_id ts in
  match t with
  | None => (Panic, ts)
  | Some t =>
      match replace_rules t l with
      | Ok t => (Ok tt, <[ns_id := t]> ts)
      | Err e => (Err e, ts)
      | Panic => (Panic, ts)
      end
  end.

(** * Logging *)
Definition LOG_RATE_LIMIT : Z := 100.
Definition LOG_RATE_WINDOW_MS : Z := 1000.

(** [FW_LOG_TOKENS] and [FW_LOG_WINDOW_START] *)
Record LogLimiter := mkLog { log_tokens : Z; window_start : Z }.

Definition can_log (now_ms : Z) (l : LogLimiter) : bool * LogLimiter :=
  let l := if LOG_RATE_WINDOW_MS <=? saturating_sub now_ms (window_start l)
           then mkLog LOG_RATE_LIMIT now_ms else l in
  if 0 <? log_tokens l then (true, mkLog (log_tokens l - 1) (window_start l)) else (false, l).

(** Whether a line is printed *)
Definition log_match (v : FirewallVerdict) (now_ms : Z) (l : LogLimiter) : bool * LogLimiter :=
  if negb (v_log v) then (false, l) else can_log now_ms l.

(** * Next hop *)
Record NetConfigSnapshot := mkConfig {
  our_ip : Ipv4Addr; our_mac : EthAddr; gateway_ip : Ipv4Addr; gateway_mac : EthAddr;
  subnet_prefix_len : Z;
}.

Inductive NextHop := Local | OnLink | Gateway | Unroutable.

(** [!x] on [u32] *)
Definition u32_not (x : Z) : Z := 2 ^ 32 - 1 - x.

Definition next_hop (dst : Ipv4Addr) (cfg : NetConfigSnapshot) : NextHop :=
  if is_unspecified dst || is_broadcast dst || is_multicast dst then Unroutable else
  if bool_decide (dst = our_ip cfg) || is_loopback dst then Local else
  let prefix := subnet_prefix_len cfg in
  if (prefix =? 0) || (32 <? prefix) then Unroutable else
  let mask := u32_mask (32 - prefix) in
  let our := ipv4_to_u32 (our_ip cfg) in
  let d := ipv4_to_u32 dst in
  if negb (Z.land (Z.lxor our d) mask =? 0) then Gateway else
  if prefix <=? 30 then
    let host := Z.land d (u32_not mask) in
    if (host =? 0) || (host =? u32_not mask) then Unroutable else OnLink
  else OnLink.
