(* ===== verification/FirewallFacts.v ===== *)
(** Lemmas on the packet filter and the next-hop decision: address prefixes,
    the order of the rules, and the tables of the namespaces. *)

From Stdlib Require Import ZArith Lia.
From stdpp Require Import base list list_numbers numbers gmap sorting.
From S2P Require Import Prelude Machine Wire WireFacts NetFacts Firewall.

(** * Address prefixes *)
Lemma ipv4_to_u32_range a : addr_ok a -> 0 <= ipv4_to_u32 a < 2 ^ 32.
Proof. unfold addr_ok, octets, ipv4_to_u32. rewrite !list.Forall_cons. unfold is_byte. lia. Qed.

Lemma u32_mask_bits s i :
  0 <= s -> 0 <= i -> Z.testbit (u32_mask s) i = (i <? 32) && (s <=? i).
Proof.
  intros. unfold u32_mask, wrap32. change (2 ^ 32 - 1) with (Z.ones 32).
  destruct (Z.ltb_spec i 32); cbn [andb].
  - rewrite Z.mod_pow2_bits_low, Z.shiftl_spec by lia.
    destruct (Z.leb_spec s i); [rewrite Z.ones_spec_low by lia; done|].
    apply Z.testbit_neg_r. lia.
  - apply Z.mod_pow2_bits_high. lia.
Qed.

Lemma land_u32_mask x s :
  0 <= s -> 0 <= x < 2 ^ 32 -> Z.land x (u32_mask s) = x / 2 ^ s * 2 ^ s.
Proof.
  intros Hs Hx. rewrite <- Z.shiftr_div_pow2, <- Z.shiftl_mul_pow2, <- Z.ldiff_ones_r by done.
  apply Z.bits_inj'. intros i Hi. rewrite Z.land_spec, Z.ldiff_spec, u32_mask_bits by lia.
  destruct (Z.ltb_spec i 32); cbn [andb].
  - destruct (Z.leb_spec s i).
    + by rewrite Z.ones_spec_high by lia.
    + by rewrite Z.ones_spec_low by lia.
  - assert (Z.testbit x i = false) as ->; [|done].
    rewrite <- (Z.mod_small x (2 ^ 32)) by done. apply Z.mod_pow2_bits_high. lia.
Qed.

(** Two addresses that share a prefix *)
Definition same_prefix (len : Z) (a b : Ipv4Addr) : Prop :=
  ipv4_to_u32 a / 2 ^ (32 - len) = ipv4_to_u32 b / 2 ^ (32 - len).

Lemma masked_eq len a b :
  0 <= len <= 32 -> addr_ok a -> addr_ok b ->
  Z.land (ipv4_to_u32 a) (u32_mask (32 - len)) = Z.land (ipv4_to_u32 b) (u32_mask (32 - len)) <->
  same_prefix len a b.
Proof.
  intros Hl Ha Hb. rewrite !land_u32_mask by (lia || by apply ipv4_to_u32_range).
  unfold same_prefix. split; [|congruence]. apply Z.mul_cancel_r. pose proof (Z.pow_pos_nonneg 2 (32 - len)). lia.
Qed.

(** * Next hop *)
Lemma lxor_masked a b m : Z.land (Z.lxor a b) m = 0 <-> Z.land a m = Z.land b m.
Proof.
  assert (Z.land (Z.lxor a b) m = Z.lxor (Z.land a m) (Z.land b m)) as ->.
  { apply Z.bits_inj'. intros i _. rewrite Z.lxor_spec, !Z.land_spec, Z.lxor_spec.
    by destruct (Z.testbit a i), (Z.testbit b i), (Z.testbit m i). }
  split; [apply Z.lxor_eq|intros ->; apply Z.lxor_nilpotent].
Qed.

Lemma u32_not_mask s : 0 <= s <= 32 -> u32_not (u32_mask s) = Z.ones s.
Proof.
  intros Hs. unfold u32_not, u32_mask, wrap32. rewrite Z.shiftl_mul_pow2, Z.ones_equiv by lia.
  assert (0 < 2 ^ s <= 2 ^ 32) by (split; [lia|apply Z.pow_le_mono_r; lia]).
  rewrite <- (Z.mod_unique ((2 ^ 32 - 1) * 2 ^ s) (2 ^ 32) (2 ^ s - 1) (2 ^ 32 - 2 ^ s)); lia.
Qed.

(** An address that is never a unicast destination *)
Definition never_unicast (a : Ipv4Addr) : bool := is_unspecified a || is_broadcast a || is_multicast a.
Definition own_address (cfg : NetConfigSnapshot) (a : Ipv4Addr) : bool :=
  bool_decide (a = our_ip cfg) || is_loopback a.

(** The first or last address of a subnet that has such addresses *)
Definition subnet_special (len : Z) (a : Ipv4Addr) : Prop :=
  len <= 30 /\ (ipv4_to_u32 a mod 2 ^ (32 - len) = 0 \/
                ipv4_to_u32 a mod 2 ^ (32 - len) = 2 ^ (32 - len) - 1).

(** * The order of the rules *)
Definition before (a b : FirewallRule) : Prop := rule_before a b = true.

Lemma rule_before_spec a b :
  before a b <-> priority b < priority a \/ (priority a = priority b /\ id a <= id b).
Proof.
  unfold before, rule_before. rewrite orb_true_iff, andb_true_iff, Z.ltb_lt, Z.eqb_eq, Z.leb_le. done.
Qed.

#[export] Instance before_trans : Transitive before.
Proof. intros a b c. rewrite !rule_before_spec. lia. Qed.

Lemma before_total a b : rule_before a b = false -> before b a.
Proof.
  intros H. assert (~ before a b) as Hn by (unfold before; congruence).
  rewrite rule_before_spec in *. lia.
Qed.

Lemma insert_rule_perm r l : insert_rule r l ≡ₚ r :: l.
Proof.
  induction l as [|x l IH]; cbn [insert_rule]; [done|]. destruct (rule_before r x); [done|].
  rewrite IH. apply Permutation_swap.
Qed.

Lemma insert_rule_sorted r l : StronglySorted before l -> StronglySorted before (insert_rule r l).
Proof.
  induction 1 as [|x l Hs IH Hx]; cbn [insert_rule]; [by repeat constructor|].
  destruct (rule_before r x) eqn:Hr.
  - constructor; [by constructor|]. constructor; [done|].
    eapply Forall_impl; [exact Hx|]. intros y Hy. by etrans.
  - constructor; [done|]. rewrite insert_rule_perm. constructor; [by apply before_total|done].
Qed.

Lemma sort_rules_sorted l : StronglySorted before (sort_rules l).
Proof. induction l as [|r l IH]; [constructor|]. by apply insert_rule_sorted. Qed.

(** * What a policy means

    The fields of a rule and the order of the rules, by the documentation of
    [FirewallRule] and not by the functions that compute them *)
Definition ipv4_value (a : Ipv4Addr) : Z := oct0 a * 2 ^ 24 + oct1 a * 2 ^ 16 + oct2 a * 2 ^ 8 + oct3 a.

(** The leading [prefix_len] bits agree. *)
Definition in_subnet (c : IpCidrMatch) (ip : Ipv4Addr) : Prop :=
  forall i, 32 - prefix_len c <= i < 32 -> Z.testbit (ipv4_value (cidr_addr c)) i = Z.testbit (ipv4_value ip) i.

Definition in_ports (r : PortRange) (port : option Z) : Prop :=
  exists n, port = Some n /\ port_start r <= n <= port_end r.

(** The mask has one bit for each state; an untracked packet meets the full mask. *)
Definition in_states (mask : Z) (state : option CtDecision) : Prop :=
  match state with
  | Some CtNew => Z.testbit mask 0 = true
  | Some CtEstablished => Z.testbit mask 1 = true
  | Some CtRelated => Z.testbit mask 2 = true
  | Some CtInvalid => Z.testbit mask 3 = true
  | None => mask = 15
  end.

(** Every field that a rule sets holds of the packet. *)
Record meets (r : FirewallRule) (p : FirewallPacket) : Prop := {
  me_src_ip : forall c, r_src_ip r = Some c -> in_subnet c (p_src_ip p);
  me_dst_ip : forall c, r_dst_ip r = Some c -> in_subnet c (p_dst_ip p);
  me_src_port : forall w, r_src_port r = Some w -> in_ports w (p_src_port p);
  me_dst_port : forall w, r_dst_port r = Some w -> in_ports w (p_dst_port p);
  me_proto : forall q, r_proto r = Some q -> q = p_proto p;
  me_state : in_states (r_ct_state r) (p_ct_state p);
}.

(** Higher priority first, then the lower identifier, then the place in the list *)
Definition outranks (r : FirewallRule) (i : nat) (r' : FirewallRule) (j : nat) : Prop :=
  priority r' < priority r \/
  (priority r = priority r' /\ (id r < id r' \/ (id r = id r' /\ (i <= j)%nat))).

Definition chosen (l : list FirewallRule) (p : FirewallPacket) (r : FirewallRule) : Prop :=
  exists i, l !! i = Some r /\ meets r p /\
    forall j r', l !! j = Some r' -> meets r' p -> outranks r i r' j.

(** What a policy answers a packet, [d] being its default *)
Definition decides (l : list FirewallRule) (d : FirewallAction) (p : FirewallPacket)
  (v : FirewallVerdict) : Prop :=
  (exists r, chosen l p r /\ v = mkVerdict (action r) (Some (id r)) (r_log r)) \/
  ((forall r, r ∈ l -> ~ meets r p) /\ v = mkVerdict d None false).

(** ** The fields *)
Lemma cidr_matches_meets c ip : cidr_matches c ip = true <-> in_subnet c ip.
Proof.
  unfold cidr_matches, in_subnet. assert (Hv : forall a, ipv4_to_u32 a = ipv4_value a) by (intros a; unfold ipv4_to_u32, ipv4_value; lia).
  rewrite !Hv. destruct (Z.eqb_spec (Z.min (prefix_len c) 32) 0) as [Hz|_]; [split; [intros _ i Hi; lia|done]|].
  rewrite Z.eqb_eq. split.
  - intros He i Hi. destruct (Z.lt_ge_cases i 0); [by rewrite !Z.testbit_neg_r|].
    apply (f_equal (fun x => Z.testbit x i)) in He. rewrite !Z.land_spec, u32_mask_bits in He by lia.
    destruct (Z.ltb_spec i 32); [|lia]. destruct (Z.leb_spec (32 - Z.min (prefix_len c) 32) i); [|lia].
    by rewrite !andb_true_r in He.
  - intros Hb. apply Z.bits_inj'. intros i Hi. rewrite !Z.land_spec, u32_mask_bits by lia.
    destruct (Z.ltb_spec i 32), (Z.leb_spec (32 - Z.min (prefix_len c) 32) i); cbn [andb]; rewrite ?andb_false_r; try done.
    rewrite Hb; [done|lia].
Qed.

Lemma match_field_ip_meets o ip : match_field_ip o ip = true <-> forall c, o = Some c -> in_subnet c ip.
Proof. destruct o as [c|]; cbn; [rewrite cidr_matches_meets|]; naive_solver. Qed.

Lemma match_field_port_meets o port : match_field_port o port = true <-> forall w, o = Some w -> in_ports w port.
Proof.
  unfold in_ports. destruct o as [w|], port as [n|]; cbn; unfold port_matches; rewrite ?andb_true_iff, ?Z.leb_le; naive_solver.
Qed.

Lemma match_field_proto_meets o q : match_field_proto o q = true <-> forall w, o = Some w -> w = q.
Proof. destruct o as [w|]; cbn; rewrite ?bool_decide_eq_true; naive_solver. Qed.

Lemma land_pow2 m n : 0 <= n -> negb (Z.land m (2 ^ n) =? 0) = Z.testbit m n.
Proof.
  intros Hn. destruct (Z.testbit m n) eqn:Ht; [apply negb_true_iff, Z.eqb_neq|apply negb_false_iff, Z.eqb_eq].
  - intros He. apply (f_equal (fun x => Z.testbit x n)) in He. rewrite Z.land_spec, Ht, Z.pow2_bits_true, Z.bits_0 in He by done. done.
  - apply Z.bits_inj'. intros i Hi. rewrite Z.land_spec, Z.bits_0. destruct (decide (n = i)) as [<-|]; [by rewrite Ht|].
    rewrite Z.pow2_bits_false by done. apply andb_false_r.
Qed.

Lemma ct_matches_meets m s : ct_matches m s = true <-> in_states m s.
Proof.
  destruct s as [[]|]; cbn [ct_matches bit_for_state in_states];
    [change CT_NEW with (2 ^ 0)|change CT_ESTABLISHED with (2 ^ 1)|change CT_RELATED with (2 ^ 2)|change CT_INVALID with (2 ^ 3)|apply Z.eqb_eq];
    by rewrite land_pow2.
Qed.

Lemma rule_matches_meets r p : rule_matches r p = true <-> meets r p.
Proof.
  unfold rule_matches. rewrite !andb_true_iff, !match_field_ip_meets, !match_field_port_meets, match_field_proto_meets, ct_matches_meets.
  split; [by intros [[[[[]]]]]|by intros []].
Qed.

Lemma rule_matches_unmet r p : rule_matches r p = false <-> ~ meets r p.
Proof. rewrite <- rule_matches_meets. by destruct (rule_matches r p). Qed.

(** ** First match

    The rule the loop stops at *)
Definition hit (l : list FirewallRule) (p : FirewallPacket) : option FirewallRule := (eval_rules l p 0).1.

Lemma eval_rules_hit l p n : (eval_rules l p n).1 = hit l p.
Proof.
  unfold hit. generalize 0. revert n. induction l as [|r l IH]; intros n m; [done|]. cbn [eval_rules].
  destruct (rule_matches r p); [done|apply IH].
Qed.

Lemma hit_cons r l p : hit (r :: l) p = if rule_matches r p then Some r else hit l p.
Proof. unfold hit. cbn [eval_rules]. destruct (rule_matches r p); [done|apply eval_rules_hit]. Qed.

Lemma hit_elem l p r : hit l p = Some r -> r ∈ l.
Proof.
  induction l as [|x l IH]; [done|]. rewrite hit_cons. destruct (rule_matches x p); [intros [= <-]; left|right; auto].
Qed.

Lemma hit_insert r l p :
  StronglySorted before l ->
  hit (insert_rule r l) p =
    if rule_matches r p then
      match hit l p with Some x => if rule_before r x then Some r else Some x | None => Some r end
    else hit l p.
Proof.
  induction 1 as [|x l Hs IH Hx]; cbn [insert_rule]; [by rewrite hit_cons|].
  destruct (rule_before r x) eqn:Hr; rewrite !hit_cons.
  - destruct (rule_matches r p); [|done]. destruct (rule_matches x p); [by rewrite Hr|].
    destruct (hit l p) as [y|] eqn:Hy; [|done]. assert (before r y) as ->; [|done].
    trans x; [done|]. eapply list.Forall_forall; [exact Hx|by eapply hit_elem].
  - destruct (rule_matches x p); [|done]. rewrite Hr. by destruct (rule_matches r p).
Qed.

Lemma hit_sorted l p :
  match hit (sort_rules l) p with
  | Some r => chosen l p r
  | None => forall r, r ∈ l -> ~ meets r p
  end.
Proof.
  induction l as [|r l IH]; [by inversion 1|].
  change (sort_rules (r :: l)) with (insert_rule r (sort_rules l)). rewrite hit_insert by apply sort_rules_sorted.
  destruct (rule_matches r p) eqn:Hm; [apply rule_matches_meets in Hm|apply rule_matches_unmet in Hm].
  - destruct (hit (sort_rules l) p) as [x|].
    + destruct IH as (i & Hi & Hx & Hb). pose proof (rule_before_spec r x) as Hs. unfold before in Hs. destruct (rule_before r x).
      * exists 0%nat. split_and!; try done. intros [|j] r' Hj Hr'; [injection Hj as <-; unfold outranks; lia|].
        specialize (Hb j r' Hj Hr'). unfold outranks in *. lia.
      * exists (S i). split_and!; try done. intros [|j] r' Hj Hr'; [injection Hj as <-|specialize (Hb j r' Hj Hr')]; unfold outranks in *.
        -- assert (~ (priority x < priority r \/ priority r = priority x /\ id r <= id x)) by (rewrite <- Hs; done). lia.
        -- lia.
    + exists 0%nat. split_and!; try done. intros [|j] r' Hj Hr'; [injection Hj as <-; unfold outranks; lia|].
      exfalso. eapply IH; [by eapply list_elem_of_lookup_2|done].
  - destruct (hit (sort_rules l) p) as [x|].
    + destruct IH as (i & Hi & Hx & Hb). exists (S i). split_and!; try done. intros [|j] r' Hj Hr'; [injection Hj as <-; done|].
      specialize (Hb j r' Hj Hr'). unfold outranks in *. lia.
    + intros r' [->|Hr']%list.elem_of_cons; auto.
Qed.

Lemma evaluate_decides t l p :
  rules t = sort_rules l ->
  decides l (default_action t) p (evaluate t p).1 /\
  rules (evaluate t p).2 = rules t /\ default_action (evaluate t p).2 = default_action t.
Proof.
  intros Hs. pose proof (hit_sorted l p) as He. unfold hit in He. rewrite <- Hs in He. unfold evaluate.
  destruct (eval_rules (rules t) p 0) as [[r|] n]; cbn [fst snd] in *; (split; [|done]); [left; by exists r|by right].
Qed.

(** * Policies of the namespaces *)
Inductive fw_op :=
| FwFilter (allocated : bool) (p : FirewallPacket)
| FwInstall (allocated : bool) (ns : Z) (l : list FirewallRule)
| FwRemove (ns : Z).

Inductive fw_result :=
| FwVerdict (v : option FirewallVerdict)
| FwInstalled (r : res FirewallError unit)
| FwRemoved.

Definition fw_step (o : fw_op) (ts : FirewallTables) : fw_result * FirewallTables :=
  match o with
  | FwFilter a p => let '(v, ts) := filter_packet a p ts in (FwVerdict v, ts)
  | FwInstall a ns l => let '(r, ts) := install_rules a ns l ts in (FwInstalled r, ts)
  | FwRemove ns => (FwRemoved, firewall_remove_ns ns ts)
  end.

(** The policy in force: the rules last installed in the namespace since it
    was created, the default rules before that. *)
Definition policy := Z -> list FirewallRule.

Definition policy_step (o : fw_op) (r : fw_result) (pol : policy) : policy :=
  match o, r with
  | FwInstall _ ns l, FwInstalled (Ok _) => fun n => if n =? ns then l else pol n
  | FwRemove ns, _ => fun n => if (n =? ns) && negb (ns =? 0) then default_rules else pol n
  | _, _ => pol
  end.

(** The tables and the policy after a history, from boot *)
Fixpoint fw_run (ops : list fw_op) (ts : FirewallTables) (pol : policy) : FirewallTables * policy :=
  match ops with
  | [] => (ts, pol)
  | o :: ops => let '(r, ts) := fw_step o ts in fw_run ops ts (policy_step o r pol)
  end.

Definition boot_policy : policy := fun _ => default_rules.

(** The table of a namespace carries its policy. *)
Definition carries_policy (t : FirewallTable) (l : list FirewallRule) : Prop :=
  rules t = sort_rules l /\ default_action t = Drop.

Definition enforces (ts : FirewallTables) (pol : policy) : Prop :=
  forall ns, match ts !! ns with
             | Some t => carries_policy t (pol ns)
             | None => pol ns = default_rules
             end.

Lemma enforces_insert ts pol ns t l pol' :
  enforces ts pol -> carries_policy t l ->
  (forall n, pol' n = if n =? ns then l else pol n) -> enforces (<[ns := t]> ts) pol'.
Proof.
  intros He Ht Hp n. rewrite Hp. destruct (Z.eqb_spec n ns) as [->|Hne].
  - by rewrite lookup_insert_eq.
  - rewrite lookup_insert_ne by done. apply He.
Qed.

Lemma new_table_policy l t : new_with_rules Drop l = Ok t -> carries_policy t l.
Proof.
  unfold new_with_rules, check_rule_count. destruct (_ <? _); [done|]. by intros [= <-].
Qed.

Lemma table_for_ns a ns ts pol t ts' :
  enforces ts pol -> try_firewall_table_for_ns a ns ts = (t, ts') ->
  enforces ts' pol /\
  match t with Some t => ts' !! ns = Some t /\ carries_policy t (pol ns) | None => a = false end.
Proof.
  intros He. unfold try_firewall_table_for_ns. pose proof (He ns) as Hns.
  destruct (ts !! ns) as [t0|] eqn:Ht; [by intros [= <- <-]|].
  destruct a; cbn [negb]; [|by intros [= <- <-]].
  destruct (new_with_rules Drop default_rules) as [t0| |] eqn:Hnew; try done.
  intros [= <- <-]. apply new_table_policy in Hnew. rewrite <- Hns in Hnew.
  split; [|by rewrite lookup_insert_eq]. eapply enforces_insert; [done|done|].
  intros n. by destruct (Z.eqb_spec n ns) as [->|].
Qed.

(** Filtering answers by the policy and leaves it in force. *)
Lemma filter_enforces a p ts pol v ts' :
  enforces ts pol -> filter_packet a p ts = (v, ts') ->
  enforces ts' pol /\
  match v with Some v => decides (pol (p_net_ns_id p)) Drop p v | None => a = false end.
Proof.
  intros He. unfold filter_packet.
  destruct (try_firewall_table_for_ns a (p_net_ns_id p) ts) as [[t|] ts1] eqn:Ht;
    apply (table_for_ns _ _ _ pol) in Ht; try done; destruct Ht as [He1 Ht]; [|by intros [= <- <-]].
  destruct Ht as [_ (Hs & Hd)]. destruct (evaluate_decides t _ p Hs) as (Hv & Hr & Hd').
  destruct (evaluate t p) as [v0 t'] eqn:Hev. cbn [fst snd] in *. intros [= <- <-]. split.
  - eapply (enforces_insert _ _ _ _ (pol (p_net_ns_id p))); [done| |].
    + split; congruence.
    + intros n. by destruct (Z.eqb_spec n (p_net_ns_id p)) as [->|].
  - by rewrite Hd in Hv.
Qed.

Lemma install_enforces a ns l ts pol r ts' :
  enforces ts pol -> install_rules a ns l ts = (r, ts') ->
  enforces ts' (policy_step (FwInstall a ns l) (FwInstalled r) pol).
Proof.
  intros He. unfold install_rules.
  destruct (try_firewall_table_for_ns a ns ts) as [[t|] ts1] eqn:Ht;
    apply (table_for_ns _ _ _ pol) in Ht; try done; destruct Ht as [He1 Ht]; [|by intros [= <- <-]].
  destruct Ht as [_ [_ Hd]]. unfold replace_rules, check_rule_count.
  destruct (_ <? _); cbn [res_bind]; intros [= <- <-]; [done|]. cbn [policy_step].
  by eapply enforces_insert.
Qed.

Lemma remove_enforces ns ts pol :
  enforces ts pol -> enforces (firewall_remove_ns ns ts) (policy_step (FwRemove ns) FwRemoved pol).
Proof.
  intros He n. unfold firewall_remove_ns. cbn [policy_step].
  destruct (Z.eqb_spec ns 0); cbn [negb]; [rewrite andb_false_r; apply He|]. rewrite andb_true_r.
  destruct (Z.eqb_spec n ns) as [->|].
  - by rewrite lookup_delete_eq.
  - rewrite lookup_delete_ne by done. apply He.
Qed.

Lemma fw_run_enforces ops ts pol :
  enforces ts pol -> enforces (fw_run ops ts pol).1 (fw_run ops ts pol).2.
Proof.
  revert ts pol. induction ops as [|o ops IH]; intros ts pol He; [done|]. cbn [fw_run].
  destruct (fw_step o ts) as [r ts'] eqn:Ho. apply IH. destruct o as [a p|a ns l|ns]; cbn [fw_step] in Ho.
  - destruct (filter_packet a p ts) as [v ts1] eqn:Hf. injection Ho as <- <-.
    by eapply filter_enforces in Hf as [? _].
  - destruct (install_rules a ns l ts) as [r1 ts1] eqn:Hi. injection Ho as <- <-.
    by eapply install_enforces in Hi.
  - injection Ho as <- <-. by apply remove_enforces.
Qed.

(** The default policy lets through only what belongs to a tracked flow. *)
Lemma default_policy_accepts p v :
  decides default_rules Drop p v ->
  v_action v = Accept <-> p_ct_state p = Some CtEstablished \/ p_ct_state p = Some CtRelated.
Proof.
  intros [(r & (i & Hi & Hm & _) & ->)|[Hn ->]]; cbn [v_action].
  - apply list_elem_of_lookup_2 in Hi. apply rule_matches_meets in Hm.
    unfold default_rules in Hi. rewrite !list.elem_of_cons, elem_of_nil in Hi.
    destruct Hi as [->|[->|[]]]; unfold rule_matches in Hm; cbn in Hm;
      destruct (p_ct_state p) as [[]|]; cbn in Hm; split; try done; auto; naive_solver.
  - split; [done|]. intros Hs. specialize (Hn (nth 1 default_rules (builder 0))).
    unfold default_rules in Hn. rewrite !list.elem_of_cons in Hn. cbn [nth] in Hn.
    specialize (Hn ltac:(tauto)). destruct Hn. apply rule_matches_meets. unfold rule_matches. cbn.
    destruct Hs as [Hs|Hs]; by rewrite Hs.
Qed.

(** The next hop by what the addresses are *)
Definition hop_spec (dst : Ipv4Addr) (cfg : NetConfigSnapshot) (h : NextHop) : Prop :=
  let len := subnet_prefix_len cfg in
  match h with
  | Local => never_unicast dst = false /\ own_address cfg dst = true
  | OnLink =>
      never_unicast dst = false /\ own_address cfg dst = false /\ 1 <= len <= 32 /\
      same_prefix len (our_ip cfg) dst /\ ~ subnet_special len dst
  | Gateway =>
      never_unicast dst = false /\ own_address cfg dst = false /\ 1 <= len <= 32 /\
      ~ same_prefix len (our_ip cfg) dst
  | Unroutable =>
      never_unicast dst = true \/
      (own_address cfg dst = false /\
       (~ 1 <= len <= 32 \/ (same_prefix len (our_ip cfg) dst /\ subnet_special len dst)))
  end.

Lemma next_hop_spec dst cfg :
  addr_ok dst -> addr_ok (our_ip cfg) -> 0 <= subnet_prefix_len cfg ->
  hop_spec dst cfg (next_hop dst cfg).
Proof.
  intros Hd Ho Hp. unfold next_hop. fold (never_unicast dst) (own_address cfg dst).
  destruct (never_unicast dst) eqn:Hn; [by left|]. destruct (own_address cfg dst) eqn:Hown; [done|].
  destruct (Z.eqb_spec (subnet_prefix_len cfg) 0); [right; split; [done|left; lia]|].
  destruct (Z.ltb_spec 32 (subnet_prefix_len cfg)); [right; split; [done|left; lia]|].
  cbn [orb]. set (len := subnet_prefix_len cfg) in *.
  pose proof (lxor_masked (ipv4_to_u32 (our_ip cfg)) (ipv4_to_u32 dst) (u32_mask (32 - len))) as Hx.
  rewrite masked_eq in Hx by (done || lia).
  destruct (Z.eqb_spec (Z.land (Z.lxor (ipv4_to_u32 (our_ip cfg)) (ipv4_to_u32 dst))
              (u32_mask (32 - len))) 0); cbn [negb];
    [|unfold hop_spec; fold len; split_and!; try done; try lia; tauto].
  rewrite u32_not_mask, Z.land_ones, Z.ones_equiv by lia.
  rewrite <- Z.sub_1_r. destruct (Z.leb_spec len 30); cycle 1.
  { unfold hop_spec, subnet_special. fold len. split_and!; try done; try lia; tauto. }
  destruct (Z.eqb_spec (ipv4_to_u32 dst mod 2 ^ (32 - len)) 0),
    (Z.eqb_spec (ipv4_to_u32 dst mod 2 ^ (32 - len)) (2 ^ (32 - len) - 1)); cbn [orb];
    unfold hop_spec, subnet_special; fold len; try (right; split; [done|right; tauto]).
  split_and!; try done; try lia; tauto.
Qed.

(** The cases exclude one another. *)
Lemma hop_spec_unique dst cfg h h' : hop_spec dst cfg h -> hop_spec dst cfg h' -> h = h'.
Proof. destruct h, h'; unfold hop_spec; try done; intuition congruence. Qed.
