(* ===== verification/NetCorrect.v ===== *)
(** The network's guarantees: what the parsers accept, that built packets
    parse back, what checksums detect, the echo reply, the response limiter
    under any interleaving, the packet filter's policies and the next hop. *)

From Stdlib Require Import ZArith Lia.
From stdpp Require Import base list list_numbers numbers gmap sorting.
From S2P Require Import Prelude Machine Wire WireFacts NetFacts TokenBucket TokenBucketFacts.
From S2P Require Import Firewall FirewallFacts.

(** * Parsing *)

(** IPv4 parsing is total, and accepts exactly the valid packets: version
    4, lengths that nest, a header whose words sum to a multiple of 65535, a
    live TTL, a source that may appear on the wire, and no source route among
    the options. What it returns then are the packet's own fields, options and
    payload: the three parts, with any padding, make up the packet. *)
Theorem parse_ipv4_correct (packet : list Z) :
  bytes_ok packet ->
  parse_ipv4 packet <> Panic /\
  ((exists r, parse_ipv4 packet = Ok r) <-> ipv4_valid packet) /\
  forall h options payload, parse_ipv4 packet = Ok (h, options, payload) ->
    h = parsed_header packet /\
    (exists fixed pad, packet = fixed ++ options ++ payload ++ pad /\ zlen fixed = 20) /\
    header_len h = 20 + zlen options /\ Wire.payload_len h = zlen payload /\
    options_len h = zlen options.
Proof.
  intros Hp. destruct (parse_ipv4_spec packet Hp) as [[Hv ->]|[Hv [e ->]]]; cycle 1.
  { split; [done|]. split; [|done]. split; [by intros [? ?]|done]. }
  split; [done|]. split; [split; eauto|]. intros h o pl [= <- <- <-]. split; [done|].
  destruct Hv as [? _ Hh Ht _ _ _ _].
  assert (zlen (hdr_options packet) = hdr_len packet - 20) as Ho
    by (unfold hdr_options, zlen in *; rewrite length_take, length_drop; lia).
  assert (zlen (parsed_payload packet) = word packet 2 - hdr_len packet) as Hpl
    by (unfold parsed_payload, zlen in *; rewrite length_take, length_drop; lia).
  split; cycle 1.
  { change (header_len (parsed_header packet)) with (hdr_len packet).
    change (Wire.payload_len (parsed_header packet)) with (saturating_sub (word packet 2) (hdr_len packet)).
    change (options_len (parsed_header packet)) with (hdr_len packet - 20).
    unfold saturating_sub. lia. }
  exists (take 20 packet), (drop (Z.to_nat (word packet 2)) packet).
  split; [|unfold zlen in *; rewrite length_take; lia].
  rewrite <- (take_drop 20 packet) at 1. f_equal.
  rewrite <- (take_drop (Z.to_nat (hdr_len packet - 20)) (drop 20 packet)) at 1. f_equal.
  rewrite drop_drop. replace (20 + _)%nat with (Z.to_nat (hdr_len packet)) by lia.
  rewrite <- (take_drop (Z.to_nat (word packet 2 - hdr_len packet)) (drop _ packet)) at 1. f_equal.
  rewrite drop_drop. f_equal. lia.
Qed.

(** A list of literal bytes *)
Ltac small_bytes := repeat (constructor; [split; [discriminate|reflexivity]|]); constructor.

Definition sample_src : Ipv4Addr := mkAddr 10 0 2 15.
Definition sample_dst : Ipv4Addr := mkAddr 10 0 2 2.

Lemma parse_ipv4_witness :
  exists h, parse_ipv4 (build_ipv4_header sample_src sample_dst Udp 3 64 ++ [1; 2; 3; 0; 0]) = Ok (h, [], [1; 2; 3]) /\
    zlen [1; 2; 3] = Wire.payload_len h.
Proof.
  eexists. split; [vm_compute; reflexivity|].
  symmetry. eapply (parse_ipv4_correct (build_ipv4_header sample_src sample_dst Udp 3 64 ++ [1; 2; 3; 0; 0]));
    [|vm_compute; reflexivity].
  vm_compute. small_bytes.
Defined.

(** * Built packets parse back *)

(** C14 A UDP payload sent through the stack comes out of it: with the heap
    admitting both buffers, building the datagram, its IPv4 header and the
    Ethernet frame succeeds, and parsing the frame (with whatever padding the
    link adds) layer by layer accepts at each and returns the addresses, ports
    and payload that went in, all checksums verifying. *)
Theorem udp_frame_roundtrip `{heap : WireHeap} (our_mac dst_mac : EthAddr) (our_ip dst_ip : Ipv4Addr)
  (sp dp : Z) (payload pad : list Z) :
  addr_ok our_ip -> addr_ok dst_ip -> is_valid_source our_ip = true -> is_u16 sp -> is_u16 dp ->
  bytes_ok payload -> bytes_ok pad -> zlen payload <= UDP_MAX_PAYLOAD ->
  wire_admitted (88 + zlen payload) = true -> wire_admitted (122 + zlen payload) = true ->
  exists datagram frame ih uh packet segment,
    build_udp_datagram our_ip dst_ip sp dp payload = Ok datagram /\
    build_ipv4_frame our_mac dst_mac our_ip dst_ip Udp (as_slice datagram) = Ok frame /\
    parse_ethernet (as_slice frame ++ pad) = Ok (mkEth dst_mac our_mac ETHERTYPE_IPV4, packet) /\
    parse_ipv4 packet = Ok (ih, [], segment) /\
    ip_src ih = our_ip /\ ip_dst ih = dst_ip /\ from_raw (protocol ih) = Some Udp /\
    is_fragment ih = false /\
    parse_udp segment our_ip dst_ip = Ok (uh, payload) /\ src_port uh = sp /\ dst_port uh = dp.
Proof.
  intros Ho Hd Hv Hsp Hdp Hp Hpad Hl Ha1 Ha2. pose proof (zlen_nonneg payload). unfold UDP_MAX_PAYLOAD in *.
  destruct (build_udp_inv our_ip dst_ip sp dp payload)
    as (w & c & Hw & Hs & _ & _ & Hc & Hc0 & Hver); try done.
  rewrite Hs in Hver. set (d := plain_udp _ _ _ _ payload) in *.
  assert (zlen d = 8 + zlen payload) as Hdl by apply zlen_plain_udp.
  assert (bytes_ok d) as Hdb by (apply plain_udp_ok; done).
  set (hdr := build_ipv4_header our_ip dst_ip Udp (zlen d) 64).
  assert (zlen hdr = 20) as Hh.
  { destruct (build_ipv4_header_inv our_ip dst_ip Udp (zlen d) 64) as (? & ? & Heq & _);
      [done|done|lia|done|]. unfold hdr. by rewrite Heq. }
  destruct (build_frame_inv dst_mac our_mac ETHERTYPE_IPV4 [hdr; d]) as (f & Hf & _ & Hfs).
  { cbn [concat]. rewrite app_nil_r, zlen_app. unfold usize_max, u64_max. lia. }
  { cbn [concat]. rewrite app_nil_r, zlen_app, Hh, Hdl. rewrite <- Ha2. f_equal. lia. }
  destruct (parse_built_ipv4 our_ip dst_ip Udp 64 d pad) as [ck Hip]; try done; [lia|].
  exists w, f. do 2 eexists. exists (hdr ++ d ++ pad), d.
  split; [done|]. split.
  { rewrite Hs. unfold build_ipv4_frame. rewrite Z.mod_small by lia. exact Hf. }
  split.
  { rewrite Hfs. cbn [concat]. rewrite app_nil_r, <- !app_assoc. apply parse_eth_bytes. }
  split; [exact Hip|]. do 4 (split; [done|]). rewrite <- (app_nil_r d).
  assert (is_broadcast our_ip = false /\ is_multicast our_ip = false) as [Hb Hm].
  { unfold is_valid_source in Hv. by destruct (is_broadcast our_ip), (is_multicast our_ip). }
  split; [by apply parse_plain_udp|done].
Qed.

Definition roomy : WireHeap := {| wire_admitted := fun _ => true |}.
Definition sample_mac : EthAddr := mkMac 82 84 0 18 52 86.

Lemma udp_frame_witness :
  exists datagram frame,
    @build_udp_datagram roomy sample_src sample_dst 5353 53 [104; 105; 33] = Ok datagram /\
    @build_ipv4_frame roomy sample_mac sample_mac sample_src sample_dst Udp (as_slice datagram) = Ok frame.
Proof.
  destruct (@udp_frame_roundtrip roomy sample_mac sample_mac sample_src sample_dst 5353 53 [104; 105; 33] [0; 0]
    ltac:(small_bytes) ltac:(small_bytes) eq_refl ltac:(unfold is_u16; lia) ltac:(unfold is_u16; lia)
    ltac:(small_bytes) ltac:(small_bytes) ltac:(vm_compute; discriminate) eq_refl eq_refl)
    as (w & f & ? & ? & ? & ? & Hw & Hf & _).
  exists w, f. split; [exact Hw|exact Hf].
Defined.

(** * Checksums *)

(** No single corrupted byte passes: a header, ICMP message or UDP
    datagram that verifies no longer does after any one of its bytes is
    replaced by a different one. *)
Theorem checksum_detects (l : list Z) (src dst : Ipv4Addr) (i : nat) (x y : Z) :
  bytes_ok l -> zlen l <= 65536 -> addr_ok src -> addr_ok dst ->
  l !! i = Some x -> is_byte y -> y <> x ->
  (compute_checksum l (zlen l) = 0 -> compute_checksum (<[i := y]> l) (zlen l) <> 0) /\
  (verify_udp_checksum src dst l = true -> verify_udp_checksum src dst (<[i := y]> l) = false).
Proof.
  intros Hl Hlen Hs Hd Hx Hy Hne.
  assert (bytes_ok (<[i := y]> l)) as Hl' by (by apply Forall_insert).
  assert (zlen (<[i := y]> l) = zlen l) as Hz by (unfold zlen; by rewrite length_insert).
  pose proof (wsum_small l Hl Hlen). pose proof (wsum_small _ Hl' ltac:(by rewrite Hz)).
  pose proof (addr_sum_range src Hs). pose proof (addr_sum_range dst Hd). pose proof (zlen_nonneg l).
  assert (is_byte x) as Hxb by (by eapply Forall_lookup_1 in Hl).
  assert (wsum (<[i := y]> l) = wsum l + (y - x) * weight i) as Hw by (by apply wsum_insert).
  assert (forall s, s mod 65535 = 0 -> (s + (y - x) * weight i) mod 65535 <> 0) as Hmod.
  { intros s. unfold weight, is_byte in *. destruct (Nat.even i);
      Z.to_euclidean_division_equations; lia. }
  split.
  - rewrite !compute_checksum_exact by (rewrite ?Hz; done || lia).
    rewrite !finish_sum_zero, Hw by lia. intros [_ Hok] [_ Hok']. by apply (Hmod (wsum l)).
  - unfold verify_udp_checksum. rewrite !udp_checksum_exact by (rewrite ?Hz; done).
    rewrite Z.eqb_eq, Z.eqb_neq, !finish_sum_zero, Hz, Hw by lia. intros [_ Hok] [_ Hok'].
    apply (Hmod _ Hok). by rewrite <- Z.add_assoc.
Qed.

Lemma checksum_detects_witness :
  compute_checksum [69; 0; 186; 255] 4 = 0 /\ compute_checksum [69; 1; 186; 255] 4 <> 0.
Proof.
  split; [reflexivity|].
  apply (checksum_detects [69; 0; 186; 255] sample_src sample_dst 1 0 1); try reflexivity;
    try small_bytes; vm_compute; try split; discriminate || reflexivity.
Defined.

(** * Echo replies *)

(** A ping is answered exactly when it is a well-formed echo request of
    code 0 within the size limit and the heap admits the copy: otherwise the
    result is an error, never an abort. The reply parses, with a checksum that
    verifies, as an echo reply with the request's identifier, sequence number
    and payload. *)
Theorem echo_reply_correct `{heap : WireHeap} (request : list Z) :
  bytes_ok request -> wire_admitted (80 + zlen request) = true ->
  ((exists w, build_echo_reply request = Ok w) <-> echo_request_ok request) /\
  build_echo_reply request <> Panic /\
  forall w, build_echo_reply request = Ok w ->
    exists ck, parse_icmp (as_slice w) =
      Ok (mkIcmp ICMP_TYPE_ECHO_REPLY 0 ck (rest_of_header (icmp_parsed request).1), (icmp_parsed request).2).
Proof.
  intros Hb Ha. destruct (build_echo_reply_spec request Ha) as [[Hr (w & -> & Hw)]|[Hr [e ->]]]; cycle 1.
  { split; [split; [by intros []|done]|done]. }
  split; [split; eauto|]. split; [done|]. intros w' [= <-]. rewrite Hw.
  destruct Hr as (Hv & _ & Hcode & Hlen). unfold ICMP_HEADER_LEN, ICMP_MAX_ECHO_PAYLOAD in Hlen.
  pose proof (im_length _ Hv).
  eexists. destruct (parse_icmp_spec (echo_reply_bytes request)) as [[_ ->]|[[] _]];
    [|apply echo_reply_valid; [done|lia]].
  f_equal. apply echo_reply_parsed; [done|done|reflexivity].
Qed.

Lemma echo_reply_witness :
  exists w, @build_echo_reply roomy [8; 0; 247; 253; 0; 1; 0; 1] = Ok w.
Proof.
  apply (@echo_reply_correct roomy [8; 0; 247; 253; 0; 1; 0; 1]); [small_bytes|reflexivity|].
  split; [split; vm_compute; reflexivity || discriminate|].
  split; [reflexivity|]. split; [reflexivity|]. vm_compute. discriminate.
Defined.

(** * The response limiter *)

(** C15 Whatever way the processors interleave their accesses, the limiter
    behaves as if each call were one transaction, made one after the other, a
    busy caller being turned away. The transactions are calls that were made, they
    explain the answers given so far, and once no transaction is under way they
    explain all of them and the memory. Hence the bound it is there for, however
    long the limiter has been running and idle: of the calls made between any [t0]
    and [t1], it grants at most the burst, the rate times the interval and the part
    of a token that was earned before, once more for each reset. *)
Theorem limiter_correct (rate burst t0 t1 : Z) (s : system) :
  0 <= rate -> 0 <= burst -> t0 <= t1 -> reachable (bucket_new rate burst) s ->
  (exists ops, let '(outs, b) := perform_all ops (bucket_new rate burst) in
     omap finished (callers s) ⊆+ outs /\ outs.*1 ⊆+ (callers s).*1 /\
     (update_in_progress (mem s) = false ->
      bucket (mem s) = b /\ outs ≡ₚ omap finished (callers s))) /\
  1000 * grants t0 t1 (omap finished (callers s)) <=
    (resets (callers s).*1 + 1) * (1000 * (burst + 1) + rate * (t1 - t0)).
Proof.
  intros Hr Hb Ht Hs. destruct (reachable_linear _ _ Hs) as [ops HL].
  destruct (perform_all ops (bucket_new rate burst)) as [outs b] eqn:Hops.
  destruct (linear_answers _ _ _ _ _ HL Hops) as [Hans Hcalls]. split.
  - exists ops. rewrite Hops. split_and!; try done. intros Hg. unfold linear in HL. rewrite Hops, Hg in HL.
    by destruct HL as (? & _ & ?).
  - pose proof (perform_all_bound t0 t1 burst rate Ht Hr Hb ops outs b Hops) as Hbound.
    pose proof (allowance_nonneg t0 t1 burst rate Ht Hr Hb) as Ha. unfold allowance in *.
    pose proof (sumZ_submseteq (in_window t0 t1) _ _ (in_window_nonneg t0 t1) Hans) as Hg.
    pose proof (sumZ_submseteq (fun c => if c is CallReset then 1 else 0) _ _ ltac:(intros []; lia) Hcalls) as Hre.
    unfold grants, resets in *.
    pose proof (Z.mul_le_mono_nonneg_r _ _ (1000 * (burst + 1) + rate * (t1 - t0)) Ha Hre). lia.
Qed.

(** A call before the window and two in it, the last arriving while the other is
    inside *)
Definition limiter_calls : list (call * pc) :=
  [(CallAllow 9, PcDone (Some false)); (CallAllow 7, PcLoadLast 7); (CallReset, PcResetEnter)].

Lemma limiter_witness :
  exists s, reachable (bucket_new 10 1) s /\ callers s = limiter_calls /\
    1000 * grants 8 9 (omap finished (callers s)) <= (resets (callers s).*1 + 1) * (1000 * (1 + 1) + 10 * (9 - 8)).
Proof.
  pose (b := bucket_new 10 1).
  assert (reachable b (mkSys (mkMem b true) limiter_calls)) as H.
  { eapply reach_step; [|apply (step_access (mkSys (mkMem b true)
      [(CallAllow 9, PcEnter 9); (CallAllow 7, PcLoadLast 7); (CallReset, PcResetEnter)]) 0 false (CallAllow 9) (PcEnter 9)); reflexivity].
    eapply reach_step; [|apply (step_call (mkSys (mkMem b true) [(CallAllow 7, PcLoadLast 7); (CallReset, PcResetEnter)]) (CallAllow 9))].
    eapply reach_step; [|apply (step_access (mkSys (mkMem b false)
      [(CallAllow 7, PcEnter 7); (CallReset, PcResetEnter)]) 0 false (CallAllow 7) (PcEnter 7)); reflexivity].
    eapply reach_step; [|apply (step_call (mkSys (mkMem b false) [(CallReset, PcResetEnter)]) (CallAllow 7))].
    eapply reach_step; [|apply (step_call (mkSys (mkMem b false) []) CallReset)].
    apply reach_init. }
  eexists. split; [exact H|]. split; [reflexivity|].
  apply (limiter_correct 10 1 8 9 _); [lia..|exact H].
Defined.

(** * The packet filter *)

(** C16 Whatever was filtered, installed and removed before, in whatever
    namespaces, a packet is judged by the policy of its own namespace alone:
    the rules last installed there since it was created, the default rules
    otherwise. The verdict is that of the matching rule of highest priority,
    lowest identifier first, and a drop when none matches; only a namespace
    with no table yet whose allocation fails gives none (the packet is
    dropped). A namespace still on the default rules accepts just the packets
    of established and related flows. *)
Theorem firewall_enforces_policy (ops : list fw_op) (allocated : bool) (p : FirewallPacket)
  (ts ts' : FirewallTables) (pol : policy) (v : option FirewallVerdict) :
  fw_run ops ∅ boot_policy = (ts, pol) -> filter_packet allocated p ts = (v, ts') ->
  match v with
  | None => allocated = false
  | Some v =>
      decides (pol (p_net_ns_id p)) Drop p v /\
      (pol (p_net_ns_id p) = default_rules ->
       v_action v = Accept <-> p_ct_state p = Some CtEstablished \/ p_ct_state p = Some CtRelated)
  end.
Proof.
  intros Hrun Hf. assert (enforces ts pol) as He.
  { pose proof (fw_run_enforces ops ∅ boot_policy) as H. rewrite Hrun in H. apply H.
    intros ns. by rewrite lookup_empty. }
  destruct (filter_enforces _ _ _ _ _ _ He Hf) as [_ Hv]. destruct v as [v|]; [|done].
  split; [done|]. intros Hd. rewrite Hd in Hv. by apply default_policy_accepts.
Qed.

Definition sample_packet (ns : Z) : FirewallPacket :=
  mkPacket ns sample_dst sample_src Tcp (Some 40000) (Some 22) (Some CtNew).
Definition open_rule : FirewallRule := with_action Accept (with_priority 5 (builder 7)).

Lemma firewall_witness :
  decides [open_rule] Drop (sample_packet 3) (mkVerdict Accept (Some 7) false).
Proof.
  pose (r := fw_run [FwInstall true 3 [open_rule]; FwFilter true (sample_packet 4)] ∅ boot_policy).
  apply (firewall_enforces_policy [FwInstall true 3 [open_rule]; FwFilter true (sample_packet 4)] true
    (sample_packet 3) r.1 (filter_packet true (sample_packet 3) r.1).2 r.2
    (Some (mkVerdict Accept (Some 7) false))); reflexivity.
Defined.

(** * The next hop *)

(** The next hop depends on the addresses as it should: a destination that
    can never be unicast, or that is the network or broadcast address of the
    namespace's own subnet, is unroutable; one of the namespace's own addresses
    is local; one that shares its prefix is on the link; any other goes to the
    gateway, and a malformed prefix routes nothing. The four are exclusive, so
    nothing special ever leaves by the gateway. *)
Theorem next_hop_correct (dst : Ipv4Addr) (cfg : NetConfigSnapshot) (h : NextHop) :
  addr_ok dst -> addr_ok (our_ip cfg) -> 0 <= subnet_prefix_len cfg ->
  next_hop dst cfg = h <-> hop_spec dst cfg h.
Proof.
  intros Hd Ho Hp. pose proof (next_hop_spec dst cfg Hd Ho Hp) as Hs.
  split; [by intros <-|]. intros Hh. by eapply hop_spec_unique.
Qed.

Lemma next_hop_witness :
  hop_spec (mkAddr 8 8 8 8) (mkConfig sample_src sample_mac sample_dst sample_mac 24) Gateway.
Proof.
  apply (next_hop_correct (mkAddr 8 8 8 8) (mkConfig sample_src sample_mac sample_dst sample_mac 24));
    [small_bytes|small_bytes|vm_compute; discriminate|reflexivity].
Defined.
