(* ===== verification/Frag.v ===== *)
(** Reassembly of one IPv4 datagram (src/kernel/net/src/fragment.rs): the rate
    limiter, the list of holes, insertion of a fragment and the final copy. *)

From Stdlib Require Import ZArith Lia.
From stdpp Require Import base list list_numbers numbers.
From S2P Require Import Prelude Machine OrdMap Wire.

Definition FRAG_TIMEOUT_MS : Z := 30000.
Definition MAX_PACKET_SIZE : Z := 65535.
Definition MAX_FRAGS_PER_QUEUE : Z := 64.
Definition MAX_BYTES_PER_QUEUE : Z := 512 * 1024.
Definition MIN_L4_HEADER_BYTES : Z := 8.
Definition RATE_LIMIT_TOKENS : Z := 128.
Definition RATE_LIMIT_WINDOW_MS : Z := 1000.
Definition u16_max : Z := 65535.

Inductive FragmentDropReason :=
| RateLimited | TooLarge | QueueFragLimit | QueueByteLimit | FirstTooSmall | Overlap | GlobalQueueLimit
| GlobalFragLimit | GlobalByteLimit | PerSourceLimit | FragTimeout | ZeroLength | DuplicateFragment
| PerNsQueueLimit | PerNsFragLimit | PerNsByteLimit.

#[export] Instance FragmentDropReason_eq_dec : EqDecision FragmentDropReason.
Proof. solve_decision. Defined.

(** * Rate limiter *)
Record RateLimiter := mkRate { rl_tokens : Z; rl_last_refill_ms : Z }.

Definition rate_new (now_ms : Z) : RateLimiter := mkRate RATE_LIMIT_TOKENS now_ms.

(** [Panic]: the product of the elapsed time and the rate leaves [u64] *)
Definition rate_allow (cost now_ms : Z) (r : RateLimiter) : res FragmentDropReason (bool * RateLimiter) :=
  let elapsed := saturating_sub now_ms (rl_last_refill_ms r) in
  if u64_max <? elapsed * RATE_LIMIT_TOKENS then Panic else
  let refill := wrap32 (elapsed * RATE_LIMIT_TOKENS / RATE_LIMIT_WINDOW_MS) in
  let tokens := Z.min (Z.min (rl_tokens r + refill) (2 ^ 32 - 1)) RATE_LIMIT_TOKENS in
  if cost <=? tokens then Ok (true, mkRate (tokens - cost) now_ms) else Ok (false, mkRate tokens now_ms).

(** * The queue *)
Record FragmentHole := mkHole { h_start : Z; h_end : Z }.

Record FragmentQueue := mkQueue {
  created_ms : Z; expires_at_ms : Z; q_total_len : option Z; received_frags : Z; received_bytes : Z;
  holes : list FragmentHole; frags : OrdMap Z (list Z);
  have_first : bool; have_last : bool; l4_header_ok : bool; rate_limiter : RateLimiter;
}.

Definition queue_new (alloc_ok : bool) (now_ms : Z) : res FragmentDropReason FragmentQueue :=
  if negb alloc_ok then Err QueueByteLimit else
  Ok (mkQueue now_ms (saturating_add now_ms FRAG_TIMEOUT_MS) None 0 0 [mkHole 0 u16_max] map_new
        false false false (rate_new now_ms)).

Definition is_expired (q : FragmentQueue) (now_ms : Z) : bool := expires_at_ms q <=? now_ms.

Definition is_complete (q : FragmentQueue) : bool :=
  have_first q && have_last q && l4_header_ok q && (zlen (holes q) =? 0).

Definition with_rate (q : FragmentQueue) (r : RateLimiter) : FragmentQueue :=
  mkQueue (created_ms q) (expires_at_ms q) (q_total_len q) (received_frags q) (received_bytes q) (holes q) (frags q)
    (have_first q) (have_last q) (l4_header_ok q) r.

(** ** Insertion *)

(** What the allocator answers during an insertion: the spare entries of the new
    hole list, the copy of the payload, the spare entries of the fragment map *)
Record FragAllocs := mkFragAllocs { f_holes : option Z; f_copy : bool; f_map : option Z }.

(** No stored fragment may end past the last one. *)
Fixpoint check_stored (frag_end : Z) (l : list (Z * list Z)) : res FragmentDropReason unit :=
  match l with
  | [] => Ok tt
  | (off, data) :: l =>
      if u16_max <? zlen data then Err TooLarge else
      if u16_max <? off + zlen data then Err TooLarge else
      if frag_end <? off + zlen data then Err Overlap else check_stored frag_end l
  end.

(** RFC 5722: the neighbours of the fragment *)
Definition check_prev (frag_start : Z) (m : OrdMap Z (list Z)) : res FragmentDropReason unit :=
  match list.last (range m Unbounded (Included frag_start)) with
  | Some (off, data) =>
      if u16_max <? zlen data then Err TooLarge else
      if u16_max <? off + zlen data then Err TooLarge else
      if frag_start <? off + zlen data then Err Overlap else Ok tt
  | None => Ok tt
  end.
Definition check_next (frag_start frag_end : Z) (m : OrdMap Z (list Z)) : res FragmentDropReason unit :=
  match list.head (range m (Included frag_start) Unbounded) with
  | Some (off, _) => if off <? frag_end then Err Overlap else Ok tt
  | None => Ok tt
  end.

(** [push_reserved] on the new hole list *)
Definition push_hole (cap : Z) (l : list FragmentHole) (h : FragmentHole) : res FragmentDropReason (list FragmentHole) :=
  if zlen l =? cap then Err QueueByteLimit else Ok (l ++ [h]).

(** RFC 815: the holes that remain, and whether the fragment fills part of one *)
Fixpoint hole_loop (cap frag_start frag_end max_end : Z) (l acc : list FragmentHole) (covered : bool)
  : res FragmentDropReason (list FragmentHole * bool) :=
  match l with
  | [] => Ok (acc, covered)
  | h :: l =>
      if max_end <=? h_start h then hole_loop cap frag_start frag_end max_end l acc covered else
      let hole_end := Z.min (h_end h) max_end in
      if (frag_end <=? h_start h) || (hole_end <=? frag_start) then
        let? acc := push_hole cap acc (mkHole (h_start h) hole_end) in
        hole_loop cap frag_start frag_end max_end l acc covered
      else if (frag_start <? h_start h) || (hole_end <? frag_end) then Err Overlap else
      let? acc := if h_start h <? frag_start then push_hole cap acc (mkHole (h_start h) frag_start) else Ok acc in
      let? acc := if frag_end <? hole_end then push_hole cap acc (mkHole frag_end hole_end) else Ok acc in
      hole_loop cap frag_start frag_end max_end l acc true
  end.

(** [sort_by_key(|h| h.start)], stable *)
Fixpoint insert_hole (h : FragmentHole) (l : list FragmentHole) : list FragmentHole :=
  match l with
  | [] => [h]
  | x :: l => if h_start h <=? h_start x then h :: x :: l else x :: insert_hole h l
  end.
Definition sort_holes (l : list FragmentHole) : list FragmentHole := foldr insert_hole [] l.

(** [insert] after the rate limiter; on an error the queue is as it was. *)
Definition insert_checked (al : FragAllocs) (offset : Z) (more_fragments : bool) (data : list Z) (q : FragmentQueue)
  : res FragmentDropReason FragmentQueue :=
  let len := zlen data in
  if len =? 0 then Err ZeroLength else
  if MAX_FRAGS_PER_QUEUE <=? received_frags q then Err QueueFragLimit else
  if MAX_BYTES_PER_QUEUE <? saturating_add (received_bytes q) len then Err QueueByteLimit else
  let frag_end := offset + len in
  if u16_max <? frag_end then Err TooLarge else
  if MAX_PACKET_SIZE <? frag_end then Err TooLarge else
  let is_first := offset =? 0 in
  if is_first && (len <? MIN_L4_HEADER_BYTES) then Err FirstTooSmall else
  let is_last := negb more_fragments in
  let? _ := if is_last then check_stored frag_end (entries (frags q)) else Ok tt in
  let max_end := if is_last then frag_end else default u16_max (q_total_len q) in
  let? _ := check_prev offset (frags q) in
  let? _ := check_next offset frag_end (frags q) in
  let? spare := ok_or (f_holes al) QueueByteLimit in
  let cap := zlen (holes q) + 1 + Z.max spare 0 in
  let? new_holes := hole_loop cap offset frag_end max_end (holes q) [] false in
  if negb new_holes.2 then Err DuplicateFragment else
  if negb (f_copy al) then Err QueueByteLimit else
  let? stored := ok_or (try_insert (f_map al) offset data (frags q)) QueueByteLimit in
  Ok (mkQueue (created_ms q) (expires_at_ms q) (if is_last then Some frag_end else q_total_len q)
        (received_frags q + 1) (received_bytes q + len) (sort_holes new_holes.1) stored.2
        (have_first q || is_first) (have_last q || is_last) (l4_header_ok q || is_first) (rate_limiter q)).

(** [insert]: complete or not, or dropped; the limiter moves in every case. *)
Inductive InsertResult := Inserted (complete : bool) | Dropped (reason : FragmentDropReason).

Definition insert (al : FragAllocs) (offset : Z) (more_fragments : bool) (data : list Z) (now_ms : Z) (q : FragmentQueue)
  : res FragmentDropReason (InsertResult * FragmentQueue) :=
  if u16_max <? zlen data then Ok (Dropped TooLarge, q) else
  let? rate := rate_allow 1 now_ms (rate_limiter q) in
  let q := with_rate q rate.2 in
  if negb rate.1 then Ok (Dropped RateLimited, q) else
  match insert_checked al offset more_fragments data q with
  | Ok q' => Ok (Inserted (is_complete q'), q')
  | Err reason => Ok (Dropped reason, q)
  | Panic => Panic
  end.

(** ** Reassembly *)

(** [buf[start..end].copy_from_slice(frag)] *)
Definition write_at (buf : list Z) (start : Z) (frag : list Z) : list Z :=
  take (Z.to_nat start) buf ++ frag ++ drop (Z.to_nat (start + zlen frag)) buf.

Fixpoint copy_frags (total : Z) (l : list (Z * list Z)) (buf : list Z) : option (list Z) :=
  match l with
  | [] => Some buf
  | (off, frag) :: l => if total <? off + zlen frag then None else copy_frags total l (write_at buf off frag)
  end.

Definition reassemble `{heap : WireHeap} (q : FragmentQueue) : option (list Z) :=
  if negb (is_complete q) then None else
  total ← q_total_len q;
  if MAX_PACKET_SIZE <? total then None else
  match try_zeroed total with
  | Ok buf => copy_frags total (entries (frags q)) (as_slice buf)
  | _ => None
  end.
