(* ===== verification/FragFacts.v ===== *)
(** Lemmas on the reassembly queue of [Frag]: holes and fragments split the
    datagram, and a complete queue copies out every fragment at its place. *)

From Stdlib Require Import ZArith Lia Sorted.
From stdpp Require Import base list list_numbers numbers sorting.
From S2P Require Import Prelude Machine OrdMap OrdMapFacts Wire WireFacts Frag.

(** * Holes *)
Definition in_hole (p : Z) (h : FragmentHole) : Prop := h_start h <= p < h_end h.

(** Non-empty, ascending, at least one byte apart *)
Fixpoint holes_within (lo hi : Z) (l : list FragmentHole) : Prop :=
  match l with
  | [] => True
  | h :: l => lo <= h_start h < h_end h /\ h_end h <= hi /\ holes_within (h_end h + 1) hi l
  end.

Definition open_at (l : list FragmentHole) (p : Z) : Prop := Exists (in_hole p) l.

Lemma open_cons h l p : open_at (h :: l) p <-> in_hole p h \/ open_at l p.
Proof. apply Exists_cons. Qed.

Lemma open_nil p : ~ open_at [] p.
Proof. by intros ?%Exists_nil. Qed.

Lemma holes_lo lo lo' hi l : lo' <= lo -> holes_within lo hi l -> holes_within lo' hi l.
Proof. destruct l as [|h l]; cbn; [done|]. intros ? (? & ? & ?). repeat split; try lia; done. Qed.

Lemma open_range lo hi l p : holes_within lo hi l -> open_at l p -> lo <= p < hi.
Proof.
  revert lo. induction l as [|h l IH]; intros lo; cbn; [by intros _ ?%open_nil|]. intros (? & ? & Hl) [Hp|Hp]%open_cons.
  - unfold in_hole in Hp. lia.
  - specialize (IH _ Hl Hp). lia.
Qed.

Lemma push_hole_ok cap l h : zlen l < cap -> push_hole cap l h = Ok (l ++ [h]).
Proof. intros Hlt. unfold push_hole. destruct (Z.eqb_spec (zlen l) cap); [lia|done]. Qed.

(** The loop over the holes: what is left is what was open, below the end of
    the packet, outside the fragment. An error is an overlap with a byte that is
    not open; the reserved capacity is never exceeded. *)
Section hole_loop.
Context (cap fs fe me : Z) (Hf : fs < fe).

Definition fits (h : FragmentHole) : Prop := h_start h <= fs /\ fe <= Z.min (h_end h) me.

Definition loop_spec (lo hi : Z) (l acc : list FragmentHole) (cov : bool)
  (r : res FragmentDropReason (list FragmentHole * bool)) : Prop :=
  match r with
  | Ok (acc', c) => exists new, acc' = acc ++ new /\ holes_within lo (Z.min hi me) new /\
      (forall p, open_at new p <-> open_at l p /\ p < me /\ ~ (fs <= p < fe)) /\
      (c = true <-> cov = true \/ Exists fits l)
  | Err e => e = Overlap /\ exists p, lo - 1 <= p /\ fs <= p < fe /\ ~ (open_at l p /\ p < me)
  | Panic => False
  end.

(** A hole cut into pieces before the rest of the list *)
Lemma loop_spec_cons lo hi h l acc cov cov' pieces r :
  lo <= h_start h < h_end h -> h_end h <= hi ->
  holes_within lo (Z.min (h_end h) me) pieces ->
  (forall p, open_at pieces p <-> in_hole p h /\ p < me /\ ~ (fs <= p < fe)) ->
  (cov' = true <-> cov = true \/ fits h) ->
  loop_spec (h_end h + 1) hi l (acc ++ pieces) cov' r -> loop_spec lo hi (h :: l) acc cov r.
Proof.
  intros Hlo Hhi Hpw Hp Hc Hr. destruct r as [[acc' c]|e|]; cbn in *; [| |done].
  - destruct Hr as (new & -> & Hw & Ho & Hcov). exists (pieces ++ new). split; [by rewrite app_assoc|]. split; [|split].
    + assert (lo <= h_end h + 1) as Hb by lia. clear -Hb Hhi Hpw Hw. revert lo Hb Hpw.
      induction pieces as [|x pieces IH]; intros lo Hb; cbn; [intros _; by eapply holes_lo|].
      intros (? & ? & Hx). split; [done|]. split; [lia|]. apply IH; [lia|done].
    + intros p. unfold open_at in *. rewrite Exists_app, Hp, Ho, Exists_cons. tauto.
    + rewrite Hcov, Hc, Exists_cons. tauto.
  - destruct Hr as (-> & p & Hge & Hin & Hno). split; [done|]. exists p. split; [lia|]. split; [done|].
    rewrite open_cons. unfold in_hole. intros [[?|?] ?]; [lia|tauto].
Qed.

Lemma hole_loop_spec lo hi l acc (cov : bool) :
  holes_within lo hi l -> zlen acc + zlen l + (if cov then 0 else 1) <= cap -> (cov = true -> fe <= lo) ->
  loop_spec lo hi l acc cov (hole_loop cap fs fe me l acc cov).
Proof.
  revert lo acc cov. induction l as [|h l IH]; intros lo acc cov.
  { intros _ _ _. cbn. exists []. rewrite app_nil_r. split; [done|]. split; [done|]. split.
    - intros p. pose proof (open_nil p). tauto.
    - rewrite Exists_nil. tauto. }
  intros (Hh & Hhi & Hl) Hcap Hcov. rewrite zlen_cons in Hcap. pose proof (zlen_nonneg l). cbn [hole_loop].
  destruct (Z.leb_spec me (h_start h)) as [Hme|Hme].
  { apply (loop_spec_cons _ _ _ _ _ _ cov []); try done.
    - intros p. unfold in_hole. split; [by intros ?%open_nil|lia].
    - unfold fits. split; [tauto|]. intros [?|?]; [done|lia].
    - rewrite app_nil_r. apply IH; [done|lia|]. intros ->. specialize (Hcov eq_refl). lia. }
  set (he := Z.min (h_end h) me) in *. destruct ((fe <=? h_start h) || (he <=? fs)) eqn:Eout.
  { apply orb_true_iff in Eout. rewrite !Z.leb_le in Eout. rewrite push_hole_ok by (destruct cov; lia). cbn [res_bind].
    apply (loop_spec_cons _ _ _ _ _ _ cov [mkHole (h_start h) he]); try done.
    - cbn. lia.
    - intros p. rewrite open_cons. unfold in_hole. cbn. pose proof (open_nil p). split; [intros [?|?]; [lia|done]|]. left. lia.
    - unfold fits. fold he. split; [tauto|]. intros [?|?]; [done|lia].
    - apply IH; [done|unfold zlen in *; rewrite length_app; cbn; lia|]. intros ->. specialize (Hcov eq_refl). lia. }
  apply orb_false_iff in Eout. rewrite !Z.leb_gt in Eout. destruct ((fs <? h_start h) || (he <? fe)) eqn:Epart.
  { apply orb_true_iff in Epart. rewrite !Z.ltb_lt in Epart. cbn. split; [done|].
    exists (if fs <? h_start h then h_start h - 1 else he). destruct (Z.ltb_spec fs (h_start h)).
    - split; [lia|]. split; [lia|]. rewrite open_cons. unfold in_hole. intros [[?|Ho] _]; [lia|].
      apply (open_range _ _ _ _ Hl) in Ho. lia.
    - split; [lia|]. split; [lia|]. rewrite open_cons. unfold in_hole. intros [[?|Ho] ?]; [lia|].
      apply (open_range _ _ _ _ Hl) in Ho. lia. }
  apply orb_false_iff in Epart. rewrite !Z.ltb_ge in Epart.
  destruct cov; [specialize (Hcov eq_refl); lia|].
  set (p1 := if h_start h <? fs then [mkHole (h_start h) fs] else []).
  set (p2 := if fe <? he then [mkHole fe he] else []).
  assert ((if h_start h <? fs then push_hole cap acc (mkHole (h_start h) fs) else Ok acc) = Ok (acc ++ p1)) as ->.
  { subst p1. destruct (h_start h <? fs); [by rewrite push_hole_ok by lia|by rewrite app_nil_r]. }
  cbn [res_bind]. assert (zlen (acc ++ p1) <= zlen acc + 1) as Hp1.
  { subst p1. destruct (h_start h <? fs); unfold zlen; rewrite length_app; cbn; lia. }
  assert ((if fe <? he then push_hole cap (acc ++ p1) (mkHole fe he) else Ok (acc ++ p1)) = Ok (acc ++ p1 ++ p2)) as ->.
  { subst p2. destruct (fe <? he); [by rewrite push_hole_ok, <- app_assoc by lia|by rewrite app_nil_r]. }
  cbn [res_bind]. apply (loop_spec_cons _ _ _ _ _ _ true (p1 ++ p2)); try done.
  - subst p1 p2. destruct (Z.ltb_spec (h_start h) fs), (Z.ltb_spec fe he); cbn; lia.
  - intros p. subst p1 p2. unfold open_at. destruct (Z.ltb_spec (h_start h) fs), (Z.ltb_spec fe he);
      cbn [app]; rewrite ?Exists_cons, Exists_nil; unfold in_hole; cbn; lia.
  - unfold fits. fold he. split; [|done]. right. lia.
  - apply IH; [done| |lia]. subst p2. destruct (fe <? he); unfold zlen in *; rewrite !length_app in *; cbn; lia.
Qed.
End hole_loop.

(** Bytes that are all open lie in one hole. *)
Lemma open_run lo hi l fs fe : holes_within lo hi l -> fs < fe -> (forall p, fs <= p < fe -> open_at l p) ->
  Exists (fun h => h_start h <= fs /\ fe <= h_end h) l.
Proof.
  intros Hl Hf Hall. revert lo Hl Hall. induction l as [|h l IH]; intros lo; [intros _ Hall; exfalso; apply (open_nil fs), Hall; lia|].
  intros (Hh & Hhi & Hl) Hall. rewrite Exists_cons. destruct (decide (h_end h <= fs)) as [Hge|Hlt].
  - right. apply (IH _ Hl). intros p Hp. destruct (proj1 (open_cons _ _ _) (Hall p Hp)) as [Hin|]; [unfold in_hole in Hin; lia|done].
  - left. assert (in_hole fs h) as Hin.
    { destruct (proj1 (open_cons _ _ _) (Hall fs ltac:(lia))) as [|Ho]; [done|]. apply (open_range _ _ _ _ Hl) in Ho. lia. }
    unfold in_hole in Hin. split; [lia|]. destruct (decide (fe <= h_end h)); [done|]. exfalso.
    destruct (proj1 (open_cons _ _ _) (Hall (h_end h) ltac:(lia))) as [Hin'|Ho]; [unfold in_hole in Hin'; lia|].
    apply (open_range _ _ _ _ Hl) in Ho. lia.
Qed.

Lemma sort_holes_id lo hi l : holes_within lo hi l -> sort_holes l = l.
Proof.
  revert lo. induction l as [|h l IH]; intros lo; [done|]. intros (Hh & Hhi & Hl). unfold sort_holes in *. cbn [foldr].
  rewrite (IH _ Hl). destruct l as [|x l]; [done|]. cbn. destruct Hl as [Hx _]. destruct (Z.leb_spec (h_start h) (h_start x)); [done|lia].
Qed.

(** * Fragments *)
Notation frag := (Z * list Z)%type.
Definition f_end (e : frag) : Z := e.1 + zlen e.2.
Definition in_frag (p : Z) (e : frag) : Prop := e.1 <= p < f_end e.

(** Non-empty and one after the other *)
Fixpoint frags_within (lo hi : Z) (l : list frag) : Prop :=
  match l with
  | [] => lo <= hi
  | e :: l => lo <= e.1 /\ 0 < zlen e.2 /\ frags_within (f_end e) hi l
  end.

Definition held (l : list frag) (p : Z) : Prop := Exists (in_frag p) l.

Lemma held_perm l1 l2 p : l1 ≡ₚ l2 -> held l1 p <-> held l2 p.
Proof. intros Hp. unfold held. rewrite !Exists_exists. by setoid_rewrite Hp. Qed.

Lemma frags_app lo hi l1 l2 : frags_within lo hi (l1 ++ l2) <-> exists mid, frags_within lo mid l1 /\ frags_within mid hi l2.
Proof.
  revert lo. induction l1 as [|e l1 IH]; intros lo; cbn [app frags_within].
  - split; [intros Hl; by exists lo|]. intros (mid & ? & Hl). destruct l2 as [|x l2]; cbn in *; [lia|]. intuition lia.
  - rewrite IH. split; [intros (? & ? & mid & ? & ?); by exists mid|]. intros (mid & (? & ? & ?) & ?). eauto 10.
Qed.

Lemma frags_le lo hi l : frags_within lo hi l -> lo <= hi.
Proof.
  revert lo. induction l as [|e l IH]; intros lo; cbn; [done|]. intros (? & ? & ?%IH). unfold f_end in *. lia.
Qed.

Lemma frags_in lo hi l e : frags_within lo hi l -> e ∈ l -> lo <= e.1 /\ 0 < zlen e.2 /\ f_end e <= hi.
Proof.
  revert lo. induction l as [|x l IH]; intros lo; cbn; [by intros _ ?%elem_of_nil|]. intros (? & ? & Hl) [->|Hin]%elem_of_cons.
  - split; [done|]. split; [done|]. by apply frags_le in Hl.
  - destruct (IH _ Hl Hin) as (? & ? & ?). unfold f_end in *. split; [lia|done].
Qed.

Lemma held_range lo hi l p : frags_within lo hi l -> held l p -> lo <= p < hi.
Proof.
  intros Hl [e [He Hp]]%Exists_exists. destruct (frags_in _ _ _ _ Hl He) as (? & ? & ?). unfold in_frag in Hp. lia.
Qed.

(** The bounds can be tightened to the first and the last fragment. *)
Lemma frags_hi lo hi hi' l : frags_within lo hi l -> (forall e, e ∈ l -> f_end e <= hi') -> lo <= hi' -> frags_within lo hi' l.
Proof.
  revert lo. induction l as [|e l IH]; intros lo; cbn; [done|]. intros (? & ? & Hl) He Hlo. split; [done|]. split; [done|].
  apply IH; [done|intros; apply He; by right|]. apply He. by left.
Qed.

Lemma frags_raise lo lo' hi l : frags_within lo hi l -> (forall e, e ∈ l -> lo' <= e.1) -> lo' <= hi -> frags_within lo' hi l.
Proof. destruct l as [|e l]; cbn; [done|]. intros (? & ? & ?) He _. split; [apply He; by left|done]. Qed.

Lemma frags_sum lo hi l : frags_within lo hi l -> sumZ (fun e => zlen e.2) l <= hi - lo.
Proof.
  revert lo. induction l as [|e l IH]; intros lo; [cbn; lia|]. cbn [frags_within sumZ foldr]. intros (? & ? & Hl).
  apply IH in Hl. unfold sumZ, f_end in *. lia.
Qed.

(** At most one fragment holds a byte. *)
Lemma frags_unique lo hi l e1 e2 p : frags_within lo hi l -> e1 ∈ l -> e2 ∈ l -> in_frag p e1 -> in_frag p e2 -> e1 = e2.
Proof.
  revert lo. induction l as [|e l IH]; intros lo; [by intros _ ?%elem_of_nil|]. intros (? & ? & Hl) H1 H2 Hp1 Hp2.
  apply elem_of_cons in H1 as [->|H1], H2 as [->|H2]; [done| | |by eapply IH].
  - destruct (frags_in _ _ _ _ Hl H2) as (? & ? & ?). unfold in_frag in *. lia.
  - destruct (frags_in _ _ _ _ Hl H1) as (? & ? & ?). unfold in_frag in *. lia.
Qed.

(** ** The tests on the stored fragments *)
Lemma check_stored_spec fe l lo hi : frags_within lo hi l -> 0 <= lo -> hi <= u16_max ->
  check_stored fe l = (if bool_decide (Forall (fun e => f_end e <= fe) l) then Ok tt else Err Overlap).
Proof.
  revert lo. induction l as [|[o d] l IH]; intros lo; [done|]. intros (? & ? & Hl) Hlo Hhi. cbn [fst snd] in *.
  pose proof (frags_le _ _ _ Hl) as Hle. unfold f_end in Hle. cbn [check_stored fst snd] in *.
  destruct (Z.ltb_spec u16_max (zlen d)); [lia|]. destruct (Z.ltb_spec u16_max (o + zlen d)); [lia|].
  destruct (Z.ltb_spec fe (o + zlen d)).
  - rewrite bool_decide_eq_false_2; [done|]. intros Hf. apply Forall_inv in Hf. unfold f_end in Hf. cbn in Hf. lia.
  - rewrite (IH _ Hl) by (unfold f_end; cbn; lia).
    assert (Forall (fun e => f_end e <= fe) l <-> Forall (fun e => f_end e <= fe) ((o, d) :: l)) as Heq.
    { rewrite list.Forall_cons. unfold f_end at 2. cbn. tauto. }
    by rewrite (bool_decide_ext _ _ Heq).
Qed.

Lemma is_le_Z (a b : Z) : is_le (cmp a b) = (a <=? b).
Proof. unfold cmp, Z_ord, Z.leb. by destruct (a ?= b). Qed.

Lemma frags_filter P lo hi l : frags_within lo hi l -> frags_within lo hi (List.filter P l).
Proof.
  revert lo. induction l as [|e l IH]; intros lo; [done|]. intros (? & ? & Hl). cbn. specialize (IH _ Hl).
  destruct (P e); [done|]. eapply frags_raise; [exact IH| |].
  - intros x Hx. destruct (frags_in _ _ _ _ IH Hx) as (? & ? & ?). unfold f_end in *. lia.
  - apply frags_le in Hl. unfold f_end in *. lia.
Qed.

Section neighbours.
Context (m : OrdMap Z (list Z)) (hi : Z) (Hs : sorted (entries m)) (Hw : frags_within 0 hi (entries m)) (Hhi : hi <= u16_max).

Lemma check_prev_spec fs :
  (check_prev fs m = Ok tt /\ forall e, e ∈ entries m -> e.1 <= fs -> f_end e <= fs) \/
  (check_prev fs m = Err Overlap /\ exists e, e ∈ entries m /\ in_frag fs e).
Proof.
  unfold check_prev. rewrite range_spec by done. set (L := List.filter _ _).
  assert (forall e, e ∈ L <-> e ∈ entries m /\ e.1 <= fs) as HL.
  { intros e. subst L. rewrite !list_elem_of_In, filter_In. unfold within. cbn. rewrite is_le_Z, Z.leb_le. done. }
  pose proof (frags_filter (within Unbounded (Included fs)) _ _ _ Hw) as HwL. fold L in HwL.
  destruct (list.last L) as [[o d]|] eqn:E.
  - apply last_Some in E as (L' & E). rewrite E in HwL. apply frags_app in HwL as (mid & Hw1 & Ho & Hd & Hw2). cbn in *.
    unfold f_end in Hw2. cbn in Hw2. assert ((o, d) ∈ L) as Hin by (rewrite E; apply elem_of_app; right; by left).
    pose proof (frags_le _ _ _ Hw1). apply HL in Hin as [Hin Hle]. cbn in Hle. destruct (Z.ltb_spec u16_max (zlen d)); [lia|].
    destruct (Z.ltb_spec u16_max (o + zlen d)); [lia|]. destruct (Z.ltb_spec fs (o + zlen d)).
    + right. split; [done|]. exists (o, d). split; [done|]. unfold in_frag, f_end. cbn. lia.
    + left. split; [done|]. intros e He Hes. assert (e ∈ L) as HeL by (by apply HL). rewrite E in HeL.
      apply elem_of_app in HeL as [HeL|HeL%list_elem_of_singleton]; [|subst e; unfold f_end; cbn; lia].
      destruct (frags_in _ _ _ _ Hw1 HeL) as (? & ? & ?). lia.
  - left. split; [done|]. apply last_None in E. intros e He Hes. assert (e ∈ L) as HeL by (by apply HL).
    rewrite E in HeL. by apply elem_of_nil in HeL.
Qed.

Lemma check_next_spec fs fe : fs < fe ->
  (check_next fs fe m = Ok tt /\ forall e, e ∈ entries m -> fs <= e.1 -> fe <= e.1) \/
  (check_next fs fe m = Err Overlap /\ exists e, e ∈ entries m /\ fs <= e.1 < fe).
Proof.
  intros Hf. unfold check_next. rewrite range_spec by done. set (L := List.filter _ _).
  assert (forall e, e ∈ L <-> e ∈ entries m /\ fs <= e.1) as HL.
  { intros e. subst L. rewrite !list_elem_of_In, filter_In. unfold within. cbn. rewrite is_le_Z, andb_true_r, Z.leb_le. done. }
  pose proof (frags_filter (within (Included fs) Unbounded) _ _ _ Hw) as HwL. fold L in HwL.
  destruct L as [|[o d] L'] eqn:E; cbn.
  - left. split; [done|]. intros e He Hes. assert (e ∈ @nil frag) as HeL by (by apply HL). by apply elem_of_nil in HeL.
  - assert ((o, d) ∈ (o, d) :: L') as Hin by (by left). apply HL in Hin as [Hin Hle]. cbn in Hle.
    destruct (Z.ltb_spec o fe); [right; split; [done|]; exists (o, d); cbn; done|]. left. split; [done|].
    intros e He Hes. assert (e ∈ (o, d) :: L') as HeL by (by apply HL). destruct HwL as (? & ? & HwL).
    apply elem_of_cons in HeL as [->|HeL]; [done|]. destruct (frags_in _ _ _ _ HwL HeL) as (? & ? & ?). unfold f_end in *. cbn in *. lia.
Qed.

(** The fragment meets no stored one exactly when both tests pass. *)
Definition clear_of (fs fe : Z) (l : list frag) : Prop := Forall (fun e => f_end e <= fs \/ fe <= e.1) l.

Lemma neighbours_spec fs fe : fs < fe ->
  (check_prev fs m = Ok tt /\ check_next fs fe m = Ok tt /\ clear_of fs fe (entries m)) \/
  ((check_prev fs m = Err Overlap \/ (check_prev fs m = Ok tt /\ check_next fs fe m = Err Overlap)) /\ ~ clear_of fs fe (entries m)).
Proof.
  intros Hf. unfold clear_of. rewrite list.Forall_forall. destruct (check_prev_spec fs) as [[-> Hp]|[-> (e & He & Hin)]].
  - destruct (check_next_spec fs fe Hf) as [[-> Hn]|[-> (e & He & Hin)]].
    + left. split; [done|]. split; [done|]. intros e He. specialize (Hp e He). specialize (Hn e He). lia.
    + right. split; [auto|]. intros Hc. specialize (Hc e He). destruct (frags_in _ _ _ _ Hw He) as (? & ? & ?). unfold f_end in *. lia.
  - right. split; [auto|]. intros Hc. specialize (Hc e He). unfold in_frag in Hin. lia.
Qed.
End neighbours.

(** * The invariant of a queue *)

(** The end of the datagram as far as it is known *)
Definition limit (q : FragmentQueue) : Z := default u16_max (q_total_len q).

Record queue_ok (q : FragmentQueue) : Prop := {
  qo_map : map_ok (frags q);
  qo_limit : 0 < limit q <= u16_max;
  qo_frags : frags_within 0 (limit q) (entries (frags q));
  qo_holes : holes_within 0 (limit q) (holes q);
  qo_split : forall p, 0 <= p < limit q -> open_at (holes q) p <-> ~ held (entries (frags q)) p;
  qo_last : have_last q = true <-> is_Some (q_total_len q);
  qo_end : forall T, q_total_len q = Some T -> exists e, e ∈ entries (frags q) /\ f_end e = T;
  qo_first : have_first q = true <-> exists d, (0, d) ∈ entries (frags q);
  qo_header : forall d, (0, d) ∈ entries (frags q) -> MIN_L4_HEADER_BYTES <= zlen d;
  qo_l4 : l4_header_ok q = have_first q;
  qo_count : received_frags q = map_len (frags q);
  qo_bytes : received_bytes q = sumZ (fun e => zlen e.2) (entries (frags q));
}.

Lemma queue_new_ok alloc_ok now q : queue_new alloc_ok now = Ok q -> queue_ok q.
Proof.
  unfold queue_new. destruct alloc_ok; [|done]. intros [= <-]. constructor; cbn; try done.
  - apply map_new_ok.
  - intros p Hp. split; [intros _; by intros ?%Exists_nil|]. intros _. apply Exists_cons. left. unfold in_hole. cbn. done.
  - split; [done|]. by intros [? ?%elem_of_nil].
  - by intros ? ?%elem_of_nil.
Qed.

(** What a fragment must be to enter the queue *)
Record acceptable (offset : Z) (more : bool) (data : list Z) (q : FragmentQueue) : Prop := {
  ac_len : 0 < zlen data;
  ac_count : received_frags q < MAX_FRAGS_PER_QUEUE;
  ac_end : offset + zlen data <= limit q;
  ac_first : offset = 0 -> MIN_L4_HEADER_BYTES <= zlen data;
  ac_clear : clear_of offset (offset + zlen data) (entries (frags q));
  ac_last : more = false -> q_total_len q = None /\ Forall (fun e => f_end e <= offset + zlen data) (entries (frags q));
}.

(** The queue it enters *)
Record entered (offset : Z) (more : bool) (data : list Z) (q q' : FragmentQueue) : Prop := {
  en_ok : queue_ok q';
  en_entries : entries (frags q') ≡ₚ (offset, data) :: entries (frags q);
  en_total : q_total_len q' = if more then q_total_len q else Some (offset + zlen data);
  en_frags : received_frags q' = received_frags q + 1;
  en_bytes : received_bytes q' = received_bytes q + zlen data;
  en_times : created_ms q' = created_ms q /\ expires_at_ms q' = expires_at_ms q;
  en_rate : rate_limiter q' = rate_limiter q;
}.

Lemma clear_held fs fe l p : clear_of fs fe l -> fs <= p < fe -> ~ held l p.
Proof.
  intros Hc Hp [e [He Hin]]%Exists_exists. unfold clear_of in Hc. rewrite list.Forall_forall in Hc.
  specialize (Hc e He). unfold in_frag in Hin. lia.
Qed.

(** A fragment clear of the others extends the chain. *)
Lemma frags_insert lo hi l1 l2 (e : frag) : frags_within lo hi (l1 ++ l2) -> lo <= e.1 -> 0 < zlen e.2 -> f_end e <= hi ->
  Forall (below e.1) l1 -> Forall (above e.1) l2 -> clear_of e.1 (f_end e) (l1 ++ l2) -> frags_within lo hi (l1 ++ e :: l2).
Proof.
  intros (mid & H1 & H2)%frags_app Hlo Hpos Hhi Hb Ha Hc. unfold clear_of in Hc. rewrite Forall_app, !list.Forall_forall in Hc.
  rewrite list.Forall_forall in Hb, Ha. destruct Hc as [Hc1 Hc2]. apply frags_app. exists e.1. split.
  - eapply frags_hi; [exact H1| |done]. intros x Hx. specialize (Hb x Hx). unfold below, cmp, Z_ord in Hb.
    rewrite Z.compare_lt_iff in Hb. specialize (Hc1 x Hx). destruct (frags_in _ _ _ _ H1 Hx) as (? & ? & ?). unfold f_end in *. lia.
  - split; [done|]. split; [done|]. eapply frags_raise; [exact H2| |done]. intros x Hx. specialize (Ha x Hx).
    unfold above, cmp, Z_ord in Ha. rewrite Z.compare_lt_iff in Ha. specialize (Hc2 x Hx).
    destruct (frags_in _ _ _ _ H2 Hx) as (? & ? & ?). unfold f_end in *. lia.
Qed.

Lemma try_insert_fresh spare k v (m : OrdMap Z (list Z)) : map_ok m -> get m k = None ->
  match try_insert spare k v m with
  | Some (_, m') => exists l1 l2, entries m = l1 ++ l2 /\ entries m' = l1 ++ (k, v) :: l2 /\ Forall (below k) l1 /\ Forall (above k) l2 /\ map_ok m'
  | None => spare = None
  end.
Proof.
  intros Hok Hg. pose proof (try_insert_spec spare k v m Hok) as Hi. unfold try_insert in *.
  destruct (get_none_find m k (mo_sorted _ Hok) Hg) as (l1 & l2 & Hl & Hf & H1 & H2). rewrite Hf in *.
  pose proof (try_reserve_ok 1 spare m Hok ltac:(lia)) as Hr. destruct (try_reserve 1 spare m) as [m1|]; cbn in *; [|by destruct Hr].
  destruct Hr as (_ & He & _). destruct Hi as (_ & Hok' & _). exists l1, l2. split; [done|]. split; [|done].
  unfold insert_at. by rewrite He, Hl, take_app_length, drop_app_length.
Qed.

(** The commit: every clause of the invariant for the queue with the fragment in. *)
Lemma commit_ok offset more data q new m' :
  queue_ok q -> 0 <= offset -> acceptable offset more data q ->
  let fe := offset + zlen data in
  let me := if more then limit q else fe in
  holes_within 0 (Z.min (limit q) me) new ->
  (forall p, open_at new p <-> open_at (holes q) p /\ p < me /\ ~ (offset <= p < fe)) ->
  (exists l1 l2, entries (frags q) = l1 ++ l2 /\ entries m' = l1 ++ (offset, data) :: l2 /\
     Forall (below offset) l1 /\ Forall (above offset) l2) -> map_ok m' ->
  entered offset more data q
    (mkQueue (created_ms q) (expires_at_ms q) (if negb more then Some fe else q_total_len q) (received_frags q + 1)
       (received_bytes q + zlen data) (sort_holes new) m' (have_first q || (offset =? 0)) (have_last q || negb more)
       (l4_header_ok q || (offset =? 0)) (rate_limiter q)).
Proof.
  intros Hq Ho [Hlen Hcount Hend Hfirst Hclear Hlast] fe me Hnew Hopen (l1 & l2 & Hl & Hm & Hb & Ha) Hok.
  pose proof (qo_limit _ Hq). pose proof (qo_frags _ Hq) as Hw. rewrite Hl in Hw, Hclear.
  assert (entries m' ≡ₚ (offset, data) :: entries (frags q)) as Hp by (rewrite Hm, Hl; by rewrite Permutation_middle).
  rewrite (sort_holes_id _ _ _ Hnew). set (q' := mkQueue _ _ _ _ _ _ _ _ _ _ _).
  assert (limit q' = me /\ me <= limit q /\ fe <= me) as (Hlim & Hle & Hfe).
  { subst q' me fe. unfold limit in *. destruct more; cbn; lia. }
  constructor; cbn; try done; [|by destruct more]. assert (frags_within 0 me (entries m')) as Hw'.
  { rewrite Hm. apply frags_insert; try done.
    eapply frags_hi; [exact Hw| |lia]. intros e He. subst me fe. destruct more.
    - by apply (frags_in _ _ _ _ Hw).
    - destruct (Hlast eq_refl) as [_ Hall]. rewrite list.Forall_forall in Hall. apply Hall. by rewrite Hl. }
  constructor; try done.
  - lia.
  - by rewrite Hlim.
  - rewrite Hlim. by replace me with (Z.min (limit q) me) by lia.
  - rewrite Hlim. intros p Hp'. cbn [holes frags q']. rewrite Hopen, (held_perm _ _ p Hp), (qo_split _ Hq p) by lia.
    unfold held. rewrite Exists_cons. unfold in_frag at 2, f_end. cbn [fst snd]. fold fe. intuition lia.
  - cbn. destruct more; cbn; [rewrite orb_false_r; apply (qo_last _ Hq)|]. rewrite orb_true_r. split; [eauto|done].
  - intros T HT. cbn [frags q']. destruct more; cbn in HT.
    + destruct (qo_end _ Hq T HT) as (e & He & HeT). exists e. split; [|done]. rewrite Hp. by right.
    + injection HT as <-. exists (offset, data). split; [rewrite Hp; by left|done].
  - cbn. rewrite orb_true_iff, (qo_first _ Hq), Z.eqb_eq. setoid_rewrite Hp. split.
    + intros [[d Hd]| ->]; [exists d; by right|exists data; by left].
    + intros [d [[= <- <-]|Hd]%elem_of_cons]; [by right|left; eauto].
  - intros d. cbn [frags q']. rewrite Hp, elem_of_cons. intros [[= <- ->]|Hd]; [by apply Hfirst|by apply (qo_header _ Hq)].
  - cbn. by rewrite (qo_l4 _ Hq).
  - cbn. unfold map_len. rewrite (perm_len _ _ Hp), zlen_cons, (qo_count _ Hq). done.
  - cbn [received_bytes frags q']. rewrite Hp, (qo_bytes _ Hq). unfold sumZ. cbn [foldr snd]. lia.
Qed.

(** An acceptable fragment lies in one hole; conversely a fragment that passed
    the tests and filled a hole was acceptable. *)
Lemma acceptable_fits offset more data q : queue_ok q -> 0 <= offset -> acceptable offset more data q ->
  let fe := offset + zlen data in
  (forall p, offset <= p < fe -> open_at (holes q) p) /\ Exists (fits offset fe (if more then limit q else fe)) (holes q).
Proof.
  intros Hq Ho Hac fe. pose proof (ac_end _ _ _ _ Hac). pose proof (ac_len _ _ _ _ Hac).
  assert (forall p, offset <= p < fe -> open_at (holes q) p) as Hopen.
  { intros p Hp. apply (qo_split _ Hq); [lia|]. eapply clear_held; [apply Hac|done]. }
  split; [done|]. eapply Exists_impl; [apply (open_run 0 (limit q) (holes q) offset fe)|].
  - apply (qo_holes _ Hq).
  - lia.
  - done.
  - intros h [? ?]. unfold fits. destruct more; lia.
Qed.

Lemma filled_acceptable offset (more : bool) data q : queue_ok q -> 0 < zlen data -> received_frags q < MAX_FRAGS_PER_QUEUE ->
  (offset = 0 -> MIN_L4_HEADER_BYTES <= zlen data) -> clear_of offset (offset + zlen data) (entries (frags q)) ->
  (more = false -> Forall (fun e => f_end e <= offset + zlen data) (entries (frags q))) ->
  Exists (fits offset (offset + zlen data) (if more then limit q else offset + zlen data)) (holes q) ->
  acceptable offset more data q.
Proof.
  intros Hq Hlen Hcount Hfirst Hclear Hlast [h [Hh [Hfs Hfe]]]%Exists_exists.
  assert (offset + zlen data <= limit q) as Hend.
  { assert (open_at (holes q) (h_end h - 1)) as Ho.
    { apply Exists_exists. exists h. split; [done|]. unfold in_hole. lia. }
    apply (open_range _ _ _ _ (qo_holes _ Hq)) in Ho. lia. }
  constructor; try done. intros Hm. specialize (Hlast Hm). split; [|done].
  destruct (q_total_len q) as [T|] eqn:ET; [|done]. exfalso. destruct (qo_end _ Hq T ET) as (e & He & HeT).
  unfold clear_of in Hclear. rewrite list.Forall_forall in Hlast, Hclear. specialize (Hlast e He). specialize (Hclear e He).
  destruct (frags_in _ _ _ _ (qo_frags _ Hq) He) as (? & ? & ?). unfold limit in *. rewrite ET in *. cbn in *. unfold f_end in *. lia.
Qed.

Definition short_of_memory (al : FragAllocs) : Prop := f_holes al = None \/ f_copy al = false \/ f_map al = None.

(** [insert] after the limiter accepts exactly the acceptable fragments, if the
    allocator agrees. *)
Lemma insert_checked_spec al offset more data q : queue_ok q -> 0 <= offset ->
  match insert_checked al offset more data q with
  | Ok q' => acceptable offset more data q /\ entered offset more data q q'
  | Err e => ~ acceptable offset more data q \/ (e = QueueByteLimit /\ short_of_memory al)
  | Panic => False
  end.
Proof.
  intros Hq Ho. pose proof (qo_limit _ Hq) as Hlim. pose proof (zlen_nonneg data) as Hnn.
  assert (received_bytes q <= limit q) as Hbytes.
  { rewrite (qo_bytes _ Hq). pose proof (frags_sum _ _ _ (qo_frags _ Hq)). lia. }
  unfold insert_checked. destruct (Z.eqb_spec (zlen data) 0); [left; intros []; lia|].
  destruct (Z.leb_spec MAX_FRAGS_PER_QUEUE (received_frags q)); [left; intros []; lia|].
  destruct (Z.ltb_spec MAX_BYTES_PER_QUEUE (saturating_add (received_bytes q) (zlen data))) as [Hb|Hb].
  { left. intros []. unfold MAX_BYTES_PER_QUEUE, saturating_add, u16_max in *. lia. }
  set (fe := offset + zlen data). destruct (Z.ltb_spec u16_max fe); [left; intros []; lia|].
  unfold MAX_PACKET_SIZE. destruct (Z.ltb_spec 65535 fe); [unfold u16_max in *; lia|].
  destruct ((offset =? 0) && (zlen data <? MIN_L4_HEADER_BYTES)) eqn:Efirst.
  { left. intros []. lia. }
  assert (offset = 0 -> MIN_L4_HEADER_BYTES <= zlen data) as Hfirst by lia.
  rewrite (check_stored_spec fe _ 0 (limit q)) by (apply Hq || lia).
  assert ((if negb more then if bool_decide (Forall (fun e => f_end e <= fe) (entries (frags q))) then Ok tt else Err Overlap else Ok tt)
    = (if bool_decide (more = false -> Forall (fun e => f_end e <= fe) (entries (frags q))) then Ok tt else Err Overlap) :> res FragmentDropReason unit) as ->.
  { destruct more; cbn [negb]; [by rewrite bool_decide_eq_true_2|]. by repeat case_bool_decide; naive_solver. }
  case_bool_decide as Hlast; cbn [res_bind]; [|left; intros Ha; apply Hlast; intros Hm; by apply (ac_last _ _ _ _ Ha)].
  destruct (neighbours_spec (frags q) (limit q) (mo_sorted _ (qo_map _ Hq)) (qo_frags _ Hq) (proj2 Hlim) offset fe ltac:(lia))
    as [(-> & -> & Hclear)|[Hov Hnc]]; cbn [res_bind].
  2: { assert (~ acceptable offset more data q) as Hna by (intros Ha; by apply Hnc, Ha). destruct Hov as [->|[-> ->]]; by left. }
  destruct (f_holes al) as [spare|] eqn:Eh; cbn [ok_or res_bind]; [|right; split; [done|by left]].
  set (me := if more then limit q else fe).
  assert ((if negb more then fe else default u16_max (q_total_len q)) = me) as -> by (by destruct more).
  pose proof (hole_loop_spec (zlen (holes q) + 1 + Z.max spare 0) offset fe me ltac:(lia) 0 (limit q) (holes q) [] false
    (qo_holes _ Hq) ltac:(unfold zlen; cbn [length]; lia) ltac:(done)) as Hloop.
  destruct (hole_loop _ _ _ _ _ _ _) as [[new c]|e|]; cbn [res_bind loop_spec] in *; [| |done].
  2: { left. intros Ha. destruct Hloop as (_ & p & _ & Hp & Hno). apply Hno. split; [by apply (acceptable_fits offset more data q Hq Ho Ha)|].
       pose proof (ac_end _ _ _ _ Ha). subst me fe. destruct more; lia. }
  destruct Hloop as (new' & -> & Hnew & Hopen & Hc). cbn [app fst snd] in *. destruct c; cbn [negb].
  2: { left. intros Ha. enough (false = true) by done. apply Hc. right. by apply (acceptable_fits offset more data q Hq Ho Ha). }
  assert (acceptable offset more data q) as Ha.
  { apply filled_acceptable; try done; [lia|]. destruct (proj1 Hc eq_refl) as [?|Hex]; [done|exact Hex]. }
  destruct (f_copy al) eqn:Ecopy; cbn [negb]; [|right; split; [done|right; by left]].
  assert (get (frags q) offset = None) as Hfresh.
  { apply get_None; [apply Hq|]. intros d Hd. destruct (frags_in _ _ _ _ (qo_frags _ Hq) Hd) as (_ & ? & _).
    unfold clear_of in Hclear. rewrite list.Forall_forall in Hclear. specialize (Hclear _ Hd). unfold f_end in *. cbn [fst snd] in *. lia. }
  pose proof (try_insert_fresh (f_map al) offset data (frags q) (qo_map _ Hq) Hfresh) as Hins.
  destruct (try_insert (f_map al) offset data (frags q)) as [[old m']|]; cbn [ok_or res_bind snd].
  2: { right. split; [done|]. right. by right. }
  split; [done|]. destruct Hins as (l1 & l2 & Hl & Hm & Hb1 & Hb2 & Hok'). apply commit_ok; try done. by exists l1, l2.
Qed.

(** * The limiter *)
Record rate_ok (n : Z) (r : RateLimiter) : Prop := { ra_tokens : n <= rl_tokens r <= RATE_LIMIT_TOKENS; ra_time : 0 <= rl_last_refill_ms r }.

(** Times of the kernel clock, in milliseconds since boot *)
Definition clock (now : Z) : Prop := 0 <= now < 2 ^ 57.

Lemma rate_allow_spec n now r : rate_ok n r -> 0 <= n -> clock now ->
  exists b r', rate_allow 1 now r = Ok (b, r') /\ rate_ok (n - 1) r' /\ rate_ok 0 r' /\ (1 <= n -> b = true).
Proof.
  intros [Ht Htime] Hn [Hnow0 Hnow]. unfold rate_allow. unfold RATE_LIMIT_TOKENS, RATE_LIMIT_WINDOW_MS in *.
  assert (0 <= saturating_sub now (rl_last_refill_ms r) <= now) as He by (unfold saturating_sub; lia).
  set (el := saturating_sub now _) in *. destruct (Z.ltb_spec u64_max (el * 128)); [unfold u64_max in *; lia|].
  assert (0 <= wrap32 (el * 128 / 1000)) by (unfold wrap32; apply Z.mod_pos_bound; lia).
  set (tk := Z.min _ _). assert (n <= tk <= 128) by (subst tk; lia). destruct (Z.leb_spec 1 tk).
  - eexists true, _. split; [done|]. repeat split; cbn; unfold RATE_LIMIT_TOKENS; lia.
  - eexists false, _. split; [done|]. repeat split; cbn; unfold RATE_LIMIT_TOKENS; lia.
Qed.

Lemma with_rate_ok q r : queue_ok q -> queue_ok (with_rate q r).
Proof. by intros []. Qed.

Lemma acceptable_with_rate offset more data q r : acceptable offset more data (with_rate q r) <-> acceptable offset more data q.
Proof. split; by intros []. Qed.

(** [insert] never aborts; what it drops leaves the queue as it was but for the
    limiter, what it inserts was acceptable. *)
Lemma insert_spec al n offset more data now q : queue_ok q -> rate_ok n (rate_limiter q) -> 0 <= n -> 0 <= offset -> clock now ->
  exists r q' rl, insert al offset more data now q = Ok (r, q') /\ rate_limiter q' = rl /\ rate_ok 0 rl /\
    match r with
    | Inserted c => acceptable offset more data q /\ entered offset more data (with_rate q rl) q' /\ c = is_complete q' /\ rate_ok (n - 1) rl
    | Dropped e => q' = with_rate q rl /\ (1 <= n -> ~ acceptable offset more data q \/ (e = QueueByteLimit /\ short_of_memory al))
    end.
Proof.
  intros Hq Hr Hn Ho Hc. unfold insert. destruct (Z.ltb_spec u16_max (zlen data)) as [Hbig|_].
  { eexists (Dropped TooLarge), q, _. split; [done|]. split; [done|]. split.
    - destruct Hr. constructor; lia.
    - split; [by destruct q|]. intros _. left. intros []. pose proof (qo_limit _ Hq). lia. }
  destruct (rate_allow_spec n now (rate_limiter q) Hr Hn Hc) as (b & rl & -> & Hr1 & Hr0 & Hb). cbn [res_bind fst snd].
  destruct b; cbn [negb].
  - pose proof (insert_checked_spec al offset more data (with_rate q rl) (with_rate_ok _ _ Hq) Ho) as Hi.
    destruct (insert_checked _ _ _ _ _) as [q'|e|]; [| |done]; rewrite acceptable_with_rate in Hi.
    + destruct Hi as [Ha He]. exists (Inserted (is_complete q')), q', rl. by rewrite (en_rate _ _ _ _ _ He).
    + exists (Dropped e), (with_rate q rl), rl. split; [done|]. split; [done|]. split; [done|]. split; [done|]. by intros _.
  - exists (Dropped RateLimited), (with_rate q rl), rl. split; [done|]. split; [done|]. split; [done|]. split; [done|].
    intros Hge. specialize (Hb Hge). done.
Qed.

(** * Reassembly *)

(** Fragments that follow each other without a gap *)
Fixpoint tiled (lo hi : Z) (l : list frag) : Prop :=
  match l with
  | [] => lo = hi
  | e :: l => e.1 = lo /\ tiled (f_end e) hi l
  end.

Lemma frags_tiled lo hi l : frags_within lo hi l -> (forall p, lo <= p < hi -> held l p) -> tiled lo hi l.
Proof.
  revert lo. induction l as [|e l IH]; intros lo; cbn.
  - intros Hle Hall. destruct (decide (lo = hi)); [done|]. exfalso. destruct (proj1 (Exists_nil _) (Hall lo ltac:(lia))).
  - intros (Hlo & Hpos & Hl) Hall. pose proof (frags_le _ _ _ Hl). unfold f_end in *. assert (e.1 = lo) as He.
    { destruct (decide (e.1 = lo)); [done|]. exfalso. specialize (Hall lo ltac:(lia)). unfold held in Hall.
      apply Exists_cons in Hall as [Hin|Hin]; [unfold in_frag in Hin; lia|].
      apply (held_range _ _ _ _ Hl) in Hin. lia. }
    split; [done|]. apply IH; [done|]. intros p Hp. specialize (Hall p ltac:(lia)). unfold held in Hall.
    apply Exists_cons in Hall as [Hin|Hin]; [unfold in_frag, f_end in Hin; lia|done].
Qed.

Lemma copy_tiled total l lo pre rest : tiled lo total l -> zlen pre = lo -> zlen pre + zlen rest = total ->
  copy_frags total l (pre ++ rest) = Some (pre ++ concat (map snd l)).
Proof.
  revert lo pre rest. induction l as [|[o d] l IH]; intros lo pre rest.
  - cbn. intros -> Hlo Htot. destruct rest; [done|]. rewrite zlen_cons in Htot. pose proof (zlen_nonneg rest). lia.
  - intros [Ho Hl] Hlo Htot. cbn [fst snd f_end] in *. unfold f_end in Hl. cbn [fst snd] in Hl. cbn [copy_frags map snd].
    assert (o + zlen d <= total) as Hle.
    { clear -Hl. revert Hl. generalize (o + zlen d). induction l as [|e l IH]; intros z; cbn; [lia|]. intros [<- Hl%IH].
      unfold f_end in Hl. pose proof (zlen_nonneg e.2). lia. }
    destruct (Z.ltb_spec total (o + zlen d)); [lia|].
    assert (write_at (pre ++ rest) o d = (pre ++ d) ++ drop (length d) rest) as ->.
    { unfold write_at. rewrite take_app_length' by (unfold zlen in *; lia). rewrite <- app_assoc. do 2 f_equal.
      rewrite drop_app_ge by (unfold zlen in *; lia). f_equal. unfold zlen in *. lia. }
    rewrite (IH (o + zlen d)); [by rewrite <- app_assoc|done| |].
    + unfold zlen in *. rewrite length_app. lia.
    + unfold zlen in *. rewrite length_app, length_drop. lia.
Qed.

(** A queue is complete when the end of the datagram is known and every byte
    before it is held. *)
Lemma complete_iff q : queue_ok q ->
  is_complete q = true <-> exists T, q_total_len q = Some T /\ forall p, 0 <= p < T -> held (entries (frags q)) p.
Proof.
  intros Hq. unfold is_complete. rewrite (qo_l4 _ Hq), !andb_true_iff, Z.eqb_eq. pose proof (qo_limit _ Hq) as Hlim. split.
  - intros [[[_ Hl] _] Hh]. apply (qo_last _ Hq) in Hl as [T HT]. exists T. split; [done|]. intros p Hp.
    destruct (decide (held (entries (frags q)) p)) as [|Hn]; [done|]. exfalso.
    assert (open_at (holes q) p) as Hop. { apply (qo_split _ Hq); [unfold limit; rewrite HT; cbn; lia|done]. }
    destruct (holes q); [by apply open_nil in Hop|]. rewrite zlen_cons in Hh. pose proof (zlen_nonneg l). lia.
  - intros (T & HT & Hall). assert (have_first q = true) as Hf.
    { apply (qo_first _ Hq). unfold limit in Hlim. rewrite HT in Hlim. cbn in Hlim. specialize (Hall 0 ltac:(lia)).
      apply Exists_exists in Hall as ([o d] & Hin & Hp). exists d. destruct (frags_in _ _ _ _ (qo_frags _ Hq) Hin) as (Ho & _ & _).
      unfold in_frag in Hp. cbn in *. by replace 0 with o by lia. }
    rewrite Hf. assert (have_last q = true) as -> by (apply (qo_last _ Hq); by exists T). repeat split.
    destruct (holes q) as [|h hs] eqn:E; [done|]. exfalso. pose proof (qo_holes _ Hq) as Hh. rewrite E in Hh. destruct Hh as (? & ? & _).
    assert (limit q = T) as HlT by (unfold limit; by rewrite HT).
    apply (proj1 (qo_split _ Hq (h_start h) ltac:(lia))); [|apply Hall; lia].
    rewrite E. apply open_cons. left. unfold in_hole. lia.
Qed.

Lemma complete_tiled q : queue_ok q -> is_complete q = true ->
  exists T, q_total_len q = Some T /\ 0 < T <= MAX_PACKET_SIZE /\ tiled 0 T (entries (frags q)).
Proof.
  intros Hq (T & HT & Hall)%(complete_iff _ Hq). exists T. split; [done|].
  pose proof (qo_limit _ Hq) as Hlim. pose proof (qo_frags _ Hq) as Hw. unfold limit in Hlim, Hw. rewrite HT in Hlim, Hw.
  split; [done|]. by apply frags_tiled.
Qed.

Lemma reassemble_spec `{heap : WireHeap} q : queue_ok q -> is_complete q = true ->
  exists T, q_total_len q = Some T /\ tiled 0 T (entries (frags q)) /\
    reassemble q = if wire_admitted (WIRE_ENCAPSULATION_HEADROOM + T) then Some (concat (map snd (entries (frags q)))) else None.
Proof.
  intros Hq Hc. destruct (complete_tiled q Hq Hc) as (T & HT & Hrange & Ht). exists T. split; [done|]. split; [done|].
  unfold reassemble. rewrite Hc, HT. cbn [negb mbind option_bind]. destruct (Z.ltb_spec MAX_PACKET_SIZE T); [lia|].
  unfold try_zeroed. destruct (Z.eqb_spec T 0); [lia|]. rewrite checked_add_Some by (unfold MAX_PACKET_SIZE, usize_max, u64_max, WIRE_ENCAPSULATION_HEADROOM in *; lia).
  cbn [ok_or res_bind]. destruct (wire_admitted _); [|done]. unfold as_slice. cbn [wp_bytes wp_start].
  rewrite drop_replicate. apply (copy_tiled T _ 0 [] _ Ht); [done|]. unfold zlen. rewrite length_replicate. cbn [length].
  unfold WIRE_ENCAPSULATION_HEADROOM. lia.
Qed.

(** ** Fragments of one datagram *)
Lemma tiled_frags lo hi l : tiled lo hi l -> Forall (fun e => 0 < zlen e.2) l -> frags_within lo hi l.
Proof.
  revert lo. induction l as [|e l IH]; intros lo; cbn; [lia|]. intros [-> Hl] [He Hall]%list.Forall_cons. split; [lia|]. eauto.
Qed.

Lemma tiled_held lo hi l p : tiled lo hi l -> lo <= p < hi -> held l p.
Proof.
  revert lo. induction l as [|e l IH]; intros lo; cbn; [lia|]. intros [<- Hl] Hp. apply Exists_cons. unfold in_frag.
  destruct (decide (p < f_end e)); [left; lia|]. right. apply (IH (f_end e)); [done|lia].
Qed.

Lemma tiled_last lo hi l : tiled lo hi l -> lo < hi -> exists e, e ∈ l /\ f_end e = hi.
Proof.
  revert lo. induction l as [|e l IH]; intros lo; cbn; [lia|]. intros [<- Hl] Hlt. destruct (decide (f_end e < hi)) as [Hd|Hd].
  - destruct (IH _ Hl Hd) as (x & Hx & ?). exists x. split; [by right|done].
  - exists e. split; [by left|]. destruct l as [|x l]; [done|]. destruct Hl as [Hx Hl].
    assert (f_end x <= hi); [|pose proof (zlen_nonneg x.2); unfold f_end in *; lia].
    clear -Hl. revert Hl. generalize (f_end x). induction l as [|y l IH]; intros z; cbn; [lia|]. intros [<- ?%IH].
    pose proof (zlen_nonneg y.2). unfold f_end in *. lia.
Qed.

Lemma frags_NoDup lo hi l : frags_within lo hi l -> NoDup l.
Proof.
  revert lo. induction l as [|e l IH]; intros lo; [constructor|]. intros (? & ? & Hl). constructor; [|by eapply IH].
  intros Hin. destruct (frags_in _ _ _ _ Hl Hin) as (? & ? & ?). unfold f_end in *. lia.
Qed.

Lemma frags_perm_eq lo hi l1 l2 : frags_within lo hi l1 -> frags_within lo hi l2 -> l1 ≡ₚ l2 -> l1 = l2.
Proof.
  revert lo l2. induction l1 as [|e l1 IH]; intros lo l2 H1 H2 Hp; [symmetry; by apply Permutation_nil|].
  destruct l2 as [|x l2]; [by apply Permutation_nil_r in Hp|].
  assert (e = x) as <-.
  { destruct (decide (e = x)) as [|Hne]; [done|]. exfalso.
    assert (e ∈ x :: l2) as He by (rewrite <- Hp; by left). assert (x ∈ e :: l1) as Hx by (rewrite Hp; by left).
    apply elem_of_cons in He as [?|He]; [done|]. apply elem_of_cons in Hx as [?|Hx]; [done|].
    destruct H1 as (? & ? & H1), H2 as (? & ? & H2).
    destruct (frags_in _ _ _ _ H1 Hx) as (? & ? & ?), (frags_in _ _ _ _ H2 He) as (? & ? & ?). unfold f_end in *. lia. }
  f_equal. destruct H1 as (_ & _ & H1), H2 as (_ & _ & H2). eapply IH; [done..|]. by apply Permutation_cons_inv in Hp.
Qed.

(** Two fragments of one datagram do not meet. *)
Lemma frags_clear lo hi l e s r : frags_within lo hi l -> s ++ e :: r ≡ₚ l -> clear_of e.1 (f_end e) s.
Proof.
  intros Hl Hp. pose proof (frags_NoDup _ _ _ Hl) as Hnd. rewrite <- Hp in Hnd. apply list.Forall_forall. intros x Hx.
  assert (x ∈ l) as Hxl by (rewrite <- Hp; apply elem_of_app; by left).
  assert (e ∈ l) as Hel by (rewrite <- Hp; apply elem_of_app; right; by left).
  destruct (decide (f_end x <= e.1 \/ f_end e <= x.1)) as [|Hn]; [done|]. exfalso.
  destruct (frags_in _ _ _ _ Hl Hxl) as (? & ? & ?), (frags_in _ _ _ _ Hl Hel) as (? & ? & ?). unfold f_end in *.
  assert (x = e) as ->. { eapply (frags_unique _ _ _ _ _ (Z.max e.1 x.1) Hl); [done..| |]; unfold in_frag, f_end; lia. }
  apply NoDup_app in Hnd as (_ & Hd & _). apply (Hd e Hx). by left.
Qed.
