(* ===== verification/FragRun.v ===== *)
(** Sequences of fragments arriving at one reassembly queue: what any sequence
    keeps, and what the fragments of one datagram, in any order, give. *)

From Stdlib Require Import ZArith Lia.
From stdpp Require Import base list list_numbers numbers sorting.
From S2P Require Import Prelude Machine OrdMap OrdMapFacts Wire WireFacts Frag FragFacts.

(** A fragment as [process_fragment] gives it to the queue, with the time and
    what the allocator answers then *)
Record Arrival := mkArrival { a_offset : Z; a_more : bool; a_data : list Z; a_now : Z; a_allocs : FragAllocs }.

Fixpoint feed (l : list Arrival) (q : FragmentQueue) : res FragmentDropReason (list InsertResult * FragmentQueue) :=
  match l with
  | [] => Ok ([], q)
  | a :: l =>
      let? rq := insert (a_allocs a) (a_offset a) (a_more a) (a_data a) (a_now a) q in
      let? rs := feed l rq.2 in
      Ok (rq.1 :: rs.1, rs.2)
  end.

Definition arrival_ok (a : Arrival) : Prop := 0 <= a_offset a /\ clock (a_now a).

(** The fragments of a sequence that were taken in, the newest first *)
Fixpoint taken (l : list Arrival) (rs : list InsertResult) : list frag :=
  match l, rs with
  | a :: l, Inserted _ :: rs => taken l rs ++ [(a_offset a, a_data a)]
  | _ :: l, _ :: rs => taken l rs
  | _, _ => []
  end.

(** Whatever arrives, the queue keeps its invariant and holds exactly what it
    took in. *)
Lemma feed_safe l q : Forall arrival_ok l -> queue_ok q -> rate_ok 0 (rate_limiter q) ->
  exists rs q', feed l q = Ok (rs, q') /\ length rs = length l /\ queue_ok q' /\ rate_ok 0 (rate_limiter q') /\
    entries (frags q') ≡ₚ taken l rs ++ entries (frags q).
Proof.
  revert q. induction l as [|a l IH]; intros q Hl Hq Hr; [by exists [], q|].
  apply list.Forall_cons in Hl as [[Ho Hc] Hl]. cbn [feed].
  destruct (insert_spec (a_allocs a) 0 (a_offset a) (a_more a) (a_data a) (a_now a) q Hq Hr ltac:(lia) Ho Hc)
    as (r & q1 & rl & -> & Hrl & Hr1 & Hcase). cbn [res_bind fst snd].
  assert (queue_ok q1 /\ entries (frags q1) ≡ₚ taken [a] [r] ++ entries (frags q)) as [Hq1 He].
  { destruct r as [c|e]; cbn.
    - destruct Hcase as (_ & Hen & _ & _). split; [exact (en_ok _ _ _ _ _ Hen)|]. exact (en_entries _ _ _ _ _ Hen).
    - destruct Hcase as [-> _]. split; [by apply with_rate_ok|done]. }
  rewrite <- Hrl in Hr1. destruct (IH q1 Hl Hq1 Hr1) as (rs & q' & -> & Hlen & Hq' & Hr' & He'). cbn [res_bind fst snd].
  exists (r :: rs), q'. split; [done|]. split; [cbn; lia|]. split; [done|]. split; [done|]. rewrite He', He. destruct r; cbn; [|done].
  by rewrite <- app_assoc.
Qed.

(** * The fragments of one datagram *)
Section datagram.
Context (T : Z) (ps : list frag).
Context (Htiled : tiled 0 T ps) (Hpos : Forall (fun e => 0 < zlen e.2) ps) (HT : 0 < T <= MAX_PACKET_SIZE).
Context (Hcount : zlen ps <= MAX_FRAGS_PER_QUEUE) (Hhead : Forall (fun e => e.1 = 0 -> MIN_L4_HEADER_BYTES <= zlen e.2) ps).

(** The arrival that carries a fragment of the datagram *)
Definition carries (a : Arrival) (e : frag) : Prop :=
  a_offset a = e.1 /\ a_data a = e.2 /\ a_more a = (f_end e <? T) /\ clock (a_now a) /\ ~ short_of_memory (a_allocs a).

Record received (s : list frag) (q : FragmentQueue) : Prop := {
  re_ok : queue_ok q;
  re_entries : entries (frags q) ≡ₚ s;
  re_total : q_total_len q = if bool_decide (Exists (fun e => f_end e = T) s) then Some T else None;
  re_rate : rate_ok (RATE_LIMIT_TOKENS - zlen s) (rate_limiter q);
}.

Lemma received_limit s q : received s q -> T <= limit q.
Proof. intros Hr. unfold limit. rewrite (re_total _ _ Hr). case_bool_decide; cbn; [lia|]. destruct HT. done. Qed.

Lemma received_acceptable s e rest q : received s q -> s ++ e :: rest ≡ₚ ps -> acceptable e.1 (f_end e <? T) e.2 q.
Proof.
  intros Hr Hp. pose proof (tiled_frags _ _ _ Htiled Hpos) as Hw.
  assert (e ∈ ps) as He by (rewrite <- Hp; apply elem_of_app; right; by left).
  destruct (frags_in _ _ _ _ Hw He) as (He0 & Helen & Heend). pose proof (received_limit _ _ Hr) as Hlim.
  assert (zlen s < zlen ps) as Hlen. { unfold zlen. rewrite <- Hp, length_app. cbn. lia. }
  constructor; [done| | | | |].
  - rewrite (qo_count _ (re_ok _ _ Hr)). unfold map_len, zlen in *. rewrite (re_entries _ _ Hr). lia.
  - unfold f_end in Heend. lia.
  - rewrite list.Forall_forall in Hhead. by apply Hhead.
  - unfold clear_of. rewrite (re_entries _ _ Hr). exact (frags_clear _ _ _ _ _ _ Hw Hp).
  - intros Hlast%Z.ltb_ge. assert (f_end e = T) as HeT by lia. split.
    + rewrite (re_total _ _ Hr). case_bool_decide as Hex; [|done]. exfalso. apply Exists_exists in Hex as (x & Hx & HxT).
      pose proof (frags_clear _ _ _ _ _ _ Hw Hp) as Hc. apply (clear_held _ _ _ (T - 1) Hc); [unfold f_end in *; lia|].
      apply Exists_exists. exists x. split; [done|]. assert (x ∈ ps) as Hxp by (rewrite <- Hp; apply elem_of_app; by left).
      destruct (frags_in _ _ _ _ Hw Hxp) as (? & ? & ?). unfold in_frag, f_end in *. lia.
    + rewrite (re_entries _ _ Hr). apply list.Forall_forall. intros x Hx. fold (f_end e). rewrite HeT.
      assert (x ∈ ps) as Hxp by (rewrite <- Hp; apply elem_of_app; by left). by destruct (frags_in _ _ _ _ Hw Hxp) as (? & ? & ?).
Qed.

Lemma received_complete s rest q : received s q -> s ++ rest ≡ₚ ps -> is_complete q = bool_decide (rest = []).
Proof.
  intros Hr Hp. pose proof (tiled_frags _ _ _ Htiled Hpos) as Hw. apply Bool.eq_true_iff_eq. rewrite bool_decide_eq_true, (complete_iff _ (re_ok _ _ Hr)).
  split.
  - intros (T' & HT' & Hall). destruct rest as [|e rest]; [done|]. exfalso.
    assert (e ∈ ps) as He by (rewrite <- Hp; apply elem_of_app; right; by left).
    destruct (frags_in _ _ _ _ Hw He) as (? & ? & ?). pose proof (received_limit _ _ Hr) as Hlim. unfold limit in Hlim. rewrite HT' in Hlim. cbn in Hlim.
    apply (clear_held _ _ _ e.1 (frags_clear _ _ _ _ _ _ Hw Hp)); [unfold f_end; lia|].
    apply (held_perm _ _ _ (re_entries _ _ Hr)). apply Hall. unfold f_end in *. lia.
  - intros ->. rewrite app_nil_r in Hp. exists T. split.
    + rewrite (re_total _ _ Hr). rewrite bool_decide_eq_true_2; [done|]. rewrite Hp. apply Exists_exists. apply (tiled_last _ _ _ Htiled). lia.
    + intros p Hlt. apply (held_perm _ _ _ (re_entries _ _ Hr)). apply (held_perm _ _ _ Hp). by apply (tiled_held _ _ _ _ Htiled).
Qed.

Lemma received_step a s e rest q : received s q -> s ++ e :: rest ≡ₚ ps -> carries a e ->
  exists q', insert (a_allocs a) (a_offset a) (a_more a) (a_data a) (a_now a) q = Ok (Inserted (bool_decide (rest = [])), q') /\ received (e :: s) q'.
Proof.
  intros Hr Hp (-> & -> & -> & Hc & Hmem). pose proof (tiled_frags _ _ _ Htiled Hpos) as Hw.
  assert (e ∈ ps) as He by (rewrite <- Hp; apply elem_of_app; right; by left). destruct (frags_in _ _ _ _ Hw He) as (He0 & _ & Heend).
  assert (zlen s < zlen ps) as Hlen. { unfold zlen. rewrite <- Hp, length_app. cbn. lia. }
  pose proof (received_acceptable _ _ _ _ Hr Hp) as Ha.
  destruct (insert_spec (a_allocs a) (RATE_LIMIT_TOKENS - zlen s) e.1 (f_end e <? T) e.2 (a_now a) q)
    as (r & q' & rl & Hi & Hrl & Hr0 & Hcase); [exact (re_ok _ _ Hr)|exact (re_rate _ _ Hr)| |done..|].
  { unfold RATE_LIMIT_TOKENS, MAX_FRAGS_PER_QUEUE in *. lia. }
  rewrite Hi. destruct r as [c|x].
  - destruct Hcase as (_ & Hen & -> & Hrate). assert (received (e :: s) q') as Hr'.
    { constructor.
      - exact (en_ok _ _ _ _ _ Hen).
      - rewrite (en_entries _ _ _ _ _ Hen). cbn. destruct e. cbn. f_equiv. exact (re_entries _ _ Hr).
      - rewrite (en_total _ _ _ _ _ Hen). fold (f_end e). cbn. destruct (Z.ltb_spec (f_end e) T) as [Hlt|Hge].
        + rewrite (re_total _ _ Hr). assert (Exists (fun e => f_end e = T) s <-> Exists (fun e => f_end e = T) (e :: s)) as Heq.
          { rewrite Exists_cons. split; [by right|]. intros [|]; [lia|done]. }
          by rewrite (bool_decide_ext _ _ Heq).
        + assert (f_end e = T) as HeT by lia. by rewrite HeT, bool_decide_eq_true_2 by (by left).
      - rewrite Hrl, zlen_cons. by replace (RATE_LIMIT_TOKENS - (zlen s + 1)) with (RATE_LIMIT_TOKENS - zlen s - 1) by lia. }
    exists q'. split; [|done]. do 3 f_equal. apply (received_complete (e :: s)); [done|].
    rewrite <- Hp. cbn. by rewrite Permutation_middle.
  - destruct Hcase as [_ Hno]. destruct Hno as [?|[_ ?]]; [|done..]. unfold RATE_LIMIT_TOKENS, MAX_FRAGS_PER_QUEUE in *. lia.
Qed.

(** Every fragment is taken in; the last to arrive, whichever it is, completes
    the datagram. *)
Lemma feed_datagram arr es s q : Forall2 carries arr es -> received s q -> s ++ es ≡ₚ ps -> es <> [] ->
  exists q', feed arr q = Ok (replicate (length arr - 1) (Inserted false) ++ [Inserted true], q') /\ received (rev es ++ s) q'.
Proof.
  intros Harr. revert s q. induction Harr as [|a e arr es Ha Harr IH]; intros s q Hr Hp Hne; [done|].
  destruct (received_step a s e es q Hr Hp Ha) as (q1 & Hi & Hr1). cbn [feed]. rewrite Hi. cbn [res_bind fst snd].
  destruct es as [|e2 es].
  - inversion Harr; subst. cbn. by exists q1.
  - destruct (IH (e :: s) q1 Hr1) as (q' & Hf & Hr'); [|done|].
    { rewrite <- Hp. cbn. by rewrite Permutation_middle. }
    rewrite Hf. exists q'. split; [|change (rev (e :: e2 :: es)) with (rev (e2 :: es) ++ [e]); by rewrite <- app_assoc].
    inversion Harr; subst. rewrite bool_decide_eq_false_2 by done. cbn. by rewrite Nat.sub_0_r.
Qed.

Lemma received_reassemble `{heap : WireHeap} q : received (rev ps) q -> (forall n, wire_admitted n = true) ->
  reassemble q = Some (concat (map snd ps)).
Proof.
  intros Hr Hheap. assert (is_complete q = true) as Hc.
  { rewrite (received_complete (rev ps) [] q Hr); [by rewrite bool_decide_eq_true_2|]. rewrite app_nil_r. symmetry. apply Permutation_rev. }
  destruct (reassemble_spec q (re_ok _ _ Hr) Hc) as (T' & HT' & Ht' & ->). rewrite Hheap. do 3 f_equal.
  assert (limit q = T) as Hlim.
  { unfold limit. rewrite (re_total _ _ Hr). rewrite bool_decide_eq_true_2; [done|]. rewrite <- Permutation_rev. apply Exists_exists.
    apply (tiled_last _ _ _ Htiled). lia. }
  pose proof (qo_frags _ (re_ok _ _ Hr)) as Hw. rewrite Hlim in Hw.
  apply (frags_perm_eq _ _ _ _ Hw (tiled_frags _ _ _ Htiled Hpos)). by rewrite (re_entries _ _ Hr), <- Permutation_rev.
Qed.
End datagram.
