(* ===== verification/FragCache.v ===== *)
(** The fragment cache (src/kernel/net/src/fragment.rs): reassembly queues with
    their per-source, per-namespace and global budgets. [process_fragment] is a
    sequence of critical sections; a transaction between two of them is a
    [Phase], so that the sections of different lanes interleave. *)

From Stdlib Require Import ZArith Lia.
From stdpp Require Import base list list_numbers numbers.
From S2P Require Import Prelude Machine OrdMap Wire Frag.

Definition MAX_QUEUES_PER_SRC : Z := 256.
Definition GLOBAL_MAX_QUEUES : Z := 4096.
Definition GLOBAL_MAX_FRAGS : Z := 32768.
Definition GLOBAL_MAX_FRAG_BYTES : Z := 64 * 1024 * 1024.
Definition MAX_QUEUES_PER_NS : Z := GLOBAL_MAX_QUEUES / 4.
Definition MAX_FRAGS_PER_NS : Z := GLOBAL_MAX_FRAGS / 4.
Definition MAX_BYTES_PER_NS : Z := GLOBAL_MAX_FRAG_BYTES / 4.
Definition FRAGMENT_TRANSACTION_SLOTS : Z := 64.

(** * Keys *)
Record FragmentKey := mkKey { net_ns_id : Z; key_src : Ipv4Addr; key_dst : Ipv4Addr; key_protocol : Z; key_identification : Z }.

#[export] Instance FragmentKey_eq_dec : EqDecision FragmentKey.
Proof. solve_decision. Defined.

(** The derived order: the fields in their order of declaration *)
Definition key_fields (k : FragmentKey) : list Z :=
  net_ns_id k :: octets (key_src k) ++ octets (key_dst k) ++ [key_protocol k; key_identification k].
#[export] Instance FragmentKey_ord : Ord FragmentKey := fun a b => list_cmp (key_fields a) (key_fields b).
#[export] Instance source_ord : Ord (Z * Z) := fun a b => list_cmp [a.1; a.2] [b.1; b.2].

Definition from_header (ns : Z) (h : Ipv4Header) : FragmentKey := mkKey ns (ip_src h) (ip_dst h) (protocol h) (identification h).

Definition src_ip (k : FragmentKey) : Z :=
  oct0 (key_src k) * 2 ^ 24 + oct1 (key_src k) * 2 ^ 16 + oct2 (key_src k) * 2 ^ 8 + oct3 (key_src k).
Definition source_of (k : FragmentKey) : Z * Z := (net_ns_id k, src_ip k).

(** * Growth of an admitted map (src/kernel/net/src/admitted.rs) *)
Record CapacityPlan := mkPlan { required : Z; preferred : Z }.

Definition growth_target (current required : Z) : res AdmittedAllocError Z :=
  if required <=? current then Ok current else
  let? doubled := ok_or (checked_mul (Z.max current 4) 2) Arithmetic in
  Ok (Z.max required doubled).

Definition capacity_plan (len capacity additional : Z) : res AdmittedAllocError (option CapacityPlan) :=
  let? required := ok_or (checked_add len additional) Arithmetic in
  if required <=? capacity then Ok None else
  let? preferred := growth_target capacity required in
  Ok (Some (mkPlan required preferred)).

Definition capacity_plan_for {K V} (additional : Z) (m : OrdMap K V) : res AdmittedAllocError (option CapacityPlan) :=
  capacity_plan (map_len m) (capacity m) additional.

(** [PreparedAdmittedMapCapacity::try_from_plan]: the preferred capacity, else the
    required one. The answers are what the heap gives beyond each request. *)
Definition try_new_capacity (target : Z) (answer : option Z) : option Z := (fun spare => target + Z.max spare 0) <$> answer.
Definition try_from_plan (plan : CapacityPlan) (answers : option Z * option Z) : option Z :=
  match try_new_capacity (preferred plan) answers.1 with
  | Some cap => Some cap
  | None => if preferred plan =? required plan then None else try_new_capacity (required plan) answers.2
  end.

(** [install_prepared_deferred]; [committed]: the ledger turned the reservation into a charge *)
Definition install_prepared {K V} (prepared : Z) (committed : bool) (m : OrdMap K V) : option (OrdMap K V) :=
  if prepared <? map_len m then None else if committed then replace_backing prepared m else None.

(** * Budgets *)
Record PerNsBudget := mkBudget { b_queues : Z; b_frags : Z; b_bytes : Z }.
Definition no_budget : PerNsBudget := mkBudget 0 0 0.

Abbreviation NsCounts := (OrdMap Z PerNsBudget).

Definition per_ns_charge_queue (m : NsCounts) (ns : Z) : res FragmentDropReason NsCounts :=
  match get m ns with
  | Some b =>
      let? queues := or_panic (checked_add (b_queues b) 1) in
      Ok (update m ns (fun b => mkBudget queues (b_frags b) (b_bytes b)))
  | None => or_panic (insert_unique_reserved ns (mkBudget 1 0 0) m)
  end.
Definition per_ns_charge_frag (m : NsCounts) (ns : Z) : res FragmentDropReason NsCounts :=
  let? b := or_panic (get m ns) in
  if u32_max <? b_frags b + 1 then Panic else
  Ok (update m ns (fun b => mkBudget (b_queues b) (b_frags b + 1) (b_bytes b))).
Definition per_ns_charge_bytes (m : NsCounts) (ns n : Z) : res FragmentDropReason NsCounts :=
  let? b := or_panic (get m ns) in
  let? bytes := or_panic (checked_add (b_bytes b) n) in
  Ok (update m ns (fun b => mkBudget (b_queues b) (b_frags b) bytes)).

Definition per_ns_prune_if_zero (m : NsCounts) (ns : Z) : NsCounts :=
  match get m ns with
  | Some b => if (b_queues b =? 0) && (b_frags b =? 0) && (b_bytes b =? 0) then (remove ns m).2 else m
  | None => m
  end.
Definition per_ns_release_queue (m : NsCounts) (ns : Z) : NsCounts :=
  per_ns_prune_if_zero (update m ns (fun b => mkBudget (saturating_sub (b_queues b) 1) (b_frags b) (b_bytes b))) ns.
Definition per_ns_release_frags (m : NsCounts) (ns n : Z) : NsCounts :=
  per_ns_prune_if_zero (update m ns (fun b => mkBudget (b_queues b) (saturating_sub (b_frags b) n) (b_bytes b))) ns.
Definition per_ns_release_bytes (m : NsCounts) (ns n : Z) : NsCounts :=
  per_ns_prune_if_zero (update m ns (fun b => mkBudget (b_queues b) (b_frags b) (saturating_sub (b_bytes b) n))) ns.

(** The count of a source; its row goes when it reaches zero. *)
Definition release_source (source : Z * Z) (m : OrdMap (Z * Z) Z) : OrdMap (Z * Z) Z :=
  match get m source with
  | Some count =>
      let m := update m source (fun count => saturating_sub count 1) in
      if saturating_sub count 1 =? 0 then (remove source m).2 else m
  | None => m
  end.
Definition charge_source (source : Z * Z) (m : OrdMap (Z * Z) Z) : res FragmentDropReason (OrdMap (Z * Z) Z) :=
  match get m source with
  | Some count => let? count := or_panic (checked_add count 1) in Ok (update m source (fun _ => count))
  | None => or_panic (insert_unique_reserved source 1 m)
  end.

(** * Statistics *)
Record FragmentStats := mkStats {
  fragments_received : Z; reassembled : Z; timeout_drops : Z; overlap_drops : Z; queue_limit_drops : Z;
  global_limit_drops : Z; rate_limit_drops : Z; first_too_small_drops : Z; too_large_drops : Z;
  active_queues : Z; buffered_fragments : Z; buffered_bytes : Z;
}.
Definition stats_new : FragmentStats := mkStats 0 0 0 0 0 0 0 0 0 0 0 0.

Inductive Counter :=
| Received | Reassembled | TimeoutDrops | OverlapDrops | QueueLimitDrops | GlobalLimitDrops | RateLimitDrops
| FirstTooSmallDrops | TooLargeDrops.

Definition wrap64 (v : Z) : Z := v mod 2 ^ 64.

#[export] Instance Counter_eq_dec : EqDecision Counter.
Proof. solve_decision. Defined.

(** [fetch_add(1)] on an event counter *)
Definition bump (c : Counter) (s : FragmentStats) : FragmentStats :=
  let inc c' v := if decide (c = c') then wrap64 (v + 1) else v in
  mkStats (inc Received (fragments_received s)) (inc Reassembled (reassembled s)) (inc TimeoutDrops (timeout_drops s))
    (inc OverlapDrops (overlap_drops s)) (inc QueueLimitDrops (queue_limit_drops s))
    (inc GlobalLimitDrops (global_limit_drops s)) (inc RateLimitDrops (rate_limit_drops s))
    (inc FirstTooSmallDrops (first_too_small_drops s)) (inc TooLargeDrops (too_large_drops s))
    (active_queues s) (buffered_fragments s) (buffered_bytes s).

(** The three gauges *)
Definition set_gauges (s : FragmentStats) (queues frags bytes : Z) : FragmentStats :=
  mkStats (fragments_received s) (reassembled s) (timeout_drops s) (overlap_drops s) (queue_limit_drops s)
    (global_limit_drops s) (rate_limit_drops s) (first_too_small_drops s) (too_large_drops s) queues frags bytes.
Definition gauge_sub (queues frags bytes : Z) (s : FragmentStats) : FragmentStats :=
  set_gauges s (wrap32 (active_queues s - queues)) (wrap32 (buffered_fragments s - frags)) (wrap64 (buffered_bytes s - bytes)).
Definition gauge_add (queues frags bytes : Z) (s : FragmentStats) : FragmentStats :=
  set_gauges s (wrap32 (active_queues s + queues)) (wrap32 (buffered_fragments s + frags)) (wrap64 (buffered_bytes s + bytes)).

Definition try_reserve_fragment (max_frags : Z) (s : FragmentStats) : option FragmentStats :=
  if buffered_fragments s <? max_frags
  then Some (set_gauges s (active_queues s) (buffered_fragments s + 1) (buffered_bytes s)) else None.
Definition try_reserve_bytes (bytes max_bytes : Z) (s : FragmentStats) : option FragmentStats :=
  let new_val := saturating_add (buffered_bytes s) bytes in
  if new_val <=? max_bytes then Some (set_gauges s (active_queues s) (buffered_fragments s) new_val) else None.
Definition release_fragment (s : FragmentStats) : FragmentStats :=
  set_gauges s (active_queues s) (saturating_sub (buffered_fragments s) 1) (buffered_bytes s).
Definition release_bytes (bytes : Z) (s : FragmentStats) : FragmentStats :=
  set_gauges s (active_queues s) (buffered_fragments s) (saturating_sub (buffered_bytes s) bytes).

Definition record_drop_reason (reason : FragmentDropReason) (s : FragmentStats) : FragmentStats :=
  match reason with
  | RateLimited => bump RateLimitDrops s
  | FirstTooSmall => bump FirstTooSmallDrops s
  | TooLarge => bump TooLargeDrops s
  | QueueFragLimit | QueueByteLimit | PerSourceLimit | PerNsQueueLimit => bump QueueLimitDrops s
  | GlobalQueueLimit | GlobalFragLimit | GlobalByteLimit | PerNsFragLimit | PerNsByteLimit => bump GlobalLimitDrops s
  | Overlap | DuplicateFragment => bump OverlapDrops s
  | FragTimeout | ZeroLength => s
  end.

(** * The cache *)
Record FragmentCache := mkCache {
  c_queues : OrdMap FragmentKey FragmentQueue; c_per_src : OrdMap (Z * Z) Z; c_per_ns : NsCounts; c_stats : FragmentStats;
}.
Definition cache_new : FragmentCache := mkCache map_new map_new map_new stats_new.

Definition with_stats (f : FragmentStats -> FragmentStats) (c : FragmentCache) : FragmentCache :=
  mkCache (c_queues c) (c_per_src c) (c_per_ns c) (f (c_stats c)).

(** What one call of [process_fragment] works on *)
Record Tx := mkTx { t_key : FragmentKey; t_offset : Z; t_more : bool; t_payload : list Z; t_now : Z }.

(** The release of a queue that leaves the cache, from every index and gauge *)
Definition retire (key : FragmentKey) (frags bytes : Z) (c : FragmentCache) : FragmentCache :=
  let ns := net_ns_id key in
  mkCache (c_queues c) (release_source (source_of key) (c_per_src c))
    (per_ns_release_bytes (per_ns_release_frags (per_ns_release_queue (c_per_ns c) ns) ns frags) ns bytes)
    (gauge_sub 1 frags bytes (c_stats c)).

(** The owner removed from the cache *)
Definition take_queue (key : FragmentKey) (c : FragmentCache) : option (FragmentQueue * FragmentCache) :=
  let '(owner, queues) := remove key (c_queues c) in
  (fun owner => (owner, mkCache queues (c_per_src c) (c_per_ns c) (c_stats c))) <$> owner.

Definition expire (key : FragmentKey) (c : FragmentCache) : res FragmentDropReason FragmentCache :=
  let? oc := or_panic (take_queue key c) in
  Ok (with_stats (bump TimeoutDrops) (retire key (received_frags oc.1) (received_bytes oc.1) oc.2)).

(** ** A fragment of a queue that exists *)

(** The tests and charges under the locks, after which the queue is detached; a
    fragment that fails the last test gives back what the others charged. *)
Definition charge_existing (key : FragmentKey) (len : Z) (owner : FragmentQueue) (c : FragmentCache)
  : res FragmentDropReason (FragmentCache * option FragmentDropReason) :=
  if MAX_FRAGS_PER_QUEUE <=? received_frags owner then Ok (c, Some QueueFragLimit) else
  if MAX_BYTES_PER_QUEUE <? saturating_add (received_bytes owner) len then Ok (c, Some QueueByteLimit) else
  let ns := default no_budget (get (c_per_ns c) (net_ns_id key)) in
  if negb (net_ns_id key =? 0) && (MAX_FRAGS_PER_NS <=? b_frags ns) then Ok (c, Some PerNsFragLimit) else
  if negb (net_ns_id key =? 0) && (MAX_BYTES_PER_NS <? saturating_add (b_bytes ns) len) then Ok (c, Some PerNsByteLimit) else
  match try_reserve_fragment GLOBAL_MAX_FRAGS (c_stats c) with
  | None => Ok (c, Some GlobalFragLimit)
  | Some stats =>
      let? per_ns := per_ns_charge_frag (c_per_ns c) (net_ns_id key) in
      match try_reserve_bytes len GLOBAL_MAX_FRAG_BYTES stats with
      | None =>
          Ok (mkCache (c_queues c) (c_per_src c) (per_ns_release_frags per_ns (net_ns_id key) 1) (release_fragment stats),
              Some GlobalByteLimit)
      | Some stats =>
          let? per_ns := per_ns_charge_bytes per_ns (net_ns_id key) len in
          Ok (mkCache (c_queues c) (c_per_src c) per_ns stats, None)
      end
  end.

Definition publish (key : FragmentKey) (owner : FragmentQueue) (c : FragmentCache) : res FragmentDropReason FragmentCache :=
  let? queues := or_panic (insert_unique_reserved key owner (c_queues c)) in
  Ok (mkCache queues (c_per_src c) (c_per_ns c) (c_stats c)).

Definition discards (reason : FragmentDropReason) : bool :=
  match reason with Overlap | DuplicateFragment | FirstTooSmall => true | _ => false end.

(** The end of a rejected fragment: its own charge goes, the queue goes with it
    or comes back. *)
Definition reject (t : Tx) (owner : FragmentQueue) (reason : FragmentDropReason) (c : FragmentCache)
  : res FragmentDropReason FragmentCache :=
  let ns := net_ns_id (t_key t) in
  let per_ns := per_ns_release_bytes (per_ns_release_frags (c_per_ns c) ns 1) ns (zlen (t_payload t)) in
  let c := mkCache (c_queues c) (c_per_src c) per_ns (c_stats c) in
  if discards reason then Ok (retire (t_key t) (received_frags owner) (received_bytes owner) c)
  else publish (t_key t) owner c.

(** ** The first fragment of a queue *)
Record Victim := mkVictim { v_key : FragmentKey; v_frags : Z; v_bytes : Z }.

(** [min_by_key(created_ms)] among the queues of a namespace: the first of the oldest *)
Fixpoint oldest (ns : Z) (l : list (FragmentKey * FragmentQueue)) : option (FragmentKey * FragmentQueue) :=
  match l with
  | [] => None
  | kq :: l =>
      if net_ns_id kq.1 =? ns then
        match oldest ns l with
        | Some kq' => if created_ms kq'.2 <? created_ms kq.2 then Some kq' else Some kq
        | None => Some kq
        end
      else oldest ns l
  end.

Definition choose_victim (key : FragmentKey) (c : FragmentCache) : res FragmentDropReason (option Victim) :=
  let ns := default no_budget (get (c_per_ns c) (net_ns_id key)) in
  let need_ns_victim := negb (net_ns_id key =? 0) && (MAX_QUEUES_PER_NS <=? b_queues ns) in
  let need_global_victim := GLOBAL_MAX_QUEUES <=? map_len (c_queues c) in
  if need_ns_victim || need_global_victim then
    let? chosen := ok_or (oldest (net_ns_id key) (entries (c_queues c)))
                     (if need_ns_victim then PerNsQueueLimit else GlobalQueueLimit) in
    let? owner := or_panic (get (c_queues c) chosen.1) in
    Ok (Some (mkVictim chosen.1 (received_frags owner) (received_bytes owner)))
  else Ok None.

(** Whether the victim is the last queue of its source, or of its namespace *)
Definition frees_source (victim : option Victim) (m : OrdMap (Z * Z) Z) : bool :=
  default false (v ← victim; count ← get m (source_of (v_key v)); Some (count =? 1)).
Definition frees_ns (victim : option Victim) (m : NsCounts) : bool :=
  default false (v ← victim; b ← get m (net_ns_id (v_key v)); Some (b_queues b =? 1)).

Record Plans := mkPlans { p_queues : option CapacityPlan; p_src : option CapacityPlan; p_ns : option CapacityPlan }.

Definition plan_if {K V} (needed : bool) (m : OrdMap K V) : res FragmentDropReason (option CapacityPlan) :=
  if needed then match capacity_plan_for 1 m with Ok plan => Ok plan | _ => Err GlobalQueueLimit end else Ok None.

Definition check_limits (key : FragmentKey) (len : Z) (victim : option Victim) (c : FragmentCache) : res FragmentDropReason unit :=
  let ns := default no_budget (get (c_per_ns c) (net_ns_id key)) in
  let tenant := negb (net_ns_id key =? 0) in
  let same_ns := match victim with Some v => net_ns_id (v_key v) =? net_ns_id key | None => false end in
  let frags := match victim with Some v => v_frags v | None => 0 end in
  let bytes := match victim with Some v => v_bytes v | None => 0 end in
  let victim_frags := if same_ns then frags else 0 in
  let victim_bytes := if same_ns then bytes else 0 in
  if tenant && (MAX_QUEUES_PER_NS <=? saturating_sub (b_queues ns) (Z.b2z same_ns)) then Err PerNsQueueLimit else
  if tenant && (MAX_FRAGS_PER_NS <=? saturating_sub (b_frags ns) victim_frags) then Err PerNsFragLimit else
  if tenant && (MAX_BYTES_PER_NS <? saturating_add (saturating_sub (b_bytes ns) victim_bytes) len) then Err PerNsByteLimit else
  if GLOBAL_MAX_FRAGS <=? saturating_sub (buffered_fragments (c_stats c)) frags then Err GlobalFragLimit else
  if GLOBAL_MAX_FRAG_BYTES <? saturating_add (saturating_sub (buffered_bytes (c_stats c)) bytes) len then Err GlobalByteLimit else
  let source_count := default 0 (get (c_per_src c) (source_of key)) in
  let same_source := match victim with Some v => bool_decide (source_of (v_key v) = source_of key) | None => false end in
  if MAX_QUEUES_PER_SRC <=? saturating_sub source_count (Z.b2z same_source) then Err PerSourceLimit else Ok tt.

Definition is_none {A} (o : option A) : bool := match o with None => true | Some _ => false end.

(** The section that looks for a victim, tests the limits and says what to grow *)
Definition plan (t : Tx) (c : FragmentCache) : res FragmentDropReason (option Victim * Plans) :=
  let key := t_key t in
  if contains_key (c_queues c) key then Err DuplicateFragment else
  let? victim := choose_victim key c in
  let? _ := check_limits key (zlen (t_payload t)) victim c in
  let? queue_plan := plan_if (is_none victim) (c_queues c) in
  let? source_plan := plan_if (negb (contains_key (c_per_src c) (source_of key)) && negb (frees_source victim (c_per_src c))) (c_per_src c) in
  let? ns_plan := plan_if (negb (contains_key (c_per_ns c) (net_ns_id key)) && negb (frees_ns victim (c_per_ns c))) (c_per_ns c) in
  Ok (victim, mkPlans queue_plan source_plan ns_plan).

Record Capacities := mkCaps { k_queues : option Z; k_src : option Z; k_ns : option Z }.

(** [plan.map(try_from_plan).transpose()] *)
Definition prepare_one (plan : option CapacityPlan) (answers : option Z * option Z) : res FragmentDropReason (option Z) :=
  match plan with
  | None => Ok None
  | Some plan => let? cap := ok_or (try_from_plan plan answers) GlobalQueueLimit in Ok (Some cap)
  end.

(** The capacity a map needs for one more entry, from what was prepared *)
Definition install_if {K V} (needed : bool) (prepared : option Z) (committed : bool) (m : OrdMap K V)
  : res FragmentDropReason (OrdMap K V) :=
  if negb needed then Ok m else
  match capacity_plan_for 1 m with
  | Ok None => Ok m
  | Ok (Some plan) =>
      match prepared with
      | Some cap => if required plan <=? cap then ok_or (install_prepared cap committed m) GlobalQueueLimit else Err GlobalQueueLimit
      | None => Err GlobalQueueLimit
      end
  | _ => Err GlobalQueueLimit
  end.

(** What the allocator and the heap ledger answer during one section *)
Record TxAllocs := mkTxAllocs {
  al_new : bool; al_insert : FragAllocs; al_owner : bool; al_wire : WireHeap;
  al_queues : option Z * option Z; al_src : option Z * option Z; al_ns : option Z * option Z;
  al_commit_queues : bool; al_commit_src : bool; al_commit_ns : bool;
}.

Definition prepare (al : TxAllocs) (p : Plans) : res FragmentDropReason Capacities :=
  let? queues := prepare_one (p_queues p) (al_queues al) in
  let? src := prepare_one (p_src p) (al_src al) in
  let? ns := prepare_one (p_ns p) (al_ns al) in
  Ok (mkCaps queues src ns).

(** Growth of the three indexes; one that fails leaves those before it grown. *)
Definition grow (al : TxAllocs) (key : FragmentKey) (victim : option Victim) (caps : Capacities) (c : FragmentCache)
  : FragmentCache * option FragmentDropReason :=
  match install_if (is_none victim) (k_queues caps) (al_commit_queues al) (c_queues c) with
  | Ok queues =>
      let c := mkCache queues (c_per_src c) (c_per_ns c) (c_stats c) in
      match install_if (negb (contains_key (c_per_src c) (source_of key)) && negb (frees_source victim (c_per_src c)))
              (k_src caps) (al_commit_src al) (c_per_src c) with
      | Ok per_src =>
          let c := mkCache (c_queues c) per_src (c_per_ns c) (c_stats c) in
          match install_if (negb (contains_key (c_per_ns c) (net_ns_id key)) && negb (frees_ns victim (c_per_ns c)))
                  (k_ns caps) (al_commit_ns al) (c_per_ns c) with
          | Ok per_ns => (mkCache (c_queues c) (c_per_src c) per_ns (c_stats c), None)
          | _ => (c, Some GlobalQueueLimit)
          end
      | _ => (c, Some GlobalQueueLimit)
      end
  | _ => (c, Some GlobalQueueLimit)
  end.

Definition evict (victim : option Victim) (c : FragmentCache) : res FragmentDropReason FragmentCache :=
  match victim with
  | None => Ok c
  | Some v =>
      let? oc := or_panic (take_queue (v_key v) c) in
      Ok (with_stats (bump TimeoutDrops) (retire (v_key v) (v_frags v) (v_bytes v) oc.2))
  end.

(** The new queue becomes reachable, with its charges. *)
Definition open_queue (t : Tx) (owner : FragmentQueue) (c : FragmentCache) : res FragmentDropReason FragmentCache :=
  let ns := net_ns_id (t_key t) in
  let? c := publish (t_key t) owner c in
  let? per_src := charge_source (source_of (t_key t)) (c_per_src c) in
  let? per_ns := per_ns_charge_queue (c_per_ns c) ns in
  let? per_ns := per_ns_charge_frag per_ns ns in
  let? per_ns := per_ns_charge_bytes per_ns ns (zlen (t_payload t)) in
  Ok (mkCache (c_queues c) per_src per_ns (gauge_add 1 1 (zlen (t_payload t)) (c_stats c))).

Definition commit (al : TxAllocs) (t : Tx) (owner : FragmentQueue) (victim : option Victim) (caps : Capacities) (c : FragmentCache)
  : res FragmentDropReason (FragmentCache * option FragmentDropReason) :=
  let gone := match victim with Some v => negb (contains_key (c_queues c) (v_key v)) | None => false end in
  if contains_key (c_queues c) (t_key t) || gone then Ok (c, Some DuplicateFragment) else
  match grow al (t_key t) victim caps c with
  | (c, Some reason) => Ok (c, Some reason)
  | (c, None) =>
      let? c := evict victim c in
      let? c := open_queue t owner c in
      Ok (c, None)
  end.

(** * A transaction between its critical sections *)
Abbreviation Outcome := (res FragmentDropReason (option (list Z))).

Inductive Phase :=
| Idle
| Expiring (t : Tx)
| Looking (t : Tx)
| Existing (t : Tx)
| Detached (t : Tx) (owner : FragmentQueue)
| Completing (t : Tx) (owner : FragmentQueue) (packet : option (list Z))
| Reinserting (t : Tx) (owner : FragmentQueue)
| Failing (t : Tx) (owner : FragmentQueue) (reason : FragmentDropReason)
| Rejecting (t : Tx) (owner : FragmentQueue) (reason : FragmentDropReason)
| Fresh (t : Tx)
| Candidate (t : Tx) (owner : FragmentQueue)
| Planned (t : Tx) (owner : FragmentQueue) (victim : option Victim) (plans : Plans)
| Prepared (t : Tx) (owner : FragmentQueue) (victim : option Victim) (caps : Capacities)
| Returned (r : Outcome).

(** A drop that is recorded *)
Definition drop_with (reason : FragmentDropReason) (c : FragmentCache) : FragmentCache * Phase :=
  (with_stats (record_drop_reason reason) c, Returned (Err reason)).

(** The packet of a complete queue, or a drop for want of memory *)
Definition deliver (packet : option (list Z)) (c : FragmentCache) : FragmentCache * Phase :=
  (with_stats (bump (if packet then Reassembled else GlobalLimitDrops)) c, Returned (Ok packet)).

(** The section after the lane is taken: an expired queue goes, and the fragment with it. *)
Definition expire_section (t : Tx) (c : FragmentCache) : res FragmentDropReason (FragmentCache * Phase) :=
  match get (c_queues c) (t_key t) with
  | Some owner =>
      if is_expired owner (t_now t) then let? c := expire (t_key t) c in Ok (c, Returned (Err FragTimeout)) else Ok (c, Looking t)
  | None => Ok (c, Looking t)
  end.

Definition detach_section (t : Tx) (c : FragmentCache) : res FragmentDropReason (FragmentCache * Phase) :=
  match get (c_queues c) (t_key t) with
  | None => Ok (c, Fresh t)
  | Some owner =>
      let? cr := charge_existing (t_key t) (zlen (t_payload t)) owner c in
      match cr with
      | (c, Some reason) => Ok (drop_with reason c)
      | (c, None) => let? oc := or_panic (take_queue (t_key t) c) in Ok (oc.2, Detached t oc.1)
      end
  end.

(** The insertion into the detached queue, outside the locks *)
Definition insert_detached (al : TxAllocs) (t : Tx) (owner : FragmentQueue) (c : FragmentCache)
  : res FragmentDropReason (FragmentCache * Phase) :=
  let? rq := insert (al_insert al) (t_offset t) (t_more t) (t_payload t) (t_now t) owner in
  match rq with
  | (Inserted true, owner) => Ok (c, Completing t owner (@reassemble (al_wire al) owner))
  | (Inserted false, owner) => Ok (c, Reinserting t owner)
  | (Dropped reason, owner) => Ok (with_stats release_fragment c, Failing t owner reason)
  end.

(** The head of [process_new_fragment]: the queue is built before it is planned. *)
Definition build_queue (al : TxAllocs) (t : Tx) (c : FragmentCache) : res FragmentDropReason (FragmentCache * Phase) :=
  match queue_new (al_new al) (t_now t) with
  | Ok queue =>
      let? rq := insert (al_insert al) (t_offset t) (t_more t) (t_payload t) (t_now t) queue in
      match rq with
      | (Inserted true, queue) => Ok (deliver (@reassemble (al_wire al) queue) c)
      | (Inserted false, queue) => if al_owner al then Ok (c, Candidate t queue) else Ok (drop_with QueueByteLimit c)
      | (Dropped reason, _) => Ok (drop_with reason c)
      end
  | Err reason => Ok (drop_with reason c)
  | Panic => Panic
  end.

Definition tx_step (al : TxAllocs) (ph : Phase) (c : FragmentCache) : res FragmentDropReason (FragmentCache * Phase) :=
  match ph with
  | Idle | Returned _ => Ok (c, ph)
  | Expiring t => expire_section t c
  | Looking t => Ok (c, if contains_key (c_queues c) (t_key t) then Existing t else Fresh t)
  | Existing t => detach_section t c
  | Detached t owner => insert_detached al t owner c
  | Completing t owner packet => Ok (deliver packet (retire (t_key t) (received_frags owner) (received_bytes owner) c))
  | Reinserting t owner => let? c := publish (t_key t) owner c in Ok (c, Returned (Ok None))
  | Failing t owner reason => Ok (with_stats (release_bytes (zlen (t_payload t))) c, Rejecting t owner reason)
  | Rejecting t owner reason => let? c := reject t owner reason c in Ok (drop_with reason c)
  | Fresh t => build_queue al t c
  | Candidate t owner =>
      match plan t c with
      | Ok (victim, plans) => Ok (c, Planned t owner victim plans)
      | Err reason => Ok (drop_with reason c)
      | Panic => Panic
      end
  | Planned t owner victim plans =>
      match prepare al plans with
      | Ok caps => Ok (c, Prepared t owner victim caps)
      | Err reason => Ok (drop_with reason c)
      | Panic => Panic
      end
  | Prepared t owner victim caps =>
      let? cr := commit al t owner victim caps c in
      match cr with
      | (c, Some reason) => Ok (drop_with reason c)
      | (c, None) => Ok (c, Returned (Ok None))
      end
  end.

(** * Lanes *)

(** The lane of a namespace *)
Definition transaction_slot (ns : Z) : nat :=
  let x := Z.lxor ns (Z.shiftr ns 32) in
  let x := Z.lxor x (Z.shiftr x 16) in
  let x := wrap64 (x * 2654435769) in
  Z.to_nat (Z.land x (FRAGMENT_TRANSACTION_SLOTS - 1)).

(** The cache and, for each lane, the transaction that holds it *)
Record System := mkSys { s_cache : FragmentCache; s_lanes : list Phase }.
Definition sys_new : System := mkSys cache_new (replicate 64 Idle).

Definition busy (ph : Phase) : bool := match ph with Idle => false | _ => true end.

(** [process_fragment] up to its first section: a busy lane drops the fragment. *)
Definition start (ns : Z) (h : Ipv4Header) (payload : list Z) (now : Z) (s : System) : System :=
  let c := with_stats (bump Received) (s_cache s) in
  let slot := transaction_slot ns in
  match s_lanes s !! slot with
  | Some Idle =>
      mkSys c (<[slot := Expiring (mkTx (from_header ns h) (fragment_offset h * 8) (more_fragments h) payload now)]> (s_lanes s))
  | _ => mkSys (with_stats (bump RateLimitDrops) c) (s_lanes s)
  end.

(** [try_cleanup_transaction]: every lane, in order; at the first that is held
    the lanes before it are released. *)
Fixpoint try_cleanup_transaction (acquired : list bool) (slots : list bool) : bool * list bool :=
  match slots with
  | [] => (true, acquired)
  | true :: _ => (false, map (fun _ => false) acquired ++ slots)
  | false :: slots => try_cleanup_transaction (acquired ++ [true]) slots
  end.

(** The loop of [cleanup_expired]: the first expired queue goes until there is none. *)
Fixpoint sweep (fuel : nat) (now removed : Z) (c : FragmentCache) : res FragmentDropReason (FragmentCache * Z) :=
  match fuel, List.find (fun kq => is_expired kq.2 now) (entries (c_queues c)) with
  | S fuel, Some kq => let? c := expire kq.1 c in sweep fuel now (saturating_add removed 1) c
  | _, _ => Ok (c, removed)
  end.

Definition cleanup_expired (now : Z) (s : System) : res FragmentDropReason (System * Z) :=
  let '(owned, _) := try_cleanup_transaction [] (map busy (s_lanes s)) in
  if owned then
    let? cn := sweep (length (entries (c_queues (s_cache s)))) now 0 (s_cache s) in
    Ok (mkSys cn.1 (s_lanes s), cn.2)
  else Ok (s, 0).

(** What can happen next: a fragment arrives, the transaction of a lane runs its
    next section or, at its end, drops its permit, the timer sweeps. *)
Inductive Event :=
| Arrive (ns : Z) (h : Ipv4Header) (payload : list Z) (now : Z)
| Run (lane : nat) (al : TxAllocs)
| Leave (lane : nat)
| Cleanup (now : Z).

Definition exec (e : Event) (s : System) : res FragmentDropReason System :=
  match e with
  | Arrive ns h payload now => Ok (start ns h payload now s)
  | Run lane al =>
      match s_lanes s !! lane with
      | Some ph => let? cp := tx_step al ph (s_cache s) in Ok (mkSys cp.1 (<[lane := cp.2]> (s_lanes s)))
      | None => Ok s
      end
  | Leave lane =>
      match s_lanes s !! lane with
      | Some (Returned _) => Ok (mkSys (s_cache s) (<[lane := Idle]> (s_lanes s)))
      | _ => Ok s
      end
  | Cleanup now => let? sn := cleanup_expired now s in Ok sn.1
  end.

Fixpoint exec_all (es : list Event) (s : System) : res FragmentDropReason System :=
  match es with
  | [] => Ok s
  | e :: es => let? s := exec e s in exec_all es s
  end.

(** One call without interference: at most seven sections *)
Fixpoint run_tx (n : nat) (al : TxAllocs) (ph : Phase) (c : FragmentCache) : res FragmentDropReason (FragmentCache * Phase) :=
  match n with
  | O => Ok (c, ph)
  | S n => let? cp := tx_step al ph c in run_tx n al cp.2 cp.1
  end.

Definition process_fragment (al : TxAllocs) (ns : Z) (h : Ipv4Header) (payload : list Z) (now : Z) (c : FragmentCache)
  : res FragmentDropReason (FragmentCache * Phase) :=
  run_tx 7 al (Expiring (mkTx (from_header ns h) (fragment_offset h * 8) (more_fragments h) payload now))
    (with_stats (bump Received) c).
