(* ===== verification/FragBooks.v ===== *)
(** Tables of counters kept against a ledger: the per-source and per-namespace
    rows of the fragment cache agree with the queues they count. *)

From Stdlib Require Import ZArith Lia.
From stdpp Require Import base list list_numbers numbers sorting.
From S2P Require Import Prelude Machine OrdMap OrdMapFacts Wire Frag FragCache.

(** * Orders of the keys *)
Lemma by_fields_laws {K} (fields : K -> list Z) `{!Inj (=) (=) fields} :
  @OrdLaws K (fun a b => list_cmp (fields a) (fields b)).
Proof.
  split; intros *; unfold cmp.
  - rewrite list_cmp_eq. split; [apply (inj fields)|by intros ->].
  - apply list_cmp_antisym.
  - apply list_cmp_trans.
Qed.

#[export] Instance FragmentKey_ord_laws : OrdLaws FragmentKey.
Proof.
  apply by_fields_laws. intros [n1 [a1 a2 a3 a4] [b1 b2 b3 b4] p1 i1] [n2 [c1 c2 c3 c4] [d1 d2 d3 d4] p2 i2]. cbn.
  by intros [= -> -> -> -> -> -> -> -> -> -> ->].
Qed.

#[export] Instance source_ord_laws : OrdLaws (Z * Z).
Proof. unshelve eapply (by_fields_laws (fun a => [a.1; a.2])). intros [] []. cbn. by intros [= -> ->]. Qed.

(** * Rows that go when they are zero *)
Section rows.
Context {K V F : Type} `{OrdLaws K, !EqDecision K}.
Context (amt : F -> V -> Z) (zero : V) (isz : V -> bool).
Context (amt_zero : forall fd, amt fd zero = 0) (isz_spec : forall v, isz v = true <-> v = zero).
Implicit Types (m : OrdMap K V) (k : K) (v : V).

Definition row m k : V := default zero (get m k).
Definition rows (fd : F) m : Z := sumZ (fun kv => amt fd kv.2) (entries m).
Definition tidy m : Prop := forall k v, get m k = Some v -> isz v = false.

(** [m'] is [m] with the row of [k] at [v] *)
Record moves k v m m' : Prop := {
  mv_ok : map_ok m';
  mv_other : forall k', k' <> k -> get m' k' = get m k';
  mv_row : get m' k = if isz v then None else Some v;
  mv_sum : forall fd, rows fd m' = rows fd m - amt fd (row m k) + amt fd v;
  mv_cap : capacity m' = capacity m;
  mv_len : map_len m' = map_len m - (if get m k then 1 else 0) + (if isz v then 0 else 1);
}.

Lemma row_moves k v m m' k' : moves k v m m' -> row m' k' = if decide (k' = k) then v else row m k'.
Proof.
  intros Hm. unfold row. case_decide as Hk; [subst k'|by rewrite (mv_other _ _ _ _ Hm)].
  rewrite (mv_row _ _ _ _ Hm). destruct (isz v) eqn:Hz; [|done]. by apply isz_spec in Hz.
Qed.

Lemma tidy_moves k v m m' : moves k v m m' -> tidy m -> tidy m'.
Proof.
  intros Hm Ht k' v' Hg. destruct (decide (k' = k)) as [->|Hk]; [|rewrite (mv_other _ _ _ _ Hm) in Hg; eauto].
  rewrite (mv_row _ _ _ _ Hm) in Hg. by destruct (isz v) eqn:?; simplify_eq.
Qed.

Lemma moves_trans k v1 v2 m m1 m2 : moves k v1 m m1 -> moves k v2 m1 m2 -> moves k v2 m m2.
Proof.
  intros H1 H2. constructor.
  - exact (mv_ok _ _ _ _ H2).
  - intros k' Hk. by rewrite (mv_other _ _ _ _ H2), (mv_other _ _ _ _ H1).
  - exact (mv_row _ _ _ _ H2).
  - intros fd. rewrite (mv_sum _ _ _ _ H2), (mv_sum _ _ _ _ H1), (row_moves _ _ _ _ _ H1), decide_True by done. lia.
  - by rewrite (mv_cap _ _ _ _ H2), (mv_cap _ _ _ _ H1).
  - rewrite (mv_len _ _ _ _ H2), (mv_len _ _ _ _ H1), (mv_row _ _ _ _ H1). destruct (isz v1); lia.
Qed.

Lemma moves_refl m k : map_ok m -> tidy m -> moves k (row m k) m m.
Proof.
  intros Hm Ht. unfold row. destruct (get m k) as [v|] eqn:Hg; cbn [from_option id].
  - constructor; unfold row; rewrite ?Hg; cbn; rewrite ?(Ht _ _ Hg); try done; lia.
  - assert (isz zero = true) as Hz by (by apply isz_spec). constructor; unfold row; rewrite ?Hg, ?Hz; cbn; try done; lia.
Qed.

Lemma moves_update m k f b : map_ok m -> get m k = Some b -> isz (f b) = false -> moves k (f b) m (update m k f).
Proof.
  intros Hm Hg Hz. destruct (update_entries m k f (mo_sorted _ Hm)) as (He & _ & Hl & Hc & Hget). rewrite Hg in He.
  destruct He as (l & He1 & He2). constructor.
  - by apply update_ok.
  - intros k' Hk. by rewrite Hget, decide_False.
  - by rewrite Hget, decide_True, Hg, Hz.
  - intros fd. unfold rows, row. rewrite He1, He2, Hg. cbn. lia.
  - done.
  - rewrite Hl, Hg, Hz. lia.
Qed.

Lemma moves_remove m k : map_ok m -> moves k zero m (remove k m).2.
Proof.
  intros Hm. assert (isz zero = true) as Hz by (by apply isz_spec). pose proof (remove_entries m k (mo_sorted _ Hm)) as Hr.
  pose proof (remove_ok m k Hm) as Hok. pose proof (remove_len m k Hm) as Hlen.
  destruct (remove k m) as [o m']. destruct Hr as (-> & Hp & _ & Hc & Hget). cbn [snd] in *. constructor; try done.
  - intros k' Hk. by rewrite Hget, decide_False.
  - by rewrite Hget, decide_True, Hz.
  - intros fd. unfold rows, row. rewrite Hp, sumZ_app, amt_zero. destruct (get m k); cbn; rewrite ?amt_zero; lia.
  - rewrite Hz. lia.
Qed.

Lemma moves_insert m k v : map_ok m -> get m k = None -> map_len m < capacity m -> isz v = false ->
  exists m', insert_unique_reserved k v m = Some m' /\ moves k v m m'.
Proof.
  intros Hm Hg Hlt Hz. destruct (insert_reserved_ok m k v Hm Hg Hlt) as (m' & Hi & Hok & Hp & Hc & Hget).
  exists m'. split; [done|]. constructor; try done.
  - intros k' Hk. by rewrite Hget, decide_False.
  - by rewrite Hget, decide_True, Hz.
  - intros fd. unfold rows, row. rewrite Hp, Hg, sumZ_cons. cbn. rewrite amt_zero. lia.
  - unfold map_len. rewrite (perm_len _ _ Hp), zlen_cons, Hg, Hz. unfold map_len. lia.
Qed.

(** An update that takes away the row when it becomes zero *)
Lemma moves_release m m' k f : map_ok m -> tidy m -> f zero = zero ->
  (forall b, get m k = Some b -> m' = if isz (f b) then (remove k (update m k f)).2 else update m k f) ->
  (get m k = None -> m' = m) ->
  moves k (f (row m k)) m m'.
Proof.
  intros Hm Ht Hf HS HN. unfold row. destruct (get m k) as [b|] eqn:Hg; cbn [from_option id].
  - rewrite (HS b eq_refl). destruct (isz (f b)) eqn:Hz; [|by apply moves_update].
    apply isz_spec in Hz. rewrite Hz. destruct (update_entries m k f (mo_sorted _ Hm)) as (He & _ & Hl & Hc & Hget).
    rewrite Hg in He. destruct He as (l & He1 & He2).
    pose proof (moves_remove (update m k f) k (update_ok m k f Hm)) as Hr. constructor.
    + exact (mv_ok _ _ _ _ Hr).
    + intros k' Hk. rewrite (mv_other _ _ _ _ Hr) by done. by rewrite Hget, decide_False.
    + exact (mv_row _ _ _ _ Hr).
    + intros fd. rewrite (mv_sum _ _ _ _ Hr). unfold rows, row. rewrite He1, He2, Hget, decide_True, Hg by done. cbn. lia.
    + rewrite (mv_cap _ _ _ _ Hr). done.
    + rewrite (mv_len _ _ _ _ Hr), Hl, Hget, decide_True, Hg by done. cbn. lia.
  - rewrite (HN eq_refl), Hf. pose proof (moves_refl m k Hm Ht) as Hr. unfold row in Hr. by rewrite Hg in Hr.
Qed.
End rows.
Arguments row {K V _}.
Arguments rows {K V F}.
Arguments tidy {K V _}.
Arguments moves {K V F _}.

(** * Ledgers *)

(** What each live queue is charged, by its key *)
Definition Ledger := list (FragmentKey * PerNsBudget).

Section ledger.
Context {K V F : Type} `{OrdLaws K, !EqDecision K}.
Context (amt : F -> V -> Z) (zero : V) (isz : V -> bool).
Context (amt_zero : forall fd, amt fd zero = 0) (isz_spec : forall v, isz v = true <-> v = zero).
Context (proj : FragmentKey -> K) (w : F -> PerNsBudget -> Z).

Definition grand (fd : F) (L : Ledger) : Z := sumZ (fun kb => w fd kb.2) L.
Definition total (fd : F) (k : K) (L : Ledger) : Z := sumZ (fun kb => if bool_decide (proj kb.1 = k) then w fd kb.2 else 0) L.

(** Every row is the sum of its part of the ledger, and the rows together are the
    whole of it. *)
Record agrees (L : Ledger) (m : OrdMap K V) : Prop := {
  ag_ok : map_ok m;
  ag_tidy : tidy isz m;
  ag_row : forall fd k, amt fd (row zero m k) = total fd k L;
  ag_sum : forall fd, rows amt fd m = grand fd L;
}.

#[export] Instance agrees_perm : Proper ((≡ₚ) ==> (=) ==> iff) agrees.
Proof.
  assert (forall L1 L2 m, L1 ≡ₚ L2 -> agrees L1 m -> agrees L2 m) as Hone.
  { intros L1 L2 m Hp []. constructor; try done; intros; unfold total, grand in *; by rewrite <- Hp. }
  intros L1 L2 Hp m ? <-. split; apply Hone; [done|by symmetry].
Qed.

Lemma total_here fd k A : Forall (fun kb => proj kb.1 = k) A -> total fd k A = grand fd A.
Proof.
  intros HA. apply sumZ_ext. intros kb Hkb. rewrite list.Forall_forall in HA. by rewrite bool_decide_eq_true_2 by auto.
Qed.

Lemma total_elsewhere fd k k' A : Forall (fun kb => proj kb.1 = k) A -> k' <> k -> total fd k' A = 0.
Proof.
  intros HA Hne. apply sumZ_zero. intros kb Hkb. rewrite list.Forall_forall in HA. rewrite bool_decide_eq_false_2; [done|].
  rewrite (HA _ Hkb). congruence.
Qed.

Lemma agrees_moves A B R k v m m' : agrees (A ++ R) m -> moves amt zero isz k v m m' ->
  Forall (fun kb => proj kb.1 = k) A -> Forall (fun kb => proj kb.1 = k) B ->
  (forall fd, amt fd v = amt fd (row zero m k) - grand fd A + grand fd B) -> agrees (B ++ R) m'.
Proof.
  intros Hag Hm HA HB Hv. constructor.
  - exact (mv_ok _ _ _ _ _ _ _ Hm).
  - by eapply tidy_moves; [..|exact (ag_tidy _ _ Hag)].
  - intros fd k'. rewrite (row_moves _ _ _ isz_spec _ _ _ _ _ Hm). pose proof (ag_row _ _ Hag fd k') as Hr.
    unfold total in *. rewrite sumZ_app in *. case_decide as Hk.
    + subst k'. fold (total fd k A) in Hr. fold (total fd k B). rewrite (total_here _ _ A HA) in Hr. rewrite (total_here _ _ B HB), Hv. lia.
    + fold (total fd k' A) in Hr. fold (total fd k' B). rewrite (total_elsewhere fd k k' A HA Hk) in Hr.
      by rewrite (total_elsewhere fd k k' B HB Hk).
  - intros fd. rewrite (mv_sum _ _ _ _ _ _ _ Hm fd), Hv, (ag_sum _ _ Hag). unfold grand. rewrite !sumZ_app. lia.
Qed.
End ledger.
Arguments grand {F}.
Arguments total {K F _}.
Arguments agrees {K V F _ _}.

(** ** The two indexes and the gauges *)
Inductive field := FQueues | FFrags | FBytes.

Definition amount (fd : field) (b : PerNsBudget) : Z := match fd with FQueues => b_queues b | FFrags => b_frags b | FBytes => b_bytes b end.
Definition is_zero (b : PerNsBudget) : bool := (b_queues b =? 0) && (b_frags b =? 0) && (b_bytes b =? 0).
Definition gauge (fd : field) (s : FragmentStats) : Z :=
  match fd with FQueues => active_queues s | FFrags => buffered_fragments s | FBytes => buffered_bytes s end.

Abbreviation ns_agrees := (agrees amount no_budget is_zero net_ns_id amount).
Abbreviation src_agrees := (agrees (fun (_ : unit) (v : Z) => v) 0 (Z.eqb 0) source_of (fun (_ : unit) b => b_queues b)).
Abbreviation ns_row := (row no_budget).
Abbreviation src_row := (row 0).

Lemma amount_ext b b' : (forall fd, amount fd b = amount fd b') -> b = b'.
Proof.
  intros Hb. destruct b, b'. pose proof (Hb FQueues). pose proof (Hb FFrags). pose proof (Hb FBytes). cbn in *. by subst.
Qed.

Lemma amount_none fd : amount fd no_budget = 0.
Proof. by destruct fd. Qed.

Lemma is_zero_spec b : is_zero b = true <-> b = no_budget.
Proof.
  unfold is_zero. rewrite !andb_true_iff, !Z.eqb_eq. destruct b; cbn. split; [|by intros [= -> -> ->]]. by intros [[-> ->] ->].
Qed.

Lemma src_zero_spec v : (0 =? v) = true <-> v = 0.
Proof. rewrite Z.eqb_eq. lia. Qed.

(** A queue in the ledger *)
Definition entry_ok (kb : FragmentKey * PerNsBudget) : Prop := b_queues kb.2 = 1 /\ 0 <= b_frags kb.2 /\ 0 <= b_bytes kb.2.

Lemma entry_amount fd kb : entry_ok kb -> 0 <= amount fd kb.2.
Proof. intros (? & ? & ?). destruct fd; cbn; lia. Qed.

Lemma grand_nonneg fd L : Forall entry_ok L -> 0 <= grand amount fd L.
Proof. intros HL. apply sumZ_nonneg. rewrite list.Forall_forall in HL. intros kb Hkb. by apply entry_amount, HL. Qed.

Lemma grand_cons fd kb L : grand amount fd (kb :: L) = amount fd kb.2 + grand amount fd L.
Proof. done. Qed.

Lemma row_le_grand fd L m n : ns_agrees L m -> Forall entry_ok L -> amount fd (ns_row m n) <= grand amount fd L.
Proof.
  intros Ha HL. rewrite (ag_row _ _ _ _ _ _ _ Ha). apply sumZ_le. rewrite list.Forall_forall in HL. intros kb Hkb.
  pose proof (entry_amount fd kb (HL _ Hkb)). case_bool_decide; lia.
Qed.

Lemma row_ge_entry fd k b R m : ns_agrees ((k, b) :: R) m -> Forall entry_ok R -> amount fd b <= amount fd (ns_row m (net_ns_id k)).
Proof.
  intros Ha HR. rewrite (ag_row _ _ _ _ _ _ _ Ha). unfold total. rewrite sumZ_cons. cbn [fst snd]. rewrite bool_decide_eq_true_2 by done.
  assert (0 <= total net_ns_id amount fd (net_ns_id k) R); [|unfold total in *; lia].
  apply sumZ_nonneg. rewrite list.Forall_forall in HR. intros kb Hkb. pose proof (entry_amount fd kb (HR _ Hkb)). case_bool_decide; lia.
Qed.

Lemma src_row_ge_entry k b R m : src_agrees ((k, b) :: R) m -> Forall entry_ok R -> b_queues b <= src_row m (source_of k).
Proof.
  intros Ha HR. pose proof (ag_row _ _ _ _ _ _ _ Ha tt (source_of k)) as ->. unfold total. rewrite sumZ_cons. cbn [fst snd].
  rewrite bool_decide_eq_true_2 by done.
  assert (0 <= total source_of (fun (_ : unit) b => b_queues b) tt (source_of k) R); [|unfold total in *; lia].
  apply sumZ_nonneg. rewrite list.Forall_forall in HR. intros kb Hkb. destruct (HR _ Hkb) as (-> & _ & _). case_bool_decide; lia.
Qed.

(** A row that counts something exists. *)
Lemma row_get (m : NsCounts) n : 0 < b_queues (ns_row m n) -> get m n = Some (ns_row m n).
Proof. unfold row. destruct (get m n); cbn; [done|lia]. Qed.

(** ** Releases *)
Abbreviation ns_moves := (moves amount no_budget is_zero).
Abbreviation src_moves := (moves (fun (_ : unit) (v : Z) => v) 0 (Z.eqb 0)).

Lemma prune_moves m n f : map_ok m -> tidy is_zero m -> f no_budget = no_budget ->
  ns_moves n (f (ns_row m n)) m (per_ns_prune_if_zero (update m n f) n).
Proof.
  intros Hm Ht Hf. destruct (update_entries m n f (mo_sorted _ Hm)) as (He & _ & _ & _ & Hget).
  apply moves_release; try done; [apply amount_none|apply is_zero_spec| |].
  - intros b Hb. unfold per_ns_prune_if_zero. by rewrite Hget, decide_True, Hb.
  - intros Hb. rewrite Hb in He. unfold per_ns_prune_if_zero. by rewrite He, Hb.
Qed.

(** A second release of the same row *)
Lemma prune_again m m1 n v f : tidy is_zero m -> f no_budget = no_budget -> ns_moves n v m m1 ->
  ns_moves n (f v) m (per_ns_prune_if_zero (update m1 n f) n).
Proof.
  intros Ht Hf Hm. eapply moves_trans; [apply is_zero_spec|exact Hm|].
  pose proof (row_moves _ _ _ is_zero_spec _ _ _ _ n Hm) as Hr. rewrite decide_True in Hr by done.
  rewrite <- Hr at 1. apply prune_moves; [exact (mv_ok _ _ _ _ _ _ _ Hm)| |done].
  eapply tidy_moves; [exact Hm|done].
Qed.

Lemma release_part_moves m n f b : map_ok m -> tidy is_zero m -> 0 <= f -> 0 <= b ->
  ns_moves n (mkBudget (b_queues (ns_row m n)) (saturating_sub (b_frags (ns_row m n)) f) (saturating_sub (b_bytes (ns_row m n)) b)) m
    (per_ns_release_bytes (per_ns_release_frags m n f) n b).
Proof.
  intros Hm Ht Hf Hb. pose proof (prune_moves m n (fun r => mkBudget (b_queues r) (saturating_sub (b_frags r) f) (b_bytes r)) Hm Ht) as H1.
  apply (prune_again m _ n _ (fun r => mkBudget (b_queues r) (b_frags r) (saturating_sub (b_bytes r) b)) Ht) in H1; [exact H1| |];
    unfold no_budget, saturating_sub; cbn; f_equal; lia.
Qed.

Lemma release_all_moves m n f b : map_ok m -> tidy is_zero m -> 0 <= f -> 0 <= b ->
  ns_moves n (mkBudget (saturating_sub (b_queues (ns_row m n)) 1) (saturating_sub (b_frags (ns_row m n)) f) (saturating_sub (b_bytes (ns_row m n)) b)) m
    (per_ns_release_bytes (per_ns_release_frags (per_ns_release_queue m n) n f) n b).
Proof.
  intros Hm Ht Hf Hb.
  pose proof (prune_moves m n (fun r => mkBudget (saturating_sub (b_queues r) 1) (b_frags r) (b_bytes r)) Hm Ht eq_refl) as H1.
  apply (prune_again m _ n _ (fun r => mkBudget (b_queues r) (saturating_sub (b_frags r) f) (b_bytes r)) Ht) in H1;
    [|unfold no_budget, saturating_sub; cbn; f_equal; lia].
  apply (prune_again m _ n _ (fun r => mkBudget (b_queues r) (b_frags r) (saturating_sub (b_bytes r) b)) Ht) in H1;
    [exact H1|unfold no_budget, saturating_sub; cbn; f_equal; lia].
Qed.

Lemma release_source_moves m s : map_ok m -> tidy (Z.eqb 0) m -> src_moves s (saturating_sub (src_row m s) 1) m (release_source s m).
Proof.
  intros Hm Ht. apply (moves_release _ _ _ (fun _ => eq_refl) src_zero_spec _ _ _ (fun v => saturating_sub v 1)); try done.
  - intros b Hb. unfold release_source. rewrite Hb. rewrite (Z.eqb_sym 0). done.
  - intros Hb. unfold release_source. by rewrite Hb.
Qed.

(** ** Charges *)
Lemma charge_queue_moves m n : map_ok m -> tidy is_zero m -> 0 <= b_queues (ns_row m n) < usize_max -> 0 <= b_frags (ns_row m n) ->
  (get m n = None -> map_len m < capacity m) ->
  exists m', per_ns_charge_queue m n = Ok m' /\
    ns_moves n (mkBudget (b_queues (ns_row m n) + 1) (b_frags (ns_row m n)) (b_bytes (ns_row m n))) m m'.
Proof.
  intros Hm Ht Hq Hf Hcap. unfold per_ns_charge_queue, row in *. destruct (get m n) as [b|] eqn:Hg; cbn [from_option id] in *.
  - rewrite checked_add_Some by lia. eexists. split; [done|].
    apply (moves_update _ _ _ m n (fun b0 => mkBudget (b_queues b + 1) (b_frags b0) (b_bytes b0)) b); [done|done|].
    unfold is_zero. cbn. by destruct (Z.eqb_spec (b_queues b + 1) 0); [lia|].
  - destruct (moves_insert amount no_budget is_zero amount_none m n (mkBudget 1 0 0) Hm Hg (Hcap eq_refl) eq_refl) as (m' & -> & Hmv).
    by exists m'.
Qed.

Lemma charge_frag_moves m n : map_ok m -> 1 <= b_queues (ns_row m n) -> b_frags (ns_row m n) < u32_max ->
  exists m', per_ns_charge_frag m n = Ok m' /\
    ns_moves n (mkBudget (b_queues (ns_row m n)) (b_frags (ns_row m n) + 1) (b_bytes (ns_row m n))) m m'.
Proof.
  intros Hm Hq Hf. pose proof (row_get m n ltac:(lia)) as Hg. unfold per_ns_charge_frag. rewrite Hg. cbn [or_panic res_bind].
  destruct (Z.ltb_spec u32_max (b_frags (ns_row m n) + 1)); [lia|]. eexists. split; [done|].
  apply (moves_update _ _ _ m n (fun b => mkBudget (b_queues b) (b_frags b + 1) (b_bytes b)) _ Hm Hg).
  unfold is_zero. cbn. by destruct (Z.eqb_spec (b_queues (ns_row m n)) 0); [lia|].
Qed.

Lemma charge_bytes_moves m n len : map_ok m -> 1 <= b_queues (ns_row m n) -> b_bytes (ns_row m n) + len <= usize_max ->
  exists m', per_ns_charge_bytes m n len = Ok m' /\
    ns_moves n (mkBudget (b_queues (ns_row m n)) (b_frags (ns_row m n)) (b_bytes (ns_row m n) + len)) m m'.
Proof.
  intros Hm Hq Hf. pose proof (row_get m n ltac:(lia)) as Hg. unfold per_ns_charge_bytes. rewrite Hg. cbn [or_panic res_bind].
  rewrite checked_add_Some by lia. cbn [or_panic res_bind]. eexists. split; [done|].
  apply (moves_update _ _ _ m n (fun b => mkBudget (b_queues b) (b_frags b) (b_bytes (ns_row m n) + len)) _ Hm Hg).
  unfold is_zero. cbn. by destruct (Z.eqb_spec (b_queues (ns_row m n)) 0); [lia|].
Qed.

Lemma charge_source_moves m s : map_ok m -> tidy (Z.eqb 0) m -> 0 <= src_row m s < usize_max -> (get m s = None -> map_len m < capacity m) ->
  exists m', charge_source s m = Ok m' /\ src_moves s (src_row m s + 1) m m'.
Proof.
  intros Hm Ht Hr Hcap. unfold charge_source, row in *. destruct (get m s) as [v|] eqn:Hg; cbn [from_option id] in *.
  - rewrite checked_add_Some by lia. eexists. split; [done|].
    apply (moves_update _ _ _ m s (fun _ => v + 1) v); [done|done|]. by destruct (Z.eqb_spec 0 (v + 1)); [lia|].
  - destruct (moves_insert (fun (_ : unit) (v : Z) => v) 0 (Z.eqb 0) (fun _ => eq_refl) m s 1 Hm Hg (Hcap eq_refl) eq_refl) as (m' & -> & Hmv).
    by exists m'.
Qed.
