(* ===== verification/FragCacheFacts.v ===== *)
(** The sections of the fragment cache against the ledger of its live queues:
    what each charges and releases, and that it touches one namespace only. *)

From Stdlib Require Import ZArith Lia.
From stdpp Require Import base list list_numbers numbers sorting.
From S2P Require Import Prelude Machine OrdMap OrdMapFacts Wire WireFacts Frag FragFacts FragCache FragBooks.

Create HintDb frag_cache.

(** * The books

    [L] is what the per-source and per-namespace rows count, [G] what the global
    gauges count; they differ while a rejected fragment is being released. *)
Definition room (fd : field) : Z := match fd with FQueues | FFrags => u32_max | FBytes => u64_max end.

Record books (L G : Ledger) (c : FragmentCache) : Prop := {
  bk_ns : ns_agrees L (c_per_ns c);
  bk_src : src_agrees L (c_per_src c);
  bk_gauge : forall fd, gauge fd (c_stats c) = grand amount fd G;
  bk_L : Forall entry_ok L;
  bk_G : Forall entry_ok G;
  bk_room : forall fd, grand amount fd G <= room fd;
}.

#[export] Instance books_perm : Proper ((≡ₚ) ==> (≡ₚ) ==> (=) ==> iff) books.
Proof.
  assert (forall L1 L2 G1 G2 c, L1 ≡ₚ L2 -> G1 ≡ₚ G2 -> books L1 G1 c -> books L2 G2 c) as Hone.
  { intros L1 L2 G1 G2 c HL HG []. constructor; try (by rewrite <- HL); try (by rewrite <- HG);
      intros fd; unfold grand in *; by rewrite <- HG. }
  intros L1 L2 HL G1 G2 HG c ? <-. split; by apply Hone.
Qed.

(** What a section of one namespace leaves alone *)
Record frame (ns : Z) (c c' : FragmentCache) : Prop := {
  fr_queues : forall k, net_ns_id k <> ns -> get (c_queues c') k = get (c_queues c) k;
  fr_ns : forall n, n <> ns -> get (c_per_ns c') n = get (c_per_ns c) n;
  fr_src : forall s, s.1 <> ns -> get (c_per_src c') s = get (c_per_src c) s;
}.

Lemma frame_refl ns c : frame ns c c.
Proof. done. Qed.

Lemma frame_trans ns c1 c2 c3 : frame ns c1 c2 -> frame ns c2 c3 -> frame ns c1 c3.
Proof.
  intros [] []. constructor; intros.
  - by rewrite fr_queues1, fr_queues0.
  - by rewrite fr_ns1, fr_ns0.
  - by rewrite fr_src1, fr_src0.
Qed.

Lemma gauge_bump fd e s : gauge fd (bump e s) = gauge fd s.
Proof. by destruct fd. Qed.

Lemma gauge_record fd r s : gauge fd (record_drop_reason r s) = gauge fd s.
Proof. by destruct fd, r. Qed.

Lemma books_stats f L G c : (forall fd, gauge fd (f (c_stats c)) = gauge fd (c_stats c)) -> books L G c -> books L G (with_stats f c).
Proof. intros Hf []. constructor; try done. intros fd. cbn. by rewrite Hf. Qed.

Lemma frame_stats ns f c : frame ns c (with_stats f c).
Proof. done. Qed.

#[export] Hint Resolve frame_refl frame_stats : frag_cache.

(** ** Charging and releasing one queue *)
Abbreviation charged f n := (mkBudget 1 f n).

Lemma wrap_small v : 0 <= v <= u32_max -> wrap32 v = v.
Proof. intros. unfold wrap32, u32_max in *. apply Z.mod_small. lia. Qed.

Lemma wrap64_small v : 0 <= v <= u64_max -> wrap64 v = v.
Proof. intros. unfold wrap64, u64_max in *. apply Z.mod_small. lia. Qed.

Lemma gauge_sub_spec q f n s : (forall fd, 0 <= gauge fd s <= room fd) -> 0 <= q <= active_queues s -> 0 <= f <= buffered_fragments s ->
  0 <= n <= buffered_bytes s -> forall fd, gauge fd (gauge_sub q f n s) = gauge fd s - amount fd (mkBudget q f n).
Proof.
  intros Hg Hq Hf Hn fd. pose proof (Hg FQueues). pose proof (Hg FFrags). pose proof (Hg FBytes). cbn in *.
  destruct fd; cbn; [apply wrap_small|apply wrap_small|apply wrap64_small]; lia.
Qed.

Lemma gauge_add_spec q f n s : 0 <= active_queues s + q <= u32_max -> 0 <= buffered_fragments s + f <= u32_max ->
  0 <= buffered_bytes s + n <= u64_max -> forall fd, gauge fd (gauge_add q f n s) = gauge fd s + amount fd (mkBudget q f n).
Proof. intros Hq Hf Hn fd. destruct fd; cbn; [apply wrap_small|apply wrap_small|apply wrap64_small]; lia. Qed.

Lemma books_gauge_range L G c fd : books L G c -> 0 <= gauge fd (c_stats c) <= room fd.
Proof. intros Hb. rewrite (bk_gauge _ _ _ Hb). split; [apply grand_nonneg, (bk_G _ _ _ Hb)|apply (bk_room _ _ _ Hb)]. Qed.

(** The sources count queues only. *)
Lemma src_same k b b' L m : b_queues b = b_queues b' -> src_agrees ((k, b) :: L) m -> src_agrees ((k, b') :: L) m.
Proof.
  intros Hbb Ha. constructor; [apply Ha|apply Ha| |].
  - intros fd s. etrans; [exact (ag_row _ _ _ _ _ _ _ Ha fd s)|]. unfold total. rewrite !sumZ_cons. cbn [fst snd]. by rewrite Hbb.
  - intros fd. rewrite (ag_sum _ _ _ _ _ _ _ Ha). unfold grand. rewrite !sumZ_cons. cbn [fst snd]. by rewrite Hbb.
Qed.

(** A move of one row of the namespaces, as a change of the ledger *)
Lemma ns_step k b b' L m m' v : ns_agrees ((k, b) :: L) m -> ns_moves (net_ns_id k) v m m' ->
  (forall fd, amount fd v = amount fd (ns_row m (net_ns_id k)) - amount fd b + amount fd b') -> ns_agrees ((k, b') :: L) m'.
Proof.
  intros Ha Hm Hv. apply (agrees_moves amount no_budget is_zero is_zero_spec net_ns_id amount [(k, b)] [(k, b')] L (net_ns_id k) v m m'); try done.
  - by repeat constructor.
  - by repeat constructor.
  - intros fd. rewrite Hv. unfold grand. cbn. lia.
Qed.

Lemma frame_ns_moves k v c m' st : ns_moves (net_ns_id k) v (c_per_ns c) m' -> frame (net_ns_id k) c (mkCache (c_queues c) (c_per_src c) m' st).
Proof. intros Hm. constructor; cbn; [done| |done]. exact (mv_other _ _ _ _ _ _ _ Hm). Qed.

Lemma retire_books k f n L G c : books ((k, charged f n) :: L) ((k, charged f n) :: G) c ->
  books L G (retire k f n c) /\ frame (net_ns_id k) c (retire k f n c).
Proof.
  intros Hb. pose proof (bk_L _ _ _ Hb) as HL. pose proof (bk_G _ _ _ Hb) as HG.
  apply list.Forall_cons in HL as [(_ & Hf & Hn) HL], HG as [_ HG]. cbn in Hf, Hn.
  pose proof (bk_ns _ _ _ Hb) as Hns. pose proof (bk_src _ _ _ Hb) as Hsrc.
  pose proof (release_all_moves _ (net_ns_id k) f n (ag_ok _ _ _ _ _ _ _ Hns) (ag_tidy _ _ _ _ _ _ _ Hns) Hf Hn) as Hm.
  pose proof (release_source_moves _ (source_of k) (ag_ok _ _ _ _ _ _ _ Hsrc) (ag_tidy _ _ _ _ _ _ _ Hsrc)) as Hms.
  split.
  - assert (forall fd, amount fd (charged f n) <= gauge fd (c_stats c)) as Hle.
    { intros fd. rewrite (bk_gauge _ _ _ Hb), grand_cons. pose proof (grand_nonneg fd _ HG). cbn [snd]. lia. }
    pose proof (Hle FQueues). pose proof (Hle FFrags). pose proof (Hle FBytes). cbn [amount gauge b_queues b_frags b_bytes] in *.
    constructor; try done.
    + apply (agrees_moves amount no_budget is_zero is_zero_spec net_ns_id amount [(k, charged f n)] [] L _ _ _ _ Hns Hm); [by repeat constructor|done|].
      intros fd. pose proof (row_ge_entry fd _ _ _ _ Hns HL) as Hge. unfold grand. destruct fd; cbn in *; unfold saturating_sub; lia.
    + apply (agrees_moves _ _ _ src_zero_spec source_of (fun (_ : unit) b => b_queues b) [(k, charged f n)] [] L _ _ _ _ Hsrc Hms); [by repeat constructor|done|].
      intros fd. pose proof (src_row_ge_entry _ _ _ _ Hsrc HL) as Hge. unfold grand. cbn in *. unfold saturating_sub. lia.
    + intros fd. cbn [retire c_stats]. rewrite gauge_sub_spec; [|intros fd'; exact (books_gauge_range _ _ _ fd' Hb)|lia..].
      rewrite (bk_gauge _ _ _ Hb), grand_cons. cbn [snd]. lia.
    + intros fd. pose proof (bk_room _ _ _ Hb fd) as Hr. rewrite grand_cons in Hr. cbn [snd] in Hr.
      assert (0 <= amount fd (charged f n)) by (destruct fd; cbn; lia). lia.
  - constructor; cbn; [done|exact (mv_other _ _ _ _ _ _ _ Hm)|]. intros s Hs. apply (mv_other _ _ _ _ _ _ _ Hms). intros ->. by apply Hs.
Qed.

(** A further fragment of a queue, charged to its namespace *)
Lemma charge_ns k f n len L m : ns_agrees ((k, charged f n) :: L) m -> Forall entry_ok ((k, charged f n) :: L) -> 0 <= len ->
  grand amount FFrags ((k, charged f n) :: L) < u32_max -> grand amount FBytes ((k, charged f n) :: L) + len <= usize_max ->
  exists m1 m2, per_ns_charge_frag m (net_ns_id k) = Ok m1 /\ per_ns_charge_bytes m1 (net_ns_id k) len = Ok m2 /\
    ns_agrees ((k, charged (f + 1) n) :: L) m1 /\ ns_agrees ((k, charged (f + 1) (n + len)) :: L) m2 /\
    (forall n', n' <> net_ns_id k -> get m1 n' = get m n') /\ (forall n', n' <> net_ns_id k -> get m2 n' = get m n').
Proof.
  intros Ha HL Hlen Hf Hn. pose proof (row_le_grand FFrags _ _ (net_ns_id k) Ha HL) as Hrf.
  pose proof (row_le_grand FBytes _ _ (net_ns_id k) Ha HL) as Hrn. apply list.Forall_cons in HL as [_ HL].
  pose proof (row_ge_entry FQueues _ _ _ _ Ha HL) as Hrq. cbn [amount b_queues] in *.
  destruct (charge_frag_moves m (net_ns_id k)) as (m1 & Hc1 & Hm1); [apply Ha|lia|lia|].
  assert (ns_agrees ((k, charged (f + 1) n) :: L) m1) as Ha1.
  { eapply ns_step; [exact Ha|exact Hm1|]. intros []; cbn; lia. }
  pose proof (row_moves _ _ _ is_zero_spec _ _ _ _ (net_ns_id k) Hm1) as Hr. rewrite decide_True in Hr by done.
  destruct (charge_bytes_moves m1 (net_ns_id k) len) as (m2 & Hc2 & Hm2); [apply Ha1|rewrite Hr; cbn; lia|rewrite Hr; cbn; lia|].
  exists m1, m2. split; [done|]. split; [done|]. split; [done|]. split; [|split].
  - eapply ns_step; [exact Ha1|exact Hm2|]. intros []; cbn; lia.
  - exact (mv_other _ _ _ _ _ _ _ Hm1).
  - intros n' Hn'. rewrite (mv_other _ _ _ _ _ _ _ Hm2), (mv_other _ _ _ _ _ _ _ Hm1); done.
Qed.

(** The charge taken back *)
Lemma uncharge_frag k f n L m : ns_agrees ((k, charged (f + 1) n) :: L) m -> Forall entry_ok L -> 0 <= f ->
  ns_agrees ((k, charged f n) :: L) (per_ns_release_frags m (net_ns_id k) 1) /\
  (forall n', n' <> net_ns_id k -> get (per_ns_release_frags m (net_ns_id k) 1) n' = get m n').
Proof.
  intros Ha HL Hf. pose proof (row_ge_entry FFrags _ _ _ _ Ha HL) as Hrf. cbn [amount b_frags] in Hrf.
  pose proof (prune_moves m (net_ns_id k) (fun r => mkBudget (b_queues r) (saturating_sub (b_frags r) 1) (b_bytes r))
    (ag_ok _ _ _ _ _ _ _ Ha) (ag_tidy _ _ _ _ _ _ _ Ha) eq_refl) as Hm.
  split; [|exact (mv_other _ _ _ _ _ _ _ Hm)]. eapply ns_step; [exact Ha|exact Hm|].
  intros []; cbn; unfold saturating_sub; lia.
Qed.

Definition ns_cap (fd : field) : Z := match fd with FQueues => MAX_QUEUES_PER_NS | FFrags => MAX_FRAGS_PER_NS | FBytes => MAX_BYTES_PER_NS end.
Definition global_cap (fd : field) : Z := match fd with FQueues => GLOBAL_MAX_QUEUES | FFrags => GLOBAL_MAX_FRAGS | FBytes => GLOBAL_MAX_FRAG_BYTES end.

Lemma reserve_spec len s : 0 <= len -> 0 <= buffered_bytes s ->
  match try_reserve_fragment GLOBAL_MAX_FRAGS s with
  | None => True
  | Some s1 => (forall fd, gauge fd s1 = gauge fd s + amount fd (mkBudget 0 1 0)) /\ buffered_fragments s1 <= GLOBAL_MAX_FRAGS /\
      match try_reserve_bytes len GLOBAL_MAX_FRAG_BYTES s1 with
      | None => forall fd, 0 <= buffered_fragments s -> gauge fd (release_fragment s1) = gauge fd s
      | Some s2 => (forall fd, gauge fd s2 = gauge fd s + amount fd (mkBudget 0 1 len)) /\ buffered_fragments s2 <= GLOBAL_MAX_FRAGS /\
          buffered_bytes s2 <= GLOBAL_MAX_FRAG_BYTES
      end
  end.
Proof.
  intros Hlen Hs. unfold try_reserve_fragment. destruct (Z.ltb_spec (buffered_fragments s) GLOBAL_MAX_FRAGS); [|done].
  split; [intros []; cbn; lia|]. split; [cbn; lia|]. unfold try_reserve_bytes. cbn [set_gauges buffered_bytes].
  destruct (Z.leb_spec (saturating_add (buffered_bytes s) len) GLOBAL_MAX_FRAG_BYTES) as [Hle|].
  - assert (saturating_add (buffered_bytes s) len = buffered_bytes s + len) as Heq.
    { unfold saturating_add, GLOBAL_MAX_FRAG_BYTES, usize_max, u64_max in *. lia. }
    rewrite Heq in *. split; [intros []; cbn; lia|]. cbn. lia.
  - intros [] Hpos; cbn; unfold saturating_sub; lia.
Qed.

(** Fragments of a queue in the cache are charged, or nothing changes. *)
Section charge.
Context (k : FragmentKey) (f n f' n' len : Z) (L G : Ledger) (c : FragmentCache).
Context (Hb : books ((k, charged f n) :: L) ((k, charged f' n') :: G) c) (Hlen : 0 <= len).
Context (Hf : grand amount FFrags ((k, charged f n) :: L) < u32_max).
Context (Hn : grand amount FBytes ((k, charged f n) :: L) + MAX_BYTES_PER_QUEUE <= usize_max).

Definition charge_post (c' : FragmentCache) (r : option FragmentDropReason) : Prop :=
  c_queues c' = c_queues c /\ c_per_src c' = c_per_src c /\ frame (net_ns_id k) c c' /\
  match r with
  | Some _ => books ((k, charged f n) :: L) ((k, charged f' n') :: G) c'
  | None => books ((k, charged (f + 1) (n + len)) :: L) ((k, charged (f' + 1) (n' + len)) :: G) c' /\
      len <= MAX_BYTES_PER_QUEUE /\ buffered_fragments (c_stats c') <= GLOBAL_MAX_FRAGS /\ buffered_bytes (c_stats c') <= GLOBAL_MAX_FRAG_BYTES /\
      (net_ns_id k <> 0 -> b_frags (ns_row (c_per_ns c) (net_ns_id k)) < MAX_FRAGS_PER_NS /\
         b_bytes (ns_row (c_per_ns c) (net_ns_id k)) + len <= MAX_BYTES_PER_NS)
  end.

Lemma charge_stays r : exists c' r', @Ok FragmentDropReason _ (c, Some r) = Ok (c', r') /\ charge_post c' r'.
Proof. exists c, (Some r). by repeat (split; [done|]). Qed.

(** The part after the tests of the queue and of the namespace *)
Lemma reserve_and_charge : len <= MAX_BYTES_PER_QUEUE ->
  (net_ns_id k <> 0 -> b_frags (ns_row (c_per_ns c) (net_ns_id k)) < MAX_FRAGS_PER_NS /\
     b_bytes (ns_row (c_per_ns c) (net_ns_id k)) + len <= MAX_BYTES_PER_NS) ->
  exists c' r, match try_reserve_fragment GLOBAL_MAX_FRAGS (c_stats c) with
  | None => Ok (c, Some GlobalFragLimit)
  | Some stats =>
      let? per_ns := per_ns_charge_frag (c_per_ns c) (net_ns_id k) in
      match try_reserve_bytes len GLOBAL_MAX_FRAG_BYTES stats with
      | None =>
          Ok (mkCache (c_queues c) (c_per_src c) (per_ns_release_frags per_ns (net_ns_id k) 1) (release_fragment stats),
              Some GlobalByteLimit)
      | Some stats =>
          let? per_ns := per_ns_charge_bytes per_ns (net_ns_id k) len in
          Ok (mkCache (c_queues c) (c_per_src c) per_ns stats, None)
      end
  end = Ok (c', r) /\ charge_post c' r.
Proof.
  intros Hmax Hlim. pose proof (bk_L _ _ _ Hb) as HL. pose proof (bk_G _ _ _ Hb) as HG.
  destruct (charge_ns k f n len L (c_per_ns c) (bk_ns _ _ _ Hb) HL Hlen Hf ltac:(lia)) as (m1 & m2 & -> & Hc2 & Ha1 & Ha2 & Ho1 & Ho2).
  pose proof (books_gauge_range _ _ _ FBytes Hb) as Hgb. pose proof (books_gauge_range _ _ _ FFrags Hb) as Hgf. cbn [gauge] in *.
  pose proof (reserve_spec len (c_stats c) Hlen (proj1 Hgb)) as Hres. cbn [res_bind].
  destruct (try_reserve_fragment GLOBAL_MAX_FRAGS (c_stats c)) as [s1|]; [|apply charge_stays]. destruct Hres as (Hs1 & Hs1f & Hres).
  apply list.Forall_cons in HL as [(_ & HLf & HLn) HL], HG as [(_ & HGf & HGn) HG]. cbn in HLf, HLn, HGf, HGn.
  destruct (try_reserve_bytes len GLOBAL_MAX_FRAG_BYTES s1) as [s2|].
  - destruct Hres as (Hs2 & Hs2f & Hs2n). rewrite Hc2. cbn [res_bind]. eexists _, None. split; [done|]. split; [done|]. split; [done|].
    split; [by constructor|]. split; [|done]. constructor; cbn [c_per_ns c_per_src c_stats].
    + done.
    + eapply src_same, (bk_src _ _ _ Hb). done.
    + intros fd. rewrite Hs2, (bk_gauge _ _ _ Hb), !grand_cons. destruct fd; cbn; lia.
    + constructor; [|done]. split; cbn; lia.
    + constructor; [|done]. split; cbn; lia.
    + intros fd. pose proof (bk_room _ _ _ Hb fd) as Hroom. pose proof (Hs2 fd) as Hg2. rewrite (bk_gauge _ _ _ Hb) in Hg2.
      rewrite grand_cons in *. unfold room, GLOBAL_MAX_FRAGS, GLOBAL_MAX_FRAG_BYTES, u32_max, u64_max in *. destruct fd; cbn in *; lia.
  - eexists _, (Some GlobalByteLimit). split; [done|]. destruct (uncharge_frag k f n L m1 Ha1 HL HLf) as [Ha0 Ho0].
    split; [done|]. split; [done|]. split; [constructor; cbn; [done| |done]; intros; by rewrite Ho0, Ho1|].
    destruct Hb. constructor; cbn [c_per_ns c_per_src c_stats]; try done. intros fd. rewrite Hres by lia. done.
Qed.

Lemma charge_existing_spec owner : 0 <= received_bytes owner -> exists c' r, charge_existing k len owner c = Ok (c', r) /\ charge_post c' r.
Proof.
  intros Hrb. unfold charge_existing. destruct (Z.leb_spec MAX_FRAGS_PER_QUEUE (received_frags owner)); [apply charge_stays|].
  destruct (Z.ltb_spec MAX_BYTES_PER_QUEUE (saturating_add (received_bytes owner) len)) as [|Hq]; [apply charge_stays|]. cbv zeta.
  assert (len <= MAX_BYTES_PER_QUEUE) as Hmax. { unfold saturating_add, MAX_BYTES_PER_QUEUE, usize_max, u64_max in *. lia. }
  destruct (negb (net_ns_id k =? 0) && _) eqn:E1; [apply charge_stays|].
  destruct (negb (net_ns_id k =? 0) && (MAX_BYTES_PER_NS <? _)) eqn:E2; [apply charge_stays|].
  apply reserve_and_charge; [done|]. intros Hns. apply Z.eqb_neq in Hns. rewrite Hns in E1, E2. cbn [negb andb] in E1, E2.
  apply Z.leb_gt in E1. apply Z.ltb_ge in E2. unfold row. split; [done|].
  change MAX_BYTES_PER_NS with 16777216 in *. unfold saturating_add, usize_max, u64_max in *. lia.
Qed.
End charge.

(** * Growth *)
Lemma get_entries {K V} `{Ord K} (m m' : OrdMap K V) k : entries m' = entries m -> get m' k = get m k.
Proof. unfold get. by intros ->. Qed.

Lemma agrees_entries {K V F} `{OrdLaws K, !EqDecision K} (amt : F -> V -> Z) zero isz proj w L (m m' : OrdMap K V) :
  entries m' = entries m -> map_ok m' -> agrees amt zero isz proj w L m -> agrees amt zero isz proj w L m'.
Proof.
  intros He Hm []. constructor; [done| | |].
  - intros k v. rewrite (get_entries _ _ _ He). apply ag_tidy.
  - intros fd k. unfold row. rewrite (get_entries _ _ _ He). apply ag_row.
  - intros fd. unfold rows. rewrite He. apply ag_sum.
Qed.

Lemma install_if_spec {K V} `{OrdLaws K, !EqDecision K} needed prepared committed (m : OrdMap K V) : map_ok m ->
  match install_if needed prepared committed m with
  | Ok m' => map_ok m' /\ entries m' = entries m /\ (needed = true -> map_len m' < capacity m')
  | Err _ => True
  | Panic => False
  end.
Proof.
  intros Hm. unfold install_if. destruct needed; cbn [negb]; [|done]. unfold capacity_plan_for, capacity_plan, checked_add.
  destruct (Z.leb_spec (map_len m + 1) usize_max); [|done]. cbn [ok_or res_bind].
  destruct (Z.leb_spec (map_len m + 1) (capacity m)); [split; [done|split; [done|lia]]|].
  destruct (growth_target (capacity m) (map_len m + 1)) as [g| |]; [|done..]. cbn [res_bind required].
  destruct prepared as [cap|]; [|done]. destruct (Z.leb_spec (map_len m + 1) cap); [|done].
  unfold install_prepared. destruct (Z.ltb_spec cap (map_len m)); [lia|]. destruct committed; [|done].
  unfold replace_backing. destruct (Z.ltb_spec cap (map_len m)); [lia|]. cbn [ok_or].
  unfold map_len in *. cbn [entries capacity]. split; [|split; [done|lia]]. split; [apply Hm|]. unfold map_len. cbn. lia.
Qed.

(** The same contents, perhaps in other backings *)
Record regrown (c c' : FragmentCache) : Prop := {
  rg_queues : entries (c_queues c') = entries (c_queues c);
  rg_src : entries (c_per_src c') = entries (c_per_src c);
  rg_ns : entries (c_per_ns c') = entries (c_per_ns c);
  rg_stats : c_stats c' = c_stats c;
  rg_queues_ok : map_ok (c_queues c');
  rg_src_ok : map_ok (c_per_src c');
  rg_ns_ok : map_ok (c_per_ns c');
}.

Lemma regrown_books L G c c' : regrown c c' -> books L G c -> books L G c'.
Proof.
  intros [] []. constructor; try done.
  - by apply (agrees_entries _ _ _ _ _ _ (c_per_ns c)).
  - by apply (agrees_entries _ _ _ _ _ _ (c_per_src c)).
  - by rewrite rg_stats0.
Qed.

Lemma regrown_frame ns c c' : regrown c c' -> frame ns c c'.
Proof. intros []. constructor; intros; by apply get_entries. Qed.

Lemma contains_key_entries {K V} `{Ord K} (m m' : OrdMap K V) k : entries m' = entries m -> contains_key m' k = contains_key m k.
Proof. unfold contains_key. by intros ->. Qed.

(** When the growth succeeds every index has a slot for the entry it will get. *)
Lemma grow_chunks_spec al key victim caps c : map_ok (c_queues c) -> map_ok (c_per_src c) -> map_ok (c_per_ns c) ->
  let '(c', r) := grow al key victim caps c in
  regrown c c' /\
  (r = None -> (victim = None -> map_len (c_queues c') < capacity (c_queues c')) /\
    (get (c_per_src c) (source_of key) = None -> frees_source victim (c_per_src c) = false -> map_len (c_per_src c') < capacity (c_per_src c')) /\
    (get (c_per_ns c) (net_ns_id key) = None -> frees_ns victim (c_per_ns c) = false -> map_len (c_per_ns c') < capacity (c_per_ns c'))).
Proof.
  intros Hq Hs Hn. unfold grow.
  pose proof (install_if_spec (is_none victim) (k_queues caps) (al_commit_queues al) (c_queues c) Hq) as H1.
  destruct (install_if (is_none victim) _ _ _) as [queues| |]; [|by split|done]. destruct H1 as (Hq' & Heq & Hcq). cbn [c_queues c_per_src c_per_ns c_stats].
  match goal with |- context [install_if ?b _ _ (c_per_src c)] => set (need_src := b) end.
  pose proof (install_if_spec need_src (k_src caps) (al_commit_src al) (c_per_src c) Hs) as H2.
  destruct (install_if need_src _ _ _) as [per_src| |]; [|by split|done]. destruct H2 as (Hs' & Hes & Hcs). cbn [c_queues c_per_src c_per_ns c_stats].
  match goal with |- context [install_if ?b _ _ (c_per_ns c)] => set (need_ns := b) end.
  pose proof (install_if_spec need_ns (k_ns caps) (al_commit_ns al) (c_per_ns c) Hn) as H3.
  destruct (install_if need_ns _ _ _) as [per_ns| |]; [|by split|done]. destruct H3 as (Hn' & Hen & Hcn). cbn [c_queues c_per_src c_per_ns c_stats].
  split; [done|]. intros _. split; [intros ->; by apply Hcq|]. split.
  - intros Hg Hf. apply Hcs. subst need_src. rewrite Hf. apply (contains_key_false _ _ (mo_sorted _ Hs)) in Hg. by rewrite Hg.
  - intros Hg Hf. apply Hcn. subst need_ns. rewrite Hf. apply (contains_key_false _ _ (mo_sorted _ Hn)) in Hg. by rewrite Hg.
Qed.
