(* ===== verification/FragLanes.v ===== *)
(** The invariant of the fragment cache while transactions of several lanes are
    between their sections, and that each section of one lane keeps it. *)

From Stdlib Require Import ZArith Lia.
From stdpp Require Import base list list_numbers numbers sorting.
From S2P Require Import Prelude Machine OrdMap OrdMapFacts Wire WireFacts Frag FragFacts FragCache FragBooks FragCacheFacts.

(** * Queues of the cache *)
Definition budget_of (q : FragmentQueue) : PerNsBudget := charged (received_frags q) (received_bytes q).
Definition queues_ledger (c : FragmentCache) : Ledger := map (fun kq => (kq.1, budget_of kq.2)) (entries (c_queues c)).

Record owner_ok (q : FragmentQueue) : Prop := { ow_queue : queue_ok q; ow_rate : rate_ok 0 (rate_limiter q); ow_frags : 1 <= received_frags q }.

Lemma owner_bytes q : queue_ok q -> 0 <= received_bytes q.
Proof. intros Hq. rewrite (qo_bytes _ Hq). apply sumZ_nonneg. intros e _. apply zlen_nonneg. Qed.

Record cache_ok (c : FragmentCache) : Prop := {
  co_map : map_ok (c_queues c);
  co_owner : forall k q, get (c_queues c) k = Some q -> owner_ok q;
}.

(** * Limits *)
Abbreviation ns_total := (total net_ns_id amount).
Abbreviation src_total := (total source_of (fun (_ : unit) b => b_queues b) tt).

Record limits (L : Ledger) : Prop := {
  lim_ns : forall n fd, n <> 0 -> ns_total fd n L <= ns_cap fd;
  lim_src : forall s, src_total s L <= MAX_QUEUES_PER_SRC;
}.

#[export] Instance limits_perm : Proper ((≡ₚ) ==> iff) limits.
Proof.
  assert (forall L1 L2, L1 ≡ₚ L2 -> limits L1 -> limits L2) as Hone.
  { intros L1 L2 Hp []. constructor; intros; unfold total in *; rewrite <- Hp; auto. }
  intros L1 L2 Hp. split; by apply Hone.
Qed.

Lemma ns_total_cons fd n kb L : ns_total fd n (kb :: L) = (if bool_decide (net_ns_id kb.1 = n) then amount fd kb.2 else 0) + ns_total fd n L.
Proof. done. Qed.

Lemma src_total_cons s kb L : src_total s (kb :: L) = (if bool_decide (source_of kb.1 = s) then b_queues kb.2 else 0) + src_total s L.
Proof. done. Qed.

(** An entry that shrinks or goes *)
Lemma limits_shrink k b b' L : (forall fd, amount fd b' <= amount fd b) -> limits ((k, b) :: L) -> limits ((k, b') :: L).
Proof.
  intros Hle []. constructor.
  - intros n fd Hn. specialize (lim_ns0 n fd Hn). rewrite ns_total_cons in *. cbn [fst snd] in *. specialize (Hle fd). case_bool_decide; lia.
  - intros s. specialize (lim_src0 s). rewrite src_total_cons in *. cbn [fst snd] in *. specialize (Hle FQueues). cbn in Hle. case_bool_decide; lia.
Qed.

Lemma limits_drop kb L : entry_ok kb -> limits (kb :: L) -> limits L.
Proof.
  intros Hok []. constructor.
  - intros n fd Hn. specialize (lim_ns0 n fd Hn). rewrite ns_total_cons in *. pose proof (entry_amount fd _ Hok). case_bool_decide; lia.
  - intros s. specialize (lim_src0 s). rewrite src_total_cons in *. pose proof (entry_amount FQueues _ Hok) as Hq. cbn in Hq. case_bool_decide; lia.
Qed.

(** An entry that grows within the limits of its namespace and source *)
Lemma limits_grow A kb L : limits (A ++ L) -> Forall entry_ok A ->
  (net_ns_id kb.1 <> 0 -> forall fd, ns_total fd (net_ns_id kb.1) L + amount fd kb.2 <= ns_cap fd) ->
  src_total (source_of kb.1) L + b_queues kb.2 <= MAX_QUEUES_PER_SRC -> limits (kb :: L).
Proof.
  intros HA Hok Hns Hsrc. assert (limits L) as [].
  { induction A as [|a A IH]; [done|]. apply list.Forall_cons in Hok as [Ha Hok]. apply IH; [|done]. by apply (limits_drop a). }
  constructor.
  - intros n fd Hn. specialize (lim_ns0 n fd Hn). rewrite ns_total_cons. case_bool_decide; [subst n; specialize (Hns Hn fd)|]; lia.
  - intros s. specialize (lim_src0 s). rewrite src_total_cons. case_bool_decide; [subst s|]; lia.
Qed.

(** The largest share of one fragment, by which the global limits may be passed
    for each of the other lanes *)
Definition unit_of (fd : field) : Z := match fd with FQueues | FFrags => 1 | FBytes => u16_max end.
Definition bound (fd : field) : Z := global_cap fd + 63 * unit_of fd.

Lemma bound_room fd : bound fd + MAX_BYTES_PER_QUEUE <= room fd.
Proof. by destruct fd. Qed.

(** * The cache and its ledgers

    [Yn] and [Yg] are the queues out of the cache, [P] what is planned. *)
Record core (Yn Yg : Ledger) (P : field -> Z) (c : FragmentCache) : Prop := {
  cr_cache : cache_ok c;
  cr_books : books (queues_ledger c ++ Yn) (queues_ledger c ++ Yg) c;
  cr_limits : limits (queues_ledger c ++ Yn);
  cr_bound : forall fd, grand amount fd (queues_ledger c ++ Yg) + P fd <= bound fd;
}.

Lemma core_perm Yn Yn' Yg Yg' P c : Yn ≡ₚ Yn' -> Yg ≡ₚ Yg' -> core Yn Yg P c -> core Yn' Yg' P c.
Proof.
  intros Hn Hg []. constructor; [done|by rewrite <- Hn, <- Hg|by rewrite <- Hn|]. intros fd. unfold grand. rewrite <- Hg. apply cr_bound0.
Qed.

Lemma core_mono Yn Yg P P' c : (forall fd, P' fd <= P fd) -> core Yn Yg P c -> core Yn Yg P' c.
Proof. intros HP []. constructor; try done. intros fd. specialize (HP fd). specialize (cr_bound0 fd). lia. Qed.

Lemma core_stats f Yn Yg P c : (forall fd, gauge fd (f (c_stats c)) = gauge fd (c_stats c)) -> core Yn Yg P c -> core Yn Yg P (with_stats f c).
Proof. intros Hf []. constructor; [|by apply books_stats|done|done]. by destruct cr_cache0. Qed.

(** ** Taking a queue out and putting it back *)
Definition with_queues (queues : OrdMap FragmentKey FragmentQueue) (c : FragmentCache) : FragmentCache :=
  mkCache queues (c_per_src c) (c_per_ns c) (c_stats c).

Lemma core_move Yn Yg Zn Zg P c queues : core Yn Yg P c -> cache_ok (with_queues queues c) ->
  queues_ledger (with_queues queues c) ++ Zn ≡ₚ queues_ledger c ++ Yn -> queues_ledger (with_queues queues c) ++ Zg ≡ₚ queues_ledger c ++ Yg ->
  core Zn Zg P (with_queues queues c).
Proof.
  intros [] Hok Hn Hg. constructor; [done|rewrite Hn, Hg; by destruct cr_books0|by rewrite Hn|]. intros fd. unfold grand. rewrite Hg. apply cr_bound0.
Qed.

(** The ledger of a map with one queue more *)
Lemma queues_ledger_cons k q queues c X : entries queues ≡ₚ (k, q) :: entries (c_queues c) ->
  queues_ledger (with_queues queues c) ++ X ≡ₚ queues_ledger c ++ (k, budget_of q) :: X.
Proof. intros Hp. unfold queues_ledger. cbn [with_queues c_queues]. rewrite Hp. cbn. by rewrite <- Permutation_middle. Qed.

Lemma take_spec k q Yn Yg P c : core Yn Yg P c -> get (c_queues c) k = Some q ->
  exists queues, take_queue k c = Some (q, with_queues queues c) /\ entries (c_queues c) ≡ₚ (k, q) :: entries queues /\
    core ((k, budget_of q) :: Yn) ((k, budget_of q) :: Yg) P (with_queues queues c) /\
    (forall k', get queues k' = if decide (k' = k) then None else get (c_queues c) k') /\ map_len queues < capacity queues.
Proof.
  intros Hc Hg. destruct (cr_cache _ _ _ _ Hc) as [Hm Ho]. pose proof (remove_entries (c_queues c) k (mo_sorted _ Hm)) as Hr.
  pose proof (remove_ok (c_queues c) k Hm) as Hok. pose proof (remove_len (c_queues c) k Hm) as Hlen.
  unfold take_queue. destruct (remove k (c_queues c)) as [o queues]. destruct Hr as (-> & Hp & _ & Hcap & Hget). rewrite Hg in Hp |- *. cbn in Hp, Hok, Hlen.
  exists queues. split; [done|]. split; [done|]. rewrite Hg in Hlen. split; [|split; [done|pose proof (mo_fits _ Hm); lia]].
  apply (core_move Yn Yg); [done| |symmetry; destruct c; by apply (queues_ledger_cons k q _ (with_queues queues _))..].
  split; [done|]. cbn. intros k' q'. rewrite Hget. case_decide; [done|]. apply Ho.
Qed.

(** A map that has the queue again *)
Lemma core_put k q Yn Yg P c queues : core ((k, budget_of q) :: Yn) ((k, budget_of q) :: Yg) P c -> map_ok queues -> owner_ok q ->
  entries queues ≡ₚ (k, q) :: entries (c_queues c) -> core Yn Yg P (with_queues queues c).
Proof.
  intros Hc Hok Hq Hp. apply (core_move _ _ _ _ _ _ _ Hc); [|by apply queues_ledger_cons..]. split; [done|]. intros k' q' Hg.
  apply (get_Some _ _ _ (mo_sorted _ Hok)) in Hg. cbn in Hg. rewrite Hp in Hg. apply elem_of_cons in Hg as [[= -> ->]|Hin]; [done|].
  destruct (cr_cache _ _ _ _ Hc) as [Hm Ho]. apply (Ho k'). by apply (get_Some _ _ _ (mo_sorted _ Hm)).
Qed.

Lemma publish_spec k q Yn Yg P c : core ((k, budget_of q) :: Yn) ((k, budget_of q) :: Yg) P c -> get (c_queues c) k = None -> owner_ok q ->
  (map_len (c_queues c) < capacity (c_queues c) ->
    exists queues, publish k q c = Ok (with_queues queues c) /\ core Yn Yg P (with_queues queues c) /\
      (forall k', get queues k' = if decide (k' = k) then Some q else get (c_queues c) k')) /\
  (map_len (c_queues c) = capacity (c_queues c) -> publish k q c = Panic).
Proof.
  intros Hc Hg Hq. destruct (cr_cache _ _ _ _ Hc) as [Hm Ho]. unfold publish. split.
  - intros Hlt. destruct (insert_reserved_ok (c_queues c) k q Hm Hg Hlt) as (queues & -> & Hok & Hp & _ & Hget).
    exists queues. split; [done|]. split; [|done]. by eapply core_put.
  - intros Heq. apply (insert_reserved_full _ k q Hm Hg) in Heq. by rewrite Heq.
Qed.

Lemma retire_spec k f n Yn Yg P c : core ((k, charged f n) :: Yn) ((k, charged f n) :: Yg) P c ->
  core Yn Yg (fun fd => P fd + amount fd (charged f n)) (retire k f n c) /\ frame (net_ns_id k) c (retire k f n c).
Proof.
  intros []. assert (forall X, queues_ledger c ++ (k, charged f n) :: X ≡ₚ (k, charged f n) :: queues_ledger c ++ X) as Hl.
  { intros X. by rewrite <- Permutation_middle. }
  rewrite !Hl in cr_books0. pose proof (bk_L _ _ _ cr_books0) as HL. apply list.Forall_cons in HL as [Hok HL].
  destruct (retire_books _ _ _ _ _ _ cr_books0) as [Hb Hf]. split; [|done]. constructor.
  - by destruct cr_cache0.
  - done.
  - rewrite Hl in cr_limits0. by apply limits_drop in cr_limits0.
  - intros fd. specialize (cr_bound0 fd). unfold grand in *. rewrite Hl, sumZ_cons in cr_bound0. cbn [snd] in cr_bound0.
    unfold queues_ledger in *. cbn [retire c_queues] in *. lia.
Qed.

(** ** A fragment charged to a queue that is then taken out *)
Lemma charge_core k q f n len Yn Yg P c : core ((k, charged f n) :: Yn) ((k, charged f n) :: Yg) P c -> queue_ok q -> 0 <= len ->
  (forall fd, 0 <= P fd <= 63 * unit_of fd) -> (forall fd, grand amount fd Yn <= grand amount fd Yg + 64 * MAX_BYTES_PER_QUEUE) ->
  exists c' r, charge_existing k len q c = Ok (c', r) /\ c_queues c' = c_queues c /\ frame (net_ns_id k) c c' /\
    match r with
    | Some _ => core ((k, charged f n) :: Yn) ((k, charged f n) :: Yg) P c'
    | None => core ((k, charged (f + 1) (n + len)) :: Yn) ((k, charged (f + 1) (n + len)) :: Yg) P c' /\ len <= MAX_BYTES_PER_QUEUE
    end.
Proof.
  intros Hc Hq Hlen HP Hdrift. assert (forall b X, queues_ledger c ++ (k, b) :: X ≡ₚ (k, b) :: queues_ledger c ++ X) as Hl.
  { intros b X. by rewrite <- Permutation_middle. }
  destruct Hc as [Hcache Hb Hlim Hbound]. rewrite !Hl in Hb. rewrite Hl in Hlim.
  assert (forall fd, grand amount fd ((k, charged f n) :: queues_ledger c ++ Yn) <= bound fd + 64 * MAX_BYTES_PER_QUEUE) as Hroom.
  { intros fd. specialize (Hbound fd). specialize (Hdrift fd). specialize (HP fd). unfold grand in *.
    rewrite Hl in Hbound. rewrite !sumZ_cons, sumZ_app in *. lia. }
  destruct (charge_existing_spec k f n f n len _ _ c Hb Hlen) with (owner := q) as (c' & r & -> & Hq' & Hs' & Hf' & Hpost).
  { specialize (Hroom FFrags). unfold bound in Hroom. cbn [global_cap unit_of] in Hroom. unfold GLOBAL_MAX_FRAGS, MAX_BYTES_PER_QUEUE, u32_max in *. lia. }
  { specialize (Hroom FBytes). unfold bound in Hroom. cbn [global_cap unit_of] in Hroom. unfold GLOBAL_MAX_FRAG_BYTES, MAX_BYTES_PER_QUEUE, u16_max, usize_max, u64_max in *. lia. }
  { by apply owner_bytes. }
  exists c', r. split; [done|]. split; [done|]. split; [done|].
  assert (queues_ledger c' = queues_ledger c) as Hql by (unfold queues_ledger; by rewrite Hq').
  assert (cache_ok c') as Hcache' by (destruct Hcache; by constructor; rewrite Hq').
  destruct r as [r|].
  - constructor; [done|by rewrite Hql, !Hl|by rewrite Hql, Hl|by rewrite Hql].
  - destruct Hpost as (Hb' & Hmax & Hgf & Hgn & Hns). split; [|done]. constructor; [done|by rewrite Hql, !Hl| |].
    + rewrite Hql, Hl. apply (limits_grow [(k, charged f n)]); [done|constructor; [exact (Forall_inv (bk_L _ _ _ Hb))|done]| |].
      * cbn [fst snd]. intros Hne fd. pose proof (lim_ns _ Hlim _ fd Hne) as Hle. pose proof (ag_row _ _ _ _ _ _ _ (bk_ns _ _ _ Hb) fd (net_ns_id k)) as Hrow.
        rewrite ns_total_cons in Hle, Hrow. cbn [fst snd] in Hle, Hrow. rewrite bool_decide_eq_true_2 in Hle, Hrow by done.
        destruct (Hns Hne). destruct fd; cbn [amount b_queues b_frags b_bytes ns_cap] in *; lia.
      * pose proof (lim_src _ Hlim (source_of k)) as Hle. rewrite src_total_cons in Hle. cbn [fst snd] in *.
        rewrite bool_decide_eq_true_2 in Hle by done. cbn in *. lia.
    + intros fd. specialize (Hbound fd). specialize (HP fd). pose proof (bk_gauge _ _ _ Hb' fd) as Hg'. rewrite Hql. unfold grand in *.
      rewrite Hl in Hbound |- *. rewrite sumZ_cons in *. unfold bound in *. destruct fd; cbn [gauge global_cap unit_of amount b_queues b_frags b_bytes snd] in *; lia.
Qed.

(** The charge does not look at the queues. *)
Lemma charge_with_queues k len q queues c : charge_existing k len q (with_queues queues c) =
  let? cr := charge_existing k len q c in Ok (with_queues queues cr.1, cr.2).
Proof.
  unfold charge_existing, with_queues. cbn [c_queues c_per_src c_per_ns c_stats]. repeat (case_match; [done|]).
  case_match; [|done]. destruct (per_ns_charge_frag _ _); [|done..]. cbn [res_bind]. case_match; [|done].
  by destruct (per_ns_charge_bytes _ _ _).
Qed.

Lemma detach_spec k q len Yn Yg P c : core Yn Yg P c -> get (c_queues c) k = Some q -> 0 <= len ->
  (forall fd, 0 <= P fd <= 63 * unit_of fd) -> (forall fd, grand amount fd Yn <= grand amount fd Yg + 64 * MAX_BYTES_PER_QUEUE) ->
  exists c1 r, charge_existing k len q c = Ok (c1, r) /\ frame (net_ns_id k) c c1 /\
    match r with
    | Some _ => core Yn Yg P c1
    | None => exists c2, take_queue k c1 = Some (q, c2) /\ frame (net_ns_id k) c c2 /\ get (c_queues c2) k = None /\
        len <= MAX_BYTES_PER_QUEUE /\
        core ((k, charged (received_frags q + 1) (received_bytes q + len)) :: Yn) ((k, charged (received_frags q + 1) (received_bytes q + len)) :: Yg) P c2
    end.
Proof.
  intros Hc Hg Hlen HP Hdrift. destruct (take_spec k q Yn Yg P c Hc Hg) as (queues & Ht & Hp & Hc0 & Hget & Hfit).
  pose proof (co_owner _ (cr_cache _ _ _ _ Hc) _ _ Hg) as Hq.
  destruct (charge_core k q _ _ len Yn Yg P _ Hc0 (ow_queue _ Hq) Hlen HP Hdrift) as (c' & r & Hch & Hq' & Hf' & Hpost).
  assert (charge_existing k len q c = Ok (with_queues (c_queues c) c', r)) as ->.
  { pose proof (charge_with_queues k len q (c_queues c) (with_queues queues c)) as He. rewrite Hch in He. destruct c. exact He. }
  eexists _, r. split; [done|]. cbn [with_queues c_queues] in Hq'. split; [by destruct Hf'|]. destruct r as [r|].
  - eapply core_put; [exact Hpost|exact (co_map _ (cr_cache _ _ _ _ Hc))|done|]. by rewrite Hq'.
  - destruct Hpost as [Hc' Hmax]. exists c'. split.
    { unfold take_queue in *. cbn [with_queues c_queues c_per_src c_per_ns c_stats]. destruct (remove k (c_queues c)) as [[o|] queues0]; [|done].
      cbn in Ht |- *. injection Ht as -> ->. rewrite <- Hq'. by destruct c'. }
    split; [|split; [by rewrite Hq', Hget, decide_True|done]]. destruct Hf'. constructor; [|done|done].
    intros k' Hk'. rewrite Hq', Hget, decide_False by congruence. done.
Qed.

(** ** A new queue *)
Definition new_budget (t : Tx) : PerNsBudget := charged 1 (zlen (t_payload t)).
Definition victim_budget (v : option Victim) : PerNsBudget :=
  match v with Some v => charged (v_frags v) (v_bytes v) | None => no_budget end.

(** The victim is a queue of the same namespace, as it was when it was chosen. *)
Definition victim_ok (t : Tx) (v : option Victim) (c : FragmentCache) : Prop :=
  match v with
  | None => True
  | Some v => net_ns_id (v_key v) = net_ns_id (t_key t) /\
      exists q, get (c_queues c) (v_key v) = Some q /\ v_frags v = received_frags q /\ v_bytes v = received_bytes q
  end.

Definition same_source (t : Tx) (v : option Victim) : bool :=
  match v with Some v => bool_decide (source_of (v_key v) = source_of (t_key t)) | None => false end.

(** The rows have room for the new queue once the victim is gone. *)
Definition room_for (t : Tx) (v : option Victim) (c : FragmentCache) : Prop :=
  (net_ns_id (t_key t) <> 0 -> forall fd,
     amount fd (ns_row (c_per_ns c) (net_ns_id (t_key t))) + amount fd (new_budget t) <= ns_cap fd + amount fd (victim_budget v)) /\
  src_row (c_per_src c) (source_of (t_key t)) + 1 <= MAX_QUEUES_PER_SRC + Z.b2z (same_source t v).

(** What the new queue adds to the gauges *)
Definition pending (fd : field) (t : Tx) (v : option Victim) : Z := Z.max 0 (amount fd (new_budget t) - amount fd (victim_budget v)).

(** A ledger that has room for the new queue *)
Definition fits (t : Tx) (L : Ledger) : Prop :=
  (net_ns_id (t_key t) <> 0 -> forall fd, ns_total fd (net_ns_id (t_key t)) L + amount fd (new_budget t) <= ns_cap fd) /\
  src_total (source_of (t_key t)) L + 1 <= MAX_QUEUES_PER_SRC.

Lemma core_regrown Yn Yg P c c' : regrown c c' -> core Yn Yg P c -> core Yn Yg P c'.
Proof.
  intros Hr []. assert (queues_ledger c' = queues_ledger c) as Hl by (unfold queues_ledger; by rewrite (rg_queues _ _ Hr)).
  constructor; rewrite ?Hl; [|by eapply regrown_books|done|done]. destruct cr_cache0. split; [exact (rg_queues_ok _ _ Hr)|].
  intros k q. rewrite (get_entries _ _ _ (rg_queues _ _ Hr)). apply co_owner0.
Qed.

(** Slots for the rows of the new queue *)
Record slots (key : FragmentKey) (c : FragmentCache) : Prop := {
  sl_queues : map_len (c_queues c) < capacity (c_queues c);
  sl_src : get (c_per_src c) (source_of key) = None -> map_len (c_per_src c) < capacity (c_per_src c);
  sl_ns : get (c_per_ns c) (net_ns_id key) = None -> map_len (c_per_ns c) < capacity (c_per_ns c);
}.

(** A row that goes leaves a slot; one that stays takes none. *)
Lemma moves_slot {K V F} `{OrdLaws K, !EqDecision K} (amt : F -> V -> Z) zero isz k v k' (m m' : OrdMap K V) :
  moves amt zero isz k v m m' -> map_ok m -> is_Some (get m k) -> get m' k' = None ->
  (get m k' = None -> map_len m < capacity m \/ isz v = true) -> map_len m' < capacity m'.
Proof.
  intros Hm Hok [b Hb] Hg Hslot. rewrite (mv_cap _ _ _ _ _ _ _ Hm), (mv_len _ _ _ _ _ _ _ Hm), Hb.
  pose proof (mo_fits _ Hok). destruct (isz v) eqn:Hz; [lia|]. destruct (decide (k' = k)) as [->|Hk].
  - rewrite (mv_row _ _ _ _ _ _ _ Hm), Hz in Hg. done.
  - rewrite (mv_other _ _ _ _ _ _ _ Hm) in Hg by done. destruct (Hslot Hg); [lia|done].
Qed.

Lemma retire_slots key v L G c : books ((v_key v, charged (v_frags v) (v_bytes v)) :: L) G c -> net_ns_id (v_key v) = net_ns_id key ->
  map_len (c_queues c) < capacity (c_queues c) ->
  (get (c_per_src c) (source_of key) = None -> frees_source (Some v) (c_per_src c) = false -> map_len (c_per_src c) < capacity (c_per_src c)) ->
  slots key (retire (v_key v) (v_frags v) (v_bytes v) c).
Proof.
  intros Hb Hns Hq Hsrc. pose proof (bk_L _ _ _ Hb) as HL. apply list.Forall_cons in HL as [(_ & Hf & Hn) HL]. cbn in Hf, Hn.
  destruct (bk_ns _ _ _ Hb) as [Hnok Hnt _ _]. destruct (bk_src _ _ _ Hb) as [Hsok Hst _ _].
  pose proof (row_ge_entry FQueues _ _ _ _ (bk_ns _ _ _ Hb) HL) as Hrow. pose proof (src_row_ge_entry _ _ _ _ (bk_src _ _ _ Hb) HL) as Hsrow.
  cbn in Hrow, Hsrow. constructor; [done| |].
  - intros Hnone. eapply moves_slot; [exact (release_source_moves _ _ Hsok Hst)|done| |exact Hnone|].
    + unfold row in Hsrow. destruct (get (c_per_src c) (source_of (v_key v))); [done|cbn in Hsrow; lia].
    + intros Hno. specialize (Hsrc Hno). unfold frees_source, row in *. cbn in Hsrc |- *.
      destruct (get (c_per_src c) (source_of (v_key v))) as [n|]; cbn in *; [|lia]. destruct (Z.eqb_spec n 1); [right; by subst|left; auto].
  - intros Hnone. rewrite <- Hns in Hnone. pose proof (row_get (c_per_ns c) (net_ns_id (v_key v)) ltac:(lia)) as Hg.
    eapply moves_slot; [exact (release_all_moves _ _ _ _ Hnok Hnt Hf Hn)|done|by rewrite Hg|exact Hnone|]. by rewrite Hg.
Qed.

Lemma evict_spec t v Yn Yg P c : core Yn Yg P c -> victim_ok t (Some v) c ->
  (get (c_per_src c) (source_of (t_key t)) = None -> frees_source (Some v) (c_per_src c) = false -> map_len (c_per_src c) < capacity (c_per_src c)) ->
  exists c', evict (Some v) c = Ok c' /\ core Yn Yg (fun fd => P fd + amount fd (victim_budget (Some v))) c' /\ frame (net_ns_id (t_key t)) c c' /\
    slots (t_key t) c' /\ queues_ledger c ++ Yn ≡ₚ (v_key v, victim_budget (Some v)) :: queues_ledger c' ++ Yn /\
    (forall k, get (c_queues c') k = if decide (k = v_key v) then None else get (c_queues c) k).
Proof.
  intros Hc (Hns & q & Hg & Hvf & Hvb) Hsrc. destruct (take_spec _ _ _ _ _ _ Hc Hg) as (queues & Ht & Hp & Hc0 & Hget & Hfit).
  cbn [evict]. rewrite Ht. cbn [or_panic res_bind snd]. eexists. split; [done|]. unfold budget_of in Hc0. rewrite <- Hvf, <- Hvb in Hc0.
  destruct (retire_spec _ _ _ _ _ _ _ Hc0) as [Hc1 Hf1]. split; [by apply core_stats; [intros; apply gauge_bump|]|].
  split; [|split; [|split]].
  - rewrite <- Hns. eapply frame_trans; [|eapply frame_trans; [exact Hf1|apply frame_stats]].
    constructor; [|done|done]. intros k Hk. cbn. rewrite Hget. case_decide; [by subst k|done].
  - pose proof (cr_books _ _ _ _ Hc0) as Hb. rewrite <- !Permutation_middle in Hb. pose proof (retire_slots (t_key t) v _ _ _ Hb Hns Hfit Hsrc) as [].
    by constructor.
  - etrans; [apply (queues_ledger_cons (v_key v) q (c_queues c) (with_queues queues c) Yn Hp)|]. cbn [victim_budget].
    rewrite Hvf, Hvb. by rewrite <- Permutation_middle.
  - exact Hget.
Qed.

(** The rows of the new queue *)
Lemma open_rows k len L m src : ns_agrees L m -> src_agrees L src -> Forall entry_ok L -> 0 <= len ->
  grand amount FQueues L < usize_max -> grand amount FFrags L < u32_max -> grand amount FBytes L + len <= usize_max ->
  src_total (source_of k) L + 1 <= MAX_QUEUES_PER_SRC ->
  (get src (source_of k) = None -> map_len src < capacity src) -> (get m (net_ns_id k) = None -> map_len m < capacity m) ->
  exists src' m1 m2 m3, charge_source (source_of k) src = Ok src' /\ per_ns_charge_queue m (net_ns_id k) = Ok m1 /\
    per_ns_charge_frag m1 (net_ns_id k) = Ok m2 /\ per_ns_charge_bytes m2 (net_ns_id k) len = Ok m3 /\
    ns_agrees ((k, charged 1 len) :: L) m3 /\ src_agrees ((k, charged 1 len) :: L) src' /\
    (forall n, n <> net_ns_id k -> get m3 n = get m n) /\ (forall s, s <> source_of k -> get src' s = get src s).
Proof.
  intros Hns Hsrc HL Hlen Hq Hf Hb Hfit Hsl1 Hsl2.
  assert (forall fd, 0 <= amount fd (ns_row m (net_ns_id k)) <= grand amount fd L) as Hrow.
  { intros fd. split; [|by apply row_le_grand]. rewrite (ag_row _ _ _ _ _ _ _ Hns). apply sumZ_nonneg. rewrite list.Forall_forall in HL.
    intros kb Hkb. pose proof (entry_amount fd kb (HL _ Hkb)). case_bool_decide; lia. }
  pose proof (Hrow FQueues). pose proof (Hrow FFrags). cbn [amount] in *.
  destruct (charge_source_moves src (source_of k)) as (src' & Hc1 & Hm1); [apply Hsrc|apply Hsrc| |done|].
  { pose proof (ag_row _ _ _ _ _ _ _ Hsrc tt (source_of k)) as Hr. cbn in Hr. rewrite Hr. split; [|unfold MAX_QUEUES_PER_SRC, usize_max, u64_max in *; lia].
    apply sumZ_nonneg. rewrite list.Forall_forall in HL. intros kb Hkb. destruct (HL _ Hkb) as (-> & _). case_bool_decide; lia. }
  destruct (charge_queue_moves m (net_ns_id k)) as (m1 & Hc2 & Hm2); [apply Hns|apply Hns|lia|lia|done|].
  assert (ns_agrees ((k, charged 0 0) :: L) m1) as Ha1.
  { apply (agrees_moves amount no_budget is_zero is_zero_spec net_ns_id amount [] [(k, charged 0 0)] L _ _ _ _ Hns Hm2); [done|by repeat constructor|].
    intros fd. unfold grand. destruct fd; cbn; lia. }
  destruct (charge_ns k 0 0 len L m1 Ha1) as (m2 & m3 & Hc3 & Hc4 & _ & Ha3 & _ & Ho3); [by constructor|done|rewrite grand_cons; cbn; lia|rewrite grand_cons; cbn; lia|].
  exists src', m1, m2, m3. split; [done|]. split; [done|]. split; [done|]. split; [done|]. split; [exact Ha3|]. split; [|split].
  - apply (agrees_moves _ _ _ src_zero_spec source_of (fun (_ : unit) b => b_queues b) [] [(k, charged 1 len)] L _ _ _ _ Hsrc Hm1); [done|by repeat constructor|].
    intros fd. unfold grand. cbn. lia.
  - intros n Hn. rewrite Ho3, (mv_other _ _ _ _ _ _ _ Hm2); done.
  - exact (mv_other _ _ _ _ _ _ _ Hm1).
Qed.

Lemma books_open k len L G c src ns : books L G c -> ns_agrees ((k, charged 1 len) :: L) ns -> src_agrees ((k, charged 1 len) :: L) src -> 0 <= len ->
  (forall fd, grand amount fd G + amount fd (charged 1 len) <= bound fd) ->
  books ((k, charged 1 len) :: L) ((k, charged 1 len) :: G) (mkCache (c_queues c) src ns (gauge_add 1 1 len (c_stats c))).
Proof.
  intros Hb Hns Hsrc Hlen HG. assert (forall fd, gauge fd (c_stats c) + amount fd (charged 1 len) <= room fd) as Hr.
  { intros fd. rewrite (bk_gauge _ _ _ Hb). specialize (HG fd). pose proof (bound_room fd). unfold MAX_BYTES_PER_QUEUE in *. lia. }
  pose proof (Hr FQueues). pose proof (Hr FFrags). pose proof (Hr FBytes). pose proof (books_gauge_range _ _ _ FQueues Hb).
  pose proof (books_gauge_range _ _ _ FFrags Hb). pose proof (books_gauge_range _ _ _ FBytes Hb). cbn [gauge amount b_queues b_frags b_bytes room] in *.
  constructor; try done; cbn [c_stats].
  - intros fd. rewrite gauge_add_spec by lia. rewrite (bk_gauge _ _ _ Hb), grand_cons. cbn [snd]. lia.
  - constructor; [done|apply Hb].
  - constructor; [done|apply Hb].
  - intros fd. rewrite grand_cons, <- (bk_gauge _ _ _ Hb). specialize (Hr fd). cbn [snd]. lia.
Qed.

Section new_queue.
Context (t : Tx) (owner : FragmentQueue) (Yn Yg : Ledger) (P : field -> Z).
Context (Hpos : forall fd, 0 <= P fd) (Hdrift : forall fd, grand amount fd Yn <= grand amount fd Yg + 64 * MAX_BYTES_PER_QUEUE).
Context (Howner : owner_ok owner) (Hbudget : budget_of owner = new_budget t).

Lemma new_budget_pos fd : 0 <= amount fd (new_budget t).
Proof. destruct fd; cbn; try lia. apply zlen_nonneg. Qed.

(** The new queue opened where there is room and a slot for it *)
Lemma open_spec P0 c : core Yn Yg P0 c -> (forall fd, P fd + amount fd (new_budget t) <= P0 fd) ->
  slots (t_key t) c -> fits t (queues_ledger c ++ Yn) -> get (c_queues c) (t_key t) = None ->
  exists c', open_queue t owner c = Ok c' /\ core Yn Yg P c' /\ frame (net_ns_id (t_key t)) c c'.
Proof.
  intros Hc HP [Hsl0 Hsl1 Hsl2] [Hfit1 Hfit2] Hg. destruct Hc as [Hcache Hb Hlim Hbound].
  assert (forall fd, grand amount fd (queues_ledger c ++ Yg) + amount fd (new_budget t) + P fd <= bound fd) as HG.
  { intros fd. specialize (Hbound fd). specialize (HP fd). lia. }
  assert (forall fd, grand amount fd (queues_ledger c ++ Yn) + amount fd (new_budget t) <= bound fd + 64 * MAX_BYTES_PER_QUEUE) as HL.
  { intros fd. specialize (HG fd). specialize (Hdrift fd). specialize (Hpos fd). unfold grand in *. rewrite sumZ_app in *. lia. }
  destruct (open_rows (t_key t) (zlen (t_payload t)) (queues_ledger c ++ Yn) (c_per_ns c) (c_per_src c)) as (src' & m1 & m2 & m3 & Hc1 & Hc2 & Hc3 & Hc4 & Hn' & Hs' & Hon & Hos);
    [apply Hb|apply Hb|apply Hb|apply zlen_nonneg|pose proof (HL FQueues) as Hx|pose proof (HL FFrags) as Hx|pose proof (HL FBytes) as Hx|done|done|done|];
    try (unfold bound in Hx; cbn [global_cap unit_of amount new_budget b_queues b_frags b_bytes] in Hx;
      unfold GLOBAL_MAX_QUEUES, GLOBAL_MAX_FRAGS, GLOBAL_MAX_FRAG_BYTES, MAX_BYTES_PER_QUEUE, u16_max, usize_max, u32_max, u64_max in *; lia).
  set (c3 := mkCache (c_queues c) src' m3 (gauge_add 1 1 (zlen (t_payload t)) (c_stats c))).
  assert (core ((t_key t, budget_of owner) :: Yn) ((t_key t, budget_of owner) :: Yg) P c3) as Hc3'.
  { rewrite Hbudget. constructor; [by destruct Hcache|..]; change (queues_ledger c3) with (queues_ledger c); rewrite <- ?Permutation_middle.
    - apply (books_open _ _ _ _ _ _ _ Hb Hn' Hs' (zlen_nonneg _)). intros fd. specialize (HG fd). specialize (Hpos fd). unfold new_budget in HG. lia.
    - apply (limits_grow []); [done|done|done|exact Hfit2].
    - intros fd. unfold grand. rewrite <- Permutation_middle, sumZ_cons. specialize (HG fd). unfold grand in HG. cbn [snd]. lia. }
  destruct (publish_spec _ _ _ _ _ _ Hc3' Hg Howner) as [Hpub _]. destruct (Hpub Hsl0) as (queues & Hp & Hcore & Hget).
  exists (with_queues queues c3). split; [|split; [done|]].
  - unfold open_queue. unfold publish in *. cbn [c3 c_queues] in Hp. destruct (insert_unique_reserved _ _ _) as [q'|]; [|done]. cbn in Hp.
    injection Hp as ->. cbn [or_panic res_bind c_per_src c_per_ns c_queues c_stats]. by rewrite Hc1, Hc2; cbn [res_bind]; rewrite Hc3; cbn [res_bind]; rewrite Hc4.
  - constructor; cbn.
    + intros k Hk. rewrite Hget, decide_False by congruence. done.
    + done.
    + intros s Hs. apply Hos. intros ->. by apply Hs.
Qed.

Lemma room_fits v c L R : books L R c -> victim_ok t v c -> room_for t v c ->
  forall L', L ≡ₚ match v with Some v' => [(v_key v', victim_budget v)] | None => [] end ++ L' -> fits t L'.
Proof.
  intros Hb Hv [H1 H2] L' Hp. split.
  - intros Hns fd. specialize (H1 Hns fd). rewrite (ag_row _ _ _ _ _ _ _ (bk_ns _ _ _ Hb)) in H1. unfold total in H1 |- *. rewrite Hp in H1.
    destruct v as [v|]; cbn [app victim_budget] in *; rewrite ?sumZ_cons, ?amount_none in H1; [|lia].
    cbn [fst snd] in H1. rewrite bool_decide_eq_true_2 in H1 by (by destruct Hv). lia.
  - pose proof (ag_row _ _ _ _ _ _ _ (bk_src _ _ _ Hb) tt (source_of (t_key t))) as Hr. cbn in Hr. rewrite Hr in H2. unfold total in H2 |- *. rewrite Hp in H2.
    destruct v as [v|]; cbn [app same_source] in *; rewrite ?sumZ_cons in H2; [|cbn in H2; lia]. cbn [fst snd victim_budget b_queues] in H2.
    case_bool_decide; cbn in H2; lia.
Qed.

Lemma room_for_regrown v c c' : regrown c c' -> room_for t v c -> room_for t v c'.
Proof.
  intros Hr. unfold room_for, row. by rewrite (get_entries _ _ _ (rg_ns _ _ Hr)), (get_entries _ _ _ (rg_src _ _ Hr)).
Qed.

Lemma victim_ok_regrown v c c' : regrown c c' -> victim_ok t v c -> victim_ok t v c'.
Proof. intros Hr. unfold victim_ok. destruct v; [|done]. by rewrite (get_entries _ _ _ (rg_queues _ _ Hr)). Qed.

Lemma frees_regrown v c c' : regrown c c' -> frees_source v (c_per_src c') = frees_source v (c_per_src c).
Proof. intros Hr. unfold frees_source. destruct v; [|done]. cbn. by rewrite (get_entries _ _ _ (rg_src _ _ Hr)). Qed.

(** What follows a growth that succeeded *)
Lemma publish_new v c c1 : core Yn Yg (fun fd => pending fd t v + P fd) c1 -> regrown c c1 ->
  get (c_queues c1) (t_key t) = None -> victim_ok t v c1 -> room_for t v c1 ->
  (v = None -> map_len (c_queues c1) < capacity (c_queues c1)) ->
  (get (c_per_src c1) (source_of (t_key t)) = None -> frees_source v (c_per_src c1) = false -> map_len (c_per_src c1) < capacity (c_per_src c1)) ->
  (v = None -> get (c_per_ns c1) (net_ns_id (t_key t)) = None -> map_len (c_per_ns c1) < capacity (c_per_ns c1)) ->
  exists c2 c3, evict v c1 = Ok c2 /\ open_queue t owner c2 = Ok c3 /\ core Yn Yg P c3 /\ frame (net_ns_id (t_key t)) c1 c3.
Proof.
  intros Hc Hrg Hg Hv Hroom Hs0 Hs1 Hs2. pose proof (room_fits v c1 _ _ (cr_books _ _ _ _ Hc) Hv Hroom) as Hfits. destruct v as [v|].
  - destruct (evict_spec t v _ _ _ _ Hc Hv Hs1) as (c2 & He & Hc2 & Hf2 & Hsl & Hp & Hget).
    destruct (open_spec _ c2 Hc2) as (c3 & Ho & Hc3 & Hf3); [|done|by apply Hfits|rewrite Hget; case_decide; done|].
    { intros fd. unfold pending. lia. }
    exists c2, c3. split; [done|]. split; [done|]. split; [done|]. by eapply frame_trans.
  - destruct (open_spec _ c1 Hc) as (c3 & Ho & Hc3 & Hf3); [|split; auto|by apply Hfits|done|].
    { intros fd. unfold pending. cbn [victim_budget]. rewrite amount_none. lia. }
    exists c1, c3. done.
Qed.

Lemma commit_spec al v caps c : core Yn Yg (fun fd => pending fd t v + P fd) c -> get (c_queues c) (t_key t) = None -> victim_ok t v c -> room_for t v c ->
  exists c' r, commit al t owner v caps c = Ok (c', r) /\ core Yn Yg P c' /\ frame (net_ns_id (t_key t)) c c' /\ r <> Some DuplicateFragment.
Proof.
  intros Hc Hg Hv Hroom. destruct (cr_cache _ _ _ _ Hc) as [Hmq _]. pose proof (cr_books _ _ _ _ Hc) as Hb. unfold commit.
  apply (contains_key_false _ _ (mo_sorted _ Hmq)) in Hg as Hck. rewrite Hck. cbn [orb].
  assert (match v with Some v => negb (contains_key (c_queues c) (v_key v)) | None => false end = false) as ->.
  { destruct v as [v|]; [|done]. destruct Hv as (_ & q & Hq & _). apply negb_false_iff, (contains_key_spec _ _ (mo_sorted _ Hmq)). by exists q. }
  pose proof (grow_chunks_spec al (t_key t) v caps c Hmq (ag_ok _ _ _ _ _ _ _ (bk_src _ _ _ Hb)) (ag_ok _ _ _ _ _ _ _ (bk_ns _ _ _ Hb))) as Hgrow.
  destruct (grow al (t_key t) v caps c) as [c1 r] eqn:E. destruct Hgrow as [Hrg Hslots].
  pose proof (core_regrown _ _ _ _ _ Hrg Hc) as Hc1. destruct r as [r|].
  - exists c1, (Some r). split; [done|]. split; [eapply core_mono, Hc1; intros fd; unfold pending; lia|]. split; [by apply regrown_frame|].
    unfold grow in E. intros [= ->]. repeat case_match; simplify_eq.
  - destruct (Hslots eq_refl) as (H0 & H1 & H2).
    destruct (publish_new v c c1 Hc1 Hrg) as (c2 & c3 & He & Ho & Hc3 & Hf3).
    + by rewrite (get_entries _ _ _ (rg_queues _ _ Hrg)).
    + by apply (victim_ok_regrown v c).
    + by apply (room_for_regrown v c).
    + done.
    + rewrite (get_entries _ _ _ (rg_src _ _ Hrg)), (frees_regrown v c c1 Hrg). done.
    + intros ->. rewrite (get_entries _ _ _ (rg_ns _ _ Hrg)). intros. by apply H2.
    + rewrite He. cbn [res_bind]. rewrite Ho. exists c3, None. split; [done|]. split; [done|].
      split; [eapply frame_trans; [by apply regrown_frame|done]|done].
Qed.
End new_queue.

(** ** The plan *)
Lemma oldest_in ns l kq : oldest ns l = Some kq -> kq ∈ l /\ net_ns_id kq.1 = ns.
Proof.
  revert kq. induction l as [|x l IH]; intros kq; cbn; [done|]. destruct (Z.eqb_spec (net_ns_id x.1) ns) as [Hx|].
  - destruct (oldest ns l) as [y|]; [destruct (created_ms y.2 <? created_ms x.2)|]; intros [= <-]; try (split; [by left|done]).
    destruct (IH y eq_refl). split; [by right|done].
  - intros (? & ?)%IH. split; [by right|done].
Qed.

Lemma choose_victim_spec t c : map_ok (c_queues c) ->
  match choose_victim (t_key t) c with
  | Ok None => map_len (c_queues c) < GLOBAL_MAX_QUEUES
  | Ok v => victim_ok t v c
  | Err r => r <> DuplicateFragment
  | Panic => False
  end.
Proof.
  intros Hm. unfold choose_victim. cbv zeta. destruct (negb _ && _ || _) eqn:E.
  - destruct (oldest _ _) as [[k q]|] eqn:Ho; cbn [ok_or res_bind]; [|by destruct (negb _ && _)].
    apply oldest_in in Ho as [Hin Hns]. cbn [fst] in *. apply (get_Some _ _ _ (mo_sorted _ Hm)) in Hin as Hg. rewrite Hg. cbn.
    split; [done|]. by exists q.
  - apply orb_false_iff in E as [_ E]. by apply Z.leb_gt in E.
Qed.

Lemma check_limits_spec t v L G c : books L G c -> victim_ok t v c -> (v = None -> map_len (c_queues c) < GLOBAL_MAX_QUEUES) ->
  match check_limits (t_key t) (zlen (t_payload t)) v c with
  | Ok _ => room_for t v c /\ buffered_fragments (c_stats c) < GLOBAL_MAX_FRAGS + b_frags (victim_budget v) /\
      buffered_bytes (c_stats c) + zlen (t_payload t) <= GLOBAL_MAX_FRAG_BYTES + b_bytes (victim_budget v)
  | Err r => r <> DuplicateFragment
  | Panic => False
  end.
Proof.
  intros Hb Hv Hq. pose proof (zlen_nonneg (t_payload t)) as Hlen. unfold check_limits. cbv zeta.
  set (ns := default no_budget (get (c_per_ns c) (net_ns_id (t_key t)))).
  assert (match v with Some v => net_ns_id (v_key v) =? net_ns_id (t_key t) | None => false end = negb (is_none v)) as Hsame.
  { destruct v as [v|]; [|done]. destruct Hv as [-> _]. apply Z.eqb_refl. }
  rewrite Hsame. assert (Z.b2z (negb (is_none v)) = b_queues (victim_budget v)) as -> by (by destruct v).
  assert (match v with Some v => v_frags v | None => 0 end = b_frags (victim_budget v)) as -> by (by destruct v).
  assert (match v with Some v => v_bytes v | None => 0 end = b_bytes (victim_budget v)) as -> by (by destruct v).
  assert ((if negb (is_none v) then b_frags (victim_budget v) else 0) = b_frags (victim_budget v)) as -> by (by destruct v).
  assert ((if negb (is_none v) then b_bytes (victim_budget v) else 0) = b_bytes (victim_budget v)) as -> by (by destruct v).
  fold (same_source t v). destruct (negb (net_ns_id (t_key t) =? 0) && _) eqn:E1; [done|].
  destruct (negb (net_ns_id (t_key t) =? 0) && (MAX_FRAGS_PER_NS <=? _)) eqn:E2; [done|].
  destruct (negb (net_ns_id (t_key t) =? 0) && (MAX_BYTES_PER_NS <? _)) eqn:E3; [done|].
  destruct (Z.leb_spec GLOBAL_MAX_FRAGS (saturating_sub (buffered_fragments (c_stats c)) (b_frags (victim_budget v)))) as [|H4]; [done|].
  destruct (Z.ltb_spec GLOBAL_MAX_FRAG_BYTES (saturating_add (saturating_sub (buffered_bytes (c_stats c)) (b_bytes (victim_budget v))) (zlen (t_payload t)))) as [|H5]; [done|].
  destruct (Z.leb_spec MAX_QUEUES_PER_SRC (saturating_sub (default 0 (get (c_per_src c) (source_of (t_key t)))) (Z.b2z (same_source t v)))) as [|H6]; [done|].
  unfold saturating_add, saturating_sub, usize_max, u64_max, GLOBAL_MAX_FRAG_BYTES in *. split; [split|lia].
  - intros Hne. apply Z.eqb_neq in Hne. rewrite Hne in E1, E2, E3. cbn [negb andb] in E1, E2, E3.
    rewrite Z.leb_gt in E1, E2. rewrite Z.ltb_ge in E3. change MAX_BYTES_PER_NS with 16777216 in *.
    intros fd. unfold row. fold ns. destruct fd; cbn [amount new_budget ns_cap b_queues b_frags b_bytes]; change MAX_BYTES_PER_NS with 16777216; lia.
  - unfold row. lia.
Qed.

Lemma queues_grand c Y : grand amount FQueues (queues_ledger c ++ Y) = map_len (c_queues c) + grand amount FQueues Y.
Proof.
  unfold grand. rewrite sumZ_app. f_equal. unfold queues_ledger, map_len, zlen. induction (entries (c_queues c)) as [|x l IH]; [done|].
  cbn [map length]. rewrite sumZ_cons, IH. cbn. lia.
Qed.

Lemma plan_if_spec {K V} b (m : OrdMap K V) : match plan_if b m with Ok _ => True | Err r => r <> DuplicateFragment | Panic => False end.
Proof. unfold plan_if. destruct b; [|done]. by destruct (capacity_plan_for 1 m). Qed.

(** A plan leaves room for the new queue beside what the other lanes plan. *)
Lemma plan_spec t Yn Yg P c : core Yn Yg P c -> get (c_queues c) (t_key t) = None -> zlen (t_payload t) <= u16_max ->
  (forall fd, 0 <= P fd <= 63 * unit_of fd) -> grand amount FQueues Yg + P FQueues <= 63 ->
  match plan t c with
  | Ok (v, _) => victim_ok t v c /\ room_for t v c /\ core Yn Yg (fun fd => pending fd t v + P fd) c
  | Err r => r <> DuplicateFragment
  | Panic => False
  end.
Proof.
  intros Hc Hg Hlen HP Hq. destruct (cr_cache _ _ _ _ Hc) as [Hm Hown]. unfold plan.
  apply (contains_key_false _ _ (mo_sorted _ Hm)) in Hg. rewrite Hg. pose proof (choose_victim_spec t c Hm) as Hcv.
  destruct (choose_victim (t_key t) c) as [v| |]; [|done|done]. cbn [res_bind].
  assert (victim_ok t v c /\ (v = None -> map_len (c_queues c) < GLOBAL_MAX_QUEUES)) as [Hv Hfew] by (by destruct v).
  pose proof (check_limits_spec t v _ _ c (cr_books _ _ _ _ Hc) Hv Hfew) as Hl.
  destruct (check_limits _ _ v c); [|done|done]. cbn [res_bind]. destruct Hl as (Hroom & Hf & Hn).
  do 3 (match goal with |- context [plan_if ?b ?m] => pose proof (plan_if_spec b m); destruct (plan_if b m); [|done|done]; cbn [res_bind] end).
  split; [done|]. split; [done|]. destruct Hc as [Hcache Hb Hlim Hbound]. constructor; try done. intros fd. specialize (Hbound fd). specialize (HP fd).
  pose proof (bk_gauge _ _ _ Hb fd) as Hgauge. unfold pending. pose proof (zlen_nonneg (t_payload t)).
  destruct v as [v|].
  - destruct Hv as (_ & q & Hgq & Hvf & _). pose proof (ow_frags _ (Hown _ _ Hgq)). unfold bound in *.
    destruct fd; cbn [amount new_budget victim_budget b_queues b_frags b_bytes gauge global_cap unit_of] in *; lia.
  - specialize (Hfew eq_refl). unfold bound in *. destruct fd; cbn [amount new_budget victim_budget no_budget b_queues b_frags b_bytes gauge global_cap unit_of] in *;
      [rewrite queues_grand; lia|lia|lia].
Qed.
