(* ===== verification/FragSystem.v ===== *)
(** Transactions of the fragment cache in their lanes: the invariant that every
    interleaving of their sections keeps, and the one place where a transaction
    can abort. *)

From Stdlib Require Import ZArith Lia.
From stdpp Require Import base list list_numbers numbers sorting.
From S2P Require Import Prelude Machine OrdMap OrdMapFacts Wire WireFacts Frag FragFacts FragCache FragBooks FragCacheFacts FragLanes.

(** The gauges of a queue out of the cache, released before its rows *)
Lemma core_gauge f k b b' Yn Yg P c : core Yn ((k, b) :: Yg) P c -> entry_ok (k, b') -> (forall fd, amount fd b' <= amount fd b) ->
  (forall fd, gauge fd (f (c_stats c)) = gauge fd (c_stats c) - amount fd b + amount fd b') -> core Yn ((k, b') :: Yg) P (with_stats f c).
Proof.
  intros [Hcache Hb Hlim Hbound] Hok Hle Hg. assert (forall fd, grand amount fd (queues_ledger c ++ (k, b') :: Yg) =
    grand amount fd (queues_ledger c ++ (k, b) :: Yg) - amount fd b + amount fd b') as Hgr.
  { intros fd. unfold grand. rewrite !sumZ_app, !sumZ_cons. cbn [snd]. lia. }
  constructor; [by destruct Hcache| |done|intros fd; change (queues_ledger (with_stats f c)) with (queues_ledger c); specialize (Hbound fd); rewrite Hgr; specialize (Hle fd); lia].
  change (queues_ledger (with_stats f c)) with (queues_ledger c). destruct Hb. constructor; try done.
  - intros fd. cbn. by rewrite Hg, Hgr, bk_gauge.
  - apply Forall_app in bk_G as [? ?%Forall_inv_tail]. apply Forall_app. split; [done|]. by constructor.
  - intros fd. rewrite Hgr. specialize (bk_room fd). specialize (Hle fd). lia.
Qed.

(** A queue out of the cache is within the gauges. *)
Lemma owner_bounds c k b Yn Yg P : core Yn ((k, b) :: Yg) P c -> b_frags b <= buffered_fragments (c_stats c) /\ b_bytes b <= buffered_bytes (c_stats c).
Proof.
  intros [_ Hb _ _]. pose proof (bk_G _ _ _ Hb) as HG. rewrite <- Permutation_middle in HG. apply Forall_inv_tail in HG.
  assert (forall fd, amount fd b <= gauge fd (c_stats c)) as Hle.
  { intros fd. rewrite (bk_gauge _ _ _ Hb). unfold grand. rewrite <- Permutation_middle, sumZ_cons. pose proof (grand_nonneg fd _ HG) as Hn.
    unfold grand in Hn. cbn [snd]. lia. }
  split; [apply (Hle FFrags)|apply (Hle FBytes)].
Qed.

(** The rows of a rejected fragment, released *)
Lemma release_charge k f n len Yn Yg P c : 0 <= len -> core ((k, charged (f + 1) (n + len)) :: Yn) ((k, charged f n) :: Yg) P c ->
  let per_ns := per_ns_release_bytes (per_ns_release_frags (c_per_ns c) (net_ns_id k) 1) (net_ns_id k) len in
  let c' := mkCache (c_queues c) (c_per_src c) per_ns (c_stats c) in
  core ((k, charged f n) :: Yn) ((k, charged f n) :: Yg) P c' /\ frame (net_ns_id k) c c'.
Proof.
  intros Hlen [Hcache Hb Hlim Hbound] per_ns c'. assert (forall b X, queues_ledger c ++ (k, b) :: X ≡ₚ (k, b) :: queues_ledger c ++ X) as Hl.
  { intros b X. by rewrite <- Permutation_middle. }
  rewrite !Hl in Hb. rewrite Hl in Hlim. pose proof (bk_ns _ _ _ Hb) as Hns. pose proof (Forall_inv_tail (bk_L _ _ _ Hb)) as HL.
  pose proof (release_part_moves _ (net_ns_id k) 1 len (ag_ok _ _ _ _ _ _ _ Hns) (ag_tidy _ _ _ _ _ _ _ Hns) ltac:(lia) Hlen) as Hm.
  pose proof (Forall_inv (bk_G _ _ _ Hb)) as (_ & Hf & Hn). cbn in Hf, Hn.
  split; [|constructor; [done|exact (mv_other _ _ _ _ _ _ _ Hm)|done]].
  constructor; [by destruct Hcache|..]; change (queues_ledger c') with (queues_ledger c); [rewrite !Hl|rewrite Hl|exact Hbound].
  - destruct Hb. constructor; try done.
    + eapply ns_step; [exact Hns|exact Hm|]. intros fd. pose proof (row_ge_entry fd _ _ _ _ Hns HL) as Hge.
      destruct fd; cbn in *; unfold saturating_sub; lia.
    + eapply src_same, bk_src. done.
    + constructor; [done|exact HL].
  - eapply limits_shrink, Hlim. intros []; cbn; lia.
Qed.

(** * What a phase holds *)

(** A queue out of the cache with a fragment charged to it *)
Definition charged_out (t : Tx) (o : FragmentQueue) : FragmentKey * PerNsBudget :=
  (t_key t, charged (received_frags o + 1) (received_bytes o + zlen (t_payload t))).

Definition ph_ns (ph : Phase) : Ledger :=
  match ph with
  | Detached t o | Failing t o _ | Rejecting t o _ => [charged_out t o]
  | Completing t o _ | Reinserting t o => [(t_key t, budget_of o)]
  | _ => []
  end.

Definition ph_global (ph : Phase) : Ledger :=
  match ph with
  | Detached t o => [charged_out t o]
  | Failing t o _ => [(t_key t, charged (received_frags o) (received_bytes o + zlen (t_payload t)))]
  | Completing t o _ | Reinserting t o | Rejecting t o _ => [(t_key t, budget_of o)]
  | _ => []
  end.

Definition ph_pending (fd : field) (ph : Phase) : Z :=
  match ph with Planned t _ v _ | Prepared t _ v _ => pending fd t v | _ => 0 end.

Definition ph_tx (ph : Phase) : option Tx :=
  match ph with
  | Idle | Returned _ => None
  | Expiring t | Looking t | Existing t | Detached t _ | Completing t _ _ | Reinserting t _ | Failing t _ _ | Rejecting t _ _
  | Fresh t | Candidate t _ | Planned t _ _ _ | Prepared t _ _ _ => Some t
  end.

Definition tx_ok (t : Tx) : Prop := 0 <= t_offset t /\ clock (t_now t).
Definition absent (t : Tx) (c : FragmentCache) : Prop := get (c_queues c) (t_key t) = None.

Record candidate_ok (t : Tx) (o : FragmentQueue) : Prop := {
  ca_owner : owner_ok o; ca_budget : budget_of o = new_budget t; ca_len : zlen (t_payload t) <= u16_max;
}.

Definition phase_ok (c : FragmentCache) (ph : Phase) : Prop :=
  match ph with
  | Idle => True
  | Returned r => r <> Panic
  | Expiring t | Looking t | Existing t => tx_ok t
  | Fresh t => tx_ok t /\ absent t c
  | Detached t o | Failing t o _ | Rejecting t o _ => tx_ok t /\ absent t c /\ owner_ok o /\ zlen (t_payload t) <= MAX_BYTES_PER_QUEUE
  | Completing t o _ | Reinserting t o => tx_ok t /\ absent t c /\ owner_ok o
  | Candidate t o => tx_ok t /\ absent t c /\ candidate_ok t o
  | Planned t o v _ | Prepared t o v _ => tx_ok t /\ absent t c /\ candidate_ok t o /\ victim_ok t v c /\ room_for t v c
  end.

(** * One lane beside the others

    [Xn], [Xg] and [P] are what the other lanes hold and plan. *)
Record env (Xn Xg : Ledger) (P : field -> Z) : Prop := {
  ev_plan : forall fd, 0 <= P fd <= 63 * unit_of fd;
  ev_queues : grand amount FQueues Xg + P FQueues <= 63;
  ev_drift : forall fd, grand amount fd Xn <= grand amount fd Xg + 63 * MAX_BYTES_PER_QUEUE;
}.

Definition lane_inv (Xn Xg : Ledger) (P : field -> Z) (c : FragmentCache) (ph : Phase) : Prop :=
  core (ph_ns ph ++ Xn) (ph_global ph ++ Xg) (fun fd => ph_pending fd ph + P fd) c /\ phase_ok c ph.

(** A transaction that puts its queue back *)
Definition puts_back (ph : Phase) : bool :=
  match ph with Reinserting _ _ => true | Rejecting _ _ reason => negb (discards reason) | _ => false end.

Definition step_post (Xn Xg : Ledger) (P : field -> Z) (ph : Phase) (c : FragmentCache) (r : res FragmentDropReason (FragmentCache * Phase)) : Prop :=
  match r with
  | Ok (c', ph') => lane_inv Xn Xg P c' ph' /\
      match ph_tx ph with
      | Some t => frame (net_ns_id (t_key t)) c c' /\ (ph_tx ph' = Some t \/ ph_tx ph' = None)
      | None => c' = c /\ ph' = ph
      end
  | Err _ => False
  | Panic => puts_back ph = true /\ map_len (c_queues c) = capacity (c_queues c)
  end.

Section lane.
Context (Xn Xg : Ledger) (P : field -> Z) (Henv : env Xn Xg P).

Lemma drift_one : forall fd, grand amount fd Xn <= grand amount fd Xg + 64 * MAX_BYTES_PER_QUEUE.
Proof. intros fd. pose proof (ev_drift _ _ _ Henv fd). unfold MAX_BYTES_PER_QUEUE in *. lia. Qed.

(** A section that ends the transaction with a drop, or without one *)
Lemma returned_inv c r : r <> Panic -> core Xn Xg P c -> lane_inv Xn Xg P c (Returned r).
Proof. intros Hr Hc. split; [|done]. cbn. eapply core_mono, Hc. intros. lia. Qed.

Lemma dropped_inv t c c' reason : core Xn Xg P c' -> frame (net_ns_id (t_key t)) c c' ->
  lane_inv Xn Xg P (drop_with reason c').1 (drop_with reason c').2 /\ frame (net_ns_id (t_key t)) c (drop_with reason c').1.
Proof.
  intros Hc Hf. split; [|by eapply frame_trans, frame_stats]. apply returned_inv; [done|]. apply core_stats, Hc. intros. apply gauge_record.
Qed.

Lemma delivered_inv t c c' packet : core Xn Xg P c' -> frame (net_ns_id (t_key t)) c c' ->
  lane_inv Xn Xg P (deliver packet c').1 (deliver packet c').2 /\ frame (net_ns_id (t_key t)) c (deliver packet c').1.
Proof.
  intros Hc Hf. split; [|by eapply frame_trans, frame_stats]. apply returned_inv; [done|]. apply core_stats, Hc. intros. apply gauge_bump.
Qed.

(** ** The sections *)
Lemma retire_ends k f n c : core ((k, charged f n) :: Xn) ((k, charged f n) :: Xg) P c -> core Xn Xg P (retire k f n c) /\ frame (net_ns_id k) c (retire k f n c).
Proof.
  intros Hc. destruct (retire_spec _ _ _ _ _ _ _ Hc) as [Hc' Hf]. split; [|done]. eapply core_mono, Hc'. intros fd.
  pose proof (bk_L _ _ _ (cr_books _ _ _ _ Hc)) as HL. rewrite <- Permutation_middle in HL. pose proof (entry_amount fd _ (Forall_inv HL)). cbn in *. lia.
Qed.

Lemma expire_ends k q c : core Xn Xg P c -> get (c_queues c) k = Some q ->
  exists c', expire k c = Ok c' /\ core Xn Xg P c' /\ frame (net_ns_id k) c c' /\ entries (c_queues c) ≡ₚ (k, q) :: entries (c_queues c').
Proof.
  intros Hc Hg. destruct (take_spec _ _ _ _ _ _ Hc Hg) as (queues & Ht & Hp & Hc0 & Hget & _). unfold expire. rewrite Ht. cbn [or_panic res_bind fst snd].
  eexists. split; [done|]. destruct (retire_ends _ _ _ _ Hc0) as [Hc1 Hf1].
  split; [by apply core_stats; [intros; apply gauge_bump|]|]. split; [|done].
  eapply frame_trans; [|eapply frame_trans, frame_stats; exact Hf1]. constructor; [|done|done].
  intros k' Hk'. cbn. rewrite Hget, decide_False by congruence. done.
Qed.

Lemma expire_section_ok t c : lane_inv Xn Xg P c (Expiring t) -> step_post Xn Xg P (Expiring t) c (expire_section t c).
Proof.
  intros [Hc Ht]. cbn in Hc. unfold expire_section. assert (lane_inv Xn Xg P c (Looking t)) as Hlook.
  { split; [exact Hc|done]. }
  destruct (get (c_queues c) (t_key t)) as [q|] eqn:Hg; [|by split; [|split; [|left]]].
  destruct (is_expired q (t_now t)); [|by split; [|split; [|left]]].
  destruct (expire_ends _ _ _ Hc Hg) as (c' & -> & Hc' & Hf & _). cbn. split; [by apply returned_inv|]. split; [done|by right].
Qed.

Lemma detach_section_ok t c : lane_inv Xn Xg P c (Existing t) -> step_post Xn Xg P (Existing t) c (detach_section t c).
Proof.
  intros [Hc Ht]. cbn in Hc. unfold detach_section. destruct (get (c_queues c) (t_key t)) as [q|] eqn:Hg.
  - pose proof (co_owner _ (cr_cache _ _ _ _ Hc) _ _ Hg) as Hq.
    destruct (detach_spec _ _ (zlen (t_payload t)) _ _ _ _ Hc Hg (zlen_nonneg _) (ev_plan _ _ _ Henv) drift_one) as (c1 & r & -> & Hf1 & Hpost).
    cbn [res_bind]. destruct r as [r|].
    + destruct (dropped_inv t c c1 r Hpost Hf1) as [Hi Hf]. split; [exact Hi|]. split; [exact Hf|by right].
    + destruct Hpost as (c2 & -> & Hf2 & Hg2 & Hlen & Hc2). cbn. split; [|split; [done|by left]]. split; [exact Hc2|]. done.
  - split; [|split; [done|by left]]. split; [exact Hc|]. done.
Qed.

(** An insertion keeps the queue good and counts the fragment exactly when it is in. *)
Lemma insert_owner al t q : tx_ok t -> queue_ok q -> rate_ok 0 (rate_limiter q) -> 0 <= received_frags q ->
  exists r q', insert al (t_offset t) (t_more t) (t_payload t) (t_now t) q = Ok (r, q') /\
    match r with
    | Inserted _ => owner_ok q' /\ budget_of q' = charged (received_frags q + 1) (received_bytes q + zlen (t_payload t)) /\
        zlen (t_payload t) <= u16_max
    | Dropped _ => queue_ok q' /\ rate_ok 0 (rate_limiter q') /\ budget_of q' = budget_of q
    end.
Proof.
  intros [Ho Hn] Hq Hr Hf. destruct (insert_spec al 0 (t_offset t) (t_more t) (t_payload t) (t_now t) q Hq Hr ltac:(lia) Ho Hn)
    as (r & q' & rl & Hi & Hrl & Hr0 & Hcase). exists r, q'. split; [done|]. destruct r as [b|e].
  - destruct Hcase as (Hac & Hen & _ & _). pose proof (en_frags _ _ _ _ _ Hen) as Hef. cbn in Hef. split; [|split].
    + split; [exact (en_ok _ _ _ _ _ Hen)|by rewrite Hrl|lia].
    + unfold budget_of. rewrite Hef, (en_bytes _ _ _ _ _ Hen). done.
    + pose proof (ac_end _ _ _ _ Hac). pose proof (qo_limit _ Hq). lia.
  - destruct Hcase as [-> _]. split; [by apply with_rate_ok|]. done.
Qed.

Lemma insert_detached_ok al t o c : lane_inv Xn Xg P c (Detached t o) -> step_post Xn Xg P (Detached t o) c (insert_detached al t o c).
Proof.
  intros [Hc (Ht & Ha & Ho & Hlen)]. cbn in Hc. unfold insert_detached. pose proof (ow_frags _ Ho).
  destruct (insert_owner (al_insert al) t o Ht (ow_queue _ Ho) (ow_rate _ Ho) ltac:(lia)) as (r & o' & -> & Hcase). cbn [res_bind].
  destruct r as [[]|reason].
  - destruct Hcase as (Ho' & Hb & _). split; [|split; [done|by left]]. split; [|done]. cbn. rewrite Hb. done.
  - destruct Hcase as (Ho' & Hb & _). split; [|split; [done|by left]]. split; [|done]. cbn. rewrite Hb. done.
  - destruct Hcase as (Hq' & Hr' & Hb). injection Hb as Hbf Hbn. split; [|split; [apply frame_stats|by left]]. split; [|split; [done|]; split; [done|]; split; [|done]; split; [done|done|lia]].
    cbn [ph_ns ph_global ph_pending app]. unfold charged_out in *. rewrite Hbf, Hbn.
    destruct (owner_bounds _ _ _ _ _ _ Hc) as [? ?]. apply (core_gauge _ _ _ _ _ _ _ _ Hc).
    + split; [done|]. pose proof (zlen_nonneg (t_payload t)). pose proof (owner_bytes _ (ow_queue _ Ho)). cbn. lia.
    + intros []; cbn; lia.
    + intros []; cbn in *; unfold saturating_sub; lia.
Qed.

Lemma failing_ok t o reason c : lane_inv Xn Xg P c (Failing t o reason) ->
  step_post Xn Xg P (Failing t o reason) c (Ok (with_stats (release_bytes (zlen (t_payload t))) c, Rejecting t o reason)).
Proof.
  intros [Hc (Ht & Ha & Ho & Hlen)]. cbn in Hc. pose proof (ow_frags _ Ho). pose proof (owner_bytes _ (ow_queue _ Ho)).
  pose proof (zlen_nonneg (t_payload t)). split; [|split; [apply frame_stats|by left]]. split; [|done].
  cbn [ph_ns ph_global ph_pending app]. destruct (owner_bounds _ _ _ _ _ _ Hc) as [? ?]. apply (core_gauge _ _ _ _ _ _ _ _ Hc).
  - split; cbn; lia.
  - intros []; cbn; lia.
  - intros []; cbn in *; unfold saturating_sub; lia.
Qed.

Lemma completing_ok t o packet c : lane_inv Xn Xg P c (Completing t o packet) ->
  step_post Xn Xg P (Completing t o packet) c (Ok (deliver packet (retire (t_key t) (received_frags o) (received_bytes o) c))).
Proof.
  intros [Hc (Ht & Ha & Ho)]. cbn in Hc. destruct (retire_ends _ _ _ _ Hc) as [Hc' Hf].
  destruct (delivered_inv t c _ packet Hc' Hf) as [Hi Hf']. split; [exact Hi|]. split; [exact Hf'|by right].
Qed.

Lemma reinserting_ok t o c : lane_inv Xn Xg P c (Reinserting t o) ->
  step_post Xn Xg P (Reinserting t o) c (let? c := publish (t_key t) o c in Ok (c, Returned (Ok None))).
Proof.
  intros [Hc (Ht & Ha & Ho)]. cbn in Hc. destruct (publish_spec _ _ _ _ _ _ Hc Ha Ho) as [Hok Hfull].
  pose proof (mo_fits _ (co_map _ (cr_cache _ _ _ _ Hc))) as Hfit.
  destruct (decide (map_len (c_queues c) = capacity (c_queues c))) as [Heq|Hne]; [by rewrite (Hfull Heq)|].
  destruct (Hok ltac:(lia)) as (queues & -> & Hc' & Hget). cbn. split; [by apply returned_inv|]. split; [|by right].
  constructor; [|done|done]. intros k Hk. cbn. rewrite Hget, decide_False by congruence. done.
Qed.

Lemma rejecting_ok t o reason c : lane_inv Xn Xg P c (Rejecting t o reason) ->
  step_post Xn Xg P (Rejecting t o reason) c (let? c := reject t o reason c in Ok (drop_with reason c)).
Proof.
  intros [Hc (Ht & Ha & Ho & Hlen)]. cbn in Hc. destruct (release_charge _ _ _ _ _ _ _ _ (zlen_nonneg _) Hc) as [Hc1 Hf1].
  unfold reject. cbv zeta. set (c1 := mkCache _ _ _ _) in *. destruct (discards reason) eqn:Hd.
  - destruct (retire_ends _ _ _ _ Hc1) as [Hc2 Hf2]. destruct (dropped_inv t c _ reason Hc2 (frame_trans _ _ _ _ Hf1 Hf2)) as [Hi Hf].
    cbn [res_bind]. split; [exact Hi|]. split; [exact Hf|by right].
  - destruct (publish_spec _ _ _ _ _ _ Hc1 Ha Ho) as [Hok Hfull]. pose proof (mo_fits _ (co_map _ (cr_cache _ _ _ _ Hc))) as Hfit.
    destruct (decide (map_len (c_queues c) = capacity (c_queues c))) as [Heq|Hne].
    { rewrite (Hfull Heq). cbn. by rewrite Hd. }
    destruct (Hok ltac:(cbn; lia)) as (queues & -> & Hc' & Hget). cbn [res_bind].
    assert (frame (net_ns_id (t_key t)) c1 (with_queues queues c1)) as Hf2.
    { constructor; [|done|done]. intros k Hk. cbn. rewrite Hget, decide_False by congruence. done. }
    destruct (dropped_inv t c _ reason Hc' (frame_trans _ _ _ _ Hf1 Hf2)) as [Hi Hf]. split; [exact Hi|]. split; [exact Hf|by right].
Qed.

Lemma build_queue_ok al t c : lane_inv Xn Xg P c (Fresh t) -> step_post Xn Xg P (Fresh t) c (build_queue al t c).
Proof.
  intros [Hc [Ht Ha]]. cbn in Hc. assert (forall reason, step_post Xn Xg P (Fresh t) c (Ok (drop_with reason c))) as Hdrop.
  { intros reason. destruct (dropped_inv t c c reason Hc (frame_refl _ _)) as [Hi Hf]. split; [exact Hi|]. split; [exact Hf|by right]. }
  unfold build_queue. destruct (queue_new (al_new al) (t_now t)) as [q| |] eqn:Hq; [|apply Hdrop|by destruct (al_new al)].
  assert (rate_ok 0 (rate_limiter q) /\ received_frags q = 0 /\ received_bytes q = 0) as (Hr & Hf0 & Hb0).
  { unfold queue_new in Hq. destruct (al_new al); [|done]. cbn in Hq. injection Hq as <-. destruct Ht as [_ Hclock]. split; [|done]. split; cbn; [done|apply Hclock]. }
  apply queue_new_ok in Hq. destruct (insert_owner (al_insert al) t q Ht Hq Hr ltac:(lia)) as (r & o & -> & Hcase). cbn [res_bind].
  destruct r as [[]|reason]; [| |apply Hdrop].
  - destruct (delivered_inv t c c (@reassemble (al_wire al) o) Hc (frame_refl _ _)) as [Hi Hf]. split; [exact Hi|]. split; [exact Hf|by right].
  - destruct Hcase as (Ho & Hb & Hlen). destruct (al_owner al); [|apply Hdrop]. split; [|split; [done|by left]]. split; [exact Hc|].
    split; [done|]. split; [done|]. split; [done| |done]. rewrite Hb, Hf0, Hb0. unfold new_budget. f_equal; lia.
Qed.

Lemma candidate_step_ok t o c : lane_inv Xn Xg P c (Candidate t o) ->
  step_post Xn Xg P (Candidate t o) c
    (match plan t c with
     | Ok (victim, plans) => Ok (c, Planned t o victim plans) | Err reason => Ok (drop_with reason c) | Panic => Panic
     end).
Proof.
  intros [Hc (Ht & Ha & Hca)]. cbn in Hc.
  pose proof (plan_spec t _ _ _ _ Hc Ha (ca_len _ _ Hca) (ev_plan _ _ _ Henv) (ev_queues _ _ _ Henv)) as Hp.
  destruct (plan t c) as [[v plans]|reason|]; [| |done].
  - destruct Hp as (Hv & Hroom & Hc'). split; [|split; [done|by left]]. by split.
  - destruct (dropped_inv t c c reason Hc (frame_refl _ _)) as [Hi Hf]. split; [exact Hi|]. split; [exact Hf|by right].
Qed.

Lemma planned_ok al t o v plans c : lane_inv Xn Xg P c (Planned t o v plans) ->
  step_post Xn Xg P (Planned t o v plans) c
    (match prepare al plans with
     | Ok caps => Ok (c, Prepared t o v caps) | Err reason => Ok (drop_with reason c) | Panic => Panic
     end).
Proof.
  intros [Hc Hph]. destruct (prepare al plans) as [caps|reason|] eqn:Hp.
  - split; [|split; [done|by left]]. by split.
  - assert (core Xn Xg P c) as Hc'. { eapply core_mono, Hc. intros fd. cbn. unfold pending. lia. }
    destruct (dropped_inv t c c reason Hc' (frame_refl _ _)) as [Hi Hf]. split; [exact Hi|]. split; [exact Hf|by right].
  - unfold prepare, prepare_one in Hp. destruct (p_queues plans) as [p1|], (p_src plans) as [p2|], (p_ns plans) as [p3|]; cbn in Hp;
      try destruct (try_from_plan p1 _); cbn in Hp; try destruct (try_from_plan p2 _); cbn in Hp; try destruct (try_from_plan p3 _); done.
Qed.

Lemma prepared_ok al t o v caps c : lane_inv Xn Xg P c (Prepared t o v caps) ->
  step_post Xn Xg P (Prepared t o v caps) c
    (let? cr := commit al t o v caps c in
     match cr with (c, Some reason) => Ok (drop_with reason c) | (c, None) => Ok (c, Returned (Ok None)) end).
Proof.
  intros [Hc (Ht & Ha & Hca & Hv & Hroom)]. cbn in Hc.
  destruct (commit_spec t o Xn Xg P (fun fd => proj1 (ev_plan _ _ _ Henv fd)) drift_one (ca_owner _ _ Hca) (ca_budget _ _ Hca) al v caps c Hc Ha Hv Hroom)
    as (c' & r & -> & Hc' & Hf & _). cbn [res_bind]. destruct r as [reason|].
  - destruct (dropped_inv t c c' reason Hc' Hf) as [Hi Hf']. split; [exact Hi|]. split; [exact Hf'|by right].
  - split; [by apply returned_inv|]. split; [done|by right].
Qed.

(** Every section keeps the invariant and stays in its namespace; it aborts only
    where a queue is put back into a map that is full. *)
Lemma tx_step_ok al ph c : lane_inv Xn Xg P c ph -> step_post Xn Xg P ph c (tx_step al ph c).
Proof.
  intros Hi. destruct ph; cbn [tx_step]; eauto using expire_section_ok, detach_section_ok, insert_detached_ok, completing_ok, reinserting_ok, failing_ok,
    rejecting_ok, build_queue_ok, candidate_step_ok, planned_ok, prepared_ok; try done.
  destruct Hi as [Hc Ht]. destruct (contains_key (c_queues c) (t_key t)) eqn:Hk.
  - split; [by split|]. split; [done|by left].
  - split; [|split; [done|by left]]. split; [exact Hc|]. split; [done|].
    by apply (contains_key_false _ _ (mo_sorted _ (co_map _ (cr_cache _ _ _ _ Hc)))).
Qed.
End lane.
