(* ===== verification/FragTrace.v ===== *)
(** Traces of the fragment cache: every interleaving of transactions, sweeps and
    arrivals keeps the invariant of the lanes; a call that runs alone always
    returns. *)

From Stdlib Require Import ZArith Lia.
From stdpp Require Import base list list_numbers numbers sorting.
From S2P Require Import Prelude Machine OrdMap OrdMapFacts Wire WireFacts Frag FragFacts FragCache FragBooks FragCacheFacts FragLanes FragSystem.

(** * What one lane contributes *)
Lemma pending_bounds t v c fd : cache_ok c -> victim_ok t v c -> zlen (t_payload t) <= u16_max -> 0 <= pending fd t v <= unit_of fd.
Proof.
  intros [_ Ho] Hv Hlen. assert (0 <= amount fd (victim_budget v)) as Hpos.
  { destruct v as [v|]; [|by rewrite amount_none]. destruct Hv as (_ & q & Hg & Hf & Hb). destruct (Ho _ _ Hg) as [Hq _ Hfr].
    pose proof (owner_bytes _ Hq). destruct fd; cbn; lia. }
  unfold pending, u16_max in *. pose proof (zlen_nonneg (t_payload t)). destruct fd; cbn [amount new_budget b_queues b_frags b_bytes unit_of] in *; unfold u16_max; lia.
Qed.

Lemma phase_bounds c ph : cache_ok c -> phase_ok c ph ->
  (forall fd, 0 <= ph_pending fd ph <= unit_of fd) /\ grand amount FQueues (ph_global ph) + ph_pending FQueues ph <= 1 /\
  (forall fd, grand amount fd (ph_ns ph) <= grand amount fd (ph_global ph) + MAX_BYTES_PER_QUEUE).
Proof.
  intros Hc Hph. assert (forall fd, 0 <= unit_of fd) as Hu by (by intros []).
  assert (forall fd, 0 <= ph_pending fd ph <= unit_of fd) as Hp.
  { intros fd. destruct ph; cbn [ph_pending]; try (split; [done|apply Hu]);
      destruct Hph as (_ & _ & Hca & Hv & _); by apply (pending_bounds _ _ c fd Hc Hv (ca_len _ _ Hca)). }
  split; [done|]. split; [specialize (Hp FQueues); destruct ph; cbn in *; lia|].
  intros fd. unfold MAX_BYTES_PER_QUEUE in *. destruct ph; cbn [ph_ns ph_global]; unfold grand; cbn [sumZ foldr charged_out snd]; try lia;
    destruct Hph as (_ & _ & _ & Hlen); unfold MAX_BYTES_PER_QUEUE in Hlen; pose proof (zlen_nonneg (t_payload t)); destruct fd; cbn; lia.
Qed.

(** * The system *)
Abbreviation lanes_ns lanes := (concat (map ph_ns lanes)).
Abbreviation lanes_global lanes := (concat (map ph_global lanes)).
Abbreviation lanes_pending lanes := (fun fd => sumZ (ph_pending fd) lanes).

Record sys_inv (s : System) : Prop := {
  sy_lanes : length (s_lanes s) = 64%nat;
  sy_core : core (lanes_ns (s_lanes s)) (lanes_global (s_lanes s)) (lanes_pending (s_lanes s)) (s_cache s);
  sy_phase : forall i ph, s_lanes s !! i = Some ph -> phase_ok (s_cache s) ph;
  sy_slot : forall i ph t, s_lanes s !! i = Some ph -> ph_tx ph = Some t -> transaction_slot (net_ns_id (t_key t)) = i;
}.

Lemma sys_new_inv : sys_inv sys_new.
Proof.
  constructor; cbn [sys_new s_lanes s_cache].
  - by rewrite length_replicate.
  - constructor; [split; [apply map_new_ok|done]| | |].
    + constructor; [split; [apply map_new_ok|done|by intros []|done]|split; [apply map_new_ok|done|done|done]|by intros []|done|done|by intros []].
    + constructor; [by intros n []|done].
    + by intros [].
  - intros i ph Hi. apply lookup_replicate in Hi as [-> _]. done.
  - intros i ph t Hi. apply lookup_replicate in Hi as [-> _]. done.
Qed.

(** The lanes but one *)
Lemma rest_env c lanes i ph : length lanes = 64%nat -> cache_ok c -> (forall j ph, lanes !! j = Some ph -> phase_ok c ph) -> lanes !! i = Some ph ->
  exists rest, (forall ph', <[i := ph']> lanes ≡ₚ ph' :: rest) /\ lanes ≡ₚ ph :: rest /\
    env (lanes_ns rest) (lanes_global rest) (lanes_pending rest).
Proof.
  intros Hlen Hc Hph Hi. apply list_elem_of_split_length in Hi as (l1 & l2 & -> & ->).
  exists (l1 ++ l2). assert (forall ph', l1 ++ ph' :: l2 ≡ₚ ph' :: l1 ++ l2) as Hp by (intros; by rewrite <- Permutation_middle).
  split; [intros ph'; rewrite insert_app_r_alt by lia; rewrite Nat.sub_diag; apply Hp|]. split; [apply Hp|].
  assert (zlen (l1 ++ l2) = 63) as H63. { unfold zlen. rewrite length_app in *. cbn [length] in Hlen. lia. }
  assert (forall x, x ∈ l1 ++ l2 -> phase_ok c x) as Hok.
  { intros x Hx. assert (x ∈ l1 ++ ph :: l2) as Hx' by (rewrite elem_of_app, elem_of_cons in *; tauto).
    apply list_elem_of_lookup in Hx' as [j Hj]. by eapply Hph. }
  revert H63 Hok. generalize (l1 ++ l2). clear -Hc. intros l H63 Hok. constructor.
  - intros fd. split; [apply sumZ_nonneg; intros x Hx; by apply (phase_bounds c x Hc (Hok _ Hx))|].
    rewrite <- H63, Z.mul_comm, <- (sumZ_const (unit_of fd) l). apply sumZ_le. intros x Hx. by apply (phase_bounds c x Hc (Hok _ Hx)).
  - replace 63 with (sumZ (fun _ : Phase => 1) l) by (rewrite sumZ_const; lia). clear H63. induction l as [|x l IH]; [done|].
    cbn [map concat]. unfold grand in *. rewrite sumZ_app, !sumZ_cons. specialize (IH (fun y Hy => Hok y (list_elem_of_further _ _ _ Hy))).
    destruct (phase_bounds c x Hc (Hok x ltac:(by left))) as (_ & Hx & _). unfold grand in Hx. lia.
  - intros fd. replace 63 with (sumZ (fun _ : Phase => 1) l) by (rewrite sumZ_const; lia). clear H63. induction l as [|x l IH]; [done|].
    cbn [map concat]. unfold grand in *. rewrite !sumZ_app, !sumZ_cons. specialize (IH (fun y Hy => Hok y (list_elem_of_further _ _ _ Hy))).
    destruct (phase_bounds c x Hc (Hok x ltac:(by left))) as (_ & _ & Hx). specialize (Hx fd). unfold grand in Hx. lia.
Qed.

(** A transaction of another namespace does not notice. *)
Lemma phase_ok_frame ns c c' ph t : frame ns c c' -> ph_tx ph = Some t -> net_ns_id (t_key t) <> ns -> phase_ok c ph -> phase_ok c' ph.
Proof.
  intros [Hq Hn Hs] Ht Hne. assert (absent t c -> absent t c') as Ha by (unfold absent; by rewrite Hq).
  assert (forall v, victim_ok t v c -> victim_ok t v c') as Hv.
  { intros [v|]; [|done]. intros (Hk & Hv). split; [done|]. by rewrite Hq by congruence. }
  assert (forall v, room_for t v c -> room_for t v c') as Hr. { intros v. unfold room_for, row. by rewrite Hn, Hs by done. }
  destruct ph; cbn in Ht |- *; simplify_eq; naive_solver.
Qed.

(** ** One section of one lane *)
Lemma core_lanes c lanes ph rest : lanes ≡ₚ ph :: rest ->
  core (lanes_ns lanes) (lanes_global lanes) (lanes_pending lanes) c <->
  core (ph_ns ph ++ lanes_ns rest) (ph_global ph ++ lanes_global rest) (fun fd => ph_pending fd ph + lanes_pending rest fd) c.
Proof.
  intros Hp. assert (lanes_ns lanes ≡ₚ ph_ns ph ++ lanes_ns rest) as Hn by (by rewrite Hp).
  assert (lanes_global lanes ≡ₚ ph_global ph ++ lanes_global rest) as Hg by (by rewrite Hp).
  assert (forall fd, sumZ (ph_pending fd) lanes = ph_pending fd ph + sumZ (ph_pending fd) rest) as Hs by (intros; by rewrite Hp, sumZ_cons).
  split; intros Hc; (eapply core_mono; [|eapply core_perm, Hc; done]); intros fd; cbn; rewrite Hs; lia.
Qed.

Lemma run_ok s i al ph : sys_inv s -> s_lanes s !! i = Some ph ->
  match tx_step al ph (s_cache s) with
  | Ok (c', ph') => sys_inv (mkSys c' (<[i := ph']> (s_lanes s))) /\
      match ph_tx ph with Some t => frame (net_ns_id (t_key t)) (s_cache s) c' | None => c' = s_cache s end
  | Err _ => False
  | Panic => puts_back ph = true /\ map_len (c_queues (s_cache s)) = capacity (c_queues (s_cache s))
  end.
Proof.
  intros [Hlen Hcore Hph Hslot] Hi. destruct (rest_env _ _ i ph Hlen (cr_cache _ _ _ _ Hcore) Hph Hi) as (rest & Hins & Hperm & Henv).
  pose proof (proj1 (core_lanes _ _ _ _ Hperm) Hcore) as Hlane.
  pose proof (tx_step_ok _ _ _ Henv al ph (s_cache s) (conj Hlane (Hph _ _ Hi))) as Hstep.
  destruct (tx_step al ph (s_cache s)) as [[c' ph']| |]; [|done|done]. destruct Hstep as [[Hcore' Hph'] Hfr].
  split; [|by destruct (ph_tx ph); destruct Hfr]. constructor; cbn [s_lanes s_cache].
  - by rewrite length_insert.
  - by apply (core_lanes _ _ ph' rest).
  - intros j x Hj. apply list_lookup_insert_Some in Hj as [(-> & <- & _)|[Hne Hj]]; [done|].
    destruct (ph_tx ph) as [t|] eqn:Ht; [|destruct Hfr as [-> _]; by eapply Hph]. destruct (ph_tx x) as [u|] eqn:Hu; [|pose proof (Hph _ _ Hj) as Hx; by destruct x].
    eapply phase_ok_frame; [apply Hfr|done| |by eapply Hph]. intros Heq.
    pose proof (Hslot _ _ _ Hi Ht) as H1. pose proof (Hslot _ _ _ Hj Hu) as H2. rewrite Heq in H2. congruence.
  - intros j x u Hj Hu. apply list_lookup_insert_Some in Hj as [(-> & <- & _)|[Hne Hj]]; [|by eapply Hslot].
    destruct (ph_tx ph) as [t|] eqn:Ht.
    + destruct Hfr as [_ [Hsame|Hnone]]; [|congruence]. assert (u = t) as -> by congruence. by eapply Hslot.
    + destruct Hfr as [_ ->]. congruence.
Qed.

(** ** Arrivals, returns and sweeps *)
Lemma slot_range ns : (transaction_slot ns < 64)%nat.
Proof.
  unfold transaction_slot, FRAGMENT_TRANSACTION_SLOTS. cbv zeta. set (x := wrap64 _). change (64 - 1) with (Z.ones 6). rewrite Z.land_ones by lia.
  pose proof (Z.mod_pos_bound x (2 ^ 6) ltac:(lia)). lia.
Qed.

Lemma phase_ok_stats f c ph : phase_ok c ph -> phase_ok (with_stats f c) ph.
Proof. by destruct ph. Qed.

Lemma sys_inv_stats f s : (forall fd, gauge fd (f (c_stats (s_cache s))) = gauge fd (c_stats (s_cache s))) -> sys_inv s -> sys_inv (mkSys (with_stats f (s_cache s)) (s_lanes s)).
Proof.
  intros Hf []. constructor; cbn; [done|by apply core_stats| |done]. intros i ph Hi. by eapply phase_ok_stats, sy_phase0.
Qed.

(** A lane whose phase holds nothing before or after *)
Lemma sys_inv_lane s i ph ph' : sys_inv s -> s_lanes s !! i = Some ph -> ph_ns ph = [] -> ph_global ph = [] -> (forall fd, ph_pending fd ph = 0) ->
  ph_ns ph' = [] -> ph_global ph' = [] -> (forall fd, ph_pending fd ph' = 0) -> phase_ok (s_cache s) ph' ->
  (forall t, ph_tx ph' = Some t -> transaction_slot (net_ns_id (t_key t)) = i) -> sys_inv (mkSys (s_cache s) (<[i := ph']> (s_lanes s))).
Proof.
  intros [Hlen Hcore Hph Hslot] Hi Hn Hg Hp Hn' Hg' Hp' Hok Htx.
  destruct (rest_env _ _ i ph Hlen (cr_cache _ _ _ _ Hcore) Hph Hi) as (rest & Hins & Hperm & _). constructor; cbn [s_lanes s_cache].
  - by rewrite length_insert.
  - apply (core_lanes _ _ ph' rest (Hins ph')). apply (core_lanes _ _ ph rest Hperm) in Hcore. rewrite Hn, Hg in Hcore. rewrite Hn', Hg'.
    eapply core_mono, Hcore. intros fd. cbn. rewrite Hp, Hp'. lia.
  - intros j x Hj. apply list_lookup_insert_Some in Hj as [(-> & <- & _)|[_ Hj]]; [done|by eapply Hph].
  - intros j x t Hj Ht. apply list_lookup_insert_Some in Hj as [(-> & <- & _)|[_ Hj]]; [by apply Htx|by eapply Hslot].
Qed.

Lemma start_lane_ok ns h payload now s : sys_inv s -> clock now -> sys_inv (start ns h payload now s).
Proof.
  intros Hs Hclock. unfold start. pose proof (sys_inv_stats (bump Received) s (fun fd => gauge_bump fd _ _) Hs) as Hs1.
  pose proof (sys_inv_stats (bump RateLimitDrops) _ (fun fd => gauge_bump fd _ _) Hs1) as Hs2. cbn in Hs2.
  destruct (s_lanes s !! transaction_slot ns) as [ph|] eqn:Hi; [|exact Hs2]. destruct ph; try exact Hs2.
  apply (sys_inv_lane _ _ Idle _ Hs1); try done.
  - split; cbn; [|done]. unfold fragment_offset. pose proof (proj2 (Z.land_nonneg (flags_fragment h) 8191) ltac:(lia)). lia.
  - by intros t [= <-].
Qed.

Lemma leave_ok i r s : sys_inv s -> s_lanes s !! i = Some (Returned r) -> sys_inv (mkSys (s_cache s) (<[i := Idle]> (s_lanes s))).
Proof. intros Hs Hi. by apply (sys_inv_lane s i (Returned r) Idle Hs Hi). Qed.

Lemma try_cleanup_spec acquired slots : try_cleanup_transaction acquired slots =
  if existsb id slots then (false, map (fun _ => false) acquired ++ slots) else (true, acquired ++ map (fun _ => true) slots).
Proof.
  revert acquired. induction slots as [|[] slots IH]; intros acquired; cbn; [by rewrite app_nil_r|done|].
  rewrite IH. destruct (existsb id slots); [by rewrite map_app, <- app_assoc|by rewrite <- app_assoc].
Qed.

Lemma lanes_idle lanes : existsb id (map busy lanes) = false -> lanes_ns lanes = [] /\ lanes_global lanes = [] /\ (forall fd, lanes_pending lanes fd = 0).
Proof. induction lanes as [|[] lanes IH]; cbn; [done| |done..]. intros (-> & -> & Hp)%IH. split; [done|]. split; [done|]. intros fd. apply (Hp fd). Qed.

Lemma env_empty : env [] [] (fun _ => 0).
Proof. constructor; [|done|]; by intros []. Qed.

Abbreviation fresh_at now := (fun kq : FragmentKey * FragmentQueue => negb (is_expired kq.2 now)).
Abbreviation expired_at now := (fun kq : FragmentKey * FragmentQueue => is_expired kq.2 now).

#[export] Instance filter_perm {A} (f : A -> bool) : Proper ((≡ₚ) ==> (≡ₚ)) (List.filter f).
Proof.
  induction 1 as [|x l1 l2 _ IH|x y l|l1 l2 l3 _ IH1 _ IH2]; cbn; [done| | |by etrans].
  - destruct (f x); by rewrite IH.
  - destruct (f x), (f y); try done. constructor.
Qed.

(** The sweep takes exactly the expired queues. *)
Lemma sweep_lane_spec fuel now removed c : core [] [] (fun _ => 0) c -> (length (entries (c_queues c)) <= fuel)%nat ->
  0 <= removed -> removed + zlen (entries (c_queues c)) <= usize_max ->
  exists c', sweep fuel now removed c = Ok (c', removed + zlen (List.filter (expired_at now) (entries (c_queues c)))) /\
    core [] [] (fun _ => 0) c' /\ entries (c_queues c') ≡ₚ List.filter (fresh_at now) (entries (c_queues c)).
Proof.
  revert removed c. induction fuel as [|fuel IH]; intros removed c Hc Hfuel Hr Hmax.
  - exists c. cbn [sweep]. destruct (entries (c_queues c)) eqn:E; [|cbn in Hfuel; lia]. split; [cbn; by rewrite Z.add_0_r|]. done.
  - cbn [sweep]. destruct (List.find (expired_at now) (entries (c_queues c))) as [[k q]|] eqn:Hf.
    + apply find_some in Hf as [Hin He]. cbn in He. apply list_elem_of_In in Hin. destruct (cr_cache _ _ _ _ Hc) as [Hm _].
      apply (get_Some _ _ _ (mo_sorted _ Hm)) in Hin as Hg. cbn [fst].
      destruct (expire_ends _ _ _ k q c Hc Hg) as (c1 & -> & Hc1 & _ & Hp). cbn [res_bind].
      assert (zlen (entries (c_queues c)) = zlen (entries (c_queues c1)) + 1) as Hl by (by rewrite (perm_len _ _ Hp), zlen_cons).
      pose proof (zlen_nonneg (entries (c_queues c1))) as Hnn.
      assert (saturating_add removed 1 = removed + 1) as Hs by (unfold saturating_add; lia). rewrite Hs.
      destruct (IH (removed + 1) c1 Hc1) as (c' & -> & Hc' & Hp'); [unfold zlen in Hl; lia|lia|lia|].
      exists c'. split; [|split; [done|]].
      * do 2 f_equal. pose proof (perm_len _ _ (filter_perm (expired_at now) _ _ Hp)) as Hcount. cbn in Hcount. rewrite He in Hcount.
        rewrite zlen_cons in Hcount. lia.
      * rewrite Hp', Hp. cbn. by rewrite He.
    + assert (forall kq, kq ∈ entries (c_queues c) -> is_expired kq.2 now = false) as Hno.
      { intros kq Hkq. apply (find_none _ _ Hf). by apply list_elem_of_In. }
      assert (List.filter (expired_at now) (entries (c_queues c)) = [] /\ List.filter (fresh_at now) (entries (c_queues c)) = entries (c_queues c)) as [He Hk].
      { revert Hno. generalize (entries (c_queues c)). induction l as [|x l IHl]; intros Hno; [done|]. cbn. rewrite (Hno x) by (by left). cbn.
        destruct IHl as [-> ->]; [intros; apply Hno; by right|done]. }
      exists c. rewrite He, Hk. split; [cbn; by rewrite Z.add_0_r|done].
Qed.

Lemma cleanup_ok now s : sys_inv s -> zlen (entries (c_queues (s_cache s))) <= usize_max ->
  exists s' n, cleanup_expired now s = Ok (s', n) /\ sys_inv s' /\ s_lanes s' = s_lanes s /\
    if existsb id (map busy (s_lanes s)) then s' = s /\ n = 0
    else entries (c_queues (s_cache s')) ≡ₚ List.filter (fresh_at now) (entries (c_queues (s_cache s))) /\
         n = zlen (List.filter (expired_at now) (entries (c_queues (s_cache s)))).
Proof.
  intros Hs Hlen. unfold cleanup_expired. rewrite try_cleanup_spec. destruct (existsb id (map busy (s_lanes s))) eqn:Hb; [by exists s, 0|].
  pose proof (lanes_idle _ Hb) as (Hn & Hg & Hp). destruct Hs as [Hl Hcore Hph Hslot].
  assert (core [] [] (fun _ => 0) (s_cache s)) as Hc.
  { rewrite Hn, Hg in Hcore. eapply core_mono, Hcore. intros fd. cbn. by rewrite Hp. }
  destruct (sweep_lane_spec _ now 0 _ Hc (le_n _) ltac:(lia) ltac:(lia)) as (c' & -> & Hc' & Hent). cbn [res_bind fst snd].
  eexists _, _. split; [done|]. split; [|done]. assert (forall i ph, s_lanes s !! i = Some ph -> ph = Idle) as Hidle.
  { intros i ph Hi. destruct ph; [done|..]; exfalso; (assert (existsb id (map busy (s_lanes s)) = true); [|congruence]); apply existsb_exists;
      (exists true; split; [|done]); apply list_elem_of_In, list_elem_of_lookup; exists i; rewrite list_lookup_fmap, Hi; done. }
  constructor; cbn [s_lanes s_cache]; [done| | |].
  - rewrite Hn, Hg. eapply core_mono, Hc'. intros fd. cbn. by rewrite Hp.
  - by intros i ph ->%Hidle.
  - by intros i ph t ->%Hidle.
Qed.

(** * Traces *)
Definition event_ok (e : Event) : Prop := match e with Arrive _ _ _ now => clock now | _ => True end.

(** A queue about to be put back into a map that has become full *)
Definition stuck (e : Event) (s : System) : Prop :=
  exists i al ph, e = Run i al /\ s_lanes s !! i = Some ph /\ puts_back ph = true /\ map_len (c_queues (s_cache s)) = capacity (c_queues (s_cache s)).

Lemma core_queues_few Yn Yg P c : core Yn Yg P c -> (forall fd, 0 <= P fd) -> zlen (entries (c_queues c)) <= usize_max.
Proof.
  intros Hc HP. pose proof (cr_bound _ _ _ _ Hc FQueues) as Hb. rewrite queues_grand in Hb. specialize (HP FQueues).
  pose proof (bk_G _ _ _ (cr_books _ _ _ _ Hc)) as HG. apply Forall_app in HG as [_ HG]. pose proof (grand_nonneg FQueues _ HG).
  unfold map_len, bound in *. cbn in Hb. unfold GLOBAL_MAX_QUEUES, usize_max, u64_max in *. lia.
Qed.

Lemma lanes_pending_pos s : sys_inv s -> forall fd, 0 <= lanes_pending (s_lanes s) fd.
Proof.
  intros Hs fd. apply sumZ_nonneg. intros ph [i Hi]%list_elem_of_lookup.
  apply (phase_bounds _ _ (cr_cache _ _ _ _ (sy_core _ Hs)) (sy_phase _ Hs _ _ Hi)).
Qed.

Lemma exec_ok e s : sys_inv s -> event_ok e -> match exec e s with Ok s' => sys_inv s' | Err _ => False | Panic => stuck e s end.
Proof.
  intros Hs He. destruct e as [ns h payload now|i al|i|now]; cbn [exec].
  - by apply start_lane_ok.
  - destruct (s_lanes s !! i) as [ph|] eqn:Hi; [|done]. pose proof (run_ok s i al ph Hs Hi) as Hrun.
    destruct (tx_step al ph (s_cache s)) as [[c' ph']| |]; [|done|].
    + apply Hrun.
    + exists i, al, ph. split; [done|]. done.
  - destruct (s_lanes s !! i) as [[]|] eqn:Hi; try done. by eapply leave_ok.
  - destruct (cleanup_ok now s Hs (core_queues_few _ _ _ _ (sy_core _ Hs) (lanes_pending_pos s Hs))) as (s' & n & -> & Hs' & _). done.
Qed.

Lemma exec_all_ok es s : sys_inv s -> Forall event_ok es ->
  match exec_all es s with
  | Ok s' => sys_inv s'
  | Err _ => False
  | Panic => exists es1 e es2 s1, es = es1 ++ e :: es2 /\ exec_all es1 s = Ok s1 /\ stuck e s1
  end.
Proof.
  revert s. induction es as [|e es IH]; intros s Hs Hes; [done|]. apply list.Forall_cons in Hes as [He Hes]. cbn [exec_all].
  pose proof (exec_ok e s Hs He) as Hstep. destruct (exec e s) as [s1| |] eqn:E; cbn [res_bind]; [|done|].
  - specialize (IH s1 Hstep Hes). destruct (exec_all es s1) as [s'| |]; [done|done|].
    destruct IH as (es1 & e' & es2 & s2 & -> & Hrun & Hst). exists (e :: es1), e', es2, s2. split; [done|]. split; [|done]. cbn. by rewrite E.
  - exists [], e, es, s. done.
Qed.

(** * A call that runs alone *)
Definition rank (ph : Phase) : nat :=
  match ph with
  | Idle | Returned _ => 0
  | Expiring _ => 7 | Looking _ => 6 | Existing _ => 5 | Fresh _ => 4 | Detached _ _ => 3 | Candidate _ _ => 3
  | Failing _ _ _ => 2 | Planned _ _ _ _ => 2 | Completing _ _ _ => 1 | Reinserting _ _ => 1 | Rejecting _ _ _ => 1 | Prepared _ _ _ _ => 1
  end.

(** While the queue is out its slot is free. *)
Definition slot_free (ph : Phase) (c : FragmentCache) : Prop := ph_ns ph <> [] -> map_len (c_queues c) < capacity (c_queues c).

Lemma slot_free_nil ph c : ph_ns ph = [] -> slot_free ph c.
Proof. intros Hn. by unfold slot_free. Qed.

Lemma take_slot k q c c' : map_ok (c_queues c) -> take_queue k c = Some (q, c') -> map_len (c_queues c') < capacity (c_queues c').
Proof.
  intros Hm. pose proof (remove_len (c_queues c) k Hm) as Hl. pose proof (remove_entries (c_queues c) k (mo_sorted _ Hm)) as Hr. unfold take_queue.
  destruct (remove k (c_queues c)) as [[o|] queues]; [|done]. intros [= <- <-]. destruct Hr as (Hg & _ & _ & Hc & _). rewrite <- Hg in Hl. cbn in *.
  pose proof (mo_fits _ Hm). lia.
Qed.

Lemma charge_same_queues k len o c c' r : charge_existing k len o c = Ok (c', r) -> c_queues c' = c_queues c.
Proof.
  intros Hch. pose proof (charge_with_queues k len o (c_queues c) c) as Hw. replace (with_queues (c_queues c) c) with c in Hw by (by destruct c).
  rewrite Hch in Hw. cbn in Hw. injection Hw as Hw. by rewrite Hw.
Qed.

Lemma detach_next t c c' ph' : map_ok (c_queues c) -> detach_section t c = Ok (c', ph') ->
  slot_free ph' c' /\ (rank ph' < 5)%nat /\ ph' <> Idle.
Proof.
  intros Hm. unfold detach_section. destruct (get _ _) as [o|]; [|intros [= <- <-]; split; [by apply slot_free_nil|]; split; [cbn; lia|done]].
  destruct (charge_existing _ _ o c) as [[c1 [r|]]| |] eqn:Hch; cbn [res_bind]; [intros [= <- <-]; split; [by apply slot_free_nil|]; split; [cbn; lia|done]| |done..].
  destruct (take_queue (t_key t) c1) as [[q c2]|] eqn:Ht; [|done]. intros [= <- <-]. split; [|split; [cbn; lia|done]]. intros _. eapply take_slot, Ht.
  by rewrite (charge_same_queues _ _ _ _ _ _ Hch).
Qed.

(** The other sections put no queue out of the map. *)
Lemma other_next al ph c c' ph' : tx_step al ph c = Ok (c', ph') -> (forall t, ph <> Existing t) -> ph_tx ph <> None ->
  (ph_ns ph' = [] \/ ph_ns ph <> [] /\ c_queues c' = c_queues c) /\ (rank ph' < rank ph)%nat /\ ph' <> Idle.
Proof.
  intros Hstep Hne Htx. destruct ph; cbn [tx_step] in Hstep; try done; try (by destruct (Hne t));
    unfold expire_section, insert_detached, build_queue, drop_with, deliver in Hstep;
    repeat first [apply res_bind_Ok in Hstep as (? & ? & Hstep)|case_match; simplify_eq/=; try done]; simplify_eq/=;
    (split; [(by left) || (by right)|split; [lia|done]]).
Qed.

(** A section brings the call closer to its end. *)
Lemma tx_step_next al ph c c' ph' : cache_ok c -> tx_step al ph c = Ok (c', ph') -> slot_free ph c -> ph_tx ph <> None ->
  slot_free ph' c' /\ (rank ph' < rank ph)%nat /\ ph' <> Idle.
Proof.
  intros [Hm _] Hstep Hslot Htx. assert ({t | ph = Existing t} + {forall t, ph <> Existing t}) as [[t ->]|Hne] by (destruct ph; eauto).
  - by apply (detach_next t c).
  - destruct (other_next al ph c c' ph' Hstep Hne Htx) as [Hq Hrest]. split; [|done].
    destruct Hq as [Hn|[Hn Hq]]; [by apply slot_free_nil|]. intros _. rewrite Hq. by apply Hslot.
Qed.

(** Alone, with no other lane busy, a call returns within as many sections as its
    rank says, whatever the allocator answers. *)
Lemma run_alone n al ph c : lane_inv [] [] (fun _ => 0) c ph -> slot_free ph c -> ph <> Idle -> (rank ph <= n)%nat ->
  exists c' r, run_tx n al ph c = Ok (c', Returned r) /\ lane_inv [] [] (fun _ => 0) c' (Returned r) /\
    match ph_tx ph with Some t => frame (net_ns_id (t_key t)) c c' | None => c' = c end.
Proof.
  revert ph c. induction n as [|n IH]; intros ph c Hi Hslot Hidle Hrank.
  - destruct ph; cbn in Hrank; try lia; [done|]. by exists c, r.
  - cbn [run_tx]. pose proof (tx_step_ok _ _ _ env_empty al ph c Hi) as Hstep. unfold step_post in Hstep.
    destruct (tx_step al ph c) as [[c1 ph1]| |] eqn:E; [|done|].
    + cbn [res_bind fst snd]. destruct Hstep as [Hi1 Hfr]. destruct (ph_tx ph) as [t|] eqn:Ht.
      * destruct (tx_step_next al ph c c1 ph1) as (Hs1 & Hr1 & Hne1); [apply Hi|done|done|by rewrite Ht|].
        destruct (IH ph1 c1 Hi1 Hs1 Hne1 ltac:(lia)) as (c' & r & -> & Hi' & Hf'). exists c', r. split; [done|]. split; [done|].
        destruct Hfr as [Hfr [Hsame|Hnone]]; [rewrite Hsame in Hf'; by eapply frame_trans|rewrite Hnone in Hf'; by subst].
      * destruct Hfr as [-> ->]. destruct (IH ph c Hi Hslot Hidle) as (c' & r & -> & Hi' & Hf'); [destruct ph; cbn in *; (done || lia)|].
        exists c', r. rewrite Ht in Hf'. done.
    + destruct Hstep as [Hp Hfull]. assert (ph_ns ph <> []) as Hns by (by destruct ph). specialize (Hslot Hns). lia.
Qed.
