(* ===== verification/FragCorrect.v ===== *)
(** Correctness of IPv4 fragment reassembly: one queue for any sequence of
    fragments and for the fragments of one datagram, and the cache under every
    interleaving of its transactions. *)

From Stdlib Require Import ZArith Lia.
From stdpp Require Import base list list_numbers numbers sorting.
From S2P Require Import Prelude Machine OrdMap OrdMapFacts Wire WireFacts Frag FragFacts FragRun.
From S2P Require Import FragCache FragBooks FragCacheFacts FragLanes FragSystem FragTrace.

(** * One queue *)
Lemma queue_new_rate now q : queue_new true now = Ok q -> clock now -> rate_ok RATE_LIMIT_TOKENS (rate_limiter q).
Proof. intros [= <-] [Hc _]. by split. Qed.

Lemma rate_ok_le n n' r : n' <= n -> rate_ok n r -> rate_ok n' r.
Proof. intros Hle []. split; [lia|done]. Qed.

(** C22 Whatever fragments arrive, in any order, with any overlap and whatever the
    allocator refuses, the queue never aborts and stays well formed: the stored
    fragments are in ascending order and disjoint, the holes are exactly the bytes
    not held, the counters are the number and the bytes of what was taken in, and
    what it holds is what it took in. *)
Theorem fragment_queue_wellformed now q0 l :
  queue_new true now = Ok q0 -> clock now -> Forall arrival_ok l ->
  exists rs q, feed l q0 = Ok (rs, q) /\ length rs = length l /\
    entries (frags q) ≡ₚ taken l rs /\ frags_within 0 (limit q) (entries (frags q)) /\
    (forall p, 0 <= p < limit q -> open_at (holes q) p <-> ~ held (entries (frags q)) p) /\
    received_frags q = zlen (taken l rs) /\ received_bytes q = sumZ (fun e => zlen e.2) (taken l rs).
Proof.
  intros Hq Hc Hl. pose proof (rate_ok_le RATE_LIMIT_TOKENS 0 _ ltac:(done) (queue_new_rate _ _ Hq Hc)) as Hr. pose proof (queue_new_ok _ _ _ Hq) as Hok.
  destruct (feed_safe l q0 Hl Hok Hr) as (rs & q & Hf & Hlen & Hq' & _ & Hp). injection Hq as <-. cbn in Hp. rewrite app_nil_r in Hp.
  exists rs, q. split; [done|]. split; [done|]. split; [done|]. split; [apply Hq'|]. split; [apply Hq'|].
  rewrite (qo_count _ Hq'), (qo_bytes _ Hq'). split; [by apply perm_len|by rewrite Hp].
Qed.

Definition empty_queue : FragmentQueue := mkQueue 1 30001 None 0 0 [mkHole 0 u16_max] map_new false false false (rate_new 1).
Definition two_pieces : list Arrival :=
  [mkArrival 16 false [9; 9] 5 (mkFragAllocs (Some 0) true (Some 0)); mkArrival 0 true (replicate 16 7) 6 (mkFragAllocs (Some 0) true (Some 0))].

Lemma two_pieces_ok : Forall arrival_ok two_pieces.
Proof. apply list.Forall_cons. split; [split; cbn; [lia|unfold clock; lia]|]. apply list.Forall_cons. split; [split; cbn; [lia|unfold clock; lia]|constructor]. Qed.

Lemma fragment_queue_wellformed_witness : exists rs q, feed two_pieces empty_queue = Ok (rs, q) /\
  received_frags q = zlen (taken two_pieces rs).
Proof.
  destruct (fragment_queue_wellformed 1 empty_queue two_pieces) as (rs & q & Hf & _ & _ & _ & _ & Hn & _).
  - reflexivity.
  - split; [discriminate|reflexivity].
  - exact two_pieces_ok.
  - exists rs, q. split; [exact Hf|exact Hn].
Defined.

(** C23 A complete queue reassembles to its fragments in the order of their offsets,
    without gap or overlap, with the length the last fragment gave; an incomplete
    one gives nothing, and a complete one only fails for want of memory. *)
Theorem fragment_reassembly_exact `{heap : WireHeap} now q0 l rs q :
  queue_new true now = Ok q0 -> clock now -> Forall arrival_ok l -> feed l q0 = Ok (rs, q) ->
  if is_complete q
  then exists T, q_total_len q = Some T /\ 0 < T <= MAX_PACKET_SIZE /\ tiled 0 T (entries (frags q)) /\
    reassemble q = if wire_admitted (WIRE_ENCAPSULATION_HEADROOM + T) then Some (concat (map snd (entries (frags q)))) else None
  else reassemble q = None.
Proof.
  intros Hq Hc Hl Hf. pose proof (rate_ok_le RATE_LIMIT_TOKENS 0 _ ltac:(done) (queue_new_rate _ _ Hq Hc)) as Hr.
  destruct (feed_safe l q0 Hl (queue_new_ok _ _ _ Hq) Hr) as (rs' & q' & Hf' & _ & Hq' & _). rewrite Hf in Hf'. injection Hf' as <- <-.
  destruct (is_complete q) eqn:E; [|by unfold reassemble; rewrite E].
  destruct (reassemble_spec q Hq' E) as (T & HT & Htiled & Hre). exists T. split; [done|]. split; [|done].
  pose proof (qo_limit _ Hq') as Hlim. unfold limit in Hlim. by rewrite HT in Hlim.
Qed.

#[local] Instance ample : WireHeap := {| wire_admitted := fun _ => true |}.

Lemma fragment_reassembly_exact_witness : exists q, reassemble q = Some (replicate 16 7 ++ [9; 9]).
Proof.
  assert (Hr : exists rs q, feed two_pieces empty_queue = Ok (rs, q) /\ is_complete q = true /\ map snd (entries (frags q)) = [replicate 16 7; [9; 9]])
    by (eexists _, _; split; [vm_compute; reflexivity|]; split; vm_compute; reflexivity).
  destruct Hr as (rs & q & Hr & Hc & He).
  assert (Hq : queue_new true 1 = Ok empty_queue) by reflexivity. assert (Hclock : clock 1) by (split; [discriminate|reflexivity]).
  pose proof (fragment_reassembly_exact 1 empty_queue two_pieces rs q Hq Hclock two_pieces_ok Hr) as H. rewrite Hc in H. destruct H as (T & _ & _ & _ & H). exists q. rewrite H, He. reflexivity.
Defined.

Lemma received_perm T s s' q : s ≡ₚ s' -> received T s q -> received T s' q.
Proof.
  intros Hp []. constructor; [done|by rewrite <- Hp| |].
  - rewrite re_total. assert (Exists (fun e => f_end e = T) s <-> Exists (fun e => f_end e = T) s') as Heq by (by rewrite Hp).
    by rewrite (bool_decide_ext _ _ Heq).
  - unfold zlen in *. by rewrite <- Hp.
Qed.

Lemma received_nothing T now q : queue_new true now = Ok q -> clock now -> received T [] q.
Proof.
  intros Hq Hc. pose proof (queue_new_ok _ _ _ Hq) as Hok. pose proof (queue_new_rate _ _ Hq Hc) as Hr. injection Hq as <-.
  constructor; [done|done|done|]. cbn. by rewrite Z.sub_0_r.
Qed.

(** C24 The fragments of one datagram, at most 64 of them and the first with the
    transport header, in whatever order they arrive: each is taken in, exactly the
    last one to arrive completes the queue, and the packet is the datagram. *)
Theorem fragment_reassembly_complete `{heap : WireHeap} T ps es arr now q0 :
  tiled 0 T ps -> Forall (fun e => 0 < zlen e.2) ps -> 0 < T <= MAX_PACKET_SIZE -> zlen ps <= MAX_FRAGS_PER_QUEUE ->
  Forall (fun e => e.1 = 0 -> MIN_L4_HEADER_BYTES <= zlen e.2) ps -> es ≡ₚ ps -> Forall2 (carries T) arr es ->
  queue_new true now = Ok q0 -> clock now -> (forall n, wire_admitted n = true) ->
  exists q, feed arr q0 = Ok (replicate (length arr - 1) (Inserted false) ++ [Inserted true], q) /\
    reassemble q = Some (concat (map snd ps)).
Proof.
  intros Ht Hpos HT Hn Hh Hp Harr Hq Hc Hheap. assert (es <> []) as Hne.
  { intros ->. apply Permutation_nil in Hp as ->. cbn in Ht. lia. }
  destruct (feed_datagram T ps Ht Hpos HT Hn Hh arr es [] q0 Harr (received_nothing T _ _ Hq Hc) Hp Hne) as (q & Hf & Hr).
  exists q. split; [done|]. apply (received_reassemble T ps Ht Hpos HT); [|done]. eapply received_perm, Hr.
  rewrite app_nil_r. by rewrite <- !Permutation_rev.
Qed.

Lemma fragment_reassembly_complete_witness :
  exists q, feed two_pieces empty_queue = Ok ([Inserted false; Inserted true], q) /\ reassemble q = Some (replicate 16 7 ++ [9; 9]).
Proof.
  apply (fragment_reassembly_complete 18 [(0, replicate 16 7); (16, [9; 9])] [(16, [9; 9]); (0, replicate 16 7)] two_pieces 1 empty_queue).
  - repeat split.
  - repeat constructor.
  - split; [reflexivity|discriminate].
  - discriminate.
  - repeat constructor; cbn; discriminate.
  - apply perm_swap.
  - repeat constructor; try discriminate; intros [|[|]]; discriminate.
  - reflexivity.
  - split; [discriminate|reflexivity].
  - reflexivity.
Defined.

(** * The cache *)
Lemma no_lane_busy lanes : forallb (fun ph => negb (busy ph)) lanes = true <-> existsb id (map busy lanes) = false.
Proof. induction lanes as [|ph l IH]; [done|]. cbn. by destruct (busy ph). Qed.

(** C25 Under every interleaving of transactions, arrivals and sweeps the books
    balance. Each row of a namespace is what its queues hold, in the cache or out of
    it; the rows together are the ledger; with no transaction under way the global
    gauges equal their sum. A namespace other than the first never passes its
    limits, a source never has more than 256 queues, and a global limit is passed by
    at most one fragment for each of the 63 other lanes. *)
Theorem fragment_books_balance es s :
  Forall event_ok es -> exec_all es sys_new = Ok s ->
  let c := s_cache s in
  let L := queues_ledger c ++ lanes_ns (s_lanes s) in
  (forall n fd, amount fd (ns_row (c_per_ns c) n) = ns_total fd n L) /\
  (forall fd, rows amount fd (c_per_ns c) = grand amount fd L) /\
  (forall src, src_row (c_per_src c) src = src_total src L) /\
  (forallb (fun ph => negb (busy ph)) (s_lanes s) = true -> forall fd, gauge fd (c_stats c) = rows amount fd (c_per_ns c)) /\
  (forall n fd, n <> 0 -> amount fd (ns_row (c_per_ns c) n) <= ns_cap fd) /\
  (forall src, src_row (c_per_src c) src <= MAX_QUEUES_PER_SRC) /\
  (forall fd, 0 <= gauge fd (c_stats c) <= global_cap fd + 63 * unit_of fd).
Proof.
  intros Hes Hrun c L. pose proof (exec_all_ok es sys_new sys_new_inv Hes) as Hs. rewrite Hrun in Hs.
  pose proof (lanes_pending_pos s Hs) as HP. destruct (sy_core _ Hs) as [_ Hb Hlim Hbound]. fold c in Hb, Hlim, Hbound. fold L in Hb, Hlim.
  assert (forall n fd, amount fd (ns_row (c_per_ns c) n) = ns_total fd n L) as Hrow by (intros; apply (ag_row _ _ _ _ _ _ _ (bk_ns _ _ _ Hb))).
  assert (forall src, src_row (c_per_src c) src = src_total src L) as Hsrc by (intros; apply (ag_row _ _ _ _ _ _ _ (bk_src _ _ _ Hb) tt)).
  split; [done|]. split; [apply (bk_ns _ _ _ Hb)|]. split; [done|]. split; [|split; [|split]].
  - intros Hidle%no_lane_busy fd. destruct (lanes_idle _ Hidle) as (Hn & Hg & _). rewrite (bk_gauge _ _ _ Hb), (ag_sum _ _ _ _ _ _ _ (bk_ns _ _ _ Hb)). subst L. by rewrite Hn, Hg.
  - intros n fd Hn. rewrite Hrow. by apply Hlim.
  - intros src. rewrite Hsrc. apply Hlim.
  - intros fd. split; [apply (books_gauge_range _ _ _ fd Hb)|]. specialize (Hbound fd). specialize (HP fd). rewrite (bk_gauge _ _ _ Hb).
    unfold bound in Hbound. cbn in HP. lia.
Qed.

(** ** Traces to run *)
Definition plenty : TxAllocs :=
  mkTxAllocs true (mkFragAllocs (Some 0) true (Some 0)) true ample (Some 0, None) (Some 0, None) (Some 0, None) true true true.
Definition piece (id offset : Z) (more : bool) : Ipv4Header :=
  mkIpv4 4 5 0 0 id (if more then 8192 + offset else offset) 64 17 0 (mkAddr 10 0 0 1) (mkAddr 10 0 0 2) 0.
Definition arrive (ns id offset : Z) : Event := Arrive ns (piece id offset true) (replicate 16 7) 1000.
Definition sections (n : nat) (ns : Z) : list Event := repeat (Run (transaction_slot ns) plenty) n.
Definition call (ns id offset : Z) : list Event := arrive ns id offset :: sections 7 ns ++ [Leave (transaction_slot ns)].

(** Eight queues fill the first backing of the map. *)
Definition eight_queues : list Event := concat (map (fun id => call 1 id 0) (seqZ 1 8)).

(** A second fragment takes its queue out; before it is put back, a queue of
    another namespace takes the slot. *)
Definition slot_stolen : list Event := eight_queues ++ arrive 1 1 4 :: sections 4 1 ++ call 2 99 0 ++ sections 1 1.

Definition event_okb (e : Event) : bool := match e with Arrive _ _ _ now => (0 <=? now) && (now <? 2 ^ 57) | _ => true end.

Lemma events_ok es : forallb event_okb es = true -> Forall event_ok es.
Proof.
  intros Hes. apply list.Forall_forall. intros e He. rewrite forallb_forall in Hes. specialize (Hes e (proj1 (list_elem_of_In _ _) He)).
  destruct e; cbn in *; [|done..]. apply andb_true_iff in Hes as [?%Z.leb_le ?%Z.ltb_lt]. done.
Qed.

Lemma fragment_books_balance_witness : exists s, exec_all eight_queues sys_new = Ok s /\ gauge FQueues (c_stats (s_cache s)) = 8.
Proof.
  assert (Hs : exists s, exec_all eight_queues sys_new = Ok s /\ forallb (fun ph => negb (busy ph)) (s_lanes s) = true /\
    rows amount FQueues (c_per_ns (s_cache s)) = 8) by (eexists; split; [vm_compute; reflexivity|]; split; vm_compute; reflexivity).
  destruct Hs as (s & Hs & Hidle & Hrows). assert (Hes : Forall event_ok eight_queues) by (apply events_ok; vm_compute; reflexivity).
  destruct (fragment_books_balance eight_queues s Hes Hs) as (_ & _ & _ & H & _). exists s. split; [exact Hs|]. rewrite (H Hidle). exact Hrows.
Defined.

(** C26 The only way the cache can abort is a transaction that puts its queue back
    into a map that is full; and an interleaving of two namespaces does so: the slot
    of the queue that is out counts as free. *)
Theorem fragment_cache_abort :
  (forall es, Forall event_ok es -> exec_all es sys_new = Panic ->
     exists es1 e es2 s, es = es1 ++ e :: es2 /\ exec_all es1 sys_new = Ok s /\ stuck e s) /\
  (exists es, Forall event_ok es /\ exec_all es sys_new = Panic).
Proof.
  split.
  - intros es Hes Hp. pose proof (exec_all_ok es sys_new sys_new_inv Hes) as Hs. by rewrite Hp in Hs.
  - exists slot_stolen. split; [apply events_ok; vm_compute; reflexivity|vm_compute; reflexivity].
Qed.

(** A call that no other transaction interferes with always returns, after at
    most seven sections and whatever the allocator and the ledger answer: a packet,
    nothing yet, or a drop with its reason. It leaves the queues and rows of other
    namespaces as they were, and the gauges equal to the sum of the rows. *)
Theorem process_fragment_returns es s al ns h payload now :
  Forall event_ok es -> exec_all es sys_new = Ok s -> forallb (fun ph => negb (busy ph)) (s_lanes s) = true -> clock now ->
  exists c r, process_fragment al ns h payload now (s_cache s) = Ok (c, Returned r) /\ r <> Panic /\ frame ns (s_cache s) c /\
    forall fd, gauge fd (c_stats c) = rows amount fd (c_per_ns c).
Proof.
  intros Hes Hrun Hidle Hnow. pose proof (exec_all_ok es sys_new sys_new_inv Hes) as Hs. rewrite Hrun in Hs.
  destruct (lanes_idle _ (proj1 (no_lane_busy _) Hidle)) as (Hn & Hg & Hp). pose proof (sy_core _ Hs) as Hcore. rewrite Hn, Hg in Hcore.
  set (t := mkTx (from_header ns h) (fragment_offset h * 8) (more_fragments h) payload now).
  assert (lane_inv [] [] (fun _ => 0) (with_stats (bump Received) (s_cache s)) (Expiring t)) as Hi.
  { split; [|split; [|done]].
    - apply core_stats; [intros; apply gauge_bump|]. eapply core_mono, Hcore. intros fd. cbn. rewrite Hp. lia.
    - cbn. unfold fragment_offset. pose proof (proj2 (Z.land_nonneg (flags_fragment h) 8191) ltac:(lia)). lia. }
  destruct (run_alone 7 al (Expiring t) _ Hi (slot_free_nil (Expiring t) _ eq_refl) ltac:(done) ltac:(cbn; lia)) as (c & r & Hr & [Hc' Hret] & Hf).
  exists c, r. split; [done|]. split; [done|]. split; [eapply frame_trans; [apply frame_stats|exact Hf]|].
  intros fd. pose proof (cr_books _ _ _ _ Hc') as Hb. by rewrite (bk_gauge _ _ _ Hb), (ag_sum _ _ _ _ _ _ _ (bk_ns _ _ _ Hb)).
Qed.

Lemma process_fragment_returns_witness : exists s c r, exec_all eight_queues sys_new = Ok s /\
  process_fragment plenty 1 (piece 1 4 true) (replicate 16 7) 1000 (s_cache s) = Ok (c, Returned r) /\ r <> Panic.
Proof.
  assert (Hs : exists s, exec_all eight_queues sys_new = Ok s /\ forallb (fun ph => negb (busy ph)) (s_lanes s) = true)
    by (eexists; split; vm_compute; reflexivity).
  destruct Hs as (s & Hs & Hidle). assert (Hes : Forall event_ok eight_queues) by (apply events_ok; vm_compute; reflexivity).
  assert (Hclock : clock 1000) by (split; [discriminate|reflexivity]).
  destruct (process_fragment_returns eight_queues s plenty 1 (piece 1 4 true) (replicate 16 7) 1000 Hes Hs Hidle Hclock) as (c & r & Hr & Hne & _).
  exists s, c, r. split; [exact Hs|]. split; [exact Hr|exact Hne].
Defined.

(** A section of a transaction touches its own namespace only: the queues, the
    rows and the source counts of every other namespace are as they were. *)
Theorem fragment_namespaces_isolated es s i al ph t s' :
  Forall event_ok es -> exec_all es sys_new = Ok s -> s_lanes s !! i = Some ph -> ph_tx ph = Some t -> exec (Run i al) s = Ok s' ->
  (forall k, net_ns_id k <> net_ns_id (t_key t) -> get (c_queues (s_cache s')) k = get (c_queues (s_cache s)) k) /\
  (forall n, n <> net_ns_id (t_key t) -> get (c_per_ns (s_cache s')) n = get (c_per_ns (s_cache s)) n) /\
  (forall src, src.1 <> net_ns_id (t_key t) -> get (c_per_src (s_cache s')) src = get (c_per_src (s_cache s)) src).
Proof.
  intros Hes Hrun Hi Ht Hexec. pose proof (exec_all_ok es sys_new sys_new_inv Hes) as Hs. rewrite Hrun in Hs.
  pose proof (run_ok s i al ph Hs Hi) as Hstep. cbn [exec] in Hexec. rewrite Hi in Hexec.
  destruct (tx_step al ph (s_cache s)) as [[c' ph']| |]; [|done|done]. cbn in Hexec. injection Hexec as <-. rewrite Ht in Hstep.
  destruct Hstep as [_ []]. done.
Qed.

Lemma fragment_namespaces_isolated_witness :
  exists s s', exec_all (eight_queues ++ arrive 2 99 0 :: sections 5 2) sys_new = Ok s /\
    exec (Run (transaction_slot 2) plenty) s = Ok s' /\ get (c_per_ns (s_cache s')) 1 = Some (mkBudget 8 8 128).
Proof.
  assert (Hes : Forall event_ok (eight_queues ++ arrive 2 99 0 :: sections 5 2)) by (apply events_ok; vm_compute; reflexivity).
  assert (Hs : exists s ph t s', exec_all (eight_queues ++ arrive 2 99 0 :: sections 5 2) sys_new = Ok s /\ s_lanes s !! transaction_slot 2 = Some ph /\
    ph_tx ph = Some t /\ exec (Run (transaction_slot 2) plenty) s = Ok s' /\ net_ns_id (t_key t) = 2 /\ get (c_per_ns (s_cache s)) 1 = Some (mkBudget 8 8 128))
    by (do 4 eexists; split; [vm_compute; reflexivity|]; repeat (split; [vm_compute; reflexivity|]); vm_compute; reflexivity).
  destruct Hs as (s & ph & t & s' & Hs & Hph & Ht & Hs' & Hns & Hrow).
  destruct (fragment_namespaces_isolated _ s _ plenty ph t s' Hes Hs Hph Ht Hs') as (_ & H & _). exists s, s'. split; [exact Hs|]. split; [exact Hs'|].
  rewrite H; [exact Hrow|]. rewrite Hns. discriminate.
Defined.

(** The timer sweep takes out exactly the expired queues and counts them, if no
    transaction is under way; otherwise it changes nothing. *)
Theorem fragment_sweep_exact es s now :
  Forall event_ok es -> exec_all es sys_new = Ok s ->
  exists s' n, cleanup_expired now s = Ok (s', n) /\ s_lanes s' = s_lanes s /\
    if forallb (fun ph => negb (busy ph)) (s_lanes s)
    then entries (c_queues (s_cache s')) ≡ₚ List.filter (fun kq => negb (is_expired kq.2 now)) (entries (c_queues (s_cache s))) /\
         n = zlen (List.filter (fun kq => is_expired kq.2 now) (entries (c_queues (s_cache s)))) /\
         (forall fd, gauge fd (c_stats (s_cache s')) = rows amount fd (c_per_ns (s_cache s')))
    else s' = s /\ n = 0.
Proof.
  intros Hes Hrun. pose proof (exec_all_ok es sys_new sys_new_inv Hes) as Hs. rewrite Hrun in Hs.
  destruct (cleanup_ok now s Hs (core_queues_few _ _ _ _ (sy_core _ Hs) (lanes_pending_pos s Hs))) as (s' & n & Hc & Hs' & Hl & Hcase).
  exists s', n. split; [done|]. split; [done|]. destruct (existsb id (map busy (s_lanes s))) eqn:Hb.
  - destruct (forallb _ (s_lanes s)) eqn:Hf; [|done]. apply no_lane_busy in Hf. congruence.
  - apply no_lane_busy in Hb as Hf. rewrite Hf. destruct Hcase as [He Hn]. split; [done|]. split; [done|]. intros fd.
    pose proof (sy_core _ Hs') as Hcore. rewrite Hl in Hcore. destruct (lanes_idle _ Hb) as (Hln & Hlg & _). rewrite Hln, Hlg in Hcore.
    pose proof (cr_books _ _ _ _ Hcore) as Hbk. by rewrite (bk_gauge _ _ _ Hbk), (ag_sum _ _ _ _ _ _ _ (bk_ns _ _ _ Hbk)).
Qed.

Lemma fragment_sweep_exact_witness : exists s s' n, exec_all eight_queues sys_new = Ok s /\ cleanup_expired 40000 s = Ok (s', n) /\ n = 8.
Proof.
  assert (Hes : Forall event_ok eight_queues) by (apply events_ok; vm_compute; reflexivity).
  assert (Hs : exists s, exec_all eight_queues sys_new = Ok s /\ forallb (fun ph => negb (busy ph)) (s_lanes s) = true /\
    zlen (List.filter (fun kq => is_expired kq.2 40000) (entries (c_queues (s_cache s)))) = 8)
    by (eexists; split; [vm_compute; reflexivity|]; split; vm_compute; reflexivity).
  destruct Hs as (s & Hs & Hidle & Hn). destruct (fragment_sweep_exact eight_queues s 40000 Hes Hs) as (s' & n & Hc & _ & H).
  rewrite Hidle in H. destruct H as (_ & H & _). exists s, s', n. split; [exact Hs|]. split; [exact Hc|]. rewrite H. exact Hn.
Defined.
