(* ===== verification/Tcp.v ===== *)
(** TCP segments (src/kernel/net/src/tcp.rs): sequence-number arithmetic,
    headers, options, checksums, segment construction and window scaling. *)

From Stdlib Require Import ZArith Lia.
From stdpp Require Import base list list_numbers numbers.
From S2P Require Import Prelude Machine Wire.

(** * Sequence numbers *)

(** [x as i32] *)
Definition as_i32 (x : Z) : Z := if x <? 2 ^ 31 then x else x - 2 ^ 32.

(** [a.wrapping_add(b)] and [a.wrapping_sub(b)] on [u32] *)
Definition wadd (a b : Z) : Z := wrap32 (a + b).
Definition wsub (a b : Z) : Z := wrap32 (a - b).

Definition seq_lt (a b : Z) : bool := as_i32 (wsub a b) <? 0.
Definition seq_le (a b : Z) : bool := as_i32 (wsub a b) <=? 0.
Definition seq_gt (a b : Z) : bool := 0 <? as_i32 (wsub a b).
Definition seq_ge (a b : Z) : bool := 0 <=? as_i32 (wsub a b).

Definition seq_in_window (seq left size : Z) : bool :=
  let right := wadd left size in
  if size =? 0 then false
  else if seq_le left right then seq_ge seq left && seq_lt seq right
  else seq_ge seq left || seq_lt seq right.

(** [saturating_add] on [u32] *)
Definition sat_add32 (a b : Z) : Z := Z.min (a + b) u32_max.
Definition sat_mul32 (a b : Z) : Z := Z.min (a * b) u32_max.

(** * Headers *)
Definition TCP_HEADER_MIN_LEN : Z := 20.
Definition TCP_HEADER_MAX_LEN : Z := 60.
Definition TCP_PROTO : Z := 6.
Definition TCP_DEFAULT_MSS : Z := 536.
Definition TCP_MAX_WINDOW_SCALE : Z := 14.
Definition TCP_MAX_SCALED_WINDOW : Z := Z.shiftl 65535 14.

Inductive TcpError :=
| TcpTruncated | InvalidHeaderLen | InvalidFlags | BadChecksum | ConnectionRefused | ConnectionReset
| Timeout | InvalidState | NoRoute | AddressInUse | ConnectionExists | NotConnected | WouldBlock
| InvalidSeq | SegmentTooLong | OptionsTooLong | AllocationFailed.

(** [u32::from_be_bytes] and [to_be_bytes] *)
Definition be32 (a b c d : Z) : Z := ((a * 256 + b) * 256 + c) * 256 + d.
Definition be32_bytes (v : Z) : list Z :=
  [v / 256 / 256 / 256; v / 256 / 256 mod 256; v / 256 mod 256; v mod 256].

Definition u32_at {E} (p : list Z) (i : Z) : res E Z :=
  let? a := at_ p i in let? b := at_ p (i + 1) in
  let? c := at_ p (i + 2) in let? d := at_ p (i + 3) in
  Ok (be32 a b c d).

Record TcpHeader := mkTcp {
  t_src_port : Z; t_dst_port : Z; seq_num : Z; ack_num : Z; data_offset : Z; reserved : Z;
  t_flags : Z; t_window : Z; t_checksum : Z; urgent_ptr : Z;
}.

Definition tcp_header_new (sp dp seq ack flags window : Z) : TcpHeader :=
  mkTcp sp dp seq ack 5 0 flags window 0 0.

Definition tcp_header_len (h : TcpHeader) : Z := data_offset h * 4.

Definition tcp_to_bytes (h : TcpHeader) : list Z :=
  be16_bytes (t_src_port h) ++ be16_bytes (t_dst_port h) ++ be32_bytes (seq_num h) ++
  be32_bytes (ack_num h) ++
  [Z.lor (Z.shiftl (data_offset h) 4 mod 256) (Z.land (reserved h) 15); t_flags h] ++
  be16_bytes (t_window h) ++ be16_bytes (t_checksum h) ++ be16_bytes (urgent_ptr h).

Definition parse_tcp_header (data : list Z) : res TcpError TcpHeader :=
  if zlen data <? TCP_HEADER_MIN_LEN then Err TcpTruncated else
  let? sp := u16_at data 0 in
  let? dp := u16_at data 2 in
  let? seq := u32_at data 4 in
  let? ack := u32_at data 8 in
  let? b12 := at_ data 12 in
  let off := Z.land (Z.shiftr b12 4) 15 in
  let rsv := Z.land b12 15 in
  let? flags := at_ data 13 in
  let? window := u16_at data 14 in
  let? checksum := u16_at data 16 in
  let? urgent := u16_at data 18 in
  if off <? 5 then Err InvalidHeaderLen else
  let header_len := off * 4 in
  if zlen data <? header_len then Err TcpTruncated else
  Ok (mkTcp sp dp seq ack off rsv flags window checksum urgent).

(** * Options *)
Definition TCP_SACK_MAX_BLOCKS : Z := 4.

Record SackBlock := mkSack { left_edge : Z; right_edge : Z }.

(** [SackBlocks]: its initialised prefix *)
Notation SackBlocks := (list SackBlock).

Definition sack_push (blocks : SackBlocks) (b : SackBlock) : SackBlocks :=
  if TCP_SACK_MAX_BLOCKS <=? zlen blocks then blocks else blocks ++ [b].

Inductive TcpOptionKind :=
| EndOfList
| Nop
| Mss (mss : Z)
| WindowScale (scale : Z)
| SackPermitted
| Sack (blocks : SackBlocks)
| Timestamps (ts_val ts_ecr : Z)
| Unknown (kind len : Z).

Record TcpOptions := mkOptions {
  o_mss : option Z; o_window_scale : option Z; o_sack_permitted : bool;
  o_sack_blocks : SackBlocks; o_timestamps : option (Z * Z);
}.

Definition options_default : TcpOptions := mkOptions None None false [] None.

Definition tcp_option_wire_len (o : TcpOptionKind) : Z :=
  match o with
  | EndOfList | Nop => 1
  | Mss _ => 4
  | WindowScale _ => 3
  | SackPermitted => 2
  | Sack blocks => 2 + 8 * Z.min (zlen blocks) TCP_SACK_MAX_BLOCKS
  | Timestamps _ _ => 10
  | Unknown _ len => Z.max len 2
  end.

Definition sack_bytes (b : SackBlock) : list Z := be32_bytes (left_edge b) ++ be32_bytes (right_edge b).

(** The bytes [write_tcp_option] puts in its part of the output *)
Definition write_tcp_option (o : TcpOptionKind) : list Z :=
  let len := tcp_option_wire_len o in
  match o with
  | EndOfList => [0]
  | Nop => [1]
  | Mss mss => [2; 4] ++ be16_bytes mss
  | WindowScale scale => [3; 3; scale]
  | SackPermitted => [4; 2]
  | Sack blocks => [5; len mod 256] ++ concat (map sack_bytes (take (Z.to_nat TCP_SACK_MAX_BLOCKS) blocks))
  | Timestamps v e => [8; 10] ++ be32_bytes v ++ be32_bytes e
  | Unknown kind _ => [kind; len mod 256] ++ replicate (Z.to_nat (len - 2)) 0
  end.

(** The loop of [serialize_tcp_options_into]: what has been written so far, and
    whether an end-of-list was. *)
Fixpoint write_options (options : list TcpOptionKind) (out : list Z) : list Z * bool :=
  match options with
  | [] => (out, false)
  | o :: options =>
      if TCP_HEADER_MAX_LEN - TCP_HEADER_MIN_LEN <? zlen out + tcp_option_wire_len o then (out, false) else
      let out := out ++ write_tcp_option o in
      match o with EndOfList => (out, true) | _ => write_options options out end
  end.

(** [serialize_tcp_options_into]: the part of the scratch buffer in use *)
Definition serialize_tcp_options (options : list TcpOptionKind) : list Z :=
  match options with
  | [] => []
  | _ =>
      let '(out, has_end) := write_options options [] in
      let out := if negb has_end && (zlen out <? TCP_HEADER_MAX_LEN - TCP_HEADER_MIN_LEN)
                 then out ++ [0] else out in
      let padded := Z.land (zlen out + 3) (Z.lnot 3) in
      out ++ replicate (Z.to_nat (padded - zlen out)) 0
  end.

Definition with_mss (o : TcpOptions) (v : Z) : TcpOptions :=
  mkOptions (Some v) (o_window_scale o) (o_sack_permitted o) (o_sack_blocks o) (o_timestamps o).
Definition with_scale (o : TcpOptions) (v : Z) : TcpOptions :=
  mkOptions (o_mss o) (Some v) (o_sack_permitted o) (o_sack_blocks o) (o_timestamps o).
Definition with_sack_permitted (o : TcpOptions) : TcpOptions :=
  mkOptions (o_mss o) (o_window_scale o) true (o_sack_blocks o) (o_timestamps o).
Definition with_blocks (o : TcpOptions) (b : SackBlocks) : TcpOptions :=
  mkOptions (o_mss o) (o_window_scale o) (o_sack_permitted o) b (o_timestamps o).
Definition with_timestamps (o : TcpOptions) (v e : Z) : TcpOptions :=
  mkOptions (o_mss o) (o_window_scale o) (o_sack_permitted o) (o_sack_blocks o) (Some (v, e)).

(** [count] blocks read from [l], the malformed ones dropped *)
Fixpoint read_blocks (count : nat) (l : list Z) (blocks : SackBlocks) : res TcpError SackBlocks :=
  match count with
  | O => Ok blocks
  | S count =>
      if zlen l <? 8 then Ok blocks else
      let? lft := u32_at l 0 in
      let? rgt := u32_at l 4 in
      read_blocks count (drop 8 l) (if seq_lt lft rgt then sack_push blocks (mkSack lft rgt) else blocks)
  end.

(** The loop over the option bytes; [l] is what is left of them from [i] on. *)
Fixpoint parse_options (fuel : nat) (l : list Z) (o : TcpOptions) : res TcpError TcpOptions :=
  match fuel with
  | O => Panic
  | S fuel =>
      if zlen l =? 0 then Ok o else
      let? kind := at_ l 0 in
      if kind =? 0 then Ok o else
      if kind =? 1 then parse_options fuel (drop 1 l) o else
      if kind =? 2 then
        (if 4 <=? zlen l then
           let? len := at_ l 1 in
           if len =? 4 then
             let? raw := u16_at l 2 in
             parse_options fuel (drop 4 l) (with_mss o (Z.max raw TCP_DEFAULT_MSS))
           else Ok o
         else Ok o) else
      if kind =? 3 then
        (if 3 <=? zlen l then
           let? len := at_ l 1 in
           if len =? 3 then
             let? scale := at_ l 2 in
             parse_options fuel (drop 3 l) (with_scale o (Z.min scale TCP_MAX_WINDOW_SCALE))
           else Ok o
         else Ok o) else
      if kind =? 4 then
        (if 2 <=? zlen l then
           let? len := at_ l 1 in
           if len =? 2 then parse_options fuel (drop 2 l) (with_sack_permitted o) else Ok o
         else Ok o) else
      if kind =? 5 then
        (if zlen l <? 2 then Ok o else
         let? len := at_ l 1 in
         if (len <? 10) || negb ((len - 2) mod 8 =? 0) then
           (if Z.max len 2 <=? zlen l then parse_options fuel (drop (Z.to_nat (Z.max len 2)) l) o else Ok o)
         else if zlen l <? len then Ok o else
         let block_count := (len - 2) / 8 in
         let remaining := saturating_sub TCP_SACK_MAX_BLOCKS (zlen (o_sack_blocks o)) in
         let? blocks := read_blocks (Z.to_nat (Z.min block_count remaining)) (drop 2 l) (o_sack_blocks o) in
         parse_options fuel (drop (Z.to_nat len) l) (with_blocks o blocks)) else
      if kind =? 8 then
        (if 10 <=? zlen l then
           let? len := at_ l 1 in
           if len =? 10 then
             let? v := u32_at l 2 in
             let? e := u32_at l 6 in
             parse_options fuel (drop 10 l) (with_timestamps o v e)
           else Ok o
         else Ok o) else
      if 1 <? zlen l then
        let? len := at_ l 1 in
        if len <? 2 then Ok o else
        if len <=? zlen l then parse_options fuel (drop (Z.to_nat len) l) o else Ok o
      else Ok o
  end.

Definition parse_tcp_options (data : list Z) (h : TcpHeader) : res TcpError TcpOptions :=
  let header_len := tcp_header_len h in
  if (header_len <=? TCP_HEADER_MIN_LEN) || (zlen data <? header_len) then Ok options_default else
  let? l := slice data TCP_HEADER_MIN_LEN header_len in
  parse_options (S (length l)) l options_default.

(** * Checksum *)
Definition try_compute_tcp_checksum (src_ip dst_ip : Ipv4Addr) (tcp_data : list Z) : res TcpError Z :=
  if 65535 <? zlen tcp_data then Err SegmentTooLong else
  let pseudo := octets src_ip ++ octets dst_ip ++ [0; TCP_PROTO] ++ be16_bytes (zlen tcp_data) in
  Ok (calculate_checksum_with_pseudo pseudo tcp_data).

Definition verify_tcp_checksum (src_ip dst_ip : Ipv4Addr) (tcp_data : list Z) : bool :=
  match try_compute_tcp_checksum src_ip dst_ip tcp_data with Ok c => c =? 0 | _ => false end.

(** * Building segments *)
Section build.
Context `{heap : WireHeap}.

Definition try_build_tcp_segment_with_options (src_ip dst_ip : Ipv4Addr)
  (sp dp seq ack flags window : Z) (options : list TcpOptionKind) (payload : list Z)
  : res TcpError WirePacket :=
  let opts := serialize_tcp_options options in
  let header_len := TCP_HEADER_MIN_LEN + zlen opts in
  if TCP_HEADER_MAX_LEN <? header_len then Panic else
  let h := tcp_header_new sp dp seq ack flags window in
  let h := mkTcp (t_src_port h) (t_dst_port h) (seq_num h) (ack_num h) (header_len / 4 mod 256)
             (reserved h) (t_flags h) (t_window h) (t_checksum h) (urgent_ptr h) in
  let? segment_len := ok_or (checked_add header_len (zlen payload)) SegmentTooLong in
  if 65535 <? segment_len then Err SegmentTooLong else
  let? wire := map_err (try_zeroed segment_len) AllocationFailed in
  let segment := tcp_to_bytes h ++ opts ++ payload in
  let? checksum := try_compute_tcp_checksum src_ip dst_ip segment in
  fill wire (zset (zset segment 16 (checksum / 256)) 17 (checksum mod 256)).

Definition try_build_tcp_segment (src_ip dst_ip : Ipv4Addr) (sp dp seq ack flags window : Z)
  (payload : list Z) : res TcpError WirePacket :=
  let h := tcp_header_new sp dp seq ack flags window in
  let? segment_len := ok_or (checked_add TCP_HEADER_MIN_LEN (zlen payload)) SegmentTooLong in
  if 65535 <? segment_len then Err SegmentTooLong else
  let? wire := map_err (try_zeroed segment_len) AllocationFailed in
  let segment := tcp_to_bytes h ++ payload in
  let? checksum := try_compute_tcp_checksum src_ip dst_ip segment in
  fill wire (zset (zset segment 16 (checksum / 256)) 17 (checksum mod 256)).
End build.

(** * Window scaling *)
Fixpoint find_shift (shifts : list Z) (desired : Z) : Z :=
  match shifts with
  | [] => TCP_MAX_WINDOW_SCALE
  | s :: shifts => if Z.shiftr desired s <=? 65535 then s else find_shift shifts desired
  end.

Definition calc_wscale (desired_wnd : Z) : Z :=
  if desired_wnd <=? 65535 then 0
  else find_shift (seqZ 1 TCP_MAX_WINDOW_SCALE) desired_wnd.

Definition decode_window (raw scale : Z) : Z :=
  let shift := Z.min scale TCP_MAX_WINDOW_SCALE in
  let scaled := wrap32 (Z.shiftl raw shift) in
  Z.min scaled TCP_MAX_SCALED_WINDOW.

Definition encode_window (avail scale : Z) (avoid_zero : bool) : Z :=
  let shift := Z.min scale TCP_MAX_WINDOW_SCALE in
  let w := Z.shiftr avail shift in
  let w := if avoid_zero && (w =? 0) && (0 <? avail) then 1 else w in
  Z.min w 65535.
