(* ===== verification/TcpFacts.v ===== *)
(** Lemmas on TCP segments: sequence numbers as offsets, options written and
    read back, segments built and parsed. *)

From Stdlib Require Import ZArith Lia.
From stdpp Require Import base list list_numbers numbers.
From S2P Require Import Prelude Machine Wire WireFacts NetFacts Tcp.

(** [lia] on quotients and remainders by constants *)
#[local] Ltac dlia := Z.to_euclidean_division_equations; lia.

Definition is_u32 (v : Z) : Prop := 0 <= v < 2 ^ 32.

(** * Sequence numbers

    Numbers [base + a] and [base + b], wrapped, compare as [a] and [b] when
    these are less than 2^31 apart. *)
Lemma wsub_wadd base a b :
  as_i32 (wsub (wadd base a) (wadd base b)) = as_i32 (wrap32 (a - b)).
Proof.
  unfold wsub, wadd, wrap32. f_equal. rewrite <- Zminus_mod. f_equal. lia.
Qed.

Lemma as_i32_wrap d : - 2 ^ 31 <= d < 2 ^ 31 -> as_i32 (wrap32 d) = d.
Proof. unfold as_i32, wrap32. intros. zb; dlia. Qed.

Section offsets.
Context (base a b : Z).
Hypothesis Hd : - 2 ^ 31 < a - b < 2 ^ 31.

Lemma seq_lt_offset : seq_lt (wadd base a) (wadd base b) = (a <? b).
Proof. unfold seq_lt. rewrite wsub_wadd, as_i32_wrap by lia. zb; lia || done. Qed.

Lemma seq_le_offset : seq_le (wadd base a) (wadd base b) = (a <=? b).
Proof. unfold seq_le. rewrite wsub_wadd, as_i32_wrap by lia. zb; lia || done. Qed.

Lemma seq_gt_offset : seq_gt (wadd base a) (wadd base b) = (b <? a).
Proof. unfold seq_gt. rewrite wsub_wadd, as_i32_wrap by lia. zb; lia || done. Qed.

Lemma seq_ge_offset : seq_ge (wadd base a) (wadd base b) = (b <=? a).
Proof. unfold seq_ge. rewrite wsub_wadd, as_i32_wrap by lia. zb; lia || done. Qed.
End offsets.

Lemma wadd_assoc x a b : wadd (wadd x a) b = wadd x (a + b).
Proof. unfold wadd, wrap32. rewrite Zplus_mod_idemp_l. f_equal. lia. Qed.

Lemma wsub_offset base a b : 0 <= a - b < 2 ^ 32 -> wsub (wadd base a) (wadd base b) = a - b.
Proof.
  intros. unfold wsub, wadd, wrap32. rewrite <- Zminus_mod.
  replace (base + a - (base + b)) with (a - b) by lia. by apply Z.mod_small.
Qed.

(** Membership in a window is distance from its left edge, at any size. *)
Lemma seq_in_window_spec seq left size :
  is_u32 seq -> is_u32 left -> is_u32 size ->
  seq_in_window seq left size = (wsub seq left <? size).
Proof.
  unfold is_u32, seq_in_window, seq_le, seq_ge, seq_lt, as_i32, wsub, wadd, wrap32. intros Hq Hl Hs.
  assert (0 <= (seq - left) mod 2 ^ 32 < 2 ^ 32) by (apply Z.mod_pos_bound; lia).
  set (d := (seq - left) mod 2 ^ 32) in *.
  assert ((seq - (left + size) mod 2 ^ 32) mod 2 ^ 32 = (d - size) mod 2 ^ 32) as ->.
  { subst d. rewrite Zminus_mod_idemp_r, Zminus_mod_idemp_l. f_equal. lia. }
  assert ((left - (left + size) mod 2 ^ 32) mod 2 ^ 32 = (- size) mod 2 ^ 32) as ->.
  { rewrite Zminus_mod_idemp_r. f_equal. lia. }
  assert ((d - size) mod 2 ^ 32 = if d <? size then d - size + 2 ^ 32 else d - size) as ->.
  { destruct (Z.ltb_spec d size).
    - symmetry. apply (Z.mod_unique_pos _ _ (-1)); lia.
    - apply Z.mod_small. lia. }
  destruct (Z.eqb_spec size 0); [destruct (Z.ltb_spec d size); [lia|done]|].
  assert ((- size) mod 2 ^ 32 = 2 ^ 32 - size) as ->.
  { symmetry. apply (Z.mod_unique_pos _ _ (-1)); lia. }
  zb; try done; lia.
Qed.

(** * Options *)
Lemma be32_split v : be32 (v / 256 / 256 / 256) (v / 256 / 256 mod 256) (v / 256 mod 256) (v mod 256) = v.
Proof. unfold be32. dlia. Qed.

Lemma be32_bytes_ok v : is_u32 v -> bytes_ok (be32_bytes v).
Proof.
  unfold is_u32, be32_bytes, is_byte. intros.
  repeat constructor; try (apply Z.mod_pos_bound; lia); dlia.
Qed.

Definition option_ok (o : TcpOptionKind) : Prop :=
  match o with
  | Mss m => is_u16 m
  | WindowScale s => is_byte s
  | Sack bs => Forall (fun b => is_u32 (left_edge b) /\ is_u32 (right_edge b)) bs
  | Timestamps v e => is_u32 v /\ is_u32 e
  | Unknown k len => is_byte k /\ is_byte len /\ k ∉ [0; 1; 2; 3; 4; 5; 8]
  | _ => True
  end.

Definition valid_block (b : SackBlock) : bool := seq_lt (left_edge b) (right_edge b).

(** What an option means to the receiver *)
Definition apply_option (x : TcpOptionKind) (o : TcpOptions) : TcpOptions :=
  match x with
  | Mss m => with_mss o (Z.max m TCP_DEFAULT_MSS)
  | WindowScale s => with_scale o (Z.min s TCP_MAX_WINDOW_SCALE)
  | SackPermitted => with_sack_permitted o
  | Sack bs =>
      with_blocks o (o_sack_blocks o ++ List.filter valid_block (take (4 - length (o_sack_blocks o)) bs))
  | Timestamps v e => with_timestamps o v e
  | EndOfList | Nop | Unknown _ _ => o
  end.

(** The options that fit, up to an end-of-list *)
Fixpoint options_meaning (options : list TcpOptionKind) (used : Z) (o : TcpOptions) : TcpOptions :=
  match options with
  | [] => o
  | x :: xs =>
      if 40 <? used + tcp_option_wire_len x then o else
      match x with
      | EndOfList => o
      | _ => options_meaning xs (used + tcp_option_wire_len x) (apply_option x o)
      end
  end.

Lemma zlen_concat_sack bs : zlen (concat (map sack_bytes bs)) = 8 * zlen bs.
Proof.
  induction bs as [|b bs IH]; [done|]. cbn [map concat]. rewrite zlen_app, IH.
  unfold zlen. cbn [length]. change (length (sack_bytes b)) with 8%nat. lia.
Qed.

Lemma write_tcp_option_len x : zlen (write_tcp_option x) = tcp_option_wire_len x.
Proof.
  destruct x; try done; cbn [write_tcp_option tcp_option_wire_len].
  - rewrite zlen_app, zlen_concat_sack. change (zlen [_; _]) with 2. f_equal. f_equal.
    unfold zlen, TCP_SACK_MAX_BLOCKS. rewrite length_take. lia.
  - rewrite zlen_app, zlen_replicate. change (zlen [_; _]) with 2. lia.
Qed.

Lemma option_wire_len_range x : option_ok x -> 1 <= tcp_option_wire_len x < 256.
Proof.
  destruct x; cbn; try lia.
  - pose proof (zlen_nonneg blocks). unfold TCP_SACK_MAX_BLOCKS. lia.
  - unfold is_byte. lia.
Qed.

Lemma write_tcp_option_bytes x : option_ok x -> bytes_ok (write_tcp_option x).
Proof.
  intros Hx. pose proof (option_wire_len_range x Hx) as Hlen.
  destruct x; cbn [write_tcp_option option_ok] in *.
  all: try (repeat constructor; done).
  - apply Forall_app. split; [repeat constructor; done|by apply be16_bytes_ok].
  - repeat constructor; unfold is_byte in *; lia.
  - apply Forall_app. split.
    + rewrite Z.mod_small by lia. repeat constructor; unfold is_byte; lia.
    + apply Forall_concat, Forall_map, Forall_take. eapply Forall_impl; [|exact Hx].
      intros b [Hl Hr]. apply Forall_app. by split; apply be32_bytes_ok.
  - destruct Hx as [Hv He]. rewrite !Forall_app. split; [repeat constructor; done|].
    by split; apply be32_bytes_ok.
  - destruct Hx as (Hk & _ & _). apply Forall_app. rewrite Z.mod_small by lia. split.
    + repeat constructor; unfold is_byte in *; lia.
    + apply Forall_replicate. done.
Qed.

Lemma u32_at_ok {E} p i :
  0 <= i -> i + 3 < zlen p ->
  @u32_at E p i = Ok (be32 (byte p i) (byte p (i + 1)) (byte p (i + 2)) (byte p (i + 3))).
Proof. intros. unfold u32_at. rewrite !at_ok by lia. done. Qed.

Lemma byte_app_r l x k : 0 <= k -> byte (l ++ x) (zlen l + k) = byte x k.
Proof.
  intros. unfold byte, zget, zlen. destruct (Z.ltb_spec (Z.of_nat (length l) + k) 0); [lia|].
  destruct (Z.ltb_spec k 0); [lia|]. rewrite lookup_app_r by lia. do 2 f_equal. lia.
Qed.

(** Reading the number that was written at [i] *)
Lemma u32_at_bytes {E} l v r i : i = zlen l -> @u32_at E (l ++ be32_bytes v ++ r) i = Ok v.
Proof.
  intros ->. pose proof (zlen_nonneg l). pose proof (zlen_nonneg r). rewrite u32_at_ok; [|lia|].
  - rewrite <- (Z.add_0_r (zlen l)) at 1. rewrite !byte_app_r by lia. f_equal. apply be32_split.
  - rewrite !zlen_app. change (zlen (be32_bytes v)) with 4. lia.
Qed.

Lemma u16_at_bytes {E} l v r i : i = zlen l -> @u16_at E (l ++ be16_bytes v ++ r) i = Ok v.
Proof.
  intros ->. pose proof (zlen_nonneg l). pose proof (zlen_nonneg r). rewrite u16_at_ok; [|lia|].
  - unfold word. rewrite <- (Z.add_0_r (zlen l)) at 1. rewrite !byte_app_r by lia. f_equal. apply be16_split.
  - rewrite !zlen_app. change (zlen (be16_bytes v)) with 2. lia.
Qed.

Lemma u16_at_first {E} v r : @u16_at E (be16_bytes v ++ r) 0 = Ok v.
Proof. by apply (u16_at_bytes []). Qed.

Lemma at_app {E} l x r i : i = zlen l -> @at_ E (l ++ x :: r) i = Ok x.
Proof.
  intros ->. pose proof (zlen_nonneg l). pose proof (zlen_nonneg r).
  rewrite at_ok by (rewrite zlen_app, zlen_cons; lia).
  rewrite <- (Z.add_0_r (zlen l)), byte_app_r by lia. done.
Qed.

Lemma read_blocks_spec bs count blocks rest :
  (count <= length bs)%nat -> (length blocks + count <= 4)%nat ->
  read_blocks count (concat (map sack_bytes bs) ++ rest) blocks =
    Ok (blocks ++ List.filter valid_block (take count bs)).
Proof.
  revert count blocks. induction bs as [|b bs IH]; intros count blocks Hc Hl.
  { assert (count = 0%nat) as -> by (simpl in Hc; lia). cbn. by rewrite app_nil_r. }
  destruct count as [|count]; [cbn; by rewrite app_nil_r|]. cbn [length] in Hc.
  cbn [map concat]. rewrite <- app_assoc. cbn [read_blocks].
  set (tl := concat (map sack_bytes bs) ++ rest).
  assert (8 <= zlen (sack_bytes b ++ tl)) as Hz.
  { rewrite zlen_app. change (zlen (sack_bytes b)) with 8. pose proof (zlen_nonneg tl). lia. }
  destruct (Z.ltb_spec (zlen (sack_bytes b ++ tl)) 8); [lia|].
  destruct b as [l r]. unfold sack_bytes in *. cbn [left_edge right_edge] in *. rewrite <- app_assoc in *.
  rewrite (u32_at_bytes [] l (be32_bytes r ++ tl)), (u32_at_bytes (be32_bytes l) r tl) by done.
  cbn [res_bind]. change (drop 8 (be32_bytes l ++ be32_bytes r ++ tl)) with tl.
  cbn [take List.filter]. change (valid_block (mkSack l r)) with (seq_lt l r).
  assert (zlen blocks < 4) by (unfold zlen; lia). unfold sack_push, TCP_SACK_MAX_BLOCKS.
  destruct (seq_lt l r).
  - destruct (Z.leb_spec 4 (zlen blocks)); [lia|]. unfold tl. rewrite IH.
    + by rewrite <- app_assoc.
    + lia.
    + rewrite length_app. cbn [length]. lia.
  - unfold tl. rewrite IH; [done|lia|lia].
Qed.

Lemma at_first {E} x l : @at_ E (x :: l) 0 = Ok x.
Proof. done. Qed.

Lemma at_second {E} x y l : @at_ E (x :: y :: l) 1 = Ok y.
Proof. done. Qed.

Lemma take_same {A} n m (l : list A) : (n = m \/ (length l <= n /\ length l <= m))%nat -> take n l = take m l.
Proof. intros [->|[? ?]]; [done|]. by rewrite !take_ge. Qed.

(** Reading one option takes it off the bytes and applies it. *)
Lemma parse_step_sack fuel bs o rest :
  (length (o_sack_blocks o) <= 4)%nat -> option_ok (Sack bs) ->
  parse_options (S fuel) (write_tcp_option (Sack bs) ++ rest) o =
  parse_options fuel rest (apply_option (Sack bs) o).
Proof.
  intros Ho Hx. pose proof (option_wire_len_range _ Hx) as Hlen.
  cbn [write_tcp_option]. rewrite Z.mod_small by lia. set (len := tcp_option_wire_len (Sack bs)) in *.
  set (bs4 := take (Z.to_nat TCP_SACK_MAX_BLOCKS) bs).
  assert (len = 2 + 8 * zlen bs4) as Hl4.
  { subst len bs4. cbn. unfold TCP_SACK_MAX_BLOCKS, zlen. rewrite length_take. lia. }
  set (body := concat (map sack_bytes bs4)).
  assert (zlen body = 8 * zlen bs4) as Hbody by apply zlen_concat_sack.
  pose proof (zlen_nonneg bs4). pose proof (zlen_nonneg rest).
  cbn [app]. cbn [parse_options]. rewrite !zlen_cons, zlen_app, Hbody.
  destruct (Z.eqb_spec (8 * zlen bs4 + zlen rest + 1 + 1) 0); [lia|].
  rewrite at_first. cbn [res_bind]. change (5 =? 0) with false. change (5 =? 1) with false.
  change (5 =? 2) with false. change (5 =? 3) with false. change (5 =? 4) with false. change (5 =? 5) with true.
  cbn match. destruct (Z.ltb_spec (8 * zlen bs4 + zlen rest + 1 + 1) 2); [lia|].
  rewrite at_second. cbn [res_bind].
  assert ((5 :: len :: body ++ rest) = ([5; len] ++ body) ++ rest) as Happ by (by rewrite <- app_assoc).
  assert (drop (Z.to_nat len) (5 :: len :: body ++ rest) = rest) as Hdrop.
  { rewrite Happ. apply drop_app_length'. rewrite length_app. unfold zlen in *. cbn [length]. lia. }
  destruct (Z.ltb_spec len 10) as [Hsmall|]; cbn [orb].
  - assert (zlen bs4 = 0) as Hz0 by lia. replace (Z.max len 2) with len by lia.
    destruct (Z.leb_spec len (8 * zlen bs4 + zlen rest + 1 + 1)); [|lia]. rewrite Hdrop.
    f_equal. assert (bs = []) as ->.
    { destruct bs; [done|]. subst bs4. unfold TCP_SACK_MAX_BLOCKS, zlen in Hz0. simpl in Hz0. lia. }
    destruct o. cbn. rewrite take_nil. cbn. by rewrite app_nil_r.
  - replace ((len - 2) mod 8) with 0 by dlia. cbn [Z.eqb negb].
    destruct (Z.ltb_spec (8 * zlen bs4 + zlen rest + 1 + 1) len); [lia|].
    change (drop 2 (5 :: len :: body ++ rest)) with (body ++ rest). unfold body.
    replace ((len - 2) / 8) with (zlen bs4) by dlia. unfold saturating_sub, TCP_SACK_MAX_BLOCKS.
    rewrite read_blocks_spec by (unfold zlen; lia). cbn [res_bind]. fold body. rewrite Hdrop. f_equal.
    cbn [apply_option]. do 3 f_equal. subst bs4. rewrite take_take. apply take_same.
    unfold zlen, TCP_SACK_MAX_BLOCKS. rewrite length_take. lia.
Qed.

Lemma parse_step fuel x o rest :
  (length (o_sack_blocks o) <= 4)%nat -> option_ok x -> x <> EndOfList ->
  parse_options (S fuel) (write_tcp_option x ++ rest) o = parse_options fuel rest (apply_option x o).
Proof.
  intros Ho Hx Hne. pose proof (zlen_nonneg rest). pose proof (option_wire_len_range x Hx) as Hlen.
  assert (zlen (write_tcp_option x ++ rest) = tcp_option_wire_len x + zlen rest) as Hz
    by (by rewrite zlen_app, write_tcp_option_len).
  destruct x as [| |m|s| |bs|v e|k n]; [done| | | | |by apply parse_step_sack| |].
  all: cbn [parse_options]; rewrite Hz; cbn [tcp_option_wire_len write_tcp_option app] in *.
  all: match goal with |- context [?a =? 0] => destruct (Z.eqb_spec a 0); [lia|] end.
  all: rewrite at_first; cbn [res_bind Z.eqb Pos.eqb].
  - done.
  - destruct (Z.leb_spec 4 (4 + zlen rest)); [|lia]. rewrite at_second. cbn [res_bind Z.eqb Pos.eqb].
    rewrite (u16_at_bytes [2; 4] m rest) by done. done.
  - destruct (Z.leb_spec 3 (3 + zlen rest)); [|lia]. done.
  - destruct (Z.leb_spec 2 (2 + zlen rest)); [|lia]. done.
  - destruct (Z.leb_spec 10 (10 + zlen rest)); [|lia]. rewrite at_second. cbn [res_bind Z.eqb Pos.eqb].
    rewrite <- app_assoc. change (8 :: 10 :: ?l) with ([8; 10] ++ l).
    rewrite (u32_at_bytes [8; 10] v (be32_bytes e ++ rest)) by done. cbn [res_bind].
    rewrite app_assoc, (u32_at_bytes ([8; 10] ++ be32_bytes v) e rest) by done. done.
  - destruct Hx as (Hk & Hn & Hnot). rewrite Z.mod_small in * by lia.
    rewrite !not_elem_of_cons in Hnot. destruct Hnot as (?&?&?&?&?&?&?&_).
    repeat match goal with |- context [k =? ?a] => destruct (Z.eqb_spec k a); [done|] end.
    destruct (Z.ltb_spec 1 (Z.max n 2 + zlen rest)); [|lia]. rewrite at_second. cbn [res_bind].
    destruct (Z.ltb_spec (Z.max n 2) 2); [lia|].
    destruct (Z.leb_spec (Z.max n 2) (Z.max n 2 + zlen rest)); [|lia]. f_equal.
    change (k :: Z.max n 2 :: ?l ++ rest) with ((k :: Z.max n 2 :: l) ++ rest).
    apply drop_app_length'. cbn [length]. rewrite length_replicate. lia.
Qed.

Lemma apply_option_blocks x o :
  (length (o_sack_blocks o) <= 4)%nat -> (length (o_sack_blocks (apply_option x o)) <= 4)%nat.
Proof.
  intros. destruct x; try done. cbn. rewrite length_app.
  pose proof (List.filter_length_le valid_block (take (4 - length (o_sack_blocks o)) blocks)) as Hf.
  rewrite length_take in Hf. lia.
Qed.

(** What the writing loop adds to the output *)
Fixpoint options_body (options : list TcpOptionKind) (used : Z) : list Z * bool :=
  match options with
  | [] => ([], false)
  | x :: xs =>
      if 40 <? used + tcp_option_wire_len x then ([], false) else
      match x with
      | EndOfList => (write_tcp_option x, true)
      | _ => let '(l, e) := options_body xs (used + tcp_option_wire_len x) in (write_tcp_option x ++ l, e)
      end
  end.

Lemma write_options_body options out :
  write_options options out =
    (out ++ (options_body options (zlen out)).1, (options_body options (zlen out)).2).
Proof.
  revert out. induction options as [|x xs IH]; intros out; cbn [write_options options_body].
  { by rewrite app_nil_r. }
  unfold TCP_HEADER_MAX_LEN, TCP_HEADER_MIN_LEN. change (60 - 20) with 40.
  destruct (40 <? zlen out + tcp_option_wire_len x); [cbn; by rewrite app_nil_r|].
  specialize (IH (out ++ write_tcp_option x)). rewrite zlen_app, write_tcp_option_len in IH.
  destruct (options_body xs (zlen out + tcp_option_wire_len x)) as [l e].
  destruct x; try done; rewrite IH; cbn [fst snd]; by rewrite <- app_assoc.
Qed.

Lemma options_body_len options used :
  0 <= used <= 40 -> Forall option_ok options ->
  zlen (options_body options used).1 <= 40 - used /\ bytes_ok (options_body options used).1.
Proof.
  revert used. induction options as [|x xs IH]; intros used Hu Hall; cbn [options_body];
    [split; [unfold zlen; simpl; lia|constructor]|].
  apply list.Forall_cons in Hall as [Hx Hxs]. pose proof (option_wire_len_range x Hx).
  destruct (Z.ltb_spec 40 (used + tcp_option_wire_len x));
    [split; [unfold zlen; simpl; lia|constructor]|].
  destruct (IH (used + tcp_option_wire_len x)) as [IH1 IH2]; [lia|done|].
  pose proof (write_tcp_option_bytes x Hx). pose proof (write_tcp_option_len x) as Hw.
  destruct (options_body xs (used + tcp_option_wire_len x)) as [l e].
  destruct x; cbn [fst] in *; rewrite ?zlen_app, ?Forall_app, ?Hw; split; try done; lia.
Qed.

Lemma parse_zeros fuel n o : parse_options (S fuel) (replicate n 0) o = Ok o.
Proof. by destruct n. Qed.

(** The written options, followed by padding, read back. *)
Lemma parse_options_body options used o fuel pad :
  Forall option_ok options -> (length (o_sack_blocks o) <= 4)%nat ->
  (length (options_body options used).1 < fuel)%nat ->
  parse_options fuel ((options_body options used).1 ++ replicate pad 0) o =
    Ok (options_meaning options used o).
Proof.
  revert used o fuel. induction options as [|x xs IH]; intros used o fuel Hall Ho Hf;
    cbn [options_body options_meaning] in *.
  { destruct fuel; [cbn in Hf; lia|]. apply parse_zeros. }
  apply list.Forall_cons in Hall as [Hx Hxs].
  destruct (40 <? used + tcp_option_wire_len x).
  { destruct fuel; [cbn in Hf; lia|]. apply parse_zeros. }
  destruct fuel as [|fuel]; [lia|].
  specialize (IH (used + tcp_option_wire_len x) (apply_option x o) fuel Hxs (apply_option_blocks x o Ho)).
  pose proof (option_wire_len_range x Hx). pose proof (write_tcp_option_len x) as Hw.
  destruct (options_body xs (used + tcp_option_wire_len x)) as [l e].
  assert (x = EndOfList \/ x <> EndOfList) as [->|Hne] by (destruct x; auto); [done|].
  assert ((length l < fuel)%nat -> parse_options (S fuel) ((write_tcp_option x ++ l) ++ replicate pad 0) o =
    Ok (options_meaning xs (used + tcp_option_wire_len x) (apply_option x o))) as Hstep.
  { intros Hl. rewrite <- app_assoc, parse_step by done. by apply IH. }
  destruct x; try done; apply Hstep; cbn [fst] in Hf; rewrite length_app in Hf;
    unfold zlen in Hw; lia.
Qed.

Lemma pad4 n : 0 <= n -> Z.land (n + 3) (Z.lnot 3) = (n + 3) / 4 * 4.
Proof.
  intros. change (Z.lnot 3) with (Z.lnot (Z.ones 2)). rewrite <- Z.ldiff_land, Z.ldiff_ones_r by lia.
  rewrite Z.shiftl_mul_pow2, Z.shiftr_div_pow2 by lia. done.
Qed.

(** The serialised options: their bytes, their length in words *)
Lemma serialize_spec options :
  Forall option_ok options ->
  exists pad, serialize_tcp_options options = (options_body options 0).1 ++ replicate pad 0 /\
    zlen (serialize_tcp_options options) <= 40 /\ zlen (serialize_tcp_options options) mod 4 = 0 /\
    bytes_ok (serialize_tcp_options options).
Proof.
  intros Hall. destruct (options_body_len options 0 ltac:(lia) Hall) as [Hl Hb].
  destruct options as [|x xs]; [by exists 0%nat|]. set (opts := x :: xs) in *.
  assert (serialize_tcp_options opts =
    (let '(out, has_end) := write_options opts [] in
     let out := if negb has_end && (zlen out <? 40) then out ++ [0] else out in
     out ++ replicate (Z.to_nat (Z.land (zlen out + 3) (Z.lnot 3) - zlen out)) 0)) as -> by done.
  rewrite write_options_body. cbn [app]. change (zlen []) with 0.
  destruct (options_body opts 0) as [body e]. cbn [fst snd] in *. pose proof (zlen_nonneg body).
  assert (exists k, (if negb e && (zlen body <? 40) then body ++ [0] else body) = body ++ replicate k 0 /\
    zlen body + Z.of_nat k <= 40) as (k & -> & Hk).
  { destruct (negb e && (zlen body <? 40)) eqn:Hc.
    - exists 1%nat. apply andb_true_iff in Hc as [_ ?%Z.ltb_lt]. split; [done|lia].
    - exists 0%nat. split; [by rewrite app_nil_r|lia]. }
  rewrite zlen_app, zlen_replicate, pad4 by lia. set (n := zlen body + Z.of_nat k) in *.
  assert (0 <= (n + 3) / 4 * 4 - n < 4) by dlia.
  exists (k + Z.to_nat ((n + 3) / 4 * 4 - n))%nat.
  split; [by rewrite replicate_add, app_assoc|].
  rewrite !zlen_app, !zlen_replicate, !Forall_app.
  replace (zlen body + Z.of_nat k) with n by done.
  split; [dlia|]. split; [dlia|]. split; [split; [done|]|]; apply Forall_replicate; done.
Qed.

(** * Segments *)
Record tcp_header_ok (h : TcpHeader) : Prop := {
  th_ports : is_u16 (t_src_port h) /\ is_u16 (t_dst_port h);
  th_seq : is_u32 (seq_num h) /\ is_u32 (ack_num h);
  th_offset : 5 <= data_offset h <= 15;
  th_reserved : reserved h = 0;
  th_flags : is_byte (t_flags h);
  th_words : is_u16 (t_window h) /\ is_u16 (t_checksum h) /\ is_u16 (urgent_ptr h);
}.

Lemma tcp_to_bytes_ok h : tcp_header_ok h -> bytes_ok (tcp_to_bytes h).
Proof.
  intros [[? ?] [? ?] Ho Hr Hf (? & ? & ?)]. unfold tcp_to_bytes. rewrite !Forall_app, Hr.
  split_and!; try (by apply be16_bytes_ok); try (by apply be32_bytes_ok).
  change (Z.land 0 15) with 0. rewrite Z.lor_0_r, Z.shiftl_mul_pow2 by lia.
  constructor; [apply Z.mod_pos_bound; lia|]. by repeat constructor; destruct Hf.
Qed.

Lemma offset_byte off : 5 <= off <= 15 ->
  Z.land (Z.shiftr (Z.lor (Z.shiftl off 4 mod 256) (Z.land 0 15)) 4) 15 = off /\
  Z.land (Z.lor (Z.shiftl off 4 mod 256) (Z.land 0 15)) 15 = 0.
Proof.
  intros. change (Z.land 0 15) with 0. rewrite Z.lor_0_r, Z.shiftl_mul_pow2, Z.shiftr_div_pow2 by lia.
  change 15 with (Z.ones 4). rewrite !Z.land_ones by lia. change (2 ^ 4) with 16. dlia.
Qed.

Lemma zlen_tcp_to_bytes h : zlen (tcp_to_bytes h) = 20.
Proof. done. Qed.

Lemma parse_tcp_bytes h tail :
  tcp_header_ok h -> tcp_header_len h <= 20 + zlen tail ->
  parse_tcp_header (tcp_to_bytes h ++ tail) = Ok h.
Proof.
  intros [? ? Ho Hr ? ?] Hl. pose proof (zlen_nonneg tail). unfold parse_tcp_header, TCP_HEADER_MIN_LEN.
  assert (zlen (tcp_to_bytes h ++ tail) = 20 + zlen tail) as -> by (by rewrite zlen_app).
  destruct (Z.ltb_spec (20 + zlen tail) 20); [lia|].
  destruct (offset_byte (data_offset h) Ho) as [Hoff Hres].
  destruct h as [sp dp seq ack off rsv flags win ck urg]. unfold tcp_header_len in Hl.
  cbn [data_offset reserved] in *. subst rsv. unfold tcp_to_bytes.
  cbn [t_src_port t_dst_port seq_num ack_num data_offset reserved t_flags t_window t_checksum urgent_ptr].
  set (b12 := Z.lor _ _) in *. rewrite <- !app_assoc.
  rewrite u16_at_first. cbn [res_bind].
  rewrite (u16_at_bytes (be16_bytes sp) dp) by done. cbn [res_bind].
  rewrite app_assoc, (u32_at_bytes (be16_bytes sp ++ be16_bytes dp) seq) by done. cbn [res_bind].
  rewrite app_assoc, (u32_at_bytes ((be16_bytes sp ++ be16_bytes dp) ++ be32_bytes seq) ack) by done.
  cbn [res_bind]. rewrite app_assoc. set (pre := ((be16_bytes sp ++ be16_bytes dp) ++ _) ++ _).
  change ([b12; flags] ++ ?l) with (b12 :: flags :: l).
  rewrite (at_app pre b12) by done. cbn [res_bind]. rewrite Hoff, Hres.
  change (pre ++ b12 :: flags :: ?l) with (pre ++ [b12] ++ (flags :: l)). rewrite app_assoc.
  rewrite (at_app (pre ++ [b12]) flags) by done. cbn [res_bind].
  change ((pre ++ [b12]) ++ flags :: ?l) with ((pre ++ [b12]) ++ [flags] ++ l). rewrite app_assoc.
  rewrite (u16_at_bytes ((pre ++ [b12]) ++ [flags]) win) by done. cbn [res_bind].
  rewrite app_assoc, (u16_at_bytes (((pre ++ [b12]) ++ [flags]) ++ be16_bytes win) ck) by done.
  cbn [res_bind]. rewrite app_assoc.
  rewrite (u16_at_bytes ((((pre ++ [b12]) ++ [flags]) ++ be16_bytes win) ++ be16_bytes ck) urg) by done.
  cbn [res_bind]. destruct (Z.ltb_spec off 5); [lia|]. destruct (Z.ltb_spec (20 + zlen tail) (off * 4)); [lia|].
  done.
Qed.

Lemma tcp_checksum_exact src dst seg :
  addr_ok src -> addr_ok dst -> bytes_ok seg -> zlen seg <= 65535 ->
  try_compute_tcp_checksum src dst seg =
    Ok (finish_sum (addr_sum src + addr_sum dst + 6 + zlen seg + wsum seg)).
Proof.
  intros Hs Hd Hg Hl. pose proof (addr_sum_range src Hs). pose proof (addr_sum_range dst Hd).
  pose proof (wsum_small seg Hg ltac:(lia)). pose proof (zlen_nonneg seg).
  unfold try_compute_tcp_checksum. destruct (Z.ltb_spec 65535 (zlen seg)); [lia|].
  unfold calculate_checksum_with_pseudo. set (pseudo := octets src ++ _).
  assert (wsum pseudo = addr_sum src + addr_sum dst + 6 + zlen seg) as Hp.
  { unfold pseudo, octets, be16_bytes, addr_sum. cbn [app wsum]. rewrite be16_split.
    change (be16 0 TCP_PROTO) with 6. lia. }
  rewrite (add_words_wsum pseudo 0), Hp, Z.add_0_l, wrap32_id by (done || lia).
  by rewrite add_words_exact by (done || lia).
Qed.

Definition set_checksum (h : TcpHeader) (c : Z) : TcpHeader :=
  mkTcp (t_src_port h) (t_dst_port h) (seq_num h) (ack_num h) (data_offset h) (reserved h)
    (t_flags h) (t_window h) c (urgent_ptr h).

Lemma put_checksum h tail c :
  t_checksum h = 0 ->
  put16 (tcp_to_bytes h ++ tail) 16 (c / 256) (c mod 256) = tcp_to_bytes (set_checksum h c) ++ tail.
Proof. done. Qed.

(** Filling in the checksum makes the segment verify. *)
Lemma tcp_segment_verifies src dst h tail c :
  addr_ok src -> addr_ok dst -> tcp_header_ok h -> t_checksum h = 0 -> bytes_ok tail ->
  20 + zlen tail <= 65535 ->
  try_compute_tcp_checksum src dst (tcp_to_bytes h ++ tail) = Ok c ->
  is_u16 c /\ verify_tcp_checksum src dst (tcp_to_bytes (set_checksum h c) ++ tail) = true.
Proof.
  intros Hs Hd Hh Hc0 Ht Hl Hc. pose proof (zlen_nonneg tail).
  pose proof (addr_sum_range src Hs). pose proof (addr_sum_range dst Hd).
  set (seg := tcp_to_bytes h ++ tail) in *.
  assert (bytes_ok seg) as Hseg by (apply Forall_app; split; [by apply tcp_to_bytes_ok|done]).
  assert (zlen seg = 20 + zlen tail) as Hz by (unfold seg; by rewrite zlen_app).
  pose proof (wsum_small seg Hseg ltac:(lia)).
  rewrite tcp_checksum_exact in Hc by (done || lia).
  set (s := addr_sum src + addr_sum dst + 6 + zlen seg + wsum seg) in *.
  assert (c = finish_sum s) as -> by congruence. clear Hc.
  assert (is_u16 (finish_sum s)) as Hu by (apply finish_sum_range; lia). split; [done|].
  unfold verify_tcp_checksum. rewrite <- put_checksum by done. fold seg.
  rewrite tcp_checksum_exact; [|done|done| |by rewrite zlen_put16, Hz].
  - assert (zget seg 16 = Some 0 /\ zget seg (16 + 1) = Some 0) as [Hz0 Hz1].
    { change (zget seg 16) with (Some (t_checksum h / 256)).
      change (zget seg (16 + 1)) with (Some (t_checksum h mod 256)). by rewrite Hc0. }
    rewrite zlen_put16, wsum_put16, be16_split by (done || lia).
    apply Z.eqb_eq. match goal with |- finish_sum ?x = 0 =>
      replace x with (s + finish_sum s) by (unfold s at 1; lia) end.
    apply finish_sum_insert; lia.
  - pose proof (be16_bytes_ok _ Hu) as Hb. unfold be16_bytes in Hb.
    rewrite !list.Forall_cons in Hb. apply bytes_ok_put16; tauto.
Qed.

(** ** Building *)
Lemma tcp_build_spec `{heap : WireHeap} src dst sp dp seq ack flags window options payload :
  addr_ok src -> addr_ok dst -> is_u16 sp -> is_u16 dp -> is_u32 seq -> is_u32 ack -> is_byte flags ->
  is_u16 window -> Forall option_ok options -> bytes_ok payload ->
  let opts := serialize_tcp_options options in
  let size := 20 + zlen opts + zlen payload in
  let h c := mkTcp sp dp seq ack (5 + zlen opts / 4) 0 flags window c 0 in
  match try_build_tcp_segment_with_options src dst sp dp seq ack flags window options payload with
  | Ok w => exists c, size <= 65535 /\ wire_admitted (80 + size) = true /\ is_u16 c /\
      as_slice w = tcp_to_bytes (h c) ++ opts ++ payload /\ verify_tcp_checksum src dst (as_slice w) = true
  | Err SegmentTooLong => 65535 < size
  | Err AllocationFailed => wire_admitted (80 + size) = false
  | _ => False
  end.
Proof.
  intros Hs Hd Hsp Hdp Hseq Hack Hfl Hw Hopt Hp opts size h. destruct (serialize_spec options Hopt) as (_ & _ & Hol & Hom & Hob).
  fold opts in Hol, Hom, Hob. pose proof (zlen_nonneg opts). pose proof (zlen_nonneg payload).
  unfold try_build_tcp_segment_with_options, TCP_HEADER_MAX_LEN, TCP_HEADER_MIN_LEN. fold opts.
  destruct (Z.ltb_spec 60 (20 + zlen opts)); [lia|].
  replace ((20 + zlen opts) / 4 mod 256) with (5 + zlen opts / 4) by dlia.
  cbn [tcp_header_new t_src_port t_dst_port seq_num ack_num reserved t_flags t_window t_checksum urgent_ptr].
  fold (h 0). unfold checked_add. replace (20 + zlen opts + zlen payload) with size by done.
  destruct (Z.leb_spec size usize_max); cbn [ok_or res_bind]; [|unfold usize_max, u64_max in *; lia].
  destruct (Z.ltb_spec 65535 size); [done|].
  destruct (wire_admitted (80 + size)) eqn:Ha; cycle 1.
  { unfold try_zeroed, WIRE_ENCAPSULATION_HEADROOM, checked_add. destruct (Z.eqb_spec size 0); [lia|].
    destruct (Z.leb_spec (80 + size) usize_max); [|unfold usize_max, u64_max in *; lia]. cbn [ok_or res_bind]. by rewrite Ha. }
  destruct (try_zeroed_admitted size) as [w0 Hw0]; [lia|unfold usize_max, u64_max; lia|done|].
  rewrite Hw0. cbn [map_err res_bind].
  assert (forall c, is_u16 c -> tcp_header_ok (h c)) as Hh
    by (intros c Hc; constructor; cbn; try done; split_and?; try done; dlia).
  assert (bytes_ok (opts ++ payload)) as Htail by (apply Forall_app; done).
  assert (bytes_ok (tcp_to_bytes (h 0) ++ opts ++ payload)) as Hseg
    by (apply Forall_app; split; [apply tcp_to_bytes_ok, Hh; done|done]).
  assert (forall c, zlen (tcp_to_bytes (h c) ++ opts ++ payload) = size) as Hlen
    by (intros c; rewrite !zlen_app, zlen_tcp_to_bytes; lia).
  rewrite tcp_checksum_exact by (done || rewrite Hlen; lia). cbn [res_bind]. set (c := finish_sum _).
  destruct (tcp_segment_verifies src dst (h 0) (opts ++ payload) c) as [Hc Hver]; try done.
  { by apply Hh. } { rewrite zlen_app. lia. } { apply tcp_checksum_exact; try done. rewrite Hlen. lia. }
  change (zset (zset ?l 16 ?a) 17 ?b) with (put16 l 16 a b).
  rewrite (put_checksum (h 0) (opts ++ payload) c) by done.
  destruct (@zeroed_fill heap TcpError size w0 (tcp_to_bytes (set_checksum (h 0) c) ++ opts ++ payload) Hw0)
    as (w & -> & Hsl & _ & _); [by apply (Hlen c)|].
  exists c. by rewrite Hsl.
Qed.

(** ** Any bytes *)
Lemma read_blocks_total count l blocks :
  (length blocks <= 4)%nat -> exists blocks', read_blocks count l blocks = Ok blocks' /\ (length blocks' <= 4)%nat.
Proof.
  revert l blocks. induction count as [|count IH]; intros l blocks Hb; cbn [read_blocks]; [eauto|].
  destruct (Z.ltb_spec (zlen l) 8); [eauto|]. rewrite !u32_at_ok by lia. cbn [res_bind]. apply IH.
  destruct (seq_lt _ _); [|done]. unfold sack_push, TCP_SACK_MAX_BLOCKS, zlen.
  destruct (Z.leb_spec 4 (Z.of_nat (length blocks))); [done|]. rewrite length_app. cbn [length]. lia.
Qed.

(** One turn of the option loop either ends it or goes on with less. *)
Lemma parse_options_total fuel l o :
  (length l < fuel)%nat -> (length (o_sack_blocks o) <= 4)%nat ->
  exists o', parse_options fuel l o = Ok o' /\ (length (o_sack_blocks o') <= 4)%nat.
Proof.
  revert l o. induction fuel as [|fuel IH]; intros l o Hf Ho; [lia|]. cbn [parse_options].
  destruct (Z.eqb_spec (zlen l) 0) as [|Hne]; [eauto|]. pose proof (zlen_nonneg l).
  assert (forall k o', 1 <= k -> (length (o_sack_blocks o') <= 4)%nat ->
    exists o'', parse_options fuel (drop (Z.to_nat k) l) o' = Ok o'' /\ (length (o_sack_blocks o'') <= 4)%nat) as Hgo
    by (intros k o' Hk Ho'; apply IH; [rewrite length_drop; unfold zlen in *; lia|done]).
  rewrite at_ok by lia. cbn [res_bind]. set (kind := byte l 0).
  repeat match goal with
  | |- context [kind =? ?k] => destruct (kind =? k); [try (by eauto)|]
  end.
  - apply (Hgo 1); [lia|done].
  - destruct (Z.leb_spec 4 (zlen l)); [|eauto]. rewrite at_ok, u16_at_ok by lia. cbn [res_bind].
    destruct (_ =? _); [|eauto]. apply (Hgo 4); [lia|done].
  - destruct (Z.leb_spec 3 (zlen l)); [|eauto]. rewrite !at_ok by lia. cbn [res_bind].
    destruct (_ =? _); [|eauto]. apply (Hgo 3); [lia|done].
  - destruct (Z.leb_spec 2 (zlen l)); [|eauto]. rewrite at_ok by lia. cbn [res_bind].
    destruct (_ =? _); [|eauto]. apply (Hgo 2); [lia|done].
  - destruct (Z.ltb_spec (zlen l) 2); [eauto|]. rewrite at_ok by lia. cbn [res_bind]. set (len := byte l 1).
    destruct (_ || _) eqn:Hlen.
    + destruct (Z.max len 2 <=? zlen l); [|eauto]. apply Hgo; [lia|done].
    + apply orb_false_iff in Hlen as [?%Z.ltb_ge _]. destruct (zlen l <? len); [eauto|].
      match goal with |- context [read_blocks ?c ?x ?b] => destruct (read_blocks_total c x b Ho) as (bs & -> & Hbs) end.
      cbn [res_bind]. apply Hgo; [lia|done].
  - destruct (Z.leb_spec 10 (zlen l)); [|eauto]. rewrite at_ok, !u32_at_ok by lia. cbn [res_bind].
    destruct (_ =? _); [|eauto]. apply (Hgo 10); [lia|done].
  - destruct (Z.ltb_spec 1 (zlen l)); [|eauto]. rewrite at_ok by lia. cbn [res_bind].
    destruct (Z.ltb_spec (byte l 1) 2); [eauto|]. destruct (_ <=? _); [|eauto]. apply Hgo; [lia|done].
Qed.

Lemma parse_header_cases data :
  match parse_tcp_header data with
  | Ok h => 5 <= data_offset h <= 15 /\ tcp_header_len h <= zlen data
  | Err TcpTruncated | Err InvalidHeaderLen => True
  | _ => False
  end.
Proof.
  unfold parse_tcp_header, TCP_HEADER_MIN_LEN. destruct (Z.ltb_spec (zlen data) 20); [done|].
  rewrite !u16_at_ok, !u32_at_ok, !at_ok by lia. cbn [res_bind].
  destruct (Z.ltb_spec (Z.land (Z.shiftr (byte data 12) 4) 15) 5); [done|].
  destruct (Z.ltb_spec (zlen data) (Z.land (Z.shiftr (byte data 12) 4) 15 * 4)); [done|].
  unfold tcp_header_len. cbn [data_offset].
  assert (Z.land (Z.shiftr (byte data 12) 4) 15 = Z.shiftr (byte data 12) 4 mod 16) as Hm
    by (change 15 with (Z.ones 4); by rewrite Z.land_ones by lia).
  pose proof (Z.mod_pos_bound (Z.shiftr (byte data 12) 4) 16 ltac:(lia)). lia.
Qed.

Lemma parse_tcp_options_total data h :
  5 <= data_offset h <= 15 ->
  exists o, parse_tcp_options data h = Ok o /\ (length (o_sack_blocks o) <= 4)%nat.
Proof.
  intros Hh. unfold parse_tcp_options, TCP_HEADER_MIN_LEN, tcp_header_len.
  destruct (_ || _) eqn:Hc; [exists options_default; split; [done|cbn; lia]|].
  apply orb_false_iff in Hc as [?%Z.leb_gt ?%Z.ltb_ge]. rewrite slice_ok by lia. cbn [res_bind].
  apply parse_options_total; [lia|cbn; lia].
Qed.
