(* ===== verification/TcpConn.v ===== *)
(** TCP connections (src/kernel/net/src/tcp.rs): acknowledgement processing,
    round-trip estimation, congestion control, the SACK scoreboard and the
    out-of-order receive queue.

    The fields of [TcpControlBlock] are grouped as its comments group them;
    those no operation here reads or writes are left out. *)

From Stdlib Require Import ZArith Lia.
From stdpp Require Import base list list_numbers numbers sorting.
From S2P Require Import Prelude Machine Wire Tcp.

(** * The sending side *)
Inductive TcpCongestionState := SlowStart | CongestionAvoidance | FastRecovery.

Inductive CongestionAction := NoAction | FastRetransmit | LimitedTransmit | RetransmitNext.

(** The retry fields of a segment, [retransmit_pending] to [retry_not_before_ms] *)
Record Retry := mkRetry {
  pending : bool; in_flight : bool; requires_rto : bool; tx_reject_count : Z; retry_not_before_ms : Z;
}.

Record TcpSegment := mkSeg {
  s_seq : Z; s_data : list Z; sent_at : Z; retrans_count : Z; sacked : bool; lost : bool; retry : Retry;
}.

Record SendSpace := mkSend {
  snd_una : Z; snd_nxt : Z; snd_wnd : Z; snd_mss : Z; highest_sacked : Z;
  send_buffer : list TcpSegment; send_buffer_bytes : Z;
}.

Record Congestion := mkCong {
  cwnd : Z; ssthresh : Z; dup_ack_count : Z; congestion_state : TcpCongestionState; recover : Z;
}.

Record Timing := mkTiming {
  rto_ms : Z; srtt_us : Z; rttvar_us : Z; retries : Z; last_activity : Z;
  keepalive_probes_sent : Z; peer_ack_generation : Z;
}.

Record Sender := mkSender { snd : SendSpace; cong : Congestion; tim : Timing }.

Definition TCP_INITIAL_SSTHRESH : Z := 64 * 1024.
Definition TCP_INITIAL_RTO_MS : Z := 1000.
Definition TCP_MIN_RTO_MS : Z := 1000.
Definition TCP_MAX_RTO_MS : Z := 120000.

Definition initial_cwnd (smss : Z) : Z :=
  Z.min (sat_mul32 smss 4) (Z.max (sat_mul32 smss 2) 4380).

Definition bytes_in_flight (s : SendSpace) : Z := wsub (snd_nxt s) (snd_una s).

Definition send_window_available (t : Sender) : Z :=
  let effective_wnd := Z.min (snd_wnd (snd t)) (Z.max (cwnd (cong t)) (snd_mss (snd t))) in
  saturating_sub effective_wnd (bytes_in_flight (snd t)).

Definition seg_end (s : TcpSegment) : Z := wadd (s_seq s) (wrap32 (zlen (s_data s))).

(** ** Round-trip time *)
Definition RTO_CLOCK_GRANULARITY_US : Z := 100000.

Definition update_rtt (t : Timing) (sample_us : Z) : Timing :=
  if (sample_us =? 0) || (600000000 <? sample_us) then t else
  let '(srtt, rttvar) :=
    if srtt_us t =? 0 then (sample_us, sample_us / 2)
    else
      let rtt_err := if sample_us <? srtt_us t then srtt_us t - sample_us else sample_us - srtt_us t in
      ((7 * srtt_us t + sample_us) / 8, (3 * rttvar_us t + rtt_err) / 4) in
  let variance_term := saturating_mul 4 rttvar in
  let rto_us := saturating_add srtt (Z.max RTO_CLOCK_GRANULARITY_US variance_term) in
  mkTiming (Z.min (Z.max (rto_us / 1000) TCP_MIN_RTO_MS) TCP_MAX_RTO_MS) srtt rttvar
    (retries t) (last_activity t) (keepalive_probes_sent t) (peer_ack_generation t).

(** ** Acknowledgements *)
Record AckUpdate := mkAck { newly_acked : Z; duplicate : bool }.

(** The loop that takes acknowledged segments off the buffer *)
Fixpoint pop_acked (buf : list TcpSegment) (bytes ack_num now_ms : Z) (rtt_sampled : bool) (t : Timing)
  : list TcpSegment * Z * Timing :=
  match buf with
  | [] => ([], bytes, t)
  | seg :: buf' =>
      if negb (seq_ge ack_num (seg_end seg)) then (buf, bytes, t) else
      let bytes := saturating_sub bytes (zlen (s_data seg)) in
      if negb rtt_sampled && (retrans_count seg =? 0) then
        let rtt_us := saturating_mul (saturating_sub now_ms (sent_at seg)) 1000 in
        pop_acked buf' bytes ack_num now_ms true (update_rtt t rtt_us)
      else pop_acked buf' bytes ack_num now_ms rtt_sampled t
  end.

Definition handle_ack (ack_num now_ms : Z) (t : Sender) : AckUpdate * Sender :=
  let s := snd t in
  if seq_gt ack_num (snd_nxt s) then (mkAck 0 false, t) else
  let tm := mkTiming (rto_ms (tim t)) (srtt_us (tim t)) (rttvar_us (tim t)) (retries (tim t)) now_ms 0
              (peer_ack_generation (tim t)) in
  if seq_gt ack_num (snd_una s) then
    let tm := mkTiming (rto_ms tm) (srtt_us tm) (rttvar_us tm) (retries tm) (last_activity tm)
                (keepalive_probes_sent tm) ((peer_ack_generation tm + 1) mod 2 ^ 64) in
    let newly := wsub ack_num (snd_una s) in
    let '(buf, bytes, tm) := pop_acked (send_buffer s) (send_buffer_bytes s) ack_num now_ms false tm in
    (mkAck newly false,
     mkSender (mkSend ack_num (snd_nxt s) (snd_wnd s) (snd_mss s) (highest_sacked s) buf bytes) (cong t)
       (mkTiming (rto_ms tm) (srtt_us tm) (rttvar_us tm) 0 (last_activity tm)
          (keepalive_probes_sent tm) (peer_ack_generation tm)))
  else (mkAck 0 (ack_num =? snd_una s), mkSender s (cong t) tm).

(** ** Congestion control *)
Definition update_congestion_control (acked_bytes : Z) (duplicate_ack : bool) (ack_num : Z) (t : Sender)
  : CongestionAction * Sender :=
  let c := cong t in
  let mss := snd_mss (snd t) in
  let put c := mkSender (snd t) c (tim t) in
  if 0 <? acked_bytes then
    match congestion_state c with
    | SlowStart =>
        let growth := Z.max (Z.min acked_bytes mss) 1 in
        let w := sat_add32 (cwnd c) growth in
        (NoAction, put (mkCong w (ssthresh c) 0
           (if ssthresh c <=? w then CongestionAvoidance else SlowStart) (recover c)))
    | CongestionAvoidance =>
        let increment := sat_mul32 mss mss / Z.max (cwnd c) 1 in
        (NoAction, put (mkCong (sat_add32 (cwnd c) (Z.max increment 1)) (ssthresh c) 0
           CongestionAvoidance (recover c)))
    | FastRecovery =>
        if seq_ge ack_num (recover c) then
          (NoAction, put (mkCong (Z.max (ssthresh c) mss) (ssthresh c) 0 CongestionAvoidance (recover c)))
        else
          (RetransmitNext,
           put (mkCong (Z.max (saturating_sub (sat_add32 (ssthresh c) (3 * mss)) acked_bytes) mss)
                  (ssthresh c) 0 FastRecovery (recover c)))
    end
  else if duplicate_ack then
    let dups := Z.min (dup_ack_count c + 1) 255 in
    let inflate :=
      match congestion_state c with
      | FastRecovery =>
          if 0 <? dups
          then mkCong (sat_add32 (cwnd c) mss) (ssthresh c) dups FastRecovery (recover c)
          else mkCong (cwnd c) (ssthresh c) dups FastRecovery (recover c)
      | st => mkCong (cwnd c) (ssthresh c) dups st (recover c)
      end in
    match congestion_state c with
    | FastRecovery => (NoAction, put inflate)
    | st =>
        if (dups <=? 2) && (sat_add32 (bytes_in_flight (snd t)) mss <=? sat_add32 (cwnd c) (2 * mss))
        then (LimitedTransmit, put (mkCong (cwnd c) (ssthresh c) dups st (recover c)))
        else if dups =? 3 then
          let flight := Z.max (bytes_in_flight (snd t)) mss in
          let thresh := Z.max (flight / 2) (2 * mss) in
          (FastRetransmit, put (mkCong (sat_add32 thresh (3 * mss)) thresh dups FastRecovery (snd_nxt (snd t))))
        else (NoAction, put inflate)
    end
  else (NoAction, t).

Definition handle_retransmission_timeout (t : Sender) : Sender :=
  let mss := snd_mss (snd t) in
  let flight := Z.max (bytes_in_flight (snd t)) mss in
  mkSender (snd t) (mkCong mss (Z.max (flight / 2) (2 * mss)) 0 SlowStart (snd_nxt (snd t))) (tim t).

(** [for _ in 1..idle_rtos]: halve down to the floor. A window of 32 bits
    reaches its floor within [DECAY_ROUNDS] rounds. *)
Definition DECAY_ROUNDS : nat := 33.

Fixpoint decay (rounds : nat) (w floor : Z) : Z :=
  match rounds with
  | O => w
  | S rounds => if w <=? floor then w else decay rounds (Z.max (w / 2) floor) floor
  end.

Definition validate_cwnd_after_idle (now_ms : Z) (t : Sender) : Sender :=
  let c := cong t in
  let mss := snd_mss (snd t) in
  if (last_activity (tim t) =? 0) || (rto_ms (tim t) =? 0) then t else
  if 0 <? bytes_in_flight (snd t) then t else
  let idle_ms := saturating_sub now_ms (last_activity (tim t)) in
  if idle_ms <? rto_ms (tim t) then t else
  let idle_rtos := idle_ms / rto_ms (tim t) in
  let w := Z.min (cwnd c) (initial_cwnd mss) in
  let w := if (1 <? idle_rtos) && (ssthresh c <? w)
           then decay (Z.to_nat (Z.min (idle_rtos - 1) (Z.of_nat DECAY_ROUNDS))) w
                  (Z.max (Z.max (ssthresh c) mss) 1)
           else w in
  if w <? cwnd c
  then mkSender (snd t) (mkCong w (ssthresh c) (dup_ack_count c)
         (if w <=? ssthresh c then SlowStart else congestion_state c) (recover c)) (tim t)
  else t.

(** ** The SACK scoreboard *)

(** Phase 1: a block clamped to the data in flight, as offsets from [snd_una] *)
Definition clamp_block (s : SendSpace) (b : SackBlock) : option (Z * Z) :=
  let left := if seq_lt (left_edge b) (snd_una s) then snd_una s else left_edge b in
  let right := if seq_gt (right_edge b) (snd_nxt s) then snd_nxt s else right_edge b in
  if negb (seq_gt right left) then None
  else Some (wsub left (snd_una s), wsub right (snd_una s)).

(** Phase 2: [sort_by_key] on the left edge, then merge neighbours *)
Fixpoint insert_by_left (b : Z * Z) (l : list (Z * Z)) : list (Z * Z) :=
  match l with
  | [] => [b]
  | x :: l => if b.1 <=? x.1 then b :: x :: l else x :: insert_by_left b l
  end.
Definition sort_by_left (l : list (Z * Z)) : list (Z * Z) := foldr insert_by_left [] l.

(** The merged blocks, the last one first *)
Fixpoint merge_blocks (l acc : list (Z * Z)) : list (Z * Z) :=
  match l with
  | [] => rev acc
  | (a, b) :: l =>
      match acc with
      | (la, lb) :: acc' =>
          if a <=? lb then merge_blocks l ((la, if lb <? b then b else lb) :: acc')
          else merge_blocks l ((a, b) :: acc)
      | [] => merge_blocks l [(a, b)]
      end
  end.

(** Phase 3 *)
Fixpoint raise_highest (una : Z) (merged : list (Z * Z)) (highest : Z) : Z :=
  match merged with
  | [] => highest
  | (_, r) :: merged =>
      let right := wadd una r in
      raise_highest una merged (if seq_gt right highest then right else highest)
  end.

(** Phase 4: one sweep over the buffer; [blocks] are those from [bi] on. *)
Fixpoint skip_blocks (blocks : list (Z * Z)) (left : Z) : list (Z * Z) :=
  match blocks with
  | [] => []
  | (a, b) :: rest => if b <=? left then skip_blocks rest left else blocks
  end.

Definition mark_sacked (seg : TcpSegment) : TcpSegment :=
  mkSeg (s_seq seg) (s_data seg) (sent_at seg) (retrans_count seg) true false (retry seg).

Fixpoint sweep (una : Z) (blocks : list (Z * Z)) (buf : list TcpSegment) : list TcpSegment :=
  match buf with
  | [] => []
  | seg :: buf =>
      let l := wsub (s_seq seg) una in
      let r := wsub (seg_end seg) una in
      let blocks := skip_blocks blocks l in
      let seg' := match blocks with
                  | (bl, br) :: _ => if (bl <=? l) && (r <=? br) then mark_sacked seg else seg
                  | [] => seg
                  end in
      seg' :: sweep una blocks buf
  end.

Definition process_sack_blocks (blocks : SackBlocks) (s : SendSpace) : SendSpace :=
  let rel := omap (clamp_block s) (take (Z.to_nat TCP_SACK_MAX_BLOCKS) blocks) in
  match rel with
  | [] => s
  | _ =>
      let merged := merge_blocks (sort_by_left rel) [] in
      mkSend (snd_una s) (snd_nxt s) (snd_wnd s) (snd_mss s)
        (raise_highest (snd_una s) merged (highest_sacked s))
        (sweep (snd_una s) merged (send_buffer s)) (send_buffer_bytes s)
  end.

(** [sack_mark_lost]: from the tail, with the number of SACKed segments above *)
Fixpoint mark_lost (highest : Z) (buf : list TcpSegment) : list TcpSegment * Z :=
  match buf with
  | [] => ([], 0)
  | seg :: buf =>
      let '(buf, above) := mark_lost highest buf in
      if sacked seg then (seg :: buf, above + 1)
      else if seq_le (seg_end seg) highest && (3 <=? above)
      then (mkSeg (s_seq seg) (s_data seg) (sent_at seg) (retrans_count seg) (sacked seg) true (retry seg) :: buf, above)
      else (seg :: buf, above)
  end.

Definition sack_mark_lost (s : SendSpace) : SendSpace :=
  mkSend (snd_una s) (snd_nxt s) (snd_wnd s) (snd_mss s) (highest_sacked s)
    (mark_lost (highest_sacked s) (send_buffer s)).1 (send_buffer_bytes s).

Definition sack_pipe (s : SendSpace) : Z :=
  fold_left (fun pipe seg =>
    if sacked seg then pipe
    else if lost seg then (if 0 <? retrans_count seg then sat_add32 pipe (wrap32 (zlen (s_data seg))) else pipe)
    else sat_add32 pipe (wrap32 (zlen (s_data seg)))) (send_buffer s) 0.

(** The first segment a test holds of *)
Fixpoint position (P : TcpSegment -> bool) (buf : list TcpSegment) : option nat :=
  match buf with
  | [] => None
  | seg :: buf => if P seg then Some O else option_map S (position P buf)
  end.

Definition sack_find_lost_segment (s : SendSpace) : option nat :=
  position (fun seg => lost seg && (retrans_count seg =? 0)) (send_buffer s).

Definition sack_clear_scoreboard (s : SendSpace) : SendSpace :=
  mkSend (snd_una s) (snd_nxt s) (snd_wnd s) (snd_mss s) (snd_una s)
    (map (fun seg => mkSeg (s_seq seg) (s_data seg) (sent_at seg) (retrans_count seg) false false (retry seg))
       (send_buffer s)) (send_buffer_bytes s).

(** * The receiving side *)
Inductive TcpState :=
| Closed | Listen | SynSent | SynReceived | Established | FinWait1 | FinWait2 | CloseWait | Closing
| LastAck | TimeWait.

Definition can_send (s : TcpState) : bool :=
  match s with Established | CloseWait => true | _ => false end.
Definition can_receive (s : TcpState) : bool :=
  match s with Established | FinWait1 | FinWait2 | CloseWait => true | _ => false end.

Definition TCP_OOO_MAX_SEGMENTS : Z := 64.
Definition TCP_MAX_RECV_BUFFER_BYTES : Z := 256 * 1024.

Record OooSegment := mkOoo { oo_seq : Z; oo_data : list Z; oo_fin : bool }.

(** [ooo_capacity] is the number of entries the queue's backing holds. *)
Record Receiver := mkRecv {
  conn_state : TcpState; rcv_nxt : Z; rcv_wnd : Z; recv_buffer : list Z;
  ooo_queue : list OooSegment; ooo_capacity : Z; ooo_bytes : Z; fin_received : bool;
}.

(** Which allocations of an insertion succeed: the copy of the payload, the
    growth of the queue (with the spare entries it gains), the merged payload *)
Record OooAllocs := mkAllocs { a_copy : bool; a_grow : option Z; a_zeroed : bool }.

(** ** Insertion *)
Definition ex_data_end (e : OooSegment) : Z := wadd (oo_seq e) (wrap32 (zlen (oo_data e))).
Definition ex_seq_end (e : OooSegment) : Z := wadd (ex_data_end e) (if oo_fin e then 1 else 0).

(** The merged span: start, end of data, position of a FIN *)
Record Span := mkSpan { m_start : Z; m_end : Z; m_fin : option Z }.

#[export] Instance Span_eq_dec : EqDecision Span.
Proof. solve_decision. Defined.

Definition span_seq_end (sp : Span) : Z := wadd (m_end sp) (if m_fin sp then 1 else 0).

Definition touches (sp : Span) (e : OooSegment) : bool :=
  seq_le (m_start sp) (ex_seq_end e) && seq_le (oo_seq e) (span_seq_end sp).

Definition absorb (sp : Span) (e : OooSegment) : Span :=
  if negb (touches sp e) then sp else
  let start := if seq_le (oo_seq e) (m_start sp) then oo_seq e else m_start sp in
  let data_end := if seq_ge (ex_data_end e) (m_end sp) then ex_data_end e else m_end sp in
  let fin :=
    if oo_fin e then
      match m_fin sp with
      | Some current => if seq_le current (ex_data_end e) then Some current else Some (ex_data_end e)
      | None => Some (ex_data_end e)
      end
    else m_fin sp in
  let data_end :=
    match fin with
    | Some fin_pos => if seq_lt fin_pos data_end then fin_pos else data_end
    | None => data_end
    end in
  mkSpan start data_end fin.

(** One pass over the queue, and whether any step of it changed the span *)
Fixpoint merge_pass (queue : list OooSegment) (sp : Span) : Span * bool :=
  match queue with
  | [] => (sp, false)
  | e :: queue =>
      let sp' := absorb sp e in
      let '(sp'', changed) := merge_pass queue sp' in
      (sp'', changed || negb (bool_decide (sp = sp')))
  end.

(** Passes until one changes nothing *)
Fixpoint merge_loop (fuel : nat) (queue : list OooSegment) (sp : Span) : option Span :=
  match fuel with
  | O => None
  | S fuel =>
      let '(sp', changed) := merge_pass queue sp in
      if changed then merge_loop fuel queue sp' else Some sp'
  end.

Definition merge_fuel (queue : list OooSegment) : nat := length queue + 2.

(** [buf[off..off + len].copy_from_slice(&src[..len])] when [off] is inside *)
Definition blit (buf : list Z) (off : Z) (src : list Z) : list Z :=
  if off <? zlen buf then
    let len := Z.min (zlen src) (saturating_sub (zlen buf) off) in
    take (Z.to_nat off) buf ++ take (Z.to_nat len) src ++ drop (Z.to_nat (off + len)) buf
  else buf.

Definition merged_data (queue : list OooSegment) (sp : Span) (seq : Z) (data : list Z) : list Z :=
  let zeros := replicate (Z.to_nat (wsub (m_end sp) (m_start sp))) 0 in
  let old := fold_left (fun buf e =>
    if touches sp e then blit buf (wsub (oo_seq e) (m_start sp)) (oo_data e) else buf) queue zeros in
  blit old (wsub seq (m_start sp)) data.

(** Insertion at the first entry with a greater sequence number *)
Fixpoint insert_sorted (x : OooSegment) (l : list OooSegment) : list OooSegment :=
  match l with
  | [] => [x]
  | e :: l => if seq_gt (oo_seq e) (oo_seq x) then x :: e :: l else e :: insert_sorted x l
  end.

Definition data_bytes (l : list OooSegment) : Z := sumZ (fun e => zlen (oo_data e)) l.

Definition with_queue (r : Receiver) (q : list OooSegment) (cap bytes : Z) : Receiver :=
  mkRecv (conn_state r) (rcv_nxt r) (rcv_wnd r) (recv_buffer r) q cap bytes (fin_received r).

(** After trimming: the copy, the merge span, the limits, the replacement *)
Definition ooo_insert_trimmed (al : OooAllocs) (seq : Z) (data : list Z) (fin : bool) (r : Receiver)
  : res unit (Z * Receiver) :=
  let queue := ooo_queue r in
  if negb (a_copy al) then Ok (0, r) else
  let data_end := wadd seq (wrap32 (zlen data)) in
  let? sp := or_panic (merge_loop (merge_fuel queue) queue
                         (mkSpan seq data_end (if fin then Some data_end else None))) in
  let kept := List.filter (fun e => negb (touches sp e)) queue in
  let gone := List.filter (touches sp) queue in
  let overlaps := zlen gone in
  let final_entries := saturating_sub (zlen queue) overlaps + 1 in
  if TCP_OOO_MAX_SEGMENTS <? final_entries then Ok (0, r) else
  let grown :=
    if zlen queue <? final_entries then
      if zlen queue + 1 <=? ooo_capacity r then Some (ooo_capacity r)
      else option_map (fun spare => zlen queue + 1 + Z.max spare 0) (a_grow al)
    else Some (ooo_capacity r) in
  match grown with
  | None => Ok (0, r)
  | Some cap =>
      if negb (overlaps =? 0) && negb (a_zeroed al) then Ok (0, with_queue r queue cap (ooo_bytes r)) else
      let new_seg :=
        if overlaps =? 0 then mkOoo seq data fin
        else mkOoo (m_start sp) (merged_data queue sp seq data) (if m_fin sp then true else false) in
      let removed_bytes := fold_left (fun a e => sat_add32 a (wrap32 (zlen (oo_data e)))) gone 0 in
      let new_bytes := wrap32 (zlen (oo_data new_seg)) in
      if zlen kept =? cap then Panic else
      Ok (new_bytes,
          with_queue r (insert_sorted new_seg kept) cap
            (sat_add32 (saturating_sub (ooo_bytes r) removed_bytes) new_bytes))
  end.

Definition ooo_insert (al : OooAllocs) (seq : Z) (data : list Z) (fin : bool) (r : Receiver)
  : res unit (Z * Receiver) :=
  if (zlen data =? 0) && negb fin then Ok (0, r) else
  let consumed := sat_add32 (wrap32 (zlen (recv_buffer r))) (ooo_bytes r) in
  let available := saturating_sub (rcv_wnd r) consumed in
  if available =? 0 then Ok (0, r) else
  if available <? wrap32 (zlen data)
  then ooo_insert_trimmed al seq (take (Z.to_nat available) data) false r
  else ooo_insert_trimmed al seq data fin r.

(** ** Draining *)
Definition after_fin (s : TcpState) : TcpState :=
  match s with
  | Established => CloseWait
  | FinWait1 => Closing
  | FinWait2 => TimeWait
  | other => other
  end.

(** [while let Some(front)]: [queue] is what is left of the queue, [extend_ok]
    whether the buffer may grow to a length. Returns the bytes delivered. *)
Fixpoint drain_loop (extend_ok : Z -> bool) (queue : list OooSegment) (r : Receiver) (delivered : Z)
  : Z * Receiver :=
  match queue with
  | [] => (delivered, with_queue r [] (ooo_capacity r) (ooo_bytes r))
  | front :: rest =>
      let stop := (delivered, with_queue r queue (ooo_capacity r) (ooo_bytes r)) in
      if negb (seq_le (oo_seq front) (rcv_nxt r)) then stop else
      let useful := if seq_gt (ex_data_end front) (rcv_nxt r)
                    then drop (Z.to_nat (wsub (rcv_nxt r) (oo_seq front))) (oo_data front) else [] in
      let blocked := seq_gt (ex_data_end front) (rcv_nxt r) &&
        ((saturating_sub TCP_MAX_RECV_BUFFER_BYTES (zlen (recv_buffer r)) <? zlen useful) ||
         negb (extend_ok (zlen (recv_buffer r) + zlen useful))) in
      if blocked then stop else
      let nxt := wadd (rcv_nxt r) (wrap32 (zlen useful)) in
      let bytes := saturating_sub (ooo_bytes r) (wrap32 (zlen (oo_data front))) in
      let delivered := sat_add32 delivered (wrap32 (zlen useful)) in
      let buf := recv_buffer r ++ useful in
      if oo_fin front && (ex_data_end front =? nxt) then
        (delivered,
         mkRecv (after_fin (conn_state r)) (wadd nxt 1) (rcv_wnd r) buf [] (ooo_capacity r)
           (fold_left (fun b e => saturating_sub b (wrap32 (zlen (oo_data e)))) rest bytes) true)
      else
        drain_loop extend_ok rest
          (mkRecv (conn_state r) nxt (rcv_wnd r) buf rest (ooo_capacity r) bytes (fin_received r)) delivered
  end.

Definition ooo_drain_contiguous (extend_ok : Z -> bool) (r : Receiver) : Z * Receiver :=
  drain_loop extend_ok (ooo_queue r) r 0.

(** [generate_sack_blocks]: from the highest range down *)
Definition generate_sack_blocks (r : Receiver) : SackBlocks :=
  map (fun e => mkSack (oo_seq e) (wadd (ex_data_end e) (if oo_fin e then 1 else 0)))
    (take (Z.to_nat TCP_SACK_MAX_BLOCKS) (rev (ooo_queue r))).
