(* ===== verification/TcpRecv.v ===== *)
(** Lemmas on the out-of-order queue of [TcpConn]: the wrapped arithmetic of
    insertion and draining against intervals of a byte stream. *)

From Stdlib Require Import ZArith Lia.
From stdpp Require Import base list list_numbers numbers sorting.
From S2P Require Import Prelude Machine Wire WireFacts NetFacts Tcp TcpFacts TcpConn.

(** * Lists *)
Lemma filter_length_mono {A} (P Q : A -> bool) l :
  (forall x, x ∈ l -> P x = true -> Q x = true) ->
  (length (List.filter P l) <= length (List.filter Q l))%nat.
Proof.
  induction l as [|x l IH]; intros H; [done|]. cbn [List.filter].
  assert (length (List.filter P l) <= length (List.filter Q l))%nat by (apply IH; intros; apply H; [by right|done]).
  destruct (P x) eqn:HP.
  - rewrite (H x) by (by left || done). cbn [length]. lia.
  - destruct (Q x); cbn [length]; lia.
Qed.

Lemma filter_length_lt {A} (P Q : A -> bool) l y :
  (forall x, x ∈ l -> P x = true -> Q x = true) -> y ∈ l -> P y = false -> Q y = true ->
  (length (List.filter P l) < length (List.filter Q l))%nat.
Proof.
  induction l as [|x l IH]; intros H Hy HP HQ; [by apply not_elem_of_nil in Hy|]. cbn [List.filter].
  assert (forall x, x ∈ l -> P x = true -> Q x = true) as H' by (intros; apply H; [by right|done]).
  apply list.elem_of_cons in Hy as [->|Hy].
  - rewrite HP, HQ. cbn [length]. pose proof (filter_length_mono P Q l H'). lia.
  - specialize (IH H' Hy HP HQ). destruct (P x) eqn:HPx.
    + rewrite (H x) by (by left || done). cbn [length]. lia.
    + destruct (Q x); cbn [length]; lia.
Qed.

(** Copying into a buffer *)
Lemma blit_spec buf off src :
  0 <= off -> off + zlen src <= zlen buf ->
  zlen (blit buf off src) = zlen buf /\
  forall i, 0 <= i -> zget (blit buf off src) i =
    if (off <=? i) && (i <? off + zlen src) then zget src (i - off) else zget buf i.
Proof.
  intros Ho Hs. pose proof (zlen_nonneg src). unfold blit. destruct (Z.ltb_spec off (zlen buf)); cycle 1.
  { split; [done|]. intros i Hi. zb; [lia|done..]. }
  unfold saturating_sub. replace (Z.min _ _) with (zlen src) by lia.
  assert (take (Z.to_nat (zlen src)) src = src) as -> by (apply take_ge; unfold zlen; lia).
  assert (zlen (take (Z.to_nat off) buf) = off) as Ht by (unfold zlen in *; rewrite length_take; lia).
  assert (zlen (drop (Z.to_nat (off + zlen src)) buf) = zlen buf - off - zlen src) as Hd
    by (unfold zlen in *; rewrite length_drop; lia).
  split; [rewrite !zlen_app, Ht, Hd; lia|]. intros i Hi. rewrite !zget_app, Ht.
  destruct (Z.ltb_spec i off); cbn [andb].
  - destruct (zget_take_drop buf off i) as [-> _]; [lia|done|]. zb; lia || done.
  - destruct (Z.leb_spec off i); [|lia]. cbn [andb].
    destruct (Z.ltb_spec (i - off) (zlen src)), (Z.ltb_spec i (off + zlen src)); try lia; [done|].
    destruct (zget_take_drop buf (off + zlen src) (i - off - zlen src)) as [_ ->]; [lia|lia|].
    f_equal. lia.
Qed.

(** * The stream *)

(** What is left free: any two positions are less than 2^31 apart. *)
Definition REACH : Z := 2 ^ 29.

Section stream.
(** The first byte has sequence number [base]; [S] gives the bytes, [F] the
    position of the FIN. *)
Context (base : Z) (S : Z -> Z) (F : option Z).

Definition sl (o len : Z) : list Z := map S (seqZ o len).

Lemma zlen_sl o len : 0 <= len -> zlen (sl o len) = len.
Proof. intros. unfold sl, zlen. rewrite length_map, length_seqZ. lia. Qed.

Lemma sl_lookup o len i : 0 <= len -> 0 <= i < len -> zget (sl o len) i = Some (S (o + i)).
Proof.
  intros. unfold zget, sl. destruct (Z.ltb_spec i 0); [lia|].
  change (map S (seqZ o len)) with (S <$> seqZ o len). rewrite list_lookup_fmap.
  rewrite lookup_seqZ_lt by lia. cbn. do 2 f_equal. lia.
Qed.

Lemma sl_app o a b : 0 <= a -> 0 <= b -> sl o (a + b) = sl o a ++ sl (o + a) b.
Proof. intros. unfold sl. by rewrite seqZ_app, map_app. Qed.

Lemma take_sl o len k : 0 <= k <= len -> take (Z.to_nat k) (sl o len) = sl o k.
Proof.
  intros. replace len with (k + (len - k)) by lia. rewrite sl_app by lia.
  apply take_app_length'. pose proof (zlen_sl o k). unfold zlen in *. lia.
Qed.

Lemma drop_sl o len k : 0 <= k <= len -> drop (Z.to_nat k) (sl o len) = sl (o + k) (len - k).
Proof.
  intros. replace len with (k + (len - k)) at 1 by lia. rewrite sl_app by lia.
  apply drop_app_length'. pose proof (zlen_sl o k). unfold zlen in *. lia.
Qed.

(** An interval of the stream, with the FIN or not *)
Record piece := mkPiece { pc_off : Z; pc_len : Z; pc_fin : bool }.
Definition pc_end (x : piece) : Z := pc_off x + pc_len x.

Definition cseg (x : piece) : OooSegment :=
  mkOoo (wadd base (pc_off x)) (sl (pc_off x) (pc_len x)) (pc_fin x).

(** The bounds every position respects *)
Context (lo hi : Z).
Hypothesis Hreach : hi - lo <= 4 * REACH - 4.

Record piece_ok (x : piece) : Prop := {
  po_len : 0 <= pc_len x;
  po_lo : lo <= pc_off x;
  po_hi : pc_end x <= hi;
  po_fin : pc_fin x = true -> F = Some (pc_end x);
  po_end : forall f, F = Some f -> pc_end x <= f;
}.

Lemma small_len x : piece_ok x -> wrap32 (zlen (sl (pc_off x) (pc_len x))) = pc_len x.
Proof.
  intros [Hl ? ? _ _]. rewrite zlen_sl by done. apply wrap32_id. unfold pc_end, REACH in *. lia.
Qed.

Lemma ex_data_end_cseg x : piece_ok x -> ex_data_end (cseg x) = wadd base (pc_end x).
Proof.
  intros H. unfold ex_data_end. cbn [cseg oo_seq oo_data]. rewrite (small_len x H), wadd_assoc. done.
Qed.

(** A span of the stream *)
Definition cspan (x : piece) : Span :=
  mkSpan (wadd base (pc_off x)) (wadd base (pc_end x)) (if pc_fin x then Some (wadd base (pc_end x)) else None).

Definition touch (x e : piece) : bool := (pc_off x <=? pc_end e) && (pc_off e <=? pc_end x).

Lemma touches_cspan x e : piece_ok x -> piece_ok e -> touches (cspan x) (cseg e) = touch x e.
Proof.
  intros Hx He. unfold touches, touch, ex_seq_end, span_seq_end. rewrite ex_data_end_cseg by done.
  cbn [cspan cseg m_start m_end m_fin oo_seq oo_fin]. destruct Hx as [? ? ? Hxf Hxe], He as [? ? ? Hef Hee].
  unfold pc_end, REACH in *.
  rewrite !wadd_assoc, !seq_le_offset by (destruct (pc_fin x), (pc_fin e); lia).
  f_equal.
  - destruct (pc_fin e); [|by rewrite Z.add_0_r]. specialize (Hef eq_refl). specialize (Hxe _ Hef).
    zb; lia || done.
  - destruct (pc_fin x); [|by rewrite Z.add_0_r]. specialize (Hxf eq_refl). specialize (Hee _ Hxf).
    zb; lia || done.
Qed.

(** Absorbing a piece the span touches: the hull of the two *)
Definition hull (x e : piece) : piece :=
  if touch x e then
    let a := Z.min (pc_off x) (pc_off e) in
    mkPiece a (Z.max (pc_end x) (pc_end e) - a) (pc_fin x || pc_fin e)
  else x.

Lemma hull_ok x e : piece_ok x -> piece_ok e -> piece_ok (hull x e).
Proof.
  intros Hx He. unfold hull. destruct (touch x e); [|done].
  destruct Hx as [? ? ? Hxf Hxe], He as [? ? ? Hef Hee]. unfold pc_end in *.
  split; unfold pc_end; cbn [pc_off pc_len pc_fin]; try lia.
  - intros [Hf|Hf]%orb_true_iff.
    + specialize (Hxf Hf). specialize (Hee _ Hxf). rewrite Hxf. f_equal. lia.
    + specialize (Hef Hf). specialize (Hxe _ Hef). rewrite Hef. f_equal. lia.
  - intros f Hf. specialize (Hxe _ Hf). specialize (Hee _ Hf). lia.
Qed.

Lemma absorb_cspan x e : piece_ok x -> piece_ok e -> absorb (cspan x) (cseg e) = cspan (hull x e).
Proof.
  intros Hx He. unfold absorb, hull. rewrite touches_cspan by done.
  destruct (touch x e) eqn:Ht; cbn [negb]; [|done].
  rewrite ex_data_end_cseg by done. destruct Hx as [? ? ? Hxf Hxe], He as [? ? ? Hef Hee].
  unfold touch in Ht. apply andb_true_iff in Ht as [?%Z.leb_le ?%Z.leb_le].
  cbn [cspan cseg m_start m_end m_fin oo_seq oo_fin]. unfold pc_end, REACH in *.
  rewrite seq_le_offset, seq_ge_offset by lia.
  assert ((if pc_off e <=? pc_off x then wadd base (pc_off e) else wadd base (pc_off x)) =
    wadd base (Z.min (pc_off x) (pc_off e))) as -> by (zb; f_equal; lia).
  assert ((if pc_off x + pc_len x <=? pc_off e + pc_len e then wadd base (pc_off e + pc_len e)
           else wadd base (pc_off x + pc_len x)) =
    wadd base (Z.max (pc_off x + pc_len x) (pc_off e + pc_len e))) as -> by (zb; f_equal; lia).
  unfold cspan, pc_end. cbn [pc_off pc_len pc_fin]. rewrite Zplus_minus.
  destruct (pc_fin e).
  - specialize (Hef eq_refl). specialize (Hxe _ Hef).
    replace (Z.max (pc_off x + pc_len x) (pc_off e + pc_len e)) with (pc_off e + pc_len e) by lia.
    rewrite orb_true_r. destruct (pc_fin x).
    + specialize (Hxf eq_refl). assert (pc_off x + pc_len x = pc_off e + pc_len e) as -> by congruence.
      rewrite seq_le_offset, Z.leb_refl, seq_lt_offset, Z.ltb_irrefl by lia. done.
    + rewrite seq_lt_offset, Z.ltb_irrefl by lia. done.
  - rewrite orb_false_r. destruct (pc_fin x); [|done].
    specialize (Hxf eq_refl). specialize (Hee _ Hxf).
    replace (Z.max (pc_off x + pc_len x) (pc_off e + pc_len e)) with (pc_off x + pc_len x) by lia.
    rewrite seq_lt_offset, Z.ltb_irrefl by lia. done.
Qed.

Lemma wadd_inj a b : lo <= a <= hi -> lo <= b <= hi -> wadd base a = wadd base b -> a = b.
Proof.
  intros Ha Hb H. pose proof (wsub_offset base a b) as H1. pose proof (wsub_offset base b a) as H2.
  unfold REACH in *. rewrite H in H1, H2.
  assert (forall v, wsub v v = 0) as Hvv by (intros; unfold wsub; by rewrite Z.sub_diag).
  rewrite Hvv in H1, H2. lia.
Qed.

Lemma cspan_inj x y : piece_ok x -> piece_ok y -> cspan x = cspan y -> x = y.
Proof.
  intros [? ? ? _ _] [? ? ? _ _] [= Ho He Hf]. unfold pc_end in *.
  apply wadd_inj in Ho; [|lia|lia]. apply wadd_inj in He; [|lia|lia].
  destruct x as [ox lx fx], y as [oy ly fy]. cbn [pc_off pc_len pc_fin] in *.
  assert (lx = ly) by lia. subst. f_equal. by destruct fx, fy.
Qed.

(** ** The merge loop *)
Definition contains (y x : piece) : Prop :=
  pc_off y <= pc_off x /\ pc_end x <= pc_end y /\ (pc_fin x = true -> pc_fin y = true).

Definition absorbed (x e : piece) : bool :=
  touch x e && (pc_off x <=? pc_off e) && (pc_end e <=? pc_end x) && (negb (pc_fin e) || pc_fin x).

Lemma contains_refl x : contains x x.
Proof. done. Qed.

Lemma contains_trans x y z : contains x y -> contains y z -> contains x z.
Proof. unfold contains. intuition lia. Qed.

Lemma touch_true x e : touch x e = true <-> pc_off x <= pc_end e /\ pc_off e <= pc_end x.
Proof. unfold touch. by rewrite andb_true_iff, !Z.leb_le. Qed.

Lemma absorbed_true x e :
  absorbed x e = true <->
  touch x e = true /\ pc_off x <= pc_off e /\ pc_end e <= pc_end x /\ (pc_fin e = true -> pc_fin x = true).
Proof.
  unfold absorbed. rewrite !andb_true_iff, orb_true_iff, negb_true_iff, !Z.leb_le.
  destruct (pc_fin e), (pc_fin x); naive_solver.
Qed.

Lemma touch_mono y x e : contains y x -> touch x e = true -> touch y e = true.
Proof. unfold contains. rewrite !touch_true. lia. Qed.

Lemma absorbed_mono y x e : contains y x -> absorbed x e = true -> absorbed y e = true.
Proof.
  intros Hc. rewrite !absorbed_true. intros (Ht & ? & ? & Hf). split; [by eapply touch_mono|].
  destruct Hc as (? & ? & ?). split_and!; [lia|lia|auto].
Qed.

Lemma hull_contains x e : contains (hull x e) x.
Proof.
  unfold hull. destruct (touch x e); [|done]. unfold contains, pc_end. cbn [pc_off pc_len pc_fin].
  split_and!; [lia|lia|]. intros ->. done.
Qed.

Lemma hull_absorbs x e : touch x e = true -> absorbed (hull x e) e = true.
Proof.
  intros Ht. apply absorbed_true. split; [eapply touch_mono; [apply hull_contains|done]|].
  unfold hull. rewrite Ht. unfold pc_end. cbn [pc_off pc_len pc_fin].
  split_and!; [lia|lia|]. intros ->. apply orb_true_r.
Qed.

Lemma hull_fixed x e : hull x e = x <-> touch x e = false \/ absorbed x e = true.
Proof.
  split.
  - intros H. destruct (touch x e) eqn:Ht; [right|by left]. rewrite <- H. by apply hull_absorbs.
  - intros [Ht|Ha]; unfold hull; [by rewrite Ht|].
    apply absorbed_true in Ha as (-> & ? & ? & Hf). destruct x as [o l f]. unfold pc_end in *.
    cbn [pc_off pc_len pc_fin] in *. f_equal; [lia|lia|].
    destruct (pc_fin e); [by rewrite Hf|by rewrite orb_false_r].
Qed.

(** What a span is made of: the new piece and pieces of the queue it touches *)
Definition made_of (x0 : piece) (A : list piece) (y : piece) : Prop :=
  contains y x0 /\
  (forall p, pc_off y <= p < pc_end y ->
     pc_off x0 <= p < pc_end x0 \/ exists e, e ∈ A /\ touch y e = true /\ pc_off e <= p < pc_end e) /\
  (pc_fin y = true -> pc_fin x0 = true \/ exists e, e ∈ A /\ touch y e = true /\ pc_fin e = true).

Lemma made_of_hull x0 A y e : made_of x0 A y -> e ∈ A -> made_of x0 A (hull y e).
Proof.
  intros (Hc & Hp & Hf) He. pose proof (hull_contains y e) as Hh.
  split; [by eapply contains_trans|]. destruct (touch y e) eqn:Ht; cycle 1.
  { unfold hull. by rewrite Ht. }
  assert (touch (hull y e) e = true) as Hte by (by eapply touch_mono).
  split.
  - intros p Hin. destruct (decide (pc_off y <= p < pc_end y)) as [Hy|Hy].
    + destruct (Hp p Hy) as [?|(e' & ? & Ht' & ?)]; [by left|right].
      exists e'. split_and!; try done; try lia. by eapply touch_mono.
    + right. exists e. split_and!; try done;
      apply touch_true in Ht; unfold hull in Hin; destruct (touch y e); unfold pc_end in *;
      cbn [pc_off pc_len] in Hin; lia.
  - unfold hull at 1. rewrite Ht. cbn [pc_fin]. intros [Hy|Hy]%orb_true_iff.
    + destruct (Hf Hy) as [?|(e' & ? & Ht' & ?)]; [by left|right].
      exists e'. split_and!; try done. by eapply touch_mono.
    + right. by exists e.
Qed.

(** One pass *)
Lemma merge_pass_spec x0 A B x :
  piece_ok x -> Forall piece_ok A -> A ⊆ B -> made_of x0 B x ->
  exists y changed, merge_pass (map cseg A) (cspan x) = (cspan y, changed) /\
    piece_ok y /\ contains y x /\ made_of x0 B y /\
    (changed = true -> exists e, e ∈ A /\ absorbed x e = false /\ absorbed y e = true) /\
    (changed = false -> y = x /\ forall e, e ∈ A -> touch x e = false \/ absorbed x e = true).
Proof.
  revert x. induction A as [|e A IH]; intros x Hx Hall Hsub Hm.
  { exists x, false. split_and!; try done. intros _. split; [done|]. by intros e ?%not_elem_of_nil. }
  apply list.Forall_cons in Hall as [He HA].
  assert (e ∈ B) as HeB by (apply Hsub; left).
  pose proof (hull_contains x e) as Hh.
  destruct (IH (hull x e)) as (y & ch & Hmp & Hy & Hc & Hmy & Hch & Hnc);
    [by apply hull_ok|done|intros z Hz; apply Hsub; by right|by apply made_of_hull|].
  exists y, (ch || negb (bool_decide (cspan x = cspan (hull x e)))).
  cbn [map merge_pass]. rewrite absorb_cspan by done. rewrite Hmp.
  split_and!; try done; [by eapply contains_trans| |].
  - intros [H|H]%orb_true_iff.
    + destruct (Hch H) as (e' & He' & Hn & Ha). exists e'. split_and!; [by right| |done].
      destruct (absorbed x e') eqn:Hx'; [|done]. apply (absorbed_mono (hull x e)) in Hx'; [congruence|done].
    + apply negb_true_iff, bool_decide_eq_false in H. exists e.
      assert (~ (touch x e = false \/ absorbed x e = true)) as Hnf
        by (rewrite <- hull_fixed; congruence).
      split_and!; [by left| |].
      * destruct (absorbed x e); [naive_solver|done].
      * eapply absorbed_mono; [exact Hc|]. apply hull_absorbs. destruct (touch x e); [done|naive_solver].
  - intros [Hf Hb]%orb_false_iff. apply negb_false_iff, bool_decide_eq_true in Hb.
    assert (hull x e = x) as Hfix by (symmetry; apply cspan_inj; [done|by apply hull_ok|done]).
    destruct (Hnc Hf) as [-> Hrest]. rewrite Hfix in *. split; [done|].
    intros e' [->|He']%list.elem_of_cons; [by apply hull_fixed|auto].
Qed.

(** The loop ends, within its fuel, on a span that has absorbed all it touches. *)
Lemma merge_span_spec x0 A fuel x :
  piece_ok x -> Forall piece_ok A -> made_of x0 A x ->
  (length (List.filter (fun e => negb (absorbed x e)) A) < fuel)%nat ->
  exists y, merge_loop fuel (map cseg A) (cspan x) = Some (cspan y) /\
    piece_ok y /\ made_of x0 A y /\ forall e, e ∈ A -> touch y e = false \/ absorbed y e = true.
Proof.
  revert x. induction fuel as [|fuel IH]; intros x Hx HA Hm Hf; [lia|]. cbn [merge_loop].
  destruct (merge_pass_spec x0 A A x) as (y & ch & -> & Hy & Hc & Hmy & Hch & Hnc); try done.
  destruct ch.
  - apply IH; try done. destruct (Hch eq_refl) as (e & He & Hn & Ha).
    assert (length (List.filter (fun e => negb (absorbed y e)) A) <
            length (List.filter (fun e => negb (absorbed x e)) A))%nat; [|lia].
    apply (filter_length_lt _ _ _ e); [|done|by rewrite Ha|by rewrite Hn].
    intros e' _ H'. apply negb_true_iff in H'. apply negb_true_iff.
    destruct (absorbed x e') eqn:Hx'; [|done]. apply (absorbed_mono y) in Hx'; [congruence|done].
  - destruct (Hnc eq_refl) as [-> Hall]. by exists x.
Qed.

(** ** The merged payload *)

(** A buffer for the span [y] that holds the stream wherever [P] says *)
Definition holds (y : piece) (P : Z -> Prop) (buf : list Z) : Prop :=
  zlen buf = pc_len y /\
  forall i, 0 <= i < pc_len y -> P (pc_off y + i) -> zget buf i = Some (S (pc_off y + i)).

Lemma blit_holds y P buf e :
  piece_ok y -> piece_ok e -> pc_off y <= pc_off e -> pc_end e <= pc_end y -> holds y P buf ->
  holds y (fun p => P p \/ pc_off e <= p < pc_end e)
    (blit buf (wsub (wadd base (pc_off e)) (wadd base (pc_off y))) (sl (pc_off e) (pc_len e))).
Proof.
  intros [? ? ? _ _] [? ? ? _ _] Ho He [Hl Hg]. unfold pc_end, REACH in *. rewrite wsub_offset by lia.
  destruct (blit_spec buf (pc_off e - pc_off y) (sl (pc_off e) (pc_len e))) as [Hbl Hbg];
    [lia|rewrite zlen_sl by done; lia|]. split; [by rewrite Hbl|].
  intros i Hi HP. rewrite Hbg by lia. rewrite zlen_sl by done.
  destruct (Z.leb_spec (pc_off e - pc_off y) i), (Z.ltb_spec i (pc_off e - pc_off y + pc_len e)); cbn [andb].
  - rewrite sl_lookup by lia. do 2 f_equal. lia.
  - apply Hg; [done|]. destruct HP; [done|lia].
  - apply Hg; [done|]. destruct HP; [done|lia].
  - apply Hg; [done|]. destruct HP; [done|lia].
Qed.

Lemma holds_weaken y (P Q : Z -> Prop) buf :
  (forall p, Q p -> P p) -> holds y P buf -> holds y Q buf.
Proof. intros H [? Hg]. split; [done|]. eauto. Qed.

Lemma fold_holds y A P buf :
  piece_ok y -> Forall piece_ok A -> (forall e, e ∈ A -> touch y e = false \/ absorbed y e = true) ->
  holds y P buf ->
  holds y (fun p => P p \/ exists e, e ∈ A /\ touch y e = true /\ pc_off e <= p < pc_end e)
    (fold_left (fun buf e => if touches (cspan y) e
       then blit buf (wsub (oo_seq e) (m_start (cspan y))) (oo_data e) else buf) (map cseg A) buf).
Proof.
  revert P buf. induction A as [|e A IH]; intros P buf Hy HA Hab Hb; cbn [map fold_left].
  { eapply holds_weaken; [|exact Hb]. intros p [?|(e & ?%not_elem_of_nil & _)]; done. }
  apply list.Forall_cons in HA as [He HA]. rewrite touches_cspan by done.
  cbn [cseg cspan oo_seq oo_data m_start].
  assert (forall e, e ∈ A -> touch y e = false \/ absorbed y e = true) as Hab' by (intros; apply Hab; by right).
  destruct (touch y e) eqn:Ht.
  - destruct (Hab e) as [?|(_ & ? & ? & _)%absorbed_true]; [left|congruence|].
    eapply holds_weaken; [|apply (IH (fun p => P p \/ pc_off e <= p < pc_end e)); try done; by apply blit_holds].
    intros p [?|(e' & [->|?]%list.elem_of_cons & ? & ?)]; eauto 6.
  - eapply holds_weaken; [|apply (IH P); done].
    intros p [?|(e' & [->|?]%list.elem_of_cons & ? & ?)]; [eauto|congruence|eauto 6].
Qed.

Lemma holds_all y (P : Z -> Prop) buf :
  0 <= pc_len y -> (forall p, pc_off y <= p < pc_end y -> P p) -> holds y P buf ->
  buf = sl (pc_off y) (pc_len y).
Proof.
  intros Hl HP [Hb Hg]. apply zlist_ext; [by rewrite zlen_sl|]. intros i Hi.
  rewrite sl_lookup by lia. apply Hg; [lia|]. apply HP. unfold pc_end. lia.
Qed.

Lemma merged_data_spec x0 A y :
  piece_ok x0 -> piece_ok y -> Forall piece_ok A -> made_of x0 A y ->
  (forall e, e ∈ A -> touch y e = false \/ absorbed y e = true) ->
  merged_data (map cseg A) (cspan y) (wadd base (pc_off x0)) (sl (pc_off x0) (pc_len x0)) =
    sl (pc_off y) (pc_len y).
Proof.
  intros Hx0 Hy HA (Hc & Hp & _) Hab. unfold merged_data. destruct Hc as (? & ? & _).
  eapply holds_all; [by destruct Hy| |].
  2:{ apply (blit_holds y); try done. apply fold_holds; try done.
      instantiate (1 := fun _ => False). split; [|done].
      cbn [cspan m_start m_end]. destruct Hy as [? ? ? _ _]. unfold pc_end, REACH in *.
      rewrite wsub_offset by lia. rewrite zlen_replicate. lia. }
  intros p Hin. destruct (Hp p Hin) as [?|?]; [by right|left; by right].
Qed.

(** ** The queue *)
Definition total (A : list piece) : Z := sumZ pc_len A.

(** Sorted, with a gap between neighbours *)
Definition apart (x y : piece) : Prop := pc_end x < pc_off y.
Definition separated (A : list piece) : Prop := StronglySorted apart A.

Fixpoint insert_piece (x : piece) (A : list piece) : list piece :=
  match A with
  | [] => [x]
  | e :: A => if pc_off x <? pc_off e then x :: e :: A else e :: insert_piece x A
  end.

Lemma insert_sorted_cseg x A :
  piece_ok x -> Forall piece_ok A -> insert_sorted (cseg x) (map cseg A) = map cseg (insert_piece x A).
Proof.
  intros Hx. induction 1 as [|e A He HA IH]; cbn [map insert_sorted insert_piece]; [done|].
  cbn [cseg oo_seq]. rewrite seq_gt_offset by (destruct Hx, He; unfold pc_end, REACH in *; lia).
  destruct (pc_off x <? pc_off e); [done|]. cbn [map]. f_equal. apply IH.
Qed.

Lemma insert_piece_perm x A : insert_piece x A ≡ₚ x :: A.
Proof.
  induction A as [|e A IH]; cbn [insert_piece]; [done|]. destruct (_ <? _); [done|].
  rewrite IH. apply Permutation_swap.
Qed.

Lemma insert_piece_separated x A :
  0 <= pc_len x -> (forall e, e ∈ A -> 0 <= pc_len e /\ touch x e = false) -> separated A ->
  separated (insert_piece x A).
Proof.
  intros Hx Hall. induction 1 as [|e A HA IH He]; cbn [insert_piece]; [by repeat constructor|].
  destruct (Hall e) as [Hel Hte]; [left|].
  assert (~ (pc_off x <= pc_end e /\ pc_off e <= pc_end x)) as Hnt by (rewrite <- touch_true; congruence).
  destruct (Z.ltb_spec (pc_off x) (pc_off e)).
  - assert (apart x e) as Hxe by (unfold apart, pc_end in *; lia).
    constructor; [by constructor|]. constructor; [done|].
    eapply Forall_impl; [exact He|]. unfold apart, pc_end in *. intros; lia.
  - constructor; [apply IH; intros; apply Hall; by right|]. rewrite insert_piece_perm.
    constructor; [unfold apart, pc_end in *; lia|done].
Qed.

Lemma filter_cseg y A (neg : bool) :
  piece_ok y -> Forall piece_ok A ->
  List.filter (fun e => xorb neg (touches (cspan y) e)) (map cseg A) =
    map cseg (List.filter (fun e => xorb neg (touch y e)) A).
Proof.
  intros Hy. induction 1 as [|e A He HA IH]; [done|]. cbn [map List.filter].
  rewrite touches_cspan by done. destruct (xorb neg (touch y e)); cbn [map]; by rewrite IH.
Qed.

Lemma total_filter (P : piece -> bool) A :
  total A = total (List.filter P A) + total (List.filter (fun e => negb (P e)) A).
Proof.
  unfold total. induction A as [|e A IH]; [done|]. cbn [List.filter].
  change (sumZ pc_len (e :: A)) with (pc_len e + sumZ pc_len A).
  destruct (P e); cbn [negb]; change (sumZ pc_len (e :: ?l)) with (pc_len e + sumZ pc_len l); lia.
Qed.

Lemma total_nonneg A : Forall piece_ok A -> 0 <= total A.
Proof. intros HA. apply sumZ_nonneg. intros x Hx. eapply list.Forall_forall in HA; [|exact Hx]. by destruct HA. Qed.

Lemma removed_bytes_total A acc :
  Forall piece_ok A -> 0 <= acc -> acc + total A <= u32_max ->
  fold_left (fun a e => sat_add32 a (wrap32 (zlen (oo_data e)))) (map cseg A) acc = acc + total A.
Proof.
  intros HA. revert acc. induction HA as [|e A He HA IH]; intros acc Ha Hb; cbn [map fold_left].
  { unfold total. simpl. lia. }
  change (total (e :: A)) with (pc_len e + total A) in *. pose proof (total_nonneg A HA).
  cbn [cseg oo_data]. rewrite (small_len e He). destruct He as [? _ _ _ _].
  unfold sat_add32. rewrite Z.min_l by lia. rewrite IH by lia. lia.
Qed.

(** The merged span is no longer than its parts. *)
Lemma elem_of_pieces p A : p ∈ concat (map (fun e => seqZ (pc_off e) (pc_len e)) A) <->
  exists e, e ∈ A /\ pc_off e <= p < pc_end e.
Proof.
  rewrite list_elem_of_In, in_concat. split.
  - intros (l & (e & <- & He)%in_map_iff & Hp). exists e. split; [by apply list_elem_of_In|].
    apply list_elem_of_In, elem_of_seqZ in Hp. done.
  - intros (e & He & Hp). exists (seqZ (pc_off e) (pc_len e)). split.
    + apply in_map_iff. exists e. split; [done|by apply list_elem_of_In].
    + by apply list_elem_of_In, elem_of_seqZ.
Qed.

Lemma length_pieces A : Forall piece_ok A ->
  Z.of_nat (length (concat (map (fun e => seqZ (pc_off e) (pc_len e)) A))) = total A.
Proof.
  induction 1 as [|e A He HA IH]; [done|]. cbn [map concat]. rewrite length_app, length_seqZ.
  change (total (e :: A)) with (pc_len e + total A). destruct He as [? _ _ _ _]. lia.
Qed.

Lemma made_of_len x0 A y :
  piece_ok x0 -> piece_ok y -> Forall piece_ok A -> made_of x0 A y ->
  pc_len y <= pc_len x0 + total (List.filter (touch y) A).
Proof.
  intros Hx0 Hy HA (_ & Hp & _).
  assert (Forall piece_ok (x0 :: List.filter (touch y) A)) as HG.
  { constructor; [done|]. apply list.Forall_forall. intros e He.
    apply list_elem_of_In, filter_In in He as [He _]. apply list_elem_of_In in He.
    by eapply list.Forall_forall in HA. }
  assert (seqZ (pc_off y) (pc_len y) ⊆+
    concat (map (fun e => seqZ (pc_off e) (pc_len e)) (x0 :: List.filter (touch y) A))) as Hsub.
  { apply NoDup_submseteq; [apply NoDup_seqZ|]. intros p Hin%elem_of_seqZ. apply elem_of_pieces.
    destruct (Hp p Hin) as [?|(e & He & Ht & ?)]; [exists x0; split; [left|done]|].
    exists e. split; [right|done]. apply list_elem_of_In, filter_In. by rewrite list_elem_of_In in He. }
  apply submseteq_length in Hsub. pose proof (length_pieces _ HG) as Hlen.
  rewrite length_seqZ in Hsub. change (total (x0 :: ?l)) with (pc_len x0 + total l) in Hlen.
  destruct Hy as [? _ _ _ _]. lia.
Qed.

(** ** Insertion *)

(** [y] is the new piece with all it touches, [A'] the queue with [y] instead *)
Record merged_into (x : piece) (A : list piece) (y : piece) (A' : list piece) : Prop := {
  mi_ok : piece_ok y;
  mi_made : made_of x A y;
  mi_absorbs : forall e, e ∈ A -> touch y e = false \/ absorbed y e = true;
  mi_queue : A' = insert_piece y (List.filter (fun e => negb (touch y e)) A);
}.

Lemma merged_into_elem x A y A' e :
  merged_into x A y A' -> e ∈ A' <-> e = y \/ e ∈ A /\ touch y e = false.
Proof.
  intros [_ _ _ ->]. rewrite insert_piece_perm, list.elem_of_cons, list_elem_of_In.
  by rewrite filter_In, negb_true_iff, <- list_elem_of_In.
Qed.

Lemma merged_into_ok x A y A' : Forall piece_ok A -> merged_into x A y A' -> Forall piece_ok A'.
Proof.
  rewrite !list.Forall_forall. intros HA Hm e [->|[? _]]%(merged_into_elem _ _ _ _ _ Hm); [apply Hm|auto].
Qed.

Lemma merged_into_separated x A y A' :
  Forall piece_ok A -> separated A -> merged_into x A y A' -> separated A'.
Proof.
  intros HA Hs [Hy _ _ ->]. apply insert_piece_separated; [by destruct Hy| |].
  - intros e He%list_elem_of_In%filter_In. destruct He as [He%list_elem_of_In Ht%negb_true_iff].
    split; [|done]. eapply list.Forall_forall in HA; [|done]. by destruct HA.
  - clear HA. induction Hs as [|e A HA IH He]; [constructor|]. cbn [List.filter].
    destruct (negb _); [|done]. constructor; [done|]. apply list.Forall_forall.
    intros z Hz%list_elem_of_In%filter_In. destruct Hz as [Hz%list_elem_of_In _].
    by eapply list.Forall_forall in He.
Qed.

Lemma merged_into_total x A y A' :
  Forall piece_ok A -> piece_ok x -> merged_into x A y A' ->
  total A' = total A - total (List.filter (touch y) A) + pc_len y /\ total A' <= total A + pc_len x.
Proof.
  intros HA Hx [Hy Hm _ ->]. pose proof (made_of_len x A y Hx Hy HA Hm).
  pose proof (total_filter (touch y) A).
  assert (total (insert_piece y (List.filter (fun e => negb (touch y e)) A)) =
    pc_len y + total (List.filter (fun e => negb (touch y e)) A)) as ->
    by (unfold total; by rewrite insert_piece_perm). lia.
Qed.

(** Nothing of the queue or of the new piece is lost, nothing else is added. *)
Lemma merged_into_keeps x A y A' e :
  merged_into x A y A' -> e ∈ x :: A -> exists e', e' ∈ A' /\ contains e' e.
Proof.
  intros Hm He. destruct (mi_made _ _ _ _ Hm) as (Hc & _).
  assert (y ∈ A') by (apply (merged_into_elem _ _ _ _ _ Hm); by left).
  apply list.elem_of_cons in He as [->|He]; [by exists y|].
  destruct (touch y e) eqn:Ht.
  - destruct (mi_absorbs _ _ _ _ Hm e He) as [|(_ & ? & ? & ?)%absorbed_true]; [congruence|]. by exists y.
  - exists e. split; [apply (merged_into_elem _ _ _ _ _ Hm); by right|done].
Qed.

Record queue_ok (r : Receiver) (A : list piece) : Prop := {
  qo_queue : ooo_queue r = map cseg A;
  qo_pieces : Forall piece_ok A;
  qo_sep : separated A;
  qo_count : Z.of_nat (length A) <= TCP_OOO_MAX_SEGMENTS;
  qo_cap : Z.of_nat (length A) <= ooo_capacity r;
  qo_bytes : ooo_bytes r = total A;
}.

Lemma filter_negb_length (P : piece -> bool) A :
  (length (List.filter (fun e => negb (P e)) A) + length (List.filter P A) = length A)%nat.
Proof. induction A as [|e A IH]; [done|]. cbn [List.filter]. destruct (P e); cbn [negb length]; lia. Qed.

(** The queue after an insertion, whatever the allocations do: unchanged or merged *)
Definition inserted (x : piece) (A : list piece) (k : Z) (A' : list piece) : Prop :=
  (k = 0 /\ A' = A) \/ exists y, merged_into x A y A' /\ k = pc_len y.

Definition all_succeed (al : OooAllocs) : bool :=
  a_copy al && (if a_grow al then true else false) && a_zeroed al.

Lemma merge_span_found x A :
  piece_ok x -> Forall piece_ok A ->
  exists y, merge_loop (merge_fuel (map cseg A)) (map cseg A) (cspan x) = Some (cspan y) /\
    merged_into x A y (insert_piece y (List.filter (fun e => negb (touch y e)) A)).
Proof.
  intros Hx HA. destruct (merge_span_spec x A (merge_fuel (map cseg A)) x) as (y & Hl & Hy & Hm & Ha); try done.
  - split; [done|]. split; intros; by left.
  - unfold merge_fuel. rewrite length_map. pose proof (filter_negb_length (absorbed x) A). lia.
  - by exists y.
Qed.

(** The entry an insertion puts in: the new one when it touches nothing *)
Lemma new_segment x A y A' :
  piece_ok x -> Forall piece_ok A -> merged_into x A y A' ->
  (if zlen (map cseg (List.filter (touch y) A)) =? 0
   then mkOoo (wadd base (pc_off x)) (sl (pc_off x) (pc_len x)) (pc_fin x)
   else mkOoo (m_start (cspan y))
          (merged_data (map cseg A) (cspan y) (wadd base (pc_off x)) (sl (pc_off x) (pc_len x)))
          (if m_fin (cspan y) then true else false)) = cseg y.
Proof.
  intros Hx HA [Hy Hm Hab _].
  assert ((if m_fin (cspan y) then true else false) = pc_fin y) as -> by (cbn; by destruct (pc_fin y)).
  rewrite (merged_data_spec x A y) by done.
  destruct (Z.eqb_spec (zlen (map cseg (List.filter (touch y) A))) 0) as [Hz|Hz]; [|done].
  assert (forall e, e ∈ A -> touch y e = true -> False) as Hno.
  { intros e He Ht. unfold zlen in Hz. rewrite length_map in Hz.
    assert (In e (List.filter (touch y) A)) as Hin by (apply filter_In; by rewrite list_elem_of_In in He).
    destruct (List.filter (touch y) A); [done|]. cbn in Hz. lia. }
  destruct Hm as ((Hc1 & Hc2 & Hc3) & Hp & Hf).
  enough (x = y) as <- by done. destruct Hx as [? _ _ _ _], Hy as [? _ _ _ _].
  assert (pc_off x = pc_off y /\ pc_end x = pc_end y) as [? ?].
  { destruct (decide (pc_len y = 0)); [unfold pc_end in *; lia|].
    destruct (Hp (pc_off y)) as [?|(e & He & Ht & _)]; [unfold pc_end; lia| |by destruct (Hno e)].
    destruct (Hp (pc_end y - 1)) as [?|(e & He & Ht & _)]; [unfold pc_end; lia| |by destruct (Hno e)]. lia. }
  assert (pc_fin x = pc_fin y) as ?.
  { destruct (pc_fin x), (pc_fin y); try done; [by destruct Hc3|].
    destruct Hf as [|(e & He & Ht & _)]; [done..|by destruct (Hno e)]. }
  destruct x, y. unfold pc_end in *. cbn in *. f_equal; lia || done.
Qed.

Lemma filter_pieces_ok (P : piece -> bool) A : Forall piece_ok A -> Forall piece_ok (List.filter P A).
Proof.
  rewrite !list.Forall_forall. intros HA e [He%list_elem_of_In _]%list_elem_of_In%filter_In. auto.
Qed.

(** Insertion on pieces: [K] is what stays, the rest of [A] goes into [y] *)
Definition insert_pieces (al : OooAllocs) (r : Receiver) (A K : list piece) (y : piece)
  : res unit (Z * Receiver) :=
  let n := Z.of_nat (length A) in
  let k := Z.of_nat (length K) in
  let q := insert_piece y K in
  if TCP_OOO_MAX_SEGMENTS <? k + 1 then Ok (0, r) else
  match (if n <? k + 1 then
           if n + 1 <=? ooo_capacity r then Some (ooo_capacity r)
           else option_map (fun spare => n + 1 + Z.max spare 0) (a_grow al)
         else Some (ooo_capacity r)) with
  | None => Ok (0, r)
  | Some cap =>
      if (k <? n) && negb (a_zeroed al) then Ok (0, with_queue r (map cseg A) cap (total A)) else
      if k =? cap then Panic else Ok (pc_len y, with_queue r (map cseg q) cap (total q))
  end.

Lemma insert_trimmed_eq al r x A :
  queue_ok r A -> piece_ok x -> total A + pc_len x <= u32_max -> a_copy al = true ->
  exists y K, merged_into x A y (insert_piece y K) /\ (length K <= length A)%nat /\
    ooo_insert_trimmed al (wadd base (pc_off x)) (sl (pc_off x) (pc_len x)) (pc_fin x) r =
      insert_pieces al r A K y.
Proof.
  intros [Hq HA Hs Hn Hcap Hb] Hx Htot Hc. unfold ooo_insert_trimmed. rewrite Hq, Hc. cbn [negb].
  destruct (merge_span_found x A Hx HA) as (y & Hl & Hm). pose proof (mi_ok _ _ _ _ Hm) as Hy.
  rewrite (small_len x Hx), wadd_assoc. fold (pc_end x). fold (cspan x). rewrite Hl. cbn [or_panic res_bind].
  assert (List.filter (touches (cspan y)) (map cseg A) = map cseg (List.filter (touch y) A)) as ->
    by exact (filter_cseg y A false Hy HA).
  assert (List.filter (fun e => negb (touches (cspan y) e)) (map cseg A) =
    map cseg (List.filter (fun e => negb (touch y e)) A)) as -> by exact (filter_cseg y A true Hy HA).
  rewrite (new_segment x A y _ Hx HA Hm).
  destruct (merged_into_total x A y _ HA Hx Hm) as [Ht Hle].
  pose proof (filter_negb_length (touch y) A) as Hsplit. pose proof (total_filter (touch y) A) as Hsum.
  assert (Forall piece_ok (List.filter (touch y) A)) as HG by (by apply filter_pieces_ok).
  assert (Forall piece_ok (List.filter (fun e => negb (touch y e)) A)) as HK by (by apply filter_pieces_ok).
  remember (List.filter (fun e => negb (touch y e)) A) as K. remember (List.filter (touch y) A) as G.
  exists y, K. split; [done|]. split; [lia|].
  pose proof (total_nonneg G HG). pose proof (total_nonneg K HK). destruct Hx as [? _ _ _ _].
  rewrite removed_bytes_total by (done || lia). rewrite insert_sorted_cseg by done.
  cbn [cseg oo_data]. rewrite (small_len y Hy), Hb. unfold zlen. rewrite !length_map.
  replace (sat_add32 _ _) with (total (insert_piece y K))
    by (unfold sat_add32, saturating_sub; rewrite Z.min_l; lia).
  replace (saturating_sub (Z.of_nat (length A)) (Z.of_nat (length G))) with (Z.of_nat (length K))
    by (unfold saturating_sub; lia).
  replace (negb (Z.of_nat (length G) =? 0)) with (Z.of_nat (length K) <? Z.of_nat (length A))
    by (zb; cbn [negb]; lia || done).
  done.
Qed.

Lemma insert_trimmed_spec al r x A :
  queue_ok r A -> piece_ok x -> total A + pc_len x <= u32_max ->
  exists k A' cap,
    ooo_insert_trimmed al (wadd base (pc_off x)) (sl (pc_off x) (pc_len x)) (pc_fin x) r =
      Ok (k, with_queue r (map cseg A') cap (total A')) /\
    inserted x A k A' /\ Z.of_nat (length A') <= TCP_OOO_MAX_SEGMENTS /\ Z.of_nat (length A') <= cap /\
    (all_succeed al = true -> Z.of_nat (length A) < TCP_OOO_MAX_SEGMENTS -> exists y, merged_into x A y A').
Proof.
  intros HQ Hx Htot. destruct HQ as [Hq HA Hs Hn Hcap Hb] eqn:E. clear E. unfold all_succeed.
  assert (r = with_queue r (map cseg A) (ooo_capacity r) (total A)) as Hr
    by (rewrite <- Hq, <- Hb; by destruct r).
  destruct (a_copy al) eqn:Hc; cycle 1.
  { exists 0, A, (ooo_capacity r). rewrite <- Hr. split_and!; try done; [|by left].
    unfold ooo_insert_trimmed. by rewrite Hc. }
  destruct (insert_trimmed_eq al r x A HQ Hx Htot Hc) as (y & K & Hm & HK & ->). unfold insert_pieces.
  assert (length (insert_piece y K) = Datatypes.S (length K)) as Hlen by (by rewrite insert_piece_perm).
  destruct (Z.ltb_spec TCP_OOO_MAX_SEGMENTS (Z.of_nat (length K) + 1)).
  { exists 0, A, (ooo_capacity r). rewrite <- Hr. split_and!; try done; [by left|lia]. }
  match goal with |- context [match ?g with _ => _ end] => destruct g as [cap|] eqn:Hg end; cycle 1.
  { exists 0, A, (ooo_capacity r). rewrite <- Hr. split_and!; try done; [by left|].
    destruct (_ <? _) in Hg; [|done]. destruct (_ <=? _) in Hg; [done|]. by destruct (a_grow al). }
  assert (Z.of_nat (length A) <= cap /\ Z.of_nat (length K) + 1 <= cap) as [? ?].
  { destruct (Z.ltb_spec (Z.of_nat (length A)) (Z.of_nat (length K) + 1)); [|simplify_eq; lia].
    destruct (Z.leb_spec (Z.of_nat (length A) + 1) (ooo_capacity r)); [simplify_eq; lia|].
    destruct (a_grow al); simplify_eq/=; lia. }
  destruct (_ && _) eqn:Hz.
  { exists 0, A, cap. split_and!; try done; [by left|].
    apply andb_true_iff in Hz as [_ Hz%negb_true_iff]. rewrite Hz. by rewrite !andb_false_r. }
  destruct (Z.eqb_spec (Z.of_nat (length K)) cap); [lia|].
  exists (pc_len y), (insert_piece y K), cap. split_and!; try done; try lia; [right|]; eauto.
Qed.

(** ** Draining *)
Lemma separated_tail e A x : separated (e :: A) -> x ∈ A -> pc_end e < pc_off x.
Proof. intros [_ He]%StronglySorted_inv Hx. by eapply list.Forall_forall in He. Qed.

(** What a drain from position [n] with queue [A] leaves *)
Record drained (ext : Z -> bool) (r : Receiver) (n : Z) (A : list piece) (n' : Z) (A' : list piece) (r' : Receiver)
  : Prop := {
  dr_pos : n <= n' /\ lo <= n' <= hi;
  dr_state : r' = mkRecv (if fin_received r' then after_fin (conn_state r) else conn_state r)
    (wadd base (n' + (if fin_received r' then 1 else 0))) (rcv_wnd r) (recv_buffer r ++ sl n (n' - n))
    (map cseg A') (ooo_capacity r) (total A') (fin_received r');
  dr_suffix : exists gone, A = gone ++ A';
  dr_fin : if fin_received r' then F = Some n' /\ A' = [] else forall f, F = Some f -> n' <= f;
  dr_ahead : forall e, e ∈ A' -> n' < pc_end e;
  dr_gone : forall e, e ∈ A -> e ∈ A' \/ pc_end e <= n' /\ (pc_fin e = true -> fin_received r' = true);
  dr_budget : n' - n + total A' <= total A;
  dr_progress : (forall len, ext len = true) -> zlen (recv_buffer r) + total A <= TCP_MAX_RECV_BUFFER_BYTES ->
    forall e, e ∈ A' -> n' < pc_off e;
}.

Definition at_position (r : Receiver) (n : Z) (A : list piece) : Prop :=
  rcv_nxt r = wadd base n /\ ooo_bytes r = total A /\ fin_received r = false /\ lo <= n <= hi /\
  forall f, F = Some f -> n <= f.

Lemma drained_stop ext r n A :
  at_position r n A -> (forall e, e ∈ A -> n < pc_end e) ->
  ((forall len, ext len = true) -> zlen (recv_buffer r) + total A <= TCP_MAX_RECV_BUFFER_BYTES ->
   forall e, e ∈ A -> n < pc_off e) ->
  drained ext r n A n A (with_queue r (map cseg A) (ooo_capacity r) (ooo_bytes r)).
Proof.
  intros (Hn & Hb & Hf & Hr & HF) Ha Hp. constructor; cbn [with_queue fin_received]; rewrite ?Hf; try done; try lia.
  - unfold with_queue. rewrite Hn, Hb, Hf, Z.add_0_r, Z.sub_diag. unfold sl. cbn. by rewrite app_nil_r.
  - by exists [].
  - intros e He. by left.
Qed.

(** The bytes the front entry still has to give *)
Lemma front_useful e n :
  piece_ok e -> lo <= n <= hi -> pc_off e <= n ->
  (if seq_gt (ex_data_end (cseg e)) (wadd base n)
   then drop (Z.to_nat (wsub (wadd base n) (oo_seq (cseg e)))) (oo_data (cseg e)) else []) =
    sl n (Z.max 0 (pc_end e - n)).
Proof.
  intros He Hn Hle. rewrite (ex_data_end_cseg e He). destruct He as [? ? ? _ _].
  rewrite seq_gt_offset by (unfold pc_end, REACH in *; lia). destruct (Z.ltb_spec n (pc_end e)).
  - cbn [cseg oo_seq oo_data]. rewrite wsub_offset by (unfold REACH in *; lia).
    rewrite drop_sl by (unfold pc_end in *; lia).
    rewrite Z.max_r by lia. unfold pc_end in *. f_equal; lia.
  - rewrite Z.max_l by lia. done.
Qed.

(** The receiver after the front entry is consumed *)
Definition past_front (r : Receiver) (n : Z) (e : piece) (A : list piece) : Receiver :=
  let nxt := Z.max n (pc_end e) in
  mkRecv (conn_state r) (wadd base nxt) (rcv_wnd r) (recv_buffer r ++ sl n (nxt - n)) (map cseg A)
    (ooo_capacity r) (total A) (fin_received r).

Lemma past_front_at r n e A :
  at_position r n (e :: A) -> piece_ok e -> at_position (past_front r n e A) (Z.max n (pc_end e)) A.
Proof.
  intros (_ & _ & Hf & Hr & HF) [? ? ? _ He]. split_and!; try done; unfold pc_end in *; try lia.
  intros f Hff. specialize (HF f Hff). specialize (He f Hff). lia.
Qed.

Lemma drained_next ext r n e A n' A' r' :
  piece_ok e -> pc_off e <= n -> pc_fin e = false ->
  drained ext (past_front r n e A) (Z.max n (pc_end e)) A n' A' r' -> drained ext r n (e :: A) n' A' r'.
Proof.
  intros He Hle Hef [Hp Hst [g Hg] Hfin Ha Hgo Hb Hpr]. pose proof (po_len e He) as Hl.
  assert (Z.max n (pc_end e) - n <= pc_len e) as Hm by (unfold pc_end; lia).
  constructor; try done; try lia.
  - rewrite Hst at 1. cbn [past_front conn_state rcv_wnd recv_buffer ooo_capacity]. f_equal.
    rewrite <- app_assoc. f_equal. replace (n' - n) with ((Z.max n (pc_end e) - n) + (n' - Z.max n (pc_end e))) by lia.
    rewrite sl_app by lia. do 2 f_equal. lia.
  - exists (e :: g). by rewrite Hg.
  - intros x [->|Hx]%list.elem_of_cons; [right; split; [lia|congruence]|by apply Hgo].
  - change (total (e :: A)) with (pc_len e + total A). lia.
  - intros Hext Hroom. apply Hpr; [done|]. change (total (e :: A)) with (pc_len e + total A) in Hroom.
    cbn [past_front recv_buffer]. rewrite zlen_app, zlen_sl by lia. lia.
Qed.

Lemma drained_fin ext r n e A :
  at_position r n (e :: A) -> piece_ok e -> pc_off e <= n -> pc_fin e = true -> A = [] ->
  drained ext r n (e :: A) (pc_end e) []
    (mkRecv (after_fin (conn_state r)) (wadd base (pc_end e + 1)) (rcv_wnd r)
       (recv_buffer r ++ sl n (pc_end e - n)) [] (ooo_capacity r) 0 true).
Proof.
  intros (_ & _ & _ & Hr & HF) [? ? ? Hf _] Hle Hfin ->. specialize (HF _ (Hf Hfin)).
  constructor; cbn [fin_received]; try done; try lia.
  - by exists [e].
  - split; [by apply Hf|done].
  - intros x Hx. by apply not_elem_of_nil in Hx.
  - intros x [->|Hx]%list.elem_of_cons; [by right|by apply not_elem_of_nil in Hx].
  - change (total [e]) with (pc_len e + 0). change (total []) with 0. unfold pc_end. lia.
  - intros _ _ x Hx. by apply not_elem_of_nil in Hx.
Qed.

(** Nothing lies behind a FIN. *)
Lemma fin_is_last e A : Forall piece_ok (e :: A) -> separated (e :: A) -> pc_fin e = true -> A = [].
Proof.
  intros HA Hs Hf. destruct A as [|x A]; [done|]. pose proof (separated_tail e (x :: A) x Hs) as Hx.
  apply list.Forall_cons in HA as [[_ _ _ He _] [[? _ _ _ Hx2] _]%list.Forall_cons].
  specialize (Hx2 _ (He Hf)). unfold pc_end in *. specialize (Hx ltac:(left)). lia.
Qed.

Lemma drained_here ext r n A d :
  at_position r n A -> (forall e, e ∈ A -> n < pc_end e) ->
  ((forall len, ext len = true) -> zlen (recv_buffer r) + total A <= TCP_MAX_RECV_BUFFER_BYTES ->
   forall e, e ∈ A -> n < pc_off e) ->
  exists n' A' r', (d, with_queue r (map cseg A) (ooo_capacity r) (ooo_bytes r)) = (d + (n' - n), r') /\
    drained ext r n A n' A' r'.
Proof.
  intros. exists n, A, (with_queue r (map cseg A) (ooo_capacity r) (ooo_bytes r)).
  rewrite Z.sub_diag, Z.add_0_r. split; [done|]. by apply drained_stop.
Qed.

Lemma drain_spec ext r n A d :
  at_position r n A -> Forall piece_ok A -> separated A -> 0 <= d -> d + total A <= u32_max ->
  exists n' A' r', drain_loop ext (map cseg A) r d = (d + (n' - n), r') /\ drained ext r n A n' A' r'.
Proof.
  revert r n d. induction A as [|e A IH]; intros r n d Hat HA Hs Hd Ht.
  { apply (drained_here ext r n [] d); [done|..]; intros; exfalso; by eapply not_elem_of_nil. }
  pose proof HA as [He HA']%list.Forall_cons. pose proof Hat as (Hn & Hb & Hf & Hr & HF).
  pose proof (total_nonneg A HA') as HtA. change (total (e :: A)) with (pc_len e + total A) in *.
  assert (forall x, x ∈ A -> pc_end e < pc_off x /\ pc_end e < pc_end x) as Hsep.
  { intros x Hx. pose proof (separated_tail e A x Hs Hx). eapply list.Forall_forall in HA'; [|done].
    destruct HA' as [? _ _ _ _]. unfold pc_end in *. lia. }
  pose proof (po_len e He) as Hl0. pose proof (po_lo e He). pose proof (po_hi e He).
  cbn [map drain_loop]. rewrite Hn. change (oo_seq (cseg e)) with (wadd base (pc_off e)).
  rewrite seq_le_offset by (unfold pc_end, REACH in *; lia).
  destruct (Z.leb_spec (pc_off e) n) as [Hle|Hgt]; cbn [negb]; cycle 1.
  { assert (forall x, x ∈ e :: A -> n < pc_off x /\ n < pc_end x) as Hx
      by (intros x [->|Hx]%list.elem_of_cons; [|specialize (Hsep x Hx)]; unfold pc_end in *; lia).
    apply (drained_here ext r n (e :: A) d); [done|..]; intros; by apply Hx. }
  rewrite front_useful by done. rewrite (ex_data_end_cseg e He).
  rewrite seq_gt_offset by (unfold pc_end, REACH in *; lia).
  assert (pc_end e - n <= pc_len e) as Hnew by (unfold pc_end; lia).
  rewrite zlen_sl by lia. destruct (_ && _) eqn:Hblock.
  { apply andb_true_iff in Hblock as [Hne%Z.ltb_lt Hblock].
    apply (drained_here ext r n (e :: A) d); [done|..].
    - intros x [->|Hx]%list.elem_of_cons; [done|]. specialize (Hsep x Hx). lia.
    - intros Hext Hroom. rewrite Hext in Hblock. cbn [negb] in Hblock. rewrite orb_false_r in Hblock.
      apply Z.ltb_lt in Hblock. change (total (e :: A)) with (pc_len e + total A) in Hroom.
      unfold saturating_sub in Hblock. lia. }
  rewrite wrap32_id by (unfold REACH in *; lia). rewrite wadd_assoc.
  replace (n + Z.max 0 (pc_end e - n)) with (Z.max n (pc_end e)) by lia.
  change (oo_data (cseg e)) with (sl (pc_off e) (pc_len e)). rewrite (small_len e He).
  replace (Z.max 0 (pc_end e - n)) with (Z.max n (pc_end e) - n) by lia.
  assert (sat_add32 d (Z.max n (pc_end e) - n) = d + (Z.max n (pc_end e) - n)) as ->
    by (unfold sat_add32; rewrite Z.min_l; lia).
  assert (saturating_sub (ooo_bytes r) (pc_len e) = total A) as -> by (unfold saturating_sub; rewrite Hb; lia).
  change (oo_fin (cseg e)) with (pc_fin e). destruct (pc_fin e) eqn:Hfin.
  - assert (A = []) as -> by (by eapply fin_is_last).
    assert (Z.max n (pc_end e) = pc_end e) as -> by (specialize (HF _ (po_fin e He Hfin)); lia).
    rewrite Z.eqb_refl, wadd_assoc. cbn [andb map fold_left]. eexists _, _, _. split; [done|].
    by apply drained_fin.
  - cbn [andb]. destruct (IH (past_front r n e A) (Z.max n (pc_end e)) (d + (Z.max n (pc_end e) - n)))
      as (n' & A' & r' & Hd' & Hdr); [by apply past_front_at|done|by destruct (StronglySorted_inv Hs)|lia..|].
    exists n', A', r'. fold (past_front r n e A). rewrite Hd'. split; [f_equal; lia|]. by eapply drained_next.
Qed.
End stream.
