(* ===== verification/TcpOutput.v ===== *)
(** The sending half of a connection (kernel/net/src/socket.rs): data accepted
    from the user and cut into segments, acknowledgements with congestion
    control and loss recovery, and the retransmission timer. *)

From Stdlib Require Import ZArith Lia.
From stdpp Require Import base list list_numbers numbers.
From S2P Require Import Prelude Machine Wire Tcp TcpConn.

(** * Updating parts of the sender *)
Definition with_buffer (s : SendSpace) (buf : list TcpSegment) : SendSpace :=
  mkSend (snd_una s) (snd_nxt s) (snd_wnd s) (snd_mss s) (highest_sacked s) buf (send_buffer_bytes s).
Definition on_segment (f : TcpSegment -> TcpSegment) (i : nat) (t : Sender) : Sender :=
  mkSender (with_buffer (snd t) (alter f i (send_buffer (snd t)))) (cong t) (tim t).
Definition with_cong (t : Sender) (c : Congestion) : Sender := mkSender (snd t) c (tim t).
Definition with_dups (c : Congestion) (n : Z) : Congestion :=
  mkCong (cwnd c) (ssthresh c) n (congestion_state c) (recover c).
Definition touch_activity (now_ms : Z) (t : Sender) : Sender :=
  mkSender (snd t) (cong t)
    (mkTiming (rto_ms (tim t)) (srtt_us (tim t)) (rttvar_us (tim t)) (retries (tim t)) now_ms
       (keepalive_probes_sent (tim t)) (peer_ack_generation (tim t))).

(** * Retries of one segment *)
Definition retry_due (now_ms : Z) (seg : TcpSegment) : bool := retry_not_before_ms (retry seg) <=? now_ms.

Definition record_tx_rejection (now_ms : Z) (r : Retry) : Retry :=
  let count := Z.min (tx_reject_count r + 1) 255 in
  let shift := Z.min (saturating_sub count 1) 7 in
  let delay := Z.min (Z.shiftl 10 shift) 1000 in
  mkRetry (pending r) (in_flight r) (requires_rto r) count (saturating_add now_ms delay).

Definition with_retry (r : Retry) (seg : TcpSegment) : TcpSegment :=
  mkSeg (s_seq seg) (s_data seg) (sent_at seg) (retrans_count seg) (sacked seg) (lost seg) r.

(** Set [retransmit_pending] *)
Definition mark_pending (seg : TcpSegment) : TcpSegment :=
  let r := retry seg in
  with_retry (mkRetry true (in_flight r) (requires_rto r) (tx_reject_count r) (retry_not_before_ms r)) seg.

(** The egress queue refused the segment. *)
Definition refused (now_ms : Z) (seg : TcpSegment) : TcpSegment :=
  let seg := mark_pending seg in with_retry (record_tx_rejection now_ms (retry seg)) seg.

(** The egress queue took the segment; the flags and the rejections are cleared. *)
Definition resent (now_ms : Z) (seg : TcpSegment) : TcpSegment :=
  mkSeg (s_seq seg) (s_data seg) now_ms (Z.min (retrans_count seg + 1) 255) (sacked seg) (lost seg)
    (mkRetry false (in_flight (retry seg)) false 0 0).

(** * Sending ([tcp_send]) *)
Inductive SocketError :=
| SocketMessageTooLarge | SocketInvalidState | SocketTimeout | SocketWouldBlock | SocketNoMemory.

Inductive SendResult := Sent (n : Z) | SendFailed (e : SocketError).

Definition TCP_ETHERNET_MSS : Z := 1460.
Definition TCP_MAX_SEND_SIZE : Z := 64 * 1024.
Definition TCP_MAX_SEND_BUFFER_BYTES : Z := 4 * 1024 * 1024.

Definition new_segment (seq now_ms : Z) (data : list Z) : TcpSegment :=
  mkSeg seq data now_ms 0 false false (mkRetry false false false 0 0).

(** The loop over chunks: the segments buffered and the bytes they hold.
    [chunk_ok offset]: every allocation for the chunk at [offset] succeeds. *)
Fixpoint segment_loop (rounds : nat) (chunk_ok : Z -> bool) (base_seq now_ms : Z) (payload : list Z) (offset : Z)
  : list TcpSegment * Z :=
  match rounds with
  | O => ([], offset)
  | S rounds =>
      if offset <? zlen payload then
        let fin := Z.min (offset + TCP_ETHERNET_MSS) (zlen payload) in
        if negb (chunk_ok offset) then ([], offset) else
        let data := take (Z.to_nat (fin - offset)) (drop (Z.to_nat offset) payload) in
        let '(segs, last) := segment_loop rounds chunk_ok base_seq now_ms payload fin in
        (new_segment (wadd base_seq (wrap32 offset)) now_ms data :: segs, last)
      else ([], offset)
  end.

(** A chunk takes at least one byte. *)
Definition segment_rounds (payload : list Z) : nat := length payload.

(** [charge]: what the namespace budget answers for the payload *)
Definition tcp_send (st : TcpState) (charge : option SocketError) (chunk_ok : Z -> bool) (now_ms : Z) (payload : list Z)
  (t : Sender) : SendResult * Sender :=
  if TCP_MAX_SEND_SIZE <? zlen payload then (SendFailed SocketMessageTooLarge, t) else
  if negb (can_send st) then (SendFailed SocketInvalidState, t) else
  if zlen payload =? 0 then (Sent 0, t) else
  let t := validate_cwnd_after_idle now_ms t in
  if send_window_available t <? zlen payload then (SendFailed SocketTimeout, t) else
  if TCP_MAX_SEND_BUFFER_BYTES <? send_buffer_bytes (snd t) + zlen payload then (SendFailed SocketWouldBlock, t) else
  match charge with Some e => (SendFailed e, t) | None =>
  let s := snd t in
  let base_seq := snd_nxt s in
  let '(segs, offset) := segment_loop (segment_rounds payload) chunk_ok base_seq now_ms payload 0 in
  if offset =? 0 then (SendFailed SocketNoMemory, t) else
  (Sent offset,
   touch_activity now_ms
     (mkSender (mkSend (snd_una s) (wadd base_seq (wrap32 offset)) (snd_wnd s) (snd_mss s) (highest_sacked s)
        (send_buffer s ++ segs) (saturating_add (send_buffer_bytes s) offset)) (cong t) (tim t)))
  end.

(** The FIN takes one sequence number. *)
Definition send_fin (t : Sender) : Sender :=
  let s := snd t in
  mkSender (mkSend (snd_una s) (wadd (snd_nxt s) 1) (snd_wnd s) (snd_mss s) (highest_sacked s)
    (send_buffer s) (send_buffer_bytes s)) (cong t) (tim t).

(** With the endpoints known and the security hook passed: the new state,
    [fin_sent] and the sender; [SHUT_RD] and a second FIN change nothing. *)
Definition tcp_shutdown (how : Z) (st : TcpState) (fin_sent build_ok : bool) (t : Sender)
  : res SocketError (TcpState * bool * Sender) :=
  if negb ((how =? 0) || (how =? 1) || (how =? 2)) then Err SocketInvalidState else
  if how =? 0 then Ok (st, fin_sent, t) else
  if fin_sent then Ok (st, fin_sent, t) else
  if negb (can_send st) then Err SocketInvalidState else
  if negb build_ok then Err SocketNoMemory else
  let next_state := match st with Established => FinWait1 | CloseWait => LastAck | other => other end in
  Ok (next_state, true, send_fin t).

(** * Acknowledgements ([apply_ack_and_cc]) *)
Definition eligible (now_ms : Z) (seg : TcpSegment) : bool :=
  negb (in_flight (retry seg)) && retry_due now_ms seg.

Record AckInput := mkAckInput {
  a_ack : Z; a_blocks : SackBlocks; a_has_payload : bool; a_window : Z; a_now : Z;
}.

(** The segment to send again for an action, then one whose retry is pending *)
Definition retransmit_index (sack_enabled : bool) (now_ms : Z) (action : CongestionAction) (s : SendSpace)
  : option nat :=
  let buf := send_buffer s in
  let action_idx :=
    match action with
    | FastRetransmit | RetransmitNext =>
        let first := position (eligible now_ms) buf in
        if sack_enabled then
          match sack_find_lost_segment s with
          | Some i => match buf !! i with
                      | Some seg => if eligible now_ms seg then Some i else first
                      | None => first
                      end
          | None => first
          end
        else first
    | _ => None
    end in
  match action_idx with
  | Some i => Some i
  | None => position (fun seg => pending (retry seg) && eligible now_ms seg) buf
  end.

(** The handling of the chosen segment; [build_ok] and [queue_ok] are the
    outcomes of preparing and queueing the packet. *)
Definition retransmit_now (build_ok queue_ok : bool) (now_ms : Z) (action : CongestionAction)
  (before : Congestion) (i : nat) (t : Sender) : (bool * bool) * Sender :=
  let restore t := match action with FastRetransmit => with_cong t before | _ => t end in
  if negb build_ok then
    ((false, false), match action with
                     | FastRetransmit => with_cong t before
                     | RetransmitNext => on_segment mark_pending i t
                     | _ => t
                     end)
  else if negb queue_ok then ((false, false), restore (on_segment (refused now_ms) i t))
  else ((true, false), touch_activity now_ms (on_segment (resent now_ms) i t)).

(** What follows [handle_ack]: the scoreboard, congestion control, a retransmission.
    Returns whether something was retransmitted and whether new data may be sent. *)
Definition after_ack (sack_enabled build_ok queue_ok : bool) (inp : AckInput) (upd : AckUpdate) (t : Sender)
  : (bool * bool) * Sender :=
  let now_ms := a_now inp in
  let t := if sack_enabled && negb (zlen (a_blocks inp) =? 0)
           then mkSender (sack_mark_lost (process_sack_blocks (a_blocks inp) (snd t))) (cong t) (tim t) else t in
  let is_window_update := negb (a_window inp =? snd_wnd (snd t)) in
  let has_eligible := existsb (eligible now_ms) (send_buffer (snd t)) in
  let t := if duplicate upd && negb has_eligible then with_cong t (with_dups (cong t) 0) else t in
  let is_pure_dup_ack := duplicate upd && negb (a_has_payload inp) && negb is_window_update && has_eligible in
  let before := cong t in
  let '(action, t) := update_congestion_control (newly_acked upd) is_pure_dup_ack (a_ack inp) t in
  match action with
  | LimitedTransmit => ((false, true), t)
  | _ =>
      match retransmit_index sack_enabled now_ms action (snd t) with
      | Some i => retransmit_now build_ok queue_ok now_ms action before i t
      | None =>
          ((false, false),
           match action with
           | FastRetransmit => with_cong t before
           | RetransmitNext =>
               if zlen (send_buffer (snd t)) =? 0
               then with_cong t (mkCong (Z.max (ssthresh (cong t)) (snd_mss (snd t))) (ssthresh (cong t)) 0
                                   CongestionAvoidance (recover (cong t)))
               else t
           | _ => t
           end)
      end
  end.

Definition apply_ack_and_cc (sack_enabled build_ok queue_ok : bool) (inp : AckInput) (t : Sender)
  : (bool * bool) * Sender :=
  let '(upd, t) := handle_ack (a_ack inp) (a_now inp) t in
  after_ack sack_enabled build_ok queue_ok inp upd t.

(** The peer's window, from a segment that is not older than the one it was last
    taken from; [wl1] and [wl2] are [snd_wl1] and [snd_wl2]. *)
Definition update_send_window (seq ack raw scale wl1 wl2 : Z) (t : Sender) : (Z * Z) * Sender :=
  if negb (seq_gt seq wl1 || (seq =? wl1) && seq_ge ack wl2) then ((wl1, wl2), t) else
  let s := snd t in
  ((seq, ack), mkSender (mkSend (snd_una s) (snd_nxt s) (decode_window raw scale) (snd_mss s) (highest_sacked s)
    (send_buffer s) (send_buffer_bytes s)) (cong t) (tim t)).

(** * The retransmission timer *)
Record RetransmitWork := mkWork { w_seq : Z; w_generation : Z }.

Definition TCP_MAX_RETRIES : Z := 15.

(** The states in which buffered data is sent again *)
Definition retransmits (st : TcpState) : bool :=
  match st with
  | Established | CloseWait | FinWait1 | FinWait2 | Closing | LastAck => true
  | _ => false
  end.

(** The part of [run_tcp_timers] that prepares a retransmission; a connection
    out of retries is cleaned up instead. [build_ok]: the work slot and the packet
    could be allocated *)
Definition prepare_data_retransmit (st : TcpState) (build_ok : bool) (now_ms : Z) (t : Sender)
  : option RetransmitWork * Sender :=
  if (TCP_MAX_RETRIES <=? retries (tim t)) || negb (retransmits st) then (None, t) else
  let buf := send_buffer (snd t) in
  let pending_idx := position (fun seg => pending (retry seg) && eligible now_ms seg) buf in
  let rto_idx :=
    match buf with
    | seg :: _ => if eligible now_ms seg && (rto_ms (tim t) <=? saturating_sub now_ms (sent_at seg))
                  then Some O else None
    | [] => None
    end in
  let idx := match pending_idx with Some i => Some i | None => rto_idx end in
  match idx with
  | None => (None, t)
  | Some i =>
      let is_pending := match pending_idx with Some _ => true | None => false end in
      match buf !! i with
      | Some seg =>
          if build_ok then
            (Some (mkWork (s_seq seg) (peer_ack_generation (tim t))),
             on_segment (fun seg => let r := retry seg in
               with_retry (mkRetry true true (requires_rto r || negb is_pending) (tx_reject_count r)
                             (retry_not_before_ms r)) seg) i t)
          else (None, t)
      | None => (None, t)
      end
  end.

(** [finish_data_retransmit_with_queue], after the packet was offered *)
Definition finish_data_retransmit (w : RetransmitWork) (queued : bool) (now_ms : Z) (t : Sender) : bool * Sender :=
  match position (fun seg => (s_seq seg =? w_seq w) && in_flight (retry seg)) (send_buffer (snd t)) with
  | None => (queued, t)
  | Some i =>
      let landed seg := let r := retry seg in
        with_retry (mkRetry (pending r) false (requires_rto r) (tx_reject_count r) (retry_not_before_ms r)) seg in
      if negb queued then (false, on_segment (fun seg => refused now_ms (landed seg)) i t) else
      let requires := match send_buffer (snd t) !! i with
                      | Some seg => requires_rto (retry seg) && (peer_ack_generation (tim t) =? w_generation w)
                      | None => false
                      end in
      let t := on_segment (fun seg => resent now_ms (landed seg)) i t in
      let t :=
        if requires then
          let t := handle_retransmission_timeout t in
          mkSender (sack_clear_scoreboard (snd t)) (cong t)
            (mkTiming (Z.min (saturating_mul (rto_ms (tim t)) 2) TCP_MAX_RTO_MS) (srtt_us (tim t)) (rttvar_us (tim t))
               (Z.min (retries (tim t) + 1) 255) (last_activity (tim t)) (keepalive_probes_sent (tim t))
               (peer_ack_generation (tim t)))
        else t in
      (true, touch_activity now_ms t)
  end.
