(* ===== verification/TcpSendFacts.v ===== *)
(** Lemmas on the sending half of a connection: the retransmission buffer
    against the stream sent, the bounds of congestion control and timing. *)

From Stdlib Require Import ZArith Lia.
From stdpp Require Import base list list_numbers numbers.
From S2P Require Import Prelude Machine Wire WireFacts NetFacts Tcp TcpFacts TcpConn TcpOutput.

#[local] Ltac dlia := Z.to_euclidean_division_equations; lia.

(** * What the buffer holds *)

(** What of a segment is fixed when it is cut *)
Definition body (seg : TcpSegment) : Z * list Z := (s_seq seg, s_data seg).

Section stream.
(** The first byte of the stream has sequence number [base]. *)
Context (base : Z).

(** Neighbouring segments from position [o] to [e] *)
Fixpoint tiles (o : Z) (l : list (Z * list Z)) (e : Z) : Prop :=
  match l with
  | [] => o = e
  | (q, d) :: l => q = wadd base o /\ 0 < zlen d <= TCP_ETHERNET_MSS /\ tiles (o + zlen d) l e
  end.

Lemma tiles_le o l e : tiles o l e -> o <= e.
Proof.
  revert o. induction l as [|[q d] l IH]; intros o; cbn [tiles]; [lia|].
  intros (_ & ? & H%IH). lia.
Qed.

Lemma tiles_app o l1 m l2 e : tiles o l1 m -> tiles m l2 e -> tiles o (l1 ++ l2) e.
Proof.
  revert o. induction l1 as [|[q d] l1 IH]; intros o; cbn [tiles app]; [by intros ->|].
  intros (? & ? & ?) ?. split; [done|]. split; [done|]. by apply IH.
Qed.

Lemma tiles_concat o l e : tiles o l e -> zlen (concat (map Datatypes.snd l)) = e - o.
Proof.
  revert o. induction l as [|[q d] l IH]; intros o; cbn [tiles map concat Datatypes.snd]; [intros ->; unfold zlen; simpl; lia|].
  intros (_ & ? & H%IH). rewrite zlen_app. lia.
Qed.

(** The retransmission buffer of a sender that has sent [T] (and a FIN) and had
    positions below [a] acknowledged; [f] is the first byte still buffered. *)
Record sent_ok (T : list Z) (fin : bool) (a f : Z) (t : Sender) : Prop := {
  so_una : snd_una (snd t) = wadd base a;
  so_nxt : snd_nxt (snd t) = wadd base (zlen T + (if fin then 1 else 0));
  so_range : 0 <= f <= a /\ a <= zlen T + (if fin then 1 else 0);
  so_tiles : tiles f (map body (send_buffer (snd t))) (zlen T);
  so_data : concat (map s_data (send_buffer (snd t))) = drop (Z.to_nat f) T;
  so_front : forall seg rest, send_buffer (snd t) = seg :: rest -> a < f + zlen (s_data seg);
  so_bytes : send_buffer_bytes (snd t) = zlen T - f;
  so_cap : zlen T - f <= TCP_MAX_SEND_BUFFER_BYTES;
}.

Lemma concat_body buf : concat (map Datatypes.snd (map body buf)) = concat (map s_data buf).
Proof. rewrite map_map. done. Qed.

(** Only positions, window and the bodies of the segments matter. *)
Lemma sent_ok_body T fin a f t t' :
  sent_ok T fin a f t -> snd_una (snd t') = snd_una (snd t) -> snd_nxt (snd t') = snd_nxt (snd t) ->
  map body (send_buffer (snd t')) = map body (send_buffer (snd t)) ->
  send_buffer_bytes (snd t') = send_buffer_bytes (snd t) -> sent_ok T fin a f t'.
Proof.
  intros [Hu Hn Hr Ht Hd Hf Hb Hc] Hu' Hn' Hbody Hb'. constructor; try congruence; try done.
  - by rewrite <- concat_body, Hbody, concat_body.
  - intros seg rest Hs. rewrite Hs in Hbody. cbn [map] in Hbody.
    destruct (send_buffer (snd t)) as [|seg0 rest0]; [done|]. cbn [map] in Hbody.
    assert (s_data seg = s_data seg0) as -> by (unfold body in Hbody; congruence). by apply (Hf _ rest0).
Qed.

(** ** Bodies are left alone *)
Lemma alter_bodies f i buf : (forall seg, body (f seg) = body seg) -> map body (alter f i buf) = map body buf.
Proof.
  intros Hf. revert i. induction buf as [|seg buf IH]; intros [|i]; try done.
  - cbn. by rewrite Hf.
  - change (alter f (S i) (seg :: buf)) with (seg :: alter f i buf). cbn [map]. by rewrite IH.
Qed.

Lemma sweep_bodies una blocks buf : map body (sweep una blocks buf) = map body buf.
Proof.
  revert blocks. induction buf as [|seg buf IH]; intros blocks; [done|]. cbn [sweep map]. rewrite IH. f_equal.
  destruct (skip_blocks _ _) as [|[bl br] ?]; [done|]. by destruct (_ && _).
Qed.

Lemma mark_lost_bodies h buf : map body (mark_lost h buf).1 = map body buf.
Proof.
  induction buf as [|seg buf IH]; [done|]. cbn [mark_lost]. destruct (mark_lost h buf) as [buf' above]. cbn [fst] in IH.
  destruct (sacked seg); [cbn; by rewrite IH|]. destruct (_ && _); cbn; by rewrite IH.
Qed.

Lemma process_sack_same blocks s :
  snd_una (process_sack_blocks blocks s) = snd_una s /\ snd_nxt (process_sack_blocks blocks s) = snd_nxt s /\
  snd_wnd (process_sack_blocks blocks s) = snd_wnd s /\ snd_mss (process_sack_blocks blocks s) = snd_mss s /\
  map body (send_buffer (process_sack_blocks blocks s)) = map body (send_buffer s) /\
  send_buffer_bytes (process_sack_blocks blocks s) = send_buffer_bytes s.
Proof. unfold process_sack_blocks. destruct (omap _ _); [done|]. cbn. split_and!; try done. apply sweep_bodies. Qed.

(** ** Cutting the payload *)
Lemma segment_loop_spec rounds chunk_ok now payload o n0 :
  0 <= o <= zlen payload -> zlen payload <= TCP_MAX_SEND_SIZE ->
  let '(segs, last) := segment_loop rounds chunk_ok (wadd base n0) now payload o in
  o <= last <= zlen payload /\ tiles (n0 + o) (map body segs) (n0 + last) /\
  concat (map s_data segs) = take (Z.to_nat (last - o)) (drop (Z.to_nat o) payload) /\
  ((forall x, chunk_ok x = true) -> zlen payload - o <= Z.of_nat rounds -> last = zlen payload).
Proof.
  revert o. induction rounds as [|rounds IH]; intros o Ho Hmax; cbn [segment_loop].
  { rewrite Z.sub_diag. split_and!; try done; lia. }
  destruct (Z.ltb_spec o (zlen payload)); cycle 1.
  { rewrite Z.sub_diag. split_and!; try done; lia. }
  destruct (chunk_ok o) eqn:Hc; cbn [negb]; cycle 1.
  { rewrite Z.sub_diag. split_and!; try done; try lia. intros Hall. by rewrite Hall in Hc. }
  set (fin := Z.min (o + TCP_ETHERNET_MSS) (zlen payload)).
  assert (o < fin <= o + TCP_ETHERNET_MSS /\ fin <= zlen payload) as [Hf1 Hf2] by (unfold fin, TCP_ETHERNET_MSS; lia).
  specialize (IH fin ltac:(lia) Hmax). destruct (segment_loop rounds _ _ _ _ fin) as [segs last].
  destruct IH as (Hl & Ht & Hd & Hall). cbn [map concat s_data new_segment].
  set (data := take (Z.to_nat (fin - o)) (drop (Z.to_nat o) payload)).
  assert (zlen data = fin - o) as Hlen by (unfold data, zlen in *; rewrite length_take, length_drop; lia).
  split_and!; try lia.
  - change (body (new_segment ?q _ ?d)) with (q, d). cbn [tiles]. fold data. rewrite Hlen. split_and!; try lia.
    + rewrite wrap32_id, wadd_assoc by (unfold TCP_MAX_SEND_SIZE in *; lia). done.
    + by replace (n0 + o + (fin - o)) with (n0 + fin) by lia.
  - rewrite Hd. unfold data. replace (Z.to_nat (last - o)) with (Z.to_nat (fin - o) + Z.to_nat (last - fin))%nat by lia.
    rewrite <- take_take_drop, drop_drop. do 3 f_equal. lia.
  - intros Hx Hr. apply Hall; [done|lia].
Qed.

(** ** Timing *)
Definition timing_ok (tm : Timing) : Prop :=
  TCP_MIN_RTO_MS <= rto_ms tm <= TCP_MAX_RTO_MS /\ 0 <= srtt_us tm <= 600000000 /\ 0 <= rttvar_us tm <= 600000000.

Lemma update_rtt_ok tm sample : timing_ok tm -> 0 <= sample -> timing_ok (update_rtt tm sample).
Proof.
  intros (Hr & Hs & Hv) Hp. unfold update_rtt. destruct ((sample =? 0) || (600000000 <? sample)) eqn:Hc; [done|].
  apply orb_false_iff in Hc as [?%Z.eqb_neq ?%Z.ltb_ge]. unfold timing_ok, TCP_MIN_RTO_MS, TCP_MAX_RTO_MS in *.
  destruct (srtt_us tm =? 0); cbn [rto_ms srtt_us rttvar_us]; [split; [lia|split; [lia|dlia]]|].
  destruct (Z.ltb_spec sample (srtt_us tm)); (split; [lia|split; dlia]).
Qed.

(** ** Acknowledged segments leave the buffer *)
Lemma pop_acked_spec buf a' now sampled tm o e :
  tiles o (map body buf) e -> o <= a' <= e + 1 -> e - o <= TCP_MAX_SEND_BUFFER_BYTES -> timing_ok tm ->
  let '(buf', bytes', tm') := pop_acked buf (e - o) (wadd base a') now sampled tm in
  exists popped o', buf = popped ++ buf' /\ zlen (concat (map s_data popped)) = o' - o /\
    tiles o' (map body buf') e /\ o <= o' <= a' /\ bytes' = e - o' /\ timing_ok tm' /\
    (forall seg rest, buf' = seg :: rest -> a' < o' + zlen (s_data seg)).
Proof.
  revert o sampled tm. induction buf as [|seg buf IH]; intros o sampled tm Ht Ha Hcap Htm; cbn [pop_acked].
  { exists [], o. split_and!; try done; try lia. unfold zlen. simpl. lia. }
  cbn [map tiles body] in Ht. destruct Ht as (Hq & Hl & Ht). pose proof (tiles_le _ _ _ Ht) as Hle.
  unfold TCP_ETHERNET_MSS, TCP_MAX_SEND_BUFFER_BYTES in *.
  assert (seg_end seg = wadd base (o + zlen (s_data seg))) as ->
    by (unfold seg_end; rewrite Hq, wrap32_id, wadd_assoc by lia; done).
  rewrite seq_ge_offset by lia. destruct (Z.leb_spec (o + zlen (s_data seg)) a') as [Hin|Hout]; cbn [negb]; cycle 1.
  { exists [], o. split_and!; try done; try lia; [unfold zlen; simpl; lia|]. intros s rest [= <- <-]. lia. }
  replace (saturating_sub (e - o) (zlen (s_data seg))) with (e - (o + zlen (s_data seg)))
    by (unfold saturating_sub; lia).
  assert (forall sampled' tm', timing_ok tm' ->
    let '(buf', bytes', tm'') := pop_acked buf (e - (o + zlen (s_data seg))) (wadd base a') now sampled' tm' in
    exists popped o', seg :: buf = popped ++ buf' /\ zlen (concat (map s_data popped)) = o' - o /\
      tiles o' (map body buf') e /\ o <= o' <= a' /\ bytes' = e - o' /\ timing_ok tm'' /\
      (forall seg rest, buf' = seg :: rest -> a' < o' + zlen (s_data seg))) as Hgo.
  { intros sampled' tm' Htm'. specialize (IH (o + zlen (s_data seg)) sampled' tm' Ht ltac:(lia) ltac:(lia) Htm').
    destruct (pop_acked _ _ _ _ _ _) as [[buf' bytes'] tm'']. destruct IH as (popped & o' & -> & Hz & Ht' & Hr & Hb & Hm & Hf).
    exists (seg :: popped), o'. split_and!; try done; try lia. cbn [map concat]. rewrite zlen_app. lia. }
  destruct (negb sampled && (retrans_count seg =? 0)); apply Hgo; [|done].
  apply update_rtt_ok; [done|]. unfold saturating_mul, saturating_sub, usize_max, u64_max. lia.
Qed.

Lemma concat_app_drop (l1 l2 : list (list Z)) k T :
  concat (l1 ++ l2) = drop k T -> concat l2 = drop (k + length (concat l1)) T.
Proof. intros H. rewrite concat_app in H. rewrite <- drop_drop, <- H. by rewrite drop_app_length. Qed.

(** A number ahead of another by a distance up to 2^32 *)
Lemma seq_gt_ahead x d k : 0 <= d < 2 ^ 32 -> 0 <= k < 2 ^ 31 ->
  seq_gt (wadd base (x + d)) (wadd base (x + k)) = (k <? d) && (d - k <? 2 ^ 31).
Proof.
  intros Hd Hk. unfold seq_gt. rewrite wsub_wadd. unfold as_i32, wrap32.
  replace (x + d - (x + k)) with (d - k) by lia. zb; try done; dlia.
Qed.

(** Any acknowledgement number: it moves the stream to the position it names
    when that lies in flight, and is no news otherwise. *)
Lemma handle_ack_spec T fin a f ack now t :
  sent_ok T fin a f t -> timing_ok (tim t) -> 0 <= ack < 2 ^ 32 ->
  let '(upd, t') := handle_ack ack now t in
  exists a' f', sent_ok T fin a' f' t' /\ f <= f' /\ timing_ok (tim t') /\ cong t' = cong t /\
    snd_mss (snd t') = snd_mss (snd t) /\ snd_wnd (snd t') = snd_wnd (snd t) /\
    (let p := a + wsub ack (wadd base a) in
     a' = (if p <=? zlen T + (if fin then 1 else 0) then p else a)) /\
    newly_acked upd = a' - a /\ (duplicate upd = true <-> ack = wadd base a).
Proof.
  intros Hs Htm Hack. pose proof Hs as [Hu Hn (Hr1 & Hr2) Ht Hd Hf Hb Hc]. unfold TCP_MAX_SEND_BUFFER_BYTES in Hc.
  set (N := zlen T + (if fin then 1 else 0)) in *. pose proof (tiles_le _ _ _ Ht) as Hfe.
  assert (0 <= N - zlen T <= 1) as HN by (unfold N; destruct fin; lia).
  set (d := wsub ack (wadd base a)). assert (0 <= d < 2 ^ 32) as Hd32 by (unfold d, wsub, wrap32; apply Z.mod_pos_bound; lia).
  assert (ack = wadd base (a + d)) as Hackd.
  { unfold d, wsub, wadd, wrap32. rewrite <- (Z.mod_small ack (2 ^ 32)) at 1 by lia.
    rewrite Zminus_mod_idemp_r. replace (base + (a + _)) with ((base + a) + (ack - (base + a)) mod 2 ^ 32) by lia.
    rewrite Zplus_mod_idemp_r. f_equal. lia. }
  assert (seq_gt ack (snd_nxt (snd t)) = (N - a <? d) && (d - (N - a) <? 2 ^ 31)) as Hgt1.
  { rewrite Hn, Hackd at 1. replace N with (a + (N - a)) at 1 by lia. apply seq_gt_ahead; lia. }
  assert (seq_gt ack (snd_una (snd t)) = (0 <? d) && (d - 0 <? 2 ^ 31)) as Hgt2.
  { rewrite Hu, Hackd at 1. replace (wadd base a) with (wadd base (a + 0)) by (f_equal; lia). apply seq_gt_ahead; lia. }
  assert ((ack =? snd_una (snd t)) = (d =? 0)) as Heq.
  { rewrite Hu. destruct (Z.eqb_spec d 0) as [H0|H0].
    - apply Z.eqb_eq. rewrite Hackd, H0. f_equal. lia.
    - apply Z.eqb_neq. intros Hx. apply H0. unfold d. rewrite Hx. unfold wsub, wrap32. rewrite Z.sub_diag. done. }
  assert (ack = wadd base a <-> d = 0) as Hdup by (rewrite <- Hu, <- Z.eqb_eq, Heq; apply Z.eqb_eq).
  assert (forall t', snd t' = snd t -> sent_ok T fin a f t') as Hstay
    by (intros t' Ht'; eapply sent_ok_body; [exact Hs|by rewrite Ht'..]).
  unfold handle_ack. rewrite Hgt1, Hgt2, Heq. cbv zeta. cbn [rto_ms srtt_us rttvar_us retries last_activity keepalive_probes_sent peer_ack_generation].
  destruct (Z.leb_spec (a + d) N) as [Hin|Hout]; cycle 1.
  { destruct (Z.ltb_spec (N - a) d), (Z.ltb_spec (d - (N - a)) (2 ^ 31)); cbn [andb]; try lia.
    - exists a, f. cbn [newly_acked duplicate]. split_and!; try done; try lia.
    - destruct (Z.ltb_spec 0 d), (Z.ltb_spec (d - 0) (2 ^ 31)); cbn [andb]; try lia.
      exists a, f. cbn [newly_acked duplicate cong tim snd]. split_and!; try done; try lia. }
  destruct (Z.ltb_spec (N - a) d); [lia|]. cbn [andb].
  destruct (Z.ltb_spec 0 d) as [Hpos|Hzero], (Z.ltb_spec (d - 0) (2 ^ 31)); cbn [andb]; try lia; cycle 1.
  { exists a, f. cbn [newly_acked duplicate cong tim snd]. split_and!; try done; try lia. }
  rewrite Hb, Hackd. match goal with |- context [pop_acked _ _ _ now false ?tm] =>
    pose proof (pop_acked_spec (send_buffer (snd t)) (a + d) now false tm f (zlen T) Ht ltac:(lia) ltac:(done) Htm) as Hpop end.
  destruct (pop_acked _ _ _ _ _ _) as [[buf' bytes'] tm'].
  destruct Hpop as (popped & f' & Hsplit & Hz & Ht' & Hr' & Hb' & Htm' & Hf').
  exists (a + d), f'. cbn [newly_acked duplicate cong tim snd snd_mss snd_wnd]. split_and!; try done; try lia.
  - constructor; cbn [snd snd_una snd_nxt send_buffer send_buffer_bytes]; try done; try lia.
    + rewrite Hsplit, map_app in Hd. apply concat_app_drop in Hd. rewrite Hd. f_equal. unfold zlen in Hz. lia.
    + unfold TCP_MAX_SEND_BUFFER_BYTES. lia.
  - rewrite Hu, wsub_offset by lia. lia.
Qed.
End stream.

(** * Congestion control *)
Record cong_ok (t : Sender) : Prop := {
  co_mss : 64 <= snd_mss (snd t) <= TCP_ETHERNET_MSS;
  co_cwnd : snd_mss (snd t) <= cwnd (cong t) <= u32_max;
  co_thresh : 2 * snd_mss (snd t) <= ssthresh (cong t) <= u32_max;
  co_dups : 0 <= dup_ack_count (cong t) <= 255;
  co_time : timing_ok (tim t);
}.

Lemma cong_ok_same t t' :
  cong_ok t -> snd_mss (snd t') = snd_mss (snd t) -> cong t' = cong t -> timing_ok (tim t') -> cong_ok t'.
Proof. intros [? ? ? ? ?] Hm Hc Ht. constructor; rewrite ?Hm, ?Hc; done. Qed.

Lemma flight_range s : 0 <= bytes_in_flight s < 2 ^ 32.
Proof. unfold bytes_in_flight, wsub, wrap32. apply Z.mod_pos_bound. lia. Qed.

Lemma initial_cwnd_range mss : 64 <= mss <= TCP_ETHERNET_MSS -> mss <= initial_cwnd mss <= 4 * mss.
Proof. unfold initial_cwnd, sat_mul32, u32_max, TCP_ETHERNET_MSS. lia. Qed.

Lemma update_cc_ok acked dup ack t :
  cong_ok t -> 0 <= acked ->
  let '(_, t') := update_congestion_control acked dup ack t in
  cong_ok t' /\ snd t' = snd t /\ tim t' = tim t.
Proof.
  intros [Hm Hc Ht Hd Htm] Ha. pose proof (flight_range (snd t)) as Hfl.
  unfold TCP_ETHERNET_MSS in Hm. unfold update_congestion_control, u32_max in *.
  assert (0 <= sat_mul32 (snd_mss (snd t)) (snd_mss (snd t)) / Z.max (cwnd (cong t)) 1) as Hinc
    by (apply Z.div_pos; unfold sat_mul32, u32_max; nia).
  destruct (0 <? acked); [|destruct dup; [|done]].
  - destruct (congestion_state (cong t)); [| |destruct (seq_ge _ _)]; (split; [|done]);
      constructor; cbn [snd cong tim cwnd ssthresh dup_ack_count]; try done; unfold sat_add32, saturating_sub, u32_max, TCP_ETHERNET_MSS; lia.
  - set (dups := Z.min (dup_ack_count (cong t) + 1) 255). assert (0 < dups <= 255) as Hdp by (unfold dups; lia).
    assert (bytes_in_flight (snd t) / 2 < 2 ^ 31) by dlia. assert (0 <= bytes_in_flight (snd t) / 2) by dlia.
    assert (Z.max (bytes_in_flight (snd t)) (snd_mss (snd t)) / 2 < 2 ^ 31) by dlia.
    destruct (congestion_state (cong t)); cbn [andb];
      repeat match goal with |- context [if ?b then _ else _] => destruct b end; (split; [|done]);
      constructor; cbn [snd cong tim cwnd ssthresh dup_ack_count]; try done; unfold sat_add32, u32_max, TCP_ETHERNET_MSS in *; lia.
Qed.

Lemma rto_ok t : cong_ok t -> cong_ok (handle_retransmission_timeout t).
Proof.
  intros [Hm Hc Ht Hd Htm]. pose proof (flight_range (snd t)). unfold handle_retransmission_timeout, TCP_ETHERNET_MSS, u32_max in *.
  assert (Z.max (bytes_in_flight (snd t)) (snd_mss (snd t)) / 2 < 2 ^ 31) by dlia.
  constructor; cbn [snd cong tim cwnd ssthresh dup_ack_count]; try done; unfold TCP_ETHERNET_MSS, u32_max; lia.
Qed.

(** ** Decay after idle time *)
Lemma decay_range rounds w floor : 0 < floor <= w -> floor <= decay rounds w floor <= w.
Proof.
  revert w. induction rounds as [|rounds IH]; intros w Hw; cbn [decay]; [lia|].
  destruct (Z.leb_spec w floor); [lia|]. specialize (IH (Z.max (w / 2) floor)). dlia.
Qed.

Lemma decay_below rounds w floor : w <= floor -> decay rounds w floor = w.
Proof. intros. destruct rounds; [done|]. cbn [decay]. destruct (Z.leb_spec w floor); [done|lia]. Qed.

(** A window below 2^k is down at the floor after k rounds. *)
Lemma decay_done k w floor : 0 < floor -> w < 2 ^ Z.of_nat k -> decay k w floor <= floor.
Proof.
  revert w. induction k as [|k IH]; intros w Hf Hw; cbn [decay]; [lia|].
  destruct (Z.leb_spec w floor); [done|]. rewrite Nat2Z.inj_succ, Z.pow_succ_r in Hw by lia.
  destruct (Z.max_spec (w / 2) floor) as [[_ ->]|[_ ->]]; [by rewrite decay_below|]. apply IH; [done|]. dlia.
Qed.

Lemma decay_add n m w floor : decay (n + m) w floor = decay m (decay n w floor) floor.
Proof.
  revert w. induction n as [|n IH]; intros w; [done|]. cbn [decay Nat.add].
  destruct (Z.leb_spec w floor); [|apply IH]. by rewrite decay_below.
Qed.

(** More rounds than [DECAY_ROUNDS] change nothing. *)
Lemma decay_rounds_enough n w floor :
  0 < floor -> w <= u32_max -> (DECAY_ROUNDS <= n)%nat -> decay n w floor = decay DECAY_ROUNDS w floor.
Proof.
  intros Hf Hw Hn. replace n with (DECAY_ROUNDS + (n - DECAY_ROUNDS))%nat by lia. rewrite decay_add.
  apply decay_below, decay_done; [done|]. unfold u32_max, DECAY_ROUNDS in *. lia.
Qed.

Lemma validate_ok now t :
  cong_ok t -> cong_ok (validate_cwnd_after_idle now t) /\
    snd (validate_cwnd_after_idle now t) = snd t /\ tim (validate_cwnd_after_idle now t) = tim t /\
    cwnd (cong (validate_cwnd_after_idle now t)) <= cwnd (cong t).
Proof.
  intros Hok. pose proof Hok as [Hm Hc Ht Hd Htm]. unfold validate_cwnd_after_idle.
  destruct (_ || _); [done|]. destruct (0 <? _); [done|]. destruct (_ <? rto_ms _); [done|].
  pose proof (initial_cwnd_range (snd_mss (snd t)) Hm) as Hi. set (w0 := Z.min (cwnd (cong t)) (initial_cwnd (snd_mss (snd t)))).
  set (w := if _ && _ then _ else w0).
  assert (snd_mss (snd t) <= w) as Hw.
  { subst w. destruct ((1 <? _) && _) eqn:Hc2; [|lia]. apply andb_true_iff in Hc2 as [_ Hlt%Z.ltb_lt].
    pose proof (decay_range (Z.to_nat (Z.min (saturating_sub now (last_activity (tim t)) / rto_ms (tim t) - 1) (Z.of_nat DECAY_ROUNDS)))
      w0 (Z.max (Z.max (ssthresh (cong t)) (snd_mss (snd t))) 1)). lia. }
  destruct (Z.ltb_spec w (cwnd (cong t))); [|done]. cbn [snd tim cong cwnd]. split_and!; try done; [|lia].
  constructor; cbn [snd cong tim cwnd ssthresh dup_ack_count]; try done. lia.
Qed.

(** * The operations *)
Section operations.
Context (base : Z).

Lemma flight_is T fin a f t :
  sent_ok base T fin a f t -> bytes_in_flight (snd t) = zlen T + (if fin then 1 else 0) - a.
Proof.
  intros [Hu Hn [Hr1 Hr2] _ _ _ _ Hc]. unfold bytes_in_flight. rewrite Hu, Hn. apply wsub_offset.
  unfold TCP_MAX_SEND_BUFFER_BYTES in Hc. destruct fin; lia.
Qed.

(** New data at the end of the stream *)
Lemma append_ok T a f t segs n payload now :
  sent_ok base T false a f t -> tiles base (zlen T) (map body segs) (zlen T + n) -> 0 < n ->
  concat (map s_data segs) = take (Z.to_nat n) payload ->
  send_buffer_bytes (snd t) + n <= TCP_MAX_SEND_BUFFER_BYTES ->
  let s := snd t in
  sent_ok base (T ++ take (Z.to_nat n) payload) false a f
    (touch_activity now (mkSender (mkSend (snd_una s) (wadd base (zlen T + n)) (snd_wnd s) (snd_mss s) (highest_sacked s)
       (send_buffer s ++ segs) (saturating_add (send_buffer_bytes s) n)) (cong t) (tim t))).
Proof.
  intros [Hu Hn [Hr1 Hr2] Ht Hd Hf Hb Hc] Htl Hn0 Hdata Hcap s.
  assert (zlen (take (Z.to_nat n) payload) = n) as Hz.
  { rewrite <- Hdata, <- concat_body. rewrite (tiles_concat _ _ _ _ Htl). lia. }
  pose proof (tiles_le _ _ _ _ Ht) as Hle. subst s.
  constructor; cbn [touch_activity snd snd_una snd_nxt send_buffer send_buffer_bytes];
    rewrite ?zlen_app, ?Hz, ?Z.add_0_r; try done; try lia.
  - rewrite map_app. by eapply tiles_app.
  - rewrite map_app, concat_app, Hd, Hdata, drop_app_le by (unfold zlen in *; lia). done.
  - intros seg rest Hs. destruct (send_buffer (snd t)) as [|seg0 rest0] eqn:E.
    + cbn [map tiles] in Ht. cbn [app] in Hs. subst segs. cbn [map tiles body] in Htl. lia.
    + cbn [app] in Hs. simplify_eq. by apply (Hf _ rest0).
  - unfold saturating_add, usize_max, u64_max, TCP_MAX_SEND_BUFFER_BYTES in *. lia.
Qed.

Lemma tcp_send_spec st charge chunk_ok now payload T a f t :
  sent_ok base T false a f t -> cong_ok t ->
  let '(result, t') := tcp_send st charge chunk_ok now payload t in
  cong_ok t' /\
  match result with
  | Sent n => 0 <= n <= zlen payload /\ sent_ok base (T ++ take (Z.to_nat n) payload) false a f t' /\
      (0 < n -> bytes_in_flight (snd t') <= Z.min (snd_wnd (snd t')) (Z.max (cwnd (cong t')) (snd_mss (snd t')))) /\
      ((forall x, chunk_ok x = true) -> n = zlen payload)
  | SendFailed _ => sent_ok base T false a f t'
  end.
Proof.
  intros Hs Hc. unfold tcp_send. pose proof (zlen_nonneg payload).
  destruct (Z.ltb_spec TCP_MAX_SEND_SIZE (zlen payload)); [done|]. destruct (can_send st); cbn [negb]; [|done].
  destruct (Z.eqb_spec (zlen payload) 0) as [Hz|Hz].
  { rewrite Hz. split_and!; try done. change (Z.to_nat 0) with 0%nat. by rewrite app_nil_r. }
  destruct (validate_ok now t Hc) as (Hc1 & Hs1 & Ht1 & _). set (t1 := validate_cwnd_after_idle now t) in *.
  assert (sent_ok base T false a f t1) as Hs' by (eapply sent_ok_body; [exact Hs|by rewrite Hs1..]).
  destruct (Z.ltb_spec (send_window_available t1) (zlen payload)) as [|Hwin]; [done|].
  destruct (Z.ltb_spec TCP_MAX_SEND_BUFFER_BYTES (send_buffer_bytes (snd t1) + zlen payload)) as [|Hcap]; [done|].
  destruct charge as [e|]; [done|].
  pose proof (so_nxt _ _ _ _ _ _ Hs') as Hn. rewrite Z.add_0_r in Hn. rewrite Hn.
  pose proof (segment_loop_spec base (segment_rounds payload) chunk_ok now payload 0 (zlen T)) as Hloop.
  destruct (segment_loop _ _ _ _ _ _) as [segs n]. destruct Hloop as (Hr & Ht & Hd & Hall); [lia|done|].
  rewrite Z.add_0_r, Z.sub_0_r in *. change (Z.to_nat 0) with 0%nat in *. rewrite drop_0 in Hd.
  destruct (Z.eqb_spec n 0) as [->|Hn0]; [done|].
  rewrite wadd_assoc, wrap32_id by (unfold TCP_MAX_SEND_SIZE in *; lia).
  pose proof (append_ok T a f t1 segs n payload now Hs' Ht ltac:(lia) Hd ltac:(lia)) as Hnew. cbv zeta in Hnew.
  split; [by eapply cong_ok_same; [exact Hc1|..]; try done; apply Hc1|]. split; [lia|]. split; [exact Hnew|]. split.
  - intros _. rewrite (flight_is _ _ _ _ _ Hnew). cbn [touch_activity snd snd_wnd snd_mss cong].
    unfold send_window_available, saturating_sub in Hwin. rewrite (flight_is _ _ _ _ _ Hs') in Hwin.
    assert (zlen (T ++ take (Z.to_nat n) payload) = zlen T + n) as ->
      by (rewrite zlen_app; unfold zlen in *; rewrite length_take; lia). lia.
  - intros Hx. apply Hall; [done|]. unfold segment_rounds, zlen. lia.
Qed.

(** ** Steps that leave the stream alone *)
Record keeps (t t' : Sender) : Prop := {
  ke_una : snd_una (snd t') = snd_una (snd t);
  ke_nxt : snd_nxt (snd t') = snd_nxt (snd t);
  ke_mss : snd_mss (snd t') = snd_mss (snd t);
  ke_bodies : map body (send_buffer (snd t')) = map body (send_buffer (snd t));
  ke_bytes : send_buffer_bytes (snd t') = send_buffer_bytes (snd t);
  ke_cong : cong_ok t -> cong_ok t';
}.

#[local] Instance keeps_preorder : PreOrder keeps.
Proof.
  split; [by intros t; constructor|]. intros t1 t2 t3 [? ? ? ? ? ?] [? ? ? ? ? ?]. constructor; try congruence. auto.
Qed.

Lemma keeps_sent T fin a f t t' : keeps t t' -> sent_ok base T fin a f t -> sent_ok base T fin a f t'.
Proof. intros [? ? ? ? ? ?] Hs. by eapply sent_ok_body. Qed.

Lemma on_segment_keeps f i t : (forall seg, body (f seg) = body seg) -> keeps t (on_segment f i t).
Proof.
  intros Hf. constructor; try done; [by apply alter_bodies|]. intros Hc. eapply cong_ok_same; [exact Hc|done..|apply Hc].
Qed.

Lemma touch_keeps now t : keeps t (touch_activity now t).
Proof. constructor; try done. intros Hc. eapply cong_ok_same; [exact Hc|done..|apply Hc]. Qed.

Lemma sack_keeps blocks t :
  keeps t (mkSender (sack_mark_lost (process_sack_blocks blocks (snd t))) (cong t) (tim t)).
Proof.
  destruct (process_sack_same blocks (snd t)) as (? & ? & ? & Hm & Hb & ?).
  constructor; cbn [snd sack_mark_lost snd_una snd_nxt snd_mss send_buffer send_buffer_bytes]; try done.
  - by rewrite mark_lost_bodies.
  - intros Hc. eapply cong_ok_same; [exact Hc|done..|apply Hc].
Qed.

Lemma clear_dups_keeps t : keeps t (with_cong t (with_dups (cong t) 0)).
Proof. constructor; try done. intros [? ? ? ? ?]. by constructor. Qed.

Lemma update_cc_keeps acked dup ack t t' action :
  0 <= acked -> update_congestion_control acked dup ack t = (action, t') -> keeps t t'.
Proof.
  intros Ha He. pose proof (fun Hc => update_cc_ok acked dup ack t Hc Ha) as Hok.
  assert (snd t' = snd t) as Hs.
  { clear Hok. revert He. unfold update_congestion_control.
    repeat match goal with
    | |- context [match ?x with _ => _ end] => destruct x
    | |- context [if ?b then _ else _] => destruct b
    end; intros [= <- <-]; done. }
  rewrite He in Hok. constructor; rewrite ?Hs; try done. intros Hc. by apply Hok.
Qed.

(** Congestion state put back as it was *)
Lemma restore_keeps t t' : keeps t t' -> keeps t (with_cong t' (cong t)).
Proof.
  intros [Hu Hn Hm Hb Hby Hc]. constructor; try done. intros Hok. specialize (Hc Hok).
  eapply cong_ok_same; [exact Hok|done..|apply Hc].
Qed.

Lemma retransmit_keeps build_ok queue_ok now action t0 i t :
  keeps t0 t -> keeps t0 (retransmit_now build_ok queue_ok now action (cong t0) i t).2.
Proof.
  intros Hk. unfold retransmit_now.
  assert (forall f, (forall seg, body (f seg) = body seg) -> keeps t0 (on_segment f i t)) as Hseg
    by (intros f Hf; etrans; [exact Hk|by apply on_segment_keeps]).
  destruct build_ok; cbn [negb]; cycle 1.
  { destruct action; cbn [Datatypes.snd]; try done; [by apply restore_keeps|by apply Hseg]. }
  destruct queue_ok; cbn [negb Datatypes.snd]; cycle 1.
  { destruct action; try (by apply Hseg). by apply restore_keeps, Hseg. }
  etrans; [|apply touch_keeps]. by apply Hseg.
Qed.

(** Where an acknowledgement number moves a stream acknowledged up to [a] *)
Definition ack_moves (T : list Z) (fin : bool) (a ack : Z) : Z :=
  let p := a + wsub ack (wadd base a) in
  if p <=? zlen T + (if fin then 1 else 0) then p else a.

Lemma after_ack_keeps sack_enabled build_ok queue_ok inp upd t :
  0 <= newly_acked upd -> keeps t (after_ack sack_enabled build_ok queue_ok inp upd t).2.
Proof.
  intros Hn. unfold after_ack. set (t1 := if sack_enabled && _ then _ else t).
  assert (keeps t t1) as H1 by (subst t1; destruct (_ && _); [apply sack_keeps|done]). clearbody t1.
  cbv zeta. set (dup := duplicate upd). set (el := existsb _ _). set (t2 := if dup && negb el then _ else t1).
  assert (keeps t t2) as H2 by (etrans; [exact H1|]; subst t2; destruct (dup && negb el); [apply clear_dups_keeps|done]).
  clearbody t2. etrans; [exact H2|].
  destruct (update_congestion_control _ _ _ t2) as [action t3] eqn:E. apply update_cc_keeps in E as H3; [|done].
  assert (keeps t2 (with_cong t3 (mkCong (Z.max (ssthresh (cong t3)) (snd_mss (snd t3))) (ssthresh (cong t3)) 0
            CongestionAvoidance (recover (cong t3))))) as H4.
  { etrans; [exact H3|]. constructor; try done. intros [Hm Hc Ht Hd Htm].
    constructor; cbn [with_cong snd cong tim cwnd ssthresh dup_ack_count]; try done; unfold TCP_ETHERNET_MSS in *; lia. }
  pose proof (restore_keeps _ _ H3) as H5.
  destruct (retransmit_index sack_enabled (a_now inp) action (snd t3)) as [i|].
  - pose proof (retransmit_keeps build_ok queue_ok (a_now inp) action t2 i t3 H3). by destruct action.
  - destruct action; cbn [Datatypes.snd]; try done.
    by destruct (zlen (send_buffer (snd t3)) =? 0).
Qed.

Lemma apply_ack_spec sack_enabled build_ok queue_ok inp T fin a f t :
  sent_ok base T fin a f t -> cong_ok t -> 0 <= a_ack inp < 2 ^ 32 ->
  exists f', sent_ok base T fin (ack_moves T fin a (a_ack inp)) f' (apply_ack_and_cc sack_enabled build_ok queue_ok inp t).2 /\
    cong_ok (apply_ack_and_cc sack_enabled build_ok queue_ok inp t).2 /\ f <= f'.
Proof.
  intros Hs Hc Ha. pose proof (handle_ack_spec base T fin a f (a_ack inp) (a_now inp) t Hs (co_time _ Hc) Ha) as Hack.
  unfold apply_ack_and_cc. destruct (handle_ack (a_ack inp) (a_now inp) t) as [upd t1].
  destruct Hack as (a' & f' & Hs1 & Hff & Htm & Hcg & Hm & _ & Ha' & Hnew & _).
  change (a' = ack_moves T fin a (a_ack inp)) in Ha'. exists f'. rewrite <- Ha'.
  pose proof (after_ack_keeps sack_enabled build_ok queue_ok inp upd t1) as Hk.
  assert (0 <= newly_acked upd) as Hpos.
  { rewrite Hnew, Ha'. unfold ack_moves. assert (0 <= wsub (a_ack inp) (wadd base a)) by
      (unfold wsub, wrap32; apply Z.mod_pos_bound; lia). destruct (_ <=? _); lia. }
  specialize (Hk Hpos). split; [by eapply keeps_sent|]. split; [|done].
  apply (ke_cong _ _ Hk). by eapply cong_ok_same.
Qed.

Lemma prepare_keeps st build_ok now t : keeps t (prepare_data_retransmit st build_ok now t).2.
Proof.
  unfold prepare_data_retransmit. destruct (_ || negb (retransmits st)); [done|].
  destruct (match position _ _ with Some _ => _ | None => _ end) as [i|]; [|done].
  destruct (send_buffer (snd t) !! i); [|done]. destruct build_ok; [|done]. by apply on_segment_keeps.
Qed.

Lemma loss_recovery_keeps t :
  keeps t (let t := handle_retransmission_timeout t in
    mkSender (sack_clear_scoreboard (snd t)) (cong t)
      (mkTiming (Z.min (saturating_mul (rto_ms (tim t)) 2) TCP_MAX_RTO_MS) (srtt_us (tim t)) (rttvar_us (tim t))
         (Z.min (retries (tim t) + 1) 255) (last_activity (tim t)) (keepalive_probes_sent (tim t))
         (peer_ack_generation (tim t)))).
Proof.
  cbv zeta. constructor; try done.
  - cbn [snd handle_retransmission_timeout sack_clear_scoreboard send_buffer]. by rewrite map_map.
  - intros Hc. pose proof (rto_ok t Hc) as Hr. eapply cong_ok_same; [exact Hr|done..|].
    destruct Hr as [_ _ _ _ (? & ? & ?)]. unfold timing_ok. cbn [tim rto_ms srtt_us rttvar_us].
    unfold saturating_mul, usize_max, u64_max, TCP_MIN_RTO_MS, TCP_MAX_RTO_MS in *. split_and!; try done; lia.
Qed.

Lemma finish_keeps w queued now t : keeps t (finish_data_retransmit w queued now t).2.
Proof.
  unfold finish_data_retransmit. destruct (position _ _) as [i|]; [|done].
  destruct queued; cbn [negb Datatypes.snd]; [|by apply on_segment_keeps].
  etrans; [|apply touch_keeps]. destruct (match send_buffer (snd t) !! i with Some _ => _ | None => _ end).
  - etrans; [|apply loss_recovery_keeps]. by apply on_segment_keeps.
  - by apply on_segment_keeps.
Qed.

Lemma window_keeps seq ack raw scale wl1 wl2 t : keeps t (update_send_window seq ack raw scale wl1 wl2 t).2.
Proof.
  unfold update_send_window. destruct (negb _); [reflexivity|].
  constructor; try done. intros Hc. eapply cong_ok_same; [exact Hc|done..|apply Hc].
Qed.

Lemma send_fin_ok T a f t : sent_ok base T false a f t -> sent_ok base T true a f (send_fin t).
Proof.
  intros [Hu Hn Hr Ht Hd Hf Hb Hc]. constructor; try done; [|lia].
  cbn [send_fin snd snd_nxt]. rewrite Hn, wadd_assoc. f_equal. lia.
Qed.

(** ** The timer does its work. *)
Lemma position_some P buf i : position P buf = Some i -> exists seg, buf !! i = Some seg /\ P seg = true.
Proof.
  revert i. induction buf as [|seg buf IH]; intros i; cbn [position]; [done|].
  destruct (P seg) eqn:Hp; [intros [= <-]; by exists seg|].
  destruct (position P buf) as [j|]; cbn [option_map]; [|done]. intros [= <-]. by apply IH.
Qed.

Lemma position_none P buf seg : position P buf = None -> seg ∈ buf -> P seg = false.
Proof.
  induction buf as [|x buf IH]; intros Hp Hs; [by apply not_elem_of_nil in Hs|]. cbn [position] in Hp.
  destruct (P x) eqn:E; [done|]. destruct (position P buf); [done|]. apply list.elem_of_cons in Hs as [->|Hs]; auto.
Qed.

(** When the front segment is overdue, a segment is prepared for sending again:
    one that waits for a retry that is due, and the front if there is none. *)
Lemma prepare_due st now t seg rest :
  retries (tim t) < TCP_MAX_RETRIES -> retransmits st = true ->
  send_buffer (snd t) = seg :: rest -> eligible now seg = true ->
  rto_ms (tim t) <= saturating_sub now (sent_at seg) ->
  exists w x, (prepare_data_retransmit st true now t).1 = Some w /\ x ∈ send_buffer (snd t) /\ w_seq w = s_seq x /\
    ((pending (retry x) = true /\ eligible now x = true) \/
     (x = seg /\ forall y, y ∈ send_buffer (snd t) -> eligible now y = true -> pending (retry y) = false)).
Proof.
  intros Hn Hst Hb He Hr. unfold prepare_data_retransmit. rewrite Hst, Hb, He.
  destruct (Z.leb_spec TCP_MAX_RETRIES (retries (tim t))); [lia|]. cbn [orb negb].
  destruct (Z.leb_spec (rto_ms (tim t)) (saturating_sub now (sent_at seg))); [|lia].
  cbn [andb]. destruct (position _ (seg :: rest)) as [i|] eqn:E.
  - apply position_some in E as (x & Hx & Hp). rewrite Hx. eexists _, x. split; [done|]. split; [by eapply list_elem_of_lookup_2|].
    apply andb_true_iff in Hp as [? ?]. split; [done|by left].
  - cbn [lookup list_lookup]. eexists _, seg. split; [done|]. split; [left|]. split; [done|right]. split; [done|].
    intros y Hy Hey. pose proof (position_none _ _ y E Hy) as Hp. cbv beta in Hp. rewrite Hey, andb_true_r in Hp. done.
Qed.

Lemma shutdown_cases how st fin build_ok t st' fin' t' :
  tcp_shutdown how st fin build_ok t = Ok (st', fin', t') -> (fin' = fin /\ t' = t) \/ (fin = false /\ fin' = true /\ t' = send_fin t).
Proof.
  unfold tcp_shutdown. destruct (negb _); [done|]. destruct (how =? 0); [intros; simplify_eq; auto|].
  destruct fin; [intros; simplify_eq; auto|]. destruct (can_send st); [|done]. destruct build_ok; [|done].
  cbn [negb]. intros; simplify_eq. auto.
Qed.

(** * Sessions

    What a sender can come to from the end of its handshake: [T] has been
    accepted from the user, a FIN sent or not; acknowledgements are any numbers. *)
Inductive sending : list Z -> bool -> Sender -> Prop :=
| tx_start wnd mss :
    64 <= mss <= TCP_ETHERNET_MSS ->
    sending [] false
      (mkSender (mkSend (wadd base 0) (wadd base 0) wnd mss (wadd base 0) [] 0)
         (mkCong (initial_cwnd mss) TCP_INITIAL_SSTHRESH 0 SlowStart 0) (mkTiming TCP_INITIAL_RTO_MS 0 0 0 0 0 0))
| tx_send T t st charge chunk_ok now payload n t' :
    sending T false t -> tcp_send st charge chunk_ok now payload t = (Sent n, t') ->
    sending (T ++ take (Z.to_nat n) payload) false t'
| tx_send_failed T t st charge chunk_ok now payload e t' :
    sending T false t -> tcp_send st charge chunk_ok now payload t = (SendFailed e, t') -> sending T false t'
| tx_shutdown T fin t how st build_ok st' fin' t' :
    sending T fin t -> tcp_shutdown how st fin build_ok t = Ok (st', fin', t') -> sending T fin' t'
| tx_ack T fin t sack_enabled build_ok queue_ok inp :
    sending T fin t -> 0 <= a_ack inp < 2 ^ 32 ->
    sending T fin (apply_ack_and_cc sack_enabled build_ok queue_ok inp t).2
| tx_plain_ack T fin t ack now :
    sending T fin t -> 0 <= ack < 2 ^ 32 -> sending T fin (handle_ack ack now t).2
| tx_sack T fin t blocks :
    sending T fin t ->
    sending T fin (mkSender (sack_mark_lost (process_sack_blocks blocks (snd t))) (cong t) (tim t))
| tx_window T fin t seq ack raw scale wl1 wl2 :
    sending T fin t -> sending T fin (update_send_window seq ack raw scale wl1 wl2 t).2
| tx_timer T fin t st build_ok now :
    sending T fin t -> sending T fin (prepare_data_retransmit st build_ok now t).2
| tx_timer_done T fin t w queued now : sending T fin t -> sending T fin (finish_data_retransmit w queued now t).2.

Lemma start_ok wnd mss : 64 <= mss <= TCP_ETHERNET_MSS ->
  let t := mkSender (mkSend (wadd base 0) (wadd base 0) wnd mss (wadd base 0) [] 0)
    (mkCong (initial_cwnd mss) TCP_INITIAL_SSTHRESH 0 SlowStart 0) (mkTiming TCP_INITIAL_RTO_MS 0 0 0 0 0 0) in
  sent_ok base [] false 0 0 t /\ cong_ok t.
Proof.
  intros Hm t. pose proof (initial_cwnd_range mss Hm). unfold TCP_ETHERNET_MSS in *. split.
  - by constructor.
  - constructor; cbn; try done; unfold u32_max, TCP_INITIAL_SSTHRESH, TCP_ETHERNET_MSS; try lia.
Qed.

Lemma sending_inv T fin t : sending T fin t -> (exists a f, sent_ok base T fin a f t) /\ cong_ok t.
Proof.
  induction 1 as [wnd mss Hm|T t st ch ok now payload n t' _ [(a & f & Hs) Hc] He|T t st ch ok now payload e t' _ [(a & f & Hs) Hc] He
    |T fin t how st b st' fin' t' _ [(a & f & Hs) Hc] He|T fin t sk b q inp _ [(a & f & Hs) Hc] Ha|T fin t ack now _ [(a & f & Hs) Hc] Ha
    |T fin t bl _ [(a & f & Hs) Hc]|T fin t sq ak raw sc w1 w2 _ [(a & f & Hs) Hc]|T fin t st b now _ [(a & f & Hs) Hc]|T fin t w q now _ [(a & f & Hs) Hc]].
  - destruct (start_ok wnd mss Hm). eauto.
  - pose proof (tcp_send_spec st ch ok now payload T a f t Hs Hc) as Hp. rewrite He in Hp. destruct Hp as (? & _ & ? & _). eauto.
  - pose proof (tcp_send_spec st ch ok now payload T a f t Hs Hc) as Hp. rewrite He in Hp. destruct Hp. eauto.
  - destruct (shutdown_cases _ _ _ _ _ _ _ _ He) as [[-> ->]|(-> & -> & ->)]; [eauto|].
    split; [exists a, f; by apply send_fin_ok|]. eapply cong_ok_same; [exact Hc|done..|apply Hc].
  - destruct (apply_ack_spec sk b q inp T fin a f t Hs Hc Ha) as (f' & ? & ? & _). eauto.
  - pose proof (handle_ack_spec base T fin a f ack now t Hs (co_time _ Hc) Ha) as Hp. destruct (handle_ack ack now t) as [upd t'].
    destruct Hp as (a' & f' & ? & _ & ? & ? & ? & _). split; [eauto|]. by eapply cong_ok_same.
  - pose proof (sack_keeps bl t) as Hk. split; [exists a, f; by eapply keeps_sent|by apply (ke_cong _ _ Hk)].
  - pose proof (window_keeps sq ak raw sc w1 w2 t) as Hk. split; [exists a, f; by eapply keeps_sent|by apply (ke_cong _ _ Hk)].
  - pose proof (prepare_keeps st b now t) as Hk. split; [exists a, f; by eapply keeps_sent|by apply (ke_cong _ _ Hk)].
  - pose proof (finish_keeps w q now t) as Hk. split; [exists a, f; by eapply keeps_sent|by apply (ke_cong _ _ Hk)].
Qed.
End operations.
