(* ===== verification/TcpSackFacts.v ===== *)
(** Lemmas on the SACK scoreboard: the clamped, sorted, merged blocks and the
    single sweep against a byte-by-byte check of what the peer claims. *)

From Stdlib Require Import ZArith Lia Btauto.
From stdpp Require Import base list list_numbers numbers sorting.
From S2P Require Import Prelude Machine Wire WireFacts NetFacts Tcp TcpFacts TcpConn TcpOutput TcpSendFacts.

(** * Sets of positions as lists of intervals *)
Definition within (p : Z) (r : Z * Z) : bool := (r.1 <=? p) && (p <? r.2).
Definition claims (l : list (Z * Z)) (p : Z) : bool := existsb (within p) l.

Lemma claims_true l p : claims l p = true <-> exists r, r ∈ l /\ r.1 <= p < r.2.
Proof.
  unfold claims, within. rewrite existsb_exists. split.
  - intros (r & Hr%list_elem_of_In & H). exists r. split; [done|]. lia.
  - intros (r & Hr%list_elem_of_In & H). exists r. split; [done|]. lia.
Qed.

Lemma claims_cons r l p : claims (r :: l) p = within p r || claims l p.
Proof. done. Qed.

Lemma claims_app l1 l2 p : claims (l1 ++ l2) p = claims l1 p || claims l2 p.
Proof. apply existsb_app. Qed.

Lemma claims_perm l l' p : l ≡ₚ l' -> claims l p = claims l' p.
Proof. intros H. apply eq_true_iff_eq. rewrite !claims_true. by setoid_rewrite H. Qed.

(** ** Sorting *)
Lemma insert_by_left_perm b l : insert_by_left b l ≡ₚ b :: l.
Proof.
  induction l as [|x l IH]; [done|]. cbn [insert_by_left]. destruct (_ <=? _); [done|].
  rewrite IH. apply Permutation_swap.
Qed.

Lemma sort_by_left_perm l : sort_by_left l ≡ₚ l.
Proof. induction l as [|b l IH]; [done|]. cbn [sort_by_left foldr]. by rewrite insert_by_left_perm, IH. Qed.

Definition left_le (x y : Z * Z) : Prop := x.1 <= y.1.

Lemma sort_by_left_sorted l : StronglySorted left_le (sort_by_left l).
Proof.
  induction l as [|b l IH]; [constructor|]. cbn [sort_by_left foldr]. fold (sort_by_left l).
  induction IH as [|x l' Hl IHl Hx]; cbn [insert_by_left]; [by repeat constructor|].
  destruct (Z.leb_spec b.1 x.1).
  - constructor; [by constructor|]. constructor; [done|]. eapply Forall_impl; [exact Hx|]. unfold left_le in *. lia.
  - constructor; [done|]. rewrite insert_by_left_perm. constructor; [unfold left_le; lia|done].
Qed.

(** ** Merging: disjoint intervals with gaps between them *)
Definition gap (x y : Z * Z) : Prop := x.2 < y.1.
Definition proper (x : Z * Z) : Prop := x.1 < x.2.
Definition chain (l : list (Z * Z)) : Prop := StronglySorted gap l /\ Forall proper l.

Lemma chain_snoc l x : chain l -> proper x -> (forall y, y ∈ l -> gap y x) -> chain (l ++ [x]).
Proof.
  intros [Hs Hp] Hx Hg. split; [|apply Forall_app; by repeat constructor].
  induction Hs as [|y l Hs IH Hy]; cbn [app]; [by repeat constructor|].
  apply list.Forall_cons in Hp as [_ Hp]. constructor; [apply IH; [done|]; intros; apply Hg; by right|].
  apply Forall_app. split; [done|]. constructor; [apply Hg; left|constructor].
Qed.

Lemma chain_snoc_inv l x : chain (l ++ [x]) -> chain l /\ proper x /\ forall y, y ∈ l -> gap y x.
Proof.
  intros [Hs [Hp Hx]%Forall_app]. apply list.Forall_cons in Hx as [Hx _]. split_and!; try done.
  - split; [|done]. by eapply StronglySorted_app_1_l.
  - intros y Hy. eapply StronglySorted_app_1_elem_of; [exact Hs|done|left].
Qed.

(** [acc] is the chain built so far, the last interval first. *)
Lemma merge_blocks_spec l acc :
  StronglySorted left_le l -> Forall proper l -> chain (rev acc) ->
  (forall x y, x ∈ l -> y ∈ acc -> y.1 <= x.1) ->
  chain (merge_blocks l acc) /\ forall p, claims (merge_blocks l acc) p = claims acc p || claims l p.
Proof.
  revert acc. induction l as [|[a b] l IH]; intros acc Hs Hp Hc Hle; cbn [merge_blocks].
  { split; [done|]. intros p. rewrite orb_false_r. apply claims_perm. symmetry. apply Permutation_rev. }
  apply StronglySorted_inv in Hs as [Hs Hab]. apply list.Forall_cons in Hp as [Hpr Hp].
  assert (forall x, x ∈ l -> a <= x.1) as Hax by (intros x Hx; by eapply list.Forall_forall in Hab).
  destruct acc as [|[la lb] acc].
  { destruct (IH [(a, b)]) as [IH1 IH2]; try done.
    - split; by repeat constructor.
    - intros x y Hx Hy. apply list_elem_of_singleton in Hy as ->. by apply Hax.
    - split; [done|]. intros p. rewrite IH2. cbn [claims existsb]. by rewrite orb_false_r. }
  cbn [rev] in Hc. destruct (chain_snoc_inv _ _ Hc) as (Hc0 & Hpl & Hg).
  assert (la <= a) as Hla by (apply (Hle (a, b) (la, lb)); left). unfold proper, gap in Hpl, Hpr, Hg. cbn in Hpl, Hpr, Hg.
  destruct (Z.leb_spec a lb).
  - set (m := if lb <? b then b else lb). assert (m = Z.max lb b) as Hm by (unfold m; zb; lia). clearbody m.
    destruct (IH ((la, m) :: acc)) as [IH1 IH2]; try done.
    + cbn [rev]. apply chain_snoc; [done|unfold proper; cbn; lia|done].
    + intros x y Hx [->|Hy]%list.elem_of_cons; [cbn; specialize (Hax x Hx); lia|].
      apply Hle; by right.
    + split; [done|]. intros p. rewrite IH2, !claims_cons.
      assert (within p (la, m) = within p (la, lb) || within p (a, b)) as -> by (unfold within; cbn; lia). btauto.
  - destruct (IH ((a, b) :: (la, lb) :: acc)) as [IH1 IH2]; try done.
    + cbn [rev]. apply chain_snoc; [done|done|]. intros y [Hy|Hy]%elem_of_app; unfold gap; cbn;
        [|apply list_elem_of_singleton in Hy as ->; cbn; lia].
      specialize (Hg y Hy). lia.
    + intros x y Hx [->|Hy]%list.elem_of_cons; [by apply Hax|]. apply Hle; [by right|done].
    + split; [done|]. intros p. rewrite IH2, !claims_cons. btauto.
Qed.

(** * Blocks of a peer *)
Section scoreboard.
(** [una] is the acknowledgement point, [N] the bytes in flight; positions are
    relative to [una]. *)
Context (una N : Z).
Hypothesis Huna : 0 <= una < 2 ^ 32.
Hypothesis HN : 0 <= N <= 2 ^ 30.

Definition block_of (r : Z * Z) : SackBlock := mkSack (wadd una r.1) (wadd una r.2).
Definition near (r : Z * Z) : Prop := - 2 ^ 30 < r.1 < 2 ^ 30 /\ - 2 ^ 30 < r.2 < 2 ^ 30.

Lemma wadd_una_0 : wadd una 0 = una.
Proof. unfold wadd, wrap32. rewrite Z.add_0_r. by apply Z.mod_small. Qed.

Lemma seq_lt_una x : - 2 ^ 31 < x < 2 ^ 31 -> seq_lt (wadd una x) una = (x <? 0).
Proof. intros. pose proof (seq_lt_offset una x 0) as H0. rewrite wadd_una_0 in H0. apply H0. lia. Qed.

Lemma wsub_una x : 0 <= x < 2 ^ 32 -> wsub (wadd una x) una = x.
Proof. intros. pose proof (wsub_offset una x 0) as H0. rewrite wadd_una_0 in H0. rewrite H0; lia. Qed.

Lemma clamp_spec s r :
  snd_una s = una -> snd_nxt s = wadd una N -> near r ->
  clamp_block s (block_of r) =
    if Z.max r.1 0 <? Z.min r.2 N then Some (Z.max r.1 0, Z.min r.2 N) else None.
Proof.
  intros Hu Hn [Hx Hy]. unfold clamp_block. rewrite Hu, Hn. cbn [block_of left_edge right_edge].
  assert ((if seq_lt (wadd una r.1) una then una else wadd una r.1) = wadd una (Z.max r.1 0)) as ->.
  { rewrite seq_lt_una by lia. destruct (Z.ltb_spec r.1 0); [rewrite Z.max_r by lia; by rewrite wadd_una_0|f_equal; lia]. }
  assert ((if seq_gt (wadd una r.2) (wadd una N) then wadd una N else wadd una r.2) = wadd una (Z.min r.2 N)) as ->.
  { rewrite seq_gt_offset by lia. destruct (Z.ltb_spec N r.2); f_equal; lia. }
  rewrite seq_gt_offset by lia. destruct (Z.ltb_spec (Z.max r.1 0) (Z.min r.2 N)); cbn [negb]; [|done].
  by rewrite !wsub_una by lia.
Qed.

(** The clamped blocks claim what the blocks claim in flight. *)
Lemma clamped_spec s ranges :
  snd_una s = una -> snd_nxt s = wadd una N -> Forall near ranges ->
  let rel := omap (clamp_block s) (map block_of ranges) in
  Forall (fun r => 0 <= r.1 /\ r.1 < r.2 <= N) rel /\
  forall p, claims rel p = (0 <=? p) && (p <? N) && claims ranges p.
Proof.
  intros Hu Hn Hall. induction Hall as [|r ranges Hr Hall [IH1 IH2]]; cbn [map omap list_omap].
  { split; [constructor|]. intros p. by rewrite andb_false_r. }
  rewrite (clamp_spec s r Hu Hn Hr). destruct (Z.ltb_spec (Z.max r.1 0) (Z.min r.2 N)).
  - split; [constructor; [cbn; lia|exact IH1]|]. intros p. rewrite !claims_cons, IH2.
    assert (within p (Z.max r.1 0, Z.min r.2 N) = (0 <=? p) && (p <? N) && within p r) as -> by (unfold within; cbn; lia).
    btauto.
  - split; [exact IH1|]. intros p. rewrite claims_cons. change (claims (list_omap _ _ _ _) p) with
      (claims (omap (clamp_block s) (map block_of ranges)) p). rewrite IH2.
    assert ((0 <=? p) && (p <? N) && within p r = false) as Hf by (unfold within; lia).
    rewrite andb_orb_distrib_r, Hf. done.
Qed.

(** ** The sweep *)
Lemma skip_blocks_spec blocks left :
  chain blocks ->
  chain (skip_blocks blocks left) /\ (forall p, left <= p -> claims (skip_blocks blocks left) p = claims blocks p) /\
  match skip_blocks blocks left with [] => True | r :: _ => left < r.2 end.
Proof.
  induction blocks as [|[a b] blocks IH]; intros Hc; cbn [skip_blocks]; [done|].
  destruct (Z.leb_spec b left) as [Hb|Hb]; [|done].
  destruct IH as (IH1 & IH2 & IH3).
  { destruct Hc as [Hs Hp]. split; [by apply StronglySorted_inv in Hs as [? _]|by apply list.Forall_cons in Hp as [_ ?]]. }
  split_and!; try done. intros p Hpl. rewrite IH2, claims_cons by done.
  assert (within p (a, b) = false) as -> by (unfold within; cbn; lia). done.
Qed.

(** A run of positions is claimed exactly when one interval of a chain holds it. *)
Lemma chain_holds a b blocks o len :
  chain ((a, b) :: blocks) -> o < b -> 0 < len ->
  forallb (claims ((a, b) :: blocks)) (seqZ o len) = (a <=? o) && (o + len <=? b).
Proof.
  intros [[Hs Hg]%StronglySorted_inv Hp] Ho Hl. apply eq_true_iff_eq. rewrite forallb_forall.
  assert (forall r, r ∈ blocks -> b < r.1) as Hlater by (intros r Hr; by eapply list.Forall_forall in Hg).
  assert (forall p, p <= b -> claims ((a, b) :: blocks) p = true -> a <= p < b) as Hfirst.
  { intros p Hpb (r & [->|Hr]%list.elem_of_cons & Hin)%claims_true; [done|]. specialize (Hlater r Hr). lia. }
  split.
  - intros Hall. assert (forall p, o <= p < o + len -> claims ((a, b) :: blocks) p = true) as Hpos
      by (intros p Hpi; apply Hall, list_elem_of_In, elem_of_seqZ; lia).
    pose proof (Hfirst o ltac:(lia) (Hpos o ltac:(lia))).
    destruct (Z.leb_spec (o + len) b); [lia|]. pose proof (Hfirst b ltac:(lia) (Hpos b ltac:(lia))). lia.
  - intros Hin p Hpi%list_elem_of_In%elem_of_seqZ. apply claims_true. exists (a, b). split; [left|cbn; lia].
Qed.

(** The reference: every byte of the segment is claimed *)
Definition mark_claimed (C : Z -> bool) (seg : TcpSegment) : TcpSegment :=
  if forallb C (seqZ (wsub (s_seq seg) una) (zlen (s_data seg))) then mark_sacked seg else seg.

Lemma forallb_seqZ_ext C D o len : (forall p, o <= p -> C p = D p) -> forallb C (seqZ o len) = forallb D (seqZ o len).
Proof.
  intros H. apply eq_true_iff_eq. rewrite !forallb_forall. split; intros Hall p Hp;
    (assert (o <= p) by (apply list_elem_of_In, elem_of_seqZ in Hp; lia)); [rewrite <- H by done|rewrite H by done]; auto.
Qed.

Lemma sweep_spec C blocks buf o e :
  tiles una o (map body buf) e -> 0 <= o -> e <= N -> chain blocks ->
  (forall p, o <= p -> C p = claims blocks p) -> sweep una blocks buf = map (mark_claimed C) buf.
Proof.
  revert blocks o. induction buf as [|seg buf IH]; intros blocks o Ht Ho He Hc HC; cbn [sweep map]; [done|].
  cbn [map tiles body] in Ht. destruct Ht as (Hq & Hl & Ht). pose proof (tiles_le _ _ _ _ Ht) as Hle.
  unfold TCP_ETHERNET_MSS in Hl.
  assert (wsub (s_seq seg) una = o) as Ho1.
  { rewrite Hq, wsub_una by lia. done. }
  assert (wsub (seg_end seg) una = o + zlen (s_data seg)) as Ho2.
  { unfold seg_end. rewrite Hq, wrap32_id, wadd_assoc, wsub_una by lia. done. }
  rewrite Ho1, Ho2. destruct (skip_blocks_spec blocks o Hc) as (Hc' & Hcl & Hhd).
  f_equal.
  - unfold mark_claimed. rewrite Ho1, (forallb_seqZ_ext C (claims (skip_blocks blocks o)))
      by (intros p Hpo; by rewrite Hcl, HC).
    destruct (skip_blocks blocks o) as [|[bl br] rest].
    + destruct (forallb _ _) eqn:E; [|done]. rewrite forallb_forall in E. specialize (E o). cbn [claims existsb] in E.
      discriminate E. apply list_elem_of_In, elem_of_seqZ. lia.
    + cbn in Hhd. rewrite chain_holds by (done || lia). done.
  - apply (IH _ (o + zlen (s_data seg))); try done; [lia|]. intros p Hp. rewrite Hcl, HC by lia. done.
Qed.

(** A front segment that starts below the acknowledgement point: its offset
    wraps, and the sweep is past every block at once. *)
Lemma skip_all blocks left : Forall (fun r => r.2 <= left) blocks -> skip_blocks blocks left = [].
Proof.
  induction 1 as [|[a b] blocks Hb _ IH]; [done|]. cbn [skip_blocks]. cbn in Hb.
  destruct (Z.leb_spec b left); [done|lia].
Qed.

Lemma sweep_nil buf : sweep una [] buf = buf.
Proof. induction buf as [|seg buf IH]; [done|]. cbn [sweep skip_blocks]. by rewrite IH. Qed.

Lemma sweep_partial blocks buf o e :
  tiles una o (map body buf) e -> - 2 ^ 30 < o < 0 -> Forall (fun r => r.2 <= N) blocks ->
  sweep una blocks buf = buf.
Proof.
  intros Ht Ho Hb. destruct buf as [|seg buf]; [done|]. cbn [map tiles body] in Ht. destruct Ht as (Hq & _ & _).
  cbn [sweep]. assert (wsub (s_seq seg) una = o + 2 ^ 32) as ->.
  { rewrite Hq. unfold wsub, wadd, wrap32. rewrite Zminus_mod_idemp_l. replace (una + o - una) with o by lia.
    rewrite <- (Z.mod_add o 1) by lia. apply Z.mod_small. lia. }
  rewrite skip_all; [by rewrite sweep_nil|]. eapply Forall_impl; [exact Hb|]. cbn. lia.
Qed.

(** ** The highest claimed position *)
Lemma raise_highest_spec blocks H :
  Forall (fun r => 0 <= r.1 /\ r.1 < r.2 <= N) blocks -> - 2 ^ 30 < H <= 2 ^ 30 ->
  exists H', raise_highest una blocks (wadd una H) = wadd una H' /\ H <= H' <= Z.max H N /\
    (forall p, claims blocks p = true -> p < H') /\ (H' = H \/ claims blocks (H' - 1) = true).
Proof.
  intros Hb. revert H. induction Hb as [|[a b] blocks Hr Hb IH]; intros H HH; cbn [raise_highest].
  { exists H. split_and!; try done; [lia..|by left]. }
  cbn in Hr. rewrite seq_gt_offset by lia.
  assert ((if H <? b then wadd una b else wadd una H) = wadd una (Z.max H b)) as -> by (zb; f_equal; lia).
  destruct (IH (Z.max H b)) as (H' & -> & HH' & Hall & Hlast); [lia|]. exists H'. split_and!; try done; try lia.
  - intros p [Hp|Hp]%orb_true_iff; [unfold within in Hp; cbn in Hp; lia|by apply Hall].
  - destruct Hlast as [->|Hlast]; [|right; apply orb_true_iff; by right].
    destruct (Z.max_spec H b) as [[? ->]|[? ->]]; [right|by left]. apply orb_true_iff. left. unfold within. cbn. lia.
Qed.

(** ** Processing blocks *)
Lemma claims_chain_bound blocks : chain blocks -> (forall p, claims blocks p = true -> 0 <= p < N) ->
  Forall (fun r => 0 <= r.1 /\ r.1 < r.2 <= N) blocks.
Proof.
  intros [_ Hp] Hall. apply list.Forall_forall. intros r Hr. eapply list.Forall_forall in Hp; [|done].
  unfold proper in Hp. assert (forall p, r.1 <= p < r.2 -> 0 <= p < N) as Hin
    by (intros p Hpi; apply Hall, claims_true; by exists r).
  pose proof (Hin r.1 ltac:(lia)). pose proof (Hin (r.2 - 1) ltac:(lia)). lia.
Qed.

Lemma process_sack_spec s ranges o e H :
  snd_una s = una -> snd_nxt s = wadd una N -> Forall near ranges ->
  tiles una o (map body (send_buffer s)) e -> - 2 ^ 30 < o <= 0 -> e <= N ->
  highest_sacked s = wadd una H -> - 2 ^ 30 < H <= 2 ^ 30 ->
  let C p := (0 <=? p) && (p <? N) && claims (take (Z.to_nat TCP_SACK_MAX_BLOCKS) ranges) p in
  let s' := process_sack_blocks (map block_of ranges) s in
  send_buffer s' = (if o =? 0 then map (mark_claimed C) (send_buffer s) else send_buffer s) /\
  exists H', highest_sacked s' = wadd una H' /\ H <= H' <= Z.max H N /\
    (forall p, C p = true -> p < H') /\ (H' = H \/ C (H' - 1) = true).
Proof.
  intros Hu Hn Hnear Ht Ho He Hh HH C s'. subst s'. unfold process_sack_blocks.
  rewrite firstn_map.
  destruct (clamped_spec s (take (Z.to_nat TCP_SACK_MAX_BLOCKS) ranges) Hu Hn) as [Hrel Hcl]; [by apply Forall_take|].
  set (rel := omap _ _) in *. change (forall p, claims rel p = C p) in Hcl. clearbody C.
  destruct (merge_blocks_spec (sort_by_left rel) []) as [Hch Hmc].
  { apply sort_by_left_sorted. }
  { rewrite sort_by_left_perm. eapply Forall_impl; [exact Hrel|]. unfold proper. intros r; lia. }
  { split; constructor. }
  { intros x y _ Hy. by apply not_elem_of_nil in Hy. }
  set (merged := merge_blocks (sort_by_left rel) []) in *.
  assert (forall p, claims merged p = C p) as HC.
  { intros p. rewrite Hmc, <- Hcl. cbn [claims existsb orb]. apply claims_perm, sort_by_left_perm. }
  assert (Forall (fun r => 0 <= r.1 /\ r.1 < r.2 <= N) merged) as Hbound.
  { apply claims_chain_bound; [done|]. intros p. rewrite HC, <- Hcl. rewrite claims_true. intros (r & Hr & Hp).
    eapply list.Forall_forall in Hrel; [|done]. lia. }
  destruct (raise_highest_spec merged H Hbound HH) as (H' & Hr & HH' & Hall & Hlast).
  assert (sweep una merged (send_buffer s) = if o =? 0 then map (mark_claimed C) (send_buffer s) else send_buffer s) as Hsw.
  { destruct (Z.eqb_spec o 0) as [->|Hz]; [by eapply sweep_spec|].
    eapply sweep_partial; [exact Ht|lia|]. eapply Forall_impl; [exact Hbound|]. cbn. lia. }
  assert (rel = [] -> send_buffer s = (if o =? 0 then map (mark_claimed C) (send_buffer s) else send_buffer s) /\ H' = H) as Hempty.
  { intros ->. cbn in merged. subst merged. cbn [raise_highest] in Hr. rewrite <- Hsw, sweep_nil. split; [done|].
    destruct Hlast as [|Hlast]; [done|]. cbn in Hlast. done. }
  split; [destruct rel; [by apply Hempty|cbn [send_buffer]; by rewrite Hu]|].
  exists H'. split; [destruct rel; [destruct (Hempty eq_refl) as [_ ->]; done|cbn [highest_sacked]; by rewrite Hu, Hh]|].
  split; [done|]. split; [intros p; rewrite <- HC; apply Hall|]. by rewrite <- HC.
Qed.
End scoreboard.

(** ** Losses *)
Definition sacked_count (buf : list TcpSegment) : Z := Z.of_nat (length (List.filter sacked buf)).

Lemma mark_lost_count h buf : (mark_lost h buf).2 = sacked_count buf.
Proof.
  unfold sacked_count. induction buf as [|seg buf IH]; [done|]. cbn [mark_lost List.filter].
  destruct (mark_lost h buf) as [buf' above]. cbn [Datatypes.snd] in IH. subst above.
  destruct (sacked seg); [cbn [Datatypes.snd length]; lia|]. by destruct (_ && _).
Qed.

Definition with_lost (seg : TcpSegment) (b : bool) : TcpSegment :=
  mkSeg (s_seq seg) (s_data seg) (sent_at seg) (retrans_count seg) (sacked seg) b (retry seg).

(** A segment is newly marked lost when it is not SACKed itself, ends at or
    below the highest claim, and three segments behind it are SACKed. *)
Lemma mark_lost_spec h buf i seg :
  buf !! i = Some seg ->
  (mark_lost h buf).1 !! i = Some (with_lost seg (lost seg ||
    (negb (sacked seg) && seq_le (seg_end seg) h && (3 <=? sacked_count (drop (S i) buf))))).
Proof.
  revert i. induction buf as [|x buf IH]; intros i Hi; [done|]. cbn [mark_lost].
  pose proof (mark_lost_count h buf) as Hc. destruct (mark_lost h buf) as [buf' above]. cbn [Datatypes.fst Datatypes.snd] in *. subst above.
  destruct i as [|i].
  - cbn in Hi. simplify_eq. change (drop 1 (seg :: buf)) with buf. destruct seg as [q d sa rc sk lo re]. cbn [sacked].
    destruct sk; cbn; [by rewrite orb_false_r|]. destruct (seq_le _ _ && _); cbn; [by rewrite orb_true_r|by rewrite orb_false_r].
  - destruct (sacked x); [|destruct (seq_le (seg_end x) h && (3 <=? sacked_count buf))]; cbn [Datatypes.fst]; by apply IH.
Qed.
