(* ===== verification/NsBudget.v ===== *)
(** Memory budgets of network namespaces (kernel/net/src/socket.rs): the
    counters of buffered send and receive bytes, the per-connection mirrors, and
    the send operations of several connections interleaved. *)

From Stdlib Require Import ZArith Lia.
From stdpp Require Import base gmap list numbers.
From S2P Require Import Prelude Machine Wire Tcp TcpConn TcpOutput.

(** * The counters

    [per_ns_send_bytes] and [per_ns_recv_bytes]: bytes by namespace, behind a
    lock of their own; each function below is one critical section. *)
Notation Counts := (gmap Z Z).

(** [NamespaceId(0)] *)
Definition ROOT : Z := 0.
Definition MAX_SEND_BYTES_PER_NS : Z := 64 * 1024 * 1024.
Definition MAX_RECV_BYTES_PER_NS : Z := 16 * 1024 * 1024.

(** ** Sending: reserve, then adjust to what was buffered

    Results carry the counters and the mirror [ns_charged_send_bytes];
    [slot_ok]: the map can take one more entry. *)
Definition try_charge_ns_send (slot_ok : bool) (ns additional charged : Z) (counts : Counts)
  : res SocketError (Counts * Z) :=
  if (ns =? ROOT) || (additional =? 0) then Ok (counts, charged) else
  let current := default 0 (counts !! ns) in
  let projected := current + additional in
  if negb ((projected <=? usize_max) && (projected <=? MAX_SEND_BYTES_PER_NS)) then Err SocketWouldBlock else
  match counts !! ns with
  | Some _ => Ok (<[ns := projected]> counts, saturating_add charged additional)
  | None => if slot_ok then Ok (<[ns := projected]> counts, saturating_add charged additional) else Err SocketNoMemory
  end.

(** The decrement both sides share: saturating, the entry removed at zero *)
Definition uncharge_ns_send_residual (ns n : Z) (counts : Counts) : Counts :=
  if (n =? 0) || (ns =? ROOT) then counts else
  match counts !! ns with
  | Some c => let now := saturating_sub c n in if now =? 0 then delete ns counts else <[ns := now]> counts
  | None => counts
  end.

Definition reconcile_ns_send (ns live charged : Z) (counts : Counts) : res unit (Counts * Z) :=
  if ns =? ROOT then Ok (counts, live) else
  if live =? charged then Ok (counts, charged) else
  if charged <? live then
    let? e := or_panic (counts !! ns) in
    Ok (<[ns := saturating_add e (live - charged)]> counts, live)
  else
    Ok (match counts !! ns with
        | Some c => let now := saturating_sub c (charged - live) in
                    if now =? 0 then delete ns counts else <[ns := now]> counts
        | None => counts
        end, live).

(** ** Receiving: a gate that prepares the entry, then the adjustment *)
Definition try_charge_ns_recv_gate (slot_ok : bool) (ns grow_by charged : Z) (counts : Counts)
  : res SocketError Counts :=
  if (ns =? ROOT) || (grow_by =? 0) then Ok counts else
  let live := default 0 (counts !! ns) in
  let other_conns := saturating_sub live charged in
  let conn_after := saturating_add charged grow_by in
  if (other_conns + conn_after <=? usize_max) && (other_conns + conn_after <=? MAX_RECV_BYTES_PER_NS) then
    match counts !! ns with
    | Some _ => Ok counts
    | None => if slot_ok then Ok (<[ns := 0]> counts) else Err SocketNoMemory
    end
  else Err SocketWouldBlock.

Definition reconcile_ns_recv (ns live charged : Z) (counts : Counts) : res unit (Counts * Z) :=
  if ns =? ROOT then Ok (counts, live) else
  if live =? charged then Ok (if live =? 0 then delete ns counts else counts, charged) else
  if charged <? live then
    let? e := or_panic (counts !! ns) in
    Ok (<[ns := saturating_add e (live - charged)]> counts, live)
  else
    Ok (match counts !! ns with
        | Some c => let now := saturating_sub c (charged - live) in
                    if now =? 0 then delete ns counts else <[ns := now]> counts
        | None => counts
        end, live).

Definition uncharge_ns_recv_residual (ns n : Z) (counts : Counts) : Counts :=
  if (n =? 0) || (ns =? ROOT) then counts else
  match counts !! ns with
  | Some c => let now := saturating_sub c n in if now =? 0 then delete ns counts else <[ns := now]> counts
  | None => counts
  end.

(** * Connections

    A connection buffers [c_live] bytes ([send_buffer_bytes]) and mirrors in
    [c_charged] what the namespace was charged for them
    ([ns_charged_send_bytes]). Its lock is held from the charge of a send, and from
    the acknowledgement of bytes, to the reconciliation that follows; the other
    connections, of the same namespace too, take their steps in between. *)
Inductive Phase :=
| Idle                             (** unlocked *)
| Reserved (payload : list Z)      (** a send, between its charge and its loop *)
| Changed.                         (** bytes buffered or freed, not yet reconciled *)

Record Conn := mkConn { c_ns : Z; c_live : Z; c_charged : Z; c_phase : Phase }.
Record Table := mkTable { t_counts : Counts; t_conns : gmap Z Conn }.

Definition empty_table : Table := mkTable ∅ ∅.

(** [tcp_send] up to the charge; a send that is refused leaves nothing behind.  The
    checks of state, security hook and window, which only refuse, are not looked at:
    any send may come this far. *)
Definition reserve_send (slot_ok : bool) (payload : list Z) (c : Conn) (counts : Counts) : Counts * Conn :=
  if TCP_MAX_SEND_SIZE <? zlen payload then (counts, c) else
  if zlen payload =? 0 then (counts, c) else
  if TCP_MAX_SEND_BUFFER_BYTES <? c_live c + zlen payload then (counts, c) else
  match try_charge_ns_send slot_ok (c_ns c) (zlen payload) (c_charged c) counts with
  | Ok (counts, charged) => (counts, mkConn (c_ns c) (c_live c) charged (Reserved payload))
  | _ => (counts, c)
  end.

(** The loop of [tcp_send]: what it got to buffer counts, as far as allocations went. *)
Definition buffer_send (chunk_ok : Z -> bool) (base_seq now_ms : Z) (payload : list Z) (c : Conn) : Conn :=
  let offset := (segment_loop (segment_rounds payload) chunk_ok base_seq now_ms payload 0).2 in
  mkConn (c_ns c) (if offset =? 0 then c_live c else saturating_add (c_live c) offset) (c_charged c) Changed.

(** [handle_ack] takes segments of [lens] bytes off the buffer. *)
Definition free_acked (lens : list Z) (c : Conn) : Conn :=
  mkConn (c_ns c) (fold_left saturating_sub lens (c_live c)) (c_charged c) Changed.

(** [reconcile_ns_send], at the end of a send or of an acknowledgement *)
Definition settle_send (c : Conn) (counts : Counts) : res unit (Counts * Conn) :=
  let? r := reconcile_ns_send (c_ns c) (c_live c) (c_charged c) counts in
  Ok (r.1, mkConn (c_ns c) (c_live c) r.2 Idle).

(** [detach_tcp_uncharged], its send half *)
Definition detach_conn (c : Conn) (counts : Counts) : Counts :=
  if 0 <? c_charged c then uncharge_ns_send_residual (c_ns c) (c_charged c) counts else counts.

Inductive Op :=
| Open (id ns : Z)                                              (** a connection without bytes *)
| Reserve (id : Z) (slot_ok : bool) (payload : list Z)
| Buffer (id : Z) (chunk_ok : Z -> bool) (base_seq now_ms : Z)
| Acked (id : Z) (lens : list nat)
| Settle (id : Z)
| Teardown (id : Z).

Definition put (id : Z) (x : Counts * Conn) (t : Table) : Table := mkTable x.1 (<[id := x.2]> (t_conns t)).

(** One step of the connection [id]; a step that its phase does not allow is none. *)
Definition send_apply (op : Op) (t : Table) : res unit Table :=
  match op with
  | Open id ns =>
      match t_conns t !! id with Some _ => Ok t | None => Ok (put id (t_counts t, mkConn ns 0 0 Idle) t) end
  | Reserve id slot_ok payload =>
      match t_conns t !! id with
      | Some (mkConn _ _ _ Idle as c) => Ok (put id (reserve_send slot_ok payload c (t_counts t)) t)
      | _ => Ok t
      end
  | Buffer id chunk_ok base_seq now_ms =>
      match t_conns t !! id with
      | Some (mkConn _ _ _ (Reserved payload) as c) =>
          Ok (put id (t_counts t, buffer_send chunk_ok base_seq now_ms payload c) t)
      | _ => Ok t
      end
  | Acked id lens =>
      match t_conns t !! id with
      | Some (mkConn _ _ _ Idle as c) => Ok (put id (t_counts t, free_acked (map Z.of_nat lens) c) t)
      | _ => Ok t
      end
  | Settle id =>
      match t_conns t !! id with
      | Some (mkConn _ _ _ Changed as c) => let? x := settle_send c (t_counts t) in Ok (put id x t)
      | _ => Ok t
      end
  | Teardown id =>
      match t_conns t !! id with
      | Some (mkConn _ _ _ Idle as c) => Ok (mkTable (detach_conn c (t_counts t)) (delete id (t_conns t)))
      | _ => Ok t
      end
  end.

Fixpoint send_run (ops : list Op) (t : Table) : res unit Table :=
  match ops with
  | [] => Ok t
  | op :: ops => let? t := send_apply op t in send_run ops t
  end.

(** What the connections of a namespace were charged *)
Definition charge_in (ns : Z) (c : Conn) : Z := if c_ns c =? ns then c_charged c else 0.
Definition charged_total (ns : Z) (conns : gmap Z Conn) : Z :=
  sumZ (fun ic => charge_in ns ic.2) (map_to_list conns).

(** What they really buffer *)
Definition live_in (ns : Z) (c : Conn) : Z := if c_ns c =? ns then c_live c else 0.
Definition live_total (ns : Z) (conns : gmap Z Conn) : Z :=
  sumZ (fun ic => live_in ns ic.2) (map_to_list conns).
