(* ===== verification/TcpInput.v ===== *)
(** The receiving half of a connection (kernel/net/src/socket.rs): a segment in
    the states that take data, and the reader that empties the buffer. *)

From Stdlib Require Import ZArith Lia.
From stdpp Require Import base gmap list list_numbers numbers.
From S2P Require Import Prelude Machine Wire Tcp TcpConn NsBudget.

(** * Which segments are looked at *)
Definition segment_in_recv_window (seq payload_len : Z) (has_fin : bool) (rcv_nxt rcv_wnd : Z) : bool :=
  let wnd := Z.max rcv_wnd 1 in
  if u32_max <? payload_len then false else
  let sequence_len := payload_len + (if has_fin then 1 else 0) in
  if u32_max <? sequence_len then false else
  seq_in_window seq rcv_nxt wnd ||
  negb (sequence_len =? 0) && seq_in_window (wsub (wadd seq sequence_len) 1) rcv_nxt wnd.

Definition duplicate_payload_has_new_fin (seq payload_len : Z) (has_fin : bool) (rcv_nxt : Z) : bool :=
  has_fin && (if u32_max <? payload_len then false else wadd seq payload_len =? rcv_nxt).

(** * The data of a segment *)

(** What the code around the connection decides: the security hook, room for one
    more counter, the growth of the receive buffer to a length, the allocations of
    an insertion; the namespace; and what the other connections do to the counters
    of the namespaces before the data's and before the FIN's reconciliation, none
    of which happens in the critical section of the gate *)
Record InputEnv := mkInputEnv {
  hook_net_recv : bool; slot_ok : bool; extend_ok : Z -> bool; ooo_allocs : OooAllocs;
  net_ns_id : Z; before_data : Counts -> Counts; before_fin : Counts -> Counts;
}.

(** The mirror of the connection and the counters [per_ns_recv_bytes] *)
Record Charge := mkCharge { ns_charged_recv_bytes : Z; per_ns_recv_bytes : Counts }.

(** The bytes a connection holds for its peer *)
Definition held (r : Receiver) : Z := saturating_add (zlen (recv_buffer r)) (ooo_bytes r).

(** [try_charge_ns_recv_gate(..).is_err()] is [None]. *)
Definition recv_gate (env : InputEnv) (grow_by : Z) (b : Charge) : option Charge :=
  match try_charge_ns_recv_gate (slot_ok env) (net_ns_id env) grow_by (ns_charged_recv_bytes b) (per_ns_recv_bytes b) with
  | Ok counts => Some (mkCharge (ns_charged_recv_bytes b) counts)
  | _ => None
  end.

(** [reconcile_ns_recv], after [others] *)
Definition reconcile (ns : Z) (others : Counts -> Counts) (r : Receiver) (b : Charge) : res unit Charge :=
  let? cm := reconcile_ns_recv ns (held r) (ns_charged_recv_bytes b) (others (per_ns_recv_bytes b)) in
  Ok (mkCharge cm.2 cm.1).

(** [build_tcp_segment] answers plainly, [build_sack_ack] with the queued ranges *)
Inductive Answer := NoAnswer | PlainAck | SackAck.

(** An early [return], or on to the FIN with [fin_expected_seq] and [response] *)
Inductive Flow := Return (a : Answer) | Proceed (fin_expected_seq : option Z) (response : Answer).

Definition advance (r : Receiver) (payload : list Z) : Receiver :=
  mkRecv (conn_state r) (wadd (rcv_nxt r) (wrap32 (zlen payload))) (rcv_wnd r) (recv_buffer r ++ payload)
    (ooo_queue r) (ooo_capacity r) (ooo_bytes r) (fin_received r).

(** [seq == rcv_nxt] *)
Definition in_order (env : InputEnv) (payload : list Z) (is_fin : bool) (r : Receiver) (b : Charge)
  : res unit (Flow * Receiver * Charge) :=
  let consumed := sat_add32 (wrap32 (zlen (recv_buffer r))) (ooo_bytes r) in
  let available := saturating_sub (rcv_wnd r) consumed in
  if available <? wrap32 (zlen payload) then Ok (Return SackAck, r, b) else
  match recv_gate env (zlen payload) b with
  | None => Ok (Return SackAck, r, b)
  | Some b =>
      if negb (extend_ok env (zlen (recv_buffer r) + zlen payload)) then
        let? b := reconcile (net_ns_id env) (before_data env) r b in
        Ok (Return NoAnswer, r, b)
      else
      let r := advance r payload in
      let fin_expected_seq := Some (rcv_nxt r) in
      if is_fin then Ok (Proceed fin_expected_seq SackAck, r, b) else
      let r := (ooo_drain_contiguous (extend_ok env) r).2 in
      let? b := reconcile (net_ns_id env) (before_data env) r b in
      Ok (Proceed fin_expected_seq SackAck, r, b)
  end.

(** [seq > rcv_nxt] *)
Definition out_of_order (env : InputEnv) (seq : Z) (payload : list Z) (is_fin : bool) (r : Receiver) (b : Charge)
  : res unit (Flow * Receiver * Charge) :=
  match recv_gate env (zlen payload) b with
  | None => Ok (Return SackAck, r, b)
  | Some b =>
      let? kr := ooo_insert (ooo_allocs env) seq payload is_fin r in
      let? b := reconcile (net_ns_id env) (before_data env) kr.2 b in
      Ok (Return SackAck, kr.2, b)
  end.

(** [seq < rcv_nxt]: the tail that is new, if any *)
Definition overlap (env : InputEnv) (seq : Z) (payload : list Z) (is_fin : bool) (r : Receiver) (b : Charge)
  : res unit (Flow * Receiver * Charge) :=
  let rest (r : Receiver) (b : Charge) : res unit (Flow * Receiver * Charge) :=
    if duplicate_payload_has_new_fin seq (zlen payload) is_fin (rcv_nxt r)
    then Ok (Proceed None NoAnswer, r, b) else Ok (Return SackAck, r, b) in
  let seg_end := wadd seq (wrap32 (zlen payload)) in
  if seq_gt seg_end (rcv_nxt r) then
    let skip := wsub (rcv_nxt r) seq in
    if zlen payload <? skip then Panic else
    let useful := drop (Z.to_nat skip) payload in
    match recv_gate env (zlen useful) b with
    | None => Ok (Return SackAck, r, b)
    | Some b =>
        let? kr := ooo_insert (ooo_allocs env) (rcv_nxt r) useful is_fin r in
        let r := (ooo_drain_contiguous (extend_ok env) kr.2).2 in
        let? b := reconcile (net_ns_id env) (before_data env) r b in
        if fin_received r then Ok (Return SackAck, r, b) else rest r b
    end
  else rest r b.

Definition process_payload (env : InputEnv) (seq : Z) (payload : list Z) (is_fin : bool) (r : Receiver) (b : Charge)
  : res unit (Flow * Receiver * Charge) :=
  if zlen payload =? 0 then Ok (Proceed None NoAnswer, r, b) else
  if negb (hook_net_recv env) then Ok (Return NoAnswer, r, b) else
  if seq =? rcv_nxt r then in_order env payload is_fin r b
  else if seq_gt seq (rcv_nxt r) then out_of_order env seq payload is_fin r b
  else overlap env seq payload is_fin r b.

(** * The FIN of a segment *)
Definition fin_target (s : TcpState) (acked_fin : bool) : TcpState :=
  match s with
  | FinWait1 => if acked_fin then TimeWait else Closing
  | FinWait2 => TimeWait
  | _ => CloseWait
  end.

Definition accept_fin (target : TcpState) (expected : Z) (r : Receiver) : Receiver :=
  mkRecv target (wadd expected 1) (rcv_wnd r) (recv_buffer r) [] (ooo_capacity r)
    (fold_left (fun b e => saturating_sub b (wrap32 (zlen (oo_data e)))) (ooo_queue r) (ooo_bytes r)) true.

(** * A segment in ESTABLISHED, FIN-WAIT-1 or FIN-WAIT-2 *)
Definition takes_data (s : TcpState) : bool :=
  match s with Established | FinWait1 | FinWait2 => true | _ => false end.

Record InSegment := mkInSeg { i_ack : bool; i_fin : bool; i_seq : Z; i_payload : list Z }.

(** What follows the data of a segment at [seq] *)
Definition process_fin (env : InputEnv) (target : TcpState) (seq payload_len : Z) (is_fin : bool)
  (x : Flow * Receiver * Charge) : res unit (Answer * Receiver * Charge) :=
  match x with
  | (Return a, r, b) => Ok (a, r, b)
  | (Proceed fin_expected_seq response, r, b) =>
      if is_fin then
        let expected := default (rcv_nxt r) fin_expected_seq in
        if negb (wadd seq (wrap32 payload_len) =? expected) then Ok (PlainAck, r, b)
        else
          let r := accept_fin target expected r in
          let? b := reconcile (net_ns_id env) (before_fin env) r b in
          Ok (PlainAck, r, b)
      else Ok (response, r, b)
  end.

(** [ack_in_range] and [acked_fin] are decided by the sending half. *)
Definition receive_segment (env : InputEnv) (ack_in_range acked_fin : bool) (sg : InSegment) (r : Receiver) (b : Charge)
  : res unit (Answer * Receiver * Charge) :=
  if negb (i_ack sg) then Ok (NoAnswer, r, b) else
  if negb (segment_in_recv_window (i_seq sg) (zlen (i_payload sg)) (i_fin sg) (rcv_nxt r) (rcv_wnd r))
  then Ok (PlainAck, r, b) else
  if negb ack_in_range then Ok (PlainAck, r, b) else
  let target := fin_target (conn_state r) acked_fin in
  let r := match conn_state r with
           | FinWait1 => if acked_fin then mkRecv FinWait2 (rcv_nxt r) (rcv_wnd r) (recv_buffer r) (ooo_queue r)
                                             (ooo_capacity r) (ooo_bytes r) (fin_received r) else r
           | _ => r
           end in
  let? x := process_payload env (i_seq sg) (i_payload sg) (i_fin sg) r b in
  process_fin env target (i_seq sg) (zlen (i_payload sg)) (i_fin sg) x.

(** * The reader *)

(** The committed part of [tcp_recv_with_commit]: the bytes handed out *)
Definition read_commit (extend_ok : Z -> bool) (ns : Z) (others : Counts -> Counts) (requested : Z) (r : Receiver) (b : Charge)
  : res unit (list Z * Receiver * Charge) :=
  let actual := Z.min requested (zlen (recv_buffer r)) in
  let data := take (Z.to_nat actual) (recv_buffer r) in
  let r := (ooo_drain_contiguous extend_ok
     (mkRecv (conn_state r) (rcv_nxt r) (rcv_wnd r) (drop (Z.to_nat actual) (recv_buffer r)) (ooo_queue r)
        (ooo_capacity r) (ooo_bytes r) (fin_received r))).2 in
  let? b := reconcile ns others r b in
  Ok (data, r, b).
