(* ===== verification/TcpInputFacts.v ===== *)
(** Lemmas on the receiving half of a connection: the invariant of the receiver
    against the stream its peer sends, kept by segments and reads. *)

From Stdlib Require Import ZArith Lia.
From stdpp Require Import base gmap list list_numbers numbers sorting.
From S2P Require Import Prelude Machine Wire WireFacts NetFacts Tcp TcpFacts TcpConn TcpRecv NsBudget TcpInput.

(** The largest window a connection is given ([TCP_DEFAULT_RCV_WINDOW_BYTES]) *)
Definition MAX_WND : Z := 256 * 1024.
(** How far queued data can be from the next byte *)
Definition NEAR : Z := 2 ^ 20.
(** How far a segment in the network can be *)
Definition FAR : Z := 2 ^ 30.

Lemma near_reach n : n + NEAR - (n - NEAR) <= 4 * REACH - 4.
Proof. unfold NEAR, REACH. lia. Qed.

(** * The charge of a connection *)

(** The other connections leave the counter of the namespace in place, once it is there. *)
Definition steady (env : InputEnv) : Prop :=
  net_ns_id env = ROOT \/
  forall counts, is_Some (counts !! net_ns_id env) ->
    is_Some (before_data env counts !! net_ns_id env) /\ is_Some (before_fin env counts !! net_ns_id env).

(** A result, or an abort that some other connection caused *)
Definition survives {A} (env : InputEnv) (x : res unit A) (P : A -> Prop) : Prop :=
  match x with Ok a => P a | Err _ => False | Panic => ~ steady env end.

Lemma survives_bind {A B} env (x : res unit A) (f : A -> res unit B) (P : A -> Prop) (Q : B -> Prop) :
  survives env x P -> (forall a, P a -> survives env (f a) Q) -> survives env (let? a := x in f a) Q.
Proof. destruct x; cbn; auto. Qed.

Lemma survives_mono {A} env (x : res unit A) (P Q : A -> Prop) :
  survives env x P -> (forall a, P a -> Q a) -> survives env x Q.
Proof. destruct x; cbn; auto. Qed.

(** The mirror agrees with the bytes held. *)
Definition exact (r : Receiver) (b : Charge) : Prop := ns_charged_recv_bytes b = held r.

(** The gate has let data through. *)
Definition gated (env : InputEnv) (b : Charge) : Prop :=
  net_ns_id env = ROOT \/ is_Some (per_ns_recv_bytes b !! net_ns_id env).

Lemma recv_gate_gated env grow b b' :
  0 < grow -> recv_gate env grow b = Some b' -> gated env b' /\ ns_charged_recv_bytes b' = ns_charged_recv_bytes b.
Proof.
  intros Hg. unfold recv_gate, try_charge_ns_recv_gate, gated. destruct (Z.eqb_spec (net_ns_id env) ROOT) as [He|He]; cbn [orb].
  { intros [= <-]. split; [by left|done]. }
  destruct (Z.eqb_spec grow 0); [lia|]. destruct (_ && _); [|done].
  destruct (per_ns_recv_bytes b !! net_ns_id env) eqn:Hc; [intros [= <-]; split; [right; cbn [per_ns_recv_bytes]; by rewrite Hc|done]|].
  destruct (slot_ok env); [|done]. intros [= <-]. split; [right|done]. cbn [per_ns_recv_bytes]. by rewrite lookup_insert_eq.
Qed.

(** A reconciliation that does not grow the charge *)
Lemma reconcile_shrinks ns others r b :
  held r <= ns_charged_recv_bytes b -> exists b', reconcile ns others r b = Ok b' /\ exact r b'.
Proof.
  intros Hle. unfold reconcile, reconcile_ns_recv, exact. destruct (ns =? ROOT); [eexists; split; done|].
  destruct (Z.eqb_spec (held r) (ns_charged_recv_bytes b)); [eexists; split; done|].
  destruct (Z.ltb_spec (ns_charged_recv_bytes b) (held r)); [lia|]. eexists. split; done.
Qed.

Definition others_of (env : InputEnv) (others : Counts -> Counts) : Prop := others = before_data env \/ others = before_fin env.

Lemma reconcile_gated env others r b :
  gated env b -> others_of env others -> survives env (reconcile (net_ns_id env) others r b) (exact r).
Proof.
  intros Hg Ho. destruct (Z.le_gt_cases (held r) (ns_charged_recv_bytes b)) as [Hle|Hgt].
  { destruct (reconcile_shrinks (net_ns_id env) others r b Hle) as (b' & -> & ?). done. }
  unfold reconcile, reconcile_ns_recv, exact. destruct (Z.eqb_spec (net_ns_id env) ROOT) as [He|He]; [done|].
  destruct (Z.eqb_spec (held r) (ns_charged_recv_bytes b)); [lia|]. destruct (Z.ltb_spec (ns_charged_recv_bytes b) (held r)); [|lia].
  destruct (others (per_ns_recv_bytes b) !! net_ns_id env) eqn:Hc; cbn; [done|]. intros Hs.
  destruct Hg as [?|Hg], Hs as [?|Hs]; [done..|]. destruct (Hs _ Hg) as [H1 H2].
  destruct Ho as [->| ->]; rewrite Hc in *; by destruct H1, H2.
Qed.

(** ** A namespace without its counter *)
Lemma gate_without_counter ns grow counts :
  ns <> ROOT -> 0 < grow <= MAX_RECV_BYTES_PER_NS ->
  try_charge_ns_recv_gate true ns grow 0 (delete ns counts) = Ok (<[ns := 0]> (delete ns counts)).
Proof.
  intros Hn Hg. unfold try_charge_ns_recv_gate, MAX_RECV_BYTES_PER_NS in *. destruct (Z.eqb_spec ns ROOT); [done|].
  destruct (Z.eqb_spec grow 0); [lia|]. cbn [orb]. rewrite lookup_delete_eq. cbn [default].
  unfold saturating_sub, saturating_add, usize_max, u64_max.
  destruct (Z.leb_spec (Z.max (0 - 0) 0 + Z.min (0 + grow) (2 ^ 64 - 1)) (2 ^ 64 - 1)); [|lia].
  destruct (Z.leb_spec (Z.max (0 - 0) 0 + Z.min (0 + grow) (2 ^ 64 - 1)) (16 * 1024 * 1024)); [done|lia].
Qed.

Lemma reconcile_without_counter ns r m counts :
  ns <> ROOT -> counts !! ns = None -> m < held r -> reconcile ns (fun c => c) r (mkCharge m counts) = Panic.
Proof.
  intros Hn Hc Hm. unfold reconcile, reconcile_ns_recv. cbn [ns_charged_recv_bytes per_ns_recv_bytes].
  destruct (Z.eqb_spec ns ROOT); [done|]. destruct (Z.eqb_spec (held r) m); [lia|].
  destruct (Z.ltb_spec m (held r)); [|lia]. by rewrite Hc.
Qed.

Lemma reconcile_last ns r m counts c :
  ns <> ROOT -> held r = 0 -> 0 < m -> counts !! ns = Some c -> c <= m ->
  reconcile ns (fun c => c) r (mkCharge m counts) = Ok (mkCharge 0 (delete ns counts)).
Proof.
  intros Hn Hh Hm Hc Hle. unfold reconcile, reconcile_ns_recv. cbn [ns_charged_recv_bytes per_ns_recv_bytes]. rewrite Hh, Hc.
  destruct (Z.eqb_spec ns ROOT); [done|]. destruct (Z.eqb_spec 0 m); [lia|]. destruct (Z.ltb_spec m 0); [lia|].
  unfold saturating_sub. destruct (Z.eqb_spec (Z.max (c - (m - 0)) 0) 0); [done|lia].
Qed.

Section receiving.
Context (base : Z) (S : Z -> Z) (F : option Z).

Definition fin_bit (b : bool) : Z := if b then 1 else 0.

(** The receiver has the stream up to [n] and the pieces [A] beyond *)
Record recv_at (n : Z) (A : list piece) (r : Receiver) : Prop := {
  ra_next : rcv_nxt r = wadd base (n + fin_bit (fin_received r));
  ra_queue : queue_ok base S F (n - NEAR) (n + NEAR) r A;
  ra_ahead : forall e, e ∈ A -> n < pc_end e <= n + 2 * MAX_WND;
  ra_budget : zlen (recv_buffer r) + total A <= rcv_wnd r;
  ra_wnd : 0 < rcv_wnd r <= MAX_WND;
  ra_fin : if fin_received r then F = Some n /\ A = [] /\ takes_data (conn_state r) = false
           else (forall f, F = Some f -> n <= f) /\ takes_data (conn_state r) = true;
}.

Lemma piece_len_total lo hi e A : Forall (piece_ok F lo hi) A -> e ∈ A -> pc_len e <= total A.
Proof.
  induction 1 as [|x A Hx HA IH]; intros He; [by apply not_elem_of_nil in He|].
  change (total (x :: A)) with (pc_len x + total A).
  pose proof (total_nonneg _ _ _ _ HA). apply po_len in Hx.
  apply list.elem_of_cons in He as [->|He]; [lia|]. specialize (IH He). lia.
Qed.

Lemma piece_ok_move lo hi lo' hi' e :
  piece_ok F lo hi e -> lo' <= pc_off e -> pc_end e <= hi' -> piece_ok F lo' hi' e.
Proof. intros [? ? ? ? ?] ? ?. by constructor. Qed.

(** The bounds can be taken around another position. *)
Lemma pieces_move lo hi n A w :
  Forall (piece_ok F lo hi) A -> (forall e, e ∈ A -> n < pc_end e <= n + 2 * MAX_WND) ->
  total A <= w -> w <= MAX_WND -> Forall (piece_ok F (n - NEAR) (n + NEAR)) A.
Proof.
  intros HA He Ht Hw. apply list.Forall_forall. intros e Hin. specialize (He e Hin).
  pose proof (piece_len_total _ _ e A HA Hin). eapply list.Forall_forall in HA; [|done].
  eapply piece_ok_move; [done|..]; unfold pc_end, NEAR, MAX_WND in *; lia.
Qed.

Lemma after_fin_closed s : takes_data s = true -> takes_data (after_fin s) = false.
Proof. by destruct s. Qed.

Lemma recv_at_intro lo hi st (b : bool) n A w buf cap :
  Forall (piece_ok F lo hi) A -> separated A ->
  Z.of_nat (length A) <= TCP_OOO_MAX_SEGMENTS -> Z.of_nat (length A) <= cap ->
  (forall e, e ∈ A -> n < pc_end e <= n + 2 * MAX_WND) -> zlen buf + total A <= w -> 0 < w <= MAX_WND ->
  (if b then F = Some n /\ A = [] /\ takes_data st = false
   else (forall f, F = Some f -> n <= f) /\ takes_data st = true) ->
  recv_at n A (mkRecv st (wadd base (n + fin_bit b)) w buf (map (cseg base S) A) cap (total A) b).
Proof.
  intros HA Hs Hc Hcap Hah Hb Hw Hf. pose proof (zlen_nonneg buf). constructor; try done.
  constructor; try done. apply (pieces_move lo hi n A w); try done; lia.
Qed.

(** ** Draining *)
Lemma drain_recv_at lo hi ext n A r :
  hi - lo <= 4 * REACH - 4 ->
  queue_ok base S F lo hi r A -> at_position base F lo hi r n A ->
  (forall e, e ∈ A -> pc_end e <= n + 2 * MAX_WND) ->
  zlen (recv_buffer r) + total A <= rcv_wnd r -> 0 < rcv_wnd r <= MAX_WND -> takes_data (conn_state r) = true ->
  exists n' A' r', (ooo_drain_contiguous ext r).2 = r' /\ recv_at n' A' r' /\ n <= n' /\
    recv_buffer r' = recv_buffer r ++ sl S n (n' - n) /\ rcv_wnd r' = rcv_wnd r /\
    n' - n + ooo_bytes r' <= ooo_bytes r /\
    ((forall l, ext l = true) -> forall e, e ∈ A -> pc_off e <= n -> pc_end e <= n' /\ (pc_fin e = true -> fin_received r' = true)).
Proof.
  intros Hreach [Hq HA Hs Hc Hcap Hb] Hat Hends Hbud Hw Hst.
  pose proof (zlen_nonneg (recv_buffer r)).
  destruct (drain_spec base S F lo hi Hreach ext r n A 0 Hat HA Hs) as (n' & A' & r' & Hd & Hdr);
    [lia|unfold MAX_WND, u32_max in *; lia|].
  exists n', A', r'. unfold ooo_drain_contiguous. rewrite Hq, Hd.
  destruct Hdr as [Hpos Hr' [gone Hg] Hfin Hah Hgone Hbg Hpr].
  assert (Forall (piece_ok F lo hi) A') as HA' by (subst A; by apply Forall_app in HA as [_ ?]).
  assert (forall e, e ∈ A' -> n' < pc_end e <= n' + 2 * MAX_WND) as Hah'.
  { intros e He. split; [by apply Hah|]. assert (e ∈ A) as HeA by (subst A; apply elem_of_app; by right).
    specialize (Hends e HeA). lia. }
  assert (length A' <= length A)%nat as HlA by (subst A; rewrite length_app; lia).
  split; [done|]. split; [|split; [lia|]].
  - rewrite Hr'. eapply recv_at_intro; [done|..]; try done; try lia.
    + subst A. by eapply StronglySorted_app_1_r.
    + rewrite zlen_app, zlen_sl by lia. lia.
    + destruct (fin_received r'); [|done]. destruct Hfin. split_and!; try done. by apply after_fin_closed.
  - split; [by rewrite Hr'|]. split; [by rewrite Hr'|]. split; [rewrite Hr'; cbn [ooo_bytes]; lia|]. intros Hext e He Hle.
    destruct (Hgone e He) as [Hin|]; [|done].
    specialize (Hpr Hext ltac:(unfold TCP_MAX_RECV_BUFFER_BYTES, MAX_WND in *; lia) e Hin). lia.
Qed.

(** ** Insertion *)

(** The end of a merged piece is the end of one of its parts. *)
Lemma merged_end lo hi x A y A' b :
  merged_into F lo hi x A y A' -> 0 < pc_len x -> pc_end x <= b -> (forall e, e ∈ A -> pc_end e <= b) -> pc_end y <= b.
Proof.
  intros [_ ((? & ? & _) & Hp & _) _ _] Hl Hx HA.
  destruct (Hp (pc_end y - 1)) as [?|(e & He & _ & ?)]; [unfold pc_end in *; lia|lia|].
  specialize (HA e He). lia.
Qed.

Lemma insert_trimmed_recv_at al n A r x :
  recv_at n A r -> fin_received r = false -> piece_ok F (n - NEAR) (n + NEAR) x -> 0 < pc_len x ->
  n <= pc_off x -> pc_end x <= n + 2 * MAX_WND -> zlen (recv_buffer r) + total A + pc_len x <= rcv_wnd r ->
  exists k A' r', ooo_insert_trimmed al (wadd base (pc_off x)) (sl S (pc_off x) (pc_len x)) (pc_fin x) r = Ok (k, r') /\
    recv_at n A' r' /\ recv_buffer r' = recv_buffer r /\ rcv_wnd r' = rcv_wnd r /\ conn_state r' = conn_state r /\
    fin_received r' = false /\
    (all_succeed al = true -> Z.of_nat (length A) < TCP_OOO_MAX_SEGMENTS -> exists y, y ∈ A' /\ contains y x).
Proof.
  intros [Hn HQ Hah Hbud Hw Hf] Hnf Hx Hl Ho He Hfit. pose proof HQ as [Hq HA Hs Hc Hcap Hb].
  pose proof (zlen_nonneg (recv_buffer r)).
  destruct (insert_trimmed_spec base S F _ _ (near_reach n) al r x A HQ Hx) as (k & A' & cap & Heq & Hins & Hc' & Hcap' & Hs');
    [unfold MAX_WND, u32_max in *; lia|].
  exists k, A', (with_queue r (map (cseg base S) A') cap (total A')). rewrite Heq, Hnf in *.
  split; [done|]. split; [|split_and!; try done].
  - assert (forall y, merged_into F (n - NEAR) (n + NEAR) x A y A' -> Forall (piece_ok F (n - NEAR) (n + NEAR)) A' /\
      separated A' /\ total A' <= total A + pc_len x /\ forall e, e ∈ A' -> n < pc_end e <= n + 2 * MAX_WND) as Hm.
    { intros y Hm. split_and!; [by eapply merged_into_ok|by eapply merged_into_separated|
        by eapply merged_into_total|].
      intros e [->|[HeA _]]%(merged_into_elem _ _ _ _ _ _ _ _ Hm); [|by apply Hah].
      pose proof (mi_made _ _ _ _ _ _ _ Hm) as ((? & ? & _) & _). split; [unfold pc_end in *; lia|].
      eapply merged_end; [done..|]. intros e HeA. by apply Hah. }
    assert (Forall (piece_ok F (n - NEAR) (n + NEAR)) A' /\ separated A' /\ total A' <= total A + pc_len x /\
      forall e, e ∈ A' -> n < pc_end e <= n + 2 * MAX_WND) as (? & ? & ? & ?).
    { destruct Hins as [[_ ->]|(y & Hy & _)]; [|by apply (Hm y)]. split_and!; try done. lia. }
    unfold with_queue. rewrite Hnf, Hn. apply (recv_at_intro (n - NEAR) (n + NEAR)); try done. lia.
  - intros Hal Hlen. destruct (Hs' Hal Hlen) as (y & Hy). exists y. split; [|apply Hy].
    apply (merged_into_elem _ _ _ _ _ _ _ _ Hy). by left.
Qed.

Lemma insert_recv_at al n A r x :
  recv_at n A r -> fin_received r = false -> piece_ok F (n - NEAR) (n + NEAR) x -> 0 < pc_len x ->
  n <= pc_off x < n + MAX_WND ->
  exists k A' r', ooo_insert al (wadd base (pc_off x)) (sl S (pc_off x) (pc_len x)) (pc_fin x) r = Ok (k, r') /\
    recv_at n A' r' /\ recv_buffer r' = recv_buffer r /\ rcv_wnd r' = rcv_wnd r /\ conn_state r' = conn_state r /\
    fin_received r' = false /\
    (all_succeed al = true -> Z.of_nat (length A) < TCP_OOO_MAX_SEGMENTS ->
     zlen (recv_buffer r) + total A + pc_len x <= rcv_wnd r -> exists y, y ∈ A' /\ contains y x).
Proof.
  intros Hat Hnf Hx Hl Ho. pose proof Hat as [Hn HQ Hah Hbud Hw Hf]. pose proof HQ as [_ HA _ _ _ Hb].
  pose proof (zlen_nonneg (recv_buffer r)). pose proof (total_nonneg _ _ _ _ HA).
  pose proof (po_hi _ _ _ _ Hx). unfold ooo_insert.
  rewrite zlen_sl, Hb by lia. destruct (Z.eqb_spec (pc_len x) 0); [lia|]. cbn [andb].
  rewrite (wrap32_id (zlen _)), (wrap32_id (pc_len x)) by (unfold pc_end, NEAR, MAX_WND in *; lia).
  unfold sat_add32. rewrite Z.min_l by (unfold u32_max, MAX_WND in *; lia).
  unfold saturating_sub. rewrite Z.max_l by lia.
  destruct (Z.eqb_spec (rcv_wnd r - (zlen (recv_buffer r) + total A)) 0).
  { exists 0, A, r. split_and!; try done. lia. }
  destruct (Z.ltb_spec (rcv_wnd r - (zlen (recv_buffer r) + total A)) (pc_len x)).
  - set (av := rcv_wnd r - (zlen (recv_buffer r) + total A)) in *. rewrite take_sl by lia.
    destruct (insert_trimmed_recv_at al n A r (mkPiece (pc_off x) av false)) as (k & A' & r' & H'); cbn [pc_len pc_off pc_fin] in *;
      try done; try lia.
    + destruct Hx as [? ? ? _ Hend]. constructor; cbn [pc_len pc_off pc_fin]; unfold pc_end in *; cbn [pc_len pc_off]; try lia; try done.
      intros f Hff. specialize (Hend f Hff). lia.
    + unfold pc_end. cbn [pc_len pc_off]. lia.
    + exists k, A', r'. destruct H' as (? & ? & ? & ? & ? & ? & _). split_and!; try done. intros. lia.
  - destruct (insert_trimmed_recv_at al n A r x) as (k & A' & r' & ? & ? & ? & ? & ? & ? & Hs); try done; try lia.
    { unfold pc_end in *. lia. }
    exists k, A', r'. split_and!; try done. intros. by apply Hs.
Qed.

(** ** The FIN *)
Lemma purge_bytes lo hi A b :
  Forall (piece_ok F lo hi) A -> hi - lo <= 4 * REACH - 4 -> total A <= b ->
  fold_left (fun b e => saturating_sub b (wrap32 (zlen (oo_data e)))) (map (cseg base S) A) b = b - total A.
Proof.
  intros HA Hr. revert b. induction HA as [|e A He HA IH]; intros b Hb; cbn [map fold_left]; [unfold total; cbn; lia|].
  change (total (e :: A)) with (pc_len e + total A) in *. pose proof (total_nonneg _ _ _ _ HA).
  cbn [cseg oo_data]. rewrite (small_len S F lo hi Hr e He). unfold saturating_sub.
  rewrite Z.max_l by lia. rewrite IH by lia. lia.
Qed.

Lemma accept_fin_recv_at lo hi target n A r :
  queue_ok base S F lo hi r A -> hi - lo <= 4 * REACH - 4 -> takes_data target = false -> F = Some n ->
  zlen (recv_buffer r) <= rcv_wnd r -> 0 < rcv_wnd r <= MAX_WND ->
  recv_at n [] (accept_fin target (wadd base n) r).
Proof.
  intros [Hq HA _ _ Hcap Hb] Hr Ht Hf Hbuf Hw. unfold accept_fin.
  rewrite Hq, Hb, (purge_bytes lo hi), Z.sub_diag, wadd_assoc by done.
  apply (recv_at_intro 0 0 target true n [] (rcv_wnd r) (recv_buffer r) (ooo_capacity r)); try done.
  - constructor.
  - cbn. lia.
  - intros e He. by apply not_elem_of_nil in He.
  - change (total []) with 0. lia.
Qed.

Lemma fin_target_closed s acked : takes_data (fin_target s acked) = false.
Proof. by destruct s, acked. Qed.

(** ** Segments *)

(** A segment of the peer's stream: [len] bytes from position [o] *)
Record honest (n : Z) (sg : InSegment) (o len : Z) : Prop := {
  ho_seq : i_seq sg = wadd base o;
  ho_payload : i_payload sg = sl S o len;
  ho_len : 0 <= len <= 65535;
  ho_far : n - FAR <= o <= n + FAR;
  ho_fin : i_fin sg = true -> F = Some (o + len);
  ho_end : forall f, F = Some f -> o + len <= f;
}.

Definition grows (n : Z) (r : Receiver) (n' : Z) (r' : Receiver) : Prop :=
  n <= n' /\ recv_buffer r' = recv_buffer r ++ sl S n (n' - n) /\ rcv_wnd r' = rcv_wnd r.

Lemma grows_refl n r r' : recv_buffer r' = recv_buffer r -> rcv_wnd r' = rcv_wnd r -> grows n r n r'.
Proof.
  intros Hb Hw. unfold grows. rewrite Hb, Hw, Z.sub_diag. unfold sl. cbn. by rewrite app_nil_r.
Qed.

(** Everything around the connection agrees to take [grow] bytes. *)
Definition willing (env : InputEnv) (grow : Z) (b : Charge) : Prop :=
  hook_net_recv env = true /\ (0 < grow -> is_Some (recv_gate env grow b)) /\ (forall l, extend_ok env l = true) /\
  all_succeed (ooo_allocs env) = true /\ steady env.

Lemma available_is n A r :
  recv_at n A r -> saturating_sub (rcv_wnd r) (sat_add32 (wrap32 (zlen (recv_buffer r))) (ooo_bytes r)) =
    rcv_wnd r - zlen (recv_buffer r) - total A.
Proof.
  intros [_ [_ HA _ _ _ Hb] _ Hbud Hw _]. pose proof (zlen_nonneg (recv_buffer r)). pose proof (total_nonneg _ _ _ _ HA).
  rewrite Hb, wrap32_id by (unfold MAX_WND in *; lia). unfold sat_add32, saturating_sub, MAX_WND, u32_max in *. lia.
Qed.

(** The receiver with the segment's bytes appended, before any draining *)
Lemma advance_state n A r o len :
  recv_at n A r -> fin_received r = false -> 0 <= len <= 65535 ->
  advance r (sl S o len) = mkRecv (conn_state r) (wadd base (n + len)) (rcv_wnd r) (recv_buffer r ++ sl S o len)
    (ooo_queue r) (ooo_capacity r) (ooo_bytes r) (fin_received r).
Proof.
  intros [Hn _ _ _ _ _] Hf Hl. unfold advance. rewrite Hn, Hf, zlen_sl, wadd_assoc, wrap32_id by lia.
  cbn [fin_bit]. by rewrite Z.add_0_r.
Qed.

(** What the data of an in-order segment do: nothing, or the stream grows at
    least to their end; with a FIN the queue is left for the FIN to clear. *)
Definition in_order_result (env : InputEnv) (n : Z) (A : list piece) (r : Receiver) (b : Charge) (len : Z) (is_fin : bool)
  (x : Flow * Receiver * Charge) : Prop :=
  let '(fl, r', b') := x in
  let fits := zlen (recv_buffer r) + total A + len <= rcv_wnd r in
  (exists a, fl = Return a /\ r' = r /\ exact r' b' /\ ~ (willing env len b /\ fits)) \/
  (fl = Proceed (Some (wadd base (n + len))) SackAck /\ fits /\
   if is_fin then r' = advance r (sl S n len) /\ gated env b'
   else exists n' A', recv_at n' A' r' /\ grows n r n' r' /\ n + len <= n' /\ exact r' b').

Lemma in_order_spec env n A r b len is_fin :
  recv_at n A r -> exact r b -> fin_received r = false -> 0 < len <= 65535 -> (forall f, F = Some f -> n + len <= f) ->
  survives env (in_order env (sl S n len) is_fin r b) (in_order_result env n A r b len is_fin).
Proof.
  intros Hat Hex Hnf Hl HF. pose proof Hat as [Hn HQ Hah Hbud Hw Hf]. unfold in_order, in_order_result.
  rewrite (available_is n A r Hat), zlen_sl, wrap32_id by lia.
  destruct (Z.ltb_spec (rcv_wnd r - zlen (recv_buffer r) - total A) len); [left; eexists; split_and!; try done; lia|].
  destruct (recv_gate env len b) as [b1|] eqn:Hg; cycle 1.
  { left. eexists. split_and!; try done. intros [(_ & Hg' & _) _]. destruct (Hg' ltac:(lia)). congruence. }
  destruct (recv_gate_gated env len b b1 ltac:(lia) Hg) as [Hgd Hm].
  destruct (extend_ok env (zlen (recv_buffer r) + len)) eqn:Hx; cbn [negb]; cycle 1.
  { destruct (reconcile_shrinks (net_ns_id env) (before_data env) r b1) as (b2 & -> & Hb2); [unfold exact in Hex; lia|].
    cbn [res_bind]. left. eexists. split_and!; try done. intros [(_ & _ & Hx' & _) _]. by rewrite Hx' in Hx. }
  rewrite (advance_state n A r n len Hat Hnf) by lia. cbn [rcv_nxt].
  destruct is_fin; [right; split_and!; try done; lia|].
  destruct HQ as [Hq HA Hs Hc Hcap Hb].
  match goal with |- context [ooo_drain_contiguous _ ?q] =>
    destruct (drain_recv_at (n - NEAR) (n + NEAR) (extend_ok env) (n + len) A q) as (n' & A' & r' & -> & Hat' & Hge & Hbuf & Hwn & _) end;
    cbn [recv_buffer rcv_wnd conn_state rcv_nxt fin_received]; try done.
  - apply near_reach.
  - split_and!; try done; unfold NEAR; lia.
  - intros e He. specialize (Hah e He). lia.
  - rewrite zlen_app, zlen_sl by lia. lia.
  - rewrite Hnf in Hf. apply Hf.
  - eapply survives_bind; [apply reconcile_gated; [done|by left]|]. intros b2 Hb2. right. split; [done|]. split; [lia|].
    exists n', A'. split_and!; try done. unfold grows. rewrite Hbuf, Hwn. cbn [recv_buffer rcv_wnd].
    split; [lia|]. split; [|done]. rewrite <- app_assoc. f_equal.
    replace (n' - n) with (len + (n' - (n + len))) by lia. by rewrite sl_app by lia.
Qed.

Lemma grows_bound n r n' A' r' : recv_at n' A' r' -> grows n r n' r' -> n <= n' <= n + MAX_WND.
Proof.
  intros [_ [_ HA _ _ _ _] _ Hb Hw _] (Hn & Hbuf & _). pose proof (total_nonneg _ _ _ _ HA).
  rewrite Hbuf, zlen_app, zlen_sl in Hb by lia. pose proof (zlen_nonneg (recv_buffer r)). lia.
Qed.

Lemma wadd_eqb a b : - 2 ^ 31 < a - b < 2 ^ 31 -> (wadd base a =? wadd base b) = (a =? b).
Proof.
  intros Hd. destruct (Z.eqb_spec a b) as [->|Hne]; [apply Z.eqb_refl|]. apply Z.eqb_neq. intros Heq. apply Hne.
  unfold wadd, wrap32 in Heq. Z.to_euclidean_division_equations. lia.
Qed.

Lemma out_of_order_spec env n A r b o len is_fin :
  recv_at n A r -> exact r b -> fin_received r = false -> 0 < len <= 65535 -> n < o < n + MAX_WND ->
  (is_fin = true -> F = Some (o + len)) -> (forall f, F = Some f -> o + len <= f) ->
  survives env (out_of_order env (wadd base o) (sl S o len) is_fin r b) (fun '(fl, r', b') =>
    fl = Return SackAck /\ exact r' b' /\ exists A', recv_at n A' r' /\ grows n r n r').
Proof.
  intros Hat Hex Hnf Hl Ho Hfin Hend. unfold out_of_order. rewrite zlen_sl by lia.
  destruct (recv_gate env len b) as [b1|] eqn:Hg; [|split_and!; try done; exists A; split; [done|by apply grows_refl]].
  destruct (insert_recv_at (ooo_allocs env) n A r (mkPiece o len is_fin)) as (k & A' & r' & Hi & Hat' & Hb & Hw & _);
    cbn [pc_off pc_len pc_fin] in *; try done; try lia.
  { constructor; unfold pc_end; cbn [pc_off pc_len pc_fin]; try done; unfold NEAR, MAX_WND in *; lia. }
  rewrite Hi. cbn [res_bind Datatypes.snd]. eapply survives_bind; [apply reconcile_gated; [|by left]|].
  { by apply (recv_gate_gated env len b b1); [lia|]. }
  intros b2 Hb2. split_and!; try done. exists A'. split; [done|]. by apply grows_refl.
Qed.

(** The tail that is new, inserted at the next position and drained *)
Lemma tail_spec env n A r b len is_fin :
  recv_at n A r -> fin_received r = false -> 0 < len <= 65535 ->
  (is_fin = true -> F = Some (n + len)) -> (forall f, F = Some f -> n + len <= f) ->
  exists k r1 n' A' r', ooo_insert (ooo_allocs env) (wadd base n) (sl S n len) is_fin r = Ok (k, r1) /\
    (ooo_drain_contiguous (extend_ok env) r1).2 = r' /\ recv_at n' A' r' /\ grows n r n' r' /\
    (willing env len b -> zlen (recv_buffer r) + total A + len <= rcv_wnd r ->
     Z.of_nat (length A) < TCP_OOO_MAX_SEGMENTS -> n + len <= n' /\ (is_fin = true -> fin_received r' = true)).
Proof.
  intros Hat Hnf Hl Hfin Hend.
  destruct (insert_recv_at (ooo_allocs env) n A r (mkPiece n len is_fin)) as
    (k & A1 & r1 & Hi & Hat1 & Hb & Hw & Hs & Hf1 & Hsucc); cbn [pc_off pc_len pc_fin] in *; try done; try lia.
  { constructor; unfold pc_end; cbn [pc_off pc_len pc_fin]; try done; unfold NEAR, MAX_WND in *; lia. }
  { unfold MAX_WND. lia. }
  pose proof Hat1 as [Hn1 HQ1 Hah1 Hbud1 Hw1 Hfin1]. rewrite Hf1 in Hn1, Hfin1.
  cbn [fin_bit] in Hn1. rewrite Z.add_0_r in Hn1.
  destruct (drain_recv_at (n - NEAR) (n + NEAR) (extend_ok env) n A1 r1) as (n' & A' & r' & Hd & Hat' & Hge & Hbuf & Hwn & _ & Hpr);
    try done; try apply near_reach; try apply Hfin1.
  - split_and!; try done; [by apply (qo_bytes _ _ _ _ _ _ _ HQ1)|unfold NEAR; lia..|apply Hfin1].
  - intros e He. by apply Hah1.
  - exists k, r1, n', A', r'. split; [done|]. split; [done|]. split; [done|].
    split; [unfold grows; by rewrite Hbuf, Hb, Hwn, Hw|]. intros Hwill Hfit Hcount.
    destruct (Hsucc ltac:(apply Hwill) Hcount Hfit) as (y & Hy & Hc1 & Hc2 & Hc3).
    unfold pc_end in Hc2; cbn [pc_off pc_len pc_fin] in *.
    destruct (Hpr ltac:(apply Hwill) y Hy Hc1) as [Hp1 Hp2]. unfold pc_end in *. split; [lia|auto].
Qed.

(** What a segment that starts below the next position does *)
Definition overlap_result (env : InputEnv) (n : Z) (A : list piece) (r : Receiver) (b : Charge) (o len : Z) (is_fin : bool)
  (x : Flow * Receiver * Charge) : Prop :=
  let '(fl, r', b') := x in exact r' b' /\
  exists n' A', recv_at n' A' r' /\ grows n r n' r' /\
    (fl = Return SackAck \/ fl = Proceed None NoAnswer /\ fin_received r' = false /\ is_fin = true /\ n' = o + len) /\
    (willing env (o + len - n) b -> n <= o + len -> zlen (recv_buffer r) + total A + (o + len - n) <= rcv_wnd r ->
     Z.of_nat (length A) < TCP_OOO_MAX_SEGMENTS ->
     o + len <= n' /\ (is_fin = true -> fin_received r' = true \/ fl = Proceed None NoAnswer)).

Lemma overlap_segment_spec env n A r b o len is_fin :
  recv_at n A r -> exact r b -> fin_received r = false -> 0 < len <= 65535 -> n - FAR <= o < n ->
  (is_fin = true -> F = Some (o + len)) -> (forall f, F = Some f -> o + len <= f) ->
  survives env (overlap env (wadd base o) (sl S o len) is_fin r b) (overlap_result env n A r b o len is_fin).
Proof.
  intros Hat Hex Hnf Hl Ho Hfin Hend. pose proof (ra_next _ _ _ Hat) as Hn. rewrite Hnf in Hn. cbn [fin_bit] in Hn.
  rewrite Z.add_0_r in Hn. unfold overlap, duplicate_payload_has_new_fin.
  rewrite zlen_sl, wrap32_id, wadd_assoc, Hn by lia.
  assert (u32_max <? len = false) as -> by (unfold u32_max; lia).
  rewrite seq_gt_offset by (unfold FAR in *; lia). destruct (Z.ltb_spec n (o + len)) as [Hnew|Hold]; cycle 1.
  { rewrite wadd_eqb by (unfold FAR in *; lia).
    destruct (is_fin && (o + len =? n)) eqn:Hd; (split; [done|]); exists n, A; (split; [done|split; [by apply grows_refl|]]).
    - apply andb_true_iff in Hd as [? ?%Z.eqb_eq]. split; [right; split_and!; try done; lia|]. intros. split; [lia|by right].
    - split; [by left|]. intros _ ? _ _. split; [lia|]. intros ->. cbn [andb] in Hd. apply Z.eqb_neq in Hd. lia. }
  rewrite wsub_offset by (unfold FAR in *; lia). destruct (Z.ltb_spec len (n - o)); [lia|].
  rewrite drop_sl by lia. replace (o + (n - o)) with n by lia. replace (len - (n - o)) with (o + len - n) by lia.
  rewrite zlen_sl by lia. destruct (recv_gate env (o + len - n) b) as [b1|] eqn:Hg; cycle 1.
  { split; [done|]. exists n, A. split; [done|]. split; [by apply grows_refl|]. split; [by left|].
    intros (_ & Hg' & _). destruct (Hg' ltac:(lia)). congruence. }
  destruct (tail_spec env n A r b (o + len - n) is_fin) as (k & r1 & n' & A' & r' & -> & Hd & Hat' & Hgr & Hpr); try done; try lia.
  { intros Hf. rewrite (Hfin Hf). f_equal. lia. }
  { intros f Hf. specialize (Hend f Hf). lia. }
  cbn [res_bind]. cbn [Datatypes.snd]. rewrite Hd. pose proof (grows_bound _ _ _ _ _ Hat' Hgr) as Hbd.
  replace (n + (o + len - n)) with (o + len) in Hpr by lia.
  eapply survives_bind; [apply reconcile_gated; [by apply (recv_gate_gated env (o + len - n) b b1); [lia|]|by left]|].
  intros b2 Hb2. destruct (fin_received r') eqn:Hf'.
  { split; [done|]. exists n', A'. split_and!; try done; [by left|]. intros. split; [by apply Hpr|by left]. }
  rewrite (ra_next _ _ _ Hat'), Hf'. cbn [fin_bit]. rewrite Z.add_0_r, wadd_eqb by (unfold FAR, MAX_WND in *; lia).
  destruct (is_fin && (o + len =? n')) eqn:Hd'; (split; [done|]); exists n', A'.
  - apply andb_true_iff in Hd' as [? ?%Z.eqb_eq].
    split_and!; try done; [right; split_and!; try done; lia|].
    intros. split; [lia|by right].
  - split_and!; try done; [by left|]. intros. split; [by apply Hpr|]. intros. left. rewrite Hf'. by apply Hpr.
Qed.

(** ** The window check *)
Lemma in_window_offset a n w :
  - 2 ^ 31 < a - n < 2 ^ 31 -> 0 < w <= MAX_WND ->
  seq_in_window (wadd base a) (wadd base n) w = (n <=? a) && (a <? n + w).
Proof.
  intros Hd Hw. unfold MAX_WND in Hw.
  assert (forall x, is_u32 (wadd base x)) as Hu by (intros x; unfold is_u32, wadd, wrap32; apply Z.mod_pos_bound; lia).
  rewrite seq_in_window_spec by (done || unfold is_u32; lia).
  destruct (Z.leb_spec n a); cbn [andb]; [rewrite wsub_offset by lia; apply eq_true_iff_eq; rewrite !Z.ltb_lt; lia|].
  assert (wsub (wadd base a) (wadd base n) = a - n + 2 ^ 32) as ->.
  { unfold wsub, wadd, wrap32. rewrite <- Zminus_mod. Z.to_euclidean_division_equations. lia. }
  apply Z.ltb_ge. lia.
Qed.

Lemma recv_window_offset n w o len is_fin :
  0 < w <= MAX_WND -> 0 <= len <= 65535 -> n - FAR <= o <= n + FAR ->
  let last := o + len + fin_bit is_fin - 1 in
  segment_in_recv_window (wadd base o) len is_fin (wadd base n) w =
    ((n <=? o) && (o <? n + w)) || negb (len + fin_bit is_fin =? 0) && ((n <=? last) && (last <? n + w)).
Proof.
  intros Hw Hl Ho last. unfold segment_in_recv_window. rewrite Z.max_l by lia. fold (fin_bit is_fin).
  assert (0 <= fin_bit is_fin <= 1) as Hb by (destruct is_fin; cbn; lia).
  assert (u32_max <? len = false) as -> by (unfold u32_max; lia).
  assert (u32_max <? len + fin_bit is_fin = false) as -> by (unfold u32_max; lia).
  assert (wsub (wadd (wadd base o) (len + fin_bit is_fin)) 1 = wadd base last) as ->.
  { subst last. unfold wsub, wadd, wrap32. rewrite Zplus_mod_idemp_l, Zminus_mod_idemp_l. f_equal. lia. }
  unfold FAR in Ho. rewrite !in_window_offset by (unfold last; lia). done.
Qed.

Lemma recv_at_state n A r st :
  recv_at n A r -> fin_received r = false -> takes_data st = true ->
  recv_at n A (mkRecv st (rcv_nxt r) (rcv_wnd r) (recv_buffer r) (ooo_queue r) (ooo_capacity r) (ooo_bytes r) (fin_received r)).
Proof.
  intros [Hn [? ? ? ? ? ?] ? ? ? Hf] Hnf Ht. constructor; try done. cbn [fin_received conn_state].
  rewrite Hnf in *. split; [apply Hf|done].
Qed.

(** ** A segment *)

(** What the data of a segment do, as [receive_segment] continues with it *)
Definition payload_result (env : InputEnv) (n : Z) (A : list piece) (r : Receiver) (b : Charge) (o len : Z) (is_fin : bool)
  (x : Flow * Receiver * Charge) : Prop :=
  let '(fl, r', b') := x in
  match fl with
  | Return _ =>
      exact r' b' /\ exists n' A', recv_at n' A' r' /\ grows n r n' r' /\
      (willing env (o + len - n) b -> o <= n <= o + len -> zlen (recv_buffer r) + total A + (o + len - n) <= rcv_wnd r ->
       o = n \/ Z.of_nat (length A) < TCP_OOO_MAX_SEGMENTS ->
       o + len <= n' /\ (is_fin = true -> fin_received r' = true))
  | Proceed e _ =>
      (is_fin = false /\ exact r' b' /\ exists n' A', recv_at n' A' r' /\ grows n r n' r' /\ (o <= n -> o + len <= n')) \/
      (is_fin = true /\ e = None /\ exact r' b' /\ exists n' A', recv_at n' A' r' /\ grows n r n' r' /\ fin_received r' = false /\
         (n' = o + len \/ len = 0 /\ n' = n)) \/
      (is_fin = true /\ gated env b' /\ 0 < len /\ o = n /\ e = Some (wadd base (n + len)) /\ r' = advance r (sl S n len) /\
       zlen (recv_buffer r) + total A + len <= rcv_wnd r)
  end.

Lemma process_payload_spec env n A r b o len is_fin :
  recv_at n A r -> exact r b -> fin_received r = false -> 0 <= len <= 65535 -> n - FAR <= o < n + MAX_WND ->
  (is_fin = true -> F = Some (o + len)) -> (forall f, F = Some f -> o + len <= f) ->
  survives env (process_payload env (wadd base o) (sl S o len) is_fin r b) (payload_result env n A r b o len is_fin).
Proof.
  intros Hat Hex Hnf Hl Ho Hfin Hend. pose proof (ra_next _ _ _ Hat) as Hn. rewrite Hnf in Hn. cbn [fin_bit] in Hn.
  rewrite Z.add_0_r in Hn. unfold process_payload. rewrite zlen_sl, Hn by lia.
  assert (grows n r n r) as Hg0 by (by apply grows_refl).
  destruct (Z.eqb_spec len 0) as [->|Hl0].
  { destruct is_fin; [right; left|left]; split_and!; try done; exists n, A; split_and!; try done; [by right|lia]. }
  destruct (hook_net_recv env) eqn:Hh; cbn [negb]; cycle 1.
  { split; [done|]. exists n, A. split_and!; try done. intros (Hh' & _). congruence. }
  rewrite wadd_eqb by (unfold FAR, MAX_WND in *; lia). destruct (Z.eqb_spec o n) as [->|Hne].
  { eapply survives_mono; [apply (in_order_spec env n A r b len is_fin); [done..|lia|done]|].
    intros [[fl r'] b'] [(a & -> & -> & Hex' & Hno)|(-> & Hfit & Hr')]; cbn [payload_result].
    - split; [done|]. exists n, A. split_and!; try done. intros Hw _ Hf _. destruct Hno.
      replace (n + len - n) with len in * by lia. by split.
    - destruct is_fin; [destruct Hr'; right; right; split_and!; try done; lia|]. left. split; [done|].
      destruct Hr' as (n' & A' & ? & ? & ? & ?). split; [done|]. by exists n', A'. }
  rewrite seq_gt_offset by (unfold FAR, MAX_WND in *; lia). destruct (Z.ltb_spec n o).
  - eapply survives_mono; [apply (out_of_order_spec env n A r b o len is_fin); [done..|lia|lia|done|done]|].
    intros [[fl r'] b'] (-> & Hex' & A' & Hat' & Hgr). split; [done|]. exists n, A'. split_and!; try done. lia.
  - eapply survives_mono; [apply (overlap_segment_spec env n A r b o len is_fin); [done..|lia|lia|done|done]|].
    intros [[fl r'] b'] (Hex' & n' & A' & Hat' & Hgr & Hfl & Hpr). destruct fl as [a|e a].
    + split; [done|]. exists n', A'. split_and!; try done. intros Hw Hc Hfit [|Hq]; [lia|].
      destruct (Hpr Hw ltac:(lia) Hfit Hq) as [? Hff]. split; [done|]. intros Hf. by destruct (Hff Hf).
    + destruct Hfl as [|([= -> ->] & Hf' & Hfi & Hn')]; [done|]. right; left.
      split_and!; try done. exists n', A'. split_and!; try done. by left.
Qed.

(** The segment brings the next byte (or the FIN) and there is room for it. *)
Definition welcome (env : InputEnv) (n : Z) (r : Receiver) (b : Charge) (o len : Z) (is_fin : bool) : Prop :=
  willing env (o + len - n) b /\ o <= n <= o + len /\
  zlen (recv_buffer r) + ooo_bytes r + (o + len - n) + fin_bit is_fin <= rcv_wnd r /\
  (o = n \/ zlen (ooo_queue r) < TCP_OOO_MAX_SEGMENTS).

(** What a segment does *)
Definition segment_result (env : InputEnv) (n : Z) (r : Receiver) (b : Charge) (o len : Z) (is_fin : bool)
  (x : Answer * Receiver * Charge) : Prop :=
  let '(a, r', b') := x in exact r' b' /\
  exists n' A', recv_at n' A' r' /\ grows n r n' r' /\
    (welcome env n r b o len is_fin -> o + len <= n' /\ (is_fin = true -> fin_received r' = true)).

Lemma purge_shrinks l x : 0 <= x ->
  fold_left (fun b e => saturating_sub b (wrap32 (zlen (oo_data e)))) l x <= x.
Proof.
  revert x. induction l as [|e l IH]; intros x Hx; cbn [fold_left]; [lia|].
  assert (0 <= wrap32 (zlen (oo_data e))) by (apply Z.mod_pos_bound; lia).
  etrans; [apply IH; unfold saturating_sub; lia|]. unfold saturating_sub. lia.
Qed.

Lemma purge_nonneg l x : 0 <= x -> 0 <= fold_left (fun b e => saturating_sub b (wrap32 (zlen (oo_data e)))) l x.
Proof.
  revert x. induction l as [|e l IH]; intros x Hx; cbn [fold_left]; [done|]. apply IH. unfold saturating_sub. lia.
Qed.

Lemma accept_fin_held target e r : 0 <= ooo_bytes r -> held (accept_fin target e r) <= held r.
Proof.
  intros Hb. pose proof (purge_shrinks (ooo_queue r) (ooo_bytes r) Hb).
  unfold held, accept_fin, saturating_add. cbn [recv_buffer ooo_bytes]. lia.
Qed.

Lemma process_fin_spec env n A r b o len is_fin x target :
  recv_at n A r -> fin_received r = false -> 0 <= len <= 65535 -> n - FAR <= o < n + MAX_WND ->
  (is_fin = true -> F = Some (o + len)) -> payload_result env n A r b o len is_fin x ->
  takes_data target = false ->
  survives env (process_fin env target (wadd base o) len is_fin x) (segment_result env n r b o len is_fin).
Proof.
  intros Hat Hnf Hl Ho Hfin Hx Ht. pose proof Hat as [_ [Hq HA Hs Hc Hcap Hb] _ Hbud Hw _].
  destruct x as [[[a|e a] r1] b1]; cbn [payload_result process_fin] in *.
  { destruct Hx as (Hex & n' & A' & ? & ? & Hpr). split; [done|]. exists n', A'. split_and!; try done.
    intros (Hwi & Hcov & Hfit & Hqq). rewrite Hq, Hb in *. unfold zlen in Hqq. rewrite length_map in Hqq.
    apply Hpr; try done. destruct is_fin; cbn [fin_bit] in Hfit; lia. }
  destruct Hx as [(-> & Hex & n' & A' & Hat' & Hgr & Hc')|[(-> & -> & Hex & n' & A' & Hat' & Hgr & Hnf' & Hn')|
    (-> & Hgd & Hl0 & -> & -> & -> & Hfit)]].
  - split; [done|]. exists n', A'. split_and!; try done. intros (_ & Hcov & _). split; [apply Hc'; lia|done].
  - cbn [default]. rewrite (ra_next _ _ _ Hat'), Hnf'. cbn [fin_bit]. rewrite Z.add_0_r, wadd_assoc, wrap32_id by lia.
    pose proof (grows_bound _ _ _ _ _ Hat' Hgr). rewrite wadd_eqb by (unfold FAR, MAX_WND in *; lia).
    destruct (Z.eqb_spec (o + len) n') as [<-|Hne]; cbn [negb].
    + pose proof Hat' as [_ HQ' _ Hbud' Hw' _]. pose proof (total_nonneg _ _ _ _ (qo_pieces _ _ _ _ _ _ _ HQ')).
      destruct (reconcile_shrinks (net_ns_id env) (before_fin env) (accept_fin target (wadd base (o + len)) r1) b1) as (b2 & -> & Hex2).
      { rewrite Hex. apply accept_fin_held. rewrite (qo_bytes _ _ _ _ _ _ _ HQ'). lia. }
      split; [done|]. exists (o + len), []. split; [|by split].
      eapply accept_fin_recv_at; [done|apply near_reach|done|by apply Hfin|lia|done].
    + split; [done|]. exists n', A'. split_and!; try done. intros (_ & Hcov & _). lia.
  - cbn [default]. rewrite wadd_assoc, wrap32_id, Z.eqb_refl by lia. cbn [negb].
    eapply survives_bind; [apply reconcile_gated; [done|by right]|]. intros b2 Hex2.
    split; [done|]. exists (n + len), [].
    pose proof (total_nonneg _ _ _ _ HA). split; [|split; [|intros _; split; [lia|done]]].
    + apply (accept_fin_recv_at (n - NEAR) (n + NEAR) target (n + len) A); try done; [apply near_reach|by apply Hfin|].
      cbn [advance recv_buffer rcv_wnd]. rewrite zlen_app, zlen_sl by lia. lia.
    + unfold grows. cbn [accept_fin advance recv_buffer rcv_wnd]. replace (n + len - n) with len by lia. split_and!; [lia|done..].
Qed.

Lemma receive_segment_spec env ack_in_range acked_fin sg n A r b o len :
  recv_at n A r -> exact r b -> takes_data (conn_state r) = true -> honest n sg o len ->
  survives env (receive_segment env ack_in_range acked_fin sg r b) (fun '(a, r', b') => exact r' b' /\
    exists n' A', recv_at n' A' r' /\ grows n r n' r' /\
    (i_ack sg = true -> ack_in_range = true -> welcome env n r b o len (i_fin sg) ->
     o + len <= n' /\ (i_fin sg = true -> fin_received r' = true))).
Proof.
  intros Hat Hex Hst [Hseq Hpay Hl Hfar Hfin Hend].
  assert (fin_received r = false) as Hnf.
  { destruct (fin_received r) eqn:E; [|done]. pose proof (ra_fin _ _ _ Hat) as Hf. rewrite E in Hf.
    destruct Hf as (_ & _ & Hf). congruence. }
  pose proof (ra_wnd _ _ _ Hat) as Hw. pose proof (ra_next _ _ _ Hat) as Hn. rewrite Hnf in Hn.
  cbn [fin_bit] in Hn. rewrite Z.add_0_r in Hn.
  unfold receive_segment. rewrite Hseq, Hpay, zlen_sl, Hn by lia. destruct (i_ack sg); cbn [negb]; cycle 1.
  { split; [done|]. exists n, A. split_and!; try done. by apply grows_refl. }
  rewrite (recv_window_offset n (rcv_wnd r) o len (i_fin sg)) by done.
  destruct (_ || _) eqn:Hwin; cbn [negb]; cycle 1.
  { split; [done|]. exists n, A. split_and!; try done; [by apply grows_refl|]. intros _ _ (_ & Hcov & Hfit & _).
    pose proof (ra_queue _ _ _ Hat) as HQ. pose proof (total_nonneg _ _ _ _ (qo_pieces _ _ _ _ _ _ _ HQ)).
    rewrite (qo_bytes _ _ _ _ _ _ _ HQ) in Hfit. pose proof (zlen_nonneg (recv_buffer r)).
    assert (0 <= fin_bit (i_fin sg) <= 1) by (destruct (i_fin sg); cbn; lia).
    apply orb_false_iff in Hwin as [Hw1 Hw2]. rewrite andb_false_iff, Z.leb_gt, Z.ltb_ge in Hw1.
    rewrite andb_false_iff, negb_false_iff, Z.eqb_eq, andb_false_iff, Z.leb_gt, Z.ltb_ge in Hw2.
    split; [lia|]. intros Hfi. rewrite Hfi in *. cbn [fin_bit] in *. lia. }
  destruct ack_in_range; cbn [negb]; cycle 1.
  { split; [done|]. exists n, A. split_and!; try done. by apply grows_refl. }
  assert (n - FAR <= o < n + MAX_WND) as Ho.
  { split; [lia|]. apply orb_true_iff in Hwin as [[_ ?%Z.ltb_lt]%andb_true_iff|[H0%negb_true_iff%Z.eqb_neq
      [_ ?%Z.ltb_lt]%andb_true_iff]%andb_true_iff]; [lia|].
    assert (0 <= fin_bit (i_fin sg)) by (destruct (i_fin sg); cbn; lia). lia. }
  set (r0 := match conn_state r with FinWait1 => _ | _ => r end).
  assert (recv_at n A r0 /\ fin_received r0 = false /\ recv_buffer r0 = recv_buffer r /\ rcv_wnd r0 = rcv_wnd r /\
    ooo_bytes r0 = ooo_bytes r /\ ooo_queue r0 = ooo_queue r) as (Hat0 & Hnf0 & Hb0 & Hw0 & Ho0 & Hq0).
  { subst r0. destruct (conn_state r) eqn:Est, acked_fin; try done.
    split; [rewrite <- Hn; by apply recv_at_state|done]. }
  assert (exact r0 b) as Hex0 by (unfold exact, held in *; by rewrite Hb0, Ho0).
  eapply survives_bind; [apply (process_payload_spec env n A r0 b o len (i_fin sg)); done|]. intros x Hx.
  eapply survives_mono; [apply (process_fin_spec env n A r0 b o len (i_fin sg) x); try done; apply fin_target_closed|].
  intros [[a r'] b'] (Hex' & n' & A' & Hat' & Hgr & Hpr'). split; [done|]. exists n', A'. split; [done|].
  unfold grows, welcome in *. rewrite Hb0, Hw0 in *. split; [done|]. intros _ _. rewrite Ho0, Hq0 in Hpr'. done.
Qed.

(** A FIN alone, on a connection that holds nothing, removes the counter. *)
Lemma fin_alone env acked_fin n A r b :
  recv_at n A r -> exact r b -> takes_data (conn_state r) = true -> held r = 0 -> net_ns_id env <> ROOT ->
  exists r' b', receive_segment env true acked_fin (mkInSeg true true (rcv_nxt r) []) r b = Ok (PlainAck, r', b') /\
    per_ns_recv_bytes b' = delete (net_ns_id env) (before_fin env (per_ns_recv_bytes b)).
Proof.
  intros Hat Hex Hst Hz Hns. pose proof Hat as [Hn HQ _ _ Hw Hf]. unfold receive_segment. cbn [i_ack i_fin i_seq i_payload negb].
  change (zlen []) with 0. rewrite Hn. set (m := n + fin_bit (fin_received r)) in *.
  rewrite (recv_window_offset m (rcv_wnd r) m 0 true) by (unfold FAR; lia).
  destruct (Z.leb_spec m m); [|lia]. destruct (Z.ltb_spec m (m + rcv_wnd r)); [|lia]. cbn [andb orb negb]. rewrite <- Hn.
  set (r0 := match conn_state r with FinWait1 => _ | _ => r end).
  assert (held r0 = 0 /\ rcv_nxt r0 = rcv_nxt r /\ ooo_bytes r0 = ooo_bytes r /\ recv_buffer r0 = recv_buffer r) as (Hz0 & Hn0 & Ho0 & Hb0).
  { subst r0. by destruct (conn_state r), acked_fin. }
  unfold process_payload. change (zlen []) with 0. cbn [Z.eqb res_bind process_fin default].
  change (wrap32 0) with 0. rewrite Hn0, Hn, wadd_assoc, Z.add_0_r, Z.eqb_refl. cbn [negb].
  set (r1 := accept_fin _ _ _). assert (0 <= ooo_bytes r0) as Hpos.
  { rewrite Ho0, (qo_bytes _ _ _ _ _ _ _ HQ). apply (total_nonneg _ _ _ _ (qo_pieces _ _ _ _ _ _ _ HQ)). }
  assert (held r1 = 0) as Hz1.
  { pose proof (accept_fin_held (fin_target (conn_state r) acked_fin) (wadd base m) r0 Hpos) as Hle. fold r1 in Hle.
    assert (0 <= ooo_bytes r1) by (subst r1; cbn; by apply purge_nonneg). pose proof (zlen_nonneg (recv_buffer r1)).
    unfold held, saturating_add, usize_max, u64_max in *. lia. }
  unfold reconcile, reconcile_ns_recv, exact in *. rewrite Hz1, Hex, Hz. destruct (Z.eqb_spec (net_ns_id env) ROOT); [done|].
  eexists _, _. split; [reflexivity|done].
Qed.

(** ** A read *)
Lemma read_commit_spec ext ns others requested n A r b :
  recv_at n A r -> exact r b -> 0 <= requested ->
  exists n' A' r' b', read_commit ext ns others requested r b = Ok (take (Z.to_nat requested) (recv_buffer r), r', b') /\
    recv_at n' A' r' /\ n <= n' /\ exact r' b' /\
    take (Z.to_nat requested) (recv_buffer r) ++ recv_buffer r' = recv_buffer r ++ sl S n (n' - n).
Proof.
  intros Hat Hex Hreq. pose proof Hat as [Hn HQ Hah Hbud Hw Hf]. pose proof HQ as [Hq HA Hs Hc Hcap Hb]. unfold read_commit.
  assert (forall l : list Z, take (Z.to_nat (Z.min requested (zlen l))) l = take (Z.to_nat requested) l /\
    drop (Z.to_nat (Z.min requested (zlen l))) l = drop (Z.to_nat requested) l) as Hmin.
  { intros l. destruct (Z.min_spec requested (zlen l)) as [[_ ->]|[? ->]]; [done|]. unfold zlen in *.
    rewrite Nat2Z.id, take_ge, drop_ge, take_ge, drop_ge by lia. done. }
  destruct (Hmin (recv_buffer r)) as [-> ->].
  assert (zlen (drop (Z.to_nat requested) (recv_buffer r)) <= zlen (recv_buffer r)) as Hle
    by (unfold zlen; rewrite length_drop; lia).
  assert (forall r', zlen (recv_buffer r') + ooo_bytes r' <= zlen (recv_buffer r) + ooo_bytes r ->
    exists b', reconcile ns others r' b = Ok b' /\ exact r' b') as Hrec.
  { intros r' Hheld. apply reconcile_shrinks. rewrite Hex. unfold held, saturating_add. lia. }
  destruct (fin_received r) eqn:E.
  - destruct Hf as (HF & -> & Hst). rewrite Hq. change (ooo_drain_contiguous ext ?q) with (0, q). cbn [Datatypes.snd].
    set (r' := mkRecv _ _ _ _ _ _ _ _). destruct (Hrec r') as (b' & -> & Hex'); [cbn; lia|]. cbn [res_bind].
    exists n, [], r', b'. split; [done|]. split; [|split; [done|split; [done|]]]; subst r'.
    + rewrite Hn, Hb. apply (recv_at_intro 0 0 (conn_state r) true n []); try done; try lia; constructor.
    + cbn [recv_buffer]. rewrite take_drop, Z.sub_diag. unfold sl. cbn. by rewrite app_nil_r.
  - match goal with |- context [ooo_drain_contiguous _ ?q] =>
      destruct (drain_recv_at (n - NEAR) (n + NEAR) ext n A q) as (n' & A' & r' & -> & Hat' & Hge & Hbuf & Hwn & Hbytes & _) end;
      cbn [recv_buffer rcv_wnd conn_state rcv_nxt fin_received ooo_bytes] in *; try done.
    + apply near_reach.
    + destruct Hf as [Hf _]. cbn [fin_bit] in Hn. rewrite Z.add_0_r in Hn. split_and!; try done; unfold NEAR; lia.
    + intros e He. by apply Hah.
    + lia.
    + apply Hf.
    + destruct (Hrec r') as (b' & -> & Hex'); [rewrite Hbuf, zlen_app, zlen_sl by lia; lia|]. cbn [res_bind].
      exists n', A', r', b'. split_and!; try done. by rewrite Hbuf, app_assoc, take_drop.
Qed.

(** * Sessions

    What a receiver can come to: [rd] has been read from it. Segments are any
    pieces of the peer's stream, in any order, repeated or overlapping; the
    surroundings answer as they like. *)
Inductive receiving : list Z -> Receiver -> Charge -> Prop :=
| rx_start st wnd cap counts :
    takes_data st = true -> 0 < wnd <= MAX_WND -> 0 <= cap -> (forall f, F = Some f -> 0 <= f) ->
    receiving [] (mkRecv st (wadd base 0) wnd [] [] cap 0 false) (mkCharge 0 counts)
| rx_others rd r b counts :
    receiving rd r b -> receiving rd r (mkCharge (ns_charged_recv_bytes b) counts)
| rx_segment rd r b env ack_in_range acked_fin sg o len a r' b' :
    receiving rd r b -> takes_data (conn_state r) = true ->
    honest (zlen rd + zlen (recv_buffer r)) sg o len ->
    receive_segment env ack_in_range acked_fin sg r b = Ok (a, r', b') -> receiving rd r' b'
| rx_read rd r b ext ns others requested got r' b' :
    receiving rd r b -> 0 <= requested -> read_commit ext ns others requested r b = Ok (got, r', b') ->
    receiving (rd ++ got) r' b'.

Lemma sl_split m n : 0 <= m <= n -> sl S 0 n = sl S 0 m ++ sl S m (n - m).
Proof. intros. replace n with (m + (n - m)) at 1 by lia. by rewrite sl_app by lia. Qed.

Lemma receiving_inv rd r b :
  receiving rd r b -> exists A, recv_at (zlen rd + zlen (recv_buffer r)) A r /\ exact r b /\
    rd ++ recv_buffer r = sl S 0 (zlen rd + zlen (recv_buffer r)) /\ 0 <= zlen rd + zlen (recv_buffer r).
Proof.
  assert (forall l n, 0 <= n -> l = sl S 0 n -> zlen l = n) as Hz by (intros l n Hn ->; by apply zlen_sl).
  induction 1 as [st wnd cap counts Hst Hw Hc HF|rd r b counts _ IH|rd r b env ai af sg o len a r' b' _ IH Hst Hho Heq|
    rd r b ext ns others req got r' b' _ IH Hreq Heq]; [|exact IH|..].
  - exists []. split; [|split; [done|by split]]. change (zlen [] + zlen _) with 0.
    apply (recv_at_intro 0 0 st false 0 [] wnd [] cap); try done; try (by constructor).
    + intros e He. by apply not_elem_of_nil in He.
    + change (zlen [] + total []) with 0. lia.
  - destruct IH as (A & Hat & Hex & Hpre & Hn).
    pose proof (receive_segment_spec env ai af sg _ A r b o len Hat Hex Hst Hho) as Hsp. rewrite Heq in Hsp.
    destruct Hsp as (Hex' & n' & A' & Hat' & (Hge & Hbuf & _) & _).
    assert (rd ++ recv_buffer r' = sl S 0 n') as Hall.
    { rewrite Hbuf, app_assoc, Hpre. symmetry. apply sl_split. lia. }
    pose proof (Hz _ n' ltac:(lia) Hall) as Hl. rewrite zlen_app in Hl. exists A'. rewrite Hl. split_and!; try done. lia.
  - destruct IH as (A & Hat & Hex & Hpre & Hn).
    destruct (read_commit_spec ext ns others req _ A r b Hat Hex Hreq) as (n' & A' & r'' & b'' & Heq' & Hat' & Hge & Hex' & Hbuf).
    rewrite Heq in Heq'. simplify_eq.
    assert ((rd ++ take (Z.to_nat req) (recv_buffer r)) ++ recv_buffer r'' = sl S 0 n') as Hall.
    { rewrite <- app_assoc, Hbuf, app_assoc, Hpre. symmetry. apply sl_split. lia. }
    pose proof (Hz _ n' ltac:(lia) Hall) as Hl. rewrite zlen_app in Hl. exists A'. rewrite Hl. split_and!; try done. lia.
Qed.

Lemma data_bytes_cseg A : (forall e, e ∈ A -> 0 <= pc_len e) -> data_bytes (map (cseg base S) A) = total A.
Proof.
  unfold data_bytes, total. induction A as [|e A IH]; intros H; [done|]. cbn [map].
  change (sumZ ?f (?x :: ?l)) with (f x + sumZ f l). cbn [cseg oo_data]. rewrite IH, zlen_sl; [done|apply H; left|].
  intros x Hx. apply H. by right.
Qed.

(** A reported range is one the queue holds. *)
Lemma sack_blocks_held n A r b :
  recv_at n A r -> b ∈ generate_sack_blocks r ->
  exists e, e ∈ A /\ b = mkSack (wadd base (pc_off e)) (wadd base (pc_end e + fin_bit (pc_fin e))) /\
    mkOoo (wadd base (pc_off e)) (sl S (pc_off e) (pc_len e)) (pc_fin e) ∈ ooo_queue r /\ n < pc_end e.
Proof.
  intros [_ [Hq HA _ _ _ _] Hah _ _ _] Hb. unfold generate_sack_blocks in Hb. rewrite Hq in Hb.
  apply list_elem_of_In, in_map_iff in Hb as (x & <- & Hx). apply list_elem_of_In in Hx.
  apply elem_of_take in Hx as (i & Hx & _). apply list_elem_of_lookup_2 in Hx. apply list_elem_of_In, in_rev, list_elem_of_In in Hx.
  pose proof Hx as Hx'. apply list_elem_of_In, in_map_iff in Hx as (e & <- & He%list_elem_of_In). exists e. split; [done|].
  assert (piece_ok F (n - NEAR) (n + NEAR) e) as Hok by (by eapply list.Forall_forall in HA).
  split; [|split; [by rewrite Hq|by apply Hah]].
  rewrite (ex_data_end_cseg base S F _ _ (near_reach n) e Hok), wadd_assoc. done.
Qed.
End receiving.
