(* ===== verification/NsBudgetFacts.v ===== *)
(** Lemmas on the namespace budgets: the send counter is the sum of the
    mirrors through every interleaving. *)

From Stdlib Require Import ZArith Lia.
From stdpp Require Import base gmap list numbers.
From S2P Require Import Prelude Machine Wire Tcp TcpConn TcpOutput TcpSendFacts NsBudget.

(** The loop of a send ends within the payload. *)
Lemma segment_loop_range rounds chunk_ok base_seq now payload o :
  0 <= o <= zlen payload -> o <= (segment_loop rounds chunk_ok base_seq now payload o).2 <= zlen payload.
Proof.
  revert o. induction rounds as [|rounds IH]; intros o Ho; cbn [segment_loop]; [cbn; lia|].
  destruct (Z.ltb_spec o (zlen payload)); [|cbn; lia]. destruct (negb _); [cbn; lia|].
  set (fin := Z.min _ _). assert (o <= fin <= zlen payload) by (unfold fin, TCP_ETHERNET_MSS; lia).
  specialize (IH fin ltac:(lia)). destruct (segment_loop rounds _ _ _ _ fin) as [segs last]. cbn [Datatypes.snd] in *. lia.
Qed.

(** * Sums over connections *)
Lemma charged_total_insert ns conns i c :
  conns !! i = None -> charged_total ns (<[i := c]> conns) = charge_in ns c + charged_total ns conns.
Proof. intros Hi. unfold charged_total. by rewrite (map_to_list_insert conns i c Hi). Qed.

Lemma charged_total_delete ns conns i c :
  conns !! i = Some c -> charged_total ns (delete i conns) = charged_total ns conns - charge_in ns c.
Proof.
  intros Hi. unfold charged_total. rewrite <- (map_to_list_delete conns i c Hi).
  change (sumZ ?f ((i, c) :: ?l)) with (f (i, c) + sumZ f l). cbn [Datatypes.snd]. lia.
Qed.

Lemma charged_total_update ns conns i c d :
  conns !! i = Some c ->
  charged_total ns (<[i := d]> conns) = charged_total ns conns - charge_in ns c + charge_in ns d.
Proof.
  intros Hi. rewrite <- (insert_delete_eq conns i d), charged_total_insert by apply lookup_delete_eq.
  rewrite (charged_total_delete ns conns i c Hi). lia.
Qed.

Lemma charge_in_total ns conns i c :
  (forall j x, conns !! j = Some x -> 0 <= c_charged x) -> conns !! i = Some c ->
  0 <= charge_in ns c <= charged_total ns conns.
Proof.
  intros Hall Hi. assert (forall x, 0 <= c_charged x -> 0 <= charge_in ns x) as Hpos
    by (intros x Hx; unfold charge_in; destruct (_ =? _); lia).
  split; [by eapply Hpos, Hall|]. unfold charged_total. rewrite <- (map_to_list_delete conns i c Hi).
  change (sumZ ?f ((i, c) :: ?l)) with (f (i, c) + sumZ f l). cbn [Datatypes.snd].
  assert (0 <= sumZ (fun ic => charge_in ns ic.2) (map_to_list (delete i conns))) as Hs; [|lia].
  apply sumZ_nonneg. intros [j x] Hx%elem_of_map_to_list. cbn. apply Hpos. apply lookup_delete_Some in Hx as [_ Hx]. by eapply Hall.
Qed.

(** * The invariant *)

(** What a connection owes its namespace, by phase: between operations it is
    charged exactly what it buffers; a reservation covers its payload. *)
Definition phase_ok (c : Conn) : Prop :=
  match c_phase c with
  | Idle => c_charged c = c_live c
  | Reserved payload =>
      zlen payload <= TCP_MAX_SEND_SIZE /\ c_live c + zlen payload <= TCP_MAX_SEND_BUFFER_BYTES /\
      (c_ns c <> ROOT -> c_live c + zlen payload <= c_charged c)
  | Changed => True
  end.

Definition conn_ok (c : Conn) : Prop :=
  0 <= c_live c /\ 0 <= c_charged c /\ (c_ns c <> ROOT -> c_live c <= c_charged c) /\ phase_ok c.

Record budget_ok (t : Table) : Prop := {
  bo_root : t_counts t !! ROOT = None;
  bo_count : forall ns, ns <> ROOT ->
    t_counts t !! ns = if charged_total ns (t_conns t) =? 0 then None else Some (charged_total ns (t_conns t));
  bo_cap : forall ns, ns <> ROOT -> charged_total ns (t_conns t) <= MAX_SEND_BYTES_PER_NS;
  bo_conn : forall i c, t_conns t !! i = Some c -> conn_ok c;
}.

Lemma budget_ok_empty : budget_ok empty_table.
Proof. constructor; cbn; done. Qed.

(** A connection is replaced and its namespace's counter moved with it. *)
Lemma budget_ok_put t id c c' counts :
  budget_ok t -> t_conns t !! id = Some c -> c_ns c' = c_ns c -> conn_ok c' ->
  (forall ns, ns <> c_ns c -> counts !! ns = t_counts t !! ns) ->
  (let total := charged_total (c_ns c) (t_conns t) - c_charged c + c_charged c' in
   if c_ns c =? ROOT then counts !! ROOT = None
   else total <= MAX_SEND_BYTES_PER_NS /\ counts !! c_ns c = if total =? 0 then None else Some total) ->
  budget_ok (put id (counts, c') t).
Proof.
  intros [Hroot Hcount Hcap Hconn] Hc Hns Hck Hother Hsame. cbv zeta in Hsame.
  assert (forall ns, charged_total ns (<[id := c']> (t_conns t)) =
    if c_ns c =? ns then charged_total ns (t_conns t) - c_charged c + c_charged c' else charged_total ns (t_conns t)) as Htot.
  { intros ns. rewrite (charged_total_update ns _ _ c c' Hc). unfold charge_in. rewrite Hns. destruct (c_ns c =? ns); lia. }
  constructor; cbn [put t_counts t_conns Datatypes.fst Datatypes.snd].
  - destruct (Z.eqb_spec (c_ns c) ROOT) as [Hr|Hr]; [done|]. by rewrite Hother.
  - intros ns Hn. rewrite Htot. destruct (Z.eqb_spec (c_ns c) ns) as [<-|Hne]; [|rewrite Hother by done; by apply Hcount].
    destruct (Z.eqb_spec (c_ns c) ROOT); [done|]. by destruct Hsame.
  - intros ns Hn. rewrite Htot. destruct (Z.eqb_spec (c_ns c) ns) as [<-|Hne]; [|by apply Hcap].
    destruct (Z.eqb_spec (c_ns c) ROOT); [done|]. by destruct Hsame.
  - intros i x [[<- <-]|[_ Hx]]%lookup_insert_Some; [|by eapply Hconn]. done.
Qed.

(** The counter is untouched when the charge is. *)
Lemma budget_ok_same t id c c' :
  budget_ok t -> t_conns t !! id = Some c -> c_ns c' = c_ns c -> c_charged c' = c_charged c ->
  conn_ok c' -> budget_ok (put id (t_counts t, c') t).
Proof.
  intros Hok Hc Hns Hch Hck. pose proof Hok as [Hroot Hcount Hcap Hconn].
  eapply budget_ok_put; try done; rewrite ?Hch; try done.
  cbv zeta. replace (charged_total (c_ns c) (t_conns t) - c_charged c + c_charged c) with (charged_total (c_ns c) (t_conns t)) by lia.
  destruct (Z.eqb_spec (c_ns c) ROOT) as [|Hne]; [done|]. split; [by apply Hcap|by apply Hcount].
Qed.

Section step.
Context (t : Table) (Hok : budget_ok t) (id : Z) (c : Conn) (Hc : t_conns t !! id = Some c).

Lemma conn_share : c_ns c <> ROOT -> 0 <= c_charged c <= charged_total (c_ns c) (t_conns t).
Proof.
  intros _. pose proof (charge_in_total (c_ns c) (t_conns t) id c) as H. unfold charge_in in H.
  rewrite Z.eqb_refl in H. apply H; [|done]. intros j x Hx. by apply (bo_conn _ Hok j x).
Qed.

Lemma reserve_ok slot_ok payload :
  c_phase c = Idle -> budget_ok (put id (reserve_send slot_ok payload c (t_counts t)) t).
Proof.
  intros Hid. pose proof (bo_conn _ Hok _ _ Hc) as Hck. pose proof Hck as (Hl & Hch & Hlc & Hph). unfold phase_ok in Hph. rewrite Hid in Hph.
  assert (budget_ok (put id (t_counts t, c) t)) as Hsame by (by eapply budget_ok_same). pose proof (zlen_nonneg payload).
  unfold reserve_send. destruct (Z.ltb_spec TCP_MAX_SEND_SIZE (zlen payload)); [done|].
  destruct (Z.eqb_spec (zlen payload) 0) as [Hz|Hz]; [done|].
  destruct (Z.ltb_spec TCP_MAX_SEND_BUFFER_BYTES (c_live c + zlen payload)); [done|].
  unfold try_charge_ns_send. destruct (Z.eqb_spec (c_ns c) ROOT) as [Hr|Hr]; cbn [orb].
  { by eapply budget_ok_same. }
  pose proof (conn_share Hr) as Hsh. pose proof (bo_count _ Hok _ Hr) as Hct. destruct (Z.eqb_spec (zlen payload) 0); [lia|]. cbn [orb].
  destruct (negb _) eqn:Hcap; [done|]. apply negb_false_iff, andb_true_iff in Hcap as [_ Hcap%Z.leb_le].
  set (tot := charged_total (c_ns c) (t_conns t)) in *.
  assert (default 0 (t_counts t !! c_ns c) = tot) as Hcur by (rewrite Hct; destruct (Z.eqb_spec tot 0); cbn; lia).
  rewrite Hcur in *. assert (saturating_add (c_charged c) (zlen payload) = c_charged c + zlen payload) as Hsat
    by (unfold saturating_add, usize_max, u64_max, MAX_SEND_BYTES_PER_NS in *; lia). rewrite Hsat.
  assert (budget_ok (put id (<[c_ns c:=tot + zlen payload]> (t_counts t), mkConn (c_ns c) (c_live c) (c_charged c + zlen payload) (Reserved payload)) t)) as Hnew.
  { eapply budget_ok_put; try done; cbn [c_charged].
    - unfold conn_ok, phase_ok. cbn [c_live c_charged c_ns c_phase]. split_and!; intros; lia.
    - intros ns Hne. by apply lookup_insert_ne.
    - cbv zeta. fold tot. destruct (Z.eqb_spec (c_ns c) ROOT); [done|]. split; [lia|]. rewrite lookup_insert_eq.
      destruct (Z.eqb_spec (tot - c_charged c + (c_charged c + zlen payload)) 0); [lia|]. f_equal. lia. }
  by destruct (t_counts t !! c_ns c); [|destruct slot_ok].
Qed.

(** The loop buffers at most the payload the namespace was charged for. *)
Lemma buffer_ok chunk_ok base_seq now payload :
  c_phase c = Reserved payload -> budget_ok (put id (t_counts t, buffer_send chunk_ok base_seq now payload c) t).
Proof.
  intros Hp. pose proof (bo_conn _ Hok _ _ Hc) as (Hl & Hch & Hlc & Hph). unfold phase_ok in Hph. rewrite Hp in Hph.
  destruct Hph as (Hsz & Hbuf & Hcov). unfold buffer_send. pose proof (zlen_nonneg payload).
  pose proof (segment_loop_range (segment_rounds payload) chunk_ok base_seq now payload 0 ltac:(lia)) as Ho.
  set (o := (segment_loop _ _ _ _ _ _).2) in *. eapply budget_ok_same; try done.
  assert (saturating_add (c_live c) o = c_live c + o) as ->
    by (unfold saturating_add, usize_max, u64_max, TCP_MAX_SEND_BUFFER_BYTES in *; lia).
  unfold conn_ok, phase_ok. cbn [c_live c_charged c_ns c_phase]. destruct (Z.eqb_spec o 0); split_and!; try done; try lia;
    intros Hr; specialize (Hcov Hr); lia.
Qed.

Lemma acked_ok lens :
  c_phase c = Idle -> budget_ok (put id (t_counts t, free_acked (map Z.of_nat lens) c) t).
Proof.
  intros Hp. pose proof (bo_conn _ Hok _ _ Hc) as (Hl & Hch & Hlc & Hph).
  assert (forall x, 0 <= x -> 0 <= fold_left saturating_sub (map Z.of_nat lens) x <= x) as Hf.
  { clear. induction lens as [|k lens IH]; intros x Hx; cbn [map fold_left]; [lia|].
    specialize (IH (saturating_sub x (Z.of_nat k)) ltac:(unfold saturating_sub; lia)). unfold saturating_sub in *. lia. }
  specialize (Hf _ Hl). eapply budget_ok_same; try done. unfold conn_ok, phase_ok, free_acked. cbn [c_live c_charged c_ns c_phase].
  split_and!; done || lia.
Qed.

(** The counter moved down by [n], from a total that holds it *)
Definition lowered (n : Z) : Counts :=
  match t_counts t !! c_ns c with
  | Some k => let now := saturating_sub k n in if now =? 0 then delete (c_ns c) (t_counts t) else <[c_ns c := now]> (t_counts t)
  | None => t_counts t
  end.

Lemma lowered_spec n : c_ns c <> ROOT -> 0 < n <= c_charged c ->
  (forall ns, ns <> c_ns c -> lowered n !! ns = t_counts t !! ns) /\
  lowered n !! c_ns c = let v := charged_total (c_ns c) (t_conns t) - n in if v =? 0 then None else Some v.
Proof.
  intros Hr Hn. pose proof (conn_share Hr). pose proof (bo_count _ Hok _ Hr) as Hct. unfold lowered. rewrite Hct.
  set (tot := charged_total (c_ns c) (t_conns t)) in *. destruct (Z.eqb_spec tot 0); [lia|]. cbv zeta.
  assert (saturating_sub tot n = tot - n) as -> by (unfold saturating_sub; lia).
  destruct (Z.eqb_spec (tot - n) 0); split.
  - intros ns Hne. by apply lookup_delete_ne.
  - apply lookup_delete_eq.
  - intros ns Hne. by apply lookup_insert_ne.
  - apply lookup_insert_eq.
Qed.

Lemma settle_ok : exists x, settle_send c (t_counts t) = Ok x /\ budget_ok (put id x t).
Proof.
  pose proof (bo_conn _ Hok _ _ Hc) as (Hl & Hch & Hlc & _). unfold settle_send, reconcile_ns_send.
  assert (conn_ok (mkConn (c_ns c) (c_live c) (c_live c) Idle)) as Hck by (split_and!; try done; cbn; lia).
  destruct (Z.eqb_spec (c_ns c) ROOT) as [Hr|Hr].
  { eexists. split; [done|]. cbn [Datatypes.fst Datatypes.snd]. eapply budget_ok_put; try done.
    cbv zeta. rewrite Hr. apply (bo_root _ Hok). }
  destruct (Z.eqb_spec (c_live c) (c_charged c)) as [He|He].
  { eexists. split; [done|]. cbn [Datatypes.fst Datatypes.snd]. by eapply budget_ok_same. }
  destruct (Z.ltb_spec (c_charged c) (c_live c)); [specialize (Hlc Hr); lia|].
  eexists. split; [done|]. cbn [Datatypes.fst Datatypes.snd]. fold (lowered (c_charged c - c_live c)).
  destruct (lowered_spec (c_charged c - c_live c) Hr ltac:(lia)) as [Hother Hsame]. cbv zeta in Hsame.
  eapply budget_ok_put; try done. cbv zeta. cbn [c_charged]. destruct (Z.eqb_spec (c_ns c) ROOT); [done|].
  pose proof (bo_cap _ Hok _ Hr). split; [lia|]. rewrite Hsame.
  by replace (charged_total (c_ns c) (t_conns t) - (c_charged c - c_live c)) with
    (charged_total (c_ns c) (t_conns t) - c_charged c + c_live c) by lia.
Qed.

Lemma teardown_ok :
  budget_ok (mkTable (detach_conn c (t_counts t)) (delete id (t_conns t))).
Proof.
  destruct (bo_conn _ Hok _ _ Hc) as (Hl & Hch & Hlc & _). pose proof Hok as [Hroot Hcount Hcap Hconn].
  set (counts := detach_conn _ _).
  assert (forall ns, charged_total ns (delete id (t_conns t)) =
    if c_ns c =? ns then charged_total ns (t_conns t) - c_charged c else charged_total ns (t_conns t)) as Htot.
  { intros ns. rewrite (charged_total_delete ns _ _ c Hc). unfold charge_in. destruct (c_ns c =? ns); lia. }
  assert ((forall ns, ns <> c_ns c -> counts !! ns = t_counts t !! ns) /\
    (c_ns c = ROOT -> counts !! ROOT = None) /\
    (c_ns c <> ROOT -> counts !! c_ns c = let v := charged_total (c_ns c) (t_conns t) - c_charged c in if v =? 0 then None else Some v))
    as (Hother & Hr & Hsame).
  { subst counts. unfold detach_conn, uncharge_ns_send_residual.
    destruct (Z.ltb_spec 0 (c_charged c)) as [Hpos|Hpos]; destruct (Z.eqb_spec (c_charged c) 0) as [H0|H0]; try lia; cbn [orb].
    - destruct (Z.eqb_spec (c_ns c) ROOT) as [Hr|Hr]; [split_and!; try done|]. fold (lowered (c_charged c)).
      destruct (lowered_spec (c_charged c) Hr ltac:(lia)). by split_and!.
    - split_and!; try done. intros Hr. rewrite H0, Z.sub_0_r. by apply Hcount. }
  constructor; cbn [t_counts t_conns].
  - destruct (decide (c_ns c = ROOT)); [by apply Hr|]. by rewrite Hother.
  - intros ns Hn. rewrite Htot. destruct (Z.eqb_spec (c_ns c) ns) as [<-|Hne]; [by apply Hsame|]. rewrite Hother by done. by apply Hcount.
  - intros ns Hn. rewrite Htot. specialize (Hcap ns Hn). destruct (c_ns c =? ns); lia.
  - intros i x [_ Hx]%lookup_delete_Some. by eapply Hconn.
Qed.
End step.

Lemma open_ok id ns t : budget_ok t -> t_conns t !! id = None -> budget_ok (put id (t_counts t, mkConn ns 0 0 Idle) t).
Proof.
  intros [Hroot Hcount Hcap Hconn] E.
  assert (forall m, charged_total m (<[id := mkConn ns 0 0 Idle]> (t_conns t)) = charged_total m (t_conns t)) as Htot.
  { intros m. rewrite charged_total_insert by done. unfold charge_in. cbn. destruct (_ =? _); lia. }
  constructor; cbn [put t_counts t_conns Datatypes.fst Datatypes.snd]; try done.
  - intros m Hm. rewrite Htot. by apply Hcount.
  - intros m Hm. rewrite Htot. by apply Hcap.
  - intros i x [[<- <-]|[_ Hx]]%lookup_insert_Some; [split_and!; try done; cbn; lia|by eapply Hconn].
Qed.

(** Every step of every connection keeps the invariant and none panics. *)
Lemma send_apply_ok op t : budget_ok t -> exists t', send_apply op t = Ok t' /\ budget_ok t'.
Proof.
  intros Hok. destruct op as [id ns|id slot_ok payload|id chunk_ok base_seq now|id lens|id|id]; cbn [send_apply];
    destruct (t_conns t !! id) as [c|] eqn:Hc; try (by exists t);
    try (destruct c as [cns clive cch [|pl|]]; try (by exists t));
    try (eexists; split; [reflexivity|]).
  - by apply open_ok.
  - by apply (reserve_ok t Hok id _ Hc).
  - by apply (buffer_ok t Hok id _ Hc).
  - by apply (acked_ok t Hok id _ Hc).
  - destruct (settle_ok t Hok id _ Hc) as (x & -> & Hx). cbn [res_bind]. eauto.
  - by apply (teardown_ok t Hok id _ Hc).
Qed.

Lemma send_run_ok ops t : budget_ok t -> exists t', send_run ops t = Ok t' /\ budget_ok t'.
Proof.
  revert t. induction ops as [|op ops IH]; intros t Hok; cbn [send_run]; [by exists t|].
  destruct (send_apply_ok op t Hok) as (t' & -> & Hok'). cbn [res_bind]. by apply IH.
Qed.

Lemma live_le_charged t ns : budget_ok t -> ns <> ROOT -> live_total ns (t_conns t) <= charged_total ns (t_conns t).
Proof.
  intros Hok Hns. unfold live_total, charged_total. apply sumZ_le. intros [id c] Hc%elem_of_map_to_list.
  unfold live_in, charge_in. cbn. destruct (Z.eqb_spec (c_ns c) ns) as [<-|]; [|lia].
  by apply (bo_conn _ Hok id c).
Qed.
