(* ===== verification/TcpCorrect.v ===== *)
(** TCP: segments on the wire, the stream a receiver hands out, the
    retransmission buffer of a sender, the SACK scoreboard and the memory
    budgets of namespaces. *)

From Stdlib Require Import ZArith Lia.
From stdpp Require Import base gmap list list_numbers numbers.
From S2P Require Import Prelude Machine Wire WireFacts NetFacts NetCorrect.
From S2P Require Import Tcp TcpFacts TcpConn TcpRecv TcpOutput TcpSendFacts TcpSackFacts TcpInput TcpInputFacts.
From S2P Require Import NsBudget NsBudgetFacts.

(** * Segments on the wire *)

(** Building a segment with options fails exactly when it is too long or
    the heap refuses it, and never aborts. What is built carries a verifying
    checksum and parses back to the ports, numbers, flags and window it was
    built from; its options read back as those that fit the header, up to an
    end-of-list, and its payload follows the header. On arbitrary bytes the
    header parser answers with a header or a truncation or length error, and the
    option parser always ends with at most four SACK blocks. *)
Theorem tcp_segment_roundtrip `{heap : WireHeap} (src dst : Ipv4Addr) (sp dp seq ack flags window : Z)
  (options : list TcpOptionKind) (payload data : list Z) :
  addr_ok src -> addr_ok dst -> is_u16 sp -> is_u16 dp -> is_u32 seq -> is_u32 ack -> is_byte flags ->
  is_u16 window -> Forall option_ok options -> bytes_ok payload ->
  let size := 20 + zlen (serialize_tcp_options options) + zlen payload in
  match try_build_tcp_segment_with_options src dst sp dp seq ack flags window options payload with
  | Ok w => size <= 65535 /\ wire_admitted (80 + size) = true /\
      verify_tcp_checksum src dst (as_slice w) = true /\
      exists h, parse_tcp_header (as_slice w) = Ok h /\
        t_src_port h = sp /\ t_dst_port h = dp /\ seq_num h = seq /\ ack_num h = ack /\
        t_flags h = flags /\ t_window h = window /\
        parse_tcp_options (as_slice w) h = Ok (options_meaning options 0 options_default) /\
        drop (Z.to_nat (tcp_header_len h)) (as_slice w) = payload
  | Err SegmentTooLong => 65535 < size
  | Err AllocationFailed => wire_admitted (80 + size) = false
  | _ => False
  end /\
  match parse_tcp_header data with
  | Ok h => tcp_header_len h <= zlen data /\
      exists o, parse_tcp_options data h = Ok o /\ (length (o_sack_blocks o) <= 4)%nat
  | Err TcpTruncated | Err InvalidHeaderLen => True
  | _ => False
  end.
Proof.
  intros Hs Hd Hsp Hdp Hseq Hack Hfl Hw Hopt Hp size. split; cycle 1.
  { pose proof (parse_header_cases data) as Hc. destruct (parse_tcp_header data) as [h|[]|]; try done.
    destruct Hc as [Ho Hl]. split; [done|]. by apply parse_tcp_options_total. }
  pose proof (tcp_build_spec src dst sp dp seq ack flags window options payload Hs Hd Hsp Hdp Hseq Hack Hfl Hw Hopt Hp) as Hb.
  cbv zeta in Hb. destruct (serialize_spec options Hopt) as (pad & Hser & Hl40 & Hm4 & _).
  destruct (options_body_len options 0 ltac:(lia) Hopt) as [Hbl _].
  destruct (try_build_tcp_segment_with_options src dst sp dp seq ack flags window options payload) as [w|[]|]; try done.
  destruct Hb as (c & Hsz & Had & Hc & Hsl & Hver). set (opts := serialize_tcp_options options) in *.
  set (h := mkTcp sp dp seq ack (5 + zlen opts / 4) 0 flags window c 0) in *.
  pose proof (zlen_nonneg opts). pose proof (zlen_nonneg payload).
  assert (0 <= zlen opts / 4 <= 10) as Hdiv by (Z.to_euclidean_division_equations; lia).
  assert (tcp_header_ok h) as Hh by (constructor; cbn; try done; lia).
  assert (tcp_header_len h = 20 + zlen opts) as Hhl
    by (unfold tcp_header_len; cbn [h data_offset]; Z.to_euclidean_division_equations; lia).
  split_and!; try done. exists h. rewrite Hsl. split_and!; try done.
  - apply parse_tcp_bytes; [done|]. rewrite Hhl, zlen_app. lia.
  - unfold parse_tcp_options, TCP_HEADER_MIN_LEN. rewrite Hhl, !zlen_app, zlen_tcp_to_bytes.
    destruct (Z.leb_spec (20 + zlen opts) 20) as [Hz|Hz]; cbn [orb].
    + assert (opts = []) as Hnil by (destruct opts; [done|unfold zlen in *; cbn in *; lia]).
      assert ((options_body options 0).1 = []) as Hb0 by (rewrite Hser in Hnil; by apply app_eq_nil in Hnil as [? _]).
      pose proof (parse_options_body options 0 options_default 1 0 Hopt ltac:(cbn; lia)) as Hpo.
      rewrite Hb0 in Hpo. apply Hpo. cbn. lia.
    + destruct (Z.ltb_spec (20 + (zlen opts + zlen payload)) (20 + zlen opts)); [lia|].
      rewrite (slice_mid (tcp_to_bytes h) opts payload) by done. cbn [res_bind]. rewrite Hser.
      apply parse_options_body; [done|cbn; lia|]. rewrite length_app. lia.
  - rewrite Hhl, app_assoc. apply drop_app_length'. rewrite length_app.
    pose proof (zlen_tcp_to_bytes h). unfold zlen in *. lia.
Qed.

(** A segment with a window scale and a SACK block *)
Lemma tcp_segment_witness :
  exists w h, @try_build_tcp_segment_with_options roomy sample_src sample_dst 4000 80 7 9 24 1024
      [Mss 1460; WindowScale 3; Sack [mkSack 10 20]] [72; 105] = Ok w /\
    parse_tcp_header (as_slice w) = Ok h /\ t_dst_port h = 80 /\
    parse_tcp_options (as_slice w) h = Ok (mkOptions (Some 1460) (Some 3) false [mkSack 10 20] None) /\
    drop (Z.to_nat (tcp_header_len h)) (as_slice w) = [72; 105].
Proof.
  pose proof (@tcp_segment_roundtrip roomy sample_src sample_dst 4000 80 7 9 24 1024
    [Mss 1460; WindowScale 3; Sack [mkSack 10 20]] [72; 105] []
    ltac:(small_bytes) ltac:(small_bytes) ltac:(unfold is_u16; lia) ltac:(unfold is_u16; lia)
    ltac:(unfold is_u32; lia) ltac:(unfold is_u32; lia) ltac:(unfold is_byte; lia) ltac:(unfold is_u16; lia)
    ltac:(repeat constructor; unfold is_u16, is_u32, is_byte; cbn; lia) ltac:(small_bytes)) as [H _].
  cbv zeta in H. destruct (try_build_tcp_segment_with_options _ _ _ _ _ _ _ _ _ _) as [w|[]|] eqn:E; try (by vm_compute in E).
  destruct H as (_ & _ & _ & h & Hh & _ & Hdp & _ & _ & _ & _ & Ho & Hd). exists w, h. split; [done|]. split; [done|].
  split; [done|]. split; [rewrite Ho; vm_compute; reflexivity|done].
Defined.

(** * The received stream *)


(** A stream of twelve bytes whose sequence numbers wrap: the second half comes
    first, with the FIN, then an overlapping first half, then a read, while another
    connection of the namespace is charged some bytes. *)
Definition sample_stream (p : Z) : Z := p + 1.
Definition sample_env : InputEnv :=
  mkInputEnv true true (fun _ => true) (mkAllocs true (Some 3) true) 7 (alter (fun c => c + 10) 7) (fun c => c).
Definition sample_base : Z := 2 ^ 32 - 4.
Definition sample_recv0 : Receiver := mkRecv Established (wadd sample_base 0) 65535 [] [] 0 0 false.


(** * The retransmission buffer *)

(** C18 Through any sequence of sends, acknowledgements with any number, SACK
    blocks, window changes and timer rounds, with allocations and queues failing
    anywhere: the buffer holds exactly the stream from the first segment not
    wholly acknowledged to its end, cut into neighbouring segments with their
    sequence numbers, so no unacknowledged byte is lost; its byte counter is
    exact and under the cap; the congestion window stays at least one segment,
    the threshold two, the timeout between its limits. An acknowledgement moves
    the acknowledged position to the one it names when that is in flight, and
    leaves it otherwise. Right after a send that accepted data, the data in flight
    fit the peer's and the congestion window (a later window update may shrink
    them under what is in flight), and all of the payload is accepted when
    memory lasts. When the front segment is overdue, and retries and memory are left, the timer
    prepares one segment: one whose retry is pending and due if there is one, the
    front otherwise. *)
Theorem sender_correct (base : Z) (T : list Z) (fin : bool) (t : Sender) :
  sending base T fin t ->
  cong_ok t /\
  exists a f, sent_ok base T fin a f t /\
    (forall sack_enabled build_ok queue_ok inp, 0 <= a_ack inp < 2 ^ 32 ->
       exists f', f <= f' /\ sent_ok base T fin (ack_moves base T fin a (a_ack inp)) f'
         (apply_ack_and_cc sack_enabled build_ok queue_ok inp t).2) /\
    (forall st charge chunk_ok now payload n t', fin = false ->
       tcp_send st charge chunk_ok now payload t = (Sent n, t') ->
       sent_ok base (T ++ take (Z.to_nat n) payload) false a f t' /\
       (0 < n -> bytes_in_flight (snd t') <= Z.min (snd_wnd (snd t')) (Z.max (cwnd (cong t')) (snd_mss (snd t')))) /\
       ((forall x, chunk_ok x = true) -> n = zlen payload)) /\
    (forall st now seg rest, retries (tim t) < TCP_MAX_RETRIES -> retransmits st = true ->
       send_buffer (snd t) = seg :: rest -> eligible now seg = true ->
       rto_ms (tim t) <= saturating_sub now (sent_at seg) ->
       exists w x, (prepare_data_retransmit st true now t).1 = Some w /\ x ∈ send_buffer (snd t) /\
         w_seq w = s_seq x /\
         ((pending (retry x) = true /\ eligible now x = true) \/
          (x = seg /\ forall y, y ∈ send_buffer (snd t) -> eligible now y = true -> pending (retry y) = false))).
Proof.
  intros Htx. destruct (sending_inv base T fin t Htx) as [(a & f & Hs) Hc]. split; [done|].
  exists a, f. split; [done|]. split; [|split].
  - intros sk b q inp Ha. destruct (apply_ack_spec base sk b q inp T fin a f t Hs Hc Ha) as (f' & ? & _ & ?). by exists f'.
  - intros st ch ok now payload n t' -> He. pose proof (tcp_send_spec base st ch ok now payload T a f t Hs Hc) as Hp.
    rewrite He in Hp. by destruct Hp as (_ & _ & ? & ? & ?).
  - intros st now seg rest Hn Hst Hb He Hr. by eapply prepare_due.
Qed.

(** Five bytes sent, the first three acknowledged *)
Definition sample_sender0 : Sender :=
  mkSender (mkSend (wadd sample_base 0) (wadd sample_base 0) 65535 536 (wadd sample_base 0) [] 0)
    (mkCong (initial_cwnd 536) TCP_INITIAL_SSTHRESH 0 SlowStart 0) (mkTiming TCP_INITIAL_RTO_MS 0 0 0 0 0 0).
Definition sample_sender1 : Sender :=
  Eval vm_compute in (tcp_send Established None (fun _ => true) 40 [10; 20; 30; 40; 50] sample_sender0).2.

Lemma sender_witness :
  exists t, sending sample_base [10; 20; 30; 40; 50] false t /\ snd_una (snd t) = 2 ^ 32 - 1 /\ cong_ok t /\
    map s_data (send_buffer (snd t)) = [[10; 20; 30; 40; 50]].
Proof.
  set (inp := mkAckInput (2 ^ 32 - 1) [] false 65535 90).
  assert (sending sample_base [10; 20; 30; 40; 50] false (apply_ack_and_cc true true true inp sample_sender1).2) as Htx.
  { apply tx_ack; [|cbn; lia]. change [10; 20; 30; 40; 50] with ([] ++ take (Z.to_nat 5) [10; 20; 30; 40; 50]).
    apply (tx_send _ [] sample_sender0 Established None (fun _ => true) 40 [10; 20; 30; 40; 50] 5); [|reflexivity].
    apply tx_start. unfold TCP_ETHERNET_MSS. lia. }
  eexists. split; [exact Htx|]. split; [reflexivity|]. split; [|reflexivity].
  apply (sender_correct sample_base [10; 20; 30; 40; 50] false _ Htx).
Defined.

(** * The SACK scoreboard *)

(** C19 Positions are relative to the acknowledgement point, with at most 2^30
    bytes in flight and every position of the buffer, the blocks and the highest
    claim within 2^30 of it. When the first buffered segment starts at that point,
    processing SACK blocks marks exactly the segments each of whose bytes is in
    flight and claimed by one of the first four blocks, the same for all its
    bytes or not, although the code only clamps, sorts, merges and sweeps once;
    the highest claim rises to the end of the highest claimed byte. When the
    first segment starts below that point, as after an acknowledgement inside a
    segment, no segment is marked at all. Loss detection then adds exactly the
    unclaimed segments below the highest claim with three marked ones above. *)
Theorem sack_scoreboard_correct (s : SendSpace) (N o e H : Z) (ranges : list (Z * Z)) :
  0 <= snd_una s < 2 ^ 32 -> snd_nxt s = wadd (snd_una s) N -> 0 <= N <= 2 ^ 30 ->
  tiles (snd_una s) o (map body (send_buffer s)) e -> - 2 ^ 30 < o <= 0 -> e <= N ->
  highest_sacked s = wadd (snd_una s) H -> - 2 ^ 30 < H <= 2 ^ 30 -> Forall near ranges ->
  let C p := (0 <=? p) && (p <? N) && claims (take (Z.to_nat TCP_SACK_MAX_BLOCKS) ranges) p in
  let s' := process_sack_blocks (map (block_of (snd_una s)) ranges) s in
  send_buffer s' = (if o =? 0 then map (mark_claimed (snd_una s) C) (send_buffer s) else send_buffer s) /\
  (exists H', highest_sacked s' = wadd (snd_una s) H' /\ H <= H' <= Z.max H N /\
     (forall p, C p = true -> p < H') /\ (H' = H \/ C (H' - 1) = true)) /\
  (forall i seg, send_buffer s' !! i = Some seg ->
     send_buffer (sack_mark_lost s') !! i = Some (with_lost seg (lost seg ||
       (negb (sacked seg) && seq_le (seg_end seg) (highest_sacked s') &&
        (3 <=? sacked_count (drop (S i) (send_buffer s'))))))).
Proof.
  intros Hu Hn HN Ht Ho He Hh HH Hnear C s'.
  destruct (process_sack_spec (snd_una s) N Hu HN s ranges o e H) as [Hbuf Hhigh]; try done.
  split; [exact Hbuf|]. split; [exact Hhigh|]. intros i seg Hi. by apply mark_lost_spec.
Qed.

(** Five segments of two bytes; the last three are claimed by two blocks. *)
Definition sample_board (una : Z) : SendSpace :=
  mkSend una (wadd sample_base 10) 65535 536 una
    (map (fun i => mkSeg (wadd sample_base (2 * i)) [i; i] 0 0 false false (mkRetry false false false 0 0))
       [0; 1; 2; 3; 4]) 10.

Lemma sack_scoreboard_witness :
  map sacked (send_buffer (process_sack_blocks (map (block_of sample_base) [(8, 10); (4, 9)]) (sample_board sample_base))) =
    map sacked (map (mark_claimed sample_base (fun p => (0 <=? p) && (p <? 10) && claims [(8, 10); (4, 9)] p))
      (send_buffer (sample_board sample_base))) /\
  map lost (send_buffer (sack_mark_lost (process_sack_blocks (map (block_of sample_base) [(8, 10); (4, 9)])
    (sample_board sample_base)))) = [true; true; false; false; false].
Proof.
  destruct (sack_scoreboard_correct (sample_board sample_base) 10 0 10 0 [(8, 10); (4, 9)]) as [Hb _];
    try reflexivity; try (unfold sample_base; cbn; lia); 
    [repeat split; vm_compute; first [reflexivity|discriminate]|repeat constructor; cbn; lia|].
  split; [exact (f_equal (map sacked) Hb)|reflexivity].
Defined.

(** * Memory budgets *)

(** C20 Whatever the connections of all namespaces do to the send budget, in
    any interleaving of the charges of sends, the loops that buffer what
    allocations allow, acknowledgements, reconciliations and closing: no step
    panics. For every namespace but the root, which has no limit, the counter is
    the sum of what its connections were charged (absent at zero) and under the
    cap; a connection buffers no more than it was charged, also while a send is
    between its charge and its reconciliation, and so the bytes really buffered in
    the namespace stay under the cap. A connection outside such operations is
    charged exactly what it buffers. *)
Theorem send_budget_correct (ops : list Op) :
  exists t, send_run ops empty_table = Ok t /\
    forall ns, ns <> ROOT ->
      t_counts t !! ns = (if charged_total ns (t_conns t) =? 0 then None else Some (charged_total ns (t_conns t))) /\
      live_total ns (t_conns t) <= charged_total ns (t_conns t) <= MAX_SEND_BYTES_PER_NS /\
      forall id c, t_conns t !! id = Some c -> c_ns c = ns ->
        0 <= c_live c <= c_charged c /\ (c_phase c = Idle -> c_charged c = c_live c).
Proof.
  destruct (send_run_ok ops empty_table budget_ok_empty) as (t & Hrun & Hok). exists t. split; [done|]. intros ns Hns.
  split; [by apply (bo_count _ Hok)|]. split; [split; [by apply live_le_charged|by apply (bo_cap _ Hok)]|].
  intros id c Hc Hcn. destruct (bo_conn _ Hok id c Hc) as (? & ? & Hle & Hph). split; [split; [done|apply Hle; congruence]|].
  intros Hi. unfold phase_ok in Hph. by rewrite Hi in Hph.
Qed.

(** C21 The receive budget has no such invariant. Take any connection, in a
    namespace other than the root, that holds no bytes: the FIN of its peer
    removes the counter of the whole namespace, whatever its other connections
    are charged. A further connection is then let through the gate for
    anything up to the cap, and one that is between its gate and its
    reconciliation panics the kernel. The counter is removed just so when it
    reaches zero, by a connection that has read all that was charged. *)
Theorem recv_budget_unsound (base : Z) (S : Z -> Z) (F : option Z) (rd : list Z) (r : Receiver) (b : Charge)
  (env : InputEnv) (acked_fin : bool) :
  receiving base S F rd r b -> takes_data (conn_state r) = true -> held r = 0 -> net_ns_id env <> ROOT ->
  let ns := net_ns_id env in
  exists r' b',
    receive_segment env true acked_fin (mkInSeg true true (rcv_nxt r) []) r b = Ok (PlainAck, r', b') /\
    let counts := per_ns_recv_bytes b' in
    counts = delete ns (before_fin env (per_ns_recv_bytes b)) /\
    (forall grow, 0 < grow <= MAX_RECV_BYTES_PER_NS ->
       try_charge_ns_recv_gate true ns grow 0 counts = Ok (<[ns := 0]> counts)) /\
    (forall r2 charged, charged < held r2 -> reconcile ns (fun c => c) r2 (mkCharge charged counts) = Panic) /\
    (forall r3 charged others c, held r3 = 0 -> 0 < charged -> others !! ns = Some c -> c <= charged ->
       reconcile ns (fun c => c) r3 (mkCharge charged others) = Ok (mkCharge 0 (delete ns others))).
Proof.
  intros Hrx Hst Hz Hns ns. destruct (receiving_inv base S F rd r b Hrx) as (A & Hat & Hex & _ & _).
  destruct (fin_alone base S F env acked_fin _ A r b Hat Hex Hst Hz Hns) as (r' & b' & Heq & Hcounts). exists r', b'.
  split; [exact Heq|]. cbv zeta. rewrite Hcounts. split; [done|]. split_and!.
  - intros grow Hg. by apply gate_without_counter.
  - intros r2 m Hm. by apply reconcile_without_counter; [|apply lookup_delete_eq|].
  - intros r3 m others c Hh Hm Hc Hle. by eapply reconcile_last.
Qed.

Definition sample_erased : Charge :=
  match receive_segment sample_env true false (mkInSeg true true (rcv_nxt sample_recv0) []) sample_recv0
    (mkCharge 0 {[7 := 100]}) with Ok (_, _, b) => b | _ => mkCharge 0 ∅ end.

(** A connection of namespace 7, which is charged 100 bytes, closes; another one
    with 100 bytes to reconcile panics. *)
Lemma recv_budget_witness :
  per_ns_recv_bytes sample_erased !! 7 = None /\
  reconcile 7 (fun c => c) (mkRecv Established 0 65535 (repeat 0 100) [] 0 0 false) (mkCharge 0 (per_ns_recv_bytes sample_erased)) = Panic.
Proof.
  assert (receiving sample_base sample_stream None [] sample_recv0 (mkCharge 0 {[7 := 100]})) as Hrx.
  { apply (rx_start _ _ _ Established 65535 0 {[7 := 100]}); [done|unfold MAX_WND; lia|lia|done]. }
  destruct (recv_budget_unsound sample_base sample_stream None [] sample_recv0 (mkCharge 0 {[7 := 100]}) sample_env false)
    as (r' & b' & Heq & Hcounts & _ & Hpanic & _); [exact Hrx|done|done|done|].
  assert (sample_erased = b') as -> by (unfold sample_erased; rewrite Heq; reflexivity).
  split; [by rewrite Hcounts, lookup_delete_eq|]. by apply Hpanic.
Defined.
