(* ===== verification/WaitQueue.v ===== *)
(** The wait queues of [ipc/sync.rs]: entries stamped with the generation of the
    process that waits, capacity prepared outside the locks, arming, cancelling,
    waking and cleaning up, over the part of the process table they read and write. *)

From Stdlib Require Import ZArith Lia.
From stdpp Require Import base list list_numbers numbers gmap.
From S2P Require Import Prelude Machine.

(** * Processes *)
Inductive ProcessState :=
| Provisioning | Ready | Running | Blocked | Stopped | Sleeping | Zombie | Terminated.

#[export] Instance ProcessState_eq_dec : EqDecision ProcessState.
Proof. solve_decision. Defined.

(** What the queues see of a process.  [p_fatal] is [wait_should_abort]: a kill or
    an exec handed over; [p_signal] is a signal with a handler to run. *)
Record Process := mkPcb {
  p_state : ProcessState; p_generation : Z; p_signal : bool; p_fatal : bool;
  wq_timeout_marker : Z; active_wait_seq : Z;
}.

(** A process with no timed wait in flight *)
Definition mkProcess (st : ProcessState) (g : Z) (signal : bool) : Process := mkPcb st g signal false 0 0.

(** What [wait_should_abort], [has_deliverable_signal] and
    [should_abort_pending_block] answer together *)
Definition p_abort (p : Process) : bool := p_signal p || p_fatal p.

Abbreviation Procs := (gmap Z Process).

Definition with_state (st : ProcessState) (p : Process) : Process :=
  mkPcb st (p_generation p) (p_signal p) (p_fatal p) (wq_timeout_marker p) (active_wait_seq p).
Definition with_abort (b : bool) (p : Process) : Process :=
  mkPcb (p_state p) (p_generation p) b (p_fatal p) (wq_timeout_marker p) (active_wait_seq p).

Definition enter_ready (pid : Z) (ps : Procs) : Procs := alter (with_state Ready) pid ps.
Definition enter_blocked (pid : Z) (ps : Procs) : Procs := alter (with_state Blocked) pid ps.

Definition is_blocked (ps : Procs) (pid : Z) : bool :=
  match ps !! pid with Some p => bool_decide (p_state p = Blocked) | None => false end.

(** [wait_should_abort(pid) || has_deliverable_signal(pid)] *)
Definition interrupted (ps : Procs) (pid : Z) : bool :=
  match ps !! pid with Some p => p_abort p | None => false end.

(** * Entries *)
Definition PROCESS_GEN_TAG : Z := Z.shiftl 1 63.
Definition stamp_process_generation (g : Z) : Z := Z.lor (Z.land g (u64_not PROCESS_GEN_TAG)) PROCESS_GEN_TAG.
Definition is_process_generation_stamp (g : Z) : bool := negb (Z.land g PROCESS_GEN_TAG =? 0).
Definition unstamp_process_generation (g : Z) : Z := Z.land g (u64_not PROCESS_GEN_TAG).

Abbreviation Entry := (Z * Z)%type.

Record WaitQueue := mkWaitQueue { waiters : list Entry; wq_capacity : Z; closed : bool; wait_generation : Z }.

Inductive WaitOutcome := Woken | TimedOut | Closed | NoProcess | Interrupted | ResourceExhausted.

Definition wait_queue_new : WaitQueue := mkWaitQueue [] 0 false 0.
Definition with_waiters (l : list Entry) (q : WaitQueue) : WaitQueue := mkWaitQueue l (wq_capacity q) (closed q) (wait_generation q).
Definition queued (pid : Z) (q : WaitQueue) : bool := existsb (fun e => e.1 =? pid) (waiters q).

(** [take_empty_capacity]: an empty queue gives up its backing. *)
Definition take_empty_capacity (q : WaitQueue) : WaitQueue :=
  match waiters q with [] => mkWaitQueue [] 0 (closed q) (wait_generation q) | _ => q end.

(** * Capacity prepared before the locks are taken *)
Record WaitCapacity := mkWaitCapacity { wc_pid : option Z; wc_prepared : option Z }.

(** [al n] is the capacity the allocator answers when [n] entries are asked for. *)
Definition prepare_deque_growth (al : Z -> option Z) (len cap : Z) : option (option Z) :=
  match checked_add len 1 with
  | None => None
  | Some required =>
      if required <=? cap then Some None else
      match checked_mul (Z.max cap 4) 2 with
      | None => None
      | Some doubled =>
          let preferred := Z.max doubled required in
          match al preferred with
          | Some c => Some (Some c)
          | None => if preferred =? required then None else Some <$> al required
          end
      end
  end.

Definition prepare_current_wait_capacity (al : Z -> option Z) (cur : option Z) (q : WaitQueue) : option WaitCapacity :=
  let already_queued := match cur with Some pid => queued pid q | None => false end in
  mkWaitCapacity cur <$>
    (if already_queued then Some None else prepare_deque_growth al (zlen (waiters q)) (wq_capacity q)).

(** [ensure_queue_capacity_locked]: [None] when the snapshot lost a race *)
Definition ensure_queue_capacity_locked (cap : WaitCapacity) (q : WaitQueue) : option WaitQueue :=
  if zlen (waiters q) <? wq_capacity q then Some q else
  match wc_prepared cap with
  | None => None
  | Some candidate =>
      if candidate <=? zlen (waiters q) then None else Some (mkWaitQueue (waiters q) candidate (closed q) (wait_generation q))
  end.

(** [push_back_reserved], which hands the value back when the backing is full *)
Definition push_back_reserved (e : Entry) (q : WaitQueue) : option WaitQueue :=
  if zlen (waiters q) =? wq_capacity q then None else Some (with_waiters (waiters q ++ [e]) q).

(** * Arming *)
Inductive PrepareToWaitCapacityOutcome := Prepared (armed : bool) | RetryCapacity.

(** [waiters.iter_mut().find(..)] with the stamp of the entry replaced *)
Fixpoint restamp (pid g : Z) (l : list Entry) : list Entry :=
  match l with
  | [] => []
  | e :: l => if e.1 =? pid then (pid, g) :: l else e :: restamp pid g l
  end.

Definition forget (pid : Z) (q : WaitQueue) : WaitQueue :=
  with_waiters (List.filter (fun e => negb (e.1 =? pid)) (waiters q)) q.

(** [None] is the panic when the capacity vanished under the lock. *)
Definition try_prepare_to_wait_with_capacity (cur : option Z) (cap : WaitCapacity) (q : WaitQueue) (ps : Procs)
  : option (PrepareToWaitCapacityOutcome * WaitQueue * Procs) :=
  match wc_pid cap with
  | Some pid =>
      if bool_decide (cur = Some pid) then
        if closed q || interrupted ps pid then Some (Prepared false, take_empty_capacity q, ps) else
        if queued pid q then
          match ps !! pid with
          | Some p =>
              if p_abort p then Some (Prepared false, take_empty_capacity (forget pid q), ps) else
              Some (Prepared true, with_waiters (restamp pid (stamp_process_generation (p_generation p)) (waiters q)) q,
                    if bool_decide (p_state p = Blocked) then ps else enter_blocked pid ps)
          | None => Some (Prepared false, take_empty_capacity (forget pid q), ps)
          end
        else
          match ensure_queue_capacity_locked cap q with
          | None => Some (RetryCapacity, q, ps)
          | Some q =>
              match ps !! pid with
              | None => Some (Prepared false, take_empty_capacity q, ps)
              | Some p =>
                  if p_abort p then Some (Prepared false, take_empty_capacity q, ps) else
                  q ← push_back_reserved (pid, stamp_process_generation (p_generation p)) q;
                  Some (Prepared true, q, enter_blocked pid ps)
              end
          end
      else Some (Prepared false, q, ps)
  | None => Some (Prepared false, q, ps)
  end.

(** [block_until_resolved] returns once this holds. *)
Definition wait_resolved (ps : Procs) (pid : Z) : bool := negb (is_blocked ps pid) || interrupted ps pid.

Fixpoint remove_first (pid : Z) (l : list Entry) : list Entry :=
  match l with
  | [] => []
  | e :: l => if e.1 =? pid then l else e :: remove_first pid l
  end.

Definition cancel_wait (cur : option Z) (q : WaitQueue) (ps : Procs) : bool * WaitQueue * Procs :=
  match cur with
  | None => (false, q, ps)
  | Some pid =>
      if queued pid q then
        (true, take_empty_capacity (with_waiters (remove_first pid (waiters q)) q), if is_blocked ps pid then enter_ready pid ps else ps)
      else (false, take_empty_capacity q, ps)
  end.

(** What [finish_wait] does after [block_until_resolved].  The check reads interrupts
    only and the removal queue and state only, so that an interrupt or a waker that comes
    between them has the effect it has after or before both. *)
Definition finish_wait_tail (cur : option Z) (q : WaitQueue) (ps : Procs) : WaitQueue * Procs :=
  match cur with
  | Some pid =>
      if interrupted ps pid then let '(_, q, ps) := cancel_wait cur q ps in (take_empty_capacity q, ps)
      else (take_empty_capacity q, ps)
  | None => (take_empty_capacity q, ps)
  end.

(** * Waking *)

(** Whether an entry still names a blocked process of the generation it was stamped with *)
Definition wakeable (ps : Procs) (e : Entry) : bool :=
  match ps !! e.1 with
  | Some p => bool_decide (p_state p = Blocked) &&
      (negb (is_process_generation_stamp e.2) || (unstamp_process_generation e.2 =? p_generation p))
  | None => false
  end.

Fixpoint wake_one_loop (l : list Entry) (ps : Procs) : option Z * list Entry * Procs :=
  match l with
  | [] => (None, [], ps)
  | e :: l => if wakeable ps e then (Some e.1, l, enter_ready e.1 ps) else wake_one_loop l ps
  end.

Definition wake_one (q : WaitQueue) (ps : Procs) : option Z * WaitQueue * Procs :=
  let '(woken, l, ps) := wake_one_loop (waiters q) ps in (woken, with_waiters l q, ps).

Fixpoint wake_all_loop (l : list Entry) (woken : Z) (ps : Procs) : Z * Procs :=
  match l with
  | [] => (woken, ps)
  | e :: l => if wakeable ps e then wake_all_loop l (woken + 1) (enter_ready e.1 ps) else wake_all_loop l woken ps
  end.

Definition wake_all (q : WaitQueue) (ps : Procs) : Z * WaitQueue * Procs :=
  let '(woken, ps) := wake_all_loop (waiters q) 0 ps in (woken, with_waiters [] q, ps).

Fixpoint wake_n_loop (l : list Entry) (n woken : Z) (ps : Procs) : Z * list Entry * Procs :=
  if n <=? woken then (woken, l, ps) else
  match l with
  | [] => (woken, [], ps)
  | e :: l => if wakeable ps e then wake_n_loop l n (woken + 1) (enter_ready e.1 ps) else wake_n_loop l n woken ps
  end.

Definition wake_n (n : Z) (q : WaitQueue) (ps : Procs) : Z * WaitQueue * Procs :=
  if n =? 0 then (0, q, ps) else
  let '(woken, l, ps) := wake_n_loop (waiters q) n 0 ps in (woken, with_waiters l q, ps).

(** A process that is gone counts as woken, one that left its wait does not. *)
Definition wake_specific_if (still_wanted : bool) (pid : Z) (q : WaitQueue) (ps : Procs) : bool * WaitQueue * Procs :=
  if negb still_wanted then (false, q, ps) else
  match List.find (fun e => e.1 =? pid) (waiters q) with
  | Some e =>
      let q := with_waiters (remove_first pid (waiters q)) q in
      match ps !! pid with
      | Some _ => if wakeable ps e then (true, q, enter_ready pid ps) else (false, q, ps)
      | None => (true, q, ps)
      end
  | None => (false, q, ps)
  end.

(** The store of [close], which takes no lock; its [wake_all] is a step of its own. *)
Definition close_store (q : WaitQueue) : WaitQueue := mkWaitQueue (waiters q) (wq_capacity q) true (wait_generation q).

(** * Cleaning up after a process *)
Definition cleanup_for_pid (pid : Z) (q : WaitQueue) : WaitQueue := take_empty_capacity (forget pid q).

Definition keeps_entry (pid g : Z) (live : option Z) (e : Entry) : bool :=
  if negb (e.1 =? pid) then true else
  if is_process_generation_stamp e.2 then negb (unstamp_process_generation e.2 =? g) else
  match live with Some g' => negb (g' =? g) | None => false end.

Definition cleanup_for_identity (pid g : Z) (ps : Procs) (q : WaitQueue) : WaitQueue :=
  let live := p_generation <$> ps !! pid in
  take_empty_capacity (with_waiters (List.filter (keeps_entry pid g live) (waiters q)) q).

(** * What happens to processes from outside

    [post] raises an interrupt and may make a blocked process runnable,
    [dispatch] lets a runnable one run. *)
Definition post (pid : Z) (ready : bool) (ps : Procs) : Procs :=
  let ps := alter (with_abort true) pid ps in
  if ready && is_blocked ps pid then enter_ready pid ps else ps.

Definition dispatch (pid : Z) (ps : Procs) : Procs :=
  alter (fun p => if bool_decide (p_state p = Ready) then with_state Running p else p) pid ps.
