(* ===== verification/WaitFacts.v ===== *)
(** What the operations of a wait queue do to its entries and to the processes. *)

From Stdlib Require Import ZArith Lia.
From stdpp Require Import base list list_numbers numbers gmap.
From S2P Require Import Prelude Machine WaitQueue.

(** * Stamps *)
Lemma tag_value : PROCESS_GEN_TAG = 2 ^ 63 /\ u64_not PROCESS_GEN_TAG = Z.ones 63.
Proof. by split. Qed.

Lemma stamp_spec g : 0 <= g < 2 ^ 63 ->
  is_process_generation_stamp (stamp_process_generation g) = true /\ unstamp_process_generation (stamp_process_generation g) = g.
Proof.
  intros Hg. unfold is_process_generation_stamp, unstamp_process_generation, stamp_process_generation. destruct tag_value as [Ht ->]. rewrite Ht.
  assert (Hl : Z.land g (Z.ones 63) = g) by (rewrite Z.land_ones by lia; by apply Z.mod_small). rewrite Hl. split.
  - rewrite land_pow2_testbit by lia. rewrite Z.lor_spec, Z.pow2_bits_true by lia. apply orb_true_r.
  - rewrite Z.land_lor_distr_l, Hl. rewrite (Z.land_ones (2 ^ 63)), Z.mod_same by lia. apply Z.lor_0_r.
Qed.

Lemma is_blocked_Some ps pid : is_blocked ps pid = true -> exists pr, ps !! pid = Some pr /\ p_state pr = Blocked.
Proof. unfold is_blocked. destruct (ps !! pid) as [pr|]; [|done]. intros E%bool_decide_eq_true_1. by exists pr. Qed.

Lemma wakeable_stamped ps pid pr : ps !! pid = Some pr -> 0 <= p_generation pr < 2 ^ 63 -> is_blocked ps pid = true ->
  wakeable ps (pid, stamp_process_generation (p_generation pr)) = true.
Proof.
  intros E Hg (pr' & E' & Hb)%is_blocked_Some. rewrite E in E'. injection E' as <-. unfold wakeable. cbn. rewrite E, bool_decide_true by done.
  destruct (stamp_spec _ Hg) as [-> ->]. by rewrite Z.eqb_refl.
Qed.

(** An entry that carries a counter and no stamp can be woken whenever its process is blocked. *)
Lemma wakeable_plain ps x : 0 <= x.2 < 2 ^ 63 -> wakeable ps x = is_blocked ps x.1.
Proof.
  intros Hx. unfold wakeable, is_blocked. destruct (ps !! x.1) as [p|]; [|done]. unfold is_process_generation_stamp. destruct tag_value as [-> _].
  assert (E : Z.testbit x.2 63 = false) by (apply Z.bits_above_log2; [lia|]; destruct (decide (x.2 = 0)) as [->|]; [done|apply Z.log2_lt_pow2; lia]).
  rewrite land_pow2_testbit, E by lia. apply andb_true_r.
Qed.

Lemma wakeable_blocked ps x : wakeable ps x = true -> is_blocked ps x.1 = true.
Proof. unfold wakeable, is_blocked. destruct (ps !! x.1); [|done]. by intros [? _]%andb_true_iff. Qed.

(** ** Waking *)
Definition readied (l : list Entry) (ps ps' : Procs) : Prop :=
  forall pid, ps' !! pid = ps !! pid \/ (ps' !! pid = with_state Ready <$> ps !! pid /\ pid ∈ map fst l /\ is_blocked ps pid = true).

Lemma readied_refl l ps : readied l ps ps.
Proof. by left. Qed.

Lemma enter_ready_lookup pid ps pid' : enter_ready pid ps !! pid' = if decide (pid' = pid) then with_state Ready <$> ps !! pid' else ps !! pid'.
Proof. unfold enter_ready. case_decide as E; [subst; apply lookup_alter_eq|]. by apply lookup_alter_ne. Qed.

Lemma enter_ready_blocked pid ps pid' : is_blocked (enter_ready pid ps) pid' = if decide (pid' = pid) then false else is_blocked ps pid'.
Proof. unfold is_blocked. rewrite enter_ready_lookup. case_decide; [|done]. by destruct (ps !! pid'). Qed.

Lemma readied_blocked l ps ps' pid : readied l ps ps' -> is_blocked ps' pid = true -> is_blocked ps pid = true /\ ps' !! pid = ps !! pid.
Proof.
  intros H. destruct (H pid) as [E|(E & _ & Hb)]; unfold is_blocked in *; rewrite E; [done|]. by destruct (ps !! pid).
Qed.

Lemma readied_interrupted l ps ps' pid : readied l ps ps' -> interrupted ps' pid = interrupted ps pid.
Proof. intros H. unfold interrupted. destruct (H pid) as [->|(-> & _)]; [done|]. by destruct (ps !! pid). Qed.

Lemma readied_cons x l ps ps' : wakeable ps x = true -> readied l (enter_ready x.1 ps) ps' -> readied (x :: l) ps ps'.
Proof.
  intros Hx H pid. specialize (H pid). rewrite enter_ready_lookup, enter_ready_blocked in H. apply wakeable_blocked in Hx. case_decide as E; [subst|].
  - destruct H as [H|(? & ? & ?)]; [|done]. right. split; [done|]. split; [by left|done].
  - destruct H as [H|(? & ? & ?)]; [by left|]. right. split; [done|]. split; [by right|done].
Qed.

Lemma readied_skip x l ps ps' : readied l ps ps' -> readied (x :: l) ps ps'.
Proof. intros H pid. destruct (H pid) as [?|(? & ? & ?)]; [by left|]. right. split; [done|]. split; [by right|done]. Qed.

(** What [wake_one] and [wake_all] do to a queue *)
Record woke (l l' : list Entry) (ps ps' : Procs) : Prop := {
  wk_suffix : l' `suffix_of` l;
  wk_readied : readied l ps ps';
  wk_gone : forall x, x ∈ l -> x ∉ l' -> wakeable ps x = true -> is_blocked ps' x.1 = false;
  wk_keep : NoDup (map fst l) -> forall x, x ∈ l' -> ps' !! x.1 = ps !! x.1;
}.

Lemma woke_refl l ps : woke l l ps ps.
Proof. split; [done|apply readied_refl|done|done]. Qed.

Lemma woke_skip x l l' ps ps' : wakeable ps x = false -> woke l l' ps ps' -> woke (x :: l) l' ps ps'.
Proof.
  intros Hx [Hs Hr Hg Hk]. split; [by apply suffix_cons_r|by apply readied_skip| |].
  - intros y [->|Hy]%elem_of_cons Hn Hw; [congruence|]. by apply Hg.
  - intros [_ Hnd]%NoDup_cons. by apply Hk.
Qed.

Lemma woke_cons x l l' ps ps' : wakeable ps x = true -> woke l l' (enter_ready x.1 ps) ps' -> woke (x :: l) l' ps ps'.
Proof.
  intros Hx [Hs Hr Hg Hk]. pose proof (readied_cons _ _ _ _ Hx Hr) as Hr'.
  assert (Hno : is_blocked ps' x.1 = false).
  { destruct (is_blocked ps' x.1) eqn:Eb; [|done]. destruct (readied_blocked _ _ _ _ Hr Eb) as [Hb _]. rewrite enter_ready_blocked in Hb. by case_decide. }
  split; [by apply suffix_cons_r|done| |].
  - intros y [->|Hy]%elem_of_cons Hn Hw; [done|]. destruct (decide (y.1 = x.1)) as [E|E]; [by rewrite E|]. apply Hg; [done|done|].
    unfold wakeable in *. rewrite enter_ready_lookup. by case_decide.
  - intros [Hnd Hnd']%NoDup_cons y Hy. rewrite (Hk Hnd' y Hy), enter_ready_lookup. case_decide as E; [|done]. destruct Hnd. rewrite <- E.
    apply list_elem_of_fmap. exists y. split; [done|]. destruct Hs as [k ->]. apply elem_of_app. by right.
Qed.

Lemma wake_one_loop_spec l ps : let '(w, l', ps') := wake_one_loop l ps in woke l l' ps ps' /\
  match w with
  | Some pid => pid ∈ map fst l /\ is_blocked ps pid = true /\ is_blocked ps' pid = false
  | None => forall x, x ∈ l -> wakeable ps x = false
  end.
Proof.
  induction l as [|x l IH]; cbn; [split; [apply woke_refl|by intros x ?%elem_of_nil]|]. destruct (wakeable ps x) eqn:Hx.
  - split; [by apply woke_cons, woke_refl|]. split; [by left|]. split; [by apply wakeable_blocked|]. rewrite enter_ready_blocked. by case_decide.
  - destruct (wake_one_loop l ps) as [[w l'] ps']. destruct IH as [Hwk Hw]. split; [by apply woke_skip|].
    destruct w as [pid|]; [destruct Hw as (? & ? & ?); split; [by right|done]|]. intros y [->|Hy]%elem_of_cons; [done|]. by apply Hw.
Qed.

Lemma wake_n_loop_spec l n w ps : let '(_, l', ps') := wake_n_loop l n w ps in woke l l' ps ps'.
Proof.
  revert w ps. induction l as [|x l IH]; intros w ps; cbn; (destruct (n <=? w); [apply woke_refl|]); [apply woke_refl|]. destruct (wakeable ps x) eqn:Hx.
  - specialize (IH (w + 1) (enter_ready x.1 ps)). destruct (wake_n_loop l n (w + 1) (enter_ready x.1 ps)) as [[w' l'] ps']. by apply woke_cons.
  - specialize (IH w ps). destruct (wake_n_loop l n w ps) as [[w' l'] ps']. by apply woke_skip.
Qed.

(** [wake_n] is [wake_one] repeated, and [wake_all] is [wake_n] for everybody. *)
Lemma wake_n_loop_step l n w ps : w < n -> wake_n_loop l n w ps =
  let '(o, l', ps') := wake_one_loop l ps in match o with Some _ => wake_n_loop l' n (w + 1) ps' | None => (w, l', ps') end.
Proof.
  intros Hw. revert ps. induction l as [|x l IH]; intros ps; cbn; (destruct (Z.leb_spec n w); [lia|]); [done|]. destruct (wakeable ps x); [done|]. apply IH.
Qed.

Lemma wake_all_loop_n l n w ps : w + zlen l <= n -> wake_n_loop l n w ps = ((wake_all_loop l w ps).1, [], (wake_all_loop l w ps).2).
Proof.
  revert w ps. induction l as [|x l IH]; intros w ps; [cbn; by destruct (n <=? w)|]. unfold zlen. cbn. intros Hn. destruct (Z.leb_spec n w); [lia|].
  destruct (wakeable ps x); apply IH; unfold zlen; lia.
Qed.

Lemma wake_all_loop_spec l n ps : let '(_, ps') := wake_all_loop l n ps in readied l ps ps' /\ forall x, x ∈ l -> wakeable ps x = true -> is_blocked ps' x.1 = false.
Proof.
  pose proof (wake_n_loop_spec l (n + zlen l) n ps) as H. rewrite wake_all_loop_n in H by lia. destruct (wake_all_loop l n ps) as [n' ps']. destruct H as [_ Hr Hg _].
  split; [done|]. intros x Hx. apply Hg; [done|apply not_elem_of_nil].
Qed.

(** * Arming *)
Lemma take_empty_waiters q : waiters (take_empty_capacity q) = waiters q.
Proof. unfold take_empty_capacity. by destruct (waiters q) eqn:E. Qed.

Lemma queued_iff pid q : queued pid q = true <-> exists x, x ∈ waiters q /\ x.1 = pid.
Proof.
  unfold queued. rewrite existsb_exists. split; intros (x & Hx & E); exists x; split; try apply list_elem_of_In; try done; try lia.
Qed.

Lemma enter_blocked_lookup pid ps pid' : enter_blocked pid ps !! pid' = if decide (pid' = pid) then with_state Blocked <$> ps !! pid' else ps !! pid'.
Proof. unfold enter_blocked. case_decide as E; [subst; apply lookup_alter_eq|]. by apply lookup_alter_ne. Qed.

(** Arming aborts on no input. *)
Lemma try_prepare_total cur cap q ps : exists x, try_prepare_to_wait_with_capacity cur cap q ps = Some x.
Proof.
  unfold try_prepare_to_wait_with_capacity, ensure_queue_capacity_locked, push_back_reserved. destruct (wc_pid cap); [|eauto]. case_bool_decide; [|eauto].
  destruct (closed q || interrupted ps z); [eauto|]. destruct (queued z q); [repeat case_match; eauto|].
  destruct (Z.ltb_spec (zlen (waiters q)) (wq_capacity q)); [|destruct (wc_prepared cap) as [c|]; [destruct (Z.leb_spec c (zlen (waiters q)))|]; [eauto| |eauto]];
    (destruct (ps !! z) as [p|]; [|eauto]); (destruct (p_abort p); [eauto|]); cbn.
  - destruct (Z.eqb_spec (zlen (waiters q)) (wq_capacity q)); [lia|eauto].
  - destruct (Z.eqb_spec (zlen (waiters q)) c); [lia|eauto].
Qed.

(** Arming a task that has no entry: either nothing is published or the task is
    at the end of the queue and blocked. *)
Lemma try_prepare_cases cur cap q ps tid : (cur = Some tid \/ cur = None) -> queued tid q = false -> exists out q' ps',
  try_prepare_to_wait_with_capacity cur cap q ps = Some (out, q', ps') /\
  ((out <> Prepared true /\ waiters q' = waiters q /\ ps' = ps) \/
   (out = Prepared true /\ cur = Some tid /\ ps' = enter_blocked tid ps /\
    exists pr, ps !! tid = Some pr /\ waiters q' = waiters q ++ [(tid, stamp_process_generation (p_generation pr))])).
Proof.
  intros Hcur Hnq. unfold try_prepare_to_wait_with_capacity. destruct (wc_pid cap) as [pid|]; [|eexists _, _, _; split; [done|]; by left].
  case_bool_decide as E; [|eexists _, _, _; split; [done|]; by left]. assert (pid = tid) as -> by naive_solver.
  destruct (closed q || interrupted ps tid); [eexists _, _, _; split; [done|]; left; by rewrite take_empty_waiters|]. rewrite Hnq.
  destruct (ensure_queue_capacity_locked cap q) as [q1|] eqn:Hens; [|eexists _, _, _; split; [done|]; by left].
  assert (Hq1 : waiters q1 = waiters q /\ zlen (waiters q) <> wq_capacity q1).
  { unfold ensure_queue_capacity_locked in Hens. destruct (Z.ltb_spec (zlen (waiters q)) (wq_capacity q)); [injection Hens as <-; split; [done|lia]|].
    destruct (wc_prepared cap) as [c|]; [|done]. destruct (Z.leb_spec c (zlen (waiters q))); [done|]. injection Hens as <-. cbn. split; [done|lia]. }
  destruct Hq1 as [Hw Hcap]. destruct (ps !! tid) as [pr|] eqn:Epr; [|eexists _, _, _; split; [done|]; left; by rewrite take_empty_waiters].
  destruct (p_abort pr); [eexists _, _, _; split; [done|]; left; by rewrite take_empty_waiters|]. unfold push_back_reserved. rewrite Hw. destruct (Z.eqb_spec (zlen (waiters q)) (wq_capacity q1)); [done|].
  cbn. eexists _, _, _. split; [done|]. right. split; [done|]. split; [done|]. split; [done|]. exists pr. by split.
Qed.

(** * Leaving *)
Lemma remove_first_spec pid l : NoDup (map fst l) -> NoDup (map fst (remove_first pid l)) /\
  (forall x, x.1 <> pid -> x ∈ remove_first pid l <-> x ∈ l) /\ (forall x, x ∈ remove_first pid l -> x.1 <> pid).
Proof.
  induction l as [|y l IH]; cbn.
  - intros _. split; [constructor|]. split; [done|by intros x ?%elem_of_nil].
  - intros [Hy Hnd]%NoDup_cons. destruct (IH Hnd) as (H1 & H2 & H3). destruct (Z.eqb_spec y.1 pid) as [E|E].
    + split; [done|]. split.
      * intros x Hx. rewrite elem_of_cons. split; [by right|]. by intros [->|].
      * intros x Hx Ex. apply Hy. rewrite E, <- Ex. apply list_elem_of_fmap. eauto.
    + split; [|split].
      * cbn. apply NoDup_cons. split; [|done]. intros (x & Ex & Hx)%list_elem_of_fmap. apply Hy.
        assert (x ∈ l) by (apply H2; [congruence|done]). rewrite Ex. apply list_elem_of_fmap. eauto.
      * intros x Hx. rewrite !elem_of_cons, H2; done.
      * intros x [->|Hx]%elem_of_cons; [done|]. by apply H3.
Qed.

Lemma cancel_wait_spec tid q ps : NoDup (map fst (waiters q)) -> let '(_, q', ps') := cancel_wait (Some tid) q ps in
  NoDup (map fst (waiters q')) /\ (forall x, x.1 <> tid -> x ∈ waiters q' <-> x ∈ waiters q) /\ (forall x, x ∈ waiters q' -> x.1 <> tid) /\ (ps' = ps \/ ps' = enter_ready tid ps).
Proof.
  intros Hnd. unfold cancel_wait. destruct (remove_first_spec tid (waiters q) Hnd) as (H1 & H2 & H3). destruct (queued tid q) eqn:Hqd; rewrite take_empty_waiters.
  - do 3 (split; [done|]). destruct (is_blocked ps tid); [by right|by left].
  - do 2 (split; [done|]). split; [|by left]. intros x Hx Ex. rewrite (proj2 (queued_iff tid q)) in Hqd; [done|by exists x].
Qed.

Lemma finish_wait_spec tid q ps : NoDup (map fst (waiters q)) -> let o := finish_wait_tail (Some tid) q ps in
  NoDup (map fst (waiters o.1)) /\ (forall x, x.1 <> tid -> x ∈ waiters o.1 <-> x ∈ waiters q) /\
  (forall x, x ∈ waiters o.1 -> x.1 = tid -> x ∈ waiters q /\ interrupted ps tid = false) /\
  (o.2 = ps \/ o.2 = enter_ready tid ps).
Proof.
  intros Hnd. unfold finish_wait_tail. destruct (interrupted ps tid) eqn:Hi; [|cbn; rewrite take_empty_waiters; do 3 (split; [done|]); by left].
  pose proof (cancel_wait_spec tid q ps Hnd) as Hc. destruct (cancel_wait (Some tid) q ps) as [[b q'] ps']. destruct Hc as (? & ? & Hno & ?). cbn. rewrite take_empty_waiters. do 2 (split; [done|]). split; [|done]. intros x Hx Ex. by destruct (Hno x Hx).
Qed.

(** * Processes from outside *)
Definition generations_ok (ps : Procs) : Prop := forall pid pr, ps !! pid = Some pr -> 0 <= p_generation pr < 2 ^ 63.

Lemma post_lookup pid ready ps x : post pid ready ps !! x =
  if decide (x = pid) then (fun pr => with_abort true (if ready && bool_decide (p_state pr = Blocked) then with_state Ready pr else pr)) <$> ps !! x else ps !! x.
Proof.
  assert (Hbl : is_blocked (alter (with_abort true) pid ps) pid = is_blocked ps pid) by (unfold is_blocked; rewrite lookup_alter_eq; by destruct (ps !! pid)).
  unfold post. rewrite Hbl. destruct (decide (x = pid)) as [->|Hne].
  - destruct (ps !! pid) as [[st g sg ft mk sq]|] eqn:E; [|unfold is_blocked; rewrite E, andb_false_r; cbn; by rewrite lookup_alter_eq, E].
    unfold is_blocked. rewrite E. cbn. destruct (ready && bool_decide (st = Blocked)); [rewrite enter_ready_lookup, decide_True by done|]; by rewrite lookup_alter_eq, E.
  - destruct (ready && is_blocked ps pid); [rewrite enter_ready_lookup, decide_False by done|]; by rewrite lookup_alter_ne.
Qed.

Lemma dispatch_lookup pid ps x : exists st, dispatch pid ps !! x = (fun pr => with_state (st pr) pr) <$> ps !! x /\ forall pr, (st pr = Blocked <-> p_state pr = Blocked).
Proof.
  exists (fun pr => if decide (x = pid) then if bool_decide (p_state pr = Ready) then Running else p_state pr else p_state pr). unfold dispatch. split.
  - destruct (decide (x = pid)) as [->|]; [rewrite lookup_alter_eq|rewrite lookup_alter_ne by done]; destruct (ps !! _) as [[st g sg ft mk sq]|]; try done. cbn. by case_bool_decide.
  - intros [st g sg ft mk sq]. cbn. case_decide; [|done]. case_bool_decide; [by subst|done].
Qed.

(** A change of processes that puts nobody to sleep and takes back no interrupt *)
Record gentle (keep : Z -> Prop) (ps ps' : Procs) : Prop := {
  gt_gen : generations_ok ps -> generations_ok ps';
  gt_same : forall pid, keep pid -> p_generation <$> ps' !! pid = p_generation <$> ps !! pid;
  gt_blocked : forall pid, keep pid -> is_blocked ps' pid = true -> is_blocked ps pid = true;
  gt_interrupted : forall pid, keep pid -> interrupted ps pid = true -> interrupted ps' pid = true;
  gt_woken : forall pid, keep pid -> is_blocked ps pid = true -> is_blocked ps' pid = true \/ interrupted ps' pid = true;
}.

Lemma post_gentle keep pid ready ps : gentle keep ps (post pid ready ps).
Proof.
  assert (Hx : forall x, p_generation <$> post pid ready ps !! x = p_generation <$> ps !! x /\ (is_blocked (post pid ready ps) x = true -> is_blocked ps x = true) /\
    (interrupted ps x = true -> interrupted (post pid ready ps) x = true) /\ (is_blocked ps x = true -> is_blocked (post pid ready ps) x = true \/ interrupted (post pid ready ps) x = true)).
  { intros x. unfold is_blocked, interrupted. rewrite post_lookup. case_decide; [|naive_solver]. destruct (ps !! x) as [[st g sg ft mk sq]|]; [|done]. destruct ready, st; cbn; naive_solver. }
  split; try (intros x _; apply Hx). intros Hg x pr. rewrite post_lookup. case_decide; [|apply Hg]. destruct (ps !! x) as [pr0|] eqn:E; [|done]. intros [= <-].
  pose proof (Hg x pr0 E). by destruct (ready && _).
Qed.

Lemma dispatch_gentle keep pid ps : gentle keep ps (dispatch pid ps).
Proof.
  split.
  - intros Hg x pr. destruct (dispatch_lookup pid ps x) as (st & -> & _). destruct (ps !! x) as [pr0|] eqn:E; [|done]. intros [= <-]. exact (Hg x pr0 E).
  - intros x _. destruct (dispatch_lookup pid ps x) as (st & -> & _). by destruct (ps !! x).
  - intros x _. unfold is_blocked. destruct (dispatch_lookup pid ps x) as (st & -> & Hst). destruct (ps !! x) as [pr|]; [|done]. specialize (Hst pr). cbn. repeat case_bool_decide; naive_solver.
  - intros x _. unfold interrupted. destruct (dispatch_lookup pid ps x) as (st & -> & _). by destruct (ps !! x).
  - intros x _. unfold is_blocked. destruct (dispatch_lookup pid ps x) as (st & -> & Hst). destruct (ps !! x) as [pr|]; [|done]. specialize (Hst pr). cbn. repeat case_bool_decide; naive_solver.
Qed.

Lemma outside_gentle (keep : Z -> Prop) pid pr ps : ~ keep pid -> (forall p, pr = Some p -> 0 <= p_generation p < 2 ^ 63) -> gentle keep ps (partial_alter (fun _ => pr) pid ps).
Proof.
  intros Hno Hpr. assert (Hsame : forall x, keep x -> partial_alter (fun _ => pr) pid ps !! x = ps !! x) by (intros x Hx; apply lookup_partial_alter_ne; by intros ->).
  split; [|intros x Hx; unfold is_blocked, interrupted; rewrite (Hsame x Hx); naive_solver..].
  intros Hg x p. destruct (decide (x = pid)) as [->|]; [rewrite lookup_partial_alter_eq; apply Hpr|]. rewrite lookup_partial_alter_ne by done. apply Hg.
Qed.
