(* ===== verification/Waiting.v ===== *)
(** Who has an entry in which queue, for any family of wait queues: a process
    that waits has one until it is woken, and whoever has one waits or is about
    to remove it.  Kept by arming, falling asleep, leaving, cancelling, waking
    and by what happens to processes from outside.  Invariants of systems of
    tasks also count the tasks at a place. *)

From Stdlib Require Import ZArith Lia.
From stdpp Require Import base list list_numbers numbers gmap.
From S2P Require Import Prelude Machine WaitQueue WaitFacts.

(** * Counting the entries of a map *)
Section count.
Context {A : Type} (P : Z -> A -> bool).
Implicit Types (m : gmap Z A).

Definition count_map m : Z := Z.of_nat (size (filter (fun kv => P kv.1 kv.2 = true) m)).
Definition counts (k : Z) (x : option A) : Z := match x with Some v => if P k v then 1 else 0 | None => 0 end.

Lemma count_map_nonneg m : 0 <= count_map m.
Proof. unfold count_map. lia. Qed.

Lemma count_map_insert k v m : m !! k = None -> count_map (<[k := v]> m) = count_map m + counts k (Some v).
Proof.
  intros Hk. unfold count_map, counts. rewrite map_filter_insert. case_decide as He; cbn in He.
  - rewrite He, map_size_insert_None; [lia|]. apply map_lookup_filter_None. by left.
  - rewrite delete_id by done. destruct (P k v); [done|lia].
Qed.

Lemma count_map_delete k m : count_map (delete k m) = count_map m - counts k (m !! k).
Proof.
  destruct (m !! k) as [v|] eqn:E; [|rewrite delete_id by done; cbn; lia].
  pose proof (count_map_insert k v (delete k m) ltac:(by rewrite lookup_delete_eq)) as H. rewrite insert_delete_eq, insert_id in H by done. lia.
Qed.

Lemma count_map_alter k x m : count_map (partial_alter (fun _ => x) k m) = count_map m - counts k (m !! k) + counts k x.
Proof.
  rewrite <- count_map_delete. destruct x as [v|].
  - rewrite <- count_map_insert by apply lookup_delete_eq. change (partial_alter (fun _ => Some v) k m) with (<[k := v]> m). by rewrite insert_delete_eq.
  - change (partial_alter (fun _ => None) k m) with (delete k m). cbn. lia.
Qed.
End count.

(** * Entries in queues *)

(** Armed, not yet in [finish_wait]; in [block_until_resolved]; past it *)
Inductive Stage := Armed | Waits | Leaves.

Section waiting.
Context {E : Type} `{EqDecision E}.

(** The entries of every queue, and where everybody waits *)
Implicit Types (qs : E -> list Entry) (W : Z -> option (E * Stage)) (ps : Procs).

Record waiting_inv qs ps W : Prop := {
  wi_gen : generations_ok ps;
  wi_nodup : forall e, NoDup (map fst (qs e));
  wi_in : forall e tid st, W tid = Some (e, st) -> st <> Leaves -> is_blocked ps tid = true ->
    exists pr, ps !! tid = Some pr /\ (tid, stamp_process_generation (p_generation pr)) ∈ qs e;
  wi_entry : forall e x, x ∈ qs e -> exists st, W x.1 = Some (e, st) /\
    (is_blocked ps x.1 = true \/ interrupted ps x.1 = true) /\ (st = Leaves -> interrupted ps x.1 = true);
}.

Definition moves W W' tid w : Prop := forall tid', W' tid' = if decide (tid' = tid) then w else W tid'.
Definition replaces qs qs' e l : Prop := forall e', qs' e' = if decide (e' = e) then l else qs e'.

Lemma waiting_ext qs qs' W W' ps : (forall e, qs' e = qs e) -> (forall tid, W' tid = W tid) -> waiting_inv qs ps W -> waiting_inv qs' ps W'.
Proof. intros Hq HW [Hg Hnd Hin Hen]. split; [done|..]; intros e; rewrite Hq; [done| |]; intros x; [intros st|]; rewrite HW; [apply Hin|apply Hen]. Qed.

Lemma waiting_gentle qs ps ps' W : waiting_inv qs ps W -> gentle (fun tid => is_Some (W tid)) ps ps' -> waiting_inv qs ps' W.
Proof.
  intros [Hg Hnd Hin Hen] [Hg' Hgen Hbl Hint Hwk]. split; [by apply Hg'|done|..].
  - intros e tid st HW Hst Hb. specialize (Hgen tid (mk_is_Some _ _ HW)). destruct (Hin e tid st HW Hst) as (pr & Epr & Hx); [by apply (Hbl tid (mk_is_Some _ _ HW))|].
    rewrite Epr in Hgen. destruct (ps' !! tid) as [pr'|]; [|done]. injection Hgen as Hgen. exists pr'. by rewrite Hgen.
  - intros e x Hx. destruct (Hen e x Hx) as (st & HW & Hb & Hl). specialize (Hint x.1 (mk_is_Some _ _ HW)). specialize (Hwk x.1 (mk_is_Some _ _ HW)). exists st. naive_solver.
Qed.

Lemma waiting_woke qs qs' e l ps ps' W : waiting_inv qs ps W -> replaces qs qs' e l -> woke (qs e) l ps ps' -> waiting_inv qs' ps' W.
Proof.
  intros [Hg Hnd Hin Hen] Hq [Hs Hr Hgone Hk]. split.
  - intros pid pr Epr. destruct (Hr pid) as [E1|(E1 & _ & _)]; rewrite E1 in Epr; [by apply (Hg pid)|]. destruct (ps !! pid) as [pr0|] eqn:E0; [|done]. injection Epr as <-. exact (Hg pid pr0 E0).
  - intros e'. rewrite Hq. case_decide as He; [|done]. destruct Hs as [l0 Hl0]. specialize (Hnd e). rewrite Hl0, map_app in Hnd. by apply NoDup_app in Hnd as (_ & _ & ?).
  - intros e' tid st HW Hst Hb'. destruct (readied_blocked _ _ _ _ Hr Hb') as [Hb Heq]. destruct (Hin e' tid st HW Hst Hb) as (pr & Epr & Hx). exists pr. rewrite Heq. split; [done|]. rewrite Hq. case_decide as He; [|done]. subst e'.
    destruct (decide ((tid, stamp_process_generation (p_generation pr)) ∈ l)) as [|Hn]; [done|]. pose proof (Hgone _ Hx Hn (wakeable_stamped ps tid pr Epr (Hg tid pr Epr) Hb)) as Hno. cbn in Hno. congruence.
  - intros e' x. rewrite Hq. assert (Hkeep : forall y, y ∈ qs e' -> ps' !! y.1 = ps !! y.1 -> exists st, W y.1 = Some (e', st) /\ (is_blocked ps' y.1 = true \/ interrupted ps' y.1 = true) /\ (st = Leaves -> interrupted ps' y.1 = true)).
    { intros y Hy Heq. unfold is_blocked, interrupted. rewrite Heq. by apply Hen. }
    case_decide as He; intros Hx.
    + subst e'. apply Hkeep; [destruct Hs as [l0 ->]; apply elem_of_app; by right|]. by apply Hk.
    + apply Hkeep; [done|]. destruct (Hr x.1) as [?|(_ & Hm & _)]; [done|]. exfalso. apply list_elem_of_fmap in Hm as (y & Hy & Hyl). destruct (Hen e' x Hx) as (st & HW & _), (Hen e y Hyl) as (st' & HW' & _). rewrite <- Hy in HW'. congruence.
Qed.

(** Whoever waits nowhere has no entry. *)
Lemma not_waiting_no_entry qs ps W tid e : waiting_inv qs ps W -> W tid = None -> tid ∉ map fst (qs e).
Proof. intros Hi HW (x & -> & Hx)%list_elem_of_fmap. destruct (wi_entry _ _ _ Hi e x Hx) as (st & HW' & _). congruence. Qed.

Lemma waiting_arm qs qs' e ps W W' tid pr : waiting_inv qs ps W -> W tid = None -> ps !! tid = Some pr ->
  replaces qs qs' e (qs e ++ [(tid, stamp_process_generation (p_generation pr))]) -> moves W W' tid (Some (e, Armed)) -> waiting_inv qs' (enter_blocked tid ps) W'.
Proof.
  intros Hi HW Epr Hq HW'. pose proof Hi as [Hg Hnd Hin Hen]. pose proof (fun e' => not_waiting_no_entry qs ps W tid e' Hi HW) as Hno.
  assert (Hother : forall x, x <> tid -> enter_blocked tid ps !! x = ps !! x) by (intros; rewrite enter_blocked_lookup; by case_decide). split.
  - intros pid p. rewrite enter_blocked_lookup. case_decide; [|apply Hg]. destruct (ps !! pid) as [p0|] eqn:E0; [|done]. intros [= <-]. exact (Hg pid p0 E0).
  - intros e'. rewrite Hq. case_decide; [|done]. rewrite map_app. apply NoDup_app. split; [done|]. split; [|apply NoDup_singleton]. intros y Hy ->%list_elem_of_singleton. by apply (Hno e).
  - intros e' x st. rewrite HW', Hq. case_decide as Hx.
    + intros [= -> <-] _ _. subst x. exists (with_state Blocked pr). rewrite enter_blocked_lookup, decide_True, Epr, decide_True by done. split; [done|]. apply elem_of_app. right. by left.
    + intros Hw Hst. unfold is_blocked. rewrite Hother by done. intros Hb. destruct (Hin e' x st Hw Hst Hb) as (p & Ep & Hxe). exists p. split; [done|]. case_decide; [subst; apply elem_of_app; by left|done].
  - intros e' x. rewrite Hq. assert (Hold : x ∈ qs e' -> exists st, W' x.1 = Some (e', st) /\ (is_blocked (enter_blocked tid ps) x.1 = true \/ interrupted (enter_blocked tid ps) x.1 = true) /\ (st = Leaves -> interrupted (enter_blocked tid ps) x.1 = true)).
    { intros Hx. assert (x.1 <> tid) as Hne by (intros <-; apply (Hno e'), list_elem_of_fmap; eauto). rewrite HW', decide_False by done. unfold is_blocked, interrupted. rewrite Hother by done. by apply Hen. }
    case_decide as He; [|done]. subst e'. intros [Hx| ->%list_elem_of_singleton]%elem_of_app; [by apply Hold|]. cbn. exists Armed. rewrite HW', decide_True by done. split; [done|]. split; [left|done]. unfold is_blocked. by rewrite enter_blocked_lookup, decide_True, Epr.
Qed.

(** Falling asleep, and getting up once the wait is resolved *)
Lemma waiting_stage qs ps W W' tid e st st' : waiting_inv qs ps W -> W tid = Some (e, st) -> st <> Leaves -> (st' = Leaves -> wait_resolved ps tid = true) ->
  moves W W' tid (Some (e, st')) -> waiting_inv qs ps W'.
Proof.
  intros [Hg Hnd Hin Hen] HW Hst Hres HW'. split; [done|done|..].
  - intros e' x s. rewrite HW'. case_decide; [|apply Hin]. intros [= -> ->] Hs Hb. subst x. by apply (Hin e' tid st).
  - intros e' x Hx. destruct (Hen e' x Hx) as (s & Hw & Hb & Hl). rewrite HW'. case_decide as Hxt; [|eauto]. rewrite Hxt in Hw, Hb |- *. rewrite HW in Hw. injection Hw as <- <-. exists st'. do 2 (split; [done|]).
    intros Hl'. specialize (Hres Hl'). unfold wait_resolved in Hres. apply orb_true_iff in Hres as [Hn%negb_true_iff|]; [|done]. destruct Hb; congruence.
Qed.

(** Leaving a queue, with the entry removed if there was one *)
Lemma waiting_leave qs qs' e l ps ps' W W' tid st : waiting_inv qs ps W -> W tid = Some (e, st) -> NoDup (map fst l) -> (forall x, x.1 <> tid -> x ∈ l <-> x ∈ qs e) -> (forall x, x ∈ l -> x.1 <> tid) ->
  (ps' = ps \/ ps' = enter_ready tid ps) -> replaces qs qs' e l -> moves W W' tid None -> waiting_inv qs' ps' W'.
Proof.
  intros [Hg Hnd Hin Hen] HW Hl Hmem Hno Hps Hq HW'.
  assert (Hoth : forall x, x <> tid -> ps' !! x = ps !! x) by (intros x Hx; destruct Hps as [-> | ->]; [done|]; rewrite enter_ready_lookup; by case_decide). split.
  - intros pid p. destruct (decide (pid = tid)) as [->|]; [|rewrite Hoth by done; apply Hg]. destruct Hps as [-> | ->]; [apply Hg|]. rewrite enter_ready_lookup, decide_True by done.
    destruct (ps !! tid) as [p0|] eqn:E0; [|done]. intros [= <-]. exact (Hg tid p0 E0).
  - intros e'. rewrite Hq. by case_decide.
  - intros e' x s. rewrite HW'. case_decide as Hx; [done|]. intros Hw Hs. unfold is_blocked. rewrite Hoth by done. intros Hb. destruct (Hin e' x s Hw Hs Hb) as (pr & Epr & He). exists pr. split; [done|].
    rewrite Hq. case_decide; [|done]. subst e'. by apply Hmem.
  - intros e' x. rewrite Hq. intros Hx. assert (x ∈ qs e' /\ x.1 <> tid) as [Hx' Hne].
    { case_decide; [subst; pose proof (Hno x Hx); by rewrite <- (Hmem x)|]. split; [done|]. intros Hxt. destruct (Hen e' x Hx) as (s & Hw & _). rewrite Hxt, HW in Hw. congruence. }
    rewrite HW', decide_False by done. unfold is_blocked, interrupted. rewrite Hoth by done. by apply Hen.
Qed.

(** [cancel_wait] by whoever is armed, the tail of [finish_wait] by whoever leaves *)
Lemma waiting_cancel qs qs' e q ps W W' tid st : waiting_inv qs ps W -> W tid = Some (e, st) -> waiters q = qs e -> moves W W' tid None ->
  let '(_, q', ps') := cancel_wait (Some tid) q ps in replaces qs qs' e (waiters q') -> waiting_inv qs' ps' W'.
Proof.
  intros Hi HW Hq HW'. pose proof (cancel_wait_spec tid q ps) as Hc. destruct (cancel_wait (Some tid) q ps) as [[b q'] ps']. destruct Hc as (? & ? & ? & ?); [rewrite Hq; apply Hi|]. intros ?. rewrite Hq in *. by apply (waiting_leave qs qs' e (waiters q') ps ps' W W' tid st).
Qed.

Lemma waiting_finish qs qs' e q ps W W' tid : waiting_inv qs ps W -> W tid = Some (e, Leaves) -> waiters q = qs e -> moves W W' tid None ->
  let '(q', ps') := finish_wait_tail (Some tid) q ps in replaces qs qs' e (waiters q') -> waiting_inv qs' ps' W'.
Proof.
  intros Hi HW Hq HW'. pose proof (finish_wait_spec tid q ps) as Hc. destruct (finish_wait_tail (Some tid) q ps) as [q' ps']. destruct Hc as (? & Hmem & Hno & ?); [rewrite Hq; apply Hi|]. intros ?. rewrite Hq in *.
  apply (waiting_leave qs qs' e (waiters q') ps ps' W W' tid Leaves); try done. intros x Hx Ex. destruct (Hno x Hx Ex) as [Hx' Hn]. destruct (wi_entry _ _ _ Hi e x Hx') as (s & Hw & _ & Hl). rewrite Ex in *. rewrite HW in Hw. injection Hw as <-. rewrite Hl in Hn; done.
Qed.
End waiting.
