(* ===== verification/Pipe.v ===== *)
(** Anonymous pipes ([ipc/pipe.rs]): the ring buffer with its read transaction,
    and the pipe with its end counts, status flags and wait queues. *)

From Stdlib Require Import ZArith Lia.
From stdpp Require Import base list list_numbers numbers gmap.
From S2P Require Import Prelude Machine WaitQueue.

Definition DEFAULT_PIPE_CAPACITY : Z := 4096.
Definition MAX_PIPE_CAPACITY : Z := 1024 * 1024.
Definition PIPE_BUF : Z := 4096.

Inductive PipeError :=
| NoCurrentProcess | BrokenPipe | WouldBlock | Closed | InvalidPipe | InvalidOperation
| PipeIdExhausted | InvalidCapacity | NoMemory | Interrupted.

(** * The ring buffer

    [None] is a panic: a slice out of range, a subtraction below zero, a
    division by zero or a failed [debug_assert!]. *)
Record PipeInner := mkInner {
  buffer : list Z;
  capacity : Z;
  read_pos : Z;
  len : Z;
  read_inflight : bool;
}.

Definition inner_new (cap : Z) : PipeInner := mkInner (replicate (Z.to_nat cap) 0) cap 0 0 false.

Definition with_cursor (pos n : Z) (p : PipeInner) : PipeInner := mkInner (buffer p) (capacity p) pos n (read_inflight p).
Definition with_inflight (b : bool) (p : PipeInner) : PipeInner := mkInner (buffer p) (capacity p) (read_pos p) (len p) b.

Definition is_empty (p : PipeInner) : bool := len p =? 0.
Definition is_full (p : PipeInner) : bool := capacity p <=? len p.
Definition available (p : PipeInner) : Z := len p.
Definition space (p : PipeInner) : option Z := checked_sub (capacity p) (len p).

(** [buf[a..a + n]] *)
Definition range (buf : list Z) (a n : Z) : option (list Z) :=
  if (0 <=? a) && (0 <=? n) && (a + n <=? zlen buf) then Some (take (Z.to_nat n) (drop (Z.to_nat a) buf)) else None.

(** [buf[a..a + chunk.len()].copy_from_slice(chunk)] *)
Definition overwrite (buf : list Z) (a : Z) (chunk : list Z) : option (list Z) :=
  if (0 <=? a) && (a + zlen chunk <=? zlen buf)
  then Some (take (Z.to_nat a) buf ++ chunk ++ drop (Z.to_nat (a + zlen chunk)) buf) else None.

Definition rem_cap (a cap : Z) : option Z := if cap =? 0 then None else Some (a mod cap).

(** The [while] of [read] and [peek]: what is copied and where the cursor ends *)
Fixpoint copy_out (fuel : nat) (buf : list Z) (cap pos todo : Z) : option (list Z * Z) :=
  if todo <=? 0 then Some ([], pos) else
  match fuel with
  | O => None
  | S fuel =>
      room ← checked_sub cap pos;
      let chunk := Z.min todo room in
      bytes ← range buf pos chunk;
      next ← rem_cap (pos + chunk) cap;
      '(rest, final) ← copy_out fuel buf cap next (todo - chunk);
      Some (bytes ++ rest, final)
  end.

(** The [while] of [write] *)
Fixpoint copy_in (fuel : nat) (buf : list Z) (cap pos : Z) (src : list Z) : option (list Z) :=
  match src with
  | [] => Some buf
  | _ =>
      match fuel with
      | O => None
      | S fuel =>
          room ← checked_sub cap pos;
          let chunk := Z.min (zlen src) room in
          buf ← overwrite buf pos (take (Z.to_nat chunk) src);
          next ← rem_cap (pos + chunk) cap;
          copy_in fuel buf cap next (drop (Z.to_nat chunk) src)
      end
  end.

Definition loop_fuel (n : Z) : nat := S (Z.to_nat n).

(** The bytes that land in [dst] are answered instead of their number. *)
Definition read (dst_len : Z) (p : PipeInner) : option (list Z * PipeInner) :=
  if read_inflight p then Some ([], p) else
  let to_read := Z.min dst_len (len p) in
  if to_read =? 0 then Some ([], p) else
  '(bytes, pos) ← copy_out (loop_fuel to_read) (buffer p) (capacity p) (read_pos p) to_read;
  n ← checked_sub (len p) to_read;
  Some (bytes, with_cursor pos n p).

Definition peek (dst_len : Z) (p : PipeInner) : option (list Z) :=
  let to_read := Z.min dst_len (len p) in
  fst <$> copy_out (loop_fuel to_read) (buffer p) (capacity p) (read_pos p) to_read.

Definition consume (count : Z) (p : PipeInner) : option PipeInner :=
  if len p <? count then None else
  let count := Z.min count (len p) in
  pos ← rem_cap (read_pos p + count) (capacity p);
  n ← checked_sub (len p) count;
  Some (with_cursor pos n p).

Definition begin_read_transaction (dst_len : Z) (p : PipeInner) : option (option (list Z) * PipeInner) :=
  if read_inflight p || (len p =? 0) then Some (None, p) else
  bytes ← peek dst_len p;
  if zlen bytes =? 0 then Some (None, p) else Some (Some bytes, with_inflight true p).

Definition finish_read_transaction (count : Z) (committed : bool) (p : PipeInner) : option PipeInner :=
  if read_inflight p then
    p ← (if committed then consume count p else Some p);
    Some (with_inflight false p)
  else Some p.

Definition write (src : list Z) (p : PipeInner) : option (Z * PipeInner) :=
  room ← space p;
  let to_write := Z.min (zlen src) room in
  if to_write =? 0 then Some (0, p) else
  write_pos ← rem_cap (read_pos p + len p) (capacity p);
  buf ← copy_in (loop_fuel to_write) (buffer p) (capacity p) write_pos (take (Z.to_nat to_write) src);
  Some (to_write, mkInner buf (capacity p) (read_pos p) (len p + to_write) (read_inflight p)).

(** * The pipe *)
Record Pipe := mkPipe {
  inner : PipeInner;
  read_status : Z;
  write_status : Z;
  readers : Z;
  writers : Z;
  read_wait : WaitQueue;
  write_wait : WaitQueue;
}.

Definition FILE_STATUS_NONBLOCK : Z := 0x800.
Definition FILE_STATUS_APPEND : Z := 0x400.
Definition FILE_STATUS_MUTABLE : Z := Z.lor FILE_STATUS_APPEND FILE_STATUS_NONBLOCK.

Definition status_of (nonblock : bool) : Z := if nonblock then FILE_STATUS_NONBLOCK else 0.

(** [Pipe::new] and the stores of [PipeHandle::new_read] and [new_write] *)
Definition pipe_new (cap : Z) (nonblock : bool) : Pipe :=
  mkPipe (inner_new cap) (status_of nonblock) (status_of nonblock) 1 1 wait_queue_new wait_queue_new.

Definition with_inner (i : PipeInner) (p : Pipe) : Pipe :=
  mkPipe i (read_status p) (write_status p) (readers p) (writers p) (read_wait p) (write_wait p).

Inductive PipeEndType := ReadEnd | WriteEnd.

#[export] Instance pipe_end_eq_dec : EqDecision PipeEndType.
Proof. solve_decision. Defined.

Definition end_count (e : PipeEndType) (p : Pipe) : Z := match e with ReadEnd => readers p | WriteEnd => writers p end.
Definition queue_of (e : PipeEndType) (p : Pipe) : WaitQueue := match e with ReadEnd => read_wait p | WriteEnd => write_wait p end.
Definition shared_status (e : PipeEndType) (p : Pipe) : Z := match e with ReadEnd => read_status p | WriteEnd => write_status p end.

Definition with_count (e : PipeEndType) (n : Z) (p : Pipe) : Pipe :=
  match e with
  | ReadEnd => mkPipe (inner p) (read_status p) (write_status p) n (writers p) (read_wait p) (write_wait p)
  | WriteEnd => mkPipe (inner p) (read_status p) (write_status p) (readers p) n (read_wait p) (write_wait p)
  end.
Definition with_queue (e : PipeEndType) (q : WaitQueue) (p : Pipe) : Pipe :=
  match e with
  | ReadEnd => mkPipe (inner p) (read_status p) (write_status p) (readers p) (writers p) q (write_wait p)
  | WriteEnd => mkPipe (inner p) (read_status p) (write_status p) (readers p) (writers p) (read_wait p) q
  end.
Definition with_status (e : PipeEndType) (f : Z) (p : Pipe) : Pipe :=
  match e with
  | ReadEnd => mkPipe (inner p) f (write_status p) (readers p) (writers p) (read_wait p) (write_wait p)
  | WriteEnd => mkPipe (inner p) (read_status p) f (readers p) (writers p) (read_wait p) (write_wait p)
  end.

Definition opposite (e : PipeEndType) : PipeEndType := match e with ReadEnd => WriteEnd | WriteEnd => ReadEnd end.

(** [wake_one]/[wake_all] of the queue where the callers of an end sleep *)
Definition wake_one_at (e : PipeEndType) (p : Pipe) (ps : Procs) : Pipe * Procs :=
  let '(_, q, ps) := wake_one (queue_of e p) ps in (with_queue e q p, ps).
Definition wake_all_at (e : PipeEndType) (p : Pipe) (ps : Procs) : Pipe * Procs :=
  let '(_, q, ps) := wake_all (queue_of e p) ps in (with_queue e q p, ps).

Definition saturating_step (up : bool) (n : Z) : Z := if up then saturating_add n 1 else saturating_sub n 1.

(** [close_read] and [close_write]: the last zero check and the wake of the
    other end run under [inner]. *)
Definition close_end (e : PipeEndType) (p : Pipe) (ps : Procs) : Pipe * Procs :=
  wake_all_at (opposite e) (with_count e (saturating_step false (end_count e p)) p) ps.

(** [add_reader] and [add_writer] *)
Definition add_end (e : PipeEndType) (p : Pipe) : Pipe := with_count e (saturating_step true (end_count e p)) p.

(** [set_nonblock], [is_nonblock], [status_flags], [set_status_flags] *)
Definition set_nonblock (e : PipeEndType) (nonblock : bool) (p : Pipe) : Pipe :=
  with_status e (if nonblock then Z.lor (shared_status e p) FILE_STATUS_NONBLOCK
                 else Z.ldiff (shared_status e p) FILE_STATUS_NONBLOCK) p.
Definition is_nonblock (e : PipeEndType) (p : Pipe) : bool := negb (Z.land (shared_status e p) FILE_STATUS_NONBLOCK =? 0).
Definition status_flags (e : PipeEndType) (p : Pipe) : Z :=
  Z.lor (match e with ReadEnd => 0 | WriteEnd => 1 end) (shared_status e p).
Definition O_ASYNC : Z := 0x2000.
Definition mutable_file_status_bits (flags : Z) : option Z :=
  if Z.land flags O_ASYNC =? 0 then Some (Z.land flags FILE_STATUS_MUTABLE) else None.
Definition set_status_flags (e : PipeEndType) (flags : Z) (p : Pipe) : option Pipe :=
  f ← mutable_file_status_bits flags; Some (with_status e f p).

Record PipeStatus := mkStatus { st_available : Z; st_space : Z; st_readers : Z; st_writers : Z }.
Definition status (p : Pipe) : option PipeStatus :=
  room ← space (inner p); Some (mkStatus (available (inner p)) room (readers p) (writers p)).

Record PollStatus := mkPoll { poll_readable : bool; poll_writable : bool; poll_hup : bool; poll_err : bool; poll_rdhup : bool }.
Definition poll_status_read (p : Pipe) : option PollStatus :=
  st ← status p; Some (mkPoll (0 <? st_available st) false (st_writers st =? 0) false false).
Definition poll_status_write (p : Pipe) : option PollStatus :=
  st ← status p; Some (mkPoll false (0 <? st_space st) false (st_readers st =? 0) false).
