(* ===== verification/PipeCalls.v ===== *)
(** The blocking calls of [ipc/pipe.rs], cut where they take and release the
    pipe's lock or a wait queue's, and the system that runs them: tasks in a
    call, the handles of both ends and the processes, driven by events in any
    order.  The log records what the pipe took in, what it handed out and what
    the calls answered; no definition reads it. *)

From Stdlib Require Import ZArith Lia.
From stdpp Require Import base list list_numbers numbers gmap.
From S2P Require Import Prelude Machine WaitQueue Pipe.

(** * Calls *)
Inductive Call :=
| Read (dst_len : Z)
| ReadWithCommit (dst_len : Z)
| Write (src : list Z).

Definition call_end (c : Call) : PipeEndType := match c with Write _ => WriteEnd | _ => ReadEnd end.

(** The answer of a call: a count, an error of the pipe or the error of the
    caller's copy to user memory *)
Inductive Outcome := Done (n : Z) | Failed (e : PipeError) | CommitFailed (e : Z).

(** Where a task is inside its call *)
Inductive At :=
| Top                                       (** the check for interruption at the head of the loop *)
| First                                     (** about to take the pipe's lock *)
| Preparing                                 (** about to prepare capacity of the wait queue *)
| Second (cap : WaitCapacity)               (** about to take the pipe's lock again *)
| Refused                                   (** [Prepared(false)] *)
| Asleep                                    (** in [block_until_resolved] *)
| Awake                                     (** past it, still inside [finish_wait] *)
| Copying (bytes : list Z)                  (** a read transaction is open, outside the lock *)
| WakeWriters (pass : bool) (r : Outcome)   (** about to wake the writers *)
| PassOn (r : Outcome)                      (** at the head of [pass_on_read_wake] *)
| PassWake (r : Outcome)                    (** at its [wake_one] *)
| WakeReader (r : option Outcome).          (** about to wake a reader, then to return or to go on *)

Record Task := mkTask {
  t_id : Z;              (** number of the call *)
  t_cur : option Z;      (** [current_pid()] *)
  t_handle : Z;
  t_call : Call;
  t_nonblock : bool;
  t_waited : bool;
  t_written : Z;
  t_at : At;
}.

Definition at_ (a : At) (t : Task) : Task :=
  mkTask (t_id t) (t_cur t) (t_handle t) (t_call t) (t_nonblock t) (t_waited t) (t_written t) a.
Definition having_written (n : Z) (t : Task) : Task :=
  mkTask (t_id t) (t_cur t) (t_handle t) (t_call t) (t_nonblock t) (t_waited t) n (t_at t).
Definition having_waited (t : Task) : Task :=
  mkTask (t_id t) (t_cur t) (t_handle t) (t_call t) (t_nonblock t) true (t_written t) (t_at t).

Inductive Obs :=
| Accepted (id : Z) (chunk : list Z)
| Delivered (id : Z) (bytes : list Z)
| Returned (id : Z) (c : Call) (r : Outcome).

Inductive Next := Goto (t : Task) | Return (r : Outcome).

(** A step answers the pipe, the processes, what is observed and where the task goes. *)
Record Step := mkStep { o_pipe : Pipe; o_procs : Procs; o_obs : list Obs; o_next : Next }.

Definition task_interrupted (ps : Procs) (t : Task) : bool :=
  match t_cur t with Some pid => interrupted ps pid | None => false end.

(** [if total_written > 0 { Ok(total_written) } else { Err(e) }] *)
Definition short (written : Z) (e : PipeError) : Outcome := if 0 <? written then Done written else Failed e.

(** * Sections under the pipe's lock

    A section either answers the step or, when the call has to wait, hands back
    the task and the pipe as they are then; [otherwise] is what follows. *)
Section sections.
Context (otherwise : Task -> Pipe -> Procs -> list Obs -> option Step).

(** [Pipe::read] *)
Definition read_section (dst_len : Z) (t : Task) (p : Pipe) (ps : Procs) : option Step :=
  if 0 <? len (inner p) then
    '(bytes, i) ← read dst_len (inner p);
    Some (mkStep (with_inner i p) ps [Delivered (t_id t) bytes] (Goto (at_ (WakeWriters (t_waited t) (Done (zlen bytes))) t)))
  else if writers p =? 0 then Some (mkStep p ps [] (Return (Done 0)))
  else if t_nonblock t then Some (mkStep p ps [] (Return (Failed WouldBlock)))
  else otherwise t p ps [].

(** [Pipe::read_with_commit] *)
Definition commit_section (dst_len : Z) (t : Task) (p : Pipe) (ps : Procs) : option Step :=
  if (0 <? len (inner p)) && negb (read_inflight (inner p)) then
    '(begun, i) ← begin_read_transaction dst_len (inner p);
    match begun with
    | None => Some (mkStep (with_inner i p) ps [] (Goto (at_ Top t)))
    | Some bytes => Some (mkStep (with_inner i p) ps [] (Goto (at_ (Copying bytes) t)))
    end
  else if writers p =? 0 then Some (mkStep p ps [] (Return (Done 0)))
  else if t_nonblock t then Some (mkStep p ps [] (Return (Failed WouldBlock)))
  else otherwise t p ps [].

(** [Pipe::write_atomic]; the same in both passes *)
Definition atomic_section (src : list Z) (t : Task) (p : Pipe) (ps : Procs) : option Step :=
  if readers p =? 0 then Some (mkStep p ps [] (Return (Failed BrokenPipe))) else
  room ← space (inner p);
  if zlen src <=? room then
    '(count, i) ← write src (inner p);
    if count =? zlen src then
      Some (mkStep (with_inner i p) ps [Accepted (t_id t) src]
              (Goto (at_ (WakeReader (Some (Done count))) (having_written count t))))
    else None
  else if t_nonblock t then Some (mkStep p ps [] (Return (Failed WouldBlock)))
  else otherwise t p ps [].

(** The first pass of [Pipe::write] for more than [PIPE_BUF] bytes: the reader
    is woken after the lock is released. *)
Definition write_first (src : list Z) (t : Task) (p : Pipe) (ps : Procs) : option Step :=
  let rest := drop (Z.to_nat (t_written t)) src in
  if readers p =? 0 then Some (mkStep p ps [] (Return (short (t_written t) BrokenPipe))) else
  room ← space (inner p);
  if 0 <? room then
    '(count, i) ← write rest (inner p);
    let total := t_written t + count in
    let stop := if total =? zlen src then Some (Done total) else if t_nonblock t then Some (short total WouldBlock) else None in
    Some (mkStep (with_inner i p) ps [Accepted (t_id t) (take (Z.to_nat count) rest)]
            (Goto (at_ (WakeReader stop) (having_written total t))))
  else if t_nonblock t then Some (mkStep p ps [] (Return (short (t_written t) WouldBlock)))
  else otherwise t p ps [].

(** The second pass: the reader is woken under the lock. *)
Definition write_second (src : list Z) (t : Task) (p : Pipe) (ps : Procs) : option Step :=
  let rest := drop (Z.to_nat (t_written t)) src in
  if readers p =? 0 then Some (mkStep p ps [] (Return (short (t_written t) BrokenPipe))) else
  room ← space (inner p);
  if 0 <? room then
    '(count, i) ← write rest (inner p);
    let total := t_written t + count in
    let obs := [Accepted (t_id t) (take (Z.to_nat count) rest)] in
    let '(p, ps) := wake_one_at ReadEnd (with_inner i p) ps in
    if total =? zlen src then Some (mkStep p ps obs (Return (Done total))) else
    room ← space (inner p);
    if negb (room =? 0) then None else
    if t_nonblock t then Some (mkStep p ps obs (Return (short total WouldBlock))) else
    otherwise (having_written total t) p ps obs
  else if t_nonblock t then Some (mkStep p ps [] (Return (short (t_written t) WouldBlock)))
  else otherwise t p ps [].
End sections.

(** The first pass ends by preparing capacity, the second by arming. *)
Definition then_prepare (t : Task) (p : Pipe) (ps : Procs) (obs : list Obs) : option Step :=
  Some (mkStep p ps obs (Goto (at_ Preparing t))).

Definition then_arm (cap : WaitCapacity) (t : Task) (p : Pipe) (ps : Procs) (obs : list Obs) : option Step :=
  let e := call_end (t_call t) in
  '(armed, q, ps) ← try_prepare_to_wait_with_capacity (t_cur t) cap (queue_of e p) ps;
  let next := match armed with Prepared true => Asleep | Prepared false => Refused | RetryCapacity => Top end in
  Some (mkStep (with_queue e q p) ps obs (Goto (at_ next t))).

Definition is_atomic (src : list Z) : bool := zlen src <=? PIPE_BUF.

Definition first_pass (t : Task) (p : Pipe) (ps : Procs) : option Step :=
  match t_call t with
  | Read n => read_section then_prepare n t p ps
  | ReadWithCommit n => commit_section then_prepare n t p ps
  | Write src => if is_atomic src then atomic_section then_prepare src t p ps else write_first then_prepare src t p ps
  end.

Definition second_pass (cap : WaitCapacity) (t : Task) (p : Pipe) (ps : Procs) : option Step :=
  match t_call t with
  | Read n => read_section (then_arm cap) n t p ps
  | ReadWithCommit n => commit_section (then_arm cap) n t p ps
  | Write src =>
      if is_atomic src then atomic_section (then_arm cap) src t p ps else write_second (then_arm cap) src t p ps
  end.

(** * The steps between the sections *)

(** A reader that had waited passes its wake on before it reports the interruption. *)
Definition interrupt (t : Task) (p : Pipe) (ps : Procs) : Step :=
  match t_call t with
  | Write _ => mkStep p ps [] (Return (short (t_written t) Interrupted))
  | _ => mkStep p ps [] (if t_waited t then Goto (at_ (PassOn (Failed Interrupted)) t) else Return (Failed Interrupted))
  end.

Definition top (t : Task) (p : Pipe) (ps : Procs) : Step :=
  match t_call t with
  | Write src =>
      if (zlen src <=? t_written t) && negb (is_atomic src) then mkStep p ps [] (Return (Done (t_written t))) else
      if task_interrupted ps t then interrupt t p ps else mkStep p ps [] (Goto (at_ First t))
  | _ => if task_interrupted ps t then interrupt t p ps else mkStep p ps [] (Goto (at_ First t))
  end.

Definition prepare_step (al : Z -> option Z) (t : Task) (p : Pipe) (ps : Procs) : Step :=
  match prepare_current_wait_capacity al (t_cur t) (queue_of (call_end (t_call t)) p) with
  | Some cap => mkStep p ps [] (Goto (at_ (Second cap) t))
  | None => mkStep p ps [] (Return (short (t_written t) NoMemory))
  end.

Definition refused (t : Task) (p : Pipe) (ps : Procs) : Step :=
  if 0 <? t_written t then mkStep p ps [] (Return (Done (t_written t))) else
  match t_cur t with
  | None => mkStep p ps [] (Return (Failed NoCurrentProcess))
  | Some _ =>
      if closed (queue_of (call_end (t_call t)) p) then mkStep p ps [] (Return (Failed Closed)) else
      if task_interrupted ps t then interrupt t p ps else mkStep p ps [] (Goto (at_ Top t))
  end.

(** [block_until_resolved]: the task stays where it is until its wait is resolved. *)
Definition asleep (t : Task) (p : Pipe) (ps : Procs) : Step :=
  match t_cur t with
  | Some pid => mkStep p ps [] (Goto (if wait_resolved ps pid then at_ Awake t else t))
  | None => mkStep p ps [] (Goto (at_ Awake t))
  end.

Definition awake (t : Task) (p : Pipe) (ps : Procs) : Step :=
  let e := call_end (t_call t) in
  let '(q, ps) := finish_wait_tail (t_cur t) (queue_of e p) ps in
  mkStep (with_queue e q p) ps [] (Goto (at_ Top (match t_call t with Write _ => t | _ => having_waited t end))).

(** The caller's copy has answered [copyout]: [None] for success. *)
Definition copied (copyout : option Z) (bytes : list Z) (t : Task) (p : Pipe) (ps : Procs) : option Step :=
  match copyout with
  | None =>
      i ← finish_read_transaction (zlen bytes) true (inner p);
      Some (mkStep (with_inner i p) ps [Delivered (t_id t) bytes] (Goto (at_ (WakeWriters true (Done (zlen bytes))) t)))
  | Some e =>
      i ← finish_read_transaction (zlen bytes) false (inner p);
      Some (mkStep (with_inner i p) ps [] (Goto (at_ (WakeReader (Some (CommitFailed e))) t)))
  end.

(** [pass_on_read_wake] up to its [wake_one] *)
Definition data_left (p : Pipe) : bool := (0 <? len (inner p)) && negb (read_inflight (inner p)).

Definition step (al : Z -> option Z) (copyout : option Z) (t : Task) (p : Pipe) (ps : Procs) : option Step :=
  match t_at t with
  | Top => Some (top t p ps)
  | First => first_pass t p ps
  | Preparing => Some (prepare_step al t p ps)
  | Second cap => second_pass cap t p ps
  | Refused => Some (refused t p ps)
  | Asleep => Some (asleep t p ps)
  | Awake => Some (awake t p ps)
  | Copying bytes => copied copyout bytes t p ps
  | WakeWriters pass r =>
      let '(p, ps) := wake_all_at WriteEnd p ps in
      Some (mkStep p ps [] (if pass then Goto (at_ (PassOn r) t) else Return r))
  | PassOn r => Some (mkStep p ps [] (if data_left p then Goto (at_ (PassWake r) t) else Return r))
  | PassWake r => let '(p, ps) := wake_one_at ReadEnd p ps in Some (mkStep p ps [] (Return r))
  | WakeReader r =>
      let '(p, ps) := wake_one_at ReadEnd p ps in
      Some (mkStep p ps [] (match r with Some r => Return r | None => Goto (at_ Preparing t) end))
  end.

(** * Handles and tasks together *)
Record PipeHandle := mkHandle { end_type : PipeEndType; cap_id : option Z }.

Record System := mkSys {
  pipe : Pipe;
  procs : Procs;
  handles : gmap Z PipeHandle;
  tasks : gmap Z Task;
  next_call : Z;
  log : list Obs;
}.

Definition READ_HANDLE : Z := 0.
Definition WRITE_HANDLE : Z := 1.

(** What [create_pipe_with_capacity] leaves: the two ends and nobody in a call *)
Definition sys_new (cap : Z) (nonblock : bool) (ps : Procs) : System :=
  mkSys (pipe_new cap nonblock) ps
    (<[READ_HANDLE := mkHandle ReadEnd None]> {[WRITE_HANDLE := mkHandle WriteEnd None]}) ∅ 0 [].

Definition with_pipe (p : Pipe) (s : System) : System := mkSys p (procs s) (handles s) (tasks s) (next_call s) (log s).
Definition with_procs (ps : Procs) (s : System) : System := mkSys (pipe s) ps (handles s) (tasks s) (next_call s) (log s).
Definition with_handles (h : gmap Z PipeHandle) (s : System) : System := mkSys (pipe s) (procs s) h (tasks s) (next_call s) (log s).

(** [PipeHandle::read], [read_with_commit] and [write] up to their loops *)
Definition start (tid : Z) (in_process : bool) (h : Z) (c : Call) (s : System) : System :=
  match tasks s !! tid, handles s !! h with
  | None, Some hd =>
      let e := call_end c in
      let answer r := mkSys (pipe s) (procs s) (handles s) (tasks s) (next_call s + 1) (log s ++ [Returned (next_call s) c r]) in
      if negb (bool_decide (end_type hd = e)) then answer (Failed InvalidOperation) else
      match c with
      | Write [] => answer (Done 0)
      | _ =>
          let t := mkTask (next_call s) (if in_process then Some tid else None) h c (is_nonblock e (pipe s)) false 0 Top in
          mkSys (pipe s) (procs s) (handles s) (<[tid := t]> (tasks s)) (next_call s + 1) (log s)
      end
  | _, _ => s
  end.

Definition run (tid : Z) (al : Z -> option Z) (copyout : option Z) (s : System) : option System :=
  match tasks s !! tid with
  | None => Some s
  | Some t =>
      o ← step al copyout t (pipe s) (procs s);
      Some (match o_next o with
            | Goto t => mkSys (o_pipe o) (o_procs o) (handles s) (<[tid := t]> (tasks s)) (next_call s) (log s ++ o_obs o)
            | Return r =>
                mkSys (o_pipe o) (o_procs o) (handles s) (delete tid (tasks s)) (next_call s)
                  (log s ++ o_obs o ++ [Returned (t_id t) (t_call t) r])
            end)
  end.

(** [PipeHandle::duplicate] under a new number *)
Definition duplicate (h h' : Z) (s : System) : System :=
  match handles s !! h, handles s !! h' with
  | Some hd, None => with_pipe (add_end (end_type hd) (pipe s)) (with_handles (<[h' := hd]> (handles s)) s)
  | _, _ => s
  end.

(** A call borrows its handle. *)
Definition in_use (h : Z) (s : System) : bool := existsb (fun kt => t_handle kt.2 =? h) (map_to_list (tasks s)).

(** [Drop for PipeHandle] *)
Definition drop_handle (h : Z) (s : System) : System :=
  match handles s !! h with
  | Some hd =>
      if in_use h s then s else
      let '(p, ps) := close_end (end_type hd) (pipe s) (procs s) in
      with_pipe p (with_procs ps (with_handles (delete h (handles s)) s))
  | None => s
  end.

(** [set_cap_id]: the first one stays *)
Definition set_cap_id (h c : Z) (s : System) : System :=
  match handles s !! h with
  | Some hd => with_handles (<[h := mkHandle (end_type hd) (Some (default c (cap_id hd)))]> (handles s)) s
  | None => s
  end.

(** * Events

    Interrupts come and go from outside: [Post] raises one and may make a
    blocked task runnable, [Withdraw] takes it back, [Outside] is anything that
    happens to a process that is in no call on the pipe. *)
Inductive Event :=
| Start (tid : Z) (in_process : bool) (h : Z) (c : Call)
| Run (tid : Z) (al : Z -> option Z) (copyout : option Z)
| Duplicate (h h' : Z)
| Drop (h : Z)
| SetCapId (h c : Z)
| SetStatusFlags (h flags : Z)
| SetNonblock (h : Z) (nonblock : bool)
| Post (pid : Z) (ready : bool)
| Withdraw (pid : Z)
| Dispatch (pid : Z)
| Outside (pid : Z) (p : option Process).

Definition exec (e : Event) (s : System) : option System :=
  match e with
  | Start tid in_process h c => Some (start tid in_process h c s)
  | Run tid al copyout => run tid al copyout s
  | Duplicate h h' => Some (duplicate h h' s)
  | Drop h => Some (drop_handle h s)
  | SetCapId h c => Some (set_cap_id h c s)
  | SetStatusFlags h flags =>
      Some (match handles s !! h with
            | Some hd => with_pipe (default (pipe s) (set_status_flags (end_type hd) flags (pipe s))) s
            | None => s
            end)
  | SetNonblock h nonblock =>
      Some (match handles s !! h with Some hd => with_pipe (set_nonblock (end_type hd) nonblock (pipe s)) s | None => s end)
  | Post pid ready => Some (with_procs (post pid ready (procs s)) s)
  | Withdraw pid => Some (with_procs (alter (with_abort false) pid (procs s)) s)
  | Dispatch pid => Some (with_procs (dispatch pid (procs s)) s)
  | Outside pid p => Some (if bool_decide (tasks s !! pid = None) then with_procs (partial_alter (fun _ => p) pid (procs s)) s else s)
  end.

Fixpoint exec_all (es : list Event) (s : System) : option System :=
  match es with
  | [] => Some s
  | e :: es => s ← exec e s; exec_all es s
  end.
