(* ===== verification/PipeFacts.v ===== *)
(** The ring buffer of a pipe as a queue of bytes: its operations never abort on
    a well-formed ring and act on its contents as on a list. *)

From Stdlib Require Import ZArith Lia.
From stdpp Require Import base list list_numbers numbers gmap.
From S2P Require Import Prelude Machine WaitQueue Pipe.

Lemma zget_take (l : list Z) a i : 0 <= a <= zlen l -> 0 <= i -> zget (take (Z.to_nat a) l) i = if i <? a then zget l i else None.
Proof. intros Ha Hi. apply (proj1 (zget_take_drop l a i Ha Hi)). Qed.

Lemma zget_drop (l : list Z) a i : 0 <= a <= zlen l -> 0 <= i -> zget (drop (Z.to_nat a) l) i = zget l (a + i).
Proof. intros Ha Hi. apply (proj2 (zget_take_drop l a i Ha Hi)). Qed.

(** * Contents *)
Record ring_ok (p : PipeInner) : Prop := {
  ro_cap : 0 < capacity p <= usize_max;
  ro_buf : zlen (buffer p) = capacity p;
  ro_pos : 0 <= read_pos p < capacity p;
  ro_len : 0 <= len p <= capacity p;
}.

(** The buffer from the cursor round to the cursor *)
Definition unrolled (buf : list Z) (pos : Z) : list Z := drop (Z.to_nat pos) buf ++ take (Z.to_nat pos) buf.

Definition contents (p : PipeInner) : list Z := take (Z.to_nat (len p)) (unrolled (buffer p) (read_pos p)).

Lemma zlen_unrolled buf pos : 0 <= pos <= zlen buf -> zlen (unrolled buf pos) = zlen buf.
Proof. intros. unfold unrolled. rewrite zlen_app, zlen_drop, zlen_take by done. lia. Qed.

Lemma zlen_contents p : ring_ok p -> zlen (contents p) = len p.
Proof. intros []. unfold contents. apply zlen_take. rewrite zlen_unrolled by lia. lia. Qed.

Lemma wrap_mod a cap : 0 <= a < 2 * cap -> a mod cap = if a <? cap then a else a - cap.
Proof.
  intros. destruct (Z.ltb_spec a cap); [apply Z.mod_small; lia|].
  symmetry. apply (Z.mod_unique _ _ 1); lia.
Qed.

Lemma unrolled_get buf pos k : 0 <= pos < zlen buf -> 0 <= k < zlen buf ->
  zget (unrolled buf pos) k = zget buf ((pos + k) mod zlen buf).
Proof.
  intros Hp Hk. unfold unrolled. rewrite zget_app, zlen_drop, wrap_mod by lia.
  destruct (Z.ltb_spec k (zlen buf - pos)), (Z.ltb_spec (pos + k) (zlen buf)); try lia.
  - by rewrite zget_drop by lia.
  - rewrite zget_take by lia.
    destruct (Z.ltb_spec (k - (zlen buf - pos)) pos); [|lia]. f_equal. lia.
Qed.

Lemma contents_get p k : ring_ok p -> 0 <= k < len p -> zget (contents p) k = zget (buffer p) ((read_pos p + k) mod capacity p).
Proof.
  intros [] Hk. unfold contents.
  rewrite zget_take by (rewrite ?zlen_unrolled; lia).
  destruct (Z.ltb_spec k (len p)); [|lia]. rewrite unrolled_get by lia. by rewrite ro_buf0.
Qed.

Lemma contents_ext p l : ring_ok p -> zlen l = len p ->
  (forall k, 0 <= k < len p -> zget l k = zget (buffer p) ((read_pos p + k) mod capacity p)) -> contents p = l.
Proof.
  intros Hp Hl H. apply zlist_ext; [by rewrite zlen_contents|]. intros k Hk. rewrite zlen_contents in Hk by done.
  by rewrite contents_get, H.
Qed.

(** * The loops *)
Section loops.
Context (buf : list Z) (cap : Z) (Hcap : 0 < cap) (Hbuf : zlen buf = cap).

Lemma slice_range_spec a n : 0 <= a -> 0 <= n -> a + n <= cap -> range buf a n = Some (take (Z.to_nat n) (drop (Z.to_nat a) buf)).
Proof. intros. unfold range. zb; try lia. done. Qed.

Lemma copy_out_done fuel pos todo : todo <= 0 -> copy_out fuel buf cap pos todo = Some ([], pos).
Proof. intros. destruct fuel; cbn [copy_out]; by destruct (Z.leb_spec todo 0); [|lia]. Qed.

Lemma copy_out_step fuel pos todo : 0 <= pos < cap -> 0 < todo -> let chunk := Z.min todo (cap - pos) in
  copy_out (S fuel) buf cap pos todo =
    ('(rest, final) ← copy_out fuel buf cap ((pos + chunk) mod cap) (todo - chunk); Some (take (Z.to_nat chunk) (drop (Z.to_nat pos) buf) ++ rest, final)).
Proof.
  intros Hp Ht chunk. cbn [copy_out]. destruct (Z.leb_spec todo 0); [lia|]. rewrite checked_sub_Some by lia. cbn [mbind option_bind].
  fold chunk. rewrite slice_range_spec by lia. cbn [mbind option_bind]. unfold rem_cap. by destruct (Z.eqb_spec cap 0); [lia|].
Qed.

Lemma copy_out_spec fuel pos todo : 0 <= pos < cap -> 0 <= todo <= cap -> (Z.to_nat todo < fuel)%nat ->
  copy_out fuel buf cap pos todo = Some (take (Z.to_nat todo) (unrolled buf pos), (pos + todo) mod cap).
Proof.
  intros Hp Ht Hf. destruct (decide (todo = 0)) as [->|].
  { rewrite copy_out_done by done. rewrite Z.add_0_r, Z.mod_small by done. done. }
  destruct fuel as [|fuel]; [lia|]. rewrite copy_out_step by lia. unfold unrolled. cbv zeta.
  assert (Hd : length (drop (Z.to_nat pos) buf) = Z.to_nat (cap - pos)) by (rewrite length_drop; unfold zlen in Hbuf; lia).
  destruct (Z.le_gt_cases todo (cap - pos)).
  - rewrite Z.min_l, copy_out_done by lia. cbn. rewrite app_nil_r, take_app_le by lia. done.
  - rewrite Z.min_r by lia. replace (pos + (cap - pos)) with cap by lia. rewrite Z.mod_same by lia.
    destruct fuel as [|fuel]; [lia|]. rewrite copy_out_step by lia. cbv zeta. rewrite Z.min_l, copy_out_done by lia. cbn.
    rewrite app_nil_r, take_app_ge by lia. rewrite (take_ge (drop _ _)) by lia. rewrite take_take, drop_0. f_equal. f_equal; [do 2 f_equal; lia|].
    rewrite !wrap_mod by lia. destruct (Z.ltb_spec (0 + (todo - (cap - pos))) cap), (Z.ltb_spec (pos + todo) cap); lia.
Qed.
End loops.

Lemma overwrite_spec buf a chunk : 0 <= a -> a + zlen chunk <= zlen buf -> exists buf', overwrite buf a chunk = Some buf' /\ zlen buf' = zlen buf /\
  forall i, 0 <= i < zlen buf -> zget buf' i = if (a <=? i) && (i <? a + zlen chunk) then zget chunk (i - a) else zget buf i.
Proof.
  intros Ha Hl. pose proof (zlen_nonneg chunk). unfold overwrite. destruct (Z.leb_spec 0 a), (Z.leb_spec (a + zlen chunk) (zlen buf)); try lia. cbn [andb].
  eexists. split; [done|]. rewrite !zlen_app, zlen_take, zlen_drop by lia. split; [lia|]. intros i Hi.
  rewrite zget_app, zlen_take by lia. destruct (Z.ltb_spec i a), (Z.leb_spec a i); try lia; cbn [andb].
  - rewrite zget_take by lia. destruct (Z.ltb_spec i a); [done|lia].
  - rewrite zget_app. destruct (Z.ltb_spec (i - a) (zlen chunk)), (Z.ltb_spec i (a + zlen chunk)); try lia; [done|].
    rewrite zget_drop by lia. f_equal. lia.
Qed.

Lemma copy_in_nil fuel buf cap pos : copy_in fuel buf cap pos [] = Some buf.
Proof. by destruct fuel. Qed.

Lemma copy_in_step fuel buf cap pos src : zlen buf = cap -> 0 <= pos < cap -> 0 < zlen src -> let chunk := Z.min (zlen src) (cap - pos) in
  exists buf', zlen buf' = cap /\
    copy_in (S fuel) buf cap pos src = copy_in fuel buf' cap ((pos + chunk) mod cap) (drop (Z.to_nat chunk) src) /\
    forall i, 0 <= i < cap -> zget buf' i = if (pos <=? i) && (i <? pos + chunk) then zget src (i - pos) else zget buf i.
Proof.
  intros Hb Hp Hs chunk. destruct src as [|x src]; [done|]. set (s := x :: src) in *.
  destruct (overwrite_spec buf pos (take (Z.to_nat chunk) s)) as (buf' & Ho & Hl & Hget); [lia|rewrite zlen_take; lia|].
  exists buf'. split; [lia|]. cbn [copy_in]. fold s. rewrite checked_sub_Some by lia. cbn [mbind option_bind]. fold chunk. rewrite Ho. cbn [mbind option_bind].
  unfold rem_cap. destruct (Z.eqb_spec cap 0); [lia|]. split; [done|]. intros i Hi. rewrite Hget, zlen_take by lia.
  destruct (Z.leb_spec pos i), (Z.ltb_spec i (pos + chunk)); cbn [andb]; try done.
  rewrite zget_take by lia. destruct (Z.ltb_spec (i - pos) chunk); [done|lia].
Qed.

(** Offset of index [i] from [pos], going round *)
Definition offset (cap pos i : Z) : Z := if i <? pos then i + cap - pos else i - pos.

Lemma copy_in_spec fuel buf cap pos src : zlen buf = cap -> 0 <= pos < cap -> zlen src <= cap -> (length src < fuel)%nat ->
  exists buf', copy_in fuel buf cap pos src = Some buf' /\ zlen buf' = cap /\
    forall i, 0 <= i < cap -> zget buf' i = if offset cap pos i <? zlen src then zget src (offset cap pos i) else zget buf i.
Proof.
  intros Hb Hp Hs Hf. pose proof (zlen_nonneg src). unfold offset. destruct (decide (zlen src = 0)) as [H0|].
  { destruct src as [|x src]; [|rewrite zlen_cons in H0; pose proof (zlen_nonneg src); lia]. exists buf. rewrite copy_in_nil. split; [done|]. split; [done|]. intros. change (zlen []) with 0. zb; try lia; done. }
  destruct fuel as [|fuel]; [lia|]. destruct (copy_in_step fuel buf cap pos src) as (b1 & Hl1 & -> & Hg1); [done|done|lia|].
  set (chunk := Z.min (zlen src) (cap - pos)) in *. destruct (Z.le_gt_cases (zlen src) (cap - pos)).
  - exists b1. rewrite drop_ge by (unfold zlen in *; lia). rewrite copy_in_nil. split; [done|]. split; [done|]. intros i Hi. rewrite Hg1 by done.
    replace chunk with (zlen src) by lia. zb; try lia; done.
  - assert (Hd : zlen (drop (Z.to_nat chunk) src) = zlen src - chunk) by (apply zlen_drop; lia).
    replace (pos + chunk) with cap by lia. rewrite Z.mod_same by lia. destruct fuel as [|fuel]; [unfold zlen in *; lia|].
    destruct (copy_in_step fuel b1 cap 0 (drop (Z.to_nat chunk) src)) as (b2 & Hl2 & -> & Hg2); [done|lia|lia|].
    rewrite Hd in *. exists b2. rewrite drop_ge by (rewrite length_drop; unfold zlen in *; lia). rewrite copy_in_nil. split; [done|]. split; [done|].
    intros i Hi. rewrite Hg2 by done. rewrite zget_drop, Hg1 by lia.
    zb; try lia; try done; f_equal; lia.
Qed.

(** * The operations *)
Definition free_space (p : PipeInner) : Z := capacity p - len p.

(** What stays of a ring besides its contents *)
Definition same_frame (p p' : PipeInner) : Prop := capacity p' = capacity p /\ read_inflight p' = read_inflight p.

Definition advance (k : Z) (p : PipeInner) : PipeInner := with_cursor ((read_pos p + k) mod capacity p) (len p - k) p.

Lemma advance_spec k p : ring_ok p -> 0 <= k <= len p ->
  ring_ok (advance k p) /\ contents (advance k p) = drop (Z.to_nat k) (contents p) /\ same_frame p (advance k p).
Proof.
  intros Hp Hk. pose proof (zlen_contents p Hp) as Hl. pose proof Hp as [Hc Hb Hpos Hlen]. assert (ring_ok (advance k p)) as Hp'.
  { split; cbn; [done|done|apply Z.mod_pos_bound; lia|lia]. }
  split; [done|]. split; [|done]. apply contents_ext; [done|cbn; rewrite zlen_drop; lia|].
  cbn. intros i Hi. rewrite zget_drop, contents_get by (done || lia). f_equal. rewrite Z.add_mod_idemp_l by lia. f_equal. lia.
Qed.

Lemma space_spec p : ring_ok p -> space p = Some (free_space p).
Proof. intros []. unfold space, free_space. apply checked_sub_Some. lia. Qed.

Lemma take_contents p n : ring_ok p -> 0 <= n -> take (Z.to_nat (Z.min n (len p))) (unrolled (buffer p) (read_pos p)) = take (Z.to_nat n) (contents p).
Proof. intros [] Hn. unfold contents. rewrite take_take. f_equal. lia. Qed.

Lemma peek_spec n p : ring_ok p -> 0 <= n -> peek n p = Some (take (Z.to_nat n) (contents p)).
Proof.
  intros Hp Hn. unfold peek. pose proof Hp as []. rewrite copy_out_spec by (unfold loop_fuel; lia). cbn. f_equal. by apply take_contents.
Qed.

Lemma read_spec n p : ring_ok p -> 0 <= n -> exists p', read n p = Some (if read_inflight p then [] else take (Z.to_nat n) (contents p), p') /\
  ring_ok p' /\ contents p' = (if read_inflight p then contents p else drop (Z.to_nat n) (contents p)) /\ same_frame p p'.
Proof.
  intros Hp Hn. unfold read. destruct (read_inflight p); [by exists p|]. pose proof (zlen_contents p Hp) as Hl. pose proof Hp as []. destruct (Z.eqb_spec (Z.min n (len p)) 0).
  - exists p. split; [|split; [done|]; split; [|done]].
    + f_equal. f_equal. symmetry. destruct (decide (n = 0)) as [->|]; [done|]. unfold zlen in Hl. apply nil_length_inv. rewrite length_take. lia.
    + symmetry. destruct (decide (n = 0)) as [->|]; [done|]. unfold zlen in Hl. rewrite drop_ge by lia. symmetry. apply nil_length_inv. lia.
  - rewrite copy_out_spec by (unfold loop_fuel; lia). cbn [mbind option_bind]. rewrite checked_sub_Some by lia. cbn [mbind option_bind].
    exists (advance (Z.min n (len p)) p). rewrite take_contents by done. split; [done|].
    destruct (advance_spec (Z.min n (len p)) p Hp ltac:(lia)) as (? & -> & ?). split; [done|]. split; [|done].
    destruct (Z.le_gt_cases n (len p)); [by rewrite Z.min_l by lia|]. unfold zlen in Hl. rewrite Z.min_r, !drop_ge by lia. done.
Qed.

Lemma consume_spec k p : ring_ok p -> 0 <= k <= len p -> consume k p = Some (advance k p).
Proof.
  intros Hp Hk. unfold consume. destruct (Z.ltb_spec (len p) k); [lia|]. rewrite Z.min_l by lia. unfold rem_cap. pose proof Hp as [].
  destruct (Z.eqb_spec (capacity p) 0); [lia|]. cbn [mbind option_bind]. by rewrite checked_sub_Some by lia.
Qed.

Lemma with_inflight_ok b p : ring_ok p -> ring_ok (with_inflight b p).
Proof. by intros []. Qed.

Lemma begin_spec n p : ring_ok p -> 0 <= n -> 0 < len p -> read_inflight p = false ->
  begin_read_transaction n p = Some (if n =? 0 then (None, p) else (Some (take (Z.to_nat n) (contents p)), with_inflight true p)).
Proof.
  intros Hp Hn Hl Hf. unfold begin_read_transaction. rewrite Hf, peek_spec by done. destruct (Z.eqb_spec (len p) 0); [lia|]. cbn [orb mbind option_bind].
  pose proof (zlen_contents p Hp) as Hc. destruct (Z.eqb_spec n 0) as [->|].
  - done.
  - destruct (Z.eqb_spec (zlen (take (Z.to_nat n) (contents p))) 0) as [H0|]; [|done]. unfold zlen in *. rewrite length_take in H0. lia.
Qed.

Lemma finish_spec k (ok : bool) p : ring_ok p -> 0 <= k <= len p -> read_inflight p = true -> exists p', finish_read_transaction k ok p = Some p' /\
  ring_ok p' /\ contents p' = (if ok then drop (Z.to_nat k) (contents p) else contents p) /\ capacity p' = capacity p /\ read_inflight p' = false.
Proof.
  intros Hp Hk Hf. unfold finish_read_transaction. rewrite Hf. destruct ok; [rewrite consume_spec by done|]; cbn [mbind option_bind]; eexists; (split; [done|]).
  - destruct (advance_spec k p Hp Hk) as (? & Hc & _). split; [by apply with_inflight_ok|]. by split.
  - split; [by apply with_inflight_ok|]. by split.
Qed.

Lemma write_spec src p : ring_ok p -> let n := Z.min (zlen src) (free_space p) in exists p', write src p = Some (n, p') /\
  ring_ok p' /\ contents p' = contents p ++ take (Z.to_nat n) src /\ same_frame p p'.
Proof.
  intros Hp n. unfold write. rewrite space_spec by done. cbn [mbind option_bind]. fold n. pose proof (zlen_contents p Hp) as Hcl. pose proof Hp as [Hc Hb Hpos Hlen].
  pose proof (zlen_nonneg src). unfold free_space in *. destruct (Z.eqb_spec n 0) as [H0|].
  { exists p. rewrite H0, app_nil_r. done. }
  unfold rem_cap. destruct (Z.eqb_spec (capacity p) 0); [lia|]. cbn [mbind option_bind]. assert (Hn : zlen (take (Z.to_nat n) src) = n) by (apply zlen_take; lia).
  set (wp := (read_pos p + len p) mod capacity p). assert (Hwp : 0 <= wp < capacity p) by (apply Z.mod_pos_bound; lia).
  destruct (copy_in_spec (loop_fuel n) (buffer p) (capacity p) wp (take (Z.to_nat n) src)) as (buf & -> & Hbl & Hget); [done|done|lia|unfold loop_fuel, zlen in *; lia|].
  cbn [mbind option_bind]. eexists. split; [done|]. split; [split; cbn; [done|done|done|lia]|]. split; [|done].
  apply contents_ext; [split; cbn; [done|done|done|lia]|cbn; rewrite zlen_app; lia|]. cbn. intros k Hk. rewrite Hn in Hget.
  rewrite Hget by (apply Z.mod_pos_bound; lia). rewrite zget_app, Hcl. unfold offset. assert (Hw : wp = if read_pos p + len p <? capacity p then read_pos p + len p else read_pos p + len p - capacity p) by (apply wrap_mod; lia).
  assert (Hk' : (read_pos p + k) mod capacity p = if read_pos p + k <? capacity p then read_pos p + k else read_pos p + k - capacity p) by (apply wrap_mod; lia).
  destruct (Z.ltb_spec k (len p)).
  - rewrite contents_get by (done || lia). rewrite Hk', Hw. zb; try lia; done.
  - rewrite Hk', Hw. zb; try lia; f_equal; lia.
Qed.
