(* ===== verification/PipeRun.v ===== *)
(** What every run of the pipe's calls preserves, whatever the order of their
    steps: the ring is well formed, the bytes handed out and held are the bytes
    taken in, one read transaction is open at most, and every call has taken in
    and handed out what its answer says. *)

From Stdlib Require Import ZArith Lia.
From stdpp Require Import base list list_numbers numbers gmap.
From S2P Require Import Prelude Machine WaitQueue WaitFacts Pipe PipeFacts PipeCalls.

(** * Reading the log *)
Definition obs_id (o : Obs) : Z := match o with Accepted id _ | Delivered id _ | Returned id _ _ => id end.
Definition in_bytes (o : Obs) : list Z := match o with Accepted _ b => b | _ => [] end.
Definition out_bytes (o : Obs) : list Z := match o with Delivered _ b => b | _ => [] end.

(** The bytes of a log seen through [f], all of them or those of one call *)
Definition stream (f : Obs -> list Z) (l : list Obs) : list Z := concat (map f l).
Definition of_call (f : Obs -> list Z) (id : Z) (l : list Obs) : list Z := stream f (List.filter (fun o => obs_id o =? id) l).

Abbreviation taken_in := (stream in_bytes).
Abbreviation handed_out := (stream out_bytes).
Abbreviation taken_by := (of_call in_bytes).
Abbreviation handed_by := (of_call out_bytes).

Lemma stream_app f l1 l2 : stream f (l1 ++ l2) = stream f l1 ++ stream f l2.
Proof. unfold stream. by rewrite map_app, concat_app. Qed.

Lemma stream_nil f : stream f [] = [].
Proof. done. Qed.

Lemma stream_one f o : stream f [o] = f o.
Proof. apply app_nil_r. Qed.

Lemma of_call_app f id l1 l2 : of_call f id (l1 ++ l2) = of_call f id l1 ++ of_call f id l2.
Proof. unfold of_call. by rewrite List.filter_app, stream_app. Qed.

Lemma of_call_other f id l : (forall o, o ∈ l -> obs_id o <> id) -> of_call f id l = [].
Proof.
  unfold of_call. induction l as [|o l IH]; intros H; [done|]. cbn [List.filter]. destruct (Z.eqb_spec (obs_id o) id) as [E|].
  - by destruct (H o ltac:(by left)).
  - apply IH. intros. apply H. by right.
Qed.

Lemma of_call_own f id l : (forall o, o ∈ l -> obs_id o = id) -> of_call f id l = stream f l.
Proof.
  unfold of_call. induction l as [|o l IH]; intros H; [done|]. cbn [List.filter]. rewrite (H o ltac:(by left)), Z.eqb_refl.
  change (stream f (o :: ?k)) with (f o ++ stream f k). rewrite IH by (intros; apply H; by right). done.
Qed.

#[global] Arguments stream : simpl never.
#[global] Arguments of_call : simpl never.

(** * What a call has to answer for *)
Definition answer_ok (L : list Obs) (id : Z) (c : Call) (r : Outcome) : Prop :=
  match c with
  | Write src =>
      handed_by id L = [] /\
      match r with
      | Done n => 0 <= n <= zlen src /\ taken_by id L = take (Z.to_nat n) src /\
          (is_atomic src -> src <> [] -> n = zlen src /\ Accepted id src ∈ L)
      | Failed _ => taken_by id L = []
      | CommitFailed _ => False
      end
  | Read m | ReadWithCommit m =>
      taken_by id L = [] /\
      match r with Done n => zlen (handed_by id L) = n /\ n <= m | _ => handed_by id L = [] end
  end.

(** The answer a task is about to give *)
Definition pending (a : At) : option Outcome :=
  match a with WakeWriters _ r | PassOn r | PassWake r | WakeReader (Some r) => Some r | _ => None end.

Definition copying (a : At) : bool := match a with Copying _ => true | _ => false end.

Definition on_track (L : list Obs) (t : Task) : Prop :=
  match pending (t_at t) with
  | Some r => answer_ok L (t_id t) (t_call t) r
  | None =>
      handed_by (t_id t) L = [] /\
      match t_call t with
      | Write src => 0 <= t_written t <= zlen src /\ taken_by (t_id t) L = take (Z.to_nat (t_written t)) src /\
          (is_atomic src -> t_written t = 0) /\ src <> [] /\ copying (t_at t) = false
      | Read m => t_written t = 0 /\ taken_by (t_id t) L = [] /\ 0 <= m /\ copying (t_at t) = false
      | ReadWithCommit m => t_written t = 0 /\ taken_by (t_id t) L = [] /\ 0 <= m /\ match t_at t with Copying b => zlen b <= m | _ => True end
      end
  end.

Definition same_call (t t' : Task) : Prop :=
  t_id t' = t_id t /\ t_cur t' = t_cur t /\ t_handle t' = t_handle t /\ t_call t' = t_call t /\ t_nonblock t' = t_nonblock t.

(** Calls other than [id] are not touched by observations of [id]. *)
Lemma answer_ok_other L obs id c r : (forall o, o ∈ obs -> obs_id o <> id) -> answer_ok L id c r -> answer_ok (L ++ obs) id c r.
Proof.
  intros Ho. unfold answer_ok. rewrite !of_call_app, !(of_call_other _ id obs), !app_nil_r by done.
  destruct c; [done|done|]. destruct r; [|done..]. intros (? & ? & ? & Ha). do 3 (split; [done|]). intros Hat Hn. destruct (Ha Hat Hn). split; [done|].
  apply elem_of_app. by left.
Qed.

Lemma on_track_other L obs t : (forall o, o ∈ obs -> obs_id o <> t_id t) -> on_track L t -> on_track (L ++ obs) t.
Proof.
  intros Ho. unfold on_track. destruct (pending (t_at t)); [by apply answer_ok_other|].
  by rewrite !of_call_app, !(of_call_other _ (t_id t) obs), !app_nil_r.
Qed.

(** * Effect of a step *)

(** The read transaction: untouched, opened or closed *)
Inductive flight (t : Task) (p p' : PipeInner) : Next -> Prop :=
| flight_same n : copying (t_at t) = false -> read_inflight p' = read_inflight p ->
    (read_inflight p = true -> contents p `prefix_of` contents p') ->
    (forall t', n = Goto t' -> copying (t_at t') = false) -> flight t p p' n
| flight_open t' b : copying (t_at t) = false -> read_inflight p = false -> read_inflight p' = true ->
    t_at t' = Copying b -> b `prefix_of` contents p' -> b <> [] -> flight t p p' (Goto t')
| flight_close n : copying (t_at t) = true -> read_inflight p' = false ->
    (forall t', n = Goto t' -> copying (t_at t') = false) -> flight t p p' n.

Record effect (L : list Obs) (t : Task) (p : Pipe) (o : Step) : Prop := {
  ef_ring : ring_ok (inner (o_pipe o));
  ef_cap : capacity (inner (o_pipe o)) = capacity (inner p);
  ef_counts : readers (o_pipe o) = readers p /\ writers (o_pipe o) = writers p;
  ef_stream : handed_out (o_obs o) ++ contents (inner (o_pipe o)) = contents (inner p) ++ taken_in (o_obs o);
  ef_obs : forall x, x ∈ o_obs o -> obs_id x = t_id t /\ forall c r, x <> Returned (t_id t) c r;
  ef_flight : flight t (inner p) (inner (o_pipe o)) (o_next o);
  ef_next : match o_next o with
            | Goto t' => same_call t t' /\ on_track (L ++ o_obs o) t'
            | Return r => answer_ok (L ++ o_obs o) (t_id t) (t_call t) r
            end;
}.

(** A step that moves nothing in the ring *)
Lemma quiet_effect L t p p' ps n : ring_ok (inner p) -> inner p' = inner p -> readers p' = readers p -> writers p' = writers p ->
  copying (t_at t) = false -> (forall t', n = Goto t' -> copying (t_at t') = false) ->
  (match n with Goto t' => same_call t t' /\ on_track L t' | Return r => answer_ok L (t_id t) (t_call t) r end) ->
  effect L t p (mkStep p' ps [] n).
Proof.
  intros Hr Hi Hrd Hwr Hc Hn Hnext. split; cbn; rewrite ?Hi, ?stream_nil, ?app_nil_r.
  - done.
  - done.
  - done.
  - done.
  - intros x Hx. by apply elem_of_nil in Hx.
  - by apply flight_same.
  - done.
Qed.

Lemma on_track_at L t a : pending (t_at t) = None -> pending a = None -> copying a = false -> on_track L t -> on_track L (at_ a t).
Proof.
  intros Ht Ha Hc. unfold on_track. cbn. rewrite Ht, Ha, Hc. destruct (t_call t); intuition. by destruct a.
Qed.

Lemma same_call_at t a : same_call t (at_ a t).
Proof. done. Qed.

(** The write calls in [on_track] *)
Lemma on_track_short L t src e : pending (t_at t) = None -> t_call t = Write src -> on_track L t ->
  answer_ok L (t_id t) (t_call t) (short (t_written t) e).
Proof.
  intros Hp Hc. unfold on_track, answer_ok, short. rewrite Hp, Hc. intros (Hh & Hw & Ht & Ha & Hs & _). split; [done|].
  destruct (Z.ltb_spec 0 (t_written t)).
  - split; [done|]. split; [done|]. intros Hat. rewrite (Ha Hat) in *. lia.
  - rewrite Ht. by replace (t_written t) with 0 by lia.
Qed.

Lemma on_track_failed L t e : pending (t_at t) = None -> t_written t = 0 -> on_track L t -> answer_ok L (t_id t) (t_call t) (Failed e).
Proof.
  intros Hp H0. unfold on_track, answer_ok. rewrite Hp. intros [Hh Ht]. destruct (t_call t); [intuition..|]. split; [done|]. destruct Ht as (_ & -> & _). by rewrite H0.
Qed.

Lemma on_track_eof L t m : pending (t_at t) = None -> (t_call t = Read m \/ t_call t = ReadWithCommit m) -> on_track L t ->
  answer_ok L (t_id t) (t_call t) (Done 0).
Proof. intros Hp Hc. unfold on_track, answer_ok. rewrite Hp. intros [Hh Ht]. rewrite Hh. destruct Hc as [Hc|Hc]; rewrite Hc in *; intuition. Qed.

Lemma on_track_reader L t : pending (t_at t) = None -> call_end (t_call t) = ReadEnd -> on_track L t -> t_written t = 0.
Proof. intros Hp Hc. unfold on_track. rewrite Hp. intros [_ Ht]. destruct (t_call t); [intuition..|done]. Qed.

(** What follows a section that has to wait *)
Definition waits (otherwise : Task -> Pipe -> Procs -> list Obs -> option Step) : Prop :=
  forall t p ps obs, exists p' ps' a, otherwise t p ps obs = Some (mkStep p' ps' obs (Goto (at_ a t))) /\
    inner p' = inner p /\ readers p' = readers p /\ writers p' = writers p /\ pending a = None /\ copying a = false.

Lemma then_prepare_waits : waits then_prepare.
Proof. intros t p ps obs. by exists p, ps, Preparing. Qed.

Lemma with_queue_frame e q p : inner (with_queue e q p) = inner p /\ readers (with_queue e q p) = readers p /\ writers (with_queue e q p) = writers p.
Proof. by destruct e. Qed.

Lemma then_arm_waits cap : waits (then_arm cap).
Proof.
  intros t p ps obs. unfold then_arm. destruct (try_prepare_total (t_cur t) cap (queue_of (call_end (t_call t)) p) ps) as [[[armed q] ps'] ->]. cbn [mbind option_bind].
  destruct (with_queue_frame (call_end (t_call t)) q p) as (? & ? & ?). eexists _, _, _. split; [done|]. do 3 (split; [done|]). destruct armed as [[]|]; done.
Qed.

Lemma wake_one_at_frame e p ps : let o := wake_one_at e p ps in inner o.1 = inner p /\ readers o.1 = readers p /\ writers o.1 = writers p.
Proof. unfold wake_one_at, wake_one. destruct (wake_one_loop _ _) as [[? ?] ?]. cbn. apply with_queue_frame. Qed.

Lemma wake_all_at_frame e p ps : let o := wake_all_at e p ps in inner o.1 = inner p /\ readers o.1 = readers p /\ writers o.1 = writers p.
Proof. unfold wake_all_at, wake_all. destruct (wake_all_loop _ _ _) as [? ?]. cbn. apply with_queue_frame. Qed.

Lemma of_call_snoc f L o : of_call f (obs_id o) (L ++ [o]) = of_call f (obs_id o) L ++ f o.
Proof.
  rewrite of_call_app, (of_call_own f (obs_id o) [o]); [|by intros o' ->%list_elem_of_singleton].
  change (stream f [o]) with (f o ++ []). by rewrite app_nil_r.
Qed.

(** A single observation that is not an answer *)
Lemma one_obs id o : obs_id o = id -> (forall i c r, o <> Returned i c r) -> forall x, x ∈ [o] -> obs_id x = id /\ forall c r, x <> Returned id c r.
Proof. intros Hi Ho x ->%list_elem_of_singleton. by split. Qed.

Section section_effects.
Context (otherwise : Task -> Pipe -> Procs -> list Obs -> option Step) (Hwait : waits otherwise).
Context (L : list Obs) (t : Task) (p : Pipe) (ps : Procs).
Context (Hring : ring_ok (inner p)) (Htrack : on_track L t) (Hpend : pending (t_at t) = None) (Hcopy : copying (t_at t) = false).

Lemma otherwise_effect : exists o, otherwise t p ps [] = Some o /\ effect L t p o.
Proof.
  destruct (Hwait t p ps []) as (p' & ps' & a & -> & Hi & Hr & Hw & Ha & Hc). eexists. split; [done|].
  apply quiet_effect; try done; [by intros t' [= <-]|]. split; [done|]. by apply on_track_at.
Qed.

Lemma return_effect r : answer_ok L (t_id t) (t_call t) r -> effect L t p (mkStep p ps [] (Return r)).
Proof. intros. by apply quiet_effect. Qed.

Lemma goto_effect a : pending a = None -> copying a = false -> effect L t p (mkStep p ps [] (Goto (at_ a t))).
Proof. intros. apply quiet_effect; try done; [by intros t' [= <-]|]. split; [done|]. by apply on_track_at. Qed.

Lemma read_section_effect m : t_call t = Read m -> exists o, read_section otherwise m t p ps = Some o /\ effect L t p o.
Proof.
  intros Hcall. pose proof Htrack as Ht. unfold on_track in Ht. rewrite Hpend, Hcall in Ht. destruct Ht as (Hh & Hw & Htk & Hm & _). unfold read_section.
  destruct (Z.ltb_spec 0 (len (inner p))).
  - destruct (read_spec m (inner p) Hring Hm) as (i & -> & Hi & Hc & Hcap & Hfl). cbn [mbind option_bind]. eexists. split; [done|].
    set (b := if read_inflight (inner p) then [] else take (Z.to_nat m) (contents (inner p))) in *. split; cbn; [done|done|done| | | |].
    + rewrite !stream_one, Hc. subst b. destruct (read_inflight (inner p)); cbn; [by rewrite app_nil_r|]. by rewrite !app_nil_r, take_drop.
    + by apply one_obs.
    + apply flight_same; [done|done| |by intros t' [= <-]]. intros E. by rewrite Hc, E.
    + split; [done|]. unfold on_track. cbn. unfold answer_ok. rewrite Hcall.
      change (t_id t) with (obs_id (Delivered (t_id t) b)). rewrite !of_call_snoc. cbn. rewrite Htk, Hh. split; [done|]. split; [done|].
      subst b. unfold zlen. destruct (read_inflight (inner p)); cbn [app length]; [lia|]. rewrite length_take. lia.
  - destruct (Z.eqb_spec (writers p) 0); [eexists; split; [done|]; apply return_effect; eapply on_track_eof; eauto|].
    destruct (t_nonblock t); [eexists; split; [done|]; by apply return_effect, on_track_failed|]. apply otherwise_effect.
Qed.

Lemma commit_section_effect m : t_call t = ReadWithCommit m -> exists o, commit_section otherwise m t p ps = Some o /\ effect L t p o.
Proof.
  intros Hcall. pose proof Htrack as Ht. unfold on_track in Ht. rewrite Hpend, Hcall in Ht. destruct Ht as (Hh & Hw & Htk & Hm & _). unfold commit_section.
  destruct (Z.ltb_spec 0 (len (inner p))), (read_inflight (inner p)) eqn:Hfl; cbn [andb negb].
  2: { rewrite begin_spec by done. cbn [mbind option_bind]. destruct (Z.eqb_spec m 0); (eexists; split; [done|]).
    - replace (with_inner (inner p) p) with p by (by destruct p). by apply goto_effect.
    - pose proof (zlen_contents _ Hring) as Hl. split; cbn; [by apply with_inflight_ok|done|done|by rewrite !stream_nil, app_nil_r|by intros x ?%elem_of_nil| |].
      + eapply flight_open; [done|done|done|done|apply prefix_take|]. intros E%(f_equal length). rewrite length_take in E. unfold zlen in Hl. cbn in E. lia.
      + split; [done|]. unfold on_track. cbn. rewrite app_nil_r, Hcall. do 4 (split; [done|]). unfold zlen. rewrite length_take. lia. }
  all: destruct (Z.eqb_spec (writers p) 0); [eexists; split; [done|]; apply return_effect; eapply on_track_eof; eauto|];
    destruct (t_nonblock t); [eexists; split; [done|]; by apply return_effect, on_track_failed|]; apply otherwise_effect.
Qed.
End section_effects.

(** ** Writers *)
Section write_effects.
Context (L : list Obs) (t : Task) (p : Pipe) (ps : Procs) (src : list Z).
Context (Hring : ring_ok (inner p)) (Htrack : on_track L t) (Hpend : pending (t_at t) = None) (Hcopy : copying (t_at t) = false).
Context (Hcall : t_call t = Write src).

Lemma write_effect chunk i p' ps' n : ring_ok i -> contents i = contents (inner p) ++ chunk -> same_frame (inner p) i ->
  inner p' = i -> readers p' = readers p -> writers p' = writers p -> (forall t', n = Goto t' -> copying (t_at t') = false) ->
  (match n with
   | Goto t' => same_call t t' /\ on_track (L ++ [Accepted (t_id t) chunk]) t'
   | Return r => answer_ok (L ++ [Accepted (t_id t) chunk]) (t_id t) (t_call t) r
   end) ->
  effect L t p (mkStep p' ps' [Accepted (t_id t) chunk] n).
Proof.
  intros Hi Hc [Hcap Hfl] <- Hr Hw Hn Hnext. split; cbn; [done|done|done| | | |done].
  - by rewrite Hc, !stream_one.
  - by apply one_obs.
  - apply flight_same; [done|done| |done]. intros _. rewrite Hc. by apply prefix_app_r.
Qed.

(** The bytes a call has written so far, with the next chunk *)
Definition rest : list Z := drop (Z.to_nat (t_written t)) src.

Lemma written_range : 0 <= t_written t <= zlen src.
Proof. unfold on_track in Htrack. rewrite Hpend, Hcall in Htrack. by destruct Htrack as (_ & ? & _). Qed.

Lemma zlen_rest : zlen rest = zlen src - t_written t.
Proof. apply zlen_drop, written_range. Qed.

Lemma taken_chunk n : 0 <= n <= zlen rest ->
  handed_by (t_id t) (L ++ [Accepted (t_id t) (take (Z.to_nat n) rest)]) = [] /\
  taken_by (t_id t) (L ++ [Accepted (t_id t) (take (Z.to_nat n) rest)]) = take (Z.to_nat (t_written t + n)) src.
Proof.
  intros Hn. pose proof written_range. unfold on_track in Htrack. rewrite Hpend, Hcall in Htrack. destruct Htrack as (Hh & _ & Htk & _).
  set (o := Accepted (t_id t) (take (Z.to_nat n) rest)). change (t_id t) with (obs_id o). rewrite !of_call_snoc. cbn. rewrite Hh, Htk. split; [done|].
  unfold rest. rewrite take_take_drop. f_equal. lia.
Qed.

Lemma wrote_track n a : is_atomic src = false -> 0 <= n <= zlen rest -> pending a = None -> copying a = false ->
  on_track (L ++ [Accepted (t_id t) (take (Z.to_nat n) rest)]) (at_ a (having_written (t_written t + n) t)).
Proof.
  intros Hat Hn Ha Hc. destruct (taken_chunk n Hn) as [Hh Htk]. pose proof zlen_rest as Hr. pose proof written_range.
  unfold on_track in Htrack. rewrite Hpend, Hcall in Htrack. destruct Htrack as (_ & _ & _ & _ & Hs & _).
  unfold on_track. cbn. rewrite Ha, Hcall. split; [done|]. split; [lia|]. split; [done|]. rewrite Hat. done.
Qed.

Lemma wrote_answer n : is_atomic src = false -> 0 <= n <= zlen rest ->
  answer_ok (L ++ [Accepted (t_id t) (take (Z.to_nat n) rest)]) (t_id t) (t_call t) (Done (t_written t + n)).
Proof.
  intros Hat Hn. destruct (taken_chunk n Hn) as [Hh Htk]. pose proof zlen_rest as Hr. pose proof written_range.
  unfold answer_ok. rewrite Hcall. split; [done|]. split; [lia|]. split; [done|]. by rewrite Hat.
Qed.

Lemma short_done w e : 0 < w -> short w e = Done w.
Proof. intros. unfold short. by destruct (Z.ltb_spec 0 w); [|lia]. Qed.

Context (otherwise : Task -> Pipe -> Procs -> list Obs -> option Step) (Hwait : waits otherwise).

Lemma write_first_effect : is_atomic src = false -> exists o, write_first otherwise src t p ps = Some o /\ effect L t p o.
Proof.
  intros Hat. unfold write_first. fold rest. pose proof zlen_rest as Hrl. pose proof written_range as Hwr.
  destruct (Z.eqb_spec (readers p) 0); [eexists; split; [done|]; apply return_effect; [done..|by eapply on_track_short]|].
  rewrite space_spec by done. cbn [mbind option_bind]. destruct (Z.ltb_spec 0 (free_space (inner p))).
  - destruct (write_spec rest (inner p) Hring) as (i & -> & Hi & Hc & Hf). cbn [mbind option_bind]. set (k := Z.min (zlen rest) (free_space (inner p))) in *.
    eexists. split; [done|]. apply (write_effect _ i); try done; [by intros t' [= <-]|]. split; [done|].
    destruct (Z.eqb_spec (t_written t + k) (zlen src)); [|destruct (t_nonblock t)].
    + apply wrote_answer; [done|lia].
    + rewrite short_done by lia. apply wrote_answer; [done|lia].
    + apply wrote_track; try done. lia.
  - destruct (t_nonblock t); [eexists; split; [done|]; apply return_effect; [done..|by eapply on_track_short]|]. by apply otherwise_effect.
Qed.

Lemma write_second_effect : is_atomic src = false -> exists o, write_second otherwise src t p ps = Some o /\ effect L t p o.
Proof.
  intros Hat. unfold write_second. fold rest. pose proof zlen_rest as Hrl. pose proof written_range as Hwr.
  destruct (Z.eqb_spec (readers p) 0); [eexists; split; [done|]; apply return_effect; [done..|by eapply on_track_short]|].
  rewrite space_spec by done. cbn [mbind option_bind]. destruct (Z.ltb_spec 0 (free_space (inner p))).
  - destruct (write_spec rest (inner p) Hring) as (i & -> & Hi & Hc & Hf). cbn [mbind option_bind]. set (k := Z.min (zlen rest) (free_space (inner p))) in *.
    destruct (wake_one_at_frame ReadEnd (with_inner i p) ps) as (Hw1 & Hw2 & Hw3). destruct (wake_one_at ReadEnd (with_inner i p) ps) as [p1 ps1]. cbn in Hw1, Hw2, Hw3.
    destruct (Z.eqb_spec (t_written t + k) (zlen src)).
    { eexists. split; [done|]. apply (write_effect _ i); try done. apply wrote_answer; [done|lia]. }
    rewrite Hw1, space_spec by done. cbn [mbind option_bind]. assert (H0 : free_space i = 0).
    { pose proof (zlen_contents _ Hring) as Hl. pose proof (zlen_contents _ Hi) as Hl'. rewrite Hc, zlen_app, zlen_take in Hl' by lia. destruct Hf as [Hcap _]. unfold free_space in *. lia. }
    rewrite H0. cbn. destruct (t_nonblock t); [eexists; split; [done|]; apply (write_effect _ i); try done; rewrite short_done by lia; apply wrote_answer; [done|lia]|].
    destruct (Hwait (having_written (t_written t + k) t) p1 ps1 [Accepted (t_id t) (take (Z.to_nat k) rest)]) as (p2 & ps2 & a & -> & Hp2 & Hr2 & Hwr2 & Ha & Hca).
    eexists. split; [done|]. apply (write_effect _ i); try done; [congruence..|by intros t' [= <-]|]. split; [done|]. apply wrote_track; try done. lia.
  - destruct (t_nonblock t); [eexists; split; [done|]; apply return_effect; [done..|by eapply on_track_short]|]. by apply otherwise_effect.
Qed.

Lemma atomic_section_effect : is_atomic src = true -> exists o, atomic_section otherwise src t p ps = Some o /\ effect L t p o.
Proof.
  intros Hat. unfold atomic_section. pose proof Htrack as Ht. unfold on_track in Ht. rewrite Hpend, Hcall in Ht. destruct Ht as (Hh & _ & Htk & H0 & Hne & _).
  specialize (H0 ltac:(by rewrite Hat)). rewrite H0 in Htk.
  destruct (Z.eqb_spec (readers p) 0); [eexists; split; [done|]; apply return_effect; [done..|by apply on_track_failed]|].
  rewrite space_spec by done. cbn [mbind option_bind]. destruct (Z.leb_spec (zlen src) (free_space (inner p))).
  - destruct (write_spec src (inner p) Hring) as (i & -> & Hi & Hc & Hf). cbn [mbind option_bind]. rewrite Z.min_l in * by done. rewrite Z.eqb_refl.
    assert (Hts : take (Z.to_nat (zlen src)) src = src) by (apply take_ge; unfold zlen; lia). rewrite Hts in Hc.
    eexists. split; [done|]. apply (write_effect _ i); try done; [by intros t' [= <-]|]. split; [done|]. unfold on_track. cbn. unfold answer_ok. rewrite Hcall.
    set (o := Accepted (t_id t) src). change (t_id t) with (obs_id o). rewrite !of_call_snoc. cbn. rewrite Hh, Htk, Hts.
    split; [done|]. split; [pose proof (zlen_nonneg src); lia|]. split; [done|]. intros _ _. split; [done|]. apply elem_of_app. right. by left.
  - destruct (t_nonblock t); [eexists; split; [done|]; apply return_effect; [done..|by apply on_track_failed]|]. by apply otherwise_effect.
Qed.
End write_effects.

(** ** Every step *)
Definition copy_open (t : Task) (p : PipeInner) : Prop :=
  forall b, t_at t = Copying b -> read_inflight p = true /\ b `prefix_of` contents p /\ b <> [].

Section step_effects.
Context (L : list Obs) (t : Task) (p : Pipe) (ps : Procs).
Context (Hring : ring_ok (inner p)) (Htrack : on_track L t).

Lemma interrupt_effect : pending (t_at t) = None -> copying (t_at t) = false -> effect L t p (interrupt t p ps).
Proof.
  intros Hp Hc. unfold interrupt. destruct (t_call t) eqn:Hcall.
  3: { apply return_effect; try done. by eapply on_track_short. }
  all: destruct (t_waited t); apply quiet_effect; try done; try (by intros t' [= <-]).
  all: try (split; [done|]; unfold on_track; cbn); apply on_track_failed; try done; eapply on_track_reader; try done; by rewrite Hcall.
Qed.

Lemma top_effect : t_at t = Top -> effect L t p (top t p ps).
Proof.
  intros Hat. assert (Hp : pending (t_at t) = None) by (by rewrite Hat). assert (Hc : copying (t_at t) = false) by (by rewrite Hat).
  pose proof (interrupt_effect Hp Hc). pose proof (goto_effect L t p ps Hring Htrack Hp Hc First eq_refl eq_refl). unfold top. destruct (t_call t) eqn:Hcall.
  1,2: by destruct (task_interrupted ps t). destruct ((zlen src <=? t_written t) && negb (is_atomic src)) eqn:Hd; [|by destruct (task_interrupted ps t)].
  apply andb_true_iff in Hd as [Hd Hna]. apply Z.leb_le in Hd. unfold on_track in Htrack. rewrite Hp, Hcall in Htrack. destruct Htrack as (Hh & Hw & Htk & _).
  apply return_effect; try done. unfold answer_ok. rewrite Hcall. do 3 (split; [done|]). by destruct (is_atomic src).
Qed.

Lemma first_pass_effect : t_at t = First -> exists o, first_pass t p ps = Some o /\ effect L t p o.
Proof.
  intros Hat. assert (Hp : pending (t_at t) = None) by (by rewrite Hat). assert (Hc : copying (t_at t) = false) by (by rewrite Hat). unfold first_pass.
  pose proof then_prepare_waits. destruct (t_call t) as [m|m|src] eqn:Hcall; [by apply read_section_effect|by apply commit_section_effect|].
  destruct (is_atomic src) eqn:Ha; [by apply atomic_section_effect|by apply write_first_effect].
Qed.

Lemma second_pass_effect cap : t_at t = Second cap -> exists o, second_pass cap t p ps = Some o /\ effect L t p o.
Proof.
  intros Hat. assert (Hp : pending (t_at t) = None) by (by rewrite Hat). assert (Hc : copying (t_at t) = false) by (by rewrite Hat). unfold second_pass.
  pose proof (then_arm_waits cap). destruct (t_call t) as [m|m|src] eqn:Hcall; [by apply read_section_effect|by apply commit_section_effect|].
  destruct (is_atomic src) eqn:Ha; [by apply atomic_section_effect|by apply write_second_effect].
Qed.

Lemma prepare_effect al : t_at t = Preparing -> effect L t p (prepare_step al t p ps).
Proof.
  intros Hat. assert (Hp : pending (t_at t) = None) by (by rewrite Hat). assert (Hc : copying (t_at t) = false) by (by rewrite Hat). unfold prepare_step.
  destruct (prepare_current_wait_capacity _ _ _); [by apply goto_effect|]. apply return_effect; try done. destruct (t_call t) eqn:Hcall.
  3: { rewrite <- Hcall. by eapply on_track_short. }
  all: pose proof (on_track_reader L t Hp ltac:(by rewrite Hcall) Htrack) as H0; rewrite H0; rewrite <- Hcall; by apply on_track_failed.
Qed.

Lemma refused_effect : t_at t = Refused -> effect L t p (refused t p ps).
Proof.
  intros Hat. assert (Hp : pending (t_at t) = None) by (by rewrite Hat). assert (Hc : copying (t_at t) = false) by (by rewrite Hat). unfold refused.
  destruct (Z.ltb_spec 0 (t_written t)).
  { apply return_effect; try done. destruct (t_call t) eqn:Hcall.
    3: { rewrite <- Hcall, <- (short_done _ NoMemory) by done. by eapply on_track_short. }
    all: pose proof (on_track_reader L t Hp ltac:(by rewrite Hcall) Htrack); lia. }
  assert (Hw : t_written t = 0). { destruct (t_call t) eqn:Hcall; [apply (on_track_reader L t Hp ltac:(by rewrite Hcall) Htrack)..|]. pose proof (written_range L t src Htrack Hp Hcall). lia. }
  assert (Hfail : forall e, effect L t p (mkStep p ps [] (Return (Failed e)))) by (intros e; apply return_effect; try done; by apply on_track_failed).
  destruct (t_cur t); [|done]. destruct (closed _); [done|]. destruct (task_interrupted ps t); [by apply interrupt_effect|by apply goto_effect].
Qed.

Lemma wait_effect : (t_at t = Asleep -> effect L t p (asleep t p ps)) /\ (t_at t = Awake -> effect L t p (awake t p ps)).
Proof.
  split; intros Hat; (assert (Hp : pending (t_at t) = None) by (by rewrite Hat)); (assert (Hc : copying (t_at t) = false) by (by rewrite Hat)).
  - unfold asleep. destruct (t_cur t) as [pid|]; [|by apply goto_effect]. destruct (wait_resolved ps pid); [by apply goto_effect|].
    apply quiet_effect; try done. intros t' [= <-]. done.
  - unfold awake. destruct (finish_wait_tail _ _ _) as [q ps']. destruct (with_queue_frame (call_end (t_call t)) q p) as (? & ? & ?).
    apply quiet_effect; try done; [intros t' [= <-]; done|]. pose proof (on_track_at L t Top Hp eq_refl eq_refl Htrack) as Ht.
    destruct (t_call t) eqn:Hcall; (split; [done|]); unfold on_track in *; cbn in *; by rewrite Hcall in *.
Qed.

Lemma copied_effect copyout b : t_at t = Copying b -> copy_open t (inner p) -> exists o, copied copyout b t p ps = Some o /\ effect L t p o.
Proof.
  intros Hat Hopen. destruct (Hopen b Hat) as (Hfl & [k Hk] & Hne). pose proof (zlen_contents _ Hring) as Hl. rewrite Hk, zlen_app in Hl. pose proof (zlen_nonneg b). pose proof (zlen_nonneg k).
  assert (Hc : copying (t_at t) = true) by (by rewrite Hat). unfold on_track in Htrack. rewrite Hat in Htrack. cbn in Htrack.
  destruct Htrack as [Hh Ht]. destruct (t_call t) as [m|m|src] eqn:Hcall; [by destruct Ht as (_ & _ & _ & ?)| |by destruct Ht as (_ & _ & _ & _ & ?)]. destruct Ht as (_ & Htk & _ & Hbm).
  unfold copied. destruct copyout as [e|].
  - destruct (finish_spec (zlen b) false (inner p) Hring ltac:(lia) Hfl) as (i & -> & Hi & Hci & Hcap & Hfl'). eexists. split; [done|].
    split; cbn; [done|done|done|by rewrite Hci, !stream_nil, app_nil_r|by intros x ?%elem_of_nil|by apply flight_close; [..|intros t' [= <-]]|].
    split; [done|]. unfold on_track. cbn. rewrite app_nil_r. unfold answer_ok. by rewrite Hcall.
  - destruct (finish_spec (zlen b) true (inner p) Hring ltac:(lia) Hfl) as (i & -> & Hi & Hci & Hcap & Hfl'). eexists. split; [done|].
    split; cbn; [done|done|done| |by apply one_obs|by apply flight_close; [..|intros t' [= <-]]|].
    + rewrite Hci, Hk, !stream_one. cbn. rewrite app_nil_r. unfold zlen. by rewrite Nat2Z.id, drop_app_length.
    + split; [done|]. unfold on_track. cbn. unfold answer_ok. rewrite Hcall. set (o := Delivered (t_id t) b). change (t_id t) with (obs_id o). rewrite !of_call_snoc. cbn. by rewrite Htk, Hh.
Qed.

(** No step aborts. *)
Lemma step_effect al copyout : copy_open t (inner p) -> exists o, step al copyout t p ps = Some o /\ effect L t p o.
Proof.
  intros Hopen. unfold step. destruct (t_at t) as [| | |cap| | | |b|pass r|r|r|r] eqn:Hat.
  - eexists. split; [done|]. by apply top_effect.
  - by apply first_pass_effect.
  - eexists. split; [done|]. by apply prepare_effect.
  - by apply second_pass_effect.
  - eexists. split; [done|]. by apply refused_effect.
  - eexists. split; [done|]. by apply (proj1 wait_effect).
  - eexists. split; [done|]. by apply (proj2 wait_effect).
  - by apply copied_effect.
  - destruct (wake_all_at_frame WriteEnd p ps) as (? & ? & ?). destruct (wake_all_at WriteEnd p ps) as [p' ps']. eexists. split; [done|].
    unfold on_track in Htrack. rewrite Hat in Htrack. destruct pass; apply quiet_effect; try done; rewrite ?Hat; try done; by intros t' [= <-].
  - eexists. split; [done|]. unfold on_track in Htrack. rewrite Hat in Htrack. destruct (data_left p); apply quiet_effect; try done; rewrite ?Hat; try done; by intros t' [= <-].
  - destruct (wake_one_at_frame ReadEnd p ps) as (? & ? & ?). destruct (wake_one_at ReadEnd p ps) as [p' ps']. eexists. split; [done|].
    unfold on_track in Htrack. rewrite Hat in Htrack. apply quiet_effect; try done; by rewrite Hat.
  - destruct (wake_one_at_frame ReadEnd p ps) as (? & ? & ?). destruct (wake_one_at ReadEnd p ps) as [p' ps']. eexists. split; [done|].
    destruct r as [r|]; [unfold on_track in Htrack; rewrite Hat in Htrack; apply quiet_effect; try done; by rewrite Hat|].
    apply quiet_effect; try done; [by rewrite Hat|by intros t' [= <-]|]. split; [done|]. apply on_track_at; try done. by rewrite Hat.
Qed.
End step_effects.
