(* ===== verification/PipeTrace.v ===== *)
(** The invariant of a pipe with its tasks and handles, kept by every event, and
    the counts of its ends. *)

From Stdlib Require Import ZArith Lia.
From stdpp Require Import base list list_numbers numbers gmap.
From S2P Require Import Prelude Machine Waiting WaitQueue Pipe PipeFacts PipeCalls PipeRun.

Definition holds (hs : gmap Z PipeHandle) (t : Task) : Prop :=
  exists hd, hs !! t_handle t = Some hd /\ end_type hd = call_end (t_call t).

Record task_ok (s : System) (tid : Z) (t : Task) : Prop := {
  tk_track : on_track (log s) t;
  tk_open : copy_open t (inner (pipe s));
  tk_id : t_id t < next_call s;
  tk_cur : t_cur t = Some tid \/ t_cur t = None;
  tk_handle : holds (handles s) t;
}.

Record base (s : System) : Prop := {
  bs_ring : ring_ok (inner (pipe s));
  bs_cap : PIPE_BUF <= capacity (inner (pipe s));
  bs_stream : handed_out (log s) ++ contents (inner (pipe s)) = taken_in (log s);
  bs_task : forall tid t, tasks s !! tid = Some t -> task_ok s tid t;
  bs_ids : forall tid tid' t t', tasks s !! tid = Some t -> tasks s !! tid' = Some t' -> t_id t = t_id t' -> tid = tid';
  bs_fly : read_inflight (inner (pipe s)) = true -> exists tid t, tasks s !! tid = Some t /\ copying (t_at t) = true;
  bs_one : forall tid tid' t t', tasks s !! tid = Some t -> tasks s !! tid' = Some t' ->
    copying (t_at t) = true -> copying (t_at t') = true -> tid = tid';
  bs_log : forall o, o ∈ log s -> obs_id o < next_call s;
  bs_ret : forall id c r, Returned id c r ∈ log s -> answer_ok (log s) id c r /\ forall tid t, tasks s !! tid = Some t -> t_id t <> id;
}.

Definition event_ok (e : Event) : Prop :=
  match e with
  | Start _ _ _ (Read n) | Start _ _ _ (ReadWithCommit n) => 0 <= n
  | _ => True
  end.

(** Events that leave the ring, the tasks and the log alone *)
Lemma base_same s s' : base s -> inner (pipe s') = inner (pipe s) -> tasks s' = tasks s -> next_call s' = next_call s -> log s' = log s ->
  (forall tid t, tasks s !! tid = Some t -> holds (handles s) t -> holds (handles s') t) -> base s'.
Proof.
  intros [] Hi Ht Hn Hl Hh. split; rewrite ?Hi, ?Ht, ?Hn, ?Hl; try done.
  intros tid t E. destruct (bs_task0 tid t E). split; rewrite ?Hi, ?Hn, ?Hl; try done. by eapply Hh.
Qed.

(** An answer adds no bytes to the log. *)
Lemma returned_bytes id c r L i : of_call in_bytes i (L ++ [Returned id c r]) = of_call in_bytes i L /\ of_call out_bytes i (L ++ [Returned id c r]) = of_call out_bytes i L.
Proof. rewrite !of_call_app. unfold of_call, stream. cbn. by destruct (id =? i); cbn; rewrite !app_nil_r. Qed.

Lemma returned_answer id c r L i c' r' : answer_ok L i c' r' -> answer_ok (L ++ [Returned id c r]) i c' r'.
Proof.
  unfold answer_ok. destruct (returned_bytes id c r L i) as [-> ->]. destruct c'; [done|done|]. destruct r'; [|done..].
  intros (? & ? & ? & Ha). do 3 (split; [done|]). intros ? ?. destruct Ha; [done..|]. split; [done|]. apply elem_of_app. by left.
Qed.

Lemma returned_track id c r L t : on_track L t -> on_track (L ++ [Returned id c r]) t.
Proof. unfold on_track. destruct (pending (t_at t)); [apply returned_answer|]. by destruct (returned_bytes id c r L (t_id t)) as [-> ->]. Qed.

(** A call that is in no task answers. *)
Lemma base_return s next id c r : base s -> id < next -> next_call s <= next -> (forall tid t, tasks s !! tid = Some t -> t_id t <> id) ->
  answer_ok (log s) id c r -> base (mkSys (pipe s) (procs s) (handles s) (tasks s) next (log s ++ [Returned id c r])).
Proof.
  intros [] Hid Hnext Hno Hr. split; cbn; try done.
  - rewrite !stream_app. change (stream in_bytes [Returned id c r]) with (@nil Z). change (stream out_bytes [Returned id c r]) with (@nil Z). by rewrite !app_nil_r.
  - intros tid t E. destruct (bs_task0 tid t E). split; cbn; try done; [|lia]. by apply returned_track.
  - intros o [Ho| ->%list_elem_of_singleton]%elem_of_app; [specialize (bs_log0 o Ho)|cbn]; lia.
  - intros i c' r' [Hi|[= -> -> ->]%list_elem_of_singleton]%elem_of_app; [|split; [by apply returned_answer|done]].
    destruct (bs_ret0 _ _ _ Hi) as [Hok ?]. split; [by apply returned_answer|done].
Qed.

Lemma fresh_call s f : base s -> of_call f (next_call s) (log s) = [].
Proof. intros Hb. apply of_call_other. intros o Ho. pose proof (bs_log _ Hb o Ho). lia. Qed.

(** A call enters its loop. *)
Lemma base_enter s tid t : base s -> tasks s !! tid = None -> t_id t = next_call s -> t_at t = Top -> on_track (log s) t ->
  t_cur t = Some tid \/ t_cur t = None -> holds (handles s) t ->
  base (mkSys (pipe s) (procs s) (handles s) (<[tid := t]> (tasks s)) (next_call s + 1) (log s)).
Proof.
  intros [] Htid Hid Hat Htrack Hcur Hh. split; cbn; try done.
  - intros tid' t' [[<- <-]|[? E]]%lookup_insert_Some; [split; cbn; try done; [intros b; by rewrite Hat|lia]|].
    destruct (bs_task0 tid' t' E). split; cbn; try done. lia.
  - intros t1 t2 x y [[<- <-]|[? E1]]%lookup_insert_Some [[<- <-]|[? E2]]%lookup_insert_Some Heq; [done| | |by eapply bs_ids0].
    + destruct (bs_task0 _ _ E2). lia.
    + destruct (bs_task0 _ _ E1). lia.
  - intros Hfl. destruct (bs_fly0 Hfl) as (tid' & t' & E & Hc). exists tid', t'. split; [|done]. rewrite lookup_insert_ne; [done|]. by intros <-; rewrite Htid in E.
  - intros t1 t2 x y [[<- <-]|[? E1]]%lookup_insert_Some [[<- <-]|[? E2]]%lookup_insert_Some; rewrite ?Hat; [done..|by eapply bs_one0].
  - intros o Ho. specialize (bs_log0 o Ho). lia.
  - intros i c' r' Hi. destruct (bs_ret0 _ _ _ Hi) as [Hok Hno]. split; [done|]. intros tid' t' [[<- <-]|[? E]]%lookup_insert_Some; [|by eapply Hno].
    specialize (bs_log0 _ Hi). cbn in bs_log0. lia.
Qed.

Lemma start_base tid inp h c s : base s -> event_ok (Start tid inp h c) -> base (start tid inp h c s).
Proof.
  intros Hb He. unfold start. destruct (tasks s !! tid) eqn:Htid; [done|]. destruct (handles s !! h) as [hd|] eqn:Hh; [|done].
  assert (Hno : forall tid t, tasks s !! tid = Some t -> t_id t <> next_call s) by (intros ? ? E; destruct (bs_task _ Hb _ _ E); lia).
  assert (Hgo : forall nb, bool_decide (end_type hd = call_end c) = true -> (forall src, c = Write src -> src <> []) ->
    base (mkSys (pipe s) (procs s) (handles s) (<[tid := mkTask (next_call s) (if inp then Some tid else None) h c nb false 0 Top]> (tasks s)) (next_call s + 1) (log s))).
  { intros nb Hend%bool_decide_eq_true_1 Hne. apply base_enter; try done; [|by destruct inp; [left|right]|by exists hd].
    unfold on_track. cbn. rewrite !fresh_call by done. destruct c; [done|done|]. pose proof (zlen_nonneg src). split; [done|]. split; [lia|]. do 2 (split; [done|]). split; [by apply Hne|done]. }
  destruct (bool_decide _) eqn:Hend; cbn [negb].
  2: { apply base_return; try done; [lia..|]. unfold answer_ok. rewrite !fresh_call by done. by destruct c. }
  destruct c as [n|n|[|x src]]; [by apply Hgo..| |apply Hgo; [done|by intros ? [= <-]]].
  apply base_return; try done; [lia..|]. unfold answer_ok. rewrite !fresh_call by done. do 3 (split; [done|]). by intros ? [].
Qed.

(** A task leaves its step for another place in its call or, with [None], answers. *)
Lemma base_moved s tid t o next : base s -> tasks s !! tid = Some t -> effect (log s) t (pipe s) o ->
  (forall t', next = Some t' -> o_next o = Goto t') -> (next = None -> exists r, o_next o = Return r) ->
  base (mkSys (o_pipe o) (o_procs o) (handles s) (partial_alter (fun _ => next) tid (tasks s)) (next_call s) (log s ++ o_obs o)).
Proof.
  intros Hb Htid [] Hgo Hret. pose proof (bs_task _ Hb _ _ Htid) as Hself. pose proof Hb as [].
  assert (Hlook : forall tid' t', partial_alter (fun _ => next) tid (tasks s) !! tid' = Some t' -> (tid' = tid /\ next = Some t') \/ (tid' <> tid /\ tasks s !! tid' = Some t')).
  { intros tid' t'. destruct (decide (tid' = tid)) as [->|]; [rewrite lookup_partial_alter_eq; by left|]. rewrite lookup_partial_alter_ne by done. by right. }
  assert (Hids : forall tid' t', tid' <> tid -> tasks s !! tid' = Some t' -> t_id t <> t_id t') by (intros tid' t' Hne E Heq; by apply Hne, (bs_ids0 _ _ _ _ E Htid)).
  assert (Hnew : forall t', next = Some t' -> same_call t t' /\ on_track (log s ++ o_obs o) t' /\ copy_open t' (inner (o_pipe o))).
  { intros t' E. specialize (Hgo t' E). rewrite Hgo in *. destruct ef_next as [? ?]. do 2 (split; [done|]). intros b Hb'.
    inversion ef_flight as [n Hc Hfl Hpre Hn|t1 b1 Hc Hfl Hfl' Hat' Hpre Hne|n Hc Hfl Hn]; subst; [specialize (Hn t' eq_refl); by rewrite Hb' in Hn| |specialize (Hn t' eq_refl); by rewrite Hb' in Hn].
    rewrite Hb' in Hat'. by injection Hat' as ->. }
  split; cbn.
  - done.
  - by rewrite ef_cap.
  - rewrite !stream_app, <- app_assoc, ef_stream, app_assoc, bs_stream0. done.
  - intros tid' t' [[-> E]|[Hne E]]%Hlook.
    + destruct (Hnew t' E) as ((Hi & Hc & Hh & Hca & _) & ? & ?). destruct Hself. split; cbn; try done; [by rewrite Hi|by rewrite Hc|]. unfold holds. by rewrite Hh, Hca.
    + destruct (bs_task0 tid' t' E). split; cbn; try done.
      * apply on_track_other; [|done]. intros x Hx. destruct (ef_obs x Hx) as [-> _]. by apply Hids with tid'.
      * intros b Hat. destruct (tk_open0 b Hat) as (Hfl & Hpre & Hnn). inversion ef_flight as [n Hc Hfl' Hp Hn|t1 b1 Hc Hfl' ? ? ? ?|n Hc ? ?]; subst.
        -- rewrite Hfl'. split; [done|]. split; [|done]. etrans; [done|]. by apply Hp.
        -- congruence.
        -- destruct Hne. eapply (bs_one0 _ _ _ _ E Htid); [by rewrite Hat|done].
  - intros t1 t2 x y [[-> E1]|[? E1]]%Hlook [[-> E2]|[? E2]]%Hlook Heq; [done| | |by eapply bs_ids0].
    + destruct (Hnew x E1) as ((Hi & _) & _). exfalso. apply (Hids t2 y); [done..|]. congruence.
    + destruct (Hnew y E2) as ((Hi & _) & _). exfalso. apply (Hids t1 x); [done..|]. congruence.
  - intros Hfl'. inversion ef_flight as [n Hc Hfl Hp Hn|t1 b1 Hc Hfl ? Hat' ? ?|n Hc ? ?]; subst.
    + rewrite Hfl in Hfl'. destruct (bs_fly0 Hfl') as (tid' & t' & E & Hcp). exists tid', t'. split; [|done]. rewrite lookup_partial_alter_ne; [done|]. intros <-. congruence.
    + exists tid, t1. rewrite lookup_partial_alter_eq. split; [|by rewrite Hat']. destruct next as [t2|]; [|by destruct (Hret eq_refl) as [r Hr]; congruence]. specialize (Hgo t2 eq_refl). congruence.
    + congruence.
  - assert (Hexcl : forall x tid' y, next = Some x -> tid' <> tid -> tasks s !! tid' = Some y -> copying (t_at x) = true -> copying (t_at y) = true -> False).
    { intros x tid' y E Hne Ey Hx Hy. specialize (Hgo x E). rewrite Hgo in *. inversion ef_flight as [n Hc Hfl Hp Hn|t1 b1 Hc Hfl ? Hat' ? ?|n Hc ? Hn]; subst.
      - specialize (Hn x eq_refl). congruence.
      - destruct (t_at y) eqn:Hat; try done. destruct (bs_task0 _ _ Ey). destruct (tk_open0 _ Hat). congruence.
      - specialize (Hn x eq_refl). congruence. }
    intros t1 t2 x y [[-> E1]|[? E1]]%Hlook [[-> E2]|[? E2]]%Hlook H1 H2; [done|exfalso; by eapply Hexcl..|by eapply bs_one0].
  - intros x [Hx|Hx]%elem_of_app; [by apply bs_log0|]. destruct (ef_obs x Hx) as [-> _]. apply Hself.
  - intros i c r [Hi|Hi]%elem_of_app; [|destruct (ef_obs _ Hi) as [Hid Hnr]; cbn in Hid; subst; by destruct (Hnr c r)].
    destruct (bs_ret0 _ _ _ Hi) as [Hok Hno]. split.
    + apply answer_ok_other; [|done]. intros x Hx. destruct (ef_obs x Hx) as [-> _]. by eapply Hno.
    + intros tid' t' [[-> E]|[? E]]%Hlook; [|by eapply Hno]. destruct (Hnew t' E) as ((-> & _) & _). by eapply Hno.
Qed.

Lemma run_base tid al copyout s : base s -> exists s', run tid al copyout s = Some s' /\ base s'.
Proof.
  intros Hb. unfold run. destruct (tasks s !! tid) as [t|] eqn:Htid; [|by exists s].
  pose proof (bs_task _ Hb _ _ Htid) as Ht. destruct (step_effect (log s) t (pipe s) (procs s) (bs_ring _ Hb) (tk_track _ _ _ Ht) al copyout (tk_open _ _ _ Ht)) as (o & -> & He).
  cbn [mbind option_bind]. eexists. split; [done|]. destruct (o_next o) as [t'|r] eqn:Hn.
  - apply (base_moved s tid t o (Some t')); [done..|by intros ? [= ->]|done].
  - pose proof (base_moved s tid t o None Hb Htid He ltac:(done) ltac:(eauto)) as Hb'. pose proof (ef_next _ _ _ _ He) as Ha. rewrite Hn in Ha.
    rewrite app_assoc. apply (base_return (mkSys _ _ _ _ _ _) (next_call s) (t_id t) (t_call t) r Hb'); cbn; [apply Ht|done| |done].
    intros tid' t' [Hne E]%lookup_delete_Some Heq. by apply Hne, (bs_ids _ Hb _ _ _ _ Htid E).
Qed.

(** * Handles and end counts *)
Lemma in_use_false h s tid t : in_use h s = false -> tasks s !! tid = Some t -> t_handle t <> h.
Proof.
  unfold in_use. rewrite existsb_false_iff. intros H E Heq. specialize (H (tid, t) ltac:(by apply elem_of_map_to_list)). cbn in H. lia.
Qed.

Lemma close_end_frame e p ps : let o := close_end e p ps in inner o.1 = inner p /\ end_count e o.1 = saturating_step false (end_count e p) /\
  end_count (opposite e) o.1 = end_count (opposite e) p.
Proof.
  unfold close_end. destruct (wake_all_at_frame (opposite e) (with_count e (saturating_step false (end_count e p)) p) ps) as (-> & Hr & Hw).
  destruct e; cbn in *; rewrite ?Hr, ?Hw; done.
Qed.

Lemma exec_base e s : base s -> event_ok e -> exists s', exec e s = Some s' /\ base s'.
Proof.
  intros Hb He. destruct e as [tid inp h c|tid al co|h h'|h|h c|h flags|h nb|pid rd|pid|pid|pid p]; cbn [exec]; [|by apply run_base|..]; (eexists; split; [done|]).
  - by apply start_base.
  - unfold duplicate. destruct (handles s !! h) as [hd|] eqn:Eh; [|done]. destruct (handles s !! h') eqn:Eh'; [done|]. apply (base_same s); try done; [by destruct (end_type hd)|].
    intros tid t _ (hd' & Et & ?). exists hd'. split; [|done]. cbn. rewrite lookup_insert_ne; [done|]. congruence.
  - unfold drop_handle. destruct (handles s !! h) as [hd|] eqn:Eh; [|done]. destruct (in_use h s) eqn:Hu; [done|].
    destruct (close_end_frame (end_type hd) (pipe s) (procs s)) as (Hi & _). destruct (close_end _ _ _) as [p ps]. apply (base_same s); try done.
    intros tid t E (hd' & ? & ?). exists hd'. split; [|done]. cbn. rewrite lookup_delete_ne; [done|]. intros Heq. by eapply in_use_false.
  - unfold set_cap_id. destruct (handles s !! h) as [hd|] eqn:Eh; [|done]. apply (base_same s); try done. intros tid t _ (hd' & Eh' & ?). cbn.
    unfold holds. cbn. destruct (decide (h = t_handle t)) as [Heq|]; [|rewrite lookup_insert_ne by done; by exists hd']. rewrite Heq, lookup_insert_eq. eexists. split; [done|]. cbn. congruence.
  - destruct (handles s !! h) as [hd|]; [|done]. apply (base_same s); try done. unfold set_status_flags. destruct (mutable_file_status_bits flags); [|done]. by destruct (end_type hd).
  - destruct (handles s !! h) as [hd|]; [|done]. apply (base_same s); try done. by destruct (end_type hd).
  - by apply (base_same s).
  - by apply (base_same s).
  - by apply (base_same s).
  - case_bool_decide; [|done]. by apply (base_same s).
Qed.

Lemma exec_all_base es s : base s -> Forall event_ok es -> exists s', exec_all es s = Some s' /\ base s'.
Proof.
  revert s. induction es as [|e es IH]; intros s Hb Hes; [by exists s|]. apply list.Forall_cons in Hes as [He Hes].
  destruct (exec_base e s Hb He) as (s1 & E & Hb1). cbn. rewrite E. by apply IH.
Qed.

Lemma inner_new_spec cap : 0 < cap <= usize_max -> ring_ok (inner_new cap) /\ contents (inner_new cap) = [].
Proof. intros Hc. split; [split; cbn; [done|rewrite zlen_replicate; lia|lia..]|done]. Qed.

Lemma sys_new_base cap nb ps : PIPE_BUF <= cap <= MAX_PIPE_CAPACITY -> base (sys_new cap nb ps).
Proof.
  intros Hc. destruct (inner_new_spec cap) as [Hr Hcon]. { unfold PIPE_BUF, MAX_PIPE_CAPACITY, usize_max, u64_max in *. lia. }
  split; cbn; try done; [lia|by intros o ?%elem_of_nil|by intros id c r ?%elem_of_nil].
Qed.

Definition live_ends (e : PipeEndType) (hs : gmap Z PipeHandle) : Z := count_map (fun _ hd => bool_decide (end_type hd = e)) hs.

Definition counted (n : Z) (s : System) : Prop := forall e, end_count e (pipe s) = live_ends e (handles s) /\ live_ends e (handles s) <= n.

Lemma counted_same n s s' : counted n s -> (forall e, end_count e (pipe s') = end_count e (pipe s)) -> (forall e, live_ends e (handles s') = live_ends e (handles s)) -> counted (n + 1) s'.
Proof. intros H Hp Hh e. specialize (H e). rewrite Hp, Hh. lia. Qed.

Lemma exec_counted n e s s' : base s -> event_ok e -> counted n s -> n + 1 <= usize_max -> exec e s = Some s' -> counted (n + 1) s'.
Proof.
  intros Hb He Hcnt Hn. destruct e as [tid inp h c|tid al co|h h'|h|h c|h flags|h nb|pid rd|pid|pid|pid p]; cbn [exec].
  2: { unfold run. destruct (tasks s !! tid) as [t|] eqn:Htid; [|intros [= <-]; by apply (counted_same n s)].
    pose proof (bs_task _ Hb _ _ Htid) as Ht. destruct (step_effect (log s) t (pipe s) (procs s) (bs_ring _ Hb) (tk_track _ _ _ Ht) al co (tk_open _ _ _ Ht)) as (o & -> & [_ _ [Hr Hw] _ _ _ _]).
    cbn [mbind option_bind]. intros [= <-]. destruct (o_next o); apply (counted_same n s); try done; by intros []. }
  all: intros [= <-].
  - apply (counted_same n s); try done; unfold start; repeat case_match; done.
  - unfold duplicate. destruct (handles s !! h) as [hd|] eqn:Eh; [|by apply (counted_same n s)]. destruct (handles s !! h') eqn:Eh'; [by apply (counted_same n s)|].
    intros e. specialize (Hcnt e) as [Hc1 Hc2]. cbn. unfold live_ends in *. rewrite count_map_insert by done. unfold add_end, saturating_step, saturating_add, counts. pose proof (count_map_nonneg (fun _ hd => bool_decide (end_type hd = e)) (handles s)).
    destruct e, (end_type hd); cbn in *; repeat case_bool_decide; try congruence; lia.
  - unfold drop_handle. destruct (handles s !! h) as [hd|] eqn:Eh; [|by apply (counted_same n s)]. destruct (in_use h s); [by apply (counted_same n s)|].
    destruct (close_end_frame (end_type hd) (pipe s) (procs s)) as (_ & Ho & Hop). destruct (close_end _ _ _) as [p ps]. cbn in Ho, Hop.
    intros e. destruct (Hcnt e) as [Hc1 Hc2]. cbn. unfold live_ends in *. pose proof (count_map_nonneg (fun _ hd => bool_decide (end_type hd = e)) (delete h (handles s))). rewrite count_map_delete, Eh in *. unfold counts in *.
    unfold saturating_step, saturating_sub in Ho. destruct e, (end_type hd); cbn in *; repeat case_bool_decide; try congruence; lia.
  - unfold set_cap_id. destruct (handles s !! h) as [hd|] eqn:Eh; [|by apply (counted_same n s)]. apply (counted_same n s); [done..|]. intros e. cbn.
    unfold live_ends. change (<[h := ?v]> (handles s)) with (partial_alter (fun _ => Some v) h (handles s)). rewrite count_map_alter, Eh. cbn. lia.
  - destruct (handles s !! h) as [hd|]; [|by apply (counted_same n s)]. apply (counted_same n s); try done. cbn. unfold set_status_flags. destruct (mutable_file_status_bits flags); [|done]. by intros []; destruct (end_type hd).
  - destruct (handles s !! h) as [hd|]; [|by apply (counted_same n s)]. apply (counted_same n s); try done. by intros []; destruct (end_type hd).
  - by apply (counted_same n s).
  - by apply (counted_same n s).
  - by apply (counted_same n s).
  - case_bool_decide; by apply (counted_same n s).
Qed.

Lemma exec_all_counted es n s s' : base s -> Forall event_ok es -> counted n s -> n + zlen es <= usize_max -> exec_all es s = Some s' -> counted (n + zlen es) s'.
Proof.
  revert n s. induction es as [|e es IH]; intros n s Hb Hes Hc Hn.
  - intros [= <-]. change (zlen []) with 0. by rewrite Z.add_0_r.
  - apply list.Forall_cons in Hes as [He Hes]. rewrite zlen_cons in *. pose proof (zlen_nonneg es). cbn. destruct (exec_base e s Hb He) as (s1 & E & Hb1). rewrite E. cbn.
    intros Hex. replace (n + (zlen es + 1)) with ((n + 1) + zlen es) by lia. apply (IH (n + 1) s1); try done; [apply (exec_counted n e s s1); try done; lia|lia].
Qed.
