(* ===== verification/PipeWake.v ===== *)
(** No wake is lost on a pipe as long as an interrupt, once raised, stays raised
    until its task leaves the pipe: whoever sleeps has an entry in the queue of
    its end, whoever has an entry sleeps or is about to remove it, and while
    there is something to read or to write for a sleeper, some task is on its
    way to wake it. *)

From Stdlib Require Import ZArith Lia.
From stdpp Require Import base list list_numbers numbers gmap.
From S2P Require Import Prelude Machine WaitQueue WaitFacts Pipe PipeFacts PipeCalls.

(** * Queues and sleepers *)
Abbreviation Tasks := (gmap Z Task).

Definition calm (a : At) : bool := match a with Asleep | Awake => false | _ => true end.

Record sleeping (e : PipeEndType) (ps : Procs) (ts : Tasks) (tid : Z) (t : Task) : Prop := {
  sl_task : ts !! tid = Some t;
  sl_end : call_end (t_call t) = e;
  sl_at : t_at t = Asleep;
  sl_blocked : is_blocked ps tid = true;
}.

(** Whoever has an entry waits, or has been interrupted and will remove it. *)
Definition entitled (ps : Procs) (pid : Z) (a : At) : Prop :=
  (a = Asleep /\ (is_blocked ps pid = true \/ interrupted ps pid = true)) \/ (a = Awake /\ interrupted ps pid = true).

Record q_inv (p : Pipe) (ps : Procs) (ts : Tasks) : Prop := {
  qi_gen : forall pid pr, ps !! pid = Some pr -> 0 <= p_generation pr < 2 ^ 63;
  qi_nodup : forall e, NoDup (map fst (waiters (queue_of e p)));
  qi_in : forall e tid t, sleeping e ps ts tid t -> exists pr, ps !! tid = Some pr /\ (tid, stamp_process_generation (p_generation pr)) ∈ waiters (queue_of e p);
  qi_entry : forall e x, x ∈ waiters (queue_of e p) -> exists t, ts !! x.1 = Some t /\ call_end (t_call t) = e /\ entitled ps x.1 (t_at t);
  qi_cur : forall tid t, ts !! tid = Some t -> calm (t_at t) = false -> t_cur t = Some tid;
}.

Lemma queue_of_with_queue e e' q p : queue_of e' (with_queue e q p) = if decide (e' = e) then q else queue_of e' p.
Proof. by destruct e, e'. Qed.

Lemma q_inv_woke e q' l' p ps ps' ts : q_inv p ps ts -> waiters q' = l' -> woke (waiters (queue_of e p)) l' ps ps' -> q_inv (with_queue e q' p) ps' ts.
Proof.
  intros [Hgen Hnd Hin Hentry Hcur] Hq' [[k Hk] Hr Hg Hkeep].
  assert (Hsleep : forall e' tid t, sleeping e' ps' ts tid t -> sleeping e' ps ts tid t /\ ps' !! tid = ps !! tid).
  { intros e' tid t []. destruct (readied_blocked _ _ _ _ Hr sl_blocked0). split; [by split|done]. }
  split.
  - intros pid pr E. destruct (Hr pid) as [E'|(E' & _)]; rewrite E' in E; [by eapply Hgen|]. destruct (ps !! pid) as [pr'|] eqn:Ep; [|done]. injection E as <-. exact (Hgen pid pr' Ep).
  - intros e'. rewrite queue_of_with_queue. case_decide; [|done]. subst. specialize (Hnd e). rewrite Hk, map_app in Hnd. by apply NoDup_app in Hnd as (_ & _ & ?).
  - intros e' tid t Hs. destruct (Hsleep _ _ _ Hs) as [Hs' Hps]. destruct (Hin _ _ _ Hs') as (pr & Epr & Hx). exists pr. rewrite Hps. split; [done|].
    rewrite queue_of_with_queue. case_decide as E; [|done]. subst e'. rewrite Hq'. destruct (decide ((tid, stamp_process_generation (p_generation pr)) ∈ l')) as [|Hno]; [done|].
    exfalso. specialize (Hg _ Hx Hno (wakeable_stamped ps tid pr Epr (Hgen _ _ Epr) (sl_blocked _ _ _ _ _ Hs'))). cbn in Hg. destruct Hs. congruence.
  - intros e' x Hx. rewrite queue_of_with_queue in Hx. case_decide as E.
    + subst e'. rewrite Hq' in Hx. destruct (Hentry e x) as (t & Et & Hc & Hen); [rewrite Hk; apply elem_of_app; by right|]. exists t. split; [done|]. split; [done|].
      unfold entitled, is_blocked, interrupted in *. by rewrite (Hkeep (Hnd e) x Hx).
    + destruct (Hentry e' x Hx) as (t & Et & Hc & Hen). exists t. split; [done|]. split; [done|]. destruct (Hr x.1) as [E'|(_ & Hm & _)]; [unfold entitled, is_blocked, interrupted in *; by rewrite E'|].
      exfalso. apply list_elem_of_fmap in Hm as (y & Hy & Hyl). destruct (Hentry e y Hyl) as (t' & Et' & Hc' & _). rewrite <- Hy in Et'. congruence.
  - done.
Qed.

(** * What sleepers wait for *)

(** A task on its way to look at the pipe for a sleeping reader, or to wake one *)
Definition carrier (ps : Procs) (tid : Z) (t : Task) : bool :=
  let reads := bool_decide (call_end (t_call t) = ReadEnd) in
  match t_at t with
  | Asleep => reads && negb (is_blocked ps tid)
  | Awake => reads
  | Top | First => reads && t_waited t
  | WakeWriters pass _ => pass
  | PassOn _ | PassWake _ | WakeReader _ => true
  | _ => false
  end.

Definition wakes_writers (a : At) : bool := match a with WakeWriters _ _ => true | _ => false end.

(** The room a sleeping writer waits for *)
Definition need (t : Task) : Z := match t_call t with Write src => if is_atomic src then zlen src else 1 | _ => 0 end.

Record c_inv (p : Pipe) (ps : Procs) (ts : Tasks) : Prop := {
  ci_pos : forall e, 0 <= end_count e p;
  ci_end : forall e tid t, sleeping e ps ts tid t -> end_count (opposite e) p <> 0;
  ci_data : data_left p = true -> forall tid t, sleeping ReadEnd ps ts tid t -> exists tid' t', ts !! tid' = Some t' /\ carrier ps tid' t' = true;
  ci_space : forall tid t, sleeping WriteEnd ps ts tid t ->
    free_space (inner p) < need t \/ exists tid' t', ts !! tid' = Some t' /\ wakes_writers (t_at t') = true;
}.

Definition wake_inv (p : Pipe) (ps : Procs) (ts : Tasks) : Prop := q_inv p ps ts /\ c_inv p ps ts.

(** Blocked tasks that become runnable do not hurt. *)
Lemma carrier_mono ps ps' tid t : (is_blocked ps' tid = true -> is_blocked ps tid = true) -> carrier ps tid t = true -> carrier ps' tid t = true.
Proof.
  intros H. unfold carrier. destruct (t_at t); try done. rewrite !andb_true_iff, !negb_true_iff. intros [? Hb]. split; [done|].
  destruct (is_blocked ps' tid) eqn:E; [|done]. rewrite H in Hb by done. done.
Qed.

Lemma c_inv_mono p p' ps ps' ts : c_inv p ps ts -> inner p' = inner p -> (forall e, end_count e p' = end_count e p) ->
  (forall tid t, ts !! tid = Some t -> is_blocked ps' tid = true -> is_blocked ps tid = true) -> c_inv p' ps' ts.
Proof.
  intros [Hpos Hend Hdata Hspace] Hi Hc Hb. assert (Hs : forall e tid t, sleeping e ps' ts tid t -> sleeping e ps ts tid t) by (intros e tid t []; split; eauto).
  split.
  - intros e. by rewrite Hc.
  - intros e tid t ?%Hs. rewrite Hc. eauto.
  - unfold data_left. rewrite Hi. intros Hd tid t ?%Hs. destruct (Hdata Hd tid t) as (tid' & t' & E & Hca); [done|]. exists tid', t'. split; [done|]. apply (carrier_mono ps); [by apply (Hb tid' t')|done].
  - rewrite Hi. intros tid t ?%Hs. eauto.
Qed.

Lemma end_count_with_queue e e' q p : end_count e' (with_queue e q p) = end_count e' p /\ inner (with_queue e q p) = inner p.
Proof. by destruct e, e'. Qed.

Lemma wake_one_ok e p ps ts : q_inv p ps ts -> let '(p', ps') := wake_one_at e p ps in q_inv p' ps' ts /\ (c_inv p ps ts -> c_inv p' ps' ts) /\
  (forall e', end_count e' p' = end_count e' p) /\ inner p' = inner p /\
  ((exists tid t, ts !! tid = Some t /\ call_end (t_call t) = e /\ calm (t_at t) = false /\ is_blocked ps' tid = false) \/ forall tid t, ~ sleeping e ps' ts tid t).
Proof.
  intros Hq. unfold wake_one_at, wake_one. pose proof (wake_one_loop_spec (waiters (queue_of e p)) ps) as Hw. destruct (wake_one_loop _ _) as [[w l'] ps']. destruct Hw as [Hw Hres].
  split; [by eapply q_inv_woke|]. split; [|split; [intros e'; apply end_count_with_queue|split; [by destruct e|]]].
  - intros Hc. apply (c_inv_mono p _ ps); [done|by destruct e|intros e'; apply end_count_with_queue|]. intros tid t _ Hb. by apply (readied_blocked _ _ _ _ (wk_readied _ _ _ _ Hw) Hb).
  - destruct w as [pid|].
    + left. destruct Hres as (Hm & Hb & Hb'). apply list_elem_of_fmap in Hm as (x & -> & Hx). destruct (qi_entry _ _ _ Hq e x Hx) as (t & Et & Hc & Hen).
      exists x.1, t. do 2 (split; [done|]). split; [|done]. by destruct Hen as [[-> _]|[-> _]].
    + right. intros tid t Hs. destruct (readied_blocked _ _ _ _ (wk_readied _ _ _ _ Hw) (sl_blocked _ _ _ _ _ Hs)) as [Hb E].
      assert (Hs' : sleeping e ps ts tid t) by (destruct Hs; by split). destruct (qi_in _ _ _ Hq e tid t Hs') as (pr & Epr & Hx).
      pose proof (wakeable_stamped ps tid pr Epr (qi_gen _ _ _ Hq _ _ Epr) Hb) as Hwk. rewrite (Hres _ Hx) in Hwk. done.
Qed.

Lemma wake_all_ok e p ps ts : q_inv p ps ts -> let '(p', ps') := wake_all_at e p ps in q_inv p' ps' ts /\ (forall e', end_count e' p' = end_count e' p) /\ inner p' = inner p /\
  (forall tid, is_blocked ps' tid = true -> is_blocked ps tid = true) /\ (forall tid t, ~ sleeping e ps' ts tid t).
Proof.
  intros Hq. unfold wake_all_at, wake_all. pose proof (wake_all_loop_spec (waiters (queue_of e p)) 0 ps) as Hw. destruct (wake_all_loop _ _ _) as [n ps']. destruct Hw as [Hr Hg].
  assert (Hb : forall tid, is_blocked ps' tid = true -> is_blocked ps tid = true) by (intros tid H; by apply (readied_blocked _ _ _ _ Hr H)).
  split; [|split; [intros e'; apply end_count_with_queue|split; [by destruct e|split; [done|]]]].
  - eapply q_inv_woke; [done|done|]. cbn. split; [by exists (waiters (queue_of e p)); rewrite app_nil_r|done|by intros; apply Hg|by intros _ x ?%elem_of_nil].
  - intros tid t Hs. destruct (readied_blocked _ _ _ _ Hr (sl_blocked _ _ _ _ _ Hs)) as [Hbl E]. assert (Hs' : sleeping e ps ts tid t) by (destruct Hs; by split).
    destruct (qi_in _ _ _ Hq e tid t Hs') as (pr & Epr & Hx). specialize (Hg _ Hx (wakeable_stamped ps tid pr Epr (qi_gen _ _ _ Hq _ _ Epr) Hbl)). cbn in Hg. destruct Hs. congruence.
Qed.

(** * Moves between places where nobody sleeps *)
Section moves.
Context (p p' : Pipe) (ps : Procs) (ts : Tasks) (tid : Z) (next : option Task).

Definition moved : Tasks := partial_alter (fun _ => next) tid ts.

Lemma moved_lookup tid' t' : moved !! tid' = Some t' <-> (tid' = tid /\ next = Some t') \/ (tid' <> tid /\ ts !! tid' = Some t').
Proof.
  unfold moved. destruct (decide (tid' = tid)) as [->|]; [rewrite lookup_partial_alter_eq|rewrite lookup_partial_alter_ne by done]; naive_solver.
Qed.

Context (Hold : forall t, ts !! tid = Some t -> calm (t_at t) = true) (Hnew : forall t, next = Some t -> calm (t_at t) = true).

Lemma moved_sleeping e tid' t : sleeping e ps moved tid' t <-> sleeping e ps ts tid' t.
Proof.
  split; intros [Ht ? Hat ?]; split; try done.
  - apply moved_lookup in Ht as [[-> E]|[_ E]]; [|done]. specialize (Hnew _ E). by rewrite Hat in Hnew.
  - apply moved_lookup. right. split; [|done]. intros ->. specialize (Hold _ Ht). by rewrite Hat in Hold.
Qed.

Lemma q_inv_moved : (forall e, waiters (queue_of e p') = waiters (queue_of e p)) -> q_inv p ps ts -> q_inv p' ps moved.
Proof.
  intros Hq [Hgen Hnd Hin Hentry Hcur]. split; try done.
  - intros e. by rewrite Hq.
  - intros e tid' t Hs%moved_sleeping. rewrite Hq. by apply Hin in Hs.
  - intros e x Hx. rewrite Hq in Hx. destruct (Hentry e x Hx) as (t & Et & Hc & Hen). exists t. split; [|done]. apply moved_lookup. right. split; [|done]. intros E. rewrite E in Et. specialize (Hold _ Et). by destruct Hen as [[E' _]|[E' _]]; rewrite E' in Hold.
  - intros tid' t [[-> E]|[_ E]]%moved_lookup Hc; [|by eapply Hcur]. rewrite (Hnew _ E) in Hc. done.
Qed.

Definition takes_over (next : option Task) : bool := match next with Some t => carrier ps tid t | None => false end.
Definition next_wakes_writers (next : option Task) : bool := match next with Some t => wakes_writers (t_at t) | None => false end.

Lemma c_inv_moved : c_inv p ps ts -> (forall e, end_count e p' = end_count e p) ->
  (data_left p' = true -> takes_over next = true \/ (data_left p = true /\ forall t, ts !! tid = Some t -> carrier ps tid t = false) \/
     (exists tid' t', tid' <> tid /\ ts !! tid' = Some t' /\ carrier ps tid' t' = true) \/ forall tid' t', ~ sleeping ReadEnd ps ts tid' t') ->
  (next_wakes_writers next = true \/ (free_space (inner p') <= free_space (inner p) /\ forall t, ts !! tid = Some t -> wakes_writers (t_at t) = false) \/ forall tid' t', ~ sleeping WriteEnd ps ts tid' t') ->
  c_inv p' ps moved.
Proof.
  intros [Hpos Hend Hdata Hspace] Hc Hd Hs. split.
  - intros e. by rewrite Hc.
  - intros e tid' t ?%moved_sleeping. rewrite Hc. eauto.
  - intros Hdl tid' t Hsl%moved_sleeping. destruct (Hd Hdl) as [Hn|[[Hdl0 Hnc]|[(tid2 & t2 & Hne & E & Hca)|Hno]]].
    + destruct next as [t'|] eqn:En; [|done]. exists tid, t'. split; [|done]. apply moved_lookup. by left.
    + destruct (Hdata Hdl0 tid' t Hsl) as (tid2 & t2 & E & Hca). exists tid2, t2. split; [|done]. apply moved_lookup. right. split; [|done]. intros ->. rewrite (Hnc t2 E) in Hca. done.
    + exists tid2, t2. split; [|done]. apply moved_lookup. by right.
    + by destruct (Hno tid' t).
  - intros tid' t Hsl%moved_sleeping. destruct Hs as [Hn|[[Hle Hnw]|Hno]].
    + right. destruct next as [t'|] eqn:En; [|done]. exists tid, t'. split; [|done]. apply moved_lookup. by left.
    + destruct (Hspace tid' t Hsl) as [?|(tid2 & t2 & E & Hw)]; [left; lia|]. right. exists tid2, t2. split; [|done]. apply moved_lookup. right. split; [|done]. intros ->. rewrite (Hnw t2 E) in Hw. done.
    + by destruct (Hno tid' t).
Qed.
End moves.

(** * Falling asleep and waking up *)

(** Why a call has to wait *)
Definition must_wait (t : Task) (p : Pipe) : Prop :=
  end_count (opposite (call_end (t_call t))) p <> 0 /\
  match call_end (t_call t) with ReadEnd => data_left p = false | WriteEnd => free_space (inner p) < need t end.

(** A step of [tid] that touches its own entry and process only *)
Section local.
Context (p p' : Pipe) (ps ps' : Procs) (ts : Tasks) (tid : Z) (next : option Task).

Lemma q_inv_local : q_inv p ps ts -> (forall e, NoDup (map fst (waiters (queue_of e p')))) ->
  (forall e x, x.1 <> tid -> x ∈ waiters (queue_of e p') <-> x ∈ waiters (queue_of e p)) ->
  (forall pid, pid <> tid -> ps' !! pid = ps !! pid) -> (forall pr, ps' !! tid = Some pr -> 0 <= p_generation pr < 2 ^ 63) ->
  (forall t, next = Some t -> t_at t = Asleep -> is_blocked ps' tid = true -> exists pr, ps' !! tid = Some pr /\ (tid, stamp_process_generation (p_generation pr)) ∈ waiters (queue_of (call_end (t_call t)) p')) ->
  (forall e x, x.1 = tid -> x ∈ waiters (queue_of e p') -> exists t, next = Some t /\ call_end (t_call t) = e /\ entitled ps' tid (t_at t)) ->
  (forall t, next = Some t -> calm (t_at t) = false -> t_cur t = Some tid) -> q_inv p' ps' (moved ts tid next).
Proof.
  intros [Hgen Hnd Hin Hentry Hcur] Hnd' Hmem Hps Hg Hsl Hen Hcur'. split.
  - intros pid pr E. destruct (decide (pid = tid)) as [->|]; [by apply Hg|]. rewrite Hps in E by done. by eapply Hgen.
  - done.
  - intros e tid' t [Ht He Hat Hb]. apply moved_lookup in Ht as [[-> E]|[Hne E]]; [subst e; by apply Hsl|].
    assert (Hs : sleeping e ps ts tid' t) by (split; try done; unfold is_blocked in *; by rewrite <- Hps). destruct (Hin _ _ _ Hs) as (pr & Epr & Hx). exists pr. rewrite Hps by done. split; [done|]. by apply Hmem.
  - intros e x Hx. destruct (decide (x.1 = tid)) as [Ex|Hne].
    + destruct (Hen e x Ex Hx) as (t & En & ? & ?). exists t. rewrite Ex. split; [|done]. apply moved_lookup. by left.
    + apply Hmem in Hx; [|done]. destruct (Hentry e x Hx) as (t & Et & Hc & Het). exists t. split; [apply moved_lookup; by right|]. split; [done|]. unfold entitled, is_blocked, interrupted in *. by rewrite Hps.
  - intros tid' t [[-> E]|[_ E]]%moved_lookup Hc; [by apply Hcur'|by eapply Hcur].
Qed.

Lemma c_inv_local : c_inv p ps ts -> inner p' = inner p -> (forall e, end_count e p' = end_count e p) ->
  (forall pid, pid <> tid -> ps' !! pid = ps !! pid) ->
  (forall t, next = Some t -> t_at t = Asleep -> is_blocked ps' tid = true -> must_wait t p) ->
  (forall t, ts !! tid = Some t -> carrier ps tid t = true -> takes_over ps' tid next = true) ->
  (forall t, ts !! tid = Some t -> wakes_writers (t_at t) = true -> next_wakes_writers next = true) -> c_inv p' ps' (moved ts tid next).
Proof.
  intros [Hpos Hend Hdata Hspace] Hi Hc Hps Hmust Hca Hww.
  assert (Hs : forall e tid' t, sleeping e ps' (moved ts tid next) tid' t -> (must_wait t p /\ call_end (t_call t) = e) \/ sleeping e ps ts tid' t).
  { intros e tid' t [Ht He Hat Hb]. apply moved_lookup in Ht as [[-> E]|[Hne E]]; [left; split; [by apply Hmust|done]|right]. split; try done. unfold is_blocked in *. by rewrite <- Hps. }
  split.
  - intros e. by rewrite Hc.
  - intros e tid' t Ht. rewrite Hc. destruct (Hs e tid' t Ht) as [[[? _] <-]|?]; eauto.
  - unfold data_left. rewrite Hi. intros Hd tid' t Ht. destruct (Hs _ tid' t Ht) as [[[_ Hm] He]|Hold]; [rewrite He in Hm; unfold data_left in Hm; congruence|].
    destruct (Hdata Hd tid' t Hold) as (tid2 & t2 & E & Hcar). destruct (decide (tid2 = tid)) as [->|].
    + specialize (Hca _ E Hcar). destruct next as [t'|] eqn:En; [|done]. exists tid, t'. split; [apply moved_lookup; by left|done].
    + exists tid2, t2. split; [apply moved_lookup; by right|]. apply (carrier_mono ps); [|done]. unfold is_blocked. by rewrite Hps.
  - rewrite Hi. intros tid' t Ht. destruct (Hs _ tid' t Ht) as [[[_ Hm] He]|Hold]; [rewrite He in Hm; by left|].
    destruct (Hspace tid' t Hold) as [?|(tid2 & t2 & E & Hw)]; [by left|]. right. destruct (decide (tid2 = tid)) as [->|].
    + specialize (Hww _ E Hw). destruct next as [t'|] eqn:En; [|done]. exists tid, t'. split; [apply moved_lookup; by left|done].
    + exists tid2, t2. split; [apply moved_lookup; by right|done].
Qed.
End local.

(** Whoever is neither asleep nor just awake has no entry. *)
Lemma calm_not_queued p ps ts tid t e : q_inv p ps ts -> ts !! tid = Some t -> calm (t_at t) = true -> queued tid (queue_of e p) = false.
Proof.
  intros Hq Et Hc. destruct (queued tid (queue_of e p)) eqn:E; [|done]. apply queued_iff in E as (x & Hx & Ex).
  destruct (qi_entry _ _ _ Hq e x Hx) as (t' & Et' & _ & Hen). rewrite Ex, Et in Et'. injection Et' as <-. by destruct Hen as [[E _]|[E _]]; rewrite E in Hc.
Qed.
