(* ===== verification/PipeSteps.v ===== *)
(** Every step of a call keeps the invariant of the sleepers. *)

From Stdlib Require Import ZArith Lia.
From stdpp Require Import base list list_numbers numbers gmap.
From S2P Require Import Prelude Machine WaitQueue WaitFacts Pipe PipeFacts PipeCalls PipeWake.

Definition next_task (n : Next) : option Task := match n with Goto t => Some t | Return _ => None end.

(** * Arming *)
Lemma arm_ok cap t t0 p ps ts tid obs : wake_inv p ps ts -> ts !! tid = Some t0 -> calm (t_at t0) = true -> carrier ps tid t0 = false ->
  wakes_writers (t_at t0) = false -> t_cur t = Some tid \/ t_cur t = None -> must_wait t p ->
  exists o, then_arm cap t p ps obs = Some o /\ wake_inv (o_pipe o) (o_procs o) (moved ts tid (next_task (o_next o))).
Proof.
  intros [Hq Hc] E0 Hcalm Hcar Hww Hcur Hmust. set (e := call_end (t_call t)). assert (Hnq : forall e', queued tid (queue_of e' p) = false) by (intros e'; by eapply calm_not_queued).
  destruct (try_prepare_cases (t_cur t) cap (queue_of e p) ps tid Hcur (Hnq e)) as (out & q' & ps' & Htry & Hcase). unfold then_arm. fold e. rewrite Htry. cbn [mbind option_bind].
  eexists. split; [done|]. cbn. destruct (end_count_with_queue e ReadEnd q' p) as [_ Hi]. destruct Hcase as [(Hout & Hw & ->)|(-> & Hcur' & -> & pr & Epr & Hw)].
  - assert (Hwt : forall e', waiters (queue_of e' (with_queue e q' p)) = waiters (queue_of e' p)) by (intros e'; rewrite queue_of_with_queue; case_decide; [by subst|done]).
    assert (Hnx : calm (match out with Prepared true => Asleep | Prepared false => Refused | RetryCapacity => Top end) = true) by (by destruct out as [[]|]).
    split; [apply (q_inv_moved p); try done|apply (c_inv_moved p); try done].
    + intros t1 E. by rewrite E0 in E; injection E as <-.
    + intros t1 [= <-]. done.
    + intros t1 E. by rewrite E0 in E; injection E as <-.
    + intros t1 [= <-]. done.
    + intros e'. apply end_count_with_queue.
    + unfold data_left. rewrite Hi. intros Hd. right. left. split; [done|]. intros t1 E. by rewrite E0 in E; injection E as <-.
    + rewrite Hi. right. left. split; [lia|]. intros t1 E. by rewrite E0 in E; injection E as <-.
  - assert (Hnin : tid ∉ map fst (waiters (queue_of e p))).
    { intros (x & Ex & Hx)%list_elem_of_fmap. specialize (Hnq e). rewrite (proj2 (queued_iff tid (queue_of e p))) in Hnq; [done|]. by exists x. }
    split; [apply (q_inv_local p _ ps); try done|apply (c_inv_local p _ ps); try done].
    + intros e'. rewrite queue_of_with_queue. case_decide; [|apply Hq]. rewrite Hw, map_app. apply NoDup_app. split; [apply Hq|]. split; [|apply NoDup_singleton].
      intros y Hy ->%list_elem_of_singleton. done.
    + intros e' x Hx. rewrite queue_of_with_queue. case_decide; [|done]. subst e'. rewrite Hw, elem_of_app, list_elem_of_singleton. split; [intros [?| ->]; done|by left].
    + intros pid Hne. rewrite enter_blocked_lookup. by case_decide.
    + intros pr'. rewrite enter_blocked_lookup, decide_True, Epr by done. intros [= <-]. apply (qi_gen _ _ _ Hq _ _ Epr).
    + intros t' [= <-] _ _. exists (with_state Blocked pr). rewrite enter_blocked_lookup, decide_True, Epr by done. split; [done|]. cbn [at_ t_call]. fold e.
      rewrite queue_of_with_queue, decide_True, Hw by done. apply elem_of_app. right. by left.
    + intros e' x Ex Hx. exists (at_ Asleep t). split; [done|]. cbn [at_ t_call t_at]. fold e. rewrite queue_of_with_queue in Hx. case_decide as He.
      * split; [done|]. left. split; [done|]. left. unfold is_blocked. by rewrite enter_blocked_lookup, decide_True, Epr by done.
      * exfalso. specialize (Hnq e'). rewrite (proj2 (queued_iff tid (queue_of e' p))) in Hnq; [done|]. by exists x.
    + intros t' [= <-] _. done.
    + intros e'. apply end_count_with_queue.
    + intros pid Hne. rewrite enter_blocked_lookup. by case_decide.
    + by intros t' [= <-].
    + intros t1 E Hct. rewrite E0 in E. injection E as <-. congruence.
    + intros t1 E Hct. rewrite E0 in E. injection E as <-. congruence.
Qed.

(** * Waking up *)
Lemma asleep_ok t p ps ts tid : wake_inv p ps ts -> ts !! tid = Some t -> t_at t = Asleep ->
  let o := asleep t p ps in wake_inv (o_pipe o) (o_procs o) (moved ts tid (next_task (o_next o))).
Proof.
  intros [Hq Hc] Et Hat. pose proof (qi_cur _ _ _ Hq _ _ Et ltac:(by rewrite Hat)) as Hcur. unfold asleep. rewrite Hcur. cbn. destruct (wait_resolved ps tid) eqn:Hres.
  2: { assert (Hid : moved ts tid (Some t) = ts) by (apply map_eq; intros i; unfold moved; destruct (decide (i = tid)) as [->|]; [by rewrite lookup_partial_alter_eq|by rewrite lookup_partial_alter_ne]).
    rewrite Hid. by split. }
  unfold wait_resolved in Hres. split; [apply (q_inv_local p _ ps); try done|apply (c_inv_local p _ ps); try done].
  - apply Hq.
  - intros pr. by apply (qi_gen _ _ _ Hq).
  - intros t' [= <-]. done.
  - intros e x Ex Hx. destruct (qi_entry _ _ _ Hq e x Hx) as (t' & Et' & He & Hen). rewrite Ex, Et in Et'. injection Et' as <-. exists (at_ Awake t). do 2 (split; [done|]). right. split; [done|].
    rewrite Ex in Hen. destruct Hen as [[_ [Hb|?]]|[? ?]]; [rewrite Hb in Hres; done|done..].
  - intros t' [= <-] _. done.
  - intros t' [= <-]. done.
  - intros t' E. rewrite Et in E. injection E as <-. unfold takes_over, carrier. cbn. rewrite Hat. by intros [? _]%andb_true_iff.
  - intros t' E. rewrite Et in E. injection E as <-. by rewrite Hat.
Qed.

Lemma awake_ok t p ps ts tid : wake_inv p ps ts -> ts !! tid = Some t -> t_at t = Awake ->
  let o := awake t p ps in wake_inv (o_pipe o) (o_procs o) (moved ts tid (next_task (o_next o))).
Proof.
  intros [Hq Hc] Et Hat. pose proof (qi_cur _ _ _ Hq _ _ Et ltac:(by rewrite Hat)) as Hcur. unfold awake. rewrite Hcur. set (e := call_end (t_call t)).
  destruct (finish_wait_spec tid (queue_of e p) ps (qi_nodup _ _ _ Hq e)) as (Hnd & Hmem & Hown & Hps). destruct (finish_wait_tail _ _ _) as [q' ps']. cbn in Hnd, Hmem, Hown, Hps. cbn.
  set (t' := at_ Top (match t_call t with Write _ => t | _ => having_waited t end)).
  assert (Hoth : forall pid, pid <> tid -> ps' !! pid = ps !! pid) by (intros pid Hne; destruct Hps as [-> | ->]; [done|]; rewrite enter_ready_lookup; by case_decide).
  split; [apply (q_inv_local p _ ps); try done|apply (c_inv_local p _ ps); try done].
  - intros e'. rewrite queue_of_with_queue. case_decide; [done|apply Hq].
  - intros e' x Hx. rewrite queue_of_with_queue. case_decide; [subst; by apply Hmem|done].
  - intros pr Hpr. destruct Hps as [-> | ->]; [by eapply qi_gen|]. rewrite enter_ready_lookup, decide_True in Hpr by done. destruct (ps !! tid) as [pr0|] eqn:E0; [|done]. injection Hpr as <-. exact (qi_gen _ _ _ Hq _ _ E0).
  - intros t1 [= <-]. done.
  - intros e' x Ex Hx. exfalso. rewrite queue_of_with_queue in Hx. case_decide as He.
    + destruct (Hown x Hx Ex) as [Hin Hno]. destruct (qi_entry _ _ _ Hq e x Hin) as (t1 & Et1 & _ & Hen). rewrite Ex, Et in Et1. injection Et1 as <-. rewrite Ex, Hat in Hen. destruct Hen as [[? _]|[_ ?]]; congruence.
    + destruct (qi_entry _ _ _ Hq e' x Hx) as (t1 & Et1 & He1 & _). rewrite Ex, Et in Et1. injection Et1 as <-. by destruct He.
  - intros t1 [= <-]. done.
  - by destruct e.
  - intros e'. apply end_count_with_queue.
  - intros t1 [= <-]. done.
  - intros t1 E. rewrite Et in E. injection E as <-. unfold takes_over, carrier, t'. cbn. rewrite Hat. destruct (t_call t) eqn:Hcall; cbn; by rewrite ?Hcall.
  - intros t1 E. rewrite Et in E. injection E as <-. by rewrite Hat.
Qed.

(** * Steps that leave the queues alone *)
Record good (tid : Z) (t : Task) (p : Pipe) (ps : Procs) (o : Step) : Prop := {
  gd_procs : o_procs o = ps;
  gd_queues : forall e, queue_of e (o_pipe o) = queue_of e p;
  gd_counts : forall e, end_count e (o_pipe o) = end_count e p;
  gd_calm : forall t', o_next o = Goto t' -> calm (t_at t') = true;
  gd_data : data_left (o_pipe o) = true -> takes_over ps tid (next_task (o_next o)) = true \/ (data_left p = true /\ carrier ps tid t = false);
  gd_space : next_wakes_writers (next_task (o_next o)) = true \/ (free_space (inner (o_pipe o)) <= free_space (inner p) /\ wakes_writers (t_at t) = false);
}.

Lemma good_ok tid t p ps ts o : wake_inv p ps ts -> ts !! tid = Some t -> calm (t_at t) = true -> good tid t p ps o ->
  wake_inv (o_pipe o) (o_procs o) (moved ts tid (next_task (o_next o))).
Proof.
  intros [Hq Hc] Et Hcalm [-> Hqs Hcs Hn Hd Hs].
  assert (Hold : forall t0, ts !! tid = Some t0 -> t0 = t) by (intros t0 E; congruence).
  assert (Hold' : forall t0, ts !! tid = Some t0 -> calm (t_at t0) = true) by (by intros t0 ->%Hold).
  assert (Hnew : forall t0, next_task (o_next o) = Some t0 -> calm (t_at t0) = true) by (destruct (o_next o) as [t1|r]; [intros t0 [= <-]; by apply Hn|done]).
  split; [apply (q_inv_moved p); try done; intros e; by rewrite Hqs|apply (c_inv_moved p); try done].
  - intros Hdl. destruct (Hd Hdl) as [|[? ?]]; [by left|]. right. left. split; [done|]. by intros t0 ->%Hold.
  - destruct Hs as [|[? ?]]; [by left|]. right. left. split; [done|]. by intros t0 ->%Hold.
Qed.

(** The pipe is left as it is: a waiting reader that had been woken stays on its
    way unless there is nothing to read. *)
Lemma good_still tid t p ps n : (forall t', n = Goto t' -> calm (t_at t') = true) -> wakes_writers (t_at t) = false ->
  carrier ps tid t = false \/ data_left p = false \/ takes_over ps tid (next_task n) = true -> good tid t p ps (mkStep p ps [] n).
Proof. intros Hn Hw Hc. split; cbn; try done; [intros Hd; naive_solver congruence|by right]. Qed.

Section passes.
Context (otherwise : Task -> Pipe -> Procs -> list Obs -> option Step).
Context (tid : Z) (t : Task) (p : Pipe) (ps : Procs) (Hring : ring_ok (inner p)).
Context (Hpass : t_at t = First \/ exists cap, t_at t = Second cap).

Definition answers (r : option Step) : Prop := (exists o, r = Some o /\ good tid t p ps o) \/ (r = otherwise t p ps [] /\ must_wait t p).

Lemma pass_not_ww : wakes_writers (t_at t) = false.
Proof. by destruct Hpass as [->|[cap ->]]. Qed.

(** A writer carries no wake at this point. *)
Lemma pass_writer src : t_call t = Write src -> carrier ps tid t = false.
Proof. intros Hc. unfold carrier. rewrite Hc. by destruct Hpass as [->|[cap ->]]. Qed.

Lemma read_answers m : 0 <= m -> t_call t = Read m -> answers (read_section otherwise m t p ps).
Proof.
  intros Hm Hcall. unfold read_section. destruct (Z.ltb_spec 0 (len (inner p))) as [Hl|Hl].
  - left. destruct (read_spec m (inner p) Hring Hm) as (i & -> & Hi & Hc & Hcap & Hfl). cbn [mbind option_bind]. eexists. split; [done|]. split; cbn; try done; [by intros t' [= <-]| |by left].
    intros Hd. destruct (t_waited t) eqn:Hw; [by left|]. right. split.
    + unfold data_left in *. cbn in Hd. rewrite Hfl in Hd. apply andb_true_iff in Hd as [_ ->]. by destruct (Z.ltb_spec 0 (len (inner p))); [|lia].
    + unfold carrier. destruct Hpass as [->|[cap ->]]; [|done]. by rewrite Hw, andb_false_r.
  - assert (Hd : data_left p = false) by (unfold data_left; by destruct (Z.ltb_spec 0 (len (inner p))); [lia|]). pose proof pass_not_ww.
    destruct (Z.eqb_spec (writers p) 0); [left; eexists; split; [done|]; apply good_still; eauto; done|].
    destruct (t_nonblock t); [left; eexists; split; [done|]; apply good_still; eauto; done|]. right. split; [done|]. unfold must_wait. rewrite Hcall. by split.
Qed.

Lemma commit_answers m : 0 <= m -> t_call t = ReadWithCommit m -> answers (commit_section otherwise m t p ps).
Proof.
  intros Hm Hcall. unfold commit_section. change ((0 <? len (inner p)) && negb (read_inflight (inner p))) with (data_left p). pose proof pass_not_ww. destruct (data_left p) eqn:Hd.
  - left. unfold data_left in Hd. apply andb_true_iff in Hd as [Hl%Z.ltb_lt Hf%negb_true_iff]. rewrite begin_spec by done. cbn [mbind option_bind]. destruct (Z.eqb_spec m 0); (eexists; split; [done|]).
    + replace (with_inner (inner p) p) with p by (by destruct p). apply good_still; [by intros t' [= <-]|done|]. unfold takes_over, carrier. cbn. rewrite Hcall. destruct Hpass as [->|[cap ->]]; [|by left]. cbn. destruct (t_waited t); [by right; right|by left].
    + split; cbn; try done; [by intros t' [= <-]| |by right]. unfold data_left. cbn. by rewrite andb_false_r.
  - destruct (Z.eqb_spec (writers p) 0); [left; eexists; split; [done|]; apply good_still; eauto; done|].
    destruct (t_nonblock t); [left; eexists; split; [done|]; apply good_still; eauto; done|]. right. split; [done|]. unfold must_wait. rewrite Hcall. by split.
Qed.

(** A write that moved bytes leaves for [WakeReader]. *)
Lemma wrote_good src bs i n w r obs : t_call t = Write src -> write bs (inner p) = Some (n, i) ->
  good tid t p ps (mkStep (with_inner i p) ps obs (Goto (at_ (WakeReader r) (having_written w t)))).
Proof.
  intros Hcall Hw. destruct (write_spec bs (inner p) Hring) as (i' & E & Hi & Hc & Hcap & Hfl). rewrite E in Hw. injection Hw as <- <-. pose proof pass_not_ww.
  split; cbn; try done; [by intros t' [= <-]|by left|]. right. split; [|done].
  pose proof (zlen_contents _ Hring) as Hl. pose proof (zlen_contents _ Hi) as Hl'. pose proof (zlen_nonneg bs). rewrite Hc, zlen_app in Hl'. pose proof (zlen_nonneg (take (Z.to_nat (Z.min (zlen bs) (free_space (inner p)))) bs)). unfold free_space in *. lia.
Qed.

Lemma atomic_answers src : t_call t = Write src -> is_atomic src = true -> answers (atomic_section otherwise src t p ps).
Proof.
  intros Hcall Hat. unfold atomic_section. pose proof pass_not_ww. pose proof (pass_writer src Hcall).
  destruct (Z.eqb_spec (readers p) 0); [left; eexists; split; [done|]; apply good_still; eauto; done|]. rewrite space_spec by done. cbn [mbind option_bind].
  destruct (Z.leb_spec (zlen src) (free_space (inner p))).
  - left. destruct (write_spec src (inner p) Hring) as (i & E & _). pose proof (fun w r obs => wrote_good src src i _ w r obs Hcall E) as Hg. rewrite E. cbn [mbind option_bind]. rewrite Z.min_l, Z.eqb_refl by done. eexists. split; [done|]. apply Hg.
  - destruct (t_nonblock t); [left; eexists; split; [done|]; apply good_still; eauto; done|]. right. split; [done|]. unfold must_wait, need. rewrite Hcall, Hat. by split.
Qed.

Lemma write_first_answers src : t_call t = Write src -> is_atomic src = false -> answers (write_first otherwise src t p ps).
Proof.
  intros Hcall Hat. unfold write_first. pose proof pass_not_ww. pose proof (pass_writer src Hcall).
  destruct (Z.eqb_spec (readers p) 0); [left; eexists; split; [done|]; apply good_still; eauto; done|]. rewrite space_spec by done. cbn [mbind option_bind].
  destruct (Z.ltb_spec 0 (free_space (inner p))).
  - left. destruct (write_spec (drop (Z.to_nat (t_written t)) src) (inner p) Hring) as (i & E & _). pose proof (fun w r obs => wrote_good src _ i _ w r obs Hcall E) as Hg. rewrite E. cbn [mbind option_bind]. eexists. split; [done|]. apply Hg.
  - destruct (t_nonblock t); [left; eexists; split; [done|]; apply good_still; eauto; done|]. right. split; [done|]. unfold must_wait, need. rewrite Hcall, Hat. split; [done|]. cbn. lia.
Qed.
End passes.

(** * Steps that wake *)
Lemma moved_moved ts tid n n' : moved (moved ts tid n) tid n' = moved ts tid n'.
Proof. unfold moved. apply map_eq. intros i. destruct (decide (i = tid)) as [->|]; [by rewrite !lookup_partial_alter_eq|by rewrite !lookup_partial_alter_ne]. Qed.

Lemma after_wake p ps ts tid t next : wake_inv p ps ts -> ts !! tid = Some t -> calm (t_at t) = true -> wakes_writers (t_at t) = false ->
  (forall t', next = Some t' -> calm (t_at t') = true) ->
  let '(p', ps') := wake_one_at ReadEnd p ps in wake_inv p' ps' (moved ts tid next) /\ inner p' = inner p /\ forall e, end_count e p' = end_count e p.
Proof.
  intros [Hq Hc] Et Hcalm Hww Hnew. pose proof (wake_one_ok ReadEnd p ps ts Hq) as Hw. destruct (wake_one_at ReadEnd p ps) as [p' ps']. destruct Hw as (Hq' & Hc' & Hcnt & Hi & Hres). specialize (Hc' Hc).
  assert (Hold : forall t0, ts !! tid = Some t0 -> calm (t_at t0) = true) by (intros t0 E; congruence).
  split; [|by split]. split; [by apply (q_inv_moved p')|]. apply (c_inv_moved p'); try done.
  - intros _. right. right. destruct Hres as [(tid' & t' & Et' & He & Hn & Hb)|Hno]; [|by right]. left. exists tid', t'. split; [intros ->; rewrite Et in Et'; injection Et' as <-; congruence|].
    split; [done|]. unfold carrier. rewrite He, Hb. by destruct (t_at t').
  - right. left. split; [lia|]. intros t0 E. congruence.
Qed.

Lemma write_second_ok cap src t p ps ts tid o : wake_inv p ps ts -> ts !! tid = Some t -> ring_ok (inner p) -> t_at t = Second cap -> t_cur t = Some tid \/ t_cur t = None ->
  t_call t = Write src -> is_atomic src = false -> write_second (then_arm cap) src t p ps = Some o -> wake_inv (o_pipe o) (o_procs o) (moved ts tid (next_task (o_next o))).
Proof.
  intros Hinv Et Hring Hat Hcur Hcall Hna. assert (Hcalm : calm (t_at t) = true) by (by rewrite Hat). assert (Hww : wakes_writers (t_at t) = false) by (by rewrite Hat).
  assert (Hcar : carrier ps tid t = false) by (unfold carrier; by rewrite Hat).
  assert (Hstill : forall r, wake_inv p ps (moved ts tid None)) by (intros r; exact (good_ok tid t p ps ts _ Hinv Et Hcalm (good_still tid t p ps (Return r) ltac:(done) Hww ltac:(by left)))).
  unfold write_second. destruct (Z.eqb_spec (readers p) 0) as [|Hrd]; [intros [= <-]; by apply (Hstill (Done 0))|]. rewrite space_spec by done. cbn [mbind option_bind].
  destruct (Z.ltb_spec 0 (free_space (inner p))) as [Hroom|Hroom].
  2: { destruct (t_nonblock t); [intros [= <-]; by apply (Hstill (Done 0))|]. intros Ho.
    destruct (arm_ok cap t t p ps ts tid []) as (o' & Ho' & Hw); try done; [|congruence]. unfold must_wait, need. rewrite Hcall, Hna. split; [done|]. cbn. lia. }
  destruct (write_spec (drop (Z.to_nat (t_written t)) src) (inner p) Hring) as (i & E & Hi & Hci & Hcap & _). set (n := Z.min _ _) in *. rewrite E. cbn [mbind option_bind].
  set (t1 := at_ (WakeReader None) (having_written (t_written t + n) t)).
  pose proof (good_ok tid t p ps ts _ Hinv Et Hcalm (wrote_good tid t p ps Hring ltac:(by right; exists cap) src _ i n (t_written t + n) None [] Hcall E)) as H1. cbn in H1. fold t1 in H1.
  assert (Et1 : moved ts tid (Some t1) !! tid = Some t1) by (apply moved_lookup; by left).
  pose proof (fun next => after_wake (with_inner i p) ps (moved ts tid (Some t1)) tid t1 next H1 Et1 eq_refl eq_refl) as H2.
  destruct (wake_one_at ReadEnd (with_inner i p) ps) as [p2 ps2]. destruct (H2 None ltac:(done)) as (Hret & Hip & Hcnt). rewrite moved_moved in Hret.
  destruct (Z.eqb_spec (t_written t + n) (zlen src)) as [|Hne]; [by intros [= <-]|]. rewrite Hip. cbn [with_inner inner]. rewrite space_spec by done. cbn [mbind option_bind].
  destruct (Z.eqb_spec (free_space i) 0) as [H0|]; [|done]. cbn [negb]. destruct (t_nonblock t); [by intros [= <-]|]. intros Ho.
  destruct (H2 (Some (at_ Preparing (having_written (t_written t + n) t))) ltac:(by intros t' [= <-])) as (Hprep & _). rewrite moved_moved in Hprep.
  destruct (arm_ok cap (having_written (t_written t + n) t) (at_ Preparing (having_written (t_written t + n) t)) p2 ps2 _ tid [Accepted (t_id t) (take (Z.to_nat n) (drop (Z.to_nat (t_written t)) src))] Hprep) as (o' & Ho' & Hw); try done.
  - apply moved_lookup. by left.
  - unfold must_wait, need. cbn. rewrite Hcall, Hna, Hip. cbn. split; [|lia]. specialize (Hcnt ReadEnd). cbn in Hcnt. lia.
  - rewrite moved_moved in Hw. rewrite Ho in Ho'. by injection Ho' as <-.
Qed.

(** * Every step *)
Lemma first_wake t p ps ts tid o : wake_inv p ps ts -> ts !! tid = Some t -> ring_ok (inner p) -> t_at t = First ->
  (forall m, t_call t = Read m \/ t_call t = ReadWithCommit m -> 0 <= m) ->
  first_pass t p ps = Some o -> wake_inv (o_pipe o) (o_procs o) (moved ts tid (next_task (o_next o))).
Proof.
  intros Hinv Et Hring Hat Hm Ho. assert (Hcalm : calm (t_at t) = true) by (by rewrite Hat). assert (Hpass : t_at t = First \/ exists cap, t_at t = Second cap) by (by left).
  assert (Ha : answers then_prepare tid t p ps (first_pass t p ps)).
  { unfold first_pass. destruct (t_call t) as [m|m|src] eqn:Hcall; [apply read_answers; eauto|apply commit_answers; eauto|].
    destruct (is_atomic src) eqn:Hb; [by apply atomic_answers|by apply write_first_answers]. }
  destruct Ha as [(o' & E & Hg)|[E Hmust]]; rewrite Ho in E; [injection E as ->; by apply (good_ok tid t p ps)|]. injection E as ->. unfold then_prepare. cbn.
  apply (good_ok tid t p ps ts (mkStep p ps [] (Goto (at_ Preparing t)))); try done. apply good_still; [by intros t' [= <-]|by rewrite Hat|]. destruct Hmust as [_ Hmust].
  destruct (t_call t) eqn:Hcall; [by right; left..|]. left. unfold carrier. by rewrite Hat, Hcall.
Qed.

Lemma second_wake cap t p ps ts tid o : wake_inv p ps ts -> ts !! tid = Some t -> ring_ok (inner p) -> t_at t = Second cap -> t_cur t = Some tid \/ t_cur t = None ->
  (forall m, t_call t = Read m \/ t_call t = ReadWithCommit m -> 0 <= m) ->
  second_pass cap t p ps = Some o -> wake_inv (o_pipe o) (o_procs o) (moved ts tid (next_task (o_next o))).
Proof.
  intros Hinv Et Hring Hat Hcur Hm Ho. assert (Hcalm : calm (t_at t) = true) by (by rewrite Hat). assert (Hpass : t_at t = First \/ exists cap, t_at t = Second cap) by (by right; exists cap).
  assert (Ha : answers (then_arm cap) tid t p ps (second_pass cap t p ps) \/ exists src, t_call t = Write src /\ is_atomic src = false).
  { unfold second_pass. destruct (t_call t) as [m|m|src] eqn:Hcall; [left; apply read_answers; eauto|left; apply commit_answers; eauto|].
    destruct (is_atomic src) eqn:Hb; [left; by apply atomic_answers|right; by exists src]. }
  destruct Ha as [[(o' & E & Hg)|[E Hmust]]|(src & Hcall & Hb)].
  - rewrite Ho in E. injection E as ->. by apply (good_ok tid t p ps).
  - destruct (arm_ok cap t t p ps ts tid []) as (o' & Ho' & Hw); try done; [unfold carrier; by rewrite Hat|by rewrite Hat|]. rewrite Ho in E. rewrite <- E in Ho'. by injection Ho' as ->.
  - unfold second_pass in Ho. rewrite Hcall, Hb in Ho. by eapply write_second_ok.
Qed.


Section step_wake.
Context (t : Task) (p : Pipe) (ps : Procs) (ts : Tasks) (tid : Z).
Context (Hinv : wake_inv p ps ts) (Et : ts !! tid = Some t) (Hring : ring_ok (inner p)).

Abbreviation kept o := (wake_inv (o_pipe o) (o_procs o) (moved ts tid (next_task (o_next o)))).

(** Steps on no lock at all *)
Lemma still_wake n : calm (t_at t) = true -> wakes_writers (t_at t) = false -> (forall t', n = Goto t' -> calm (t_at t') = true) ->
  carrier ps tid t = false \/ data_left p = false \/ takes_over ps tid (next_task n) = true -> kept (mkStep p ps [] n).
Proof. intros. by apply (good_ok tid t p ps), good_still. Qed.

Lemma interrupt_wake : calm (t_at t) = true -> wakes_writers (t_at t) = false -> carrier ps tid t = false \/ t_waited t = true /\ call_end (t_call t) = ReadEnd ->
  kept (interrupt t p ps).
Proof.
  intros Hc Hw Hcar. unfold interrupt. destruct (t_call t) eqn:Hcall; [destruct (t_waited t)..|]; apply still_wake; try done; try (by intros t' [= <-]); try (by right; right).
  all: left; naive_solver.
Qed.

Lemma top_wake : t_at t = Top -> kept (top t p ps).
Proof.
  intros Hat. assert (Hcalm : calm (t_at t) = true) by (by rewrite Hat). assert (Hww : wakes_writers (t_at t) = false) by (by rewrite Hat).
  assert (Hcar : carrier ps tid t = false \/ t_waited t = true /\ call_end (t_call t) = ReadEnd).
  { unfold carrier. rewrite Hat. case_bool_decide; [|by left]. destruct (t_waited t); [by right|by left]. }
  assert (Hgo : kept (mkStep p ps [] (Goto (at_ First t)))).
  { apply still_wake; try done; [by intros t' [= <-]|]. destruct Hcar as [|[Hw He]]; [by left|]. right. right. unfold takes_over, carrier. cbn. by rewrite He, Hw. }
  pose proof (interrupt_wake Hcalm Hww Hcar). unfold top. destruct (t_call t) eqn:Hcall; [by destruct (task_interrupted ps t)..|].
  destruct (_ && _); [|by destruct (task_interrupted ps t)]. apply still_wake; try done. left. unfold carrier. by rewrite Hat, Hcall.
Qed.

Lemma copied_wake copyout b o : t_at t = Copying b -> (read_inflight (inner p) = true /\ b `prefix_of` contents (inner p) /\ b <> []) -> copied copyout b t p ps = Some o -> kept o.
Proof.
  intros Hat (Hfl & [k Hk] & Hne). pose proof (zlen_contents _ Hring) as Hl. assert (Hb : 0 <= zlen b <= len (inner p)) by (rewrite <- Hl, Hk, zlen_app; pose proof (zlen_nonneg b); pose proof (zlen_nonneg k); lia).
  assert (Hcalm : calm (t_at t) = true) by (by rewrite Hat). unfold copied. destruct copyout as [e|].
  - destruct (finish_spec (zlen b) false (inner p) Hring Hb Hfl) as (i & -> & Hi & Hci & Hcap & Hfl'). intros [= <-]. apply (good_ok tid t p ps); try done.
    split; cbn; try done; [by intros t' [= <-]|by left|]. right. rewrite Hat. split; [|done]. pose proof (zlen_contents _ Hi) as Hl'. rewrite Hci in Hl'. unfold free_space. lia.
  - destruct (finish_spec (zlen b) true (inner p) Hring Hb Hfl) as (i & -> & Hi & Hci & Hcap & Hfl'). intros [= <-]. apply (good_ok tid t p ps); try done.
    split; cbn; try done; [by intros t' [= <-]|by left|by left].
Qed.

Lemma wake_writers_wake pass r : t_at t = WakeWriters pass r ->
  kept (let '(p', ps') := wake_all_at WriteEnd p ps in mkStep p' ps' [] (if pass then Goto (at_ (PassOn r) t) else Return r)).
Proof.
  intros Hat. destruct Hinv as [Hq Hc]. pose proof (wake_all_ok WriteEnd p ps ts Hq) as Hw. destruct (wake_all_at WriteEnd p ps) as [p' ps']. destruct Hw as (Hq' & Hcnt & Hi & Hb & Hno). cbn.
  assert (Hc' : c_inv p' ps' ts) by (apply (c_inv_mono p _ ps); try done; by intros tid' t' _; apply Hb).
  assert (Hold : forall t0, ts !! tid = Some t0 -> calm (t_at t0) = true) by (intros t0 E; rewrite Et in E; injection E as <-; by rewrite Hat).
  assert (Hnew : forall t0, next_task (if pass then Goto (at_ (PassOn r) t) else Return r) = Some t0 -> calm (t_at t0) = true) by (destruct pass; [by intros t0 [= <-]|done]).
  split; [by apply (q_inv_moved p')|]. apply (c_inv_moved p'); try done; [|by right; right]. intros Hd. destruct pass; [by left|]. right. left. split; [done|].
  intros t0 E. rewrite Et in E. injection E as <-. unfold carrier. by rewrite Hat.
Qed.

Lemma step_wake al copyout o : t_cur t = Some tid \/ t_cur t = None -> (forall m, t_at t = First \/ (exists cap, t_at t = Second cap) -> t_call t = Read m \/ t_call t = ReadWithCommit m -> 0 <= m) ->
  (forall b, t_at t = Copying b -> read_inflight (inner p) = true /\ b `prefix_of` contents (inner p) /\ b <> []) ->
  step al copyout t p ps = Some o -> kept o.
Proof.
  intros Hcur Hm Hopen. unfold step. destruct (t_at t) as [| | |cap| | | |b|pass r|r|r|r] eqn:Hat.
  - intros [= <-]. by apply top_wake.
  - apply first_wake; eauto.
  - intros [= <-]. unfold prepare_step. destruct (prepare_current_wait_capacity _ _ _); apply still_wake; rewrite ?Hat; try done; try (by intros t' [= <-]); left; unfold carrier; by rewrite Hat.
  - apply (second_wake cap); eauto.
  - intros [= <-]. assert (Hc : carrier ps tid t = false) by (unfold carrier; by rewrite Hat). pose proof (interrupt_wake ltac:(by rewrite Hat) ltac:(by rewrite Hat) (or_introl Hc)).
    unfold refused. repeat case_match; try done; apply still_wake; rewrite ?Hat; try done; try (by intros t' [= <-]); by left.
  - intros [= <-]. by apply asleep_ok.
  - intros [= <-]. by apply awake_ok.
  - intros Ho. by eapply copied_wake; [..|exact Ho]; eauto.
  - pose proof (wake_writers_wake pass r Hat) as Hw. destruct (wake_all_at WriteEnd p ps) as [p' ps']. intros [= <-]. done.
  - intros [= <-]. destruct (data_left p) eqn:Hd; apply still_wake; rewrite ?Hat; try done; [by intros t' [= <-]|by right; right|by right; left].
  - pose proof (after_wake p ps ts tid t None Hinv Et ltac:(by rewrite Hat) ltac:(by rewrite Hat) ltac:(done)) as Hw. destruct (wake_one_at ReadEnd p ps) as [p' ps']. intros [= <-]. apply Hw.
  - pose proof (fun next => after_wake p ps ts tid t next Hinv Et ltac:(by rewrite Hat) ltac:(by rewrite Hat)) as Hw. destruct (wake_one_at ReadEnd p ps) as [p' ps']. intros [= <-].
    destruct r; apply Hw; [done|by intros t' [= <-]].
Qed.
End step_wake.
