(* ===== verification/PipeLive.v ===== *)
(** The sleepers' invariant along every run in which interrupts are not
    withdrawn, and the calls that cannot stay: those that may not block and
    those that are interrupted. *)

From Stdlib Require Import ZArith Lia.
From stdpp Require Import base list list_numbers numbers gmap.
From S2P Require Import Prelude Machine WaitQueue WaitFacts Pipe PipeFacts PipeCalls PipeRun PipeTrace PipeWake PipeSteps.

(** * The sleepers along a run *)
(** No interrupt is taken back, and new processes have generations below the tag. *)
Definition steady (e : Event) : Prop :=
  match e with
  | Withdraw _ => False
  | Outside _ (Some pr) => 0 <= p_generation pr < 2 ^ 63
  | _ => True
  end.

Abbreviation sys_wake s := (wake_inv (pipe s) (procs s) (tasks s)).

(** The pipe changes in nothing the sleepers look at. *)
Lemma wake_frame p p' ps ts : wake_inv p ps ts -> inner p' = inner p -> (forall e, queue_of e p' = queue_of e p) -> (forall e, end_count e p' = end_count e p) -> wake_inv p' ps ts.
Proof.
  intros [Hq Hc] Hi Hqs Hcs. split; [|by apply (c_inv_mono p _ ps)]. destruct Hq as [Hg Hnd Hin Hen Hcu]. split; try done; intros e; rewrite Hqs; [done|apply Hin|apply Hen].
Qed.

Lemma wake_gentle p ps ps' ts : wake_inv p ps ts -> gentle (fun pid => is_Some (ts !! pid)) ps ps' -> wake_inv p ps' ts.
Proof.
  intros [Hq Hc] [Hg Hgen Hbl Hint Hwk]. split; [|apply (c_inv_mono p _ ps); try done; intros tid t Et; by apply Hbl]. destruct Hq as [Hg0 Hnd Hin Hentry Hcur]. split; [by apply Hg|done| | |done].
  - intros e tid t [Et He Hat Hb]. destruct (Hin e tid t) as (pr & Epr & Hx); [split; try done; by apply Hbl|].
    specialize (Hgen tid (mk_is_Some _ _ Et)). rewrite Epr in Hgen. destruct (ps' !! tid) as [pr'|]; [|done]. injection Hgen as Hgen. exists pr'. by rewrite Hgen.
  - intros e x Hx. destruct (Hentry e x Hx) as (t & Et & He & Hen). exists t. do 2 (split; [done|]). specialize (Hint x.1 (mk_is_Some _ _ Et)). specialize (Hwk x.1 (mk_is_Some _ _ Et)). unfold entitled in *. naive_solver.
Qed.

Lemma outside_wake pid pr p ps ts : wake_inv p ps ts -> ts !! pid = None -> steady (Outside pid pr) -> wake_inv p (partial_alter (fun _ => pr) pid ps) ts.
Proof.
  intros Hw Hno Hst. apply (wake_gentle p ps); [done|]. apply outside_gentle; [rewrite Hno; by intros []|]. by intros ? ->.
Qed.

Lemma add_end_wake e p ps ts : wake_inv p ps ts -> wake_inv (add_end e p) ps ts.
Proof.
  intros [Hq Hc]. unfold add_end. set (n := saturating_step true (end_count e p)). assert (Hn : 0 < n) by (pose proof (ci_pos _ _ _ Hc e); subst n; cbn; unfold saturating_add, usize_max, u64_max; lia).
  split; [destruct Hq; split; try done; by destruct e|]. destruct Hc as [Hpos Hend Hdata Hspace]. split.
  - intros e'. specialize (Hpos e'). destruct e, e'; cbn in *; lia.
  - intros e' tid t Hs. specialize (Hend e' tid t Hs). destruct e, e'; cbn in *; lia.
  - intros Hd. apply Hdata. by destruct e.
  - intros tid t Hs. destruct e; exact (Hspace tid t Hs).
Qed.

Lemma close_end_wake e p ps ts : wake_inv p ps ts -> let '(p', ps') := close_end e p ps in wake_inv p' ps' ts.
Proof.
  intros [Hq Hc]. unfold close_end. set (p1 := with_count e (saturating_step false (end_count e p)) p).
  assert (Hq1 : q_inv p1 ps ts) by (destruct Hq; split; try done; by destruct e). pose proof (wake_all_ok (opposite e) p1 ps ts Hq1) as Hw. destruct (wake_all_at (opposite e) p1 ps) as [p2 ps2]. destruct Hw as (Hq2 & Hcnt & Hi & Hb & Hno).
  split; [done|]. destruct Hc as [Hpos Hend Hdata Hspace]. assert (Hi' : inner p2 = inner p) by (rewrite Hi; by destruct e).
  assert (Hs : forall e' tid t, sleeping e' ps2 ts tid t -> sleeping e' ps ts tid t) by (intros e' tid t []; split; try done; by apply Hb). split.
  - intros e'. rewrite Hcnt. specialize (Hpos e'). subst p1. unfold saturating_step, saturating_sub. destruct e, e'; cbn in *; lia.
  - intros e' tid t Ht. rewrite Hcnt. destruct (decide (e' = opposite e)) as [->|Hne]; [by destruct (Hno tid t)|]. specialize (Hend e' tid t (Hs _ _ _ Ht)). by destruct e, e'.
  - unfold data_left. rewrite Hi'. intros Hd tid t Ht. destruct (Hdata Hd tid t (Hs _ _ _ Ht)) as (tid' & t' & E & Hca). exists tid', t'. split; [done|]. apply (carrier_mono ps); [apply Hb|done].
  - rewrite Hi'. intros tid t Ht. exact (Hspace tid t (Hs _ _ _ Ht)).
Qed.

Lemma start_wake tid inp h c s : sys_wake s -> sys_wake (start tid inp h c s).
Proof.
  intros Hw. unfold start. destruct (tasks s !! tid) eqn:Htid; [done|]. destruct (handles s !! h); [|done]. destruct (negb _); [done|].
  assert (Hgo : forall t, t_at t = Top -> t_waited t = false -> wake_inv (pipe s) (procs s) (<[tid := t]> (tasks s))).
  { intros t Hat Hwt. destruct Hw as [Hq Hc]. change (<[tid := t]> (tasks s)) with (moved (tasks s) tid (Some t)).
    assert (Hold : forall t0, tasks s !! tid = Some t0 -> calm (t_at t0) = true) by (intros t0 E; congruence).
    assert (Hnew : forall t0, Some t = Some t0 -> calm (t_at t0) = true) by (intros t0 [= <-]; by rewrite Hat).
    split; [by apply (q_inv_moved (pipe s))|]. apply (c_inv_moved (pipe s)); try done.
    - intros Hd. right. left. split; [done|]. intros t0 E. congruence.
    - right. left. split; [lia|]. intros t0 E. congruence. }
  destruct c as [n|n|[|x src]]; [by apply Hgo..|done|by apply Hgo].
Qed.

Lemma run_wake tid al co s s' : base s -> sys_wake s -> run tid al co s = Some s' -> sys_wake s'.
Proof.
  intros Hb Hw. unfold run. destruct (tasks s !! tid) as [t|] eqn:Et; [|by intros [= <-]]. destruct (bs_task _ Hb _ _ Et) as [Htr Hopen _ Hcur _].
  destruct (step al co t (pipe s) (procs s)) as [o|] eqn:Ho; [|done]. cbn [mbind option_bind]. intros [= <-].
  assert (Hk : wake_inv (o_pipe o) (o_procs o) (moved (tasks s) tid (next_task (o_next o)))).
  { apply (step_wake t (pipe s) (procs s) (tasks s) tid Hw Et (bs_ring _ Hb) al co o Hcur); [|done|done]. intros m Hat Hcall. unfold on_track in Htr.
    assert (Hp : pending (t_at t) = None) by (destruct Hat as [->|[cap ->]]; done). rewrite Hp in Htr. destruct Hcall as [Hc|Hc]; rewrite Hc in Htr; by destruct Htr as (_ & _ & _ & ? & _). }
  by destruct (o_next o).
Qed.

Lemma exec_wake e s s' : base s -> event_ok e -> steady e -> sys_wake s -> exec e s = Some s' -> sys_wake s'.
Proof.
  intros Hb He Hs Hw. destruct e as [tid inp h c|tid al co|h h'|h|h c|h flags|h nb|pid rd|pid|pid|pid p]; cbn [exec]; [|by apply run_wake|..]; try (intros [= <-]).
  - by apply start_wake.
  - unfold duplicate. destruct (handles s !! h) as [hd|]; [|done]. destruct (handles s !! h'); [done|]. by apply add_end_wake.
  - unfold drop_handle. destruct (handles s !! h) as [hd|]; [|done]. destruct (in_use h s); [done|]. pose proof (close_end_wake (end_type hd) _ _ _ Hw). by destruct (close_end _ _ _).
  - unfold set_cap_id. by destruct (handles s !! h).
  - destruct (handles s !! h) as [hd|]; [|done]. unfold set_status_flags. destruct (mutable_file_status_bits flags); [|done]. apply (wake_frame (pipe s)); try done; destruct (end_type hd); done.
  - destruct (handles s !! h) as [hd|]; [|done]. apply (wake_frame (pipe s)); try done; destruct (end_type hd); done.
  - by apply (wake_gentle (pipe s) (procs s)), post_gentle.
  - done.
  - by apply (wake_gentle (pipe s) (procs s)), dispatch_gentle.
  - case_bool_decide as E; [|done]. by apply outside_wake.
Qed.

Lemma exec_all_wake es s s' : base s -> Forall event_ok es -> Forall steady es -> sys_wake s -> exec_all es s = Some s' -> sys_wake s'.
Proof.
  revert s. induction es as [|e es IH]; intros s Hb Hes Hss Hw; [by intros [= <-]|]. apply list.Forall_cons in Hes as [He Hes]. apply list.Forall_cons in Hss as [Hs Hss]. cbn.
  destruct (exec_base e s Hb He) as (s1 & E & Hb1). rewrite E. cbn. apply IH; try done. by apply (exec_wake e s s1).
Qed.

Lemma sys_new_wake cap nb ps : generations_ok ps -> sys_wake (sys_new cap nb ps).
Proof.
  intros Hg. split; split; try done.
  - intros []; constructor.
  - intros e tid t []. done.
  - intros [] x Hx; by apply elem_of_nil in Hx.
  - by intros [].
  - intros e tid t []. done.
  - intros tid t []. done.
Qed.

(** * Calls that cannot stay *)

(** Own steps left to a call that may not block, and to one that is interrupted *)
Definition rank_nonblock (a : At) : option nat :=
  match a with
  | Top => Some 7 | First => Some 6 | Copying _ => Some 5 | WakeWriters _ _ => Some 4 | PassOn _ => Some 3 | PassWake _ => Some 2
  | WakeReader (Some _) => Some 1
  | _ => None
  end%nat.

Definition rank_interrupted (a : At) : option nat :=
  match a with
  | First => Some 8 | WakeReader None => Some 7 | Preparing => Some 6 | Second _ | Asleep => Some 5 | Copying _ | Awake => Some 4
  | Top | Refused | WakeWriters _ _ => Some 3 | PassOn _ => Some 2 | PassWake _ | WakeReader (Some _) => Some 1
  end%nat.

(** Where a step can lead *)
Definition leads (Q : At -> Prop) (t : Task) (r : option Step) : Prop :=
  forall o, r = Some o -> match o_next o with Goto t' => Q (t_at t') /\ t_nonblock t' = t_nonblock t | Return _ => True end.

Section leads.
Context (Q : At -> Prop) (t : Task).

Lemma leads_bind {A} (x : option A) f : (forall a, x = Some a -> leads Q t (f a)) -> leads Q t (x ≫= f).
Proof. intros H. destruct x as [a|]; [by apply H|done]. Qed.

Lemma leads_goto p ps obs t' : Q (t_at t') -> t_nonblock t' = t_nonblock t -> leads Q t (Some (mkStep p ps obs (Goto t'))).
Proof. intros HQ Hn o [= <-]. done. Qed.

Lemma leads_return p ps obs r : leads Q t (Some (mkStep p ps obs (Return r))).
Proof. by intros o [= <-]. Qed.

Context (HWW : forall b r, Q (WakeWriters b r)) (HC : forall b, Q (Copying b)) (HWR : forall r, Q (WakeReader (Some r))).
Context (HTop : Q Top \/ forall m, t_call t = ReadWithCommit m -> 0 < m).
Context (otherwise : Task -> Pipe -> Procs -> list Obs -> option Step).

Lemma commit_leads m p ps : t_call t = ReadWithCommit m -> 0 <= m -> ring_ok (inner p) -> (t_nonblock t = false -> leads Q t (otherwise t p ps [])) -> leads Q t (commit_section otherwise m t p ps).
Proof.
  intros Hcall Hm Hring Hoth. unfold commit_section. destruct ((0 <? len (inner p)) && negb (read_inflight (inner p))) eqn:Hd.
  - apply andb_true_iff in Hd as [Hl%Z.ltb_lt Hf%negb_true_iff]. rewrite begin_spec by done. cbn. destruct (Z.eqb_spec m 0); apply leads_goto; try done; [|apply HC].
    destruct HTop as [|Hpos]; [done|]. specialize (Hpos m Hcall). lia.
  - destruct (writers p =? 0); [apply leads_return|]. destruct (t_nonblock t) eqn:Hn; [apply leads_return|]. by apply Hoth.
Qed.

Lemma read_leads m p ps : (t_nonblock t = false -> leads Q t (otherwise t p ps [])) -> leads Q t (read_section otherwise m t p ps).
Proof.
  intros Hoth. unfold read_section. destruct (0 <? len (inner p)); [apply leads_bind; intros [b i] _; apply leads_goto; [apply HWW|done]|].
  destruct (writers p =? 0); [apply leads_return|]. destruct (t_nonblock t) eqn:Hn; [apply leads_return|]. by apply Hoth.
Qed.

Lemma atomic_leads src p ps : (t_nonblock t = false -> leads Q t (otherwise t p ps [])) -> leads Q t (atomic_section otherwise src t p ps).
Proof.
  intros Hoth. unfold atomic_section. destruct (readers p =? 0); [apply leads_return|]. apply leads_bind. intros room _. destruct (zlen src <=? room).
  - apply leads_bind. intros [n i] _. destruct (n =? zlen src); [apply leads_goto; [apply HWR|done]|done].
  - destruct (t_nonblock t) eqn:Hn; [apply leads_return|]. by apply Hoth.
Qed.

Lemma write_first_leads src p ps : (t_nonblock t = false -> Q (WakeReader None) /\ leads Q t (otherwise t p ps [])) -> leads Q t (write_first otherwise src t p ps).
Proof.
  intros Hoth. unfold write_first. destruct (readers p =? 0); [apply leads_return|]. apply leads_bind. intros room _. destruct (0 <? room).
  - apply leads_bind. intros [n i] _. apply leads_goto; [|done]. cbn. destruct (_ =? _); [apply HWR|]. destruct (t_nonblock t) eqn:Hn; [apply HWR|]. by apply Hoth.
  - destruct (t_nonblock t) eqn:Hn; [apply leads_return|]. by apply Hoth.
Qed.

Lemma write_second_leads src p ps : (t_nonblock t = false -> forall t' p' obs, t_cur t' = t_cur t -> t_nonblock t' = t_nonblock t ->
    (forall ps', (forall pid, interrupted ps pid = true -> interrupted ps' pid = true) -> leads Q t (otherwise t' p' ps' obs))) -> leads Q t (write_second otherwise src t p ps).
Proof.
  intros Hoth. unfold write_second. destruct (readers p =? 0); [apply leads_return|]. apply leads_bind. intros room _. destruct (0 <? room).
  - apply leads_bind. intros [n i] _. unfold wake_one_at, wake_one. pose proof (wake_one_loop_spec (waiters (queue_of ReadEnd (with_inner i p))) ps) as Hw.
    destruct (wake_one_loop _ _) as [[w l] ps']. destruct Hw as [Hw _]. destruct (_ =? zlen src); [apply leads_return|]. apply leads_bind. intros room' _. destruct (negb _); [done|].
    destruct (t_nonblock t) eqn:Hn; [apply leads_return|]. apply Hoth; try done. intros pid. by rewrite (readied_interrupted _ _ _ pid (wk_readied _ _ _ _ Hw)).
  - destruct (t_nonblock t) eqn:Hn; [apply leads_return|]. by apply Hoth.
Qed.
End leads.

Lemma on_track_size L t m : pending (t_at t) = None -> t_call t = ReadWithCommit m -> on_track L t -> 0 <= m.
Proof. intros Hp Hc. unfold on_track. rewrite Hp, Hc. intros (_ & _ & _ & ? & _). done. Qed.

Lemma first_leads Q L t p ps : (forall b r, Q (WakeWriters b r)) -> (forall b, Q (Copying b)) -> (forall r, Q (WakeReader (Some r))) ->
  (Q Top \/ forall m, t_call t = ReadWithCommit m -> 0 < m) -> (t_nonblock t = false -> Q (WakeReader None) /\ Q Preparing) ->
  t_at t = First -> on_track L t -> ring_ok (inner p) -> leads Q t (first_pass t p ps).
Proof.
  intros HWW HC HWR HTop Hblock Hat Htr Hring. assert (Hprep : t_nonblock t = false -> leads Q t (then_prepare t p ps [])) by (intros Hn; apply leads_goto; [by apply Hblock|done]).
  unfold first_pass. destruct (t_call t) as [m|m|src] eqn:Hcall.
  - by apply read_leads.
  - apply commit_leads; try done; [by rewrite Hcall|]. eapply on_track_size; [|done|done]. by rewrite Hat.
  - destruct (is_atomic src); [by apply atomic_leads|]. apply write_first_leads; [done|]. intros Hn. split; [by apply Hblock|by apply Hprep].
Qed.

(** An interrupted task is not armed. *)
Lemma arm_leads Q t cap t' p ps obs pid : Q Refused -> t_cur t' = Some pid -> t_nonblock t' = t_nonblock t -> interrupted ps pid = true -> leads Q t (then_arm cap t' p ps obs).
Proof.
  intros HQ Hcur Hn Hi. unfold then_arm, try_prepare_to_wait_with_capacity. rewrite Hcur. destruct (wc_pid cap) as [pid'|]; [|by apply leads_goto].
  case_bool_decide as E; [|by apply leads_goto]. injection E as <-. rewrite Hi, orb_true_r. by apply leads_goto.
Qed.

Lemma second_leads Q L t p ps cap pid : (forall b r, Q (WakeWriters b r)) -> (forall b, Q (Copying b)) -> (forall r, Q (WakeReader (Some r))) -> Q Top -> Q Refused ->
  t_at t = Second cap -> on_track L t -> ring_ok (inner p) -> t_cur t = Some pid -> interrupted ps pid = true -> leads Q t (second_pass cap t p ps).
Proof.
  intros HWW HC HWR HTop HR Hat Htr Hring Hcur Hi. assert (Harm : leads Q t (then_arm cap t p ps [])) by (by apply (arm_leads Q t cap t p ps [] pid)).
  unfold second_pass. destruct (t_call t) as [m|m|src] eqn:Hcall.
  - by apply read_leads.
  - apply commit_leads; try done; [by left|]. eapply on_track_size; [|done|done]. by rewrite Hat.
  - destruct (is_atomic src); [by apply atomic_leads|]. apply write_second_leads. intros _ t' p' obs Hc Hn ps' Hps. apply (arm_leads Q t cap t' p' ps' obs pid); try done; [congruence|by apply Hps].
Qed.

Definition below (rank : At -> option nat) (k : nat) (a : At) : Prop := exists k', rank a = Some k' /\ (k' < k)%nat.

(** A read into no buffer at all goes back to the head of its loop. *)
Definition empty_read (c : Call) : bool := match c with ReadWithCommit m => m <=? 0 | _ => false end.

Ltac at_rank := first [apply leads_return | apply leads_goto; [left; eexists; split; [done|lia]|done]].

Lemma nonblock_leads L t p ps al co k : t_nonblock t = true -> rank_nonblock (t_at t) = Some k -> on_track L t -> ring_ok (inner p) ->
  leads (fun a => below rank_nonblock k a \/ (a = Top /\ empty_read (t_call t) = true)) t (step al co t p ps).
Proof.
  intros Hnb Hk Htr Hring. unfold step. destruct (t_at t) as [| | |cap| | | |b|pass r|r|r|[r|]] eqn:Hat; cbn in Hk; simplify_eq.
  - unfold top, interrupt. destruct (t_call t); [| |destruct (_ && _); [apply leads_return|]]; destruct (task_interrupted ps t); [destruct (t_waited t)| |destruct (t_waited t)| | |]; at_rank.
  - apply (first_leads _ L); try done; try (intros; left; eexists; split; [done|lia]); [|congruence].
    destruct (empty_read (t_call t)) eqn:E; [by left; right|]. right. intros m Hc. rewrite Hc in E. cbn in E. lia.
  - unfold copied. destruct co; apply leads_bind; intros i _; at_rank.
  - destruct (wake_all_at WriteEnd p ps). destruct pass; at_rank.
  - destruct (data_left p); at_rank.
  - destruct (wake_one_at ReadEnd p ps). at_rank.
  - destruct (wake_one_at ReadEnd p ps). at_rank.
Qed.

Ltac at_place := first [apply leads_return | apply leads_goto; [eexists; split; [done|lia]|done]].

Lemma interrupted_leads L t p ps al co k pid : t_cur t = Some pid -> interrupted ps pid = true -> rank_interrupted (t_at t) = Some k -> on_track L t -> ring_ok (inner p) ->
  leads (below rank_interrupted k) t (step al co t p ps).
Proof.
  intros Hcur Hi Hk Htr Hring. assert (Hti : task_interrupted ps t = true) by (unfold task_interrupted; by rewrite Hcur).
  unfold step. destruct (t_at t) as [| | |cap| | | |b|pass r|r|r|[r|]] eqn:Hat; cbn in Hk; simplify_eq.
  - unfold top, interrupt. rewrite Hti. destruct (t_call t); [destruct (t_waited t); at_place..|]. destruct (_ && _); at_place.
  - apply (first_leads _ L); try done; try (intros; eexists; split; [done|lia]); [left; eexists; split; [done|lia]|]. intros _. split; eexists; (split; [done|lia]).
  - unfold prepare_step. destruct (prepare_current_wait_capacity _ _ _); at_place.
  - apply (second_leads _ L t p ps cap pid); try done; intros; eexists; (split; [done|lia]).
  - unfold refused, interrupt. rewrite Hti, Hcur. destruct (0 <? t_written t); [at_place|]. destruct (closed _); [at_place|]. destruct (t_call t); [destruct (t_waited t); at_place..|at_place].
  - unfold asleep. rewrite Hcur. unfold wait_resolved. rewrite Hi, orb_true_r. at_place.
  - unfold awake. destruct (finish_wait_tail _ _ _). apply leads_goto; [eexists; split; [done|lia]|]. by destruct (t_call t).
  - unfold copied. destruct co; apply leads_bind; intros i _; at_place.
  - destruct (wake_all_at WriteEnd p ps). destruct pass; at_place.
  - destruct (data_left p); at_place.
  - destruct (wake_one_at ReadEnd p ps). at_place.
  - destruct (wake_one_at ReadEnd p ps). at_place.
  - destruct (wake_one_at ReadEnd p ps). at_place.
Qed.

(** * Interrupts survive every step *)
Definition keeps_interrupts (ps ps' : Procs) : Prop := forall pid, interrupted ps' pid = interrupted ps pid.

Lemma alter_keeps f pid ps : (forall pr, p_abort (f pr) = p_abort pr) -> keeps_interrupts ps (alter f pid ps).
Proof.
  intros Hf x. unfold interrupted. destruct (decide (x = pid)) as [->|]; [rewrite lookup_alter_eq|by rewrite lookup_alter_ne]. destruct (ps !! pid); [apply Hf|done].
Qed.

Lemma wake_one_at_keeps e p ps : keeps_interrupts ps (wake_one_at e p ps).2.
Proof.
  unfold wake_one_at, wake_one. pose proof (wake_one_loop_spec (waiters (queue_of e p)) ps) as Hw. destruct (wake_one_loop _ _) as [[w l] ps']. destruct Hw as [[_ Hr _ _] _].
  intros pid. by apply (readied_interrupted _ _ _ _ Hr).
Qed.

Lemma wake_all_at_keeps e p ps : keeps_interrupts ps (wake_all_at e p ps).2.
Proof.
  unfold wake_all_at, wake_all. pose proof (wake_all_loop_spec (waiters (queue_of e p)) 0 ps) as Hw. destruct (wake_all_loop _ _ _) as [w ps']. destruct Hw as [Hr _].
  intros pid. by apply (readied_interrupted _ _ _ _ Hr).
Qed.

Definition keeps (ps : Procs) (r : option Step) : Prop := forall o, r = Some o -> keeps_interrupts ps (o_procs o).

Lemma keeps_same ps p obs n : keeps ps (Some (mkStep p ps obs n)).
Proof. by intros o [= <-]. Qed.

Lemma keeps_bind {A} ps (x : option A) f : (forall a, x = Some a -> keeps ps (f a)) -> keeps ps (x ≫= f).
Proof. intros H. destruct x as [a|]; [by apply H|done]. Qed.

Lemma then_arm_keeps cap t p ps obs : keeps ps (then_arm cap t p ps obs).
Proof.
  unfold then_arm. apply keeps_bind. intros [[out q] ps'] Htry o [= <-]. cbn. unfold try_prepare_to_wait_with_capacity, mbind, option_bind in Htry.
  repeat case_match; simplify_eq; try done; by apply alter_keeps.
Qed.

Lemma keeps_trans ps ps' r : keeps_interrupts ps ps' -> keeps ps' r -> keeps ps r.
Proof. intros H1 H2 o Ho pid. by rewrite (H2 o Ho), H1. Qed.

Lemma sections_keep otherwise t p ps : (forall t p ps obs, keeps ps (otherwise t p ps obs)) ->
  (forall m, keeps ps (read_section otherwise m t p ps)) /\ (forall m, keeps ps (commit_section otherwise m t p ps)) /\
  (forall src, keeps ps (atomic_section otherwise src t p ps)) /\ (forall src, keeps ps (write_first otherwise src t p ps)) /\ (forall src, keeps ps (write_second otherwise src t p ps)).
Proof.
  intros Hoth. repeat split; intros x.
  - unfold read_section. destruct (0 <? _); [apply keeps_bind; intros [b i] _; apply keeps_same|]. repeat case_match; try apply keeps_same. apply Hoth.
  - unfold commit_section. destruct (_ && _); [apply keeps_bind; intros [[b|] i] _; apply keeps_same|]. repeat case_match; try apply keeps_same. apply Hoth.
  - unfold atomic_section. destruct (readers p =? 0); [apply keeps_same|]. apply keeps_bind. intros room _. destruct (zlen x <=? room); [apply keeps_bind; intros [n i] _; case_match; [apply keeps_same|done]|].
    case_match; [apply keeps_same|apply Hoth].
  - unfold write_first. destruct (readers p =? 0); [apply keeps_same|]. apply keeps_bind. intros room _. destruct (0 <? room); [apply keeps_bind; intros [n i] _; apply keeps_same|].
    case_match; [apply keeps_same|apply Hoth].
  - unfold write_second. destruct (readers p =? 0); [apply keeps_same|]. apply keeps_bind. intros room _. destruct (0 <? room); [|case_match; [apply keeps_same|apply Hoth]].
    apply keeps_bind. intros [n i] _. pose proof (wake_one_at_keeps ReadEnd (with_inner i p) ps) as Hw. destruct (wake_one_at ReadEnd (with_inner i p) ps) as [p' ps']. cbn in Hw. apply (keeps_trans ps ps'); [done|].
    case_match; [apply keeps_same|]. apply keeps_bind. intros room' _. case_match; [done|]. case_match; [apply keeps_same|apply Hoth].
Qed.

Lemma finish_wait_keeps cur q ps : keeps_interrupts ps (finish_wait_tail cur q ps).2.
Proof.
  unfold finish_wait_tail, cancel_wait. destruct cur as [pid|]; [|done]. destruct (interrupted ps pid); [|done]. destruct (queued pid q); [|done]. cbn. destruct (is_blocked ps pid); [|done]. by apply alter_keeps.
Qed.

Lemma step_keeps al co t p ps : keeps ps (step al co t p ps).
Proof.
  assert (Hprep : forall t p ps obs, keeps ps (then_prepare t p ps obs)) by (intros; apply keeps_same).
  unfold step. destruct (t_at t) as [| | |cap| | | |b|pass r|r|r|r].
  - unfold top, interrupt. repeat case_match; apply keeps_same.
  - unfold first_pass. destruct (sections_keep then_prepare t p ps Hprep) as (? & ? & ? & ? & _). repeat case_match; auto.
  - unfold prepare_step. case_match; apply keeps_same.
  - unfold second_pass. destruct (sections_keep (then_arm cap) t p ps (then_arm_keeps cap)) as (? & ? & ? & _ & ?). repeat case_match; auto.
  - unfold refused, interrupt. repeat case_match; apply keeps_same.
  - unfold asleep. case_match; apply keeps_same.
  - unfold awake. pose proof (finish_wait_keeps (t_cur t) (queue_of (call_end (t_call t)) p) ps) as Hk. destruct (finish_wait_tail _ _ _) as [q ps']. by intros o [= <-].
  - unfold copied. destruct co; apply keeps_bind; intros i _; apply keeps_same.
  - pose proof (wake_all_at_keeps WriteEnd p ps) as Hk. destruct (wake_all_at WriteEnd p ps). by intros o [= <-].
  - apply keeps_same.
  - pose proof (wake_one_at_keeps ReadEnd p ps) as Hk. destruct (wake_one_at ReadEnd p ps). by intros o [= <-].
  - pose proof (wake_one_at_keeps ReadEnd p ps) as Hk. destruct (wake_one_at ReadEnd p ps). by intros o [= <-].
Qed.

(** * Calls that must return *)
Definition urgent (s : System) (tid : Z) (t : Task) (k : nat) : Prop := tasks s !! tid = Some t /\
  ((t_nonblock t = true /\ empty_read (t_call t) = false /\ rank_nonblock (t_at t) = Some k) \/
   (t_cur t = Some tid /\ interrupted (procs s) tid = true /\ rank_interrupted (t_at t) = Some k)).

Lemma urgent_positive s tid t k : urgent s tid t k -> (1 <= k)%nat.
Proof. intros (_ & [(_ & _ & Hk)|(_ & _ & Hk)]); destruct (t_at t) as [| | | | | | | | | | |[]]; cbn in Hk; simplify_eq; lia. Qed.

Definition answered (s : System) (t : Task) : Prop := exists r, Returned (t_id t) (t_call t) r ∈ log s.

Lemma urgent_run s s' tid t k al co : base s -> urgent s tid t k -> run tid al co s = Some s' ->
  answered s' t \/ exists t' k', urgent s' tid t' k' /\ (k' < k)%nat /\ t_id t' = t_id t /\ t_call t' = t_call t.
Proof.
  intros Hb [Et Hu]. unfold run. rewrite Et. destruct (bs_task _ Hb _ _ Et) as [Htr Hopen _ _ _].
  destruct (step_effect (log s) t (pipe s) (procs s) (bs_ring _ Hb) Htr al co Hopen) as (o & Ho & He). rewrite Ho. cbn [mbind option_bind]. intros [= <-].
  pose proof (ef_next _ _ _ _ He) as Hn. destruct (o_next o) as [t'|r] eqn:En.
  - right. destruct Hn as [(Hid & Hcur & _ & Hcall & _) _]. exists t'. destruct Hu as [(Hnb & Hem & Hk)|(Hc & Hi & Hk)].
    + pose proof (nonblock_leads (log s) t (pipe s) (procs s) al co k Hnb Hk Htr (bs_ring _ Hb) o Ho) as Hl. rewrite En in Hl. destruct Hl as [[(k' & Hk' & Hlt)|[_ ?]] Hn']; [|congruence].
      exists k'. split; [|done]. split; [cbn; by rewrite lookup_insert_eq|]. left. rewrite Hcall. split; [congruence|done].
    + pose proof (interrupted_leads (log s) t (pipe s) (procs s) al co k tid Hc Hi Hk Htr (bs_ring _ Hb) o Ho) as Hl. rewrite En in Hl. destruct Hl as [(k' & Hk' & Hlt) _].
      exists k'. split; [|done]. split; [cbn; by rewrite lookup_insert_eq|]. right. split; [congruence|]. split; [|done]. cbn. by rewrite (step_keeps al co t (pipe s) (procs s) o Ho).
  - left. exists r. cbn. rewrite !elem_of_app. right. right. by left.
Qed.

Lemma exec_log e s s' : exec e s = Some s' -> log s `prefix_of` log s'.
Proof.
  destruct e as [tid inp h c|tid al co|h h'|h|h c|h flags|h nb|pid rd|pid|pid|pid p]; cbn [exec].
  2: { unfold run. destruct (tasks s !! tid) as [t|]; [|by intros [= <-]]. intros (o & _ & [= <-])%bind_Some. destruct (o_next o); by apply prefix_app_r. }
  all: intros [= <-]; try done.
  - unfold start. repeat case_match; cbn; try done; by apply prefix_app_r.
  - unfold duplicate. by repeat case_match.
  - unfold drop_handle. repeat case_match; done.
  - unfold set_cap_id. by case_match.
  - by case_match.
  - by case_match.
  - by case_match.
Qed.

Definition is_run (tid : Z) (e : Event) : bool := match e with Run tid' _ _ => tid' =? tid | _ => false end.
Definition runs_of (tid : Z) (es : list Event) : nat := length (List.filter (is_run tid) es).

(** What others do leaves an urgent call where it is. *)
Lemma urgent_other e s s' tid t k : is_run tid e = false -> e <> Withdraw tid -> urgent s tid t k -> exec e s = Some s' -> urgent s' tid t k.
Proof.
  intros Hr Hnw [Et Hu]. assert (Hsame : forall s2, tasks s2 !! tid = Some t -> (interrupted (procs s) tid = true -> interrupted (procs s2) tid = true) -> urgent s2 tid t k).
  { intros s2 Et' Hi. split; [done|]. destruct Hu as [?|(? & ? & ?)]; [by left|]. right. eauto. }
  destruct e as [tid' inp h c|tid' al co|h h'|h|h c|h flags|h nb|pid rd|pid|pid|pid p]; cbn [exec].
  2: { cbn in Hr. apply Z.eqb_neq in Hr. unfold run. destruct (tasks s !! tid') as [t'|]; [|by intros [= <-]]. intros (o & Ho & [= <-])%bind_Some.
    pose proof (step_keeps al co t' (pipe s) (procs s) o Ho tid) as Hk. destruct (o_next o); apply Hsame; cbn; try (by rewrite Hk); by rewrite ?lookup_insert_ne, ?lookup_delete_ne. }
  all: intros [= <-].
  - apply Hsame; unfold start; repeat case_match; cbn; try done; (rewrite lookup_insert_ne; [done|congruence]).
  - unfold duplicate. repeat case_match; by apply Hsame.
  - unfold drop_handle. destruct (handles s !! h) as [hd|]; [|by apply Hsame]. destruct (in_use h s); [by apply Hsame|]. unfold close_end.
    pose proof (wake_all_at_keeps (opposite (end_type hd)) (with_count (end_type hd) (saturating_step false (end_count (end_type hd) (pipe s))) (pipe s)) (procs s) tid) as Hk.
    destruct (wake_all_at _ _ _) as [p ps]. cbn in Hk. apply Hsame; [done|]. cbn. by rewrite Hk.
  - unfold set_cap_id. case_match; by apply Hsame.
  - case_match; by apply Hsame.
  - case_match; by apply Hsame.
  - apply Hsame; [done|]. unfold post, interrupted, enter_ready. cbn. intros Hi.
    assert (Ha : match alter (with_abort true) pid (procs s) !! tid with Some p => p_abort p | None => false end = true).
    { destruct (decide (tid = pid)) as [->|]; [rewrite lookup_alter_eq|by rewrite lookup_alter_ne]. by destruct (procs s !! pid). }
    destruct (rd && _); [|done]. destruct (decide (tid = pid)) as [->|]; [rewrite lookup_alter_eq|by rewrite lookup_alter_ne]. by destruct (alter _ _ _ !! pid).
  - apply Hsame; [done|]. cbn. unfold interrupted. rewrite lookup_alter_ne; [done|]. congruence.
  - apply Hsame; [done|]. cbn. unfold dispatch. rewrite alter_keeps; [done|]. intros pr. by case_bool_decide.
  - case_bool_decide as E; [|by apply Hsame]. apply Hsame; [done|]. unfold interrupted. cbn. rewrite lookup_partial_alter_ne; [done|]. congruence.
Qed.

Lemma exec_all_log es s s' : exec_all es s = Some s' -> log s `prefix_of` log s'.
Proof.
  revert s. induction es as [|e es IH]; intros s; [by intros [= <-]|]. cbn. intros (s1 & He & Hes)%bind_Some. etrans; [by eapply exec_log|by apply IH].
Qed.

Lemma answered_later es s s' t : answered s t -> exec_all es s = Some s' -> answered s' t.
Proof. intros [r Hr] [l Hl]%exec_all_log. exists r. rewrite Hl. apply elem_of_app. by left. Qed.

Lemma urgent_returns es s s' tid t k : base s -> Forall event_ok es -> Withdraw tid ∉ es -> urgent s tid t k -> (k <= runs_of tid es)%nat -> exec_all es s = Some s' -> answered s' t.
Proof.
  revert s t k. induction es as [|e es IH]; intros s t k Hb Hes Hnw Hu Hk; [pose proof (urgent_positive _ _ _ _ Hu); cbn in Hk; lia|].
  apply list.Forall_cons in Hes as [He Hes]. apply not_elem_of_cons in Hnw as [Hne Hnw]. destruct (exec_base e s Hb He) as (s1 & E & Hb1). cbn [exec_all]. rewrite E. cbn [mbind option_bind]. intros Hex.
  unfold runs_of in Hk. cbn in Hk. destruct (is_run tid e) eqn:Hrun.
  - destruct e; try done. cbn in Hrun. apply Z.eqb_eq in Hrun as ->. destruct (urgent_run s s1 tid t k al copyout Hb Hu E) as [Ha|(t' & k' & Hu' & Hlt & Hid & Hcall)]; [by eapply answered_later|].
    destruct (IH s1 t' k') as [r Hr]; try done; [cbn in Hk; unfold runs_of; lia|]. exists r. by rewrite <- Hid, <- Hcall.
  - by apply (IH s1 t k Hb1 Hes Hnw (urgent_other e s s1 tid t k Hrun (fun H => Hne (eq_sym H)) Hu E) Hk).
Qed.

(** * What holds of every task *)
Section every_task.
Context (P : Task -> Prop) (Htop : forall t, t_at t = Top -> P t).
Context (Hstep : forall L al co t p ps o t', on_track L t -> ring_ok (inner p) -> copy_open t (inner p) -> step al co t p ps = Some o -> o_next o = Goto t' -> same_call t t' -> P t -> P t').

Definition every_task (s : System) : Prop := forall tid t, tasks s !! tid = Some t -> P t.

Lemma exec_every_task e s s' : base s -> every_task s -> exec e s = Some s' -> every_task s'.
Proof.
  intros Hb HP. assert (Hsame : forall s2, tasks s2 = tasks s -> every_task s2) by (intros s2 E tid t; rewrite E; apply HP).
  destruct e as [tid inp h c|tid al co|h h'|h|h c|h flags|h nb|pid rd|pid|pid|pid p]; cbn [exec].
  2: { unfold run. destruct (tasks s !! tid) as [t|] eqn:Et; [|by intros [= <-]]. destruct (bs_task _ Hb _ _ Et) as [Htr Hopen _ _ _].
    destruct (step_effect (log s) t (pipe s) (procs s) (bs_ring _ Hb) Htr al co Hopen) as (o & Ho & Hef). rewrite Ho. cbn [mbind option_bind]. intros [= <-]. pose proof (ef_next _ _ _ _ Hef) as Hn.
    destruct (o_next o) as [t'|r] eqn:En; intros tid' t1; cbn; [intros [[<- <-]|[? E]]%lookup_insert_Some; [|by apply (HP tid')]|intros [? E]%lookup_delete_Some; by apply (HP tid')].
    destruct Hn as [Hsc _]. by apply (Hstep (log s) al co t (pipe s) (procs s) o t' Htr (bs_ring _ Hb) Hopen Ho En Hsc), (HP tid). }
  all: intros [= <-].
  - unfold start. repeat case_match; try (by apply Hsame); intros tid' t'; cbn; (intros [[<- <-]|[? E]]%lookup_insert_Some; [by apply Htop|by apply (HP tid')]).
  - unfold duplicate. repeat case_match; by apply Hsame.
  - unfold drop_handle. repeat case_match; by apply Hsame.
  - unfold set_cap_id. case_match; by apply Hsame.
  - case_match; by apply Hsame.
  - case_match; by apply Hsame.
  - by apply Hsame.
  - by apply Hsame.
  - by apply Hsame.
  - case_match; by apply Hsame.
Qed.

Lemma exec_all_every_task es s s' : base s -> Forall event_ok es -> every_task s -> exec_all es s = Some s' -> every_task s'.
Proof.
  revert s. induction es as [|e es IH]; intros s Hb Hes HP; [by intros [= <-]|]. apply list.Forall_cons in Hes as [He Hes]. cbn.
  destruct (exec_base e s Hb He) as (s1 & E & Hb1). rewrite E. cbn. apply IH; try done. by apply (exec_every_task e s s1).
Qed.
End every_task.

(** Calls that may not block are always at a place with a rank. *)
Definition ranked (t : Task) : Prop := t_nonblock t = true -> exists k, rank_nonblock (t_at t) = Some k /\ (k <= 7)%nat.

Lemma rank_bound a k : rank_nonblock a = Some k -> (k <= 7)%nat.
Proof. destruct a as [| | | | | | | | | | |[]]; cbn; intros; simplify_eq; lia. Qed.

Lemma step_ranked L al co t p ps o t' : on_track L t -> ring_ok (inner p) -> copy_open t (inner p) -> step al co t p ps = Some o -> o_next o = Goto t' -> same_call t t' -> ranked t -> ranked t'.
Proof.
  intros Htr Hring _ Ho En (_ & _ & _ & _ & Hnb) Hr. unfold ranked. rewrite Hnb. intros Hn. destruct (Hr Hn) as (k & Hk & _).
  pose proof (nonblock_leads L t p ps al co k Hn Hk Htr Hring o Ho) as Hl. rewrite En in Hl.
  destruct Hl as [[(k' & Hk' & _)|[-> _]] _]; [exists k'; split; [done|by eapply rank_bound]|exists 7%nat; done].
Qed.

Lemma top_ranked t : t_at t = Top -> ranked t.
Proof. intros Hat _. rewrite Hat. by exists 7%nat. Qed.

(** * End of file *)

(** How a reader comes to answer a count *)
Definition origin (t : Task) (p : Pipe) (n : Next) : Prop :=
  match n with
  | Return (Done k) => pending (t_at t) = Some (Done k) \/ (k = 0 /\ writers p = 0 /\ data_left p = false)
  | Return _ => True
  | Goto t' => forall k, pending (t_at t') = Some (Done k) -> pending (t_at t) = Some (Done k) \/ exists b, t_at t = Copying b /\ k = zlen b
  end.

Lemma commit_origin otherwise m t p ps o : (forall o, otherwise t p ps [] = Some o -> exists a, o_next o = Goto (at_ a t) /\ pending a = None) ->
  commit_section otherwise m t p ps = Some o -> origin t p (o_next o).
Proof.
  intros Hoth. unfold commit_section. change ((0 <? len (inner p)) && negb (read_inflight (inner p))) with (data_left p). destruct (data_left p) eqn:Hd.
  - intros ([[b|] i] & _ & [= <-])%bind_Some; by intros k.
  - destruct (Z.eqb_spec (writers p) 0); [intros [= <-]; by right|]. destruct (t_nonblock t); [by intros [= <-]|]. intros (a & -> & Ha)%Hoth k. cbn. by rewrite Ha.
Qed.

Lemma interrupt_origin t p ps : origin t p (o_next (interrupt t p ps)) \/ call_end (t_call t) = WriteEnd.
Proof. unfold interrupt. destruct (t_call t); [left; by destruct (t_waited t)..|by right]. Qed.

Lemma step_origin al co m t p ps o : t_call t = ReadWithCommit m -> t_written t = 0 \/ pending (t_at t) <> None -> step al co t p ps = Some o -> origin t p (o_next o).
Proof.
  intros Hcall Hw. destruct (interrupt_origin t p ps) as [Hint|Hint]; [|by rewrite Hcall in Hint]. unfold step. destruct (t_at t) as [| | |cap| | | |b|pass r|r|r|r] eqn:Hat; cbn in Hw.
  - intros [= <-]. unfold top. rewrite Hcall. destruct (task_interrupted ps t); [done|by intros k].
  - unfold first_pass. rewrite Hcall. apply commit_origin. intros o' [= <-]. by exists Preparing.
  - destruct Hw as [Hw|[]]; [|done]. intros [= <-]. unfold prepare_step. destruct (prepare_current_wait_capacity _ _ _); [by intros k|]. by rewrite Hw.
  - unfold second_pass. rewrite Hcall. apply commit_origin. intros o'. destruct (then_arm_waits cap t p ps []) as (p' & ps' & a & -> & _ & _ & _ & Ha & _). intros [= <-]. by exists a.
  - destruct Hw as [Hw|[]]; [|done]. intros [= <-]. unfold refused. rewrite Hw. cbn. destruct (t_cur t); [|done]. destruct (closed _); [done|]. destruct (task_interrupted ps t); [done|by intros k].
  - intros [= <-]. unfold asleep. destruct (t_cur t) as [pid|]; [|by intros k]. destruct (wait_resolved ps pid); intros k; cbn; [done|by rewrite Hat].
  - intros [= <-]. unfold awake. destruct (finish_wait_tail _ _ _). by intros k.
  - unfold copied. destruct co as [e|]; intros (i & _ & [= <-])%bind_Some; intros k; cbn; [done|]. intros [= <-]. right. eauto.
  - destruct (wake_all_at WriteEnd p ps). intros [= <-]. cbn. destruct pass; cbn; [intros k; rewrite Hat; by left|]. rewrite Hat. destruct r; [by left|done..].
  - intros [= <-]. cbn. destruct (data_left p); cbn; [intros k; rewrite Hat; by left|]. rewrite Hat. destruct r; [by left|done..].
  - destruct (wake_one_at ReadEnd p ps). intros [= <-]. cbn. rewrite Hat. destruct r; [by left|done..].
  - destruct (wake_one_at ReadEnd p ps). intros [= <-]. destruct r as [r|]; cbn; [rewrite Hat; destruct r; [by left|done..]|by intros k].
Qed.

Lemma reader_written L t m : t_call t = ReadWithCommit m -> on_track L t -> t_written t = 0 \/ pending (t_at t) <> None.
Proof. intros Hc. unfold on_track. destruct (pending (t_at t)); [by right|]. rewrite Hc. intros (_ & ? & _). by left. Qed.

(** A count under way is of bytes. *)
Definition counts_bytes (t : Task) : Prop := forall m n, t_call t = ReadWithCommit m -> pending (t_at t) = Some (Done n) -> 0 < n.

Lemma step_counts_bytes L al co t p ps o t' : on_track L t -> ring_ok (inner p) -> copy_open t (inner p) -> step al co t p ps = Some o -> o_next o = Goto t' -> same_call t t' -> counts_bytes t -> counts_bytes t'.
Proof.
  intros Htr _ Hopen Ho En (_ & _ & _ & Hcall & _) Hc m n. rewrite Hcall. intros Hm Hp.
  pose proof (step_origin al co m t p ps o Hm (reader_written _ _ _ Hm Htr) Ho) as Hor. rewrite En in Hor.
  destruct (Hor n Hp) as [Hp'|(b & Hat & ->)]; [by apply (Hc m n Hm)|]. destruct (Hopen b Hat) as (_ & _ & Hne). destruct b; [done|]. rewrite zlen_cons. pose proof (zlen_nonneg b). lia.
Qed.

Lemma top_counts_bytes t : t_at t = Top -> counts_bytes t.
Proof. intros Hat m n _. by rewrite Hat. Qed.
