(* ===== verification/PipeCorrect.v ===== *)
(** Correctness of pipes under every interleaving of their calls. *)

From Stdlib Require Import ZArith Lia.
From stdpp Require Import base list list_numbers numbers gmap.
From S2P Require Import Prelude Machine WaitQueue WaitFacts Pipe PipeFacts PipeCalls PipeRun PipeTrace PipeWake PipeSteps PipeLive.

(** * A pipe with three processes *)
Definition three : Procs := list_to_map [(10, mkProcess Running 7 false); (11, mkProcess Running 8 false); (12, mkProcess Running 9 false)].

Definition go (tid : Z) : Event := Run tid (fun n => Some n) None.
Definition goes (n : nat) (tid : Z) : list Event := replicate n (go tid).

Definition writes (tid : Z) (src : list Z) : list Event := Start tid true WRITE_HANDLE (Write src) :: goes 3 tid.
Definition reads (tid : Z) (m : Z) (n : nat) : list Event := Start tid true READ_HANDLE (ReadWithCommit m) :: goes n tid.

Lemma three_generations : generations_ok three.
Proof.
  intros pid pr E%elem_of_list_to_map_2. rewrite !elem_of_cons, elem_of_nil in E. destruct E as [[= _ ->]|[[= _ ->]|[[= _ ->]|[]]]]; cbn; lia.
Qed.

Lemma events_checked es : forallb (fun e => match e with Start _ _ _ (Read n) | Start _ _ _ (ReadWithCommit n) => 0 <=? n | _ => true end) es = true -> Forall event_ok es.
Proof.
  rewrite forallb_forall. intros H. apply list.Forall_forall. intros e He%list_elem_of_In. specialize (H e He). destruct e as [? ? ? []| | | | | | | | | |]; cbn in *; try done; lia.
Qed.

Lemma steady_checked es : forallb (fun e => match e with Withdraw _ | Outside _ _ => false | _ => true end) es = true -> Forall steady es.
Proof. rewrite forallb_forall. intros H. apply list.Forall_forall. intros e He%list_elem_of_In. specialize (H e He). by destruct e. Qed.

Lemma standard_capacity : PIPE_BUF <= 4096 <= MAX_PIPE_CAPACITY.
Proof. unfold PIPE_BUF, MAX_PIPE_CAPACITY. lia. Qed.

(** * Bytes *)

(** C28 Whatever calls run on a pipe and however their steps interleave, nothing
    aborts, the bytes handed to readers followed by the bytes still held are the
    bytes taken from writers, in order; and every call that has returned answers
    for exactly its part: a write that returns [n] put in the first [n] bytes of
    its source, one of at most [PIPE_BUF] bytes all of them in one piece, a read
    that returns [n] got [n] bytes and at most what it asked for, and a call
    that fails moved nothing, also when the copy to the caller fails. *)
Theorem pipe_stream_exact cap nb ps es : PIPE_BUF <= cap <= MAX_PIPE_CAPACITY -> Forall event_ok es ->
  exists s, exec_all es (sys_new cap nb ps) = Some s /\
    handed_out (log s) ++ contents (inner (pipe s)) = taken_in (log s) /\
    forall id c r, Returned id c r ∈ log s -> answer_ok (log s) id c r.
Proof.
  intros Hcap Hes. destruct (exec_all_base es _ (sys_new_base cap nb ps Hcap) Hes) as (s & Hs & Hb). exists s. split; [done|]. split; [apply Hb|].
  intros id c r Hr. by apply (bs_ret _ Hb).
Qed.

Definition write_then_read : list Event := writes 10 [1; 2; 3; 4] ++ reads 11 3 6.

Lemma pipe_stream_exact_witness : exists s, exec_all write_then_read (sys_new 4096 false three) = Some s /\ handed_out (log s) = [1; 2; 3] /\ contents (inner (pipe s)) = [4] /\
  answer_ok (log s) 1 (ReadWithCommit 3) (Done 3).
Proof.
  assert (He : Forall event_ok write_then_read) by (apply events_checked; reflexivity).
  destruct (pipe_stream_exact 4096 false three write_then_read standard_capacity He) as (s & Hs & _ & Hr). exists s. split; [exact Hs|].
  assert (Hv : (fun s => (log s, contents (inner (pipe s)))) <$> exec_all write_then_read (sys_new 4096 false three) =
    Some ([Accepted 0 [1; 2; 3; 4]; Returned 0 (Write [1; 2; 3; 4]) (Done 4); Delivered 1 [1; 2; 3]; Returned 1 (ReadWithCommit 3) (Done 3)], [4])) by (vm_compute; reflexivity).
  rewrite Hs in Hv. injection Hv as Hl Hc. rewrite Hl. split; [reflexivity|]. split; [exact Hc|]. rewrite <- Hl. apply Hr. rewrite Hl. do 3 right. left.
Defined.

(** * Sleepers *)

(** Nothing is left to run: whoever is in a call sleeps. *)
Definition quiescent (s : System) : Prop := forall tid t, tasks s !! tid = Some t -> t_at t = Asleep /\ is_blocked (procs s) tid = true.

Lemma sys_new_counted cap nb ps : counted 1 (sys_new cap nb ps).
Proof. by intros []. Qed.

Lemma nothing_held s : base s -> len (inner (pipe s)) <= 0 -> contents (inner (pipe s)) = [].
Proof.
  intros Hb Hl. pose proof (zlen_contents _ (bs_ring _ Hb)) as Hz. destruct (contents (inner (pipe s))) as [|x l]; [done|]. rewrite zlen_cons in Hz. pose proof (zlen_nonneg l). lia.
Qed.

Lemma quiescent_reader s tid t : base s -> sys_wake s -> quiescent s -> tasks s !! tid = Some t -> call_end (t_call t) = ReadEnd -> contents (inner (pipe s)) = [].
Proof.
  intros Hb [_ Hc] Hq Et He. destruct (Hq tid t Et) as [Hat Hbl]. destruct (data_left (pipe s)) eqn:Hd.
  - destruct (ci_data _ _ _ Hc Hd tid t) as (tid' & t' & Et' & Hca); [done|]. destruct (Hq tid' t' Et') as [Hat' Hbl']. unfold carrier in Hca. rewrite Hat', Hbl', andb_false_r in Hca. done.
  - unfold data_left in Hd. apply andb_false_iff in Hd as [Hl%Z.ltb_ge|Hf%negb_false_iff].
    + by apply nothing_held.
    + destruct (bs_fly _ Hb Hf) as (tid' & t' & Et' & Hcp). destruct (Hq tid' t' Et') as [Hat' _]. by rewrite Hat' in Hcp.
Qed.

Lemma quiescent_writer s tid t : sys_wake s -> quiescent s -> tasks s !! tid = Some t -> call_end (t_call t) = WriteEnd -> free_space (inner (pipe s)) < need t.
Proof.
  intros [_ Hc] Hq Et He. destruct (Hq tid t Et) as [Hat Hbl]. destruct (ci_space _ _ _ Hc tid t) as [?|(tid' & t' & Et' & Hw)]; [done..|].
  destruct (Hq tid' t' Et') as [Hat' _]. by rewrite Hat' in Hw.
Qed.

Lemma need_bound t : need t <= PIPE_BUF.
Proof. unfold need, is_atomic. destruct (t_call t); [unfold PIPE_BUF; lia..|]. destruct (Z.leb_spec (zlen src) PIPE_BUF); unfold PIPE_BUF in *; lia. Qed.

(** C29 No wake-up is lost, however calls, closes, duplications and interrupts
    interleave, as long as an interrupt that was raised stays raised: when every
    task in a call on the pipe sleeps, the pipe is empty under every sleeping
    reader and some write end is open, and it lacks the room a sleeping writer
    asks for (all its bytes for a write of at most [PIPE_BUF], one byte
    otherwise) and some read end is open; readers and writers never sleep
    together. *)
Theorem pipe_no_lost_wakeup cap nb ps es : PIPE_BUF <= cap <= MAX_PIPE_CAPACITY -> generations_ok ps -> Forall event_ok es -> Forall steady es -> zlen es + 1 <= usize_max ->
  exists s, exec_all es (sys_new cap nb ps) = Some s /\ (quiescent s -> forall tid t, tasks s !! tid = Some t ->
    match call_end (t_call t) with
    | ReadEnd => contents (inner (pipe s)) = [] /\ 0 < live_ends WriteEnd (handles s)
    | WriteEnd => free_space (inner (pipe s)) < need t /\ 0 < live_ends ReadEnd (handles s)
    end /\ forall tid' t', tasks s !! tid' = Some t' -> call_end (t_call t') = call_end (t_call t)).
Proof.
  intros Hcap Hg Hes Hss Hn. pose proof (sys_new_base cap nb ps Hcap) as Hb0. destruct (exec_all_base es _ Hb0 Hes) as (s & Hs & Hb). exists s. split; [done|]. intros Hq.
  pose proof (exec_all_wake es _ s Hb0 Hes Hss (sys_new_wake cap nb ps Hg) Hs) as Hw. assert (1 + zlen es <= usize_max) as Hn' by lia.
  pose proof (exec_all_counted es 1 _ s Hb0 Hes (sys_new_counted cap nb ps) Hn' Hs) as Hcnt. 
  assert (Hend : forall tid t, tasks s !! tid = Some t -> 0 < live_ends (opposite (call_end (t_call t))) (handles s)).
  { intros tid t Et. destruct (Hq tid t Et) as [Hat Hbl]. destruct Hw as [_ Hc]. pose proof (ci_end _ _ _ Hc (call_end (t_call t)) tid t) as H. destruct (Hcnt (opposite (call_end (t_call t)))) as [<- _].
    pose proof (ci_pos _ _ _ Hc (opposite (call_end (t_call t)))). assert (end_count (opposite (call_end (t_call t))) (pipe s) <> 0) by (by apply H). lia. }
  assert (Hexcl : forall tid t tid' t', tasks s !! tid = Some t -> tasks s !! tid' = Some t' -> call_end (t_call t) = ReadEnd -> call_end (t_call t') = WriteEnd -> False).
  { intros tid t tid' t' Et Et' He He'. pose proof (quiescent_reader s tid t Hb Hw Hq Et He) as Hno. pose proof (quiescent_writer s tid' t' Hw Hq Et' He').
    pose proof (zlen_contents _ (bs_ring _ Hb)) as Hl. rewrite Hno in Hl. change (zlen []) with 0 in Hl. pose proof (need_bound t'). pose proof (bs_cap _ Hb). unfold free_space in *. lia. }
  intros tid t Et. specialize (Hend tid t Et). split.
  - destruct (call_end (t_call t)) eqn:He; (split; [|done]); [by apply (quiescent_reader s tid t)|by apply (quiescent_writer s tid t)].
  - intros tid' t' Et'. destruct (call_end (t_call t)) eqn:He, (call_end (t_call t')) eqn:He'; try done; exfalso; eauto.
Qed.

(** The view of a system that is left to look at once its buffer is set aside *)
Definition place (s : System) (tid : Z) : option At := t_at <$> tasks s !! tid.

Definition sleeps (tid m : Z) : list Event := reads tid m 4.
Definition one_left : list Event := sleeps 12 2 ++ sleeps 11 2 ++ writes 10 [1; 2] ++ goes 9 12.

Lemma pipe_no_lost_wakeup_witness : exists s, exec_all one_left (sys_new 4096 false three) = Some s /\ place s 11 = Some Asleep /\ contents (inner (pipe s)) = [] /\ 0 < live_ends WriteEnd (handles s).
Proof.
  assert (He : Forall event_ok one_left) by (apply events_checked; reflexivity). assert (Hs : Forall steady one_left) by (apply steady_checked; reflexivity).
  assert (Hn : zlen one_left + 1 <= usize_max) by (vm_compute; discriminate).
  destruct (pipe_no_lost_wakeup 4096 false three one_left standard_capacity three_generations He Hs Hn) as (s & E & Hq). exists s. split; [exact E|].
  assert (Hv : (fun s => (map_to_list (tasks s), is_blocked (procs s) 11)) <$> exec_all one_left (sys_new 4096 false three) =
    Some ([(11, mkTask 1 (Some 11) READ_HANDLE (ReadWithCommit 2) false false 0 Asleep)], true)) by (vm_compute; reflexivity).
  rewrite E in Hv. injection Hv as Hts Hbl. apply (f_equal (list_to_map (M := gmap Z Task))) in Hts. rewrite list_to_map_to_list in Hts. cbn [list_to_map foldr uncurry fst snd] in Hts.
  assert (Hqs : quiescent s). { intros tid t. rewrite Hts. intros [[<- <-]|[_ Hno]]%lookup_insert_Some; [|by rewrite lookup_empty in Hno]. split; [reflexivity|exact Hbl]. }
  destruct (Hq Hqs 11 _ (eq_trans (f_equal (lookup 11) Hts) (lookup_insert_eq _ 11 _))) as [H _]. split; [|exact H]. unfold place. rewrite Hts. reflexivity.
Defined.

(** * End of file *)

(** A call that answers now did so by the step it takes. *)
Lemma answer_of_step s t tid al co o r s' : base s -> tasks s !! tid = Some t -> step al co t (pipe s) (procs s) = Some o -> run tid al co s = Some s' ->
  Returned (t_id t) (t_call t) r ∈ log s' -> o_next o = Return r.
Proof.
  intros Hb Et Ho Hr Hin. destruct (bs_task _ Hb _ _ Et) as [Htr Hopen _ _ _]. destruct (step_effect (log s) t (pipe s) (procs s) (bs_ring _ Hb) Htr al co Hopen) as (o' & Ho' & Hef).
  rewrite Ho in Ho'. injection Ho' as <-. unfold run in Hr. rewrite Et, Ho in Hr. cbn [mbind option_bind] in Hr. injection Hr as <-.
  assert (Hold : Returned (t_id t) (t_call t) r ∉ log s) by (intros H; by apply (proj2 (bs_ret _ Hb _ _ _ H) tid t)).
  assert (Hobs : Returned (t_id t) (t_call t) r ∉ o_obs o) by (intros H; by apply (proj2 (ef_obs _ _ _ _ Hef _ H) (t_call t) r)).
  destruct (o_next o) as [t'|r']; cbn in Hin; rewrite !elem_of_app in Hin; [naive_solver|]. destruct Hin as [?|[?|[= ->]%list_elem_of_singleton]]; done.
Qed.

Lemma copying_goes_on al co t p ps o r : copying (t_at t) = true -> step al co t p ps = Some o -> o_next o <> Return r.
Proof.
  intros Hc. unfold step. destruct (t_at t); try done. unfold copied. destruct co; intros (i & _ & [= <-])%bind_Some; done.
Qed.

(** C30 A transactional read answers 0 bytes only when no write end is open, and
    then nothing is left in the pipe for it unless another reader's copy is
    still under way. *)
Theorem pipe_eof_sound cap nb ps es : PIPE_BUF <= cap <= MAX_PIPE_CAPACITY -> Forall event_ok es -> zlen es + 1 <= usize_max ->
  exists s, exec_all es (sys_new cap nb ps) = Some s /\ forall tid al co, exists s', run tid al co s = Some s' /\
    forall t m, tasks s !! tid = Some t -> t_call t = ReadWithCommit m -> Returned (t_id t) (t_call t) (Done 0) ∈ log s' ->
      live_ends WriteEnd (handles s) = 0 /\
      (contents (inner (pipe s)) = [] \/ exists tid' t', tid' <> tid /\ tasks s !! tid' = Some t' /\ copying (t_at t') = true).
Proof.
  intros Hcap Hes Hn. pose proof (sys_new_base cap nb ps Hcap) as Hb0. destruct (exec_all_base es _ Hb0 Hes) as (s & Hs & Hb). exists s. split; [done|]. intros tid al co.
  assert (1 + zlen es <= usize_max) as Hn' by lia. pose proof (exec_all_counted es 1 _ s Hb0 Hes (sys_new_counted cap nb ps) Hn' Hs WriteEnd) as [Hcnt _].
  assert (Hcb : every_task counts_bytes s) by (by apply (exec_all_every_task counts_bytes top_counts_bytes step_counts_bytes es _ s Hb0 Hes)).
  destruct (run_base tid al co s Hb) as (s' & Hr & _). exists s'. split; [done|]. intros t m Et Hm Hin. destruct (step al co t (pipe s) (procs s)) as [o|] eqn:Ho; [|unfold run in Hr; by rewrite Et, Ho in Hr].
  destruct (bs_task _ Hb _ _ Et) as [Htr _ _ _ _]. pose proof (step_origin al co m t (pipe s) (procs s) o Hm (reader_written _ _ _ Hm Htr) Ho) as Hor.
  pose proof (answer_of_step s t tid al co o (Done 0) s' Hb Et Ho Hr Hin) as Hret. rewrite Hret in Hor. destruct Hor as [Hp|(_ & Hw & Hd)]; [specialize (Hcb tid t Et m 0 Hm Hp); lia|].
  split; [by rewrite <- Hcnt|]. unfold data_left in Hd. apply andb_false_iff in Hd as [Hl%Z.ltb_ge|Hf%negb_false_iff]; [left; by apply nothing_held|].
  right. destruct (bs_fly _ Hb Hf) as (tid' & t' & Et' & Hcp). exists tid', t'. split; [|done]. intros ->. rewrite Et in Et'. injection Et' as <-. by apply (copying_goes_on al co t (pipe s) (procs s) o (Done 0)).
Qed.

Definition closing : list Event := writes 10 [1; 2] ++ [Drop WRITE_HANDLE] ++ reads 11 2 6 ++ reads 12 2 1.

Lemma pipe_eof_sound_witness : exists s, exec_all closing (sys_new 4096 false three) = Some s /\ live_ends WriteEnd (handles s) = 0 /\
  (contents (inner (pipe s)) = [] \/ exists tid' t', tid' <> 12 /\ tasks s !! tid' = Some t' /\ copying (t_at t') = true).
Proof.
  assert (He : Forall event_ok closing) by (apply events_checked; reflexivity). assert (Hn : zlen closing + 1 <= usize_max) by (vm_compute; discriminate).
  destruct (pipe_eof_sound 4096 false three closing standard_capacity He Hn) as (s & E & Hr). exists s. split; [exact E|].
  destruct (Hr 12 (fun n => Some n) None) as (s' & E' & H). clear Hr.
  assert (Hv : (fun s => (tasks s !! 12, log <$> run 12 (fun n => Some n) None s)) <$> exec_all closing (sys_new 4096 false three) =
    Some (Some (mkTask 2 (Some 12) READ_HANDLE (ReadWithCommit 2) false false 0 First), Some [Accepted 0 [1; 2]; Returned 0 (Write [1; 2]) (Done 2); Delivered 1 [1; 2]; Returned 1 (ReadWithCommit 2) (Done 2); Returned 2 (ReadWithCommit 2) (Done 0)])) by (vm_compute; reflexivity).
  rewrite E in Hv. injection Hv as Ht Hl. rewrite E' in Hl. injection Hl as Hl. apply (H _ 2 Ht eq_refl). rewrite Hl. do 4 right. left.
Defined.

(** The answer of a reader that looks while another one copies *)
Lemma told_end s tid t m tid' t' b al co : base s -> writers (pipe s) = 0 ->
  tasks s !! tid' = Some t' -> t_at t' = Copying b -> tasks s !! tid = Some t -> t_call t = ReadWithCommit m -> t_at t = First ->
  run tid al co s = Some (mkSys (pipe s) (procs s) (handles s) (delete tid (tasks s)) (next_call s) (log s ++ [Returned (t_id t) (ReadWithCommit m) (Done 0)])).
Proof.
  intros Hb Hw Et' Hc Et Hm Hat. destruct (tk_open _ _ _ (bs_task _ Hb _ _ Et') b Hc) as (Hfl & _). unfold run. rewrite Et. unfold step. rewrite Hat. unfold first_pass. rewrite Hm.
  unfold commit_section. by rewrite Hfl, andb_false_r, Hw.
Qed.

(** What the copy leaves in the pipe *)
Lemma copy_leaves s tid t b al co : base s -> tasks s !! tid = Some t -> t_at t = Copying b ->
  exists s', run tid al co s = Some s' /\ contents (inner (pipe s')) = (if co is None then drop (length b) (contents (inner (pipe s))) else contents (inner (pipe s))).
Proof.
  intros Hb Et Hc. destruct (tk_open _ _ _ (bs_task _ Hb _ _ Et) b Hc) as (Hfl & [k Hk] & _). pose proof (zlen_contents _ (bs_ring _ Hb)) as Hl.
  rewrite Hk, zlen_app in Hl. pose proof (zlen_nonneg b). pose proof (zlen_nonneg k). unfold run. rewrite Et. unfold step. rewrite Hc. unfold copied. destruct co as [e|].
  - destruct (finish_spec (zlen b) false (inner (pipe s)) (bs_ring _ Hb) ltac:(lia) Hfl) as (i & -> & _ & Hci & _). eexists. split; [done|]. exact Hci.
  - destruct (finish_spec (zlen b) true (inner (pipe s)) (bs_ring _ Hb) ltac:(lia) Hfl) as (i & -> & _ & Hci & _). eexists. split; [done|]. cbn. rewrite Hci. unfold zlen. by rewrite Nat2Z.id.
Qed.

(** C31 The other case is an error of the code, and happens in every history
    that comes to it: when the last write end is closed and one reader copies,
    any other transactional reader that looks is told that the file has ended
    although the pipe holds bytes. They are still there afterwards: all of them if the copy
    fails, all but the copied ones if it succeeds. *)
Theorem pipe_early_eof cap nb ps es s tid t m tid' t' b al co : PIPE_BUF <= cap <= MAX_PIPE_CAPACITY -> Forall event_ok es -> zlen es + 1 <= usize_max ->
  exec_all es (sys_new cap nb ps) = Some s -> live_ends WriteEnd (handles s) = 0 ->
  tasks s !! tid' = Some t' -> t_at t' = Copying b -> tasks s !! tid = Some t -> t_call t = ReadWithCommit m -> t_at t = First ->
  contents (inner (pipe s)) <> [] /\
  exists s', run tid al co s = Some s' /\ log s' = log s ++ [Returned (t_id t) (ReadWithCommit m) (Done 0)] /\
    forall al' co', exists s'', run tid' al' co' s' = Some s'' /\
      contents (inner (pipe s'')) = (if co' is None then drop (length b) (contents (inner (pipe s))) else contents (inner (pipe s))).
Proof.
  intros Hcap Hes Hn Hs Hw Et' Hc Et Hm Hat. pose proof (sys_new_base cap nb ps Hcap) as Hb0. destruct (exec_all_base es _ Hb0 Hes) as (s1 & Hs1 & Hb). rewrite Hs in Hs1. injection Hs1 as <-.
  assert (1 + zlen es <= usize_max) as Hn' by lia. pose proof (exec_all_counted es 1 _ s Hb0 Hes (sys_new_counted cap nb ps) Hn' Hs WriteEnd) as [Hcnt _]. cbn [end_count] in Hcnt.
  destruct (tk_open _ _ _ (bs_task _ Hb _ _ Et') b Hc) as (_ & [k Hk] & Hne). split; [rewrite Hk; by destruct b|].
  pose proof (told_end s tid t m tid' t' b al co Hb ltac:(congruence) Et' Hc Et Hm Hat) as Hr. eexists. split; [exact Hr|]. split; [done|]. intros al' co'.
  destruct (run_base tid al co s Hb) as (s2 & Hr2 & Hb2). rewrite Hr in Hr2. injection Hr2 as <-. apply (copy_leaves _ tid' t' b al' co' Hb2); [|done].
  cbn [tasks]. rewrite lookup_delete_ne; [done|]. intros ->. rewrite Et in Et'. injection Et' as <-. congruence.
Qed.

Definition two_copies : list Event := writes 10 [1; 2; 3; 4] ++ [Drop WRITE_HANDLE] ++ reads 11 2 2 ++ reads 12 2 1.

(** Two readers, the last write end closed and four bytes written *)
Lemma pipe_early_eof_witness : exists s s', exec_all two_copies (sys_new 4096 false three) = Some s /\ contents (inner (pipe s)) <> [] /\ live_ends WriteEnd (handles s) = 0 /\
  run 12 (fun n => Some n) None s = Some s' /\ log s' = log s ++ [Returned 2 (ReadWithCommit 2) (Done 0)].
Proof.
  assert (He : Forall event_ok two_copies) by (apply events_checked; reflexivity). assert (Hn : zlen two_copies + 1 <= usize_max) by (vm_compute; discriminate).
  assert (Hv : (fun s => (tasks s !! 11, tasks s !! 12, live_ends WriteEnd (handles s))) <$> exec_all two_copies (sys_new 4096 false three) =
    Some (Some (mkTask 1 (Some 11) READ_HANDLE (ReadWithCommit 2) false false 0 (Copying [1; 2])), Some (mkTask 2 (Some 12) READ_HANDLE (ReadWithCommit 2) false false 0 First), 0)) by (vm_compute; reflexivity).
  destruct (exec_all two_copies (sys_new 4096 false three)) as [s|] eqn:E; [|done]. injection Hv as Hc Hf Hw. exists s.
  destruct (pipe_early_eof 4096 false three two_copies s 12 _ 2 11 _ [1; 2] (fun n => Some n) None standard_capacity He Hn E Hw Hc eq_refl Hf eq_refl eq_refl) as (Hne & s' & Hr & Hl & _).
  exists s'. split; [reflexivity|]. split; [exact Hne|]. split; [exact Hw|]. split; [exact Hr|exact Hl].
Defined.

(** * Interrupts and calls that may not block *)

Definition withdrawn : list Event :=
  sleeps 12 2 ++ sleeps 11 2 ++ [Post 11 true; Withdraw 11] ++ writes 10 [1; 2] ++ goes 7 11 ++ goes 6 12 ++
  [Outside 11 (Some (mkProcess Blocked 8 false))] ++ writes 10 [3; 4].

(** Without that condition a wake-up can be lost: an interrupt that ends a
    reader's wait and is withdrawn before the reader looks again leaves its
    entry in the queue; when the process later blocks elsewhere, the entry takes
    the wake-up of a write, and a second reader sleeps on although two bytes
    are there, a write end is open and nobody else is in a call. *)
Theorem pipe_wake_lost_by_withdrawal : exists s t, exec_all withdrawn (sys_new 4096 false three) = Some s /\
  map_to_list (tasks s) = [(12, t)] /\ t_call t = ReadWithCommit 2 /\ quiescent s /\ contents (inner (pipe s)) = [3; 4] /\ 0 < live_ends WriteEnd (handles s).
Proof.
  assert (Hv : (fun s => (map_to_list (tasks s), contents (inner (pipe s)), live_ends WriteEnd (handles s), is_blocked (procs s) 12)) <$> exec_all withdrawn (sys_new 4096 false three) =
    Some ([(12, mkTask 0 (Some 12) READ_HANDLE (ReadWithCommit 2) false true 0 Asleep)], [3; 4], 1, true)) by (vm_compute; reflexivity).
  destruct (exec_all withdrawn (sys_new 4096 false three)) as [s|]; [|done]. injection Hv as Ht Hc He Hb.
  exists s, (mkTask 0 (Some 12) READ_HANDLE (ReadWithCommit 2) false true 0 Asleep). do 3 (split; [done|]). split; [|by rewrite Hc, He].
  intros tid t Et%elem_of_map_to_list. rewrite Ht, list_elem_of_singleton in Et. by injection Et as -> ->.
Qed.


