(* ===== verification/PipeCreate.v ===== *)
(** Creating and freeing pipes ([create_pipe_with_capacity] and the allocator of
    [ipc/pipe.rs]): the table of slots that keep the charge of a pipe's control
    block until its memory is freed, and the heap class that bounds all pipes. *)

From Stdlib Require Import ZArith Lia.
From stdpp Require Import base list list_numbers numbers gmap.
From S2P Require Import Prelude Machine WaitQueue Pipe.

(** * Charges ([mm/heap_admission.rs]) *)

(** [HeapClass::Pipe.limit_bytes()] *)
Definition PIPE_CLASS_LIMIT : Z := 1024 * 1024 + 16 * 1024.
Definition ALLOCATOR_LINK_SLACK : Z := 2 * 8.

Definition checked_align_up (value align : Z) : option Z :=
  if (align =? 0) || negb (Z.land align (align - 1) =? 0) then None else
  v ← checked_add value (align - 1);
  Some (Z.land v (u64_not (align - 1))).

Definition allocation_charge_bytes (payload alignment : Z) : option Z :=
  if payload =? 0 then Some 0 else
  with_links ← checked_add payload ALLOCATOR_LINK_SLACK;
  checked_align_up with_links (Z.max alignment 8).

(** [vec_charge_bytes::<u8>] *)
Definition vec_charge_bytes (cap : Z) : option Z := if cap =? 0 then Some 0 else allocation_charge_bytes cap 1.

(** * The table *)
Definition PIPE_ARC_CHARGE_SLOTS : Z := PIPE_CLASS_LIMIT / PIPE_BUF + 1.

Record PipeArcChargeSlot := mkSlot { sl_generation : Z; sl_allocated : bool; sl_charge : Z }.

(** The allocator token carried by every owner *)
Record PipeArcAllocator := mkAllocator { tk_slot : nat; tk_generation : Z }.

(** The statics of the module, and the bytes its pipes have reserved or charged in their class *)
Record Arena := mkArena { slots : list (option PipeArcChargeSlot); next_generation : Z; next_pipe_id : Z; charged : Z }.

Definition arena_new : Arena := mkArena (replicate (Z.to_nat PIPE_ARC_CHARGE_SLOTS) None) 1 1 0.

Definition with_slots (l : list (option PipeArcChargeSlot)) (a : Arena) : Arena := mkArena l (next_generation a) (next_pipe_id a) (charged a).
Definition with_charged (n : Z) (a : Arena) : Arena := mkArena (slots a) (next_generation a) (next_pipe_id a) n.

(** The first index of a free slot *)
Fixpoint first_free (l : list (option PipeArcChargeSlot)) : option nat :=
  match l with
  | [] => None
  | None :: _ => Some O
  | Some _ :: l => S <$> first_free l
  end.

Definition try_install (charge : Z) (a : Arena) : Arena * option PipeArcAllocator :=
  match checked_add (next_generation a) 1 with
  | None => (a, None)
  | Some g =>
      let generation := next_generation a in
      let a := mkArena (slots a) g (next_pipe_id a) (charged a) in
      match first_free (slots a) with
      | Some k => (with_slots (<[k := Some (mkSlot generation false charge)]> (slots a)) a, Some (mkAllocator k generation))
      | None => (a, None)
      end
  end.

(** [None] is one of its three panics. *)
Definition take_charge (tok : PipeArcAllocator) (a : Arena) : option (Z * Arena) :=
  match slots a !! tk_slot tok with
  | Some (Some e) =>
      if sl_generation e =? tk_generation tok then Some (sl_charge e, with_slots (<[tk_slot tok := None]> (slots a)) a) else None
  | _ => None
  end.

(** Dropping a charge or a reservation *)
Definition release (n : Z) (a : Arena) : Arena := with_charged (charged a - n) a.

Definition cancel_failed_allocation (tok : PipeArcAllocator) (a : Arena) : option Arena :=
  '(n, a) ← take_charge tok a; Some (release n a).

Definition set_allocated (tok : PipeArcAllocator) (b : bool) (a : Arena) : Arena :=
  match slots a !! tk_slot tok with
  | Some (Some e) =>
      if sl_generation e =? tk_generation tok
      then with_slots (<[tk_slot tok := Some (mkSlot (sl_generation e) b (sl_charge e))]> (slots a)) a else a
  | _ => a
  end.

(** [heap] is the answer of the global allocator. *)
Definition allocate (heap : bool) (tok : PipeArcAllocator) (a : Arena) : bool * Arena :=
  match slots a !! tk_slot tok with
  | Some (Some e) =>
      if negb (sl_generation e =? tk_generation tok) || sl_allocated e then (false, a) else
      let a := set_allocated tok true a in
      if heap then (true, a) else (false, set_allocated tok false a)
  | _ => (false, a)
  end.

Definition deallocate (tok : PipeArcAllocator) (a : Arena) : option Arena := cancel_failed_allocation tok a.

(** * Creation *)

(** What the rest of the kernel answers during one creation: the charge of the
    control block, whether the ledger admits each reservation beyond the limit of
    the class, the capacity of the buffer, and whether the heap has room *)
Record Answers := mkAnswers {
  an_arc_bytes : option Z;
  an_reserve_arc : bool;
  an_reserve_buffer : bool;
  an_buffer : option Z;
  an_resize : bool;
  an_commit_buffer : bool;
  an_commit_arc : bool;
  an_heap : bool;
}.

Record Created := mkCreated { cr_id : Z; cr_token : PipeArcAllocator; cr_buffer : Z; cr_pipe : Pipe }.

Definition reserve (ok : bool) (n : Z) (a : Arena) : option Arena :=
  if ok && (charged a + n <=? PIPE_CLASS_LIMIT) then Some (with_charged (charged a + n) a) else None.

(** [resize] of a reservation of [old] bytes *)
Definition resize (ok : bool) (old new : Z) (a : Arena) : option Arena :=
  if new =? old then Some a else
  if old <? new then reserve ok (new - old) a else
  if ok then Some (with_charged (charged a - (old - new)) a) else None.

(** The part after the reservations, which hold [arc] and [buf] bytes *)
Definition build (an : Answers) (cap : Z) (nonblock : bool) (arc buf : Z) (a : Arena) : option (Arena * (Created + PipeError)) :=
  let fail e a := Some (release arc (release buf a), inr e) in
  match checked_add (next_pipe_id a) 1 with
  | None => fail PipeIdExhausted a
  | Some next =>
      let id := next_pipe_id a in
      let a := mkArena (slots a) (next_generation a) next (charged a) in
      if negb (an_commit_buffer an) then fail NoMemory a else
      if negb (an_commit_arc an) then fail NoMemory a else
      let '(a, installed) := try_install arc a in
      match installed with
      | None => fail NoMemory a
      | Some tok =>
          let '(ok, a) := allocate (an_heap an) tok a in
          if ok then Some (a, inl (mkCreated id tok buf (pipe_new cap nonblock))) else
          a ← cancel_failed_allocation tok (release buf a);
          Some (a, inr NoMemory)
      end
  end.

Definition create_pipe_with_capacity (an : Answers) (cap : Z) (nonblock : bool) (a : Arena) : option (Arena * (Created + PipeError)) :=
  if (cap <? PIPE_BUF) || (MAX_PIPE_CAPACITY <? cap) then Some (a, inr InvalidCapacity) else
  match an_arc_bytes an, vec_charge_bytes cap with
  | Some arc, Some estimated =>
      match reserve (an_reserve_arc an) arc a with
      | None => Some (a, inr NoMemory)
      | Some a =>
          match reserve (an_reserve_buffer an) estimated a with
          | None => Some (release arc a, inr NoMemory)
          | Some a =>
              let fail a := Some (release arc (release estimated a), inr NoMemory) in
              match an_buffer an with
              | None => fail a
              | Some actual_cap =>
                  match vec_charge_bytes actual_cap with
                  | None => fail a
                  | Some actual =>
                      match resize (an_resize an) estimated actual a with
                      | None => fail a
                      | Some a => build an cap nonblock arc actual a
                      end
                  end
              end
          end
      end
  | _, _ => Some (a, inr NoMemory)
  end.

(** * Lives

    A pipe's buffer charge goes with its last strong owner, its slot when the
    memory of the control block is freed after it. *)
Record Live := mkLive { lv_token : PipeArcAllocator; lv_buffer : option Z }.

Record Pipes := mkPipes { arena : Arena; live : gmap Z Live }.

Inductive PipesEvent :=
| Create (an : Answers) (cap : Z) (nonblock : bool)
| LastOwner (id : Z)
| FreeMemory (id : Z).

Definition pipes_exec (e : PipesEvent) (s : Pipes) : option Pipes :=
  match e with
  | Create an cap nonblock =>
      '(a, r) ← create_pipe_with_capacity an cap nonblock (arena s);
      Some (mkPipes a (match r with inl c => <[cr_id c := mkLive (cr_token c) (Some (cr_buffer c))]> (live s) | inr _ => live s end))
  | LastOwner id =>
      Some (match live s !! id with
            | Some (mkLive tok (Some n)) => mkPipes (release n (arena s)) (<[id := mkLive tok None]> (live s))
            | _ => s
            end)
  | FreeMemory id =>
      match live s !! id with
      | Some (mkLive tok None) => a ← deallocate tok (arena s); Some (mkPipes a (delete id (live s)))
      | _ => Some s
      end
  end.

Fixpoint pipes_exec_all (es : list PipesEvent) (s : Pipes) : option Pipes :=
  match es with
  | [] => Some s
  | e :: es => s ← pipes_exec e s; pipes_exec_all es s
  end.

Definition pipes_new : Pipes := mkPipes arena_new ∅.
