(* ===== verification/PipeCharges.v ===== *)
(** The charges of pipes: creation that fails leaves nothing behind, every charge
    is released once, and the table of slots cannot fill up. *)

From Stdlib Require Import ZArith Lia.
From stdpp Require Import base list list_numbers numbers gmap.
From S2P Require Import Prelude Machine WaitQueue Pipe PipeCreate.

(** * Sizes *)
Lemma align_8_le v : 0 <= v < 2 ^ 64 -> v - 7 <= Z.land v (u64_not 7).
Proof.
  intros Hv. assert (H : Z.land v (u64_not 7) = Z.ldiff v (Z.ones 3)).
  { apply Z.bits_inj'. intros i Hi. rewrite Z.land_spec, Z.ldiff_spec. destruct (Z.ltb_spec i 64).
    - rewrite u64_not_testbit by (unfold is_u64, u64_max; lia). done.
    - assert (Z.testbit v i = false) as ->; [|done]. apply Z.bits_above_log2; [lia|]. destruct (decide (v = 0)) as [->|]; [cbn; lia|]. apply Z.log2_lt_pow2; [lia|]. apply Z.lt_le_trans with (2 ^ 64); [lia|]. by apply Z.pow_le_mono_r. }
  rewrite H, Z.ldiff_ones_r, Z.shiftl_mul_pow2, Z.shiftr_div_pow2 by lia. pose proof (Z.div_mod v (2 ^ 3)). pose proof (Z.mod_pos_bound v (2 ^ 3)). lia.
Qed.

(** A charge covers what it is for. *)
Lemma vec_charge_covers cap n : 0 <= cap -> vec_charge_bytes cap = Some n -> cap <= n.
Proof.
  intros Hc. unfold vec_charge_bytes. destruct (Z.eqb_spec cap 0); [by intros [= <-]; lia|]. unfold allocation_charge_bytes. destruct (Z.eqb_spec cap 0); [done|]. intros (w & [-> Hw]%checked_add_inv & Hal)%bind_Some.
  unfold checked_align_up in Hal. change (1 `max` 8) with 8 in Hal. change ((8 =? 0) || negb (Z.land 8 (8 - 1) =? 0)) with false in Hal. change (8 - 1) with 7 in Hal. cbn iota in Hal. apply bind_Some in Hal as (v & [-> Hv]%checked_add_inv & [= <-]).
  unfold ALLOCATOR_LINK_SLACK, usize_max, u64_max in *. pose proof (align_8_le (cap + 2 * 8 + 7)). lia.
Qed.

(** * The table *)
#[local] Arguments sumZ : simpl never.

Definition slot_charge (x : option PipeArcChargeSlot) : Z := match x with Some e => sl_charge e | None => 0 end.
Definition slot_taken (x : option PipeArcChargeSlot) : Z := match x with Some _ => 1 | None => 0 end.

Lemma sumZ_insert {A} (f : A -> Z) l k x y : l !! k = Some x -> sumZ f (<[k := y]> l) = sumZ f l - f x + f y.
Proof.
  revert k. induction l as [|z l IH]; intros [|k]; try done.
  - intros [= ->]. change (<[O := y]> (x :: l)) with (y :: l). rewrite !sumZ_cons. lia.
  - intros H. change (<[S k := y]> (z :: l)) with (z :: <[k := y]> l). rewrite !sumZ_cons, (IH k H). lia.
Qed.

Lemma first_free_spec l : match first_free l with Some k => l !! k = Some None | None => sumZ slot_taken l = zlen l end.
Proof.
  induction l as [|[e|] l IH]; [done| |done]. cbn [first_free]. destruct (first_free l) as [k|]; [done|]. rewrite zlen_cons, sumZ_cons, IH. cbn. lia.
Qed.

(** What a creation does to the arena *)
Definition create_effect (a a' : Arena) (r : Created + PipeError) : Prop :=
  match r with
  | inr _ => slots a' = slots a /\ charged a' = charged a /\ next_pipe_id a <= next_pipe_id a'
  | inl c => exists arc, slots a !! tk_slot (cr_token c) = Some None /\ slots a' = <[tk_slot (cr_token c) := Some (mkSlot (tk_generation (cr_token c)) true arc)]> (slots a) /\
      charged a' = charged a + arc + cr_buffer c /\ charged a' <= PIPE_CLASS_LIMIT /\ 0 <= arc /\ PIPE_BUF <= cr_buffer c /\ cr_id c = next_pipe_id a /\ next_pipe_id a' = next_pipe_id a + 1
  end.

(** The heap answers a buffer at least as large as asked for. *)
Definition answers_ok (cap : Z) (an : Answers) : Prop := (forall n, an_arc_bytes an = Some n -> 0 <= n) /\ (forall n, an_buffer an = Some n -> cap <= n).

Lemma build_spec an cap nb arc buf a a0 : 0 <= arc -> PIPE_BUF <= buf -> charged a = charged a0 + arc + buf -> charged a <= PIPE_CLASS_LIMIT -> slots a = slots a0 -> next_pipe_id a = next_pipe_id a0 ->
  exists a' r, build an cap nb arc buf a = Some (a', r) /\ create_effect a0 a' r.
Proof.
  intros Harc Hbuf Hch Hlim Hsl Hid.
  assert (Hfail : forall e a', slots a' = slots a -> charged a' = charged a -> next_pipe_id a <= next_pipe_id a' -> exists a'' r, Some (release arc (release buf a'), inr e) = Some (a'', r) /\ create_effect a0 a'' r).
  { intros e a' H1 H2 H3. eexists _, _. split; [done|]. cbn. rewrite H1, H2. split_and!; [done|lia|lia]. }
  unfold build. destruct (checked_add (next_pipe_id a) 1) as [nx|] eqn:Hnx; [apply checked_add_inv in Hnx as [-> _]|by apply Hfail]. destruct (an_commit_buffer an); cbn [negb]; [|apply Hfail; cbn; (done || lia)]. destruct (an_commit_arc an); cbn [negb]; [|apply Hfail; cbn; (done || lia)].
  unfold try_install. cbn [next_generation slots next_pipe_id charged]. destruct (checked_add (next_generation a) 1) as [g|]; [|apply Hfail; cbn; (done || lia)].
  pose proof (first_free_spec (slots a)) as Hff. destruct (first_free (slots a)) as [k|]; [|apply Hfail; cbn; (done || lia)].
  assert (Hk : (k < length (slots a))%nat) by (by eapply lookup_lt_Some). unfold allocate, set_allocated. cbn [with_slots slots tk_slot].
  rewrite list_lookup_insert_eq by done. cbn [sl_generation tk_generation sl_allocated sl_charge]. rewrite Z.eqb_refl. cbn [negb orb with_slots slots next_generation next_pipe_id charged]. rewrite list_insert_insert_eq.
  destruct (an_heap an).
  - eexists _, _. split; [done|]. cbn. exists arc. rewrite <- Hsl. split_and!; try done; lia.
  - rewrite list_lookup_insert_eq by done. cbn [sl_generation tk_generation sl_charge]. rewrite Z.eqb_refl, list_insert_insert_eq. unfold cancel_failed_allocation, take_charge, release. cbn [with_slots with_charged slots tk_slot tk_generation charged].
    rewrite list_lookup_insert_eq by done. cbn [sl_generation sl_charge mbind option_bind]. rewrite Z.eqb_refl. cbn [mbind option_bind with_slots with_charged slots charged]. eexists _, _. split; [done|]. cbn. rewrite list_insert_insert_eq, list_insert_id by done. split_and!; [done|lia|lia].
Qed.

Lemma create_spec an cap nb a : answers_ok cap an -> exists a' r, create_pipe_with_capacity an cap nb a = Some (a', r) /\ create_effect a a' r.
Proof.
  intros [Harc Hbuf]. assert (Hnone : forall e a', slots a' = slots a -> charged a' = charged a -> next_pipe_id a' = next_pipe_id a -> exists a'' r, Some (a', inr e) = Some (a'', r) /\ create_effect a a'' r).
  { intros e a' H1 H2 H3. eexists _, _. split; [done|]. cbn. rewrite H3. done. }
  unfold create_pipe_with_capacity. destruct (Z.ltb_spec cap PIPE_BUF); [by apply Hnone|]. destruct (MAX_PIPE_CAPACITY <? cap); [by apply Hnone|]. cbn [orb].
  destruct (an_arc_bytes an) as [arc|]; [|by apply Hnone]. specialize (Harc arc eq_refl). destruct (vec_charge_bytes cap) as [est|] eqn:Hest; [|by apply Hnone]. apply vec_charge_covers in Hest; [|unfold PIPE_BUF in *; lia].
  unfold reserve at 1. destruct (an_reserve_arc an && _) eqn:H1; [|by apply Hnone]. unfold reserve at 1. cbn [charged with_charged]. destruct (an_reserve_buffer an && _) eqn:H2; [|apply Hnone; cbn; (done || lia)].
  apply andb_true_iff in H2 as [_ H2%Z.leb_le].
  destruct (an_buffer an) as [ac|]; [|apply Hnone; cbn; (done || lia)]. specialize (Hbuf ac eq_refl). destruct (vec_charge_bytes ac) as [act|] eqn:Hact; [|apply Hnone; cbn; (done || lia)]. apply vec_charge_covers in Hact; [|unfold PIPE_BUF in *; lia].
  unfold resize, reserve. destruct (Z.eqb_spec act est) as [->|]; [apply build_spec; cbn; (done || lia)|]. destruct (Z.ltb_spec est act).
  - destruct (an_resize an && _) eqn:H3; [|apply Hnone; cbn; (done || lia)]. apply andb_true_iff in H3 as [_ H3%Z.leb_le]. cbn in H3. apply build_spec; cbn; (done || lia).
  - destruct (an_resize an); [|apply Hnone; cbn; (done || lia)]. apply build_spec; cbn; (done || lia).
Qed.

(** * Books *)
Definition buffer_of (p : Live) : Z := match lv_buffer p with Some n => n | None => 0 end.
Definition buffers (m : gmap Z Live) : Z := sumZ (fun kp => buffer_of kp.2) (map_to_list m).

Lemma buffers_insert i p m : m !! i = None -> buffers (<[i := p]> m) = buffers m + buffer_of p.
Proof. intros H. unfold buffers. rewrite map_to_list_insert by done. rewrite sumZ_cons. cbn. lia. Qed.

Lemma buffers_delete i p m : m !! i = Some p -> buffers (delete i m) = buffers m - buffer_of p.
Proof. intros H. unfold buffers. rewrite <- (map_to_list_delete m i p) by done. rewrite sumZ_cons. cbn. lia. Qed.

Lemma buffers_change i p p' m : m !! i = Some p -> buffers (<[i := p']> m) = buffers m - buffer_of p + buffer_of p'.
Proof. intros H. rewrite <- (insert_delete_eq m i p'), buffers_insert by apply lookup_delete_eq. rewrite (buffers_delete i p) by done. lia. Qed.

Record books (s : Pipes) : Prop := {
  bk_len : zlen (slots (arena s)) = PIPE_ARC_CHARGE_SLOTS;
  bk_live : forall i p, live s !! i = Some p -> exists n, slots (arena s) !! tk_slot (lv_token p) = Some (Some (mkSlot (tk_generation (lv_token p)) true n));
  bk_inj : forall i j p q, live s !! i = Some p -> live s !! j = Some q -> tk_slot (lv_token p) = tk_slot (lv_token q) -> i = j;
  bk_ids : forall i p, live s !! i = Some p -> i < next_pipe_id (arena s);
  bk_taken : sumZ slot_taken (slots (arena s)) = Z.of_nat (size (live s));
  bk_charged : charged (arena s) = sumZ slot_charge (slots (arena s)) + buffers (live s);
  bk_limit : charged (arena s) <= PIPE_CLASS_LIMIT;
  bk_slot : forall x, x ∈ slots (arena s) -> 0 <= slot_charge x;
  bk_buffer : forall i p n, live s !! i = Some p -> lv_buffer p = Some n -> PIPE_BUF <= n;
}.

Lemma slot_charges_nonneg s : books s -> 0 <= sumZ slot_charge (slots (arena s)).
Proof. intros Hb. apply sumZ_nonneg, (bk_slot _ Hb). Qed.

Lemma books_create s a' r : books s -> create_effect (arena s) a' r ->
  books (mkPipes a' (match r with inl c => <[cr_id c := mkLive (cr_token c) (Some (cr_buffer c))]> (live s) | inr _ => live s end)).
Proof.
  intros [Hl Hlv Hinj Hids Htk Hch Hlim Hsl Hbf] He. destruct r as [c|e].
  2: { destruct He as (Hs & Hc & Hid). split; cbn; rewrite ?Hs, ?Hc; try done. intros i p E. specialize (Hids i p E). lia. }
  destruct He as (arc & Hfree & Hs & Hc & Hlim' & Harc & Hbuf & Hid & Hnid). assert (Hno : live s !! cr_id c = None) by (destruct (live s !! cr_id c) as [p|] eqn:E; [specialize (Hids _ _ E); lia|done]).
  assert (Hk : (tk_slot (cr_token c) < length (slots (arena s)))%nat) by (by eapply lookup_lt_Some).
  assert (Hne : forall i p, live s !! i = Some p -> tk_slot (lv_token p) <> tk_slot (cr_token c)) by (intros i p E Heq; destruct (Hlv i p E) as [n Hn]; rewrite Heq, Hfree in Hn; done).
  split; cbn; rewrite ?Hs.
  - unfold zlen in *. by rewrite length_insert.
  - intros i p [[<- <-]|[Hi E]]%lookup_insert_Some; [exists arc; by rewrite list_lookup_insert_eq|]. destruct (Hlv i p E) as [n Hn]. exists n. rewrite list_lookup_insert_ne; [done|]. by apply not_eq_sym, (Hne i).
  - intros i j p q [[<- <-]|[Hi E]]%lookup_insert_Some [[<- <-]|[Hj E']]%lookup_insert_Some Heq; [done| | |by eapply Hinj]; cbn in Heq; exfalso; [by apply (Hne j q)|by apply (Hne i p)].
  - intros i p [[<- <-]|[Hi E]]%lookup_insert_Some; [lia|]. specialize (Hids i p E). lia.
  - rewrite (sumZ_insert _ _ _ None) by done. rewrite map_size_insert_None by done. cbn [slot_taken]. lia.
  - rewrite (sumZ_insert _ _ _ None) by done. rewrite buffers_insert by done. cbn [slot_charge sl_charge buffer_of lv_buffer]. lia.
  - lia.
  - intros x Hx. apply list_elem_of_lookup in Hx as [k Hx]. apply list_lookup_insert_Some in Hx as [(_ & <- & _)|[_ Hx]]; [done|]. apply Hsl, list_elem_of_lookup. eauto.
  - intros i p n [[<- <-]|[Hi E]]%lookup_insert_Some; [by intros [= <-]|by apply (Hbf i)].
Qed.

Lemma books_last s id tok n : books s -> live s !! id = Some (mkLive tok (Some n)) -> books (mkPipes (release n (arena s)) (<[id := mkLive tok None]> (live s))).
Proof.
  intros [Hl Hlv Hinj Hids Htk Hch Hlim Hsl Hbf] E. assert (Htok : forall i p, <[id := mkLive tok None]> (live s) !! i = Some p -> exists p', live s !! i = Some p' /\ lv_token p' = lv_token p).
  { intros i p [[<- <-]|[Hi E']]%lookup_insert_Some; [by exists (mkLive tok (Some n))|by exists p]. } pose proof (Hbf id _ n E eq_refl) as Hn. split; cbn; try done.
  - intros i p (p' & E' & <-)%Htok. by apply (Hlv i).
  - intros i j p q (p' & E1 & <-)%Htok (q' & E2 & <-)%Htok. by apply Hinj.
  - intros i p (p' & E' & _)%Htok. by apply (Hids i p').
  - rewrite map_size_insert_Some by (by eexists). done.
  - rewrite (buffers_change id _ _ _ E). cbn [buffer_of lv_buffer]. lia.
  - unfold PIPE_BUF in Hn. lia.
  - intros i p m [[<- <-]|[Hi E']]%lookup_insert_Some; [done|by apply (Hbf i)].
Qed.

Lemma books_free s id tok : books s -> live s !! id = Some (mkLive tok None) -> exists a, deallocate tok (arena s) = Some a /\ books (mkPipes a (delete id (live s))).
Proof.
  intros Hb E. pose proof (slot_charges_nonneg s Hb) as Hnn. destruct Hb as [Hl Hlv Hinj Hids Htk Hch Hlim Hsl Hbf]. destruct (Hlv id _ E) as [n Hn]. cbn in Hn. assert (Hn0 : 0 <= n) by (apply (Hsl (Some (mkSlot (tk_generation tok) true n))), list_elem_of_lookup; eauto).
  unfold deallocate, cancel_failed_allocation, take_charge. rewrite Hn. cbn [sl_generation sl_charge]. rewrite Z.eqb_refl. cbn [mbind option_bind]. eexists. split; [done|].
  assert (Hk : (tk_slot tok < length (slots (arena s)))%nat) by (by eapply lookup_lt_Some). split; cbn.
  - unfold zlen in *. by rewrite length_insert.
  - intros i p [Hi E']%lookup_delete_Some. destruct (Hlv i p E') as [m Hm]. exists m. rewrite list_lookup_insert_ne; [done|]. intros Heq. by apply Hi, (Hinj _ _ _ _ E E').
  - intros i j p q [_ E1]%lookup_delete_Some [_ E2]%lookup_delete_Some. by apply Hinj.
  - intros i p [_ E']%lookup_delete_Some. by apply (Hids i p).
  - rewrite (sumZ_insert _ _ _ _ _ Hn). rewrite map_size_delete_Some by (by eexists). assert (size (live s) <> 0%nat) by (intros H0%map_size_empty_iff; rewrite H0 in E; done). cbn [slot_taken]. lia.
  - rewrite (sumZ_insert _ _ _ _ _ Hn), (buffers_delete id _ _ E). cbn [slot_charge sl_charge buffer_of lv_buffer]. lia.
  - lia.
  - intros x Hx. apply list_elem_of_lookup in Hx as [k Hx]. apply list_lookup_insert_Some in Hx as [(_ & <- & _)|[_ Hx]]; [done|]. apply Hsl, list_elem_of_lookup. eauto.
  - intros i p m [_ E']%lookup_delete_Some. by apply (Hbf i).
Qed.

Definition pipes_event_ok (e : PipesEvent) : Prop := match e with Create an cap _ => answers_ok cap an | _ => True end.

Lemma pipes_exec_books e s : books s -> pipes_event_ok e -> exists s', pipes_exec e s = Some s' /\ books s'.
Proof.
  intros Hb He. destruct e as [an cap nb|id|id]; cbn [pipes_exec].
  - destruct (create_spec an cap nb (arena s) He) as (a & r & -> & Hef). cbn [mbind option_bind]. eexists. split; [done|]. by apply books_create.
  - destruct (live s !! id) as [[tok [n|]]|] eqn:E; eauto. eexists. split; [done|]. by apply books_last.
  - destruct (live s !! id) as [[tok [n|]]|] eqn:E; eauto. destruct (books_free s id tok Hb E) as (a & -> & Hb'). eauto.
Qed.

Lemma pipes_exec_all_books es s : books s -> Forall pipes_event_ok es -> exists s', pipes_exec_all es s = Some s' /\ books s'.
Proof.
  revert s. induction es as [|e es IH]; intros s Hb Hes; [by exists s|]. apply list.Forall_cons in Hes as [He Hes]. destruct (pipes_exec_books e s Hb He) as (s1 & E & Hb1). cbn. rewrite E. cbn. by apply IH.
Qed.

Lemma pipes_new_books : books pipes_new.
Proof.
  split; try done. cbn. intros x Hx. apply elem_of_replicate in Hx as [-> _]. done.
Qed.

(** Pipes that still have their buffer are bounded by the limit of the class. *)
Lemma buffered_bound s : books s -> PIPE_BUF * sumZ (fun kp => if lv_buffer kp.2 then 1 else 0) (map_to_list (live s)) <= PIPE_CLASS_LIMIT.
Proof.
  intros Hb. pose proof (slot_charges_nonneg s Hb). pose proof (bk_charged _ Hb). pose proof (bk_limit _ Hb). rewrite <- sumZ_mul. etrans; [|exact (bk_limit _ Hb)]. etrans; [apply (sumZ_le _ (fun kp => buffer_of kp.2))|unfold buffers in *; lia].
  intros [i p] E%elem_of_map_to_list. unfold buffer_of. cbn. destruct (lv_buffer p) as [n|] eqn:Hn; [|lia]. pose proof (bk_buffer _ Hb i p n E Hn). lia.
Qed.

(** * Properties *)

(** C33 Over any creations, with any answers of the allocator and the ledger, and
    any order of releases: nothing panics, so no charge is released twice and no
    stale token frees a slot; the bytes of the class are exactly the control
    blocks in the table and the buffers of the pipes alive; every pipe has one
    slot of its own and every slot belongs to a pipe; and a creation that fails,
    at whatever point, leaves table and bytes as they were. *)
Theorem pipe_charges_exact es : Forall pipes_event_ok es -> exists s, pipes_exec_all es pipes_new = Some s /\
  charged (arena s) = sumZ slot_charge (slots (arena s)) + buffers (live s) /\ sumZ slot_taken (slots (arena s)) = Z.of_nat (size (live s)) /\
  (forall i j p q, live s !! i = Some p -> live s !! j = Some q -> tk_slot (lv_token p) = tk_slot (lv_token q) -> i = j) /\
  forall an cap nb, answers_ok cap an -> exists a' r, create_pipe_with_capacity an cap nb (arena s) = Some (a', r) /\
    match r with
    | inl c => live s !! cr_id c = None /\ PIPE_BUF <= cr_buffer c
    | inr _ => slots a' = slots (arena s) /\ charged a' = charged (arena s)
    end.
Proof.
  intros Hes. destruct (pipes_exec_all_books es _ pipes_new_books Hes) as (s & Hs & Hb). exists s. split; [done|]. split; [apply Hb|]. split; [apply Hb|]. split; [apply Hb|].
  intros an cap nb Han. destruct (create_spec an cap nb (arena s) Han) as (a' & r & E & He). exists a', r. split; [done|]. destruct r as [c|e]; [|by destruct He as (? & ? & _)].
  destruct He as (arc & _ & _ & _ & _ & _ & Hbuf & Hid & _). split; [|done]. destruct (live s !! cr_id c) as [p|] eqn:El; [|done]. pose proof (bk_ids _ Hb _ _ El). lia.
Qed.

Definition plenty : Answers := mkAnswers (Some 400) true true (Some 4096) true true true true.
Definition no_heap : Answers := mkAnswers (Some 400) true true (Some 4096) true true true false.
Definition lives : list PipesEvent := [Create plenty 4096 false; Create no_heap 4096 false; Create plenty 4096 true; LastOwner 1; FreeMemory 1].

Lemma lives_ok : Forall pipes_event_ok lives.
Proof. repeat constructor; intros n [= <-]; lia. Qed.

Lemma pipe_charges_exact_witness : exists s, pipes_exec_all lives pipes_new = Some s /\ charged (arena s) = sumZ slot_charge (slots (arena s)) + buffers (live s) /\ charged (arena s) = 4512 /\ map_to_list (live s) = [(3, mkLive (mkAllocator 1 3) (Some 4112))].
Proof.
  destruct (pipe_charges_exact lives lives_ok) as (s & Hs & Hc & _). exists s. split; [exact Hs|]. split; [exact Hc|].
  assert (Hv : (fun s => (charged (arena s), map_to_list (live s))) <$> pipes_exec_all lives pipes_new = Some (4512, [(3, mkLive (mkAllocator 1 3) (Some 4112))])) by (vm_compute; reflexivity).
  rewrite Hs in Hv. injection Hv as H1 H2. split; [exact H1|exact H2].
Defined.

(** C34 The table is large enough: as long as every pipe alive still has its
    buffer, at most 260 are alive and a creation finds a free slot. *)
Theorem pipe_slots_suffice es : Forall pipes_event_ok es -> exists s, pipes_exec_all es pipes_new = Some s /\
  ((forall i p, live s !! i = Some p -> lv_buffer p <> None) -> Z.of_nat (size (live s)) <= 260 /\ exists k, first_free (slots (arena s)) = Some k).
Proof.
  intros Hes. destruct (pipes_exec_all_books es _ pipes_new_books Hes) as (s & Hs & Hb). exists s. split; [done|]. intros Hall. pose proof (buffered_bound s Hb) as Hbd.
  rewrite (sumZ_ext _ (fun _ => 1)), sumZ_const in Hbd by (intros [i p] E%elem_of_map_to_list; cbn; specialize (Hall i p E); by destruct (lv_buffer p)). unfold zlen in Hbd. rewrite length_map_to_list in Hbd. unfold PIPE_BUF, PIPE_CLASS_LIMIT in Hbd. split; [lia|].
  pose proof (first_free_spec (slots (arena s))) as Hf. destruct (first_free (slots (arena s))) as [k|]; [by exists k|]. pose proof (bk_taken _ Hb). pose proof (bk_len _ Hb) as Hlen. change PIPE_ARC_CHARGE_SLOTS with 261 in Hlen. lia.
Qed.

Lemma pipe_slots_suffice_witness : exists s, pipes_exec_all lives pipes_new = Some s /\ Z.of_nat (size (live s)) <= 260 /\ exists k, first_free (slots (arena s)) = Some k.
Proof.
  destruct (pipe_slots_suffice lives lives_ok) as (s & Hs & H). exists s. split; [exact Hs|]. apply H.
  assert (Hv : map_to_list ∘ live <$> pipes_exec_all lives pipes_new = Some [(3, mkLive (mkAllocator 1 3) (Some 4112))]) by (vm_compute; reflexivity).
  rewrite Hs in Hv. injection Hv as Hv. intros i p E%elem_of_map_to_list. rewrite Hv in E. apply list_elem_of_singleton in E. injection E as -> ->. discriminate.
Defined.
