(* ===== verification/Locks.v ===== *)
(** The kernel mutex and the condition variable of [ipc/sync.rs]: their calls cut
    at every atomic access and every queue lock, and a system in which tasks run
    them on one mutex and one condition variable in any order.  The log records
    acquisitions, releases and answers; no definition reads it. *)

From Stdlib Require Import ZArith Lia.
From stdpp Require Import base list list_numbers numbers gmap.
From S2P Require Import Prelude Machine WaitQueue.

(** [prepare_to_wait] after [Ok(false)] *)
Definition refusal (cur : option Z) (q : WaitQueue) (ps : Procs) : WaitOutcome :=
  if closed q then Closed else
  match cur with
  | None => NoProcess
  | Some pid => if interrupted ps pid then Interrupted else NoProcess
  end.

(** * Objects *)
Record KMutex := mkMutex { locked : bool; m_queue : WaitQueue; owner : option Z }.
Record CondVar := mkCondVar { c_queue : WaitQueue }.

Definition mutex_new : KMutex := mkMutex false wait_queue_new None.
Definition cond_new : CondVar := mkCondVar wait_queue_new.

Definition with_locked (b : bool) (m : KMutex) : KMutex := mkMutex b (m_queue m) (owner m).
Definition with_owner (o : option Z) (m : KMutex) : KMutex := mkMutex (locked m) (m_queue m) o.

(** The queue a call waits on *)
Inductive Which := OnMutex | OnCond.

#[export] Instance Which_eq_dec : EqDecision Which.
Proof. solve_decision. Defined.

Definition which_queue (w : Which) (m : KMutex) (c : CondVar) : WaitQueue := match w with OnMutex => m_queue m | OnCond => c_queue c end.
Definition put_queue (w : Which) (q : WaitQueue) (m : KMutex) (c : CondVar) : KMutex * CondVar :=
  match w with OnMutex => (mkMutex (locked m) q (owner m), c) | OnCond => (m, mkCondVar q) end.

(** * Calls *)
Inductive LockCall := Lock | TryLock | Unlock | CondWait | NotifyOne | NotifyAll.

Inductive Answer := Granted | Flag (b : bool) | Refuses (e : WaitOutcome) | Finished.

Definition waits_on (c : LockCall) : Which := match c with CondWait => OnCond | _ => OnMutex end.

(** Where a task is inside its call *)
Inductive LockAt :=
| Try                      (** about to exchange [locked] *)
| Prepare                  (** about to prepare capacity of the queue *)
| Arm (cap : WaitCapacity) (** about to arm *)
| RefusedWait              (** [Ok(false)] *)
| Retry                    (** armed, about to exchange [locked] again *)
| Cancel                   (** acquired, about to leave the queue *)
| TakeOwner                (** acquired, about to record the owner *)
| InWait                   (** in [block_until_resolved] *)
| PastWait                 (** past it, still inside [finish_wait] *)
| CheckOwner               (** [unlock]: about to check and clear the owner *)
| Release                  (** about to clear [locked] *)
| WakeNext                 (** about to wake a waiter of the mutex *)
| Notify.                  (** about to wake waiters of the condition variable *)

Record LockTask := mkLockTask { lt_cur : option Z; lt_call : LockCall; lt_at : LockAt }.

Definition goto (a : LockAt) (t : LockTask) : LockTask := mkLockTask (lt_cur t) (lt_call t) a.

Inductive LockObs := Acquired (tid : Z) | Released (tid : Z) | Answered (tid : Z) (c : LockCall) (r : Answer).

Inductive LockNext := Continue (t : LockTask) | Answers (r : Answer).

Record LockStep := mkLockStep { ls_mutex : KMutex; ls_cond : CondVar; ls_procs : Procs; ls_obs : list LockObs; ls_next : LockNext }.

Definition lock_entry (c : LockCall) : LockAt :=
  match c with Lock | TryLock => Try | Unlock => CheckOwner | CondWait => Prepare | NotifyOne | NotifyAll => Notify end.

(** What a call answers once it has the mutex *)
Definition granted_answer (c : LockCall) : Answer := match c with TryLock => Flag true | _ => Granted end.

Section steps.
Context (tid : Z) (t : LockTask) (m : KMutex) (c : CondVar) (ps : Procs).

Definition stay (m : KMutex) (c : CondVar) (ps : Procs) (a : LockAt) : option LockStep := Some (mkLockStep m c ps [] (Continue (goto a t))).
Definition answer (m : KMutex) (c : CondVar) (ps : Procs) (r : Answer) : option LockStep := Some (mkLockStep m c ps [] (Answers r)).

(** [compare_exchange(false, true)]; [reacquire_after_condvar] tries again. *)
Definition try_step : option LockStep :=
  if locked m then
    match lt_call t with
    | Lock => stay m c ps Prepare
    | CondWait => stay m c ps Try
    | _ => answer m c ps (Flag false)
    end
  else Some (mkLockStep (with_locked true m) c ps [Acquired tid] (Continue (goto TakeOwner t))).

Definition retry_step : option LockStep :=
  if locked m then stay m c ps InWait
  else Some (mkLockStep (with_locked true m) c ps [Acquired tid] (Continue (goto Cancel t))).

Definition take_owner_step : option LockStep :=
  answer (match lt_cur t with Some pid => with_owner (Some pid) m | None => m end) c ps (granted_answer (lt_call t)).

(** [prepare_to_wait] *)
Definition prepare_wait_step (al : Z -> option Z) : option LockStep :=
  match prepare_current_wait_capacity al (lt_cur t) (which_queue (waits_on (lt_call t)) m c) with
  | Some cap => stay m c ps (Arm cap)
  | None => answer m c ps (Refuses ResourceExhausted)
  end.

Definition arm_step (cap : WaitCapacity) : option LockStep :=
  let w := waits_on (lt_call t) in
  '(armed, q, ps) ← try_prepare_to_wait_with_capacity (lt_cur t) cap (which_queue w m c) ps;
  let '(m, c) := put_queue w q m c in
  stay m c ps (match armed with
               | Prepared true => match lt_call t with CondWait => CheckOwner | _ => Retry end
               | Prepared false => RefusedWait
               | RetryCapacity => Prepare
               end).

Definition cancel_step : option LockStep :=
  let '(_, q, ps) := cancel_wait (lt_cur t) (m_queue m) ps in
  let '(m, c) := put_queue OnMutex q m c in
  stay m c ps TakeOwner.

(** [finish_wait], then around the loop of [lock] or to [reacquire_after_condvar] *)
Definition in_wait_step : option LockStep :=
  match lt_cur t with
  | Some pid => stay m c ps (if wait_resolved ps pid then PastWait else InWait)
  | None => stay m c ps PastWait
  end.

Definition past_wait_step : option LockStep :=
  let w := waits_on (lt_call t) in
  let '(q, ps) := finish_wait_tail (lt_cur t) (which_queue w m c) ps in
  let '(m, c) := put_queue w q m c in
  stay m c ps Try.

(** [unlock]; [None] is its panic. *)
Definition check_owner_step : option LockStep :=
  if bool_decide (owner m = None) || bool_decide (owner m = lt_cur t) then stay (with_owner None m) c ps Release else None.

Definition release_step : option LockStep :=
  Some (mkLockStep (with_locked false m) c ps [Released tid] (Continue (goto WakeNext t))).

Definition wake_next_step : option LockStep :=
  let '(_, q, ps) := wake_one (m_queue m) ps in
  let '(m, c) := put_queue OnMutex q m c in
  match lt_call t with
  | CondWait => stay m c ps InWait
  | _ => answer m c ps Finished
  end.

Definition notify_step : option LockStep :=
  let '(_, q, ps) := match lt_call t with
                     | NotifyOne => let '(_, q, ps) := wake_one (c_queue c) ps in (0, q, ps)
                     | _ => wake_all (c_queue c) ps
                     end in
  let '(m, c) := put_queue OnCond q m c in
  answer m c ps Finished.

Definition lock_step (al : Z -> option Z) : option LockStep :=
  match lt_at t with
  | Try => try_step
  | Prepare => prepare_wait_step al
  | Arm cap => arm_step cap
  | RefusedWait => answer m c ps (Refuses (refusal (lt_cur t) (which_queue (waits_on (lt_call t)) m c) ps))
  | Retry => retry_step
  | Cancel => cancel_step
  | TakeOwner => take_owner_step
  | InWait => in_wait_step
  | PastWait => past_wait_step
  | CheckOwner => check_owner_step
  | Release => release_step
  | WakeNext => wake_next_step
  | Notify => notify_step
  end.
End steps.

(** * Tasks together *)
Record LockSystem := mkLockSystem { mutex : KMutex; cond : CondVar; l_procs : Procs; l_tasks : gmap Z LockTask; l_log : list LockObs }.

Definition locks_new (ps : Procs) : LockSystem := mkLockSystem mutex_new cond_new ps ∅ [].

Inductive LockEvent :=
| LStart (tid : Z) (in_process : bool) (c : LockCall)
| LRun (tid : Z) (al : Z -> option Z)
| LPost (pid : Z) (ready : bool)
| LWithdraw (pid : Z)
| LDispatch (pid : Z)
| LOutside (pid : Z) (p : option Process).

Definition with_lprocs (ps : Procs) (s : LockSystem) : LockSystem := mkLockSystem (mutex s) (cond s) ps (l_tasks s) (l_log s).

Definition lock_start (tid : Z) (in_process : bool) (c : LockCall) (s : LockSystem) : LockSystem :=
  match l_tasks s !! tid with
  | Some _ => s
  | None =>
      mkLockSystem (mutex s) (cond s) (l_procs s)
        (<[tid := mkLockTask (if in_process then Some tid else None) c (lock_entry c)]> (l_tasks s)) (l_log s)
  end.

Definition lock_run (tid : Z) (al : Z -> option Z) (s : LockSystem) : option LockSystem :=
  match l_tasks s !! tid with
  | None => Some s
  | Some t =>
      o ← lock_step tid t (mutex s) (cond s) (l_procs s) al;
      Some (match ls_next o with
            | Continue t => mkLockSystem (ls_mutex o) (ls_cond o) (ls_procs o) (<[tid := t]> (l_tasks s)) (l_log s ++ ls_obs o)
            | Answers r =>
                mkLockSystem (ls_mutex o) (ls_cond o) (ls_procs o) (delete tid (l_tasks s))
                  (l_log s ++ ls_obs o ++ [Answered tid (lt_call t) r])
            end)
  end.

Definition lock_exec (e : LockEvent) (s : LockSystem) : option LockSystem :=
  match e with
  | LStart tid in_process c => Some (lock_start tid in_process c s)
  | LRun tid al => lock_run tid al s
  | LPost pid ready => Some (with_lprocs (post pid ready (l_procs s)) s)
  | LWithdraw pid => Some (with_lprocs (alter (with_abort false) pid (l_procs s)) s)
  | LDispatch pid => Some (with_lprocs (dispatch pid (l_procs s)) s)
  | LOutside pid p => Some (if bool_decide (l_tasks s !! pid = None) then with_lprocs (partial_alter (fun _ => p) pid (l_procs s)) s else s)
  end.

Fixpoint lock_exec_all (es : list LockEvent) (s : LockSystem) : option LockSystem :=
  match es with
  | [] => Some s
  | e :: es => s ← lock_exec e s; lock_exec_all es s
  end.
