(* ===== verification/Sema.v ===== *)
(** The counting semaphore of [ipc/sync.rs], its calls cut at every atomic access
    and every queue lock, and tasks that run them in any order.  The log records
    permits taken and given, exchanges lost after arming, and answers. *)

From Stdlib Require Import ZArith Lia.
From stdpp Require Import base list list_numbers numbers gmap.
From S2P Require Import Prelude Machine WaitQueue Locks.

Record Semaphore := mkSemaphore { count : Z; s_queue : WaitQueue }.

Definition semaphore_new (initial : Z) : Semaphore := mkSemaphore initial wait_queue_new.
Definition with_squeue (q : WaitQueue) (m : Semaphore) : Semaphore := mkSemaphore (count m) q.

Inductive SemCall := SemWait | SemTryWait | SemSignal.

(** Where a task is inside its call *)
Inductive SemAt :=
| Load                        (** [wait]: about to load the count *)
| Exchange (n : Z)            (** about to exchange [n] for [n - 1] *)
| SPrepare
| SArm (cap : WaitCapacity)
| SRefused
| Reload                      (** armed, about to load the count again *)
| ReExchange (n : Z)
| SCancel                     (** has a permit, about to leave the queue *)
| SInWait
| SPastWait
| TryLoad                     (** [try_wait] *)
| TryExchange (n : Z)
| Bump                        (** [signal]: about to add a permit *)
| SWake.

Record SemTask := mkSemTask { st_cur : option Z; st_call : SemCall; st_at : SemAt }.

Definition sgoto (a : SemAt) (t : SemTask) : SemTask := mkSemTask (st_cur t) (st_call t) a.

Inductive SemObs := Took (tid : Z) | Beaten (tid : Z) | Gave (tid : Z) | SAnswered (tid : Z) (r : Answer).

Inductive SemNext := SContinue (t : SemTask) | SAnswers (r : Answer).

Record SemStep := mkSemStep { ss_sem : Semaphore; ss_procs : Procs; ss_obs : list SemObs; ss_next : SemNext }.

Definition sem_entry (c : SemCall) : SemAt := match c with SemWait => Load | SemTryWait => TryLoad | SemSignal => Bump end.

Section steps.
Context (tid : Z) (t : SemTask) (m : Semaphore) (ps : Procs).

Definition sstay (m : Semaphore) (ps : Procs) (obs : list SemObs) (a : SemAt) : SemStep := mkSemStep m ps obs (SContinue (sgoto a t)).
Definition sanswer (m : Semaphore) (ps : Procs) (obs : list SemObs) (r : Answer) : SemStep := mkSemStep m ps obs (SAnswers r).

(** [compare_exchange(n, n - 1)] *)
Definition exchange (n : Z) : option Semaphore := if count m =? n then Some (mkSemaphore (n - 1) (s_queue m)) else None.

Definition sprepare_step (al : Z -> option Z) : SemStep :=
  match prepare_current_wait_capacity al (st_cur t) (s_queue m) with
  | Some cap => sstay m ps [] (SArm cap)
  | None => sanswer m ps [] (Refuses ResourceExhausted)
  end.

Definition sarm_step (cap : WaitCapacity) : option SemStep :=
  '(armed, q, ps) ← try_prepare_to_wait_with_capacity (st_cur t) cap (s_queue m) ps;
  Some (sstay (with_squeue q m) ps []
          (match armed with Prepared true => Reload | Prepared false => SRefused | RetryCapacity => SPrepare end)).

Definition swait_step : SemStep :=
  match st_cur t with
  | Some pid => sstay m ps [] (if wait_resolved ps pid then SPastWait else SInWait)
  | None => sstay m ps [] SPastWait
  end.

Definition sem_step (al : Z -> option Z) : option SemStep :=
  match st_at t with
  | Load => Some (sstay m ps [] (if 0 <? count m then Exchange (count m) else SPrepare))
  | Exchange n =>
      Some (match exchange n with
            | Some m => sanswer m ps [Took tid] Granted
            | None => sstay m ps [] Load
            end)
  | SPrepare => Some (sprepare_step al)
  | SArm cap => sarm_step cap
  | SRefused => Some (sanswer m ps [] (Refuses (refusal (st_cur t) (s_queue m) ps)))
  | Reload => Some (sstay m ps [] (if 0 <? count m then ReExchange (count m) else SInWait))
  | ReExchange n =>
      Some (match exchange n with
            | Some m => sstay m ps [Took tid] SCancel
            | None => sstay m ps [Beaten tid] SInWait
            end)
  | SCancel => let '(_, q, ps) := cancel_wait (st_cur t) (s_queue m) ps in Some (sanswer (with_squeue q m) ps [] Granted)
  | SInWait => Some swait_step
  | SPastWait => let '(q, ps) := finish_wait_tail (st_cur t) (s_queue m) ps in Some (sstay (with_squeue q m) ps [] Load)
  | TryLoad => Some (if count m =? 0 then sanswer m ps [] (Flag false) else sstay m ps [] (TryExchange (count m)))
  | TryExchange n =>
      Some (match exchange n with
            | Some m => sanswer m ps [Took tid] (Flag true)
            | None => sstay m ps [] TryLoad
            end)
  | Bump => Some (sstay (mkSemaphore (Z.min (count m + 1) u32_max) (s_queue m)) ps [Gave tid] SWake)
  | SWake => let '(_, q, ps) := wake_one (s_queue m) ps in Some (sanswer (with_squeue q m) ps [] Finished)
  end.
End steps.

(** * Tasks together *)
Record SemSystem := mkSemSystem { sem : Semaphore; s_procs : Procs; s_tasks : gmap Z SemTask; s_log : list SemObs }.

Definition sem_new (initial : Z) (ps : Procs) : SemSystem := mkSemSystem (semaphore_new initial) ps ∅ [].

Inductive SemEvent :=
| SStart (tid : Z) (in_process : bool) (c : SemCall)
| SRun (tid : Z) (al : Z -> option Z)
| SPost (pid : Z) (ready : bool)
| SWithdraw (pid : Z)
| SDispatch (pid : Z)
| SOutside (pid : Z) (p : option Process).

Definition with_sprocs (ps : Procs) (s : SemSystem) : SemSystem := mkSemSystem (sem s) ps (s_tasks s) (s_log s).

Definition sem_start (tid : Z) (in_process : bool) (c : SemCall) (s : SemSystem) : SemSystem :=
  match s_tasks s !! tid with
  | Some _ => s
  | None => mkSemSystem (sem s) (s_procs s) (<[tid := mkSemTask (if in_process then Some tid else None) c (sem_entry c)]> (s_tasks s)) (s_log s)
  end.

Definition sem_run (tid : Z) (al : Z -> option Z) (s : SemSystem) : option SemSystem :=
  match s_tasks s !! tid with
  | None => Some s
  | Some t =>
      o ← sem_step tid t (sem s) (s_procs s) al;
      Some (match ss_next o with
            | SContinue t => mkSemSystem (ss_sem o) (ss_procs o) (<[tid := t]> (s_tasks s)) (s_log s ++ ss_obs o)
            | SAnswers r => mkSemSystem (ss_sem o) (ss_procs o) (delete tid (s_tasks s)) (s_log s ++ ss_obs o ++ [SAnswered tid r])
            end)
  end.

Definition sem_exec (e : SemEvent) (s : SemSystem) : option SemSystem :=
  match e with
  | SStart tid in_process c => Some (sem_start tid in_process c s)
  | SRun tid al => sem_run tid al s
  | SPost pid ready => Some (with_sprocs (post pid ready (s_procs s)) s)
  | SWithdraw pid => Some (with_sprocs (alter (with_abort false) pid (s_procs s)) s)
  | SDispatch pid => Some (with_sprocs (dispatch pid (s_procs s)) s)
  | SOutside pid p => Some (if bool_decide (s_tasks s !! pid = None) then with_sprocs (partial_alter (fun _ => p) pid (s_procs s)) s else s)
  end.

Fixpoint sem_exec_all (es : list SemEvent) (s : SemSystem) : option SemSystem :=
  match es with
  | [] => Some s
  | e :: es => s ← sem_exec e s; sem_exec_all es s
  end.
