(* ===== verification/LockFacts.v ===== *)
(** The mutex has one holder at a time, and nobody waits for a mutex that is free
    as long as interrupts stay raised; permits of a semaphore are neither made up
    nor given twice. *)

From Stdlib Require Import ZArith Lia.
From stdpp Require Import base list list_numbers numbers gmap.
From S2P Require Import Prelude Machine WaitQueue WaitFacts Waiting Locks Sema.

(** * Holders *)
Definition hold (h : option Z) (o : LockObs) : option Z := match o with Acquired tid => Some tid | Released _ => None | Answered _ _ _ => h end.
Definition holder (L : list LockObs) : option Z := fold_left hold L None.
Arguments holder : simpl never.

(** Answers after which the caller has the mutex: an acquisition, and a wait on a
    condition variable whether it succeeds or not *)
Definition comes_back_holding (c : LockCall) (r : Answer) : Prop := c = CondWait \/ r = Granted \/ r = Flag true.

(** Acquisitions find the mutex free, releases are by its holder, and calls that
    promise it return to its holder. *)
Fixpoint exclusive (h : option Z) (L : list LockObs) : Prop :=
  match L with
  | [] => True
  | o :: L =>
      match o with
      | Acquired _ => h = None
      | Released tid => h = Some tid
      | Answered tid c r => comes_back_holding c r -> h = Some tid
      end /\ exclusive (hold h o) L
  end.

Lemma exclusive_app h L L' : exclusive h (L ++ L') <-> exclusive h L /\ exclusive (fold_left hold L h) L'.
Proof. revert h. induction L as [|o L IH]; intros h; cbn; [naive_solver|]. rewrite IH. naive_solver. Qed.

Lemma holder_app L L' : holder (L ++ L') = fold_left hold L' (holder L).
Proof. apply fold_left_app. Qed.

(** Places at which a task holds the mutex, and those at which no owner is recorded *)
Definition holding (t : LockTask) : bool :=
  match lt_at t with
  | TakeOwner | Cancel | CheckOwner | Release => true
  | Prepare | Arm _ | RefusedWait => match lt_call t with CondWait => true | _ => false end
  | _ => false
  end.
(** A wait on the condition variable between its release and its acquisition *)
Definition gave_up (t : LockTask) : bool :=
  match lt_call t, lt_at t with CondWait, (WakeNext | InWait | PastWait | Try) => true | _, _ => false end.
Definition unowned (t : LockTask) : bool := match lt_at t with TakeOwner | Cancel | Release => true | _ => false end.

Record holds_mutex (m : KMutex) (h : option Z) (tid : Z) (t : LockTask) : Prop := {
  hm_cur : lt_cur t = Some tid \/ lt_cur t = None;
  hm_held : holding t = true -> h = Some tid;
  hm_unowned : unowned t = true -> owner m = None;
  hm_ctx : holding t = true -> lt_cur t = None -> owner m = None;
  hm_cond : lt_call t = CondWait -> lt_at t <> Notify /\ lt_at t <> Retry;
  hm_gave : gave_up t = true -> h <> Some tid;
}.

Record mutex_inv (s : LockSystem) : Prop := {
  mi_log : exclusive None (l_log s);
  mi_lock : locked (mutex s) = match holder (l_log s) with Some _ => true | None => false end;
  mi_owner : forall pid, owner (mutex s) = Some pid -> holder (l_log s) = Some pid;
  mi_task : forall tid t, l_tasks s !! tid = Some t -> holds_mutex (mutex s) (holder (l_log s)) tid t;
}.

(** Callers release, and wait on the condition variable, only while they hold the
    mutex, in a process if they took it in one. *)
Definition polite (e : LockEvent) (s : LockSystem) : Prop :=
  match e with
  | LStart tid in_process Unlock | LStart tid in_process CondWait =>
      holder (l_log s) = Some tid /\ (in_process = false -> owner (mutex s) = None)
  | _ => True
  end.

Fixpoint disciplined (es : list LockEvent) (s : LockSystem) : Prop :=
  match es with
  | [] => True
  | e :: es => polite e s /\ forall s', lock_exec e s = Some s' -> disciplined es s'
  end.

Definition next_lock_task (n : LockNext) : option LockTask := match n with Continue t => Some t | Answers _ => None end.

(** A step that neither acquires nor releases *)
Lemma mutex_inv_frame s m c ps tid t next L : mutex_inv s -> l_tasks s !! tid = Some t -> locked m = locked (mutex s) -> owner m = owner (mutex s) -> holder L = holder (l_log s) -> exclusive None L ->
  (forall t', next = Some t' -> lt_cur t' = lt_cur t /\ (holding t' = true -> holding t = true) /\ (unowned t' = true -> unowned t = true) /\ (lt_call t' = CondWait -> lt_at t' <> Notify /\ lt_at t' <> Retry) /\ (gave_up t' = true -> gave_up t = true)) ->
  mutex_inv (mkLockSystem m c ps (partial_alter (fun _ => next) tid (l_tasks s)) L).
Proof.
  intros [Hlog Hlock Hown Htask] Et Hm Ho HL Hex Hnext. split; cbn.
  - done.
  - by rewrite Hm, HL.
  - intros pid. rewrite Ho, HL. apply Hown.
  - intros x t'. rewrite HL. destruct (decide (x = tid)) as [->|Hne].
    + rewrite lookup_partial_alter_eq. intros ->. destruct (Hnext t' eq_refl) as (Hc & Hh & Hu & Hk & Hv). destruct (Htask tid t Et) as [H1 H2 H3 H4 H5 H6]. split; rewrite ?Hc, ?Ho; auto.
    + rewrite lookup_partial_alter_ne by done. intros Et'. destruct (Htask x t' Et') as [H1 H2 H3 H4 H5 H6]. split; rewrite ?Ho; auto.
Qed.

(** A step that changes the holder or the owner: nobody else is at a place that depends on them. *)
Lemma mutex_inv_change s m c ps tid t next L : mutex_inv s -> l_tasks s !! tid = Some t -> holder (l_log s) = Some tid \/ holder (l_log s) = None ->
  exclusive None L -> holder L = Some tid \/ holder L = None -> locked m = (match holder L with Some _ => true | None => false end) -> (forall pid, owner m = Some pid -> holder L = Some pid) ->
  (forall t', next = Some t' -> holds_mutex m (holder L) tid t') -> mutex_inv (mkLockSystem m c ps (partial_alter (fun _ => next) tid (l_tasks s)) L).
Proof.
  intros [Hlog Hlock Hown Htask] Et Hh Hex Hh' Hl Ho Hnext. split; cbn; try done. intros x t'. destruct (decide (x = tid)) as [->|Hne]; [rewrite lookup_partial_alter_eq; apply Hnext|].
  rewrite lookup_partial_alter_ne by done. intros Et'. destruct (Htask x t' Et') as [H1 H2 H3 H4 H5 _].
  assert (Hno : holding t' = false) by (destruct (holding t'); [specialize (H2 eq_refl); destruct Hh; congruence|done]).
  split; rewrite ?Hno; try done; [|by intros _; destruct Hh' as [-> | ->]; [intros [= ->]|]]. intros Hu. unfold unowned, holding in *. destruct (lt_at t'); done.
Qed.

(** What a step does to the mutex, queues and processes aside *)
Inductive lock_effect (tid : Z) (t : LockTask) (m : KMutex) (o : LockStep) : Prop :=
| Quiet a : locked (ls_mutex o) = locked m -> owner (ls_mutex o) = owner m -> ls_obs o = [] -> ls_next o = Continue (goto a t) ->
    (holding (goto a t) = true -> holding t = true) -> (unowned (goto a t) = true -> unowned t = true) -> (lt_call t = CondWait -> a <> Notify /\ a <> Retry) -> (gave_up (goto a t) = true -> gave_up t = true) -> lock_effect tid t m o
| Gives r : locked (ls_mutex o) = locked m -> owner (ls_mutex o) = owner m -> ls_obs o = [] -> ls_next o = Answers r -> (comes_back_holding (lt_call t) r -> holding t = true) -> lock_effect tid t m o
| Acquires a : locked m = false -> locked (ls_mutex o) = true -> owner (ls_mutex o) = owner m -> ls_obs o = [Acquired tid] -> ls_next o = Continue (goto a t) -> a = TakeOwner \/ a = Cancel -> lock_effect tid t m o
| Owns r : lt_at t = TakeOwner -> locked (ls_mutex o) = locked m -> (owner (ls_mutex o) = owner m \/ owner (ls_mutex o) = lt_cur t) -> ls_obs o = [] -> ls_next o = Answers r -> lock_effect tid t m o
| Clears : lt_at t = CheckOwner -> locked (ls_mutex o) = locked m -> owner (ls_mutex o) = None -> ls_obs o = [] -> ls_next o = Continue (goto Release t) -> lock_effect tid t m o
| Releases : lt_at t = Release -> locked (ls_mutex o) = false -> owner (ls_mutex o) = owner m -> ls_obs o = [Released tid] -> ls_next o = Continue (goto WakeNext t) -> lock_effect tid t m o.

Lemma stay_quiet tid t m c ps m' a : locked m' = locked m -> owner m' = owner m -> (holding (goto a t) = true -> holding t = true) -> (unowned (goto a t) = true -> unowned t = true) ->
  (lt_call t = CondWait -> a <> Notify /\ a <> Retry) -> (gave_up (goto a t) = true -> gave_up t = true) -> exists o, stay t m' c ps a = Some o /\ lock_effect tid t m o.
Proof. intros. eexists. split; [done|]. by apply (Quiet tid t m _ a). Qed.

Lemma answer_gives tid t m c ps m' r : locked m' = locked m -> owner m' = owner m -> (comes_back_holding (lt_call t) r -> holding t = true) -> exists o, answer m' c ps r = Some o /\ lock_effect tid t m o.
Proof. intros. eexists. split; [done|]. by apply (Gives tid t m _ r). Qed.

Lemma put_queue_mutex w q m c : locked (put_queue w q m c).1 = locked m /\ owner (put_queue w q m c).1 = owner m.
Proof. by destruct w. Qed.

Ltac quiet := apply stay_quiet; unfold holding, unowned, gave_up; cbn; try done; try congruence;
  try (match goal with H : lt_at _ = _ |- context [lt_call ?t] => rewrite ?H; destruct (lt_call t); done end).

Lemma lock_step_effect al tid t m c ps : (lt_call t = CondWait -> lt_at t <> Notify /\ lt_at t <> Retry) -> (lt_at t = CheckOwner -> owner m = None \/ owner m = lt_cur t) ->
  exists o, lock_step tid t m c ps al = Some o /\ lock_effect tid t m o.
Proof.
  intros Hcond Hown. assert (Hno : forall e, comes_back_holding (lt_call t) (Refuses e) -> lt_call t = CondWait) by (intros e [?|[?|?]]; done). unfold lock_step. destruct (lt_at t) as [| |cap| | | | | | | | | |] eqn:Hat.
  - unfold try_step. destruct (locked m) eqn:Hl; [|eexists; split; [done|]; apply (Acquires _ _ _ _ TakeOwner); auto].
    assert (Hf : lt_call t <> CondWait -> exists o, answer m c ps (Flag false) = Some o /\ lock_effect tid t m o) by (intros Hc; apply answer_gives; try done; intros [?|[?|?]]; done).
    destruct (lt_call t) eqn:Hc; try (by apply Hf); quiet.
  - unfold prepare_wait_step. destruct (prepare_current_wait_capacity _ _ _) as [cap|]; [quiet; by rewrite Hat|]. apply answer_gives; try done. intros Hk%Hno. unfold holding. by rewrite Hat, Hk.
  - unfold arm_step. destruct (try_prepare_total (lt_cur t) cap (which_queue (waits_on (lt_call t)) m c) ps) as [[[armed q] ps'] ->]. cbn [mbind option_bind].
    pose proof (put_queue_mutex (waits_on (lt_call t)) q m c) as [Hl Ho]. destruct (put_queue _ _ _ _) as [m' c']. cbn in Hl, Ho. destruct armed as [[]|]; quiet; try (by rewrite Hat); destruct (lt_call t) eqn:Hc; cbn; rewrite ?Hat; try done.
  - apply answer_gives; try done. intros Hk%Hno. unfold holding. by rewrite Hat, Hk.
  - unfold retry_step. destruct (locked m) eqn:Hl; [quiet; destruct (lt_call t); try done; by destruct (Hcond eq_refl)|]. eexists. split; [done|]. apply (Acquires _ _ _ _ Cancel); auto.
  - unfold cancel_step. destruct (cancel_wait _ _ _) as [[b q] ps']. cbn. quiet; by rewrite Hat.
  - eexists. split; [done|]. apply (Owns _ _ _ _ (granted_answer (lt_call t))); try done; cbn; destruct (lt_cur t); auto.
  - unfold in_wait_step. destruct (lt_cur t) as [pid|]; [destruct (wait_resolved ps pid)|]; quiet.
  - unfold past_wait_step. destruct (finish_wait_tail _ _ _) as [q ps']. pose proof (put_queue_mutex (waits_on (lt_call t)) q m c) as [Hl Ho]. destruct (put_queue _ _ _ _) as [m' c']. quiet.
  - unfold check_owner_step. destruct (bool_decide (owner m = None) || bool_decide (owner m = lt_cur t)) eqn:Hb; [eexists; split; [done|]; by apply Clears|].
    apply orb_false_iff in Hb as [H1%bool_decide_eq_false_1 H2%bool_decide_eq_false_1]. destruct (Hown eq_refl); done.
  - eexists. split; [done|]. by apply Releases.
  - unfold wake_next_step. destruct (wake_one _ _) as [[w q] ps']. cbn. destruct (lt_call t) eqn:Hc; try (apply answer_gives; try done; rewrite Hc; intros [?|[?|?]]; done). quiet.
  - unfold notify_step. destruct (match lt_call t with NotifyOne => _ | _ => _ end) as [[w q] ps']. cbn. apply answer_gives; try done. intros [Hk|[?|?]]; try done. by destruct (Hcond Hk).
Qed.

Lemma lock_run_mutex tid al s : mutex_inv s -> exists s', lock_run tid al s = Some s' /\ mutex_inv s'.
Proof.
  intros Hi. unfold lock_run. destruct (l_tasks s !! tid) as [t|] eqn:Et; [|eauto]. destruct (mi_task _ Hi tid t Et) as [Hcur Hheld Hun Hctx Hcond Hgave]. pose proof Hi as [Hex Hlk Hown _].
  destruct (lock_step_effect al tid t (mutex s) (cond s) (l_procs s) Hcond) as (o & -> & Hef).
  { intros Hat. assert (Hh : holding t = true) by (unfold holding; by rewrite Hat). destruct (owner (mutex s)) as [pid|] eqn:Ho; [|by left]. right. pose proof (Hown pid eq_refl). specialize (Hheld Hh). destruct Hcur as [->|E]; [congruence|]. by specialize (Hctx Hh E). }
  cbn [mbind option_bind]. eexists. split; [done|].
  destruct Hef as [a Hl Ho Hobs -> Hh Hu Hc Hg|r Hl Ho Hobs -> Hr|a Hf Hl Ho Hobs -> Ha|r Hat Hl Ho Hobs ->|Hat Hl Ho Hobs ->|Hat Hl Ho Hobs ->]; rewrite Hobs, ?app_nil_r.
  - apply (mutex_inv_frame s _ _ _ tid t (Some (goto a t))); try done. by intros t' [= <-].
  - apply (mutex_inv_frame s _ _ _ tid t None); try done; [by rewrite holder_app|]. apply exclusive_app. split; [done|]. cbn. split; [|done]. intros Hk. by apply Hheld, Hr.
  - assert (Hno : holder (l_log s) = None) by (rewrite Hf in Hlk; by destruct (holder (l_log s))). assert (Hon : owner (mutex s) = None) by (destruct (owner (mutex s)) as [pid|] eqn:E; [by rewrite (Hown pid eq_refl) in Hno|done]).
    apply (mutex_inv_change s _ _ _ tid t (Some (goto a t))); try done; [by right|apply exclusive_app; split; [done|]; by split; [exact Hno|]|left; by rewrite holder_app|by rewrite holder_app|rewrite Ho, Hon; done|].
    intros t' [= <-]. rewrite holder_app. split; cbn; rewrite ?Ho; try done; [intros _; destruct Ha as [-> | ->]; done|]. unfold gave_up. cbn. destruct Ha as [-> | ->]; by destruct (lt_call t).
  - assert (Hh : holder (l_log s) = Some tid) by (apply Hheld; unfold holding; by rewrite Hat). apply (mutex_inv_change s _ _ _ tid t None); try done; [by left| |left; by rewrite holder_app| |].
    + apply exclusive_app. split; [done|]. cbn. split; [|done]. by intros _.
    + by rewrite Hl, Hlk, holder_app.
    + rewrite holder_app. cbn. rewrite Hh. intros pid E. destruct Ho as [Ho|Ho]; [rewrite <- Hh; apply Hown; congruence|]. destruct Hcur; congruence.
  - assert (Hh : holder (l_log s) = Some tid) by (apply Hheld; unfold holding; by rewrite Hat). apply (mutex_inv_change s _ _ _ tid t (Some (goto Release t))); try done; [by left|by left|by rewrite Hl, Hlk|by rewrite Ho|]. intros t' [= <-]. split; cbn; try done. unfold gave_up. cbn. by destruct (lt_call t).
  - assert (Hh : holder (l_log s) = Some tid) by (apply Hheld; unfold holding; by rewrite Hat).
    apply (mutex_inv_change s _ _ _ tid t (Some (goto WakeNext t))); try done; [by left|apply exclusive_app; split; [done|]; by split; [exact Hh|]|right; by rewrite holder_app|by rewrite Hl, holder_app| |].
    + rewrite Ho, Hun; [done|]. unfold unowned. by rewrite Hat.
    + intros t' [= <-]. split; cbn; try done. by rewrite holder_app.
Qed.

Lemma lock_start_mutex tid inp c s : mutex_inv s -> polite (LStart tid inp c) s -> mutex_inv (lock_start tid inp c s).
Proof.
  intros Hi Hp. unfold lock_start. destruct (l_tasks s !! tid) eqn:Et; [done|]. destruct Hi as [Hlog Hlock Hown Htask]. split; try done. cbn. intros x t [[<- <-]|[? E]]%lookup_insert_Some; [|by apply Htask].
  split; cbn; [destruct inp; auto|destruct c; try done; naive_solver|by destruct c| |by destruct c|by destruct c]. destruct c; try done; cbn; destruct Hp as [? Hp], inp; try done; intros _ _; by apply Hp.
Qed.

Lemma lock_exec_mutex e s : mutex_inv s -> polite e s -> exists s', lock_exec e s = Some s' /\ mutex_inv s'.
Proof.
  intros Hi Hp. assert (Hps : forall ps, mutex_inv (with_lprocs ps s)) by (intros; by destruct Hi).
  destruct e; cbn [lock_exec]; [eexists; split; [done|]; by apply lock_start_mutex|by apply lock_run_mutex|eexists; split; [done|]; try case_match; auto..].
Qed.

Lemma lock_exec_all_mutex es s : mutex_inv s -> disciplined es s -> exists s', lock_exec_all es s = Some s' /\ mutex_inv s'.
Proof.
  revert s. induction es as [|e es IH]; intros s Hi Hd; [by exists s|]. destruct Hd as [Hp Hd]. destruct (lock_exec_mutex e s Hi Hp) as (s1 & E & Hi1). cbn. rewrite E. cbn. apply IH; [done|by apply Hd].
Qed.

Lemma locks_new_mutex ps : mutex_inv (locks_new ps).
Proof. by split. Qed.

(** * Waiting for the mutex and the condition variable *)

(** Where a task waits *)
Definition waiting (t : LockTask) : option (Which * Stage) :=
  match lt_at t with
  | Retry | Cancel => Some (OnMutex, Armed)
  | CheckOwner | Release | WakeNext => match lt_call t with CondWait => Some (OnCond, Armed) | _ => None end
  | InWait => Some (waits_on (lt_call t), Waits)
  | PastWait => Some (waits_on (lt_call t), Leaves)
  | _ => None
  end.

Abbreviation LockTasks := (gmap Z LockTask).

Definition where_waits (ts : LockTasks) (tid : Z) : option (Which * Stage) := ts !! tid ≫= waiting.
Definition entries (m : KMutex) (c : CondVar) (w : Which) : list Entry := waiters (which_queue w m c).

(** A task on its way to exchange [locked] or to wake a waiter *)
Definition lock_carrier (ps : Procs) (tid : Z) (t : LockTask) : bool :=
  match lt_at t with
  | Try | Retry | PastWait | WakeNext => true
  | InWait => negb (is_blocked ps tid)
  | _ => false
  end.

Record lock_sleeper (ps : Procs) (ts : LockTasks) (tid : Z) (t : LockTask) : Prop := {
  lk_task : ts !! tid = Some t;
  lk_at : lt_at t = InWait;
  lk_call : lt_call t <> CondWait;
  lk_blocked : is_blocked ps tid = true;
}.

(** While the mutex is free, whoever sleeps for it has a carrier. *)
Definition served (lk : bool) (ps : Procs) (ts : LockTasks) : Prop :=
  lk = false -> forall tid t, lock_sleeper ps ts tid t -> exists tid' t', ts !! tid' = Some t' /\ lock_carrier ps tid' t' = true.

Record lock_wake (m : KMutex) (c : CondVar) (ps : Procs) (ts : LockTasks) : Prop := {
  lw_wait : waiting_inv (entries m c) ps (where_waits ts);
  lw_cur : forall tid t, ts !! tid = Some t -> waiting t <> None -> lt_cur t = Some tid;
  lw_served : served (locked m) ps ts;
}.

Section step.
Context (ts : LockTasks) (tid : Z) (t : LockTask) (Et : ts !! tid = Some t).
Context (next : option LockTask).

Abbreviation ts' := (partial_alter (fun _ => next) tid ts).

Lemma next_lookup x t' : ts' !! x = Some t' <-> (x = tid /\ next = Some t') \/ (x <> tid /\ ts !! x = Some t').
Proof. destruct (decide (x = tid)) as [->|Hne]; [rewrite lookup_partial_alter_eq|rewrite lookup_partial_alter_ne by done]; naive_solver. Qed.

Lemma next_moves : moves (where_waits ts) (where_waits ts') tid (next ≫= waiting).
Proof. intros x. unfold where_waits. case_decide as E; [by rewrite E, lookup_partial_alter_eq|by rewrite lookup_partial_alter_ne]. Qed.

Lemma served_local lk lk' ps ps' : served lk ps ts -> (lk' = false -> lk = false) -> (forall x, x <> tid -> is_blocked ps' x = true -> is_blocked ps x = true) ->
  (forall t', next = Some t' -> lt_at t' <> InWait \/ lt_call t' = CondWait) -> (lock_carrier ps tid t = true -> exists t', next = Some t' /\ lock_carrier ps' tid t' = true) -> served lk' ps' ts'.
Proof.
  intros Hs Hl Hb Hn Hc Hlk' x t1 [E1 Hat Hcall Hbl]. apply next_lookup in E1 as [[-> En]|[Hne E1]]; [by destruct (Hn t1 En)|].
  destruct (Hs (Hl Hlk') x t1) as (y & t2 & E2 & Hc2); [split; try done; by apply Hb|]. destruct (decide (y = tid)) as [->|Hy].
  - rewrite Et in E2. injection E2 as <-. destruct (Hc Hc2) as (t' & En & Hct). exists tid, t'. split; [apply next_lookup; by left|done].
  - exists y, t2. split; [apply next_lookup; by right|]. unfold lock_carrier in *. destruct (lt_at t2); try done. apply negb_true_iff. apply negb_true_iff in Hc2. destruct (is_blocked ps' y) eqn:E; [|done]. by rewrite (Hb y Hy E) in Hc2.
Qed.

Lemma cur_local m c ps : lock_wake m c ps ts -> (forall t', next = Some t' -> waiting t' <> None -> lt_cur t' = Some tid) -> forall x t', ts' !! x = Some t' -> waiting t' <> None -> lt_cur t' = Some x.
Proof. intros Hw Hn x t' [[-> En]|[_ E]]%next_lookup; [by apply Hn|by apply (lw_cur _ _ _ _ Hw)]. Qed.

(** A step that leaves the queues and the processes alone, and the task as it waits *)
Lemma lock_wake_same m c ps m' : lock_wake m c ps ts -> m_queue m' = m_queue m -> next ≫= waiting = waiting t -> (forall t', next = Some t' -> lt_cur t' = lt_cur t) -> served (locked m') ps ts' -> lock_wake m' c ps ts'.
Proof.
  intros Hw Hq Hwt Hcur Hs. split; [| |done].
  - apply (waiting_ext (entries m c) _ (where_waits ts)); [|..|apply Hw].
    + intros []; unfold entries; cbn; by rewrite ?Hq.
    + intros x. rewrite next_moves. case_decide as E; [|done]. subst x. unfold where_waits. by rewrite Et.
  - apply (cur_local m c ps); [done|]. intros t' En Hne. rewrite (Hcur t' En). apply (lw_cur _ _ _ _ Hw tid t Et). intros E. rewrite En in Hwt. cbn in Hwt. congruence.
Qed.
End step.

Lemma put_entries w q m c : replaces (entries m c) (entries (put_queue w q m c).1 (put_queue w q m c).2) w (waiters q).
Proof. intros []; by destruct w. Qed.

Lemma wake_one_woke q ps : let '(_, q', ps') := wake_one q ps in woke (waiters q) (waiters q') ps ps'.
Proof. unfold wake_one. pose proof (wake_one_loop_spec (waiters q) ps) as H. destruct (wake_one_loop _ _) as [[w l] ps']. apply H. Qed.

Lemma wake_all_woke q ps : let '(_, q', ps') := wake_all q ps in woke (waiters q) (waiters q') ps ps'.
Proof.
  unfold wake_all. pose proof (wake_all_loop_spec (waiters q) 0 ps) as H. destruct (wake_all_loop _ _ _) as [w ps']. destruct H as [Hr Hg]. split; cbn; [apply suffix_nil|done|by intros; apply Hg|by intros _ x ?%elem_of_nil].
Qed.

Lemma woke_blocked l l' ps ps' x : woke l l' ps ps' -> is_blocked ps' x = true -> is_blocked ps x = true.
Proof. intros [_ Hr _ _] Hb. by apply (readied_blocked l ps ps'). Qed.

Section run.
Context (s : LockSystem) (tid : Z) (t : LockTask) (Et : l_tasks s !! tid = Some t).
Context (Hm : mutex_inv s) (Hw : lock_wake (mutex s) (cond s) (l_procs s) (l_tasks s)).

Abbreviation after o := (lock_wake (ls_mutex o) (ls_cond o) (ls_procs o) (partial_alter (fun _ => next_lock_task (ls_next o)) tid (l_tasks s))).

Lemma here_waits : where_waits (l_tasks s) tid = waiting t.
Proof. unfold where_waits. by rewrite Et. Qed.

Lemma held_locked : holding t = true -> locked (mutex s) = true.
Proof. intros Hh. destruct (mi_task _ Hm tid t Et) as [_ Hheld _ _ _ _]. by rewrite (mi_lock _ Hm), (Hheld Hh). Qed.

Lemma arm_wake cap o : lt_at t = Arm cap -> arm_step t (mutex s) (cond s) (l_procs s) cap = Some o -> after o.
Proof.
  intros Hat. set (w := waits_on (lt_call t)). assert (HW : where_waits (l_tasks s) tid = None) by (rewrite here_waits; unfold waiting; by rewrite Hat).
  assert (Hnq : queued tid (which_queue w (mutex s) (cond s)) = false).
  { destruct (queued _ _) eqn:E; [|done]. apply queued_iff in E as (x & Hx & Ex). destruct (not_waiting_no_entry _ _ _ tid w (lw_wait _ _ _ _ Hw) HW). apply list_elem_of_fmap. eauto. }
  unfold arm_step. fold w. destruct (try_prepare_cases (lt_cur t) cap (which_queue w (mutex s) (cond s)) (l_procs s) tid (hm_cur _ _ _ _ (mi_task _ Hm tid t Et)) Hnq) as (out & q & ps & -> & Hout).
  cbn [mbind option_bind]. pose proof (put_entries w q (mutex s) (cond s)) as Hput. pose proof (put_queue_mutex w q (mutex s) (cond s)) as [Hlk _]. destruct (put_queue w q (mutex s) (cond s)) as [m c]. cbn in Hput, Hlk. intros [= <-]. cbn.
  assert (Hserved : forall a, (a = InWait -> False) -> (forall x, x <> tid -> is_blocked ps x = true -> is_blocked (l_procs s) x = true) -> served (locked m) ps (partial_alter (fun _ => Some (goto a t)) tid (l_tasks s))).
  { intros a Ha Hb. rewrite Hlk. apply (served_local _ tid t Et _ (locked (mutex s)) _ (l_procs s)); try done; [apply Hw|intros t' [= <-]; by left|]. unfold lock_carrier. by rewrite Hat. }
  destruct Hout as [(Hno & Hq & ->)|(-> & Hcur & -> & pr & Epr & Hq)].
  - set (a := match out with Prepared true => _ | _ => _ end). assert (Ha : a = RefusedWait \/ a = Prepare) by (destruct out as [[]|]; [done|by left|by right]). split.
    + apply (waiting_ext (entries (mutex s) (cond s)) _ (where_waits (l_tasks s))); [|..|apply Hw].
      * intros e. rewrite Hput. case_decide; [subst; done|done].
      * intros x. rewrite next_moves. case_decide; [subst x; rewrite HW|done]. cbn. unfold waiting. by destruct Ha as [-> | ->].
    + apply (cur_local _ tid _ _ _ _ Hw). intros t' [= <-]. unfold waiting. by destruct Ha as [-> | ->].
    + apply Hserved; [intros ->; naive_solver|done].
  - set (a := match lt_call t with CondWait => CheckOwner | _ => Retry end). assert (Hwt : waiting (goto a t) = Some (w, Armed)) by (subst a w; unfold waiting; cbn; by destruct (lt_call t)). split.
    + apply (waiting_arm (entries (mutex s) (cond s)) _ w _ (where_waits (l_tasks s)) _ tid pr); try done; [apply Hw|by rewrite Hq in Hput|]. intros x. rewrite next_moves. cbn. by rewrite Hwt.
    + apply (cur_local _ tid _ _ _ _ Hw). by intros t' [= <-].
    + apply Hserved; [subst a; by destruct (lt_call t)|]. intros x Hx. unfold is_blocked. rewrite enter_blocked_lookup. by case_decide.
Qed.

Lemma leave_ps_blocked ps' : ps' = l_procs s \/ ps' = enter_ready tid (l_procs s) -> forall x, x <> tid -> is_blocked ps' x = true -> is_blocked (l_procs s) x = true.
Proof. intros [-> | ->] x Hx; [done|]. rewrite enter_ready_blocked. by case_decide. Qed.

Lemma cancel_wake o : lt_at t = Cancel -> cancel_step t (mutex s) (cond s) (l_procs s) = Some o -> after o.
Proof.
  intros Hat. assert (Hwt : waiting t = Some (OnMutex, Armed)) by (unfold waiting; by rewrite Hat). assert (Hcur : lt_cur t = Some tid) by (apply (lw_cur _ _ _ _ Hw tid t Et); by rewrite Hwt).
  unfold cancel_step. rewrite Hcur. pose proof (waiting_cancel (entries (mutex s) (cond s)) (entries (mkMutex (locked (mutex s)) (cancel_wait (Some tid) (m_queue (mutex s)) (l_procs s)).1.2 (owner (mutex s))) (cond s)) OnMutex (m_queue (mutex s)) (l_procs s) (where_waits (l_tasks s))
    (where_waits (partial_alter (fun _ => Some (goto TakeOwner t)) tid (l_tasks s))) tid Armed (lw_wait _ _ _ _ Hw) ltac:(by rewrite here_waits) eq_refl (next_moves _ _ _)) as Hc.
  destruct (cancel_wait _ _ _) as [[b q] ps]. intros [= <-]. split.
  - apply Hc. by intros [].
  - apply (cur_local _ tid _ _ _ _ Hw). by intros t' [= <-].
  - intros Hf. cbn in Hf. rewrite held_locked in Hf; [done|]. unfold holding. by rewrite Hat.
Qed.

Lemma past_wake o : lt_at t = PastWait -> past_wait_step t (mutex s) (cond s) (l_procs s) = Some o -> after o.
Proof.
  intros Hat. set (w := waits_on (lt_call t)). assert (Hwt : waiting t = Some (w, Leaves)) by (unfold waiting; by rewrite Hat). assert (Hcur : lt_cur t = Some tid) by (apply (lw_cur _ _ _ _ Hw tid t Et); by rewrite Hwt).
  unfold past_wait_step. rewrite Hcur. fold w. pose proof (finish_wait_spec tid (which_queue w (mutex s) (cond s)) (l_procs s) (wi_nodup _ _ _ (lw_wait _ _ _ _ Hw) w)) as (_ & _ & _ & Hps).
  pose proof (fun qs' => waiting_finish (entries (mutex s) (cond s)) qs' w (which_queue w (mutex s) (cond s)) (l_procs s) (where_waits (l_tasks s))
    (where_waits (partial_alter (fun _ => Some (goto Try t)) tid (l_tasks s))) tid (lw_wait _ _ _ _ Hw) ltac:(by rewrite here_waits) eq_refl (next_moves _ _ _)) as Hc.
  destruct (finish_wait_tail _ _ _) as [q ps]. cbn in Hps. pose proof (put_entries w q (mutex s) (cond s)) as Hput. pose proof (put_queue_mutex w q (mutex s) (cond s)) as [Hlk _]. destruct (put_queue _ _ _ _) as [m c]. cbn in Hlk. intros [= <-]. split.
  - by apply Hc.
  - apply (cur_local _ tid _ _ _ _ Hw). by intros t' [= <-].
  - cbn. rewrite Hlk. apply (served_local _ tid t Et _ (locked (mutex s)) _ (l_procs s)); [apply Hw|done|by apply leave_ps_blocked|intros t' [= <-]; by left|]. intros _. by exists (goto Try t).
Qed.
(** [wake_one] of the mutex finds a carrier for every sleeper. *)
Lemma wake_next_carrier q ps w : wake_one (m_queue (mutex s)) (l_procs s) = (w, q, ps) -> locked (mutex s) = false -> forall x tx, lock_sleeper ps (l_tasks s) x tx ->
  exists y ty, l_tasks s !! y = Some ty /\ waiting ty <> None /\ (exists st, waiting ty = Some (OnMutex, st)) /\ lock_carrier ps y ty = true.
Proof.
  intros Hone Hfree x tx [Ex Hat Hcall Hbl]. unfold wake_one in Hone. pose proof (wake_one_loop_spec (waiters (m_queue (mutex s))) (l_procs s)) as Hspec. destruct (wake_one_loop _ _) as [[w' l] ps1]. injection Hone as -> <- ->.
  destruct Hspec as [Hwoke Hres]. pose proof (lw_wait _ _ _ _ Hw) as Hwi. pose proof (woke_blocked _ _ _ _ x Hwoke Hbl) as Hbl0.
  assert (Hwx : where_waits (l_tasks s) x = Some (OnMutex, Waits)) by (unfold where_waits; rewrite Ex; cbn; unfold waiting, waits_on; rewrite Hat; by destruct (lt_call tx)).
  destruct (wi_in _ _ _ Hwi OnMutex x Waits Hwx ltac:(done) Hbl0) as (pr & Epr & Hin). destruct w as [y|].
  - destruct Hres as (Hy & Hyb & Hyb'). apply list_elem_of_fmap in Hy as (ey & -> & Hey). destruct (wi_entry _ _ _ Hwi OnMutex ey Hey) as (st & Hwy & _ & _). unfold where_waits in Hwy. destruct (l_tasks s !! ey.1) as [ty|] eqn:Ey; [|done]. cbn in Hwy.
    exists ey.1, ty. split; [done|]. split; [by rewrite Hwy|]. split; [eauto|]. unfold lock_carrier. destruct (lt_at ty) eqn:Hay; try done; unfold waiting in Hwy; rewrite Hay in Hwy; try done; try (by destruct (lt_call ty)); [|by rewrite Hyb'].
    exfalso. destruct (mi_task _ Hm ey.1 ty Ey) as [_ Hheld _ _ _ _]. rewrite (mi_lock _ Hm) in Hfree. rewrite Hheld in Hfree; [done|]. unfold holding. by rewrite Hay.
  - specialize (Hres _ Hin). rewrite wakeable_stamped in Hres; try done. by apply (wi_gen _ _ _ Hwi x).
Qed.

Lemma wake_next_wake o : lt_at t = WakeNext -> wake_next_step t (mutex s) (cond s) (l_procs s) = Some o -> after o.
Proof.
  intros Hat. unfold wake_next_step. pose proof (wake_one_woke (m_queue (mutex s)) (l_procs s)) as Hwoke. pose proof (fun q ps w => wake_next_carrier q ps w) as Hcar. destruct (wake_one _ _) as [[w q] ps]. specialize (Hcar q ps w eq_refl). cbn.
  set (m' := mkMutex (locked (mutex s)) q (owner (mutex s))). assert (Hput : replaces (entries (mutex s) (cond s)) (entries m' (cond s)) OnMutex (waiters q)) by (by intros []).
  pose proof (waiting_woke (entries (mutex s) (cond s)) (entries m' (cond s)) OnMutex (waiters q) (l_procs s) ps (where_waits (l_tasks s)) (lw_wait _ _ _ _ Hw) Hput Hwoke) as Hwi.
  assert (Hserved : forall next, (forall t', next = Some t' -> lt_call t' = CondWait) -> served (locked (mutex s)) ps (partial_alter (fun _ => next) tid (l_tasks s))).
  { intros next Hnx Hf x tx [Ex Hax Hcx Hbx]. apply next_lookup in Ex as [[-> En]|[Hne Ex]]; [by destruct Hcx; apply Hnx|]. destruct (Hcar Hf x tx) as (y & ty & Ey & Hwy & (st & Hst) & Hc); [done|].
    exists y, ty. split; [|done]. apply next_lookup. right. split; [|done]. intros ->. rewrite Et in Ey. injection Ey as <-. unfold waiting in Hst. rewrite Hat in Hst. by destruct (lt_call t). }
  destruct (lt_call t) eqn:Hcall; intros [= <-].
  4: { assert (Hwt : where_waits (l_tasks s) tid = Some (OnCond, Armed)) by (rewrite here_waits; unfold waiting; by rewrite Hat, Hcall). split; cbn.
    - apply (waiting_stage _ _ _ _ tid OnCond Armed Waits Hwi); try done. intros x. rewrite next_moves. cbn. unfold waiting. cbn. by rewrite Hcall.
    - apply (cur_local _ tid _ _ _ _ Hw). intros t' [= <-] _. apply (lw_cur _ _ _ _ Hw tid t Et). rewrite <- here_waits. by rewrite Hwt.
    - apply Hserved. by intros t' [= <-]. }
  all: split; cbn; [|by apply (cur_local _ tid _ _ _ _ Hw)|by apply Hserved].
  all: apply (waiting_ext (entries m' (cond s)) _ (where_waits (l_tasks s))); [done| |done]; intros x; rewrite next_moves; case_decide; [subst x; rewrite here_waits; unfold waiting; by rewrite Hat, Hcall|done].
Qed.

Lemma notify_wake o : lt_at t = Notify -> notify_step t (mutex s) (cond s) (l_procs s) = Some o -> after o.
Proof.
  intros Hat. unfold notify_step. set (r := match lt_call t with NotifyOne => _ | _ => _ end).
  assert (Hwoke : woke (waiters (c_queue (cond s))) (waiters r.1.2) (l_procs s) r.2).
  { subst r. pose proof (wake_one_woke (c_queue (cond s)) (l_procs s)) as H1. pose proof (wake_all_woke (c_queue (cond s)) (l_procs s)) as H2. destruct (wake_one _ _) as [[? ?] ?], (wake_all _ _) as [[? ?] ?]. by destruct (lt_call t). }
  destruct r as [[n q] ps]. cbn in Hwoke |- *. intros [= <-]. cbn.
  assert (Hput : replaces (entries (mutex s) (cond s)) (entries (mutex s) (mkCondVar q)) OnCond (waiters q)) by (by intros []).
  pose proof (waiting_woke (entries (mutex s) (cond s)) _ OnCond (waiters q) (l_procs s) ps (where_waits (l_tasks s)) (lw_wait _ _ _ _ Hw) Hput Hwoke) as Hwi. split; cbn.
  - apply (waiting_ext (entries (mutex s) (mkCondVar q)) _ (where_waits (l_tasks s))); [done| |done]. intros x. rewrite next_moves. case_decide; [subst x; rewrite here_waits; unfold waiting; by rewrite Hat|done].
  - by apply (cur_local _ tid _ _ _ _ Hw).
  - apply (served_local _ tid t Et _ (locked (mutex s)) _ (l_procs s)); [apply Hw|done|intros x _; by apply (woke_blocked _ _ _ _ _ Hwoke)|done|]. unfold lock_carrier. by rewrite Hat.
Qed.

(** Steps under which the mutex is locked, or that only end a call *)
Lemma quiet_wake m' next : m_queue m' = m_queue (mutex s) -> next ≫= waiting = waiting t -> (forall t', next = Some t' -> lt_cur t' = lt_cur t) ->
  (locked m' = true \/ (locked m' = locked (mutex s) /\ lock_carrier (l_procs s) tid t = false /\ forall t', next = Some t' -> lt_at t' <> InWait)) ->
  lock_wake m' (cond s) (l_procs s) (partial_alter (fun _ => next) tid (l_tasks s)).
Proof.
  intros Hq Hwt Hcur Hl. apply (lock_wake_same _ tid t Et next (mutex s)); try done. destruct Hl as [Hl|(Hl & Hc & Hn)]; [by intros Hf; rewrite Hl in Hf|]. rewrite Hl.
  apply (served_local _ tid t Et _ (locked (mutex s)) _ (l_procs s)); [apply Hw|done|done|intros t' En; left; by apply Hn|]. by rewrite Hc.
Qed.

Ltac locked_already Hat := left; cbn; apply held_locked; unfold holding; by rewrite Hat.

Lemma lock_step_wake al o : lock_step tid t (mutex s) (cond s) (l_procs s) al = Some o -> after o.
Proof.
  pose proof (fun a => hm_cond _ _ _ _ (mi_task _ Hm tid t Et) a) as Hcond. unfold lock_step. destruct (lt_at t) as [| |cap| | | | | | | | | |] eqn:Hat.
  - unfold try_step. destruct (locked (mutex s)) eqn:Hl; [destruct (lt_call t) eqn:Hc|]; intros [= <-]; cbn; (apply quiet_wake; [done|unfold waiting; by rewrite Hat|by (done || intros t' [= <-])|by left]).
  - unfold prepare_wait_step. destruct (prepare_current_wait_capacity _ _ _); intros [= <-]; cbn; (apply quiet_wake; [done|unfold waiting; by rewrite Hat|by (done || intros t' [= <-])|right; split; [done|]; split; [unfold lock_carrier; by rewrite Hat|by (done || intros t' [= <-])]]).
  - by apply arm_wake.
  - intros [= <-]. cbn. apply quiet_wake; [done|unfold waiting; by rewrite Hat|done|]. right. split; [done|]. split; [unfold lock_carrier; by rewrite Hat|done].
  - unfold retry_step. destruct (locked (mutex s)) eqn:Hl; intros [= <-]; cbn; [|apply quiet_wake; [done|unfold waiting; by rewrite Hat|by intros t' [= <-]|by left]].
    assert (Hwt : where_waits (l_tasks s) tid = Some (OnMutex, Armed)) by (rewrite here_waits; unfold waiting; by rewrite Hat). split.
    + apply (waiting_stage _ _ (where_waits (l_tasks s)) _ tid OnMutex Armed Waits); try done; [apply Hw|]. intros x. rewrite next_moves. cbn. unfold waiting, waits_on. cbn. destruct (lt_call t) eqn:Hc; try done. by destruct (Hcond eq_refl).
    + apply (cur_local _ tid _ _ _ _ Hw). intros t' [= <-] _. apply (lw_cur _ _ _ _ Hw tid t Et). by rewrite <- here_waits, Hwt.
    + intros Hf. congruence.
  - by apply cancel_wake.
  - intros [= <-]. cbn. apply quiet_wake; [by destruct (lt_cur t)|unfold waiting; by rewrite Hat|done|]. destruct (lt_cur t); locked_already Hat.
  - assert (Hwt : where_waits (l_tasks s) tid = Some (waits_on (lt_call t), Waits)) by (rewrite here_waits; unfold waiting; by rewrite Hat). assert (Hcur : lt_cur t = Some tid) by (apply (lw_cur _ _ _ _ Hw tid t Et); by rewrite <- here_waits, Hwt).
    unfold in_wait_step. rewrite Hcur. destruct (wait_resolved (l_procs s) tid) eqn:Hr; intros [= <-]; cbn.
    + split; [|apply (cur_local _ tid _ _ _ _ Hw); by intros t' [= <-]|].
      * apply (waiting_stage _ _ (where_waits (l_tasks s)) _ tid (waits_on (lt_call t)) Waits Leaves); try done; [apply Hw|]. intros x. by rewrite next_moves.
      * apply (served_local _ tid t Et _ (locked (mutex s)) _ (l_procs s)); [apply Hw|done|done|intros t' [= <-]; by left|]. intros _. by exists (goto PastWait t).
    + assert (Hsame : partial_alter (fun _ => Some (goto InWait t)) tid (l_tasks s) = l_tasks s). { change (<[tid := goto InWait t]> (l_tasks s) = l_tasks s). apply insert_id. rewrite Et. f_equal. destruct t. cbn in Hat. by subst. } by rewrite Hsame.
  - by apply past_wake.
  - unfold check_owner_step. destruct (_ || _); intros [= <-]. cbn. apply quiet_wake; [done|unfold waiting; by rewrite Hat|by intros t' [= <-]|]. locked_already Hat.
  - intros [= <-]. cbn. apply (lock_wake_same _ tid t Et _ (mutex s)); try done; [unfold waiting; by rewrite Hat|by intros t' [= <-]|]. intros _ x tx _. exists tid, (goto WakeNext t). split; [apply next_lookup; by left|done].
  - by apply wake_next_wake.
  - by apply notify_wake.
Qed.
End run.

(** * Along a run *)
Definition lock_steady (e : LockEvent) : Prop :=
  match e with
  | LWithdraw _ => False
  | LOutside _ (Some pr) => 0 <= p_generation pr < 2 ^ 63
  | _ => True
  end.

Abbreviation sys_lock_wake s := (lock_wake (mutex s) (cond s) (l_procs s) (l_tasks s)).

Lemma lock_wake_gentle m c ps ps' ts : lock_wake m c ps ts -> gentle (fun x => is_Some (ts !! x)) ps ps' -> lock_wake m c ps' ts.
Proof.
  intros [Hwi Hcur Hs] [Hg Hsame Hbl Hint Hwk]. assert (Hin : forall x, is_Some (where_waits ts x) -> is_Some (ts !! x)) by (intros x; unfold where_waits; destruct (ts !! x); [done|by intros []]). split; [|done|].
  - apply (waiting_gentle _ ps); [done|]. split; [done|intros x Hx..]; auto.
  - intros Hf x tx [Ex Hat Hc Hb]. destruct (Hs Hf x tx) as (y & ty & Ey & Hcy); [split; try done; by apply (Hbl x (mk_is_Some _ _ Ex))|]. exists y, ty. split; [done|]. unfold lock_carrier in *. destruct (lt_at ty); try done.
    apply negb_true_iff. apply negb_true_iff in Hcy. destruct (is_blocked ps' y) eqn:E; [|done]. by rewrite (Hbl y (mk_is_Some _ _ Ey) E) in Hcy.
Qed.

Lemma lock_start_wake tid inp c s : sys_lock_wake s -> sys_lock_wake (lock_start tid inp c s).
Proof.
  intros Hw. unfold lock_start. destruct (l_tasks s !! tid) eqn:Et; [done|]. set (t := mkLockTask _ c _). destruct Hw as [Hwi Hcur Hs]. cbn.
  assert (Hnone : waiting t = None) by (by destruct c). split; cbn.
  - apply (waiting_ext (entries (mutex s) (cond s)) _ (where_waits (l_tasks s))); [done| |done]. intros x. unfold where_waits. destruct (decide (x = tid)) as [->|]; [by rewrite lookup_insert_eq, Et|by rewrite lookup_insert_ne].
  - intros x t' [[<- <-]|[? E]]%lookup_insert_Some; [done|by apply Hcur].
  - intros Hf x tx [Ex Hat Hc Hb]. apply lookup_insert_Some in Ex as [[<- <-]|[Hne Ex]]; [by destruct c|]. destruct (Hs Hf x tx) as (y & ty & Ey & Hcy); [done|]. exists y, ty. split; [|done]. rewrite lookup_insert_ne; [done|]. intros <-. congruence.
Qed.

Lemma lock_exec_wake e s s' : mutex_inv s -> polite e s -> lock_steady e -> sys_lock_wake s -> lock_exec e s = Some s' -> sys_lock_wake s'.
Proof.
  intros Hm Hp Hst Hw. destruct e as [tid inp c|tid al|pid rd|pid|pid|pid p]; cbn [lock_exec]; try (intros [= <-]).
  - by apply lock_start_wake.
  - unfold lock_run. destruct (l_tasks s !! tid) as [t|] eqn:Et; [|by intros [= <-]]. intros (o & Ho & [= <-])%bind_Some. pose proof (lock_step_wake s tid t Et Hm Hw al o Ho) as H. by destruct (ls_next o).
  - by apply (lock_wake_gentle _ _ (l_procs s)), post_gentle.
  - done.
  - by apply (lock_wake_gentle _ _ (l_procs s)), dispatch_gentle.
  - case_bool_decide as E; [|done]. apply (lock_wake_gentle _ _ (l_procs s)); [done|]. apply outside_gentle; [intros [? Hx]; cbn in Hx; by rewrite E in Hx|]. by intros ? ->.
Qed.

Lemma lock_exec_all_wake es s s' : mutex_inv s -> disciplined es s -> Forall lock_steady es -> sys_lock_wake s -> lock_exec_all es s = Some s' -> sys_lock_wake s'.
Proof.
  revert s. induction es as [|e es IH]; intros s Hm Hd Hst Hw; [by intros [= <-]|]. apply list.Forall_cons in Hst as [Hs Hst]. destruct Hd as [Hp Hd]. destruct (lock_exec_mutex e s Hm Hp) as (s1 & E & Hm1). cbn. rewrite E. cbn.
  apply IH; try done; [by apply Hd|by apply (lock_exec_wake e s s1)].
Qed.

Lemma locks_new_wake ps : generations_ok ps -> sys_lock_wake (locks_new ps).
Proof. intros Hg. split; [split|..]; try done; [by intros []; constructor|intros [] x Hx; by apply elem_of_nil in Hx|intros _ x t []; done]. Qed.

(** * Permits *)

(** * Tallies of the log *)
Definition tally (f : SemObs -> bool) (L : list SemObs) : Z := zlen (List.filter f L).

Definition is_took (o : SemObs) : bool := match o with Took _ => true | _ => false end.
Definition is_gave (o : SemObs) : bool := match o with Gave _ => true | _ => false end.
Definition is_granted (o : SemObs) : bool := match o with SAnswered _ Granted | SAnswered _ (Flag true) => true | _ => false end.

Lemma tally_app f L L' : tally f (L ++ L') = tally f L + tally f L'.
Proof. unfold tally. by rewrite List.filter_app, zlen_app. Qed.

Lemma tally_nonneg f L : 0 <= tally f L.
Proof. apply zlen_nonneg. Qed.

(** * Permits *)

(** A task that has its permit and has not answered *)
Definition cancelling (_ : Z) (t : SemTask) : bool := match st_at t with SCancel => true | _ => false end.

#[global] Instance SCancel_dec (a : SemAt) : Decision (a = SCancel).
Proof. destruct a; (by left) || (by right). Defined.

Definition expects_permits (t : SemTask) : Prop := match st_at t with Exchange n | ReExchange n | TryExchange n => 0 < n | _ => True end.

Record permits (initial : Z) (s : SemSystem) : Prop := {
  pm_range : 0 <= count (sem s) <= u32_max;
  pm_given : count (sem s) + tally is_took (s_log s) <= initial + tally is_gave (s_log s);
  pm_exact : initial + tally is_gave (s_log s) <= u32_max -> count (sem s) + tally is_took (s_log s) = initial + tally is_gave (s_log s);
  pm_answers : tally is_granted (s_log s) + count_map cancelling (s_tasks s) = tally is_took (s_log s);
  pm_expects : forall tid t, s_tasks s !! tid = Some t -> expects_permits t;
}.

Definition grants (r : Answer) : bool := match r with Granted | Flag true => true | _ => false end.

(** What a step does to the count *)
Inductive sem_effect (tid : Z) (t : SemTask) (m : Semaphore) (o : SemStep) : Prop :=
| SQuiet a : count (ss_sem o) = count m -> ss_obs o = [] \/ ss_obs o = [Beaten tid] -> ss_next o = SContinue (sgoto a t) -> a <> SCancel -> st_at t <> SCancel -> expects_permits (sgoto a t) -> sem_effect tid t m o
| SGives r : count (ss_sem o) = count m -> ss_obs o = [] -> ss_next o = SAnswers r -> (grants r = true <-> st_at t = SCancel) -> sem_effect tid t m o
| STakes : 0 < count m -> count (ss_sem o) = count m - 1 -> ss_obs o = [Took tid] -> st_at t <> SCancel ->
    ss_next o = SContinue (sgoto SCancel t) \/ (exists r, ss_next o = SAnswers r /\ grants r = true) -> sem_effect tid t m o
| SBumps : count (ss_sem o) = Z.min (count m + 1) u32_max -> ss_obs o = [Gave tid] -> ss_next o = SContinue (sgoto SWake t) -> st_at t <> SCancel -> sem_effect tid t m o.

Lemma sstay_quiet tid t m m' ps obs a : st_at t <> SCancel -> count m' = count m -> obs = [] \/ obs = [Beaten tid] -> a <> SCancel -> expects_permits (sgoto a t) -> exists o, Some (sstay t m' ps obs a) = Some o /\ sem_effect tid t m o.
Proof. intros. eexists. split; [done|]. by apply (SQuiet _ _ _ _ a). Qed.

Lemma sanswer_gives tid t m m' ps r : count m' = count m -> (grants r = true <-> st_at t = SCancel) -> exists o, Some (sanswer m' ps [] r) = Some o /\ sem_effect tid t m o.
Proof. intros. eexists. split; [done|]. by apply (SGives _ _ _ _ r). Qed.

Lemma exchange_cases m n : 0 < n -> (count m = n /\ exchange m n = Some (mkSemaphore (n - 1) (s_queue m))) \/ exchange m n = None.
Proof. intros Hn. unfold exchange. destruct (Z.eqb_spec (count m) n); auto. Qed.

Lemma sem_step_effect al tid t m ps : 0 <= count m -> expects_permits t -> exists o, sem_step tid t m ps al = Some o /\ sem_effect tid t m o.
Proof.
  intros Hm Hexp. unfold sem_step. unfold expects_permits in Hexp. destruct (st_at t) as [|n| |cap| | |n| | | | |n| |] eqn:Hat; (assert (Hnc : st_at t <> SCancel \/ st_at t = SCancel) by (rewrite Hat; auto)); destruct Hnc as [Hnc|Hnc]; try congruence.
  - apply sstay_quiet; auto; destruct (Z.ltb_spec 0 (count m)); done.
  - destruct (exchange_cases m n Hexp) as [[E ->]| ->]; [|apply sstay_quiet; auto; done]. eexists. split; [done|]. apply STakes; [lia|cbn; lia|done|done|right; by exists Granted].
  - unfold sprepare_step. destruct (prepare_current_wait_capacity _ _ _); [apply sstay_quiet; auto; done|]. apply sanswer_gives; [done|]. by rewrite Hat.
  - unfold sarm_step. destruct (try_prepare_total (st_cur t) cap (s_queue m) ps) as [[[armed q] ps'] ->]. cbn [mbind option_bind]. apply sstay_quiet; auto; by destruct armed as [[]|].
  - apply sanswer_gives; [done|]. by rewrite Hat.
  - apply sstay_quiet; auto; destruct (Z.ltb_spec 0 (count m)); done.
  - destruct (exchange_cases m n Hexp) as [[E ->]| ->]; [|apply sstay_quiet; auto; done]. eexists. split; [done|]. apply STakes; [lia|cbn; lia|done|done|by left].
  - destruct (cancel_wait _ _ _) as [[b q] ps']. by apply sanswer_gives.
  - unfold swait_step. destruct (st_cur t) as [pid|]; [destruct (wait_resolved ps pid)|]; apply sstay_quiet; auto; done.
  - destruct (finish_wait_tail _ _ _) as [q ps']. apply sstay_quiet; auto; done.
  - destruct (Z.eqb_spec (count m) 0); [apply sanswer_gives; [done|]; by rewrite Hat|]. apply sstay_quiet; auto; try done. unfold expects_permits. cbn. lia.
  - destruct (exchange_cases m n Hexp) as [[E ->]| ->]; [|apply sstay_quiet; auto; done]. eexists. split; [done|]. apply STakes; [lia|cbn; lia|done|done|right; by exists (Flag true)].
  - eexists. split; [done|]. by apply SBumps.
  - destruct (wake_one _ _) as [[w q] ps']. apply sanswer_gives; [done|]. by rewrite Hat.
Qed.

(** The books after a step of one task *)
Lemma permits_step initial s m ps tid t next L : permits initial s -> s_tasks s !! tid = Some t -> 0 <= count m <= u32_max ->
  (forall t', next = Some t' -> expects_permits t') ->
  tally is_granted L + counts cancelling tid next - counts cancelling tid (Some t) = tally is_took L ->
  (count m = count (sem s) - tally is_took L /\ tally is_gave L = 0) \/ (count m = Z.min (count (sem s) + 1) u32_max /\ tally is_took L = 0 /\ tally is_gave L = 1) ->
  permits initial (mkSemSystem m ps (partial_alter (fun _ => next) tid (s_tasks s)) (s_log s ++ L)).
Proof.
  intros [Hr Hg He Ha Hx] Et Hm Hnx Hc Hd. split; cbn; rewrite ?tally_app.
  - done.
  - destruct Hd as [[-> ->]|(-> & -> & ->)]; lia.
  - intros Hle. destruct Hd as [[-> Hd]|(-> & Ht & Hd)]; rewrite ?Hd, ?Ht in *; [specialize (He ltac:(lia)); lia|]. specialize (He ltac:(lia)). pose proof (tally_nonneg is_took (s_log s)). lia.
  - rewrite count_map_alter, Et. lia.
  - intros x t'. destruct (decide (x = tid)) as [->|]; [rewrite lookup_partial_alter_eq; apply Hnx|rewrite lookup_partial_alter_ne by done; apply Hx].
Qed.

Lemma counts_cancelling tid t : counts cancelling tid (Some t) = if decide (st_at t = SCancel) then 1 else 0.
Proof. unfold counts, cancelling. case_decide as E; [by rewrite E|]. by destruct (st_at t). Qed.

Lemma sem_run_permits initial tid al s : permits initial s -> exists s', sem_run tid al s = Some s' /\ permits initial s'.
Proof.
  intros Hp. unfold sem_run. destruct (s_tasks s !! tid) as [t|] eqn:Et; [|eauto]. pose proof (pm_range _ _ Hp) as Hr.
  destruct (sem_step_effect al tid t (sem s) (s_procs s) (proj1 Hr) (pm_expects _ _ Hp tid t Et)) as (o & -> & Hef). cbn [mbind option_bind]. eexists. split; [done|]. pose proof (counts_cancelling tid t) as Hct.
  destruct Hef as [a Hc Hobs -> Ha Hat Hx|r Hc Hobs -> Hg|Hpos Hc Hobs Hat Hnext|Hc Hobs -> Hat].
  - destruct Hobs as [-> | ->]; (apply (permits_step initial s _ _ tid t (Some (sgoto a t))); [done|done|lia|by intros t' [= <-]|rewrite !counts_cancelling; cbn; by rewrite !decide_False|left; split; [change (tally is_took _) with 0; lia|done]]).
  - apply (permits_step initial s _ _ tid t None); [done|done|lia|done| |]; rewrite Hobs; [|left; split; [change (tally is_took _) with 0; lia|done]]. rewrite Hct. cbn. case_decide as E; [apply Hg in E; destruct r as [|[]| |]; done|].
    assert (grants r = false) by (destruct (grants r); [by destruct E; apply Hg|done]). destruct r as [|[]| |]; done.
  - assert (Hrest : forall L, tally is_took L = 1 -> tally is_gave L = 0 -> (count (ss_sem o) = count (sem s) - tally is_took L /\ tally is_gave L = 0) \/ (count (ss_sem o) = Z.min (count (sem s) + 1) u32_max /\ tally is_took L = 0 /\ tally is_gave L = 1)) by (intros L ->; left; split; [lia|done]).
    destruct Hnext as [->|(r & -> & Hgr)]; rewrite Hobs.
    + apply (permits_step initial s _ _ tid t (Some (sgoto SCancel t))); [done|done|lia|by intros t' [= <-]| |by apply Hrest]. by rewrite Hct, counts_cancelling, (decide_False (P := st_at t = SCancel)).
    + apply (permits_step initial s _ _ tid t None); [done|done|lia|done| |by apply Hrest]. rewrite Hct, decide_False by done. by destruct r as [|[]| |].
  - rewrite Hobs. apply (permits_step initial s _ _ tid t (Some (sgoto SWake t))); [done|done|unfold u32_max in *; lia|by intros t' [= <-]| |right; done]. by rewrite Hct, counts_cancelling, (decide_False (P := st_at t = SCancel)).
Qed.

Lemma sem_exec_permits initial e s : permits initial s -> exists s', sem_exec e s = Some s' /\ permits initial s'.
Proof.
  intros Hp. assert (Hps : forall ps, permits initial (with_sprocs ps s)) by (intros; by destruct Hp).
  destruct e as [tid inp c|tid al| | | |]; cbn [sem_exec]; [|by apply sem_run_permits|eexists; split; [done|]; try case_match; auto..].
  eexists. split; [done|]. unfold sem_start. destruct (s_tasks s !! tid) eqn:Et; [done|]. destruct Hp as [Hr Hg He Ha Hx]. split; cbn; try done.
  - rewrite count_map_insert by done. destruct c; cbn; lia.
  - intros x t [[<- <-]|[? E]]%lookup_insert_Some; [by destruct c|by apply (Hx x)].
Qed.

Lemma sem_exec_all_permits initial es s : permits initial s -> exists s', sem_exec_all es s = Some s' /\ permits initial s'.
Proof.
  revert s. induction es as [|e es IH]; intros s Hp; [by exists s|]. destruct (sem_exec_permits initial e s Hp) as (s1 & E & Hp1). cbn. rewrite E. cbn. by apply IH.
Qed.

Lemma sem_new_permits initial ps : 0 <= initial <= u32_max -> permits initial (sem_new initial ps).
Proof. intros H. split; cbn; try done; unfold tally; cbn; lia. Qed.
