(* ===== verification/LockCorrect.v ===== *)
(** Correctness of the kernel mutex, the condition variable and the semaphore
    under every interleaving of their calls. *)

From Stdlib Require Import ZArith Lia.
From stdpp Require Import base list list_numbers numbers gmap.
From S2P Require Import Prelude Machine Waiting WaitQueue WaitFacts Locks LockFacts Sema.

(** * Runs of a few processes *)
Definition few : Procs := list_to_map [(10, mkProcess Running 7 false); (11, mkProcess Running 8 false); (12, mkProcess Running 9 false)].

Lemma few_generations : generations_ok few.
Proof.
  intros pid pr E%elem_of_list_to_map_2. rewrite !elem_of_cons, elem_of_nil in E. destruct E as [[= _ ->]|[[= _ ->]|[[= _ ->]|[]]]]; cbn; lia.
Qed.

Definition grow : Z -> option Z := fun n => Some n.
Definition calls (tid : Z) (c : LockCall) (n : nat) : list LockEvent := LStart tid true c :: replicate n (LRun tid grow).

Definition polite_b (e : LockEvent) (s : LockSystem) : bool :=
  match e with
  | LStart tid in_process Unlock | LStart tid in_process CondWait =>
      bool_decide (holder (l_log s) = Some tid) && (in_process || bool_decide (owner (mutex s) = None))
  | _ => true
  end.

Fixpoint disciplined_b (es : list LockEvent) (s : LockSystem) : bool :=
  match es with
  | [] => true
  | e :: es => polite_b e s && match lock_exec e s with Some s' => disciplined_b es s' | None => true end
  end.

Lemma disciplined_checked es s : disciplined_b es s = true -> disciplined es s.
Proof.
  revert s. induction es as [|e es IH]; intros s; [done|]. cbn. intros [Hp Hd]%andb_true_iff. split; [|intros s' E; apply IH; by rewrite E in Hd].
  destruct e as [tid inp [] | | | | |]; try done; cbn in *; apply andb_true_iff in Hp as [Hh%bool_decide_eq_true_1 Ho]; (split; [done|]); intros ->; by apply bool_decide_eq_true_1 in Ho.
Qed.

Lemma lock_steady_checked es : forallb (fun e => match e with LWithdraw _ | LOutside _ _ => false | _ => true end) es = true -> Forall lock_steady es.
Proof. rewrite forallb_forall. intros H. apply list.Forall_forall. intros e He%list_elem_of_In. specialize (H e He). by destruct e. Qed.

(** * The mutex *)

(** C35 As long as callers release and wait only while they hold the mutex, no
    interleaving aborts, every acquisition finds the mutex free, every release
    is by its holder, and every lock, successful try_lock and wait on the
    condition variable returns to a caller that holds it, a wait that fails
    included; the recorded owner, if any, is the holder. *)
Theorem mutex_exclusive ps es : disciplined es (locks_new ps) ->
  exists s, lock_exec_all es (locks_new ps) = Some s /\ exclusive None (l_log s) /\
    (locked (mutex s) = true <-> holder (l_log s) <> None) /\ forall pid, owner (mutex s) = Some pid -> holder (l_log s) = Some pid.
Proof.
  intros Hd. destruct (lock_exec_all_mutex es _ (locks_new_mutex ps) Hd) as (s & Hs & [Hlog Hlock Hown _]). exists s. do 2 (split; [done|]). split; [|done]. rewrite Hlock. by destruct (holder (l_log s)).
Qed.

Definition handover : list LockEvent := calls 10 Lock 2 ++ calls 11 Lock 5 ++ calls 10 Unlock 3 ++ replicate 4 (LRun 11 grow).

Lemma mutex_exclusive_witness : exists s, lock_exec_all handover (locks_new few) = Some s /\ exclusive None (l_log s) /\
  l_log s = [Acquired 10; Answered 10 Lock Granted; Released 10; Answered 10 Unlock Finished; Acquired 11; Answered 11 Lock Granted].
Proof.
  assert (Hd : disciplined handover (locks_new few)) by (apply disciplined_checked; vm_compute; reflexivity).
  destruct (mutex_exclusive few handover Hd) as (s & Hs & He & _). exists s. split; [exact Hs|]. split; [exact He|].
  assert (Hv : l_log <$> lock_exec_all handover (locks_new few) = Some [Acquired 10; Answered 10 Lock Granted; Released 10; Answered 10 Unlock Finished; Acquired 11; Answered 11 Lock Granted]) by (vm_compute; reflexivity).
  rewrite Hs in Hv. injection Hv as Hv. exact Hv.
Defined.





(** A task that waits on the condition variable and has not been woken *)
Definition registered (s : LockSystem) (tid : Z) : Prop :=
  is_blocked (l_procs s) tid = true /\ exists st, where_waits (l_tasks s) tid = Some (OnCond, st) /\ st <> Leaves.

Lemma wake_one_ready q ps : let '(w, _, ps') := wake_one q ps in match w with Some pid => ps' = enter_ready pid ps | None => ps' = ps end.
Proof. unfold wake_one. induction (waiters q) as [|x l IH]; cbn; [done|]. destruct (wakeable ps x); [done|]. by destruct (wake_one_loop l ps) as [[w l'] ps']. Qed.

(** A notification reaches who has registered: tasks register before they
    release the mutex, so a [notify_all] that runs while tasks wait leaves none
    of them blocked, and a [notify_one] makes exactly one task that waits on the
    condition variable runnable when there is one to wake. *)
Theorem condvar_notified ps es s tid t al : generations_ok ps -> Forall lock_steady es -> disciplined es (locks_new ps) -> lock_exec_all es (locks_new ps) = Some s ->
  l_tasks s !! tid = Some t -> lt_at t = Notify -> exists s', lock_run tid al s = Some s' /\
    match lt_call t with
    | NotifyOne => (exists x, registered s x) -> exists y st, where_waits (l_tasks s) y = Some (OnCond, st) /\ is_blocked (l_procs s) y = true /\ l_procs s' = enter_ready y (l_procs s)
    | _ => forall x, registered s x -> is_blocked (l_procs s') x = false
    end.
Proof.
  intros Hg Hst Hd Hs Et Hat. pose proof (lw_wait _ _ _ _ (lock_exec_all_wake es _ s (locks_new_mutex ps) Hd Hst (locks_new_wake ps Hg) Hs)) as Hw.
  assert (Hentry : forall x, registered s x -> exists e, e ∈ waiters (c_queue (cond s)) /\ e.1 = x /\ wakeable (l_procs s) e = true).
  { intros x (Hb & st & Hx & Hl). destruct (wi_in _ _ _ Hw OnCond x st Hx Hl Hb) as (pr & Epr & Hin). eexists. split; [exact Hin|]. split; [done|]. apply wakeable_stamped; try done. by apply (wi_gen _ _ _ Hw x). }
  unfold lock_run. rewrite Et. unfold lock_step. rewrite Hat. unfold notify_step.
  assert (Hall : forall x, registered s x -> is_blocked (wake_all (c_queue (cond s)) (l_procs s)).2 x = false).
  { intros x Hx. destruct (Hentry x Hx) as (e & He & <- & Hwk). unfold wake_all. pose proof (wake_all_loop_spec (waiters (c_queue (cond s))) 0 (l_procs s)) as Hsp. destruct (wake_all_loop _ _ _) as [n ps']. by apply Hsp. }
  pose proof (wake_one_ready (c_queue (cond s)) (l_procs s)) as Hone. pose proof (wake_one_loop_spec (waiters (c_queue (cond s))) (l_procs s)) as Hsp. unfold wake_one in Hone |- *.
  destruct (wake_one_loop _ _) as [[w l] ps1], (wake_all _ _) as [[n q] ps2]. cbn in Hall. destruct (lt_call t); cbn; (eexists; split; [done|]); cbn; try exact Hall.
  intros (x & Hx). destruct (Hentry x Hx) as (e & He & _ & Hwk). destruct Hsp as [_ Hsp]. destruct w as [y|]; [|by rewrite (Hsp e He) in Hwk].
  destruct Hsp as (Hy & Hyb & _). apply list_elem_of_fmap in Hy as (ey & -> & Hey). destruct (wi_entry _ _ _ Hw OnCond ey Hey) as (st & Hwy & _). by exists ey.1, st.
Qed.

Definition waits_then_notified : list LockEvent := calls 10 Lock 2 ++ calls 10 CondWait 5 ++ [LStart 11 true NotifyAll].

Lemma condvar_notified_witness : exists s s', lock_exec_all waits_then_notified (locks_new few) = Some s /\ is_blocked (l_procs s) 10 = true /\ lock_run 11 grow s = Some s' /\ is_blocked (l_procs s') 10 = false.
Proof.
  assert (Hd : disciplined waits_then_notified (locks_new few)) by (apply disciplined_checked; vm_compute; reflexivity). assert (Hst : Forall lock_steady waits_then_notified) by (apply lock_steady_checked; reflexivity).
  assert (Hv : (fun s => (l_tasks s !! 11, where_waits (l_tasks s) 10, is_blocked (l_procs s) 10)) <$> lock_exec_all waits_then_notified (locks_new few) =
    Some (Some (mkLockTask (Some 11) NotifyAll Notify), Some (OnCond, Waits), true)) by (vm_compute; reflexivity).
  destruct (lock_exec_all waits_then_notified (locks_new few)) as [s|] eqn:Hs; [|discriminate]. injection Hv as Ht Hx Hb.
  destruct (condvar_notified few waits_then_notified s 11 _ grow few_generations Hst Hd Hs Ht eq_refl) as (s' & Hr & H). exists s, s'. split; [reflexivity|]. split; [exact Hb|]. split; [exact Hr|]. apply H. split; [exact Hb|]. exists Waits. split; [exact Hx|discriminate].
Defined.

Definition unlock_in_window : list LockEvent :=
  [LStart 10 true Lock; LRun 10 grow] ++ calls 11 Unlock 3 ++ calls 12 Lock 2 ++ [LRun 10 grow].

(** The owner check does not keep others from releasing the mutex: between the
    exchange that takes it and the recording of the owner, a process that never
    held it can unlock it, and then two callers of [lock] have it together. *)
Theorem mutex_unlock_window : exists s, lock_exec_all unlock_in_window (locks_new few) = Some s /\
  l_log s = [Acquired 10; Released 11; Answered 11 Unlock Finished; Acquired 12; Answered 12 Lock Granted; Answered 10 Lock Granted] /\ ~ exclusive None (l_log s).
Proof.
  assert (Hv : l_log <$> lock_exec_all unlock_in_window (locks_new few) = Some [Acquired 10; Released 11; Answered 11 Unlock Finished; Acquired 12; Answered 12 Lock Granted; Answered 10 Lock Granted]) by (vm_compute; reflexivity).
  destruct (lock_exec_all unlock_in_window (locks_new few)) as [s|]; [|done]. injection Hv as Hv. exists s. do 2 (split; [done|]). rewrite Hv. cbn. naive_solver.
Qed.

(** * The semaphore *)

(** C37 No interleaving aborts, the count stays a 32-bit number and wraps neither
    way, and permits are conserved: calls that got one are at most the initial
    count and the signals together, and as long as these fit in 32 bits the
    count is exactly what is left of them. *)
Theorem semaphore_permits initial ps es : 0 <= initial <= u32_max ->
  exists s, sem_exec_all es (sem_new initial ps) = Some s /\ 0 <= count (sem s) <= u32_max /\
    tally is_granted (s_log s) <= initial + tally is_gave (s_log s) /\
    (initial + tally is_gave (s_log s) <= u32_max -> count (sem s) + tally is_granted (s_log s) + count_map cancelling (s_tasks s) = initial + tally is_gave (s_log s)).
Proof.
  intros Hi. destruct (sem_exec_all_permits initial es _ (sem_new_permits initial ps Hi)) as (s & Hs & [Hr Hg He Ha _]). exists s. do 2 (split; [done|]).
  pose proof (count_map_nonneg cancelling (s_tasks s)). split; [lia|]. intros Hle. specialize (He Hle). lia.
Qed.

Definition scalls (tid : Z) (c : SemCall) (n : nat) : list SemEvent := SStart tid true c :: replicate n (SRun tid grow).

Lemma semaphore_permits_witness : exists s, sem_exec_all (scalls 10 SemWait 2 ++ scalls 11 SemTryWait 1 ++ scalls 12 SemSignal 2) (sem_new 1 few) = Some s /\
  tally is_granted (s_log s) <= 1 + tally is_gave (s_log s) /\ s_log s = [Took 10; SAnswered 10 Granted; SAnswered 11 (Flag false); Gave 12; SAnswered 12 Finished].
Proof.
  set (es := scalls 10 SemWait 2 ++ scalls 11 SemTryWait 1 ++ scalls 12 SemSignal 2). assert (Hi : 0 <= 1 <= u32_max) by (vm_compute; split; discriminate).
  destruct (semaphore_permits 1 few es Hi) as (s & Hs & _ & Hg & _). exists s. split; [exact Hs|]. split; [exact Hg|].
  assert (Hv : s_log <$> sem_exec_all es (sem_new 1 few) = Some [Took 10; SAnswered 10 Granted; SAnswered 11 (Flag false); Gave 12; SAnswered 12 Finished]) by (vm_compute; reflexivity).
  rewrite Hs in Hv. injection Hv as Hv. exact Hv.
Defined.

(** The second exchange is lost to another waiter. *)
Definition beaten_run : list SemEvent :=
  scalls 10 SemWait 1 ++ scalls 12 SemSignal 2 ++ scalls 12 SemSignal 2 ++ replicate 3 (SRun 10 grow) ++ scalls 11 SemWait 2 ++ [SRun 10 grow].

(** A signal wakes a waiter that already has its permit. *)
Definition wasted_run : list SemEvent :=
  scalls 10 SemWait 1 ++ scalls 12 SemSignal 2 ++ replicate 4 (SRun 10 grow) ++ scalls 11 SemWait 4 ++ scalls 12 SemSignal 2 ++ [SRun 10 grow].

Definition stranded (es : list SemEvent) (tid : Z) : Prop := exists s, sem_exec_all es (sem_new 0 few) = Some s /\
  map_to_list (s_tasks s) = [(tid, mkSemTask (Some tid) SemWait SInWait)] /\ is_blocked (s_procs s) tid = true /\ count (sem s) = 1.

(** A waiter can sleep although a permit is there, nobody else is in a call and
    every signal has finished: when its exchange after arming is lost to another
    waiter although permits are left, and when a signal's wake-up goes to a
    waiter that has taken its permit but has not left the queue. *)
Theorem semaphore_permit_stranded : stranded beaten_run 10 /\ stranded wasted_run 11.
Proof.
  assert (Hb : (fun s => (map_to_list (s_tasks s), is_blocked (s_procs s) 10, count (sem s))) <$> sem_exec_all beaten_run (sem_new 0 few) = Some ([(10, mkSemTask (Some 10) SemWait SInWait)], true, 1)) by (vm_compute; reflexivity).
  assert (Hw : (fun s => (map_to_list (s_tasks s), is_blocked (s_procs s) 11, count (sem s))) <$> sem_exec_all wasted_run (sem_new 0 few) = Some ([(11, mkSemTask (Some 11) SemWait SInWait)], true, 1)) by (vm_compute; reflexivity).
  unfold stranded. split.
  - clear Hw. destruct (sem_exec_all beaten_run (sem_new 0 few)) as [s|]; [|done]. exists s. injection Hb as Ht Hb Hc. done.
  - clear Hb. destruct (sem_exec_all wasted_run (sem_new 0 few)) as [s|]; [|done]. exists s. injection Hw as Ht Hb Hc. done.
Qed.
