(* ===== verification/Timed.v ===== *)
(** Timed waits of [ipc/sync.rs] and the timer that ends them: a wait is published
    in its queue, in the global timer table and in the process in one critical
    section, the timer interrupt copies what has expired, wakes it by process
    alone and removes what is done.  Waits and timer interrupts are cut at every
    lock, and a system runs them in any order over any number of queues.  The log
    records expiries and returns; no definition reads it. *)

From Stdlib Require Import ZArith Lia.
From stdpp Require Import base list list_numbers numbers gmap.
From S2P Require Import Prelude Machine WaitQueue.

Definition NS_PER_MS : Z := 1000000.
Definition MAX_TIMEOUTS_PER_TICK : Z := 16.

(** * The timer table *)
Record TimedWaiter := mkTimedWaiter { tw_pid : Z; deadline_tick : Z; tw_seq : Z; tw_generation : Z }.

#[export] Instance TimedWaiter_eq_dec : EqDecision TimedWaiter.
Proof. solve_decision. Defined.

(** [TIMED_WAITERS], [WQ_TIMEOUT_SCAN_CURSOR], [NEXT_WAIT_SEQ], [WAITQUEUE_TIMER_INIT] *)
Record Timers := mkTimers { timed : list TimedWaiter; t_capacity : Z; scan_cursor : Z; next_wait_seq : Z; timer_init : bool }.

Definition timers_new : Timers := mkTimers [] 0 0 1 false.

Definition with_timed (l : list TimedWaiter) (tm : Timers) : Timers :=
  mkTimers l (t_capacity tm) (scan_cursor tm) (next_wait_seq tm) (timer_init tm).
Definition with_tcapacity (c : Z) (tm : Timers) : Timers :=
  mkTimers (timed tm) c (scan_cursor tm) (next_wait_seq tm) (timer_init tm).
Definition with_cursor (c : Z) (tm : Timers) : Timers :=
  mkTimers (timed tm) (t_capacity tm) c (next_wait_seq tm) (timer_init tm).
Definition with_next_seq (n : Z) (tm : Timers) : Timers :=
  mkTimers (timed tm) (t_capacity tm) (scan_cursor tm) n (timer_init tm).

(** A counter that wraps is moved past the reserved zero. *)
Definition alloc_wait_seq (tm : Timers) : Z * Timers :=
  let next := next_wait_seq tm in
  let after := (next + 1) mod 2 ^ 64 in
  if next =? 0 then (after, with_next_seq ((after + 1) mod 2 ^ 64) tm) else (next, with_next_seq after tm).

Definition init_waitqueue_timers (tm : Timers) : Timers :=
  mkTimers (timed tm) (t_capacity tm) (scan_cursor tm) (next_wait_seq tm) true.

Definition has_timer (pid : Z) (tm : Timers) : bool := existsb (fun w => tw_pid w =? pid) (timed tm).

Definition reclaim_empty_timer_capacity (tm : Timers) : Timers :=
  match timed tm with [] => with_tcapacity 0 tm | _ => tm end.

Definition cancel_timed_wait_exact (pid seq : Z) (tm : Timers) : Timers :=
  with_timed (List.filter (fun w => negb (tw_pid w =? pid) || negb (tw_seq w =? seq)) (timed tm)) tm.

(** * The timer's side of a process *)
Definition pack_timeout_marker (generation : Z) : Z := Z.lor (Z.shiftl generation 1 mod 2 ^ 64) 1.

Definition marks_timeout (raw expected : Z) : bool := if Z.land raw 1 =? 0 then false else Z.shiftr raw 1 =? expected.

Definition with_marker (m : Z) (p : Process) : Process :=
  mkPcb (p_state p) (p_generation p) (p_signal p) (p_fatal p) m (active_wait_seq p).
Definition with_active (seq : Z) (p : Process) : Process :=
  mkPcb (p_state p) (p_generation p) (p_signal p) (p_fatal p) (wq_timeout_marker p) seq.

Definition consume_wq_timeout (pid expected : Z) (ps : Procs) : bool * Procs :=
  match ps !! pid with
  | Some p => (marks_timeout (wq_timeout_marker p) expected, alter (with_marker 0) pid ps)
  | None => (false, ps)
  end.

Definition decide_wq_timeout (active_seq timer_seq : Z) (blocked : bool) : bool := (active_seq =? timer_seq) && blocked.

(** Whether a timer hits the wait it was set for *)
Definition hits (w : TimedWaiter) (ps : Procs) : bool :=
  match ps !! tw_pid w with
  | Some p => decide_wq_timeout (active_wait_seq p) (tw_seq w) (bool_decide (p_state p = Blocked))
  | None => false
  end.

Definition expire (generation : Z) (p : Process) : Process :=
  with_active 0 (with_state Ready (with_marker (pack_timeout_marker generation) p)).

(** [table_free] and [pcb_free]: whether the process table and the process can be
    locked at once, which is all the interrupt may try *)
Definition wq_timeout_wake_by_seq (table_free pcb_free : bool) (w : TimedWaiter) (ps : Procs) : bool * Procs :=
  if negb table_free then (false, ps) else
  match ps !! tw_pid w with
  | None => (true, ps)
  | Some p =>
      if negb pcb_free then (false, ps) else
      (true, if decide_wq_timeout (active_wait_seq p) (tw_seq w) (bool_decide (p_state p = Blocked))
             then alter (expire (tw_generation w)) (tw_pid w) ps else ps)
  end.

(** * Draining the table *)

(** The loop that copies expired entries: it has [examined] entries behind it and
    found [n]. *)
Fixpoint scan_expired (fuel : nat) (l : list TimedWaiter) (now start examined n : Z) : list TimedWaiter * Z :=
  match fuel with
  | O => ([], examined)
  | S fuel =>
      if (examined <? zlen l) && (n <? MAX_TIMEOUTS_PER_TICK) then
        match l !! Z.to_nat ((start + examined) mod zlen l) with
        | Some w =>
            if deadline_tick w <=? now then
              let '(e, x) := scan_expired fuel l now start (examined + 1) (n + 1) in (w :: e, x)
            else scan_expired fuel l now start (examined + 1) n
        | None => ([], examined)
        end
      else ([], examined)
  end.

(** [None] when the table is empty *)
Definition copy_expired (now : Z) (tm : Timers) : option (list TimedWaiter * Timers) :=
  match timed tm with
  | [] => None
  | _ =>
      let start := scan_cursor tm mod zlen (timed tm) in
      let '(expired, examined) := scan_expired (length (timed tm)) (timed tm) now start 0 0 in
      Some (expired, with_cursor (start + examined) tm)
  end.

Definition is_done (woke : list TimedWaiter) (w : TimedWaiter) : bool :=
  existsb (fun d => (tw_pid d =? tw_pid w) && (tw_seq d =? tw_seq w)) woke.

Definition remove_done (woke : list TimedWaiter) (tm : Timers) : bool * Timers :=
  match woke with
  | [] => (false, tm)
  | _ =>
      let tm := with_timed (List.filter (fun w => negb (is_done woke w)) (timed tm)) tm in
      (match timed tm with [] => true | _ => false end, tm)
  end.

Fixpoint wake_expired {S} (wake : TimedWaiter -> S -> bool * S) (expired : list TimedWaiter) (s : S) : list TimedWaiter * S :=
  match expired with
  | [] => ([], s)
  | w :: expired =>
      let '(completed, s) := wake w s in
      let '(woke, s) := wake_expired wake expired s in
      (if completed then w :: woke else woke, s)
  end.

(** The drain with nothing else running *)
Definition drain_expired_timeouts {S} (wake : TimedWaiter -> S -> bool * S) (now : Z) (tm : Timers) (s : S) : bool * Timers * S :=
  match copy_expired now tm with
  | None => (false, tm, s)
  | Some (expired, tm) =>
      let '(woke, s) := wake_expired wake expired s in
      let '(empty, tm) := remove_done woke tm in
      (empty, tm, s)
  end.

(** * What a wait carries through its call *)

(** The locals of [try_prepare_inner], those of the ticket among them *)
Record Request := mkRequest {
  r_queue : Z; r_timeout : option Z; r_started : Z;
  r_deadline : option Z; r_seq : option Z; r_generation : Z; r_killable : bool;
}.

Inductive WaitResult := Outcome (o : WaitOutcome) | CheckError (e : Z) | AllocError.

Definition deadline_for (ticks ns : Z) : Z :=
  let t := default u64_max (checked_add ns (NS_PER_MS - 1)) / NS_PER_MS in
  saturating_add ticks (Z.max t 1).

Definition next_generation (q : WaitQueue) : WaitQueue :=
  mkWaitQueue (waiters q) (wq_capacity q) (closed q) ((wait_generation q + 1) mod 2 ^ 64).

(** [try_prepare_inner] up to its loop.  Its loads and its two increments, which
    publish nothing, are one step; only other waits that begin read the counters. *)
Definition begin_wait (cur : option Z) (qid : Z) (timeout : option Z) (killable : bool) (ticks : Z)
    (q : WaitQueue) (tm : Timers) (ps : Procs) : (WaitOutcome + Request) * WaitQueue * Timers :=
  match cur with
  | None => (inl NoProcess, q, tm)
  | Some pid =>
      if closed q then (inl Closed, q, tm) else
      if bool_decide (timeout = Some 0) then (inl TimedOut, q, tm) else
      let deadline := deadline_for ticks <$> timeout in
      let '(seq, tm) := match deadline with
                        | Some _ => let '(seq, tm) := alloc_wait_seq tm in (Some seq, tm)
                        | None => (None, tm)
                        end in
      if bool_decide (seq <> None) && negb (timer_init tm) then (inl ResourceExhausted, q, tm) else
      match ps !! pid with
      | None => (inl NoProcess, q, tm)
      | Some _ => (inr (mkRequest qid timeout ticks deadline seq (wait_generation q) killable), next_generation q, tm)
      end
  end.

(** * Publishing *)

(** Both halves of [prepare_transaction_capacity] *)
Definition prepare_queue_capacity (al : Z -> option Z) (pid : Z) (q : WaitQueue) : option WaitCapacity :=
  prepare_current_wait_capacity al (Some pid) q.
Definition prepare_timer_capacity (al : Z -> option Z) (pid : Z) (is_timed : bool) (tm : Timers) : option (option Z) :=
  if is_timed then if has_timer pid tm then Some None else prepare_deque_growth al (zlen (timed tm)) (t_capacity tm)
  else Some None.

Definition ensure_timer_capacity_locked (prepared : option Z) (tm : Timers) : option Timers :=
  if zlen (timed tm) <? t_capacity tm then Some tm else
  match prepared with
  | None => None
  | Some candidate => if candidate <=? zlen (timed tm) then None else Some (with_tcapacity candidate tm)
  end.

Definition push_timer (w : TimedWaiter) (tm : Timers) : option Timers :=
  if zlen (timed tm) =? t_capacity tm then None else Some (with_timed (timed tm ++ [w]) tm).

(** [timers[pos] = timer] at the first timer of the process *)
Fixpoint replace_timer (w : TimedWaiter) (l : list TimedWaiter) : list TimedWaiter :=
  match l with
  | [] => []
  | v :: l => if tw_pid v =? tw_pid w then w :: l else v :: replace_timer w l
  end.

Definition arm_must_abort (killable : bool) (p : Process) : bool := if killable then p_fatal p else p_abort p.

Definition publish_entry (pid generation : Z) (q : WaitQueue) : option WaitQueue :=
  if queued pid q then Some (with_waiters (restamp pid generation (waiters q)) q) else push_back_reserved (pid, generation) q.

Definition publish_timer (w : TimedWaiter) (tm : Timers) : option Timers :=
  if has_timer (tw_pid w) tm then Some (with_timed (replace_timer w (timed tm)) tm) else push_timer w tm.

Inductive ArmAttempt := Again | Complete (r : option WaitResult).

(** One turn of the loop of [try_prepare_inner] under its locks, after the load of
    [closed].  [Complete None]
    is the armed ticket; [None] is a panic, or a process that is gone while it
    runs the call. *)
Definition arm_attempt (check : option Z) (pid : Z) (r : Request) (qcap : WaitCapacity) (tcap : option Z)
    (q : WaitQueue) (tm : Timers) (ps : Procs) : option (ArmAttempt * WaitQueue * Timers * Procs) :=
  match (if queued pid q then Some q else ensure_queue_capacity_locked qcap q) with
  | None => Some (Again, take_empty_capacity q, tm, ps)
  | Some q =>
      match check with
      | Some e => Some (Complete (Some (CheckError e)), take_empty_capacity q, tm, ps)
      | None =>
          match r_deadline r, r_seq r with
          | Some deadline, Some seq =>
              match (if has_timer pid tm then Some tm else ensure_timer_capacity_locked tcap tm) with
              | None => Some (Again, take_empty_capacity q, reclaim_empty_timer_capacity tm, ps)
              | Some tm =>
                  p ← ps !! pid;
                  if arm_must_abort (r_killable r) p then
                    Some (Complete (Some (Outcome Interrupted)), take_empty_capacity q, reclaim_empty_timer_capacity tm, ps)
                  else
                    q ← publish_entry pid (r_generation r) q;
                    tm ← publish_timer (mkTimedWaiter pid deadline seq (r_generation r)) tm;
                    Some (Complete None, q, tm, alter (fun p => with_state Blocked (with_active seq (with_marker 0 p))) pid ps)
              end
          | _, _ =>
              p ← ps !! pid;
              if arm_must_abort (r_killable r) p then Some (Complete (Some (Outcome Interrupted)), take_empty_capacity q, tm, ps)
              else
                q ← publish_entry pid (r_generation r) q;
                Some (Complete None, q, tm, alter (fun p => with_state Blocked (with_marker 0 p)) pid ps)
          end
      end
  end.

(** * Waiting and leaving *)

(** [wait_should_abort(pid) || (!killable && has_deliverable_signal(pid))] *)
Definition wait_aborts (killable : bool) (ps : Procs) (pid : Z) : bool :=
  match ps !! pid with Some p => arm_must_abort killable p | None => false end.

(** [block_until_resolved] returns once this holds. *)
Definition resolved (killable : bool) (ps : Procs) (pid : Z) : bool := negb (is_blocked ps pid) || wait_aborts killable ps pid.

Definition remove_waiter_exact (pid generation : Z) (q : WaitQueue) : WaitQueue :=
  with_waiters (List.filter (fun e => negb (e.1 =? pid) || negb (e.2 =? generation)) (waiters q)) q.

Definition clear_active (pid seq : Z) (ps : Procs) : Procs :=
  alter (fun p => if active_wait_seq p =? seq then with_active 0 p else p) pid ps.

(** Where a task is inside its wait *)
Inductive WaitAt :=
| SnapQueue                                          (** about to prepare capacity of the queue *)
| SnapTimers (qcap : WaitCapacity)                   (** and of the timer table *)
| LoadClosed (qcap : WaitCapacity) (tcap : option Z) (** about to load [closed], before any lock *)
| Attempt (qcap : WaitCapacity) (tcap : option Z)    (** about to arm *)
| Asleep                                             (** in [block_until_resolved] *)
| DisarmTimer                                        (** [disarm_ticket_timer]: the timer table *)
| DisarmReclaim
| DisarmPcb                                          (** the process *)
| CheckAbort                                         (** past [disarm_ticket_timer] *)
| TakeFlag                                           (** about to consume the timeout flag *)
| RemoveEntry (o : WaitOutcome)                      (** about to leave the queue *)
| DropFlag                                           (** interrupted, about to consume the flag *)
| Reclaim (o : WaitOutcome).

Record TimedTask := mkTimedTask { tt_request : Request; tt_at : WaitAt }.

Inductive TimedNext := Stays (a : WaitAt) | Returns (r : WaitResult).

Record TimedStep := mkTimedStep { ts_queue : WaitQueue; ts_timers : Timers; ts_procs : Procs; ts_next : TimedNext }.

Definition is_timed (r : Request) : bool := match r_deadline r with Some _ => true | None => false end.

Definition timed_step (al : Z -> option Z) (check : option Z) (pid : Z) (t : TimedTask) (q : WaitQueue) (tm : Timers) (ps : Procs)
  : option TimedStep :=
  let r := tt_request t in
  match tt_at t with
  | SnapQueue =>
      Some (mkTimedStep q tm ps (match prepare_queue_capacity al pid q with
                                 | Some qcap => Stays (SnapTimers qcap)
                                 | None => Returns AllocError
                                 end))
  | SnapTimers qcap =>
      Some (mkTimedStep q tm ps (match prepare_timer_capacity al pid (is_timed r) tm with
                                 | Some tcap => Stays (LoadClosed qcap tcap)
                                 | None => Returns AllocError
                                 end))
  | LoadClosed qcap tcap =>
      Some (mkTimedStep q tm ps (if closed q then Returns (Outcome Closed) else Stays (Attempt qcap tcap)))
  | Attempt qcap tcap =>
      '(attempt, q, tm, ps) ← arm_attempt check pid r qcap tcap q tm ps;
      Some (mkTimedStep q tm ps (match attempt with
                                 | Again => Stays SnapQueue
                                 | Complete (Some res) => Returns res
                                 | Complete None => Stays Asleep
                                 end))
  | Asleep => Some (mkTimedStep q tm ps (Stays (if resolved (r_killable r) ps pid then DisarmTimer else Asleep)))
  | DisarmTimer =>
      match r_seq r with
      | Some seq => Some (mkTimedStep q (cancel_timed_wait_exact pid seq tm) ps (Stays DisarmReclaim))
      | None => Some (mkTimedStep q tm ps (Stays CheckAbort))
      end
  | DisarmReclaim => Some (mkTimedStep q (reclaim_empty_timer_capacity tm) ps (Stays DisarmPcb))
  | DisarmPcb =>
      Some (mkTimedStep q tm (match r_seq r with Some seq => clear_active pid seq ps | None => ps end) (Stays CheckAbort))
  | CheckAbort =>
      Some (mkTimedStep q tm ps (Stays (if wait_aborts (r_killable r) ps pid then RemoveEntry Interrupted else TakeFlag)))
  | TakeFlag =>
      let '(timed_out, ps) := consume_wq_timeout pid (r_generation r) ps in
      Some (mkTimedStep q tm ps (Stays (if timed_out then RemoveEntry TimedOut else Reclaim Woken)))
  | RemoveEntry o =>
      Some (mkTimedStep (remove_waiter_exact pid (r_generation r) q) tm ps
              (Stays (match o with Interrupted => DropFlag | _ => Reclaim o end)))
  | DropFlag =>
      let '(_, ps) := consume_wq_timeout pid (r_generation r) ps in
      Some (mkTimedStep q tm ps (Stays (Reclaim Interrupted)))
  | Reclaim o => Some (mkTimedStep (take_empty_capacity q) tm ps (Returns (Outcome o)))
  end.

(** * Waits, wakers and timer interrupts together *)
Inductive Drain := Scan (now : Z) | Waking (todo woke : list TimedWaiter).

Inductive TimedObs :=
| Fired (pid seq : Z)
| Returned (pid : Z) (timeout : option Z) (started : Z) (seq : option Z) (r : WaitResult) (now : Z).

Record TimedSystem := mkTimedSystem {
  t_queues : gmap Z WaitQueue; timers : Timers; t_procs : Procs; t_tasks : gmap Z TimedTask;
  drains : gmap Z Drain; ticks : Z; t_log : list TimedObs;
}.

Definition timed_new (ps : Procs) : TimedSystem := mkTimedSystem ∅ timers_new ps ∅ ∅ 0 [].

(** [close] is [StoreClosed], then [WakeAll]. *)
Inductive Waker := WakeOne | WakeN (n : Z) | WakeAll | WakeSpecific (wanted : bool) (pid : Z) | StoreClosed.

Definition run_waker (w : Waker) (q : WaitQueue) (ps : Procs) : WaitQueue * Procs :=
  match w with
  | WakeOne => let '(_, q, ps) := wake_one q ps in (q, ps)
  | WakeN n => let '(_, q, ps) := wake_n n q ps in (q, ps)
  | WakeAll => let '(_, q, ps) := wake_all q ps in (q, ps)
  | WakeSpecific wanted pid => let '(_, q, ps) := wake_specific_if wanted pid q ps in (q, ps)
  | StoreClosed => (close_store q, ps)
  end.

(** Processes appear, go and change outside of waits with no timed wait in flight;
    queues appear, and go when no wait is on them. *)
Inductive TimedEvent :=
| TInit
| TQueue (qid : Z)
| TDrop (qid : Z)
| TBegin (pid qid : Z) (timeout : option Z) (killable : bool)
| TRun (pid : Z) (al : Z -> option Z) (check : option Z)
| TWake (qid : Z) (w : Waker)
| TCleanup (qid pid : Z) (generation : option Z)
| TPost (pid : Z) (ready : bool)
| TKill (pid : Z) (ready : bool)
| THandled (pid : Z)
| TDispatch (pid : Z)
| TOutside (pid : Z) (p : option (ProcessState * Z * bool * bool))
| TTick
| TDrain (cpu : Z) (table_free pcb_free : bool)
| TReclaim.

Definition with_fatal (p : Process) : Process :=
  mkPcb (p_state p) (p_generation p) (p_signal p) true (wq_timeout_marker p) (active_wait_seq p).

Definition kill (pid : Z) (ready : bool) (ps : Procs) : Procs :=
  let ps := alter with_fatal pid ps in
  if ready && is_blocked ps pid then enter_ready pid ps else ps.

Definition with_tprocs (ps : Procs) (s : TimedSystem) : TimedSystem :=
  mkTimedSystem (t_queues s) (timers s) ps (t_tasks s) (drains s) (ticks s) (t_log s).
Definition with_timers (tm : Timers) (s : TimedSystem) : TimedSystem :=
  mkTimedSystem (t_queues s) tm (t_procs s) (t_tasks s) (drains s) (ticks s) (t_log s).
Definition with_queues (qs : gmap Z WaitQueue) (s : TimedSystem) : TimedSystem :=
  mkTimedSystem qs (timers s) (t_procs s) (t_tasks s) (drains s) (ticks s) (t_log s).

Definition in_use (qid : Z) (s : TimedSystem) : bool :=
  bool_decide (map_Exists (fun _ t => r_queue (tt_request t) = qid) (t_tasks s)).

(** [waitqueue_timer_tick] of one processor, one lock at a time *)
Definition drain_step (cpu : Z) (table_free pcb_free : bool) (s : TimedSystem) : TimedSystem :=
  match drains s !! cpu with
  | None => mkTimedSystem (t_queues s) (timers s) (t_procs s) (t_tasks s) (<[cpu := Scan (ticks s)]> (drains s)) (ticks s) (t_log s)
  | Some (Scan now) =>
      match copy_expired now (timers s) with
      | None => mkTimedSystem (t_queues s) (timers s) (t_procs s) (t_tasks s) (delete cpu (drains s)) (ticks s) (t_log s)
      | Some (expired, tm) =>
          mkTimedSystem (t_queues s) tm (t_procs s) (t_tasks s) (<[cpu := Waking expired []]> (drains s)) (ticks s) (t_log s)
      end
  | Some (Waking (w :: todo) woke) =>
      let '(completed, ps) := wq_timeout_wake_by_seq table_free pcb_free w (t_procs s) in
      let log := if table_free && pcb_free && hits w (t_procs s) then [Fired (tw_pid w) (tw_seq w)] else [] in
      mkTimedSystem (t_queues s) (timers s) ps (t_tasks s)
        (<[cpu := Waking todo (if completed then woke ++ [w] else woke)]> (drains s)) (ticks s) (t_log s ++ log)
  | Some (Waking [] woke) =>
      mkTimedSystem (t_queues s) (remove_done woke (timers s)).2 (t_procs s) (t_tasks s) (delete cpu (drains s)) (ticks s) (t_log s)
  end.

Definition timed_begin (pid qid : Z) (timeout : option Z) (killable : bool) (s : TimedSystem) : TimedSystem :=
  match t_queues s !! qid, t_tasks s !! pid with
  | Some q, None =>
      let '(res, q, tm) := begin_wait (Some pid) qid timeout killable (ticks s) q (timers s) (t_procs s) in
      let qs := <[qid := q]> (t_queues s) in
      match res with
      | inr r => mkTimedSystem qs tm (t_procs s) (<[pid := mkTimedTask r SnapQueue]> (t_tasks s)) (drains s) (ticks s) (t_log s)
      | inl o =>
          mkTimedSystem qs tm (t_procs s) (t_tasks s) (drains s) (ticks s)
            (t_log s ++ [Returned pid timeout (ticks s) None (Outcome o) (ticks s)])
      end
  | _, _ => s
  end.

Definition timed_run (pid : Z) (al : Z -> option Z) (check : option Z) (s : TimedSystem) : option TimedSystem :=
  match t_tasks s !! pid with
  | None => Some s
  | Some t =>
      let r := tt_request t in
      q ← t_queues s !! r_queue r;
      o ← timed_step al check pid t q (timers s) (t_procs s);
      let qs := <[r_queue r := ts_queue o]> (t_queues s) in
      Some (match ts_next o with
            | Stays a => mkTimedSystem qs (ts_timers o) (ts_procs o) (<[pid := mkTimedTask r a]> (t_tasks s)) (drains s) (ticks s) (t_log s)
            | Returns res =>
                mkTimedSystem qs (ts_timers o) (ts_procs o) (delete pid (t_tasks s)) (drains s) (ticks s)
                  (t_log s ++ [Returned pid (r_timeout r) (r_started r) (r_seq r) res (ticks s)])
            end)
  end.

Definition timed_exec (e : TimedEvent) (s : TimedSystem) : option TimedSystem :=
  match e with
  | TInit => Some (with_timers (init_waitqueue_timers (timers s)) s)
  | TQueue qid => Some (match t_queues s !! qid with Some _ => s | None => with_queues (<[qid := wait_queue_new]> (t_queues s)) s end)
  | TDrop qid => Some (if in_use qid s then s else with_queues (delete qid (t_queues s)) s)
  | TBegin pid qid timeout killable => Some (timed_begin pid qid timeout killable s)
  | TRun pid al check => timed_run pid al check s
  | TWake qid w =>
      Some (match t_queues s !! qid with
            | Some q => let '(q, ps) := run_waker w q (t_procs s) in with_queues (<[qid := q]> (t_queues s)) (with_tprocs ps s)
            | None => s
            end)
  | TCleanup qid pid generation =>
      Some (match t_queues s !! qid, t_tasks s !! pid with
            | Some q, None =>
                let q := match generation with Some g => cleanup_for_identity pid g (t_procs s) q | None => cleanup_for_pid pid q end in
                with_queues (<[qid := q]> (t_queues s)) s
            | _, _ => s
            end)
  | TPost pid ready => Some (with_tprocs (post pid ready (t_procs s)) s)
  | TKill pid ready => Some (with_tprocs (kill pid ready (t_procs s)) s)
  | THandled pid => Some (with_tprocs (alter (with_abort false) pid (t_procs s)) s)
  | TDispatch pid => Some (with_tprocs (dispatch pid (t_procs s)) s)
  | TOutside pid p =>
      Some (if bool_decide (t_tasks s !! pid = None)
            then with_tprocs (partial_alter (fun _ => (fun '(st, g, sg, ft) => mkPcb st g sg ft 0 0) <$> p) pid (t_procs s)) s else s)
  | TTick => Some (mkTimedSystem (t_queues s) (timers s) (t_procs s) (t_tasks s) (drains s) (ticks s + 1) (t_log s))
  | TDrain cpu table_free pcb_free => Some (drain_step cpu table_free pcb_free s)
  | TReclaim => Some (with_timers (reclaim_empty_timer_capacity (timers s)) s)
  end.

Fixpoint timed_exec_all (es : list TimedEvent) (s : TimedSystem) : option TimedSystem :=
  match es with
  | [] => Some s
  | e :: es => s ← timed_exec e s; timed_exec_all es s
  end.
