(* ===== verification/TimerScan.v ===== *)
(** The drain of expired timers: what one pass copies, and what repeated passes
    reach with and without contention. *)

From Stdlib Require Import ZArith Lia.
From stdpp Require Import base list list_numbers numbers gmap.
From S2P Require Import Prelude Machine WaitQueue Timed.

(** * One pass *)
Definition is_expired (now : Z) (w : TimedWaiter) : bool := deadline_tick w <=? now.
Abbreviation expired now l := (List.filter (is_expired now) l).

(** The table as the scan meets it *)
Definition rotated (start : Z) (l : list TimedWaiter) : list TimedWaiter := drop (Z.to_nat start) l ++ take (Z.to_nat start) l.

Lemma rotated_perm start l : rotated start l ≡ₚ l.
Proof. unfold rotated. rewrite (Permutation_app_comm (drop _ _)). by rewrite take_drop. Qed.

Lemma rotated_lookup start l i : 0 <= start < zlen l -> (i < length l)%nat -> rotated start l !! i = l !! Z.to_nat ((start + Z.of_nat i) mod zlen l).
Proof.
  unfold zlen, rotated. intros Hs Hi. destruct (decide (Z.of_nat i < Z.of_nat (length l) - start)) as [Hlt|Hge].
  - rewrite lookup_app_l by (rewrite length_drop; lia). rewrite lookup_drop. f_equal. rewrite Z.mod_small by lia. lia.
  - rewrite lookup_app_r by (rewrite length_drop; lia). rewrite length_drop, lookup_take by lia. rewrite decide_True by lia. f_equal.
    replace (start + Z.of_nat i) with (start + Z.of_nat i - Z.of_nat (length l) + 1 * Z.of_nat (length l)) by lia. rewrite Z.mod_add, Z.mod_small by lia. lia.
Qed.

(** A scan that stands at [x] with [n] found copies what has expired among the
    next [k] entries; it stops at the end of the table or when it has enough. *)
Definition scans (l : list TimedWaiter) (now start x n : Z) (o : list TimedWaiter * Z) : Prop :=
  exists k, x + Z.of_nat k <= zlen l /\ o = (expired now (take k (drop (Z.to_nat x) (rotated start l))), x + Z.of_nat k) /\
    n + zlen o.1 <= MAX_TIMEOUTS_PER_TICK /\ (x + Z.of_nat k = zlen l \/ n + zlen o.1 = MAX_TIMEOUTS_PER_TICK).

Lemma scans_stop l now start x n : x <= zlen l -> n <= MAX_TIMEOUTS_PER_TICK -> (x = zlen l \/ n = MAX_TIMEOUTS_PER_TICK) -> scans l now start x n ([], x).
Proof. intros Hx Hn Hstop. exists 0%nat. rewrite take_0, Z.add_0_r. cbn. repeat split; change (@zlen TimedWaiter []) with 0; lia. Qed.

Lemma scan_expired_spec fuel l now start x n : 0 <= start < zlen l -> 0 <= x <= zlen l -> n <= MAX_TIMEOUTS_PER_TICK -> zlen l <= x + Z.of_nat fuel ->
  scans l now start x n (scan_expired fuel l now start x n).
Proof.
  revert x n. induction fuel as [|fuel IH]; intros x n Hs Hx Hn Hf; cbn [scan_expired]; [apply scans_stop; lia|].
  destruct (Z.ltb_spec x (zlen l)) as [Hlt|Hge]; cbn [andb]; [|apply scans_stop; lia].
  destruct (Z.ltb_spec n MAX_TIMEOUTS_PER_TICK) as [Hlt'|Hge']; [|apply scans_stop; lia].
  pose proof (rotated_lookup start l (Z.to_nat x) Hs ltac:(unfold zlen in Hlt; lia)) as Hl. rewrite Z2Nat.id in Hl by lia. rewrite <- Hl.
  destruct (rotated start l !! Z.to_nat x) as [w|] eqn:Ew; [|apply lookup_ge_None in Ew; rewrite rotated_perm in Ew; unfold zlen in Hlt; lia].
  unfold scans. rewrite (drop_S _ _ _ Ew). replace (S (Z.to_nat x)) with (Z.to_nat (x + 1)) by lia. destruct (Z.leb_spec (deadline_tick w) now) as [He|He].
  - destruct (IH (x + 1) (n + 1)) as (k & Hk & Eq & Hb & Hend); try lia. destruct (scan_expired fuel l now start (x + 1) (n + 1)) as [e y]. cbn in *. injection Eq as -> ->.
    exists (S k). cbn [take List.filter]. rewrite (proj2 (Z.leb_le _ _) He : is_expired now w = true). rewrite zlen_cons. repeat split; try lia. f_equal. lia.
  - destruct (IH (x + 1) n) as (k & Hk & Eq & Hb & Hend); try lia. rewrite Eq in *. cbn in *.
    exists (S k). cbn [take List.filter]. rewrite (proj2 (Z.leb_gt _ _) He : is_expired now w = false). repeat split; try lia. f_equal. lia.
Qed.

Lemma copy_expired_spec now tm : timed tm <> [] -> let start := scan_cursor tm mod zlen (timed tm) in exists k e,
  copy_expired now tm = Some (e, with_cursor (start + Z.of_nat k) tm) /\ e = expired now (take k (rotated start (timed tm))) /\ Z.of_nat k <= zlen (timed tm) /\
  zlen e <= MAX_TIMEOUTS_PER_TICK /\ (Z.of_nat k = zlen (timed tm) \/ zlen e = MAX_TIMEOUTS_PER_TICK).
Proof.
  intros Hne start. assert (Hpos : 0 < zlen (timed tm)) by (destruct (timed tm); [done|]; rewrite zlen_cons; pose proof (zlen_nonneg l); lia).
  pose proof (Z.mod_pos_bound (scan_cursor tm) _ Hpos) as Hs.
  destruct (scan_expired_spec (length (timed tm)) (timed tm) now start 0 0) as (k & Hk & Eq & Hb & Hend); try (unfold zlen, MAX_TIMEOUTS_PER_TICK in *; lia).
  exists k, (expired now (take k (rotated start (timed tm)))). unfold copy_expired. fold start. rewrite Eq in *. cbn in *. rewrite drop_0 in *. destruct (timed tm); [done|]. cbn in *. repeat split; try lia.
Qed.

(** * Repeated passes *)
Section passes.
Context {S : Type} (wake : TimedWaiter -> S -> bool * S).

Fixpoint drain_times (nows : list Z) (tm : Timers) (s : S) : Timers * S :=
  match nows with
  | [] => (tm, s)
  | now :: nows => let '(_, tm, s) := drain_expired_timeouts wake now tm s in drain_times nows tm s
  end.

(** The state after waking timers in an order *)
Definition tried (order : list TimedWaiter) (s : S) : S := fold_left (fun s w => (wake w s).2) order s.

Lemma wake_expired_uniform b e s : (forall w s, (wake w s).1 = b) -> wake_expired wake e s = (if b then e else [], tried e s).
Proof.
  intros Hb. unfold tried. revert s. induction e as [|w e IH]; intros s; cbn; [by destruct b|]. specialize (Hb w s). destruct (wake w s) as [b' s']. cbn in *. subst b'. rewrite IH. by destruct b.
Qed.

(** ** Nothing is contended *)
Lemma is_done_self e w : w ∈ e -> is_done e w = true.
Proof. intros Hw. apply existsb_exists. exists w. split; [by apply list_elem_of_In|]. by rewrite !Z.eqb_refl. Qed.

Lemma is_done_pid e w : is_done e w = true -> tw_pid w ∈ map tw_pid e.
Proof.
  intros (d & Hd & E)%existsb_exists. apply andb_true_iff in E as [E%Z.eqb_eq _]. rewrite <- E. apply list_elem_of_fmap. exists d. split; [done|]. by apply list_elem_of_In.
Qed.

Lemma filter_perm (f : TimedWaiter -> bool) l l' : l ≡ₚ l' -> List.filter f l ≡ₚ List.filter f l'.
Proof. induction 1 as [| | |? ? ? _ IH1 _ IH2]; cbn; repeat case_match; try done; [by constructor|by constructor|by rewrite IH1]. Qed.

Lemma filter_all (f : TimedWaiter -> bool) b l : (forall w, w ∈ l -> f w = b) -> List.filter f l = if b then l else [].
Proof.
  induction l as [|w l IH]; intros H; cbn; [by destruct b|]. rewrite (H w) by left. rewrite IH by (intros; apply H; by right). by destruct b.
Qed.

Lemma expired_elem now l w : w ∈ expired now l <-> w ∈ l /\ deadline_tick w <= now.
Proof. rewrite !list_elem_of_In, filter_In. unfold is_expired. by rewrite Z.leb_le. Qed.

Lemma expired_mono lo hi l : lo <= hi -> expired hi l = [] -> expired lo l = [].
Proof.
  intros Hlh Hn. apply (filter_all _ false). intros w Hw. apply Z.leb_gt. destruct (decide (deadline_tick w <= hi)) as [Hd|]; [|lia].
  assert (Hx : w ∈ expired hi l) by by apply expired_elem. rewrite Hn in Hx. by apply elem_of_nil in Hx.
Qed.

(** What is done leaves the table, and nothing else does. *)
Lemma remove_done_spec e tm : NoDup (map tw_pid (timed tm)) -> e ⊆+ timed tm -> e ++ timed (remove_done e tm).2 ≡ₚ timed tm.
Proof.
  intros Hnd [k Hk]%submseteq_Permutation. assert (Hl : timed (remove_done e tm).2 = List.filter (fun w => negb (is_done e w)) (timed tm)).
  { unfold remove_done. destruct e; [|done]. symmetry. by apply (filter_all _ true). }
  rewrite Hl, (filter_perm _ _ _ Hk). transitivity (e ++ k); [|by symmetry]. rewrite Hk, map_app in Hnd. apply NoDup_app in Hnd as (_ & Hdis & _). rewrite List.filter_app.
  rewrite (filter_all _ false e), (filter_all _ true k); [done| |intros w Hw; by rewrite is_done_self].
  intros w Hw. apply negb_true_iff, not_true_iff_false. intros Hd%is_done_pid. apply (Hdis _ Hd). apply list_elem_of_fmap. eauto.
Qed.

Lemma sublist_expired now l : expired now l `sublist_of` l.
Proof. induction l as [|w l IH]; cbn; [done|]. destruct (is_expired now w); by constructor. Qed.

(** A pass that completes what it tries *)
Lemma drain_complete now tm s : (forall w s, (wake w s).1 = true) -> NoDup (map tw_pid (timed tm)) -> exists b tm' e,
  drain_expired_timeouts wake now tm s = (b, tm', tried e s) /\ e ++ timed tm' ≡ₚ timed tm /\ (forall w, w ∈ e -> deadline_tick w <= now) /\
  (zlen e = MAX_TIMEOUTS_PER_TICK \/ expired now (timed tm') = []).
Proof.
  intros Hw Hnd. unfold drain_expired_timeouts. destruct (decide (timed tm = [])) as [E|E].
  { exists false, tm, []. unfold copy_expired. rewrite E. split; [done|]. split; [done|]. split; [by intros w ?%elem_of_nil|by right]. }
  destruct (copy_expired_spec now tm E) as (k & e & -> & He & _ & _ & Hend). rewrite (wake_expired_uniform true) by done.
  set (start := scan_cursor tm mod zlen (timed tm)) in *. set (tm1 := with_cursor (start + Z.of_nat k) tm).
  assert (Hsub : e ⊆+ timed tm1).
  { cbn. rewrite <- (rotated_perm start (timed tm)). apply sublist_submseteq. rewrite He. etrans; [apply sublist_expired|apply sublist_take]. }
  pose proof (remove_done_spec e tm1 Hnd Hsub) as Hp. destruct (remove_done e tm1) as [b tm'] eqn:Er. cbn in Hp. exists b, tm', e. split; [done|]. split; [done|].
  split; [intros w Hx; rewrite He in Hx; by apply expired_elem in Hx as [_ ?]|]. destruct Hend as [Hk|]; [right|by left].
  assert (Hee : e ≡ₚ expired now (timed tm)).
  { rewrite He, <- (filter_perm _ _ _ (rotated_perm start (timed tm))). rewrite take_ge; [done|]. rewrite rotated_perm. unfold zlen in Hk. lia. }
  apply (filter_perm (is_expired now)) in Hp. rewrite List.filter_app in Hp. rewrite (filter_all _ true e) in Hp by (intros w Hx; rewrite He in Hx; apply list_elem_of_In, filter_In in Hx; tauto).
  rewrite <- Hee in Hp. apply Permutation_nil, (Permutation_app_inv_l e). rewrite app_nil_r. by symmetry.
Qed.

Lemma drain_times_complete lo hi nows tm s : lo <= hi -> (forall w s, (wake w s).1 = true) -> NoDup (map tw_pid (timed tm)) -> Forall (fun now => lo <= now <= hi) nows ->
  exists tm' order, drain_times nows tm s = (tm', tried order s) /\ order ++ timed tm' ≡ₚ timed tm /\ (forall w, w ∈ order -> deadline_tick w <= hi) /\
  (zlen (expired hi (timed tm)) <= MAX_TIMEOUTS_PER_TICK * zlen nows -> expired lo (timed tm') = []).
Proof.
  intros Hlh Hw. revert tm s. induction nows as [|now nows IH]; intros tm s Hnd Hf.
  { exists tm, []. split; [done|]. split; [done|]. split; [by intros w ?%elem_of_nil|]. intros Hz. apply (expired_mono lo hi); [done|].
    destruct (expired hi (timed tm)) as [|w l]; [done|]. rewrite zlen_cons in Hz. pose proof (zlen_nonneg l). unfold zlen at 2, MAX_TIMEOUTS_PER_TICK in Hz. cbn in Hz. lia. }
  inversion_clear Hf as [|? ? Hnow Hf']. cbn. destruct (drain_complete now tm s Hw Hnd) as (b & tm1 & e & -> & Hp & He & Hend).
  assert (Hnd1 : NoDup (map tw_pid (timed tm1))) by (rewrite <- Hp, map_app in Hnd; by apply NoDup_app in Hnd as (_ & _ & ?)).
  destruct (IH tm1 (tried e s) Hnd1 Hf') as (tm' & order & -> & Hp' & Ho & Hlast). exists tm', (e ++ order).
  split; [unfold tried; by rewrite fold_left_app|]. split; [by rewrite <- app_assoc, Hp'|].
  split; [intros w [Hx|Hx]%elem_of_app; [specialize (He w Hx); lia|by apply Ho]|]. rewrite zlen_cons. intros Hlt. destruct Hend as [He16|Hnil].
  - apply Hlast. apply (filter_perm (is_expired hi)) in Hp. rewrite List.filter_app in Hp.
    rewrite (filter_all _ true e) in Hp by (intros w Hx; specialize (He w Hx); apply Z.leb_le; lia). apply Permutation_length in Hp. rewrite length_app in Hp. unfold zlen in *. lia.
  - assert (Hin : forall w, w ∈ timed tm' -> w ∈ timed tm1) by (intros w Hx; rewrite <- Hp'; apply elem_of_app; by right).
    apply (filter_all _ false). intros w Hx. apply Z.leb_gt. destruct (decide (deadline_tick w <= lo)) as [Hd|]; [|lia].
    assert (Hw1 : w ∈ expired now (timed tm1)) by (apply expired_elem; split; [by apply Hin|lia]). rewrite Hnil in Hw1. by apply elem_of_nil in Hw1.
Qed.

(** ** Everything is contended *)

(** A pass that completes nothing *)
Lemma drain_contended now tm s : (forall w s, (wake w s).1 = false) -> timed tm <> [] -> let start := scan_cursor tm mod zlen (timed tm) in exists k e,
  drain_expired_timeouts wake now tm s = (false, with_cursor (start + Z.of_nat k) tm, tried e s) /\
  e = expired now (take k (rotated start (timed tm))) /\ (Z.of_nat k = zlen (timed tm) \/ MAX_TIMEOUTS_PER_TICK <= Z.of_nat k).
Proof.
  intros Hw Hne start. unfold drain_expired_timeouts. destruct (copy_expired_spec now tm Hne) as (k & e & -> & He & _ & _ & Hend). rewrite (wake_expired_uniform false) by done.
  exists k, e. split; [done|]. split; [done|]. destruct Hend as [?|Hend]; [by left|right]. pose proof (sublist_length _ _ (sublist_expired now (take k (rotated start (timed tm))))) as Hl.
  fold start in He. rewrite <- He, length_take in Hl. unfold zlen in Hend. lia.
Qed.

Lemma drain_times_contended lo nows tm s : (forall w s, (wake w s).1 = false) -> Forall (fun now => lo <= now) nows -> exists tm' order,
  drain_times nows tm s = (tm', tried order s) /\ timed tm' = timed tm /\
  forall j w, 0 <= j < zlen (timed tm) -> j < MAX_TIMEOUTS_PER_TICK * zlen nows -> timed tm !! Z.to_nat ((scan_cursor tm + j) mod zlen (timed tm)) = Some w ->
    deadline_tick w <= lo -> w ∈ order.
Proof.
  intros Hw. revert tm s. induction nows as [|now nows IH]; intros tm s Hf.
  { exists tm, []. split; [done|]. split; [done|]. change (zlen (@nil Z)) with 0. lia. }
  inversion_clear Hf as [|? ? Hnow Hf']. cbn. destruct (decide (timed tm = [])) as [E|E].
  { unfold drain_expired_timeouts, copy_expired. rewrite E. destruct (IH tm s Hf') as (tm' & order & -> & El & _). exists tm', order. rewrite El. split; [done|]. split; [done|].
    change (zlen (@nil TimedWaiter)) with 0. lia. }
  destruct (drain_contended now tm s Hw E) as (k & e & -> & He & Hk). set (start := scan_cursor tm mod zlen (timed tm)) in *.
  destruct (IH (with_cursor (start + Z.of_nat k) tm) (tried e s) Hf') as (tm' & order & -> & El & Hcov). cbn in El, Hcov. exists tm', (e ++ order).
  split; [unfold tried; by rewrite fold_left_app|]. split; [done|]. rewrite zlen_cons. intros j w Hj Hj' Ew Hd. apply elem_of_app.
  pose proof (Z.mod_pos_bound (scan_cursor tm) (zlen (timed tm)) ltac:(lia)) as Hs. fold start in Hs. destruct (decide (j < Z.of_nat k)) as [Hlt|Hge]; [left|right].
  - rewrite He. apply expired_elem. split; [|lia]. apply list_elem_of_lookup. exists (Z.to_nat j). rewrite lookup_take, decide_True by lia.
    rewrite rotated_lookup by (unfold zlen in Hj; lia). rewrite Z2Nat.id by lia. unfold start. rewrite Zplus_mod_idemp_l. done.
  - apply (Hcov (j - Z.of_nat k) w); [lia|lia| |done]. replace (start + Z.of_nat k + (j - Z.of_nat k)) with (start + j) by lia. unfold start. by rewrite Zplus_mod_idemp_l.
Qed.

(** Every position is reached from the cursor. *)
Lemma cursor_reaches c l (w : TimedWaiter) : w ∈ l -> exists j, 0 <= j < zlen l /\ l !! Z.to_nat ((c + j) mod zlen l) = Some w.
Proof.
  intros (i & Hi)%list_elem_of_lookup. pose proof (lookup_lt_Some _ _ _ Hi). exists ((Z.of_nat i - c) mod zlen l). unfold zlen in *.
  split; [apply Z.mod_pos_bound; lia|]. rewrite Zplus_mod_idemp_r. replace (c + (Z.of_nat i - c)) with (Z.of_nat i) by lia. rewrite Z.mod_small by lia. by rewrite Nat2Z.id.
Qed.
End passes.
