(* ===== verification/TimedInv.v ===== *)
(** The invariant of timed waits: what the timer table, the copies that timer
    interrupts hold, the processes and the queues say about the waits in flight.
    Sequence numbers and generations are bounded by the number of events, so no
    counter wraps within [2 ^ 62] of them. *)

From Stdlib Require Import ZArith Lia.
From stdpp Require Import base list list_numbers numbers gmap.
From S2P Require Import Prelude Machine WaitQueue WaitFacts Timed TimerScan.

(** * Changes to processes that leave timers alone and put nobody to sleep *)
Definition mild_pcb (p p' : Process) : Prop :=
  wq_timeout_marker p' = wq_timeout_marker p /\ active_wait_seq p' = active_wait_seq p /\ (p_state p' = Blocked -> p_state p = Blocked).
Definition mild (ps ps' : Procs) : Prop := forall x, option_Forall2 mild_pcb (ps !! x) (ps' !! x).

#[export] Instance mild_refl : Reflexive mild.
Proof. intros ps x. destruct (ps !! x); by constructor. Qed.

#[export] Instance mild_trans : Transitive mild.
Proof. intros ps1 ps2 ps3 H1 H2 x. specialize (H1 x). specialize (H2 x). destruct H1 as [p p' (? & ? & ?)|]; inversion H2 as [? p'' (? & ? & ?)|]; subst; constructor. split; [congruence|]. split; [congruence|auto]. Qed.

Lemma mild_alter f pid ps : (forall p, mild_pcb p (f p)) -> mild ps (alter f pid ps).
Proof.
  intros Hf x. destruct (decide (x = pid)) as [->|]; [rewrite lookup_alter_eq|rewrite lookup_alter_ne by done]; destruct (ps !! _); by constructor.
Qed.

Lemma mild_readied l ps ps' : readied l ps ps' -> mild ps ps'.
Proof. intros H x. destruct (H x) as [->|(-> & _)]; destruct (ps !! x); by constructor. Qed.

Lemma mild_if_ready (b : bool) pid ps : mild ps (if b then enter_ready pid ps else ps).
Proof. destruct b; [|done]. by apply mild_alter. Qed.

Lemma mild_post pid ready ps : mild ps (post pid ready ps).
Proof. unfold post. etrans; [|apply mild_if_ready]. by apply mild_alter. Qed.

Lemma mild_kill pid ready ps : mild ps (kill pid ready ps).
Proof. unfold kill. etrans; [|apply mild_if_ready]. by apply mild_alter. Qed.

Lemma mild_dispatch pid ps : mild ps (dispatch pid ps).
Proof. apply mild_alter. intros p. unfold mild_pcb. by case_bool_decide. Qed.

Lemma mild_lookup ps ps' x p' : mild ps ps' -> ps' !! x = Some p' -> exists p, ps !! x = Some p /\ mild_pcb p p'.
Proof. intros H E. specialize (H x). rewrite E in H. inversion H; eauto. Qed.

Lemma mild_lookup_old ps ps' x p : mild ps ps' -> ps !! x = Some p -> exists p', ps' !! x = Some p' /\ mild_pcb p p'.
Proof. intros H E. specialize (H x). rewrite E in H. inversion H; eauto. Qed.

Lemma mild_blocked ps ps' x : mild ps ps' -> is_blocked ps' x = true -> is_blocked ps x = true.
Proof.
  intros H (p' & E & Hb)%is_blocked_Some. destruct (mild_lookup _ _ _ _ H E) as (p & Ep & _ & _ & Hs). unfold is_blocked. rewrite Ep. apply bool_decide_eq_true_2. auto.
Qed.

(** * Lists *)
Lemma NoDup_map_filter {A B} (g : A -> B) f l : NoDup (map g l) -> NoDup (map g (List.filter f l)).
Proof.
  induction l as [|x l IH]; cbn; [done|]. intros [Hx Hnd]%NoDup_cons. destruct (f x); [|by apply IH]. cbn. apply NoDup_cons. split; [|by apply IH].
  intros (y & Ey & Hy)%list_elem_of_fmap. apply Hx. rewrite Ey. apply list_elem_of_fmap. exists y. split; [done|]. apply list_elem_of_In in Hy. apply filter_In in Hy as [? _]. by apply list_elem_of_In.
Qed.

(** * Wakers *)
Lemma run_waker_spec w q ps : NoDup (map fst (waiters q)) -> let o := run_waker w q ps in
  mild ps o.2 /\ wait_generation o.1 = wait_generation q /\ NoDup (map fst (waiters o.1)) /\
  forall x, x ∈ waiters q -> 0 <= x.2 < 2 ^ 63 -> is_blocked o.2 x.1 = true -> x ∈ waiters o.1.
Proof.
  intros Hnd.
  assert (Hwoke : forall l' ps', woke (waiters q) l' ps ps' -> mild ps ps' /\ NoDup (map fst l') /\
    forall x, x ∈ waiters q -> 0 <= x.2 < 2 ^ 63 -> is_blocked ps' x.1 = true -> x ∈ l').
  { intros l' ps' [Hs Hr Hg _]. split; [by eapply mild_readied|]. split; [destruct Hs as [k Hk]; rewrite Hk, map_app in Hnd; by apply NoDup_app in Hnd as (_ & _ & ?)|].
    intros x Hx Hp Hb. destruct (decide (x ∈ l')) as [|Hn]; [done|]. rewrite (Hg x Hx Hn) in Hb; [done|]. rewrite wakeable_plain by done. by apply (mild_blocked _ ps'); [eapply mild_readied|]. }
  assert (Hall : forall n, let o := wake_all_loop (waiters q) n ps in mild ps o.2 /\ forall x, x ∈ waiters q -> 0 <= x.2 < 2 ^ 63 -> is_blocked o.2 x.1 = true -> False).
  { intros n. pose proof (wake_n_loop_spec (waiters q) (n + zlen (waiters q)) n ps) as H. rewrite wake_all_loop_n in H by lia. destruct (Hwoke _ _ H) as (Hm & _ & Hk). split; [done|].
    intros x Hx Hp Hb. by apply (Hk x Hx Hp), elem_of_nil in Hb. }
  destruct w as [|n| |wanted pid|]; cbn; unfold wake_one, wake_n, wake_all, wake_specific_if, close_store.
  - pose proof (wake_one_loop_spec (waiters q) ps) as H. destruct (wake_one_loop (waiters q) ps) as [[? l'] ps']. destruct H as [H _]. destruct (Hwoke _ _ H) as (? & ? & ?). done.
  - destruct (n =? 0); [split; [reflexivity|done]|]. pose proof (wake_n_loop_spec (waiters q) n 0 ps) as H. destruct (wake_n_loop (waiters q) n 0 ps) as [[? l'] ps']. destruct (Hwoke _ _ H) as (? & ? & ?). done.
  - destruct (Hall 0) as [Hm Hk]. destruct (wake_all_loop (waiters q) 0 ps) as [k ps']. cbn in *. split; [done|]. split; [done|]. split; [constructor|]. intros x Hx Hp Hb. by destruct (Hk x).
  - destruct wanted; cbn; [|split; [reflexivity|done]]. destruct (List.find (fun x => x.1 =? pid) (waiters q)) as [y|] eqn:Ef; [|split; [reflexivity|done]].
    apply find_some in Ef as [Hy Ey%Z.eqb_eq]. apply list_elem_of_In in Hy. destruct (remove_first_spec pid (waiters q) Hnd) as (H1 & H2 & H3).
    assert (Hy' : forall x, x ∈ waiters q -> x.1 = pid -> x = y).
    { intros x Hx Ex. apply list_elem_of_lookup in Hx as (i & Hi). apply list_elem_of_lookup in Hy as (j & Hj). assert (i = j) as ->; [|congruence].
      apply (NoDup_lookup (map fst (waiters q)) i j pid Hnd); rewrite list_lookup_fmap, ?Hi, ?Hj; cbn; congruence. }
    destruct (ps !! pid) as [p|] eqn:Ep; [destruct (wakeable ps y) eqn:Ew|]; cbn.
    + split; [by apply mild_alter|]. split; [done|]. split; [done|]. intros x Hx Hp Hb. apply H2; [|done]. intros Ex. rewrite enter_ready_blocked in Hb. by case_decide.
    + split; [reflexivity|]. split; [done|]. split; [done|]. intros x Hx Hp Hb. apply H2; [|done]. intros Ex. rewrite (Hy' x Hx Ex) in *. rewrite wakeable_plain in Ew by done. congruence.
    + split; [reflexivity|]. split; [done|]. split; [done|]. intros x Hx Hp Hb. apply H2; [|done]. intros Ex. unfold is_blocked in Hb. by rewrite Ex, Ep in Hb.
  - split; [reflexivity|done].
Qed.

(** * Publishing *)
Lemma restamp_spec pid g l : map fst (restamp pid g l) = map fst l /\ (forall x, x.1 <> pid -> x ∈ l -> x ∈ restamp pid g l) /\
  (existsb (fun x => x.1 =? pid) l = true -> (pid, g) ∈ restamp pid g l).
Proof.
  induction l as [|y l (H1 & H2 & H3)]; cbn; [done|]. destruct (Z.eqb_spec y.1 pid) as [E|E]; cbn.
  - split; [by rewrite E|]. split; [|by left]. intros x Hx [->|?]%elem_of_cons; [done|by right].
  - split; [by rewrite H1|]. split; [|by right; apply H3]. intros x Hx [->|?]%elem_of_cons; [by left|right; by apply H2].
Qed.

Lemma publish_entry_spec pid g q : NoDup (map fst (waiters q)) -> (queued pid q = false -> zlen (waiters q) <> wq_capacity q) -> exists q',
  publish_entry pid g q = Some q' /\ wait_generation q' = wait_generation q /\ NoDup (map fst (waiters q')) /\
  (forall x, x.1 <> pid -> x ∈ waiters q -> x ∈ waiters q') /\ (pid, g) ∈ waiters q'.
Proof.
  intros Hnd Hcap. unfold publish_entry, push_back_reserved. destruct (queued pid q) eqn:Eq.
  - destruct (restamp_spec pid g (waiters q)) as (H1 & H2 & H3). eexists. split; [done|]. cbn. rewrite H1. split; [done|]. split; [done|]. split; [done|]. by apply H3.
  - destruct (Z.eqb_spec (zlen (waiters q)) (wq_capacity q)); [by destruct Hcap|]. eexists. split; [done|]. cbn. split; [done|]. rewrite map_app. split; [|split].
    + apply NoDup_app. split; [done|]. split; [|apply NoDup_singleton]. intros x Hx ->%list_elem_of_singleton. apply list_elem_of_fmap in Hx as (y & Ey & Hy).
      rewrite (proj2 (queued_iff pid q)) in Eq; [done|]. by exists y.
    + intros x _ Hx. apply elem_of_app. by left.
    + apply elem_of_app. right. by apply list_elem_of_singleton.
Qed.

Lemma has_timer_iff pid tm : has_timer pid tm = true <-> pid ∈ map tw_pid (timed tm).
Proof.
  unfold has_timer. rewrite existsb_exists. split.
  - intros (w & Hw & <-%Z.eqb_eq). apply list_elem_of_fmap. exists w. split; [done|]. by apply list_elem_of_In.
  - intros (w & -> & Hw)%list_elem_of_fmap. exists w. split; [by apply list_elem_of_In|]. by apply Z.eqb_eq.
Qed.

Lemma replace_timer_spec w l : map tw_pid (replace_timer w l) = map tw_pid l /\ (forall v, v ∈ replace_timer w l -> v = w \/ v ∈ l) /\
  (forall v, tw_pid v <> tw_pid w -> v ∈ l -> v ∈ replace_timer w l) /\ (tw_pid w ∈ map tw_pid l -> w ∈ replace_timer w l).
Proof.
  induction l as [|y l (H1 & H2 & H3 & H4)]; cbn; [split; [done|]; split; [by intros v ?%elem_of_nil|]; split; [done|by intros ?%elem_of_nil]|].
  destruct (Z.eqb_spec (tw_pid y) (tw_pid w)) as [E|E]; cbn; (split; [congruence|]).
  - split; [intros v [->|?]%elem_of_cons; [by left|right; by right]|]. split; [|by left]. intros v Hv [->|?]%elem_of_cons; [done|by right].
  - split; [intros v [->|Hv]%elem_of_cons; [right; by left|destruct (H2 v Hv); [by left|right; by right]]|].
    split; [intros v Hv [->|?]%elem_of_cons; [by left|right; by apply H3]|]. intros [?|?]%elem_of_cons; [congruence|right; by apply H4].
Qed.

Lemma publish_timer_spec w tm : NoDup (map tw_pid (timed tm)) -> (has_timer (tw_pid w) tm = false -> zlen (timed tm) <> t_capacity tm) -> exists tm',
  publish_timer w tm = Some tm' /\ next_wait_seq tm' = next_wait_seq tm /\ NoDup (map tw_pid (timed tm')) /\
  (forall v, v ∈ timed tm' -> v = w \/ v ∈ timed tm) /\ (forall v, tw_pid v <> tw_pid w -> v ∈ timed tm -> v ∈ timed tm') /\ w ∈ timed tm'.
Proof.
  intros Hnd Hcap. unfold publish_timer, push_timer. destruct (has_timer (tw_pid w) tm) eqn:Eh.
  - destruct (replace_timer_spec w (timed tm)) as (H1 & H2 & H3 & H4). eexists. split; [done|]. cbn. rewrite H1. do 2 (split; [done|]). do 2 (split; [done|]). by apply H4, has_timer_iff.
  - destruct (Z.eqb_spec (zlen (timed tm)) (t_capacity tm)); [by destruct Hcap|]. eexists. split; [done|]. cbn. split; [done|]. rewrite map_app. split; [|split; [|split]].
    + apply NoDup_app. split; [done|]. split; [|apply NoDup_singleton]. intros x Hx ->%list_elem_of_singleton. apply has_timer_iff in Hx. congruence.
    + intros v [?|Hv%list_elem_of_singleton]%elem_of_app; [by right|by left].
    + intros v _ Hv. apply elem_of_app. by left.
    + apply elem_of_app. right. by apply list_elem_of_singleton.
Qed.

Lemma reclaim_timed tm : timed (reclaim_empty_timer_capacity tm) = timed tm /\ next_wait_seq (reclaim_empty_timer_capacity tm) = next_wait_seq tm.
Proof. unfold reclaim_empty_timer_capacity. by destruct (timed tm) eqn:E. Qed.

(** What is left of an attempt once the capacity is there *)
Lemma queue_room pid qcap q q' : (if queued pid q then Some q else ensure_queue_capacity_locked qcap q) = Some q' ->
  waiters q' = waiters q /\ wait_generation q' = wait_generation q /\ (queued pid q' = false -> zlen (waiters q') <> wq_capacity q').
Proof.
  destruct (queued pid q) eqn:Eq; [intros [= <-]; rewrite Eq; done|]. unfold ensure_queue_capacity_locked.
  destruct (Z.ltb_spec (zlen (waiters q)) (wq_capacity q)); [intros [= <-]; split; [done|]; split; [done|lia]|].
  destruct (wc_prepared qcap) as [c|]; [|done]. destruct (Z.leb_spec c (zlen (waiters q))); [done|]. intros [= <-]. cbn. split; [done|]. split; [done|lia].
Qed.

Lemma timer_room pid tcap tm tm' : (if has_timer pid tm then Some tm else ensure_timer_capacity_locked tcap tm) = Some tm' ->
  timed tm' = timed tm /\ next_wait_seq tm' = next_wait_seq tm /\ (has_timer pid tm' = false -> zlen (timed tm') <> t_capacity tm').
Proof.
  destruct (has_timer pid tm) eqn:Eq; [intros [= <-]; rewrite Eq; done|]. unfold ensure_timer_capacity_locked.
  destruct (Z.ltb_spec (zlen (timed tm)) (t_capacity tm)); [intros [= <-]; split; [done|]; split; [done|lia]|].
  destruct tcap as [c|]; [|done]. destruct (Z.leb_spec c (zlen (timed tm))); [done|]. intros [= <-]. cbn. split; [done|]. split; [done|lia].
Qed.

(** * Markers *)
Lemma marks_packed g : 0 <= g < 2 ^ 63 -> marks_timeout (pack_timeout_marker g) g = true.
Proof.
  intros Hg. unfold marks_timeout, pack_timeout_marker. rewrite Z.shiftl_mul_pow2, Z.mod_small by lia. change (2 ^ 1) with 2.
  replace (Z.lor (g * 2) 1) with (2 * g + 1).
  - assert (E : Z.land (2 * g + 1) 1 = 1) by (change (Z.land (2 * g + 1) 1) with (Z.land (2 * g + 1) (Z.ones 1)); rewrite Z.land_ones by lia; change (2 ^ 1) with 2; by rewrite Z.add_comm, Z.mul_comm, Z.mod_add by lia).
    rewrite E. cbn [Z.eqb]. rewrite Z.shiftr_div_pow2 by lia. change (2 ^ 1) with 2. apply Z.eqb_eq. rewrite Z.mul_comm, Z.div_add_l by lia. change (1 / 2) with 0. lia.
  - rewrite Z.lor_comm, (Z.mul_comm g). apply Z.bits_inj'. intros i Hi. rewrite Z.lor_spec. destruct (decide (i = 0)) as [->|].
    + by rewrite Z.testbit_odd_0.
    + replace i with (Z.succ (i - 1)) by lia. rewrite Z.testbit_odd_succ, Z.testbit_even_succ by lia. rewrite (Z.bits_above_log2 1) by (cbn; lia). done.
Qed.

(** * What a wait in flight says about its process *)
Definition fired (L : list TimedObs) (pid : Z) (r : Request) : Prop := exists seq, r_seq r = Some seq /\ Fired pid seq ∈ L.
Definition due (now : Z) (r : Request) : Prop := exists d, r_deadline r = Some d /\ d <= now.
Definition clean (p : Process) : Prop := wq_timeout_marker p = 0 /\ active_wait_seq p = 0.

(** The marker tells whether the timer of the wait has fired. *)
Definition flagged (F D : Prop) (r : Request) (p : Process) : Prop :=
  (wq_timeout_marker p = 0 /\ ~ F) \/ (wq_timeout_marker p = pack_timeout_marker (r_generation r) /\ F /\ D).

Definition armed (a : WaitAt) : bool := match a with SnapQueue | SnapTimers _ | LoadClosed _ _ | Attempt _ _ => false | _ => true end.

Definition pcb_ok (F D : Prop) (r : Request) (a : WaitAt) (p : Process) : Prop :=
  match a with
  | SnapQueue | SnapTimers _ | LoadClosed _ _ | Attempt _ _ | Reclaim Woken => clean p /\ ~ F
  | Asleep | DisarmTimer | DisarmReclaim | DisarmPcb =>
      flagged F D r p /\ (active_wait_seq p = 0 \/ (r_seq r = Some (active_wait_seq p) /\ ~ F))
  | CheckAbort | TakeFlag | RemoveEntry Interrupted | DropFlag => flagged F D r p /\ active_wait_seq p = 0
  | RemoveEntry TimedOut | Reclaim TimedOut => clean p /\ F /\ D
  | Reclaim Interrupted => clean p
  | _ => False
  end.

Lemma pcb_ok_impl (F D F' D' : Prop) r a p p' : (F <-> F') -> (D -> D') -> mild_pcb p p' -> pcb_ok F D r a p -> pcb_ok F' D' r a p'.
Proof.
  intros HF HD (Hm & Ha & _). unfold pcb_ok, flagged, clean. rewrite Hm, Ha. destruct a as [| | | | | | | | | |o| |o]; try destruct o; tauto.
Qed.

Definition req_ok (n now next : Z) (r : Request) : Prop :=
  0 <= r_generation r <= n /\ 0 <= r_started r <= now /\
  match r_timeout r, r_deadline r, r_seq r with
  | None, None, None => True
  | Some ns, Some d, Some seq => d = deadline_for (r_started r) ns /\ 1 <= seq < next
  | _, _, _ => False
  end.

(** * The system *)

(** A timer that is in the table or that an interrupt has copied *)
Definition pending (s : TimedSystem) (w : TimedWaiter) : Prop :=
  w ∈ timed (timers s) \/ exists cpu todo woke, drains s !! cpu = Some (Waking todo woke) /\ (w ∈ todo \/ w ∈ woke).

(** A sleeper can be reached: by wakers through its queue, by the timer through
    the table. *)
Definition in_place (s : TimedSystem) (pid : Z) (r : Request) : Prop :=
  (exists q, t_queues s !! r_queue r = Some q /\ (pid, r_generation r) ∈ waiters q) /\
  forall seq d, r_seq r = Some seq -> r_deadline r = Some d ->
    mkTimedWaiter pid d seq (r_generation r) ∈ timed (timers s) /\ exists p, t_procs s !! pid = Some p /\ active_wait_seq p = seq.

Definition returned_ok (L : list TimedObs) (pid : Z) (timeout : option Z) (started : Z) (seq : option Z) (res : WaitResult) (now : Z) : Prop :=
  match res with
  | Outcome TimedOut => timeout = Some 0 \/
      exists ns q, timeout = Some ns /\ seq = Some q /\ Fired pid q ∈ L /\ deadline_for started ns <= now
  | Outcome Woken => forall q, seq = Some q -> Fired pid q ∉ L
  | _ => True
  end.

Definition obs_ok (s : TimedSystem) (o : TimedObs) : Prop :=
  match o with
  | Fired _ seq => seq < next_wait_seq (timers s)
  | Returned pid timeout started seq res now =>
      returned_ok (t_log s) pid timeout started seq res now /\ 0 <= started <= now /\ now <= ticks s /\
      forall q, seq = Some q -> q < next_wait_seq (timers s) /\ forall t, t_tasks s !! pid = Some t -> r_seq (tt_request t) <> Some q
  end.

Record timed_inv (n : Z) (s : TimedSystem) : Prop := {
  ti_next : 1 <= next_wait_seq (timers s) <= n + 1;
  ti_ticks : 0 <= ticks s <= n;
  ti_queue : forall qid q, t_queues s !! qid = Some q -> 0 <= wait_generation q <= n /\ NoDup (map fst (waiters q));
  ti_timers : NoDup (map tw_pid (timed (timers s)));
  ti_pending : forall w, pending s w -> 1 <= tw_seq w < next_wait_seq (timers s) /\
    forall t, t_tasks s !! tw_pid w = Some t -> r_seq (tt_request t) = Some (tw_seq w) ->
      armed (tt_at t) = true /\ r_deadline (tt_request t) = Some (deadline_tick w) /\ r_generation (tt_request t) = tw_generation w;
  ti_drains : forall cpu d, drains s !! cpu = Some d ->
    match d with Scan now => now <= ticks s | Waking todo _ => forall w, w ∈ todo -> deadline_tick w <= ticks s end;
  ti_woke : forall cpu todo woke w t, drains s !! cpu = Some (Waking todo woke) -> w ∈ woke ->
    t_tasks s !! tw_pid w = Some t -> r_seq (tt_request t) = Some (tw_seq w) -> tt_at t = Asleep -> is_blocked (t_procs s) (tw_pid w) = false;
  ti_task : forall pid t, t_tasks s !! pid = Some t -> req_ok n (ticks s) (next_wait_seq (timers s)) (tt_request t) /\
    is_Some (t_queues s !! r_queue (tt_request t)) /\
    exists p, t_procs s !! pid = Some p /\ pcb_ok (fired (t_log s) pid (tt_request t)) (due (ticks s) (tt_request t)) (tt_request t) (tt_at t) p;
  ti_idle : forall pid p, t_tasks s !! pid = None -> t_procs s !! pid = Some p -> clean p;
  ti_sleep : forall pid t, t_tasks s !! pid = Some t -> tt_at t = Asleep -> is_blocked (t_procs s) pid = true -> in_place s pid (tt_request t);
  ti_log : forall o, o ∈ t_log s -> obs_ok s o;
}.

Lemma timed_inv_mono n n' s : n <= n' -> timed_inv n s -> timed_inv n' s.
Proof.
  intros Hn [H1 H2 H3 H4 H5 H6 H7 H8 H9 H10 H11]. split; try done; try lia.
  - intros qid q E. destruct (H3 qid q E). split; [lia|done].
  - intros pid t E. destruct (H8 pid t E) as ((? & ? & ?) & ? & ?). split; [|done]. split; [lia|done].
Qed.

Lemma timed_new_inv ps : (forall pid p, ps !! pid = Some p -> clean p) -> timed_inv 0 (timed_new ps).
Proof.
  intros Hps. split; cbn; try done; try lia.
  - constructor.
  - intros w [H|(? & ? & ? & H & _)]; cbn in H; [by apply elem_of_nil in H|done].
  - intros pid p _. apply Hps.
  - intros o H. by apply elem_of_nil in H.
Qed.

(** ** Changes to processes and queues only *)
Lemma inv_frame n s qs ps : timed_inv n s -> mild (t_procs s) ps ->
  (forall qid q, qs !! qid = Some q -> 0 <= wait_generation q <= n /\ NoDup (map fst (waiters q))) ->
  (forall pid t q, t_tasks s !! pid = Some t -> t_queues s !! r_queue (tt_request t) = Some q -> exists q', qs !! r_queue (tt_request t) = Some q' /\
     (is_blocked ps pid = true -> (pid, r_generation (tt_request t)) ∈ waiters q -> (pid, r_generation (tt_request t)) ∈ waiters q')) ->
  timed_inv n (with_queues qs (with_tprocs ps s)).
Proof.
  intros [H1 H2 H3 H4 H5 H6 H7 H8 H9 H10 H11] Hm Hq Ht. split; cbn; try done.
  - intros cpu todo woke w t Hd Hw Et Er Ea. destruct (is_blocked ps (tw_pid w)) eqn:Eb; [|done]. apply (mild_blocked _ _ _ Hm) in Eb. by rewrite (H7 cpu todo woke w t) in Eb.
  - intros pid t E. destruct (H8 pid t E) as (Hr & [q Eq] & p & Ep & Hok). split; [done|]. split; [destruct (Ht pid t q E Eq) as (q' & -> & _); eauto|].
    destruct (mild_lookup_old _ _ _ _ Hm Ep) as (p' & Ep' & Hp). exists p'. split; [done|]. by eapply pcb_ok_impl.
  - intros pid p' E Ep'. destruct (mild_lookup _ _ _ _ Hm Ep') as (p & Ep & Ema & Eac & _). unfold clean. rewrite Ema, Eac. by apply (H9 pid).
  - intros pid t E Ea Hb. destruct (H10 pid t E Ea (mild_blocked _ _ _ Hm Hb)) as [(q & Eq & Hin) Hin2]. split.
    + destruct (Ht pid t q E Eq) as (q' & Eq' & Hk). exists q'. split; [done|]. by apply Hk.
    + intros seq d Es Ed. destruct (Hin2 seq d Es Ed) as (Hw & p & Ep & Eac). split; [done|]. destruct (mild_lookup_old _ _ _ _ Hm Ep) as (p' & Ep' & _ & Eac' & _). exists p'. split; [done|]. cbn in *. congruence.
Qed.

Lemma inv_procs n s ps : timed_inv n s -> mild (t_procs s) ps -> timed_inv n (with_tprocs ps s).
Proof.
  intros Hi Hm. assert (E : with_tprocs ps s = with_queues (t_queues s) (with_tprocs ps s)) by done. rewrite E. apply inv_frame; [done|done|apply (ti_queue _ _ Hi)|].
  intros pid t q _ Eq. exists q. by split.
Qed.

Lemma inv_queues n s qs : timed_inv n s ->
  (forall qid q, qs !! qid = Some q -> 0 <= wait_generation q <= n /\ NoDup (map fst (waiters q))) ->
  (forall pid t q, t_tasks s !! pid = Some t -> t_queues s !! r_queue (tt_request t) = Some q -> exists q', qs !! r_queue (tt_request t) = Some q' /\
     ((pid, r_generation (tt_request t)) ∈ waiters q -> (pid, r_generation (tt_request t)) ∈ waiters q')) ->
  timed_inv n (with_queues qs s).
Proof.
  intros Hi Hq Ht. assert (E : with_queues qs s = with_queues qs (with_tprocs (t_procs s) s)) by (by destruct s). rewrite E. apply inv_frame; [done|reflexivity|done|].
  intros pid t q Et Eq. destruct (Ht pid t q Et Eq) as (q' & ? & ?). exists q'. by split.
Qed.

(** ** Changes to the timer table's bookkeeping only *)
Lemma req_ok_mono n now next next' r : next <= next' -> req_ok n now next r -> req_ok n now next' r.
Proof. intros Hn (? & ? & H). split; [done|]. split; [done|]. repeat case_match; try done. destruct H. split; [done|lia]. Qed.

Lemma inv_timers n s tm : timed_inv n s -> timed tm = timed (timers s) -> next_wait_seq (timers s) <= next_wait_seq tm <= n + 1 -> timed_inv n (with_timers tm s).
Proof.
  intros [H1 H2 H3 H4 H5 H6 H7 H8 H9 H10 H11] Et En. split; cbn; rewrite ?Et; try done; try lia.
  - intros w Hw. destruct (H5 w) as [? ?]; [|split; [lia|done]]. destruct Hw as [Hw|Hw]; [left; cbn in Hw; congruence|by right].
  - intros pid t E. destruct (H8 pid t E) as (Hr & ?). split; [|done]. eapply req_ok_mono; [|done]. lia.
  - intros pid t E Ea Hb. destruct (H10 pid t E Ea Hb) as [? Hin]. split; [done|]. cbn. by rewrite Et.
  - intros o Ho. specialize (H11 o Ho). destruct o; cbn in *; [lia|]. destruct H11 as (? & ? & ? & Hq). repeat (split; [done|]). intros q Eq. destruct (Hq q Eq). split; [lia|done].
Qed.
