(* ===== verification/TimedEvents.v ===== *)
(** Every event keeps the invariant of timed waits, and none aborts. *)

From Stdlib Require Import ZArith Lia.
From stdpp Require Import base list list_numbers numbers gmap.
From S2P Require Import Prelude Machine WaitQueue WaitFacts Timed TimerScan TimedInv.

(** * Timer interrupts *)
Definition with_drains (ds : gmap Z Drain) (tm : Timers) (s : TimedSystem) : TimedSystem :=
  mkTimedSystem (t_queues s) tm (t_procs s) (t_tasks s) ds (ticks s) (t_log s).

Lemma inv_drains n s ds tm : timed_inv n s -> next_wait_seq tm = next_wait_seq (timers s) -> NoDup (map tw_pid (timed tm)) ->
  (forall w, w ∈ timed tm -> w ∈ timed (timers s)) ->
  (forall w pid t, w ∈ timed (timers s) -> tw_pid w = pid -> t_tasks s !! pid = Some t -> r_seq (tt_request t) = Some (tw_seq w) -> tt_at t = Asleep ->
     is_blocked (t_procs s) pid = true -> w ∈ timed tm) ->
  (forall cpu d, ds !! cpu = Some d -> drains s !! cpu = Some d \/
     match d with
     | Scan now => now <= ticks s
     | Waking todo woke => (forall w, w ∈ todo -> pending s w /\ deadline_tick w <= ticks s) /\
         forall w, w ∈ woke -> pending s w /\ forall t, t_tasks s !! tw_pid w = Some t -> r_seq (tt_request t) = Some (tw_seq w) -> tt_at t = Asleep ->
           is_blocked (t_procs s) (tw_pid w) = false
     end) ->
  timed_inv n (with_drains ds tm s).
Proof.
  intros [H1 H2 H3 H4 H5 H6 H7 H8 H9 H10 H11] En Hnd Hsub Hkeep Hd. split; cbn; rewrite ?En; try done.
  - intros w Hw. apply H5. destruct Hw as [Hw|(cpu & todo & woke & E & Hw)]; cbn in *; [left; by apply Hsub|].
    destruct (Hd cpu _ E) as [E'|[Ht Hk]]; [right; by exists cpu, todo, woke|]. destruct Hw as [Hw|Hw]; [by apply Ht|by apply Hk].
  - intros cpu d E. destruct (Hd cpu d E) as [E'|E']; [by apply (H6 cpu)|]. destruct d; [done|]. intros w Hw. by apply E'.
  - intros cpu todo woke w t E Hw. destruct (Hd cpu _ E) as [E'|[_ E']]; [by apply (H7 cpu todo woke)|]. by apply E'.
  - intros pid t E Ea Hb. destruct (H10 pid t E Ea Hb) as [? Hin]. split; [done|]. intros seq d Es Ed. destruct (Hin seq d Es Ed) as [Hw ?]. split; [|done]. by eapply Hkeep.
  - intros o Ho. specialize (H11 o Ho). destruct o; cbn in *; by rewrite En.
Qed.

Lemma hits_task n s w : timed_inv n s -> pending s w -> hits w (t_procs s) = true -> exists t p, t_tasks s !! tw_pid w = Some t /\ t_procs s !! tw_pid w = Some p /\
  r_seq (tt_request t) = Some (tw_seq w) /\ active_wait_seq p = tw_seq w /\ ~ fired (t_log s) (tw_pid w) (tt_request t) /\ match tt_at t with Asleep | DisarmTimer | DisarmReclaim | DisarmPcb => True | _ => False end.
Proof.
  intros Hi Hp. unfold hits, decide_wq_timeout. destruct (t_procs s !! tw_pid w) as [p|] eqn:Ep; [|done]. intros [Ha%Z.eqb_eq _]%andb_true_iff.
  destruct (ti_pending _ _ Hi w Hp) as [Hseq _]. destruct (t_tasks s !! tw_pid w) as [t|] eqn:Et; [|destruct (ti_idle _ _ Hi _ _ Et Ep); lia].
  destruct (ti_task _ _ Hi _ _ Et) as (_ & _ & p' & Ep' & Hok). rewrite Ep in Ep'. injection Ep' as <-. exists t, p. split; [done|]. split; [done|].
  unfold pcb_ok, clean in Hok. destruct (tt_at t) as [| | | | | | | | | |[]| |[]]; try (exfalso; lia || tauto); destruct Hok as [_ [?|[Hr Hf]]]; try lia; rewrite Hr, Ha; done.
Qed.

Definition with_fired (ps : Procs) (L : list TimedObs) (s : TimedSystem) : TimedSystem :=
  mkTimedSystem (t_queues s) (timers s) ps (t_tasks s) (drains s) (ticks s) (t_log s ++ L).

Lemma fired_app L pid seq pid' r : fired (L ++ [Fired pid seq]) pid' r <-> fired L pid' r \/ (pid' = pid /\ r_seq r = Some seq).
Proof.
  unfold fired. split.
  - intros (q & Eq & [H|H%list_elem_of_singleton]%elem_of_app); [left; eauto|]. injection H as -> ->. by right.
  - intros [(q & Eq & H)|[-> Eq]]; eexists; (split; [done|]); apply elem_of_app; [by left|right]. by apply list_elem_of_singleton.
Qed.

Lemma inv_fire n s w : timed_inv n s -> pending s w -> deadline_tick w <= ticks s -> hits w (t_procs s) = true ->
  timed_inv n (with_fired (alter (expire (tw_generation w)) (tw_pid w) (t_procs s)) [Fired (tw_pid w) (tw_seq w)] s).
Proof.
  intros Hi Hp Hdue Hh. destruct (hits_task n s w Hi Hp Hh) as (t0 & p0 & Et0 & Ep0 & Er0 & Ea0 & Hnf & Hat).
  destruct (ti_pending _ _ Hi w Hp) as [Hseq Hreq]. destruct (Hreq t0 Et0 Er0) as (_ & Ed0 & Eg0).
  assert (Hne : forall x, x <> tw_pid w -> alter (expire (tw_generation w)) (tw_pid w) (t_procs s) !! x = t_procs s !! x) by (intros; by apply lookup_alter_ne).
  assert (Hnb : is_blocked (alter (expire (tw_generation w)) (tw_pid w) (t_procs s)) (tw_pid w) = false) by (unfold is_blocked; by rewrite lookup_alter_eq, Ep0).
  assert (Hb : forall x, is_blocked (alter (expire (tw_generation w)) (tw_pid w) (t_procs s)) x = true -> x <> tw_pid w /\ is_blocked (t_procs s) x = true).
  { intros x Hx. destruct (decide (x = tw_pid w)) as [->|Hx']; [congruence|]. split; [done|]. unfold is_blocked in *. by rewrite Hne in Hx. }
  destruct Hi as [H1 H2 H3 H4 H5 H6 H7 H8 H9 H10 H11]. split; cbn; try done.
  - intros cpu todo woke v t Hd Hv Et Er Ea. destruct (is_blocked (alter _ _ _) (tw_pid v)) eqn:Eb; [|done]. destruct (Hb _ Eb) as [_ Hb']. by rewrite (H7 cpu todo woke v t) in Hb'.
  - intros pid t E. destruct (H8 pid t E) as (Hr & Hq & p & Ep & Hok). split; [done|]. split; [done|]. destruct (decide (pid = tw_pid w)) as [->|Hx].
    + rewrite Et0 in E. injection E as <-. eexists. split; [by rewrite lookup_alter_eq, Ep0|]. unfold pcb_ok. destruct (tt_at t0); try done;
        (split; [right; split; [by rewrite Eg0|]; split; [apply fired_app; by right|by exists (deadline_tick w)]|by left]).
    + exists p. rewrite Hne by done. split; [done|]. eapply pcb_ok_impl; [|done|by split|done]. rewrite fired_app. naive_solver.
  - intros pid p E Ep. destruct (decide (pid = tw_pid w)) as [->|Hx]; [congruence|]. rewrite Hne in Ep by done. by apply (H9 pid).
  - intros pid t E Ea Hbl. destruct (Hb _ Hbl) as [Hx Hb']. destruct (H10 pid t E Ea Hb') as [? Hin]. split; [done|]. cbn. intros seq d Es Ed. rewrite Hne by done. by apply Hin.
  - intros o [Ho|Ho%list_elem_of_singleton]%elem_of_app; [|subst o; cbn; lia]. specialize (H11 o Ho). destruct o as [|pid timeout started seq res now]; [done|]. cbn in *.
    destruct H11 as (Hret & ? & ? & Hq). split; [|done]. unfold returned_ok in *. destruct res as [[]| |]; try done.
    + intros q Eq [Hx|Hx%list_elem_of_singleton]%elem_of_app; [by apply (Hret q)|]. injection Hx as -> ->. destruct (Hq _ Eq) as [_ Hno]. by apply (Hno t0).
    + destruct Hret as [?|(ns & q & ? & ? & ? & ?)]; [by left|right]. exists ns, q. split; [done|]. split; [done|]. split; [|done]. apply elem_of_app. by left.
Qed.

Lemma pending_todo s cpu todo woke w : drains s !! cpu = Some (Waking todo woke) -> w ∈ todo \/ w ∈ woke -> pending s w.
Proof. intros E Hw. right. by exists cpu, todo, woke. Qed.

(** A timer the interrupt is done with belongs to nobody who sleeps. *)
Lemma missed_awake n s w t : timed_inv n s -> hits w (t_procs s) = false -> t_tasks s !! tw_pid w = Some t -> r_seq (tt_request t) = Some (tw_seq w) -> tt_at t = Asleep ->
  is_blocked (t_procs s) (tw_pid w) = false.
Proof.
  intros Hi Hh Et Er Ea. destruct (is_blocked (t_procs s) (tw_pid w)) eqn:Eb; [|done]. destruct (ti_sleep _ _ Hi _ _ Et Ea Eb) as [_ Hin].
  destruct (ti_task _ _ Hi _ _ Et) as ((_ & _ & Hr) & _). rewrite Er in Hr. destruct (r_timeout (tt_request t)), (r_deadline (tt_request t)) as [d|] eqn:Ed; try done.
  destruct (Hin _ _ Er eq_refl) as (_ & p & Ep & Eac). unfold hits, decide_wq_timeout in Hh. rewrite Ep, Eac, Z.eqb_refl in Hh. unfold is_blocked in Eb. rewrite Ep in Eb. by rewrite Eb in Hh.
Qed.

Lemma drain_scan_inv n s cpu table_free pcb_free now : timed_inv n s -> drains s !! cpu = Some (Scan now) -> timed_inv n (drain_step cpu table_free pcb_free s).
Proof.
  intros Hi Ed. unfold drain_step. rewrite Ed.
  pose proof (ti_drains _ _ Hi _ _ Ed) as Hnow. cbn in Hnow. destruct (decide (timed (timers s) = [])) as [E|E].
  { unfold copy_expired. rewrite E. apply (inv_drains n s _ (timers s)); try done; [by apply (ti_timers _ _ Hi)|]. intros c d Hd. left. by apply lookup_delete_Some in Hd as [_ ?]. }
  destruct (copy_expired_spec now (timers s) E) as (k & e & -> & He & _). eapply inv_drains; try done; [by apply (ti_timers _ _ Hi)|].
  intros c d Hd. destruct (decide (c = cpu)) as [->|]; [|left; by rewrite lookup_insert_ne in Hd]. rewrite lookup_insert_eq in Hd. injection Hd as <-. right.
  split; [|by intros w ?%elem_of_nil]. intros w Hw. rewrite He in Hw. apply expired_elem in Hw as [Hw ?]. split; [left|lia].
  rewrite <- (rotated_perm (scan_cursor (timers s) mod zlen (timed (timers s)))), <- (take_drop k (rotated _ _)). apply elem_of_app. by left.
Qed.

Lemma drain_remove_inv n s cpu table_free pcb_free woke : timed_inv n s -> drains s !! cpu = Some (Waking [] woke) -> timed_inv n (drain_step cpu table_free pcb_free s).
Proof.
  intros Hi Ed. unfold drain_step. rewrite Ed.
  assert (Hsub : forall w, w ∈ timed (remove_done woke (timers s)).2 <-> w ∈ timed (timers s) /\ is_done woke w = false).
  { intros w. unfold remove_done. destruct woke as [|v woke]; [cbn; tauto|]. cbn. rewrite !list_elem_of_In, filter_In, negb_true_iff. done. }
  eapply inv_drains; try done.
  + unfold remove_done. by destruct woke.
  + unfold remove_done. destruct woke as [|v woke]; [apply (ti_timers _ _ Hi)|]. by apply NoDup_map_filter, (ti_timers _ _ Hi).
  + intros w Hw. by apply Hsub in Hw as [? _].
  + intros w pid t Hw <- Et Er Ea Eb. apply Hsub. split; [done|]. apply not_true_iff_false. intros (v & Hv & [Ev1%Z.eqb_eq Ev2%Z.eqb_eq]%andb_true_iff)%existsb_exists.
    apply list_elem_of_In in Hv. rewrite <- Ev1, <- Ev2 in *. rewrite (ti_woke _ _ Hi cpu [] woke v t) in Eb; done.
  + intros c d Hd. left. by apply lookup_delete_Some in Hd as [_ ?].
Qed.

(** The interrupt moves on from a timer, with it or without it. *)
Lemma inv_waking n s cpu w todo woke completed : timed_inv n s -> drains s !! cpu = Some (Waking (w :: todo) woke) ->
  (completed = true -> forall t, t_tasks s !! tw_pid w = Some t -> r_seq (tt_request t) = Some (tw_seq w) -> tt_at t = Asleep -> is_blocked (t_procs s) (tw_pid w) = false) ->
  timed_inv n (with_drains (<[cpu := Waking todo (if completed then woke ++ [w] else woke)]> (drains s)) (timers s) s).
Proof.
  intros Hi Ed Hdone. pose proof (ti_drains _ _ Hi _ _ Ed) as Hdue. cbn in Hdue. eapply inv_drains; try done; [apply (ti_timers _ _ Hi)|].
  intros c d Hd. destruct (decide (c = cpu)) as [->|]; [|left; by rewrite lookup_insert_ne in Hd]. rewrite lookup_insert_eq in Hd. injection Hd as <-. right. split.
  - intros v Hv. split; [eapply pending_todo; [done|left; by right]|]. apply Hdue. by right.
  - intros v Hv. assert (Hv' : v ∈ woke \/ (completed = true /\ v = w)).
    { destruct completed; [|by left]. apply elem_of_app in Hv as [?|?%list_elem_of_singleton]; [by left|by right]. }
    destruct Hv' as [Hv'|[Hd ->]]; [|split; [eapply pending_todo; [done|left; by left]|by apply Hdone]].
    split; [eapply pending_todo; [done|by right]|]. intros t. by apply (ti_woke _ _ Hi cpu (w :: todo) woke v t).
Qed.

Lemma drain_wake_inv n s cpu table_free pcb_free w todo woke : timed_inv n s -> drains s !! cpu = Some (Waking (w :: todo) woke) ->
  timed_inv n (drain_step cpu table_free pcb_free s).
Proof.
  intros Hi Ed. pose proof (pending_todo _ _ _ _ w Ed (or_introl (list_elem_of_here _ _))) as Hw. pose proof (ti_drains _ _ Hi _ _ Ed w (list_elem_of_here _ _)) as Hdue.
  pose proof (inv_waking n s cpu w todo woke false Hi Ed ltac:(done)) as Hdefer. unfold drain_step. rewrite Ed. unfold wq_timeout_wake_by_seq.
  destruct table_free; cbn [negb andb]; [|by rewrite app_nil_r]. destruct (t_procs s !! tw_pid w) as [p|] eqn:Ep.
  2: { unfold hits. rewrite Ep, andb_false_r, app_nil_r. refine (inv_waking n s cpu w todo woke true Hi Ed _). intros _ t Et.
       destruct (ti_task _ _ Hi _ _ Et) as (_ & _ & p & Ep' & _). congruence. }
  destruct pcb_free; cbn [negb andb]; [|by rewrite app_nil_r].
  assert (Eh : decide_wq_timeout (active_wait_seq p) (tw_seq w) (bool_decide (p_state p = Blocked)) = hits w (t_procs s)) by (unfold hits; by rewrite Ep).
  rewrite Eh. destruct (hits w (t_procs s)) eqn:Ehit.
  - refine (inv_waking n (with_fired (alter (expire (tw_generation w)) (tw_pid w) (t_procs s)) [Fired (tw_pid w) (tw_seq w)] s) cpu w todo woke true _ Ed _); [by apply inv_fire|].
    intros _ t _ _ _. unfold is_blocked. cbn. by rewrite lookup_alter_eq, Ep.
  - rewrite app_nil_r. refine (inv_waking n s cpu w todo woke true Hi Ed _). intros _ t. by eapply missed_awake.
Qed.

Lemma drain_step_inv n s cpu table_free pcb_free : timed_inv n s -> timed_inv n (drain_step cpu table_free pcb_free s).
Proof.
  intros Hi. destruct (drains s !! cpu) as [[now|[|w todo] woke]|] eqn:Ed; [by eapply drain_scan_inv|by eapply drain_remove_inv|by eapply drain_wake_inv|].
  unfold drain_step. rewrite Ed. eapply (inv_drains n s _ (timers s)); try done; [apply (ti_timers _ _ Hi)|]. intros c d Hd.
  destruct (decide (c = cpu)) as [->|]; [|left; by rewrite lookup_insert_ne in Hd]. rewrite lookup_insert_eq in Hd. injection Hd as <-. right. done.
Qed.

(** * A step of one wait *)

(** What a step may do to the queue and to the table: entries and timers of others stay. *)
Record queue_step (pid : Z) (q q' : WaitQueue) : Prop := {
  qs_generation : wait_generation q' = wait_generation q;
  qs_nodup : NoDup (map fst (waiters q')) ;
  qs_others : forall x, x.1 <> pid -> x ∈ waiters q -> x ∈ waiters q';
}.

Definition own_timer (pid : Z) (r : Request) (w : TimedWaiter) : Prop :=
  tw_pid w = pid /\ r_seq r = Some (tw_seq w) /\ r_deadline r = Some (deadline_tick w) /\ r_generation r = tw_generation w.

Record timer_step (pid : Z) (r : Request) (publishes : bool) (tm tm' : Timers) : Prop := {
  tms_next : next_wait_seq tm' = next_wait_seq tm;
  tms_nodup : NoDup (map tw_pid (timed tm'));
  tms_sub : forall w, w ∈ timed tm' -> w ∈ timed tm \/ (publishes = true /\ own_timer pid r w);
  tms_others : forall w, tw_pid w <> pid -> w ∈ timed tm -> w ∈ timed tm';
}.

Lemma inv_stay n s pid t q q' tm' ps' a' : timed_inv n s -> t_tasks s !! pid = Some t -> let r := tt_request t in t_queues s !! r_queue r = Some q ->
  queue_step pid q q' -> timer_step pid r (armed a') (timers s) tm' -> (forall x, x <> pid -> ps' !! x = t_procs s !! x) ->
  (armed (tt_at t) = true -> armed a' = true) ->
  (exists p', ps' !! pid = Some p' /\ pcb_ok (fired (t_log s) pid r) (due (ticks s) r) r a' p') ->
  (a' = Asleep -> is_blocked ps' pid = true ->
     (armed (tt_at t) = false \/ (tt_at t = Asleep /\ is_blocked (t_procs s) pid = true)) /\ (pid, r_generation r) ∈ waiters q' /\
     forall seq d, r_seq r = Some seq -> r_deadline r = Some d ->
       mkTimedWaiter pid d seq (r_generation r) ∈ timed tm' /\ exists p, ps' !! pid = Some p /\ active_wait_seq p = seq) ->
  timed_inv n (mkTimedSystem (<[r_queue r := q']> (t_queues s)) tm' ps' (<[pid := mkTimedTask r a']> (t_tasks s)) (drains s) (ticks s) (t_log s)).
Proof.
  intros Hi Et r Eq [Hq1 Hq2 Hq3] [Htm1 Htm2 Htm3 Htm4] Hps Harm Hpcb Hsleep. destruct (ti_task _ _ Hi _ _ Et) as (Hr & _).
  pose proof Hi as [H1 H2 H3 H4 H5 H6 H7 H8 H9 H10 H11].
  assert (Hb : forall x, x <> pid -> is_blocked ps' x = is_blocked (t_procs s) x) by (intros x Hx; unfold is_blocked; by rewrite Hps).
  split; cbn; rewrite ?Htm1; try done.
  - intros qid q0 E. destruct (decide (qid = r_queue r)) as [->|]; [|rewrite lookup_insert_ne in E by done; by apply (H3 qid)].
    rewrite lookup_insert_eq in E. injection E as <-. destruct (H3 _ _ Eq). rewrite Hq1. done.
  - intros w Hw. assert (Hw' : pending s w \/ (armed a' = true /\ own_timer pid r w)).
    { destruct Hw as [Hw|Hw]; [destruct (Htm3 w Hw); [left; by left|by right]|left; by right]. }
    destruct Hw' as [Hw'|(Ha & Hp & Hs & Hd & Hg)].
    + destruct (H5 w Hw') as [? Ht]. split; [done|]. intros t0 E Es. destruct (decide (tw_pid w = pid)) as [Ep|]; [|rewrite lookup_insert_ne in E by done; by apply Ht].
      rewrite Ep, lookup_insert_eq in E. injection E as <-. cbn in *. rewrite Ep in Ht. destruct (Ht t Et Es) as (? & ? & ?). split; [by apply Harm|done].
    + split; [|intros t0 E Es; rewrite Hp, lookup_insert_eq in E; by injection E as <-]. destruct Hr as (_ & _ & Hr). fold r in Hr. rewrite Hs, Hd in Hr. destruct (r_timeout r); [|done]. lia.
  - intros cpu todo woke w t0 Hd Hw E Es Ea. destruct (decide (tw_pid w = pid)) as [Ep|Hx]; [|rewrite lookup_insert_ne in E by done; rewrite Hb by done; by apply (H7 cpu todo woke w t0)].
    rewrite Ep in *. rewrite lookup_insert_eq in E. injection E as <-. cbn in *. destruct (is_blocked ps' pid) eqn:Eb; [|done]. destruct (Hsleep Ea eq_refl) as [[Hn|[Ea' Eb']] _].
    + destruct (H5 w) as [_ Ht]; [right; exists cpu, todo, woke; by auto|]. rewrite Ep in Ht. destruct (Ht t Et Es). congruence.
    + rewrite <- Ep in Et, Eb'. by rewrite (H7 cpu todo woke w t) in Eb'.
  - intros pid0 t0 E. destruct (decide (pid0 = pid)) as [->|Hx].
    + rewrite lookup_insert_eq in E. injection E as <-. cbn. split; [done|]. split; [|done]. rewrite lookup_insert_eq. eauto.
    + rewrite lookup_insert_ne in E by done. destruct (H8 pid0 t0 E) as (? & Hqs & p & Ep & Hok). split; [done|]. split; [|exists p; by rewrite Hps].
      destruct (decide (r_queue (tt_request t0) = r_queue r)) as [->|]; [rewrite lookup_insert_eq; eauto|by rewrite lookup_insert_ne].
  - intros pid0 p E Ep. apply lookup_insert_None in E as [E Hx]. rewrite Hps in Ep by done. by apply (H9 pid0).
  - intros pid0 t0 E Ea Hbl. destruct (decide (pid0 = pid)) as [->|Hx].
    + rewrite lookup_insert_eq in E. injection E as <-. cbn in *. destruct (Hsleep Ea Hbl) as (_ & Hin & Hin2). split; [|done]. exists q'. cbn. by rewrite lookup_insert_eq.
    + rewrite lookup_insert_ne in E by done. rewrite Hb in Hbl by done. destruct (H10 pid0 t0 E Ea Hbl) as [(q0 & Eq0 & Hin) Hin2]. split; cbn.
      * destruct (decide (r_queue (tt_request t0) = r_queue r)) as [Er|]; [|exists q0; by rewrite lookup_insert_ne].
        rewrite Er in *. rewrite lookup_insert_eq. exists q'. split; [done|]. apply Hq3; [done|]. congruence.
      * intros seq d Es Ed. rewrite Hps by done. destruct (Hin2 seq d Es Ed). split; [|done]. by apply Htm4.
  - intros o Ho. specialize (H11 o Ho). destruct o as [|pid0 timeout started seq res now]; cbn in *; rewrite Htm1; [done|]. destruct H11 as (? & ? & ? & Hq). repeat (split; [done|]).
    intros q0 Eq0. destruct (Hq q0 Eq0) as [? Ht]. split; [done|]. intros t0 E. destruct (decide (pid0 = pid)) as [->|]; [|rewrite lookup_insert_ne in E by done; by apply Ht].
    rewrite lookup_insert_eq in E. injection E as <-. by apply (Ht t).
Qed.

(** A wait that returns leaves a clean process behind. *)
Lemma inv_return n s pid t q q' tm' res : timed_inv n s -> t_tasks s !! pid = Some t -> let r := tt_request t in t_queues s !! r_queue r = Some q ->
  queue_step pid q q' -> timed tm' = timed (timers s) -> next_wait_seq tm' = next_wait_seq (timers s) ->
  (forall p, t_procs s !! pid = Some p -> clean p) -> returned_ok (t_log s) pid (r_timeout r) (r_started r) (r_seq r) res (ticks s) ->
  timed_inv n (mkTimedSystem (<[r_queue r := q']> (t_queues s)) tm' (t_procs s) (delete pid (t_tasks s)) (drains s) (ticks s)
    (t_log s ++ [Returned pid (r_timeout r) (r_started r) (r_seq r) res (ticks s)])).
Proof.
  intros Hi Et r Eq [Hq1 Hq2 Hq3] Ht1 Ht2 Hclean Hret. destruct (ti_task _ _ Hi _ _ Et) as ((Hg & Hst & Hreq) & _). fold r in Hg, Hst, Hreq.
  pose proof Hi as [H1 H2 H3 H4 H5 H6 H7 H8 H9 H10 H11].
  assert (Hlog : forall p seq, Fired p seq ∈ t_log s ++ [Returned pid (r_timeout r) (r_started r) (r_seq r) res (ticks s)] <-> Fired p seq ∈ t_log s).
  { intros p seq. rewrite elem_of_app, list_elem_of_singleton. naive_solver. }
  assert (Hret' : forall pid0 to st sq rs nw, returned_ok (t_log s) pid0 to st sq rs nw ->
    returned_ok (t_log s ++ [Returned pid (r_timeout r) (r_started r) (r_seq r) res (ticks s)]) pid0 to st sq rs nw).
  { intros pid0 to st sq rs nw. unfold returned_ok. destruct rs as [[]| |]; try done; [|]; setoid_rewrite Hlog; done. }
  split; cbn; rewrite ?Ht1, ?Ht2; try done.
  - intros qid q0 E. destruct (decide (qid = r_queue r)) as [->|]; [|rewrite lookup_insert_ne in E by done; by apply (H3 qid)].
    rewrite lookup_insert_eq in E. injection E as <-. destruct (H3 _ _ Eq). by rewrite Hq1.
  - intros w Hw. destruct (H5 w) as [? Ht]; [destruct Hw as [Hw|Hw]; [left; cbn in Hw; congruence|by right]|]. split; [done|]. intros t0 [_ E]%lookup_delete_Some. by apply Ht.
  - intros cpu todo woke w t0 Hd Hw [_ E]%lookup_delete_Some. by apply (H7 cpu todo woke w t0).
  - intros pid0 t0 [Hx E]%lookup_delete_Some. destruct (H8 pid0 t0 E) as (? & Hqs & p & Ep & Hok). split; [done|]. split.
    + destruct (decide (r_queue (tt_request t0) = r_queue r)) as [->|]; [rewrite lookup_insert_eq; eauto|by rewrite lookup_insert_ne].
    + exists p. split; [done|]. eapply pcb_ok_impl; [|done|by split|done]. unfold fired. by setoid_rewrite Hlog.
  - intros pid0 p E Ep. destruct (decide (pid0 = pid)) as [->|]; [by apply Hclean|]. rewrite lookup_delete_ne in E by done. by apply (H9 pid0).
  - intros pid0 t0 [Hx E]%lookup_delete_Some Ea Hbl. destruct (H10 pid0 t0 E Ea Hbl) as [(q0 & Eq0 & Hin) Hin2]. split; cbn; [|by rewrite Ht1].
    destruct (decide (r_queue (tt_request t0) = r_queue r)) as [Er|]; [|exists q0; by rewrite lookup_insert_ne].
    rewrite Er in *. rewrite lookup_insert_eq. exists q'. split; [done|]. apply Hq3; [done|]. congruence.
  - intros o [Ho|Ho%list_elem_of_singleton]%elem_of_app.
    + specialize (H11 o Ho). destruct o as [|pid0 timeout started seq res0 now]; cbn in *; rewrite Ht2; [done|]. destruct H11 as (? & ? & ? & Hq). split; [by apply Hret'|]. do 2 (split; [done|]).
      intros q0 Eq0. destruct (Hq q0 Eq0) as [? Ht]. split; [done|]. intros t0 [_ E]%lookup_delete_Some. by apply Ht.
    + subst o. cbn. split; [by apply Hret'|]. split; [done|]. split; [lia|]. intros q0 Eq0. rewrite Ht2. split; [|intros t0 [? _]%lookup_delete_Some; done].
      rewrite Eq0 in Hreq. destruct (r_timeout r), (r_deadline r); try done. lia.
Qed.

(** * The steps *)
Lemma queue_step_same pid q q' : NoDup (map fst (waiters q)) -> waiters q' = waiters q -> wait_generation q' = wait_generation q -> queue_step pid q q'.
Proof. intros Hnd E Eg. split; [done|by rewrite E|]. intros x _. by rewrite E. Qed.

Lemma take_empty_generation q : wait_generation (take_empty_capacity q) = wait_generation q.
Proof. unfold take_empty_capacity. by destruct (waiters q). Qed.

Lemma queue_step_filter pid g q : NoDup (map fst (waiters q)) -> queue_step pid q (remove_waiter_exact pid g q).
Proof.
  intros Hnd. split; [done|by apply NoDup_map_filter|]. intros x Hx Hin. apply list_elem_of_In, filter_In. split; [by apply list_elem_of_In|]. by rewrite (proj2 (Z.eqb_neq _ _) Hx).
Qed.

Lemma timer_step_same pid r b tm tm' : NoDup (map tw_pid (timed tm)) -> timed tm' = timed tm -> next_wait_seq tm' = next_wait_seq tm -> timer_step pid r b tm tm'.
Proof. intros Hnd E En. split; [done|by rewrite E| |]; intros w; rewrite E; [by left|done]. Qed.

Lemma timer_step_cancel pid r b seq tm : NoDup (map tw_pid (timed tm)) -> timer_step pid r b tm (cancel_timed_wait_exact pid seq tm).
Proof.
  intros Hnd. split; [done|by apply NoDup_map_filter| |]; intros w; cbn; rewrite !list_elem_of_In, filter_In; [by intros [? _]; left|].
  intros Hx Hw. split; [done|]. by rewrite (proj2 (Z.eqb_neq _ _) Hx).
Qed.

(** An attempt publishes nothing, or the whole wait. *)
Definition publishes (pid : Z) (r : Request) (p : Process) (q q' : WaitQueue) (tm tm' : Timers) (ps ps' : Procs) : Prop :=
  queue_step pid q q' /\ timer_step pid r true tm tm' /\ (pid, r_generation r) ∈ waiters q' /\
  ps' !! pid = Some (mkPcb Blocked (p_generation p) (p_signal p) (p_fatal p) 0 (default (active_wait_seq p) (r_seq r))) /\
  (forall x, x <> pid -> ps' !! x = ps !! x) /\
  forall seq d, r_seq r = Some seq -> r_deadline r = Some d -> mkTimedWaiter pid d seq (r_generation r) ∈ timed tm'.

Lemma arm_attempt_spec check pid r qcap tcap q tm ps p : NoDup (map fst (waiters q)) -> NoDup (map tw_pid (timed tm)) -> ps !! pid = Some p ->
  (r_deadline r = None <-> r_seq r = None) -> exists attempt q' tm' ps', arm_attempt check pid r qcap tcap q tm ps = Some (attempt, q', tm', ps') /\
  match attempt with
  | Complete None => publishes pid r p q q' tm tm' ps ps'
  | _ => waiters q' = waiters q /\ wait_generation q' = wait_generation q /\ timed tm' = timed tm /\ next_wait_seq tm' = next_wait_seq tm /\ ps' = ps /\
      attempt <> Complete (Some (Outcome TimedOut)) /\ attempt <> Complete (Some (Outcome Woken))
  end.
Proof.
  intros Hnd Hndt Ep Hds. unfold arm_attempt.
  destruct (if queued pid q then Some q else ensure_queue_capacity_locked qcap q) as [q1|] eqn:Er.
  2: { eexists _, _, _, _. split; [done|]. cbn. by rewrite take_empty_waiters, take_empty_generation. }
  destruct (queue_room _ _ _ _ Er) as (Ew & Eg & Hroom). destruct check as [e|]; [eexists _, _, _, _; split; [done|]; cbn; by rewrite take_empty_waiters, take_empty_generation|].
  assert (Hpub : exists q', publish_entry pid (r_generation r) q1 = Some q' /\ queue_step pid q q' /\ (pid, r_generation r) ∈ waiters q').
  { destruct (publish_entry_spec pid (r_generation r) q1) as (q' & E & Eg' & Hnd' & Hoth & Hin); [by rewrite Ew|done|]. exists q'. split; [done|]. split; [|done]. split; [congruence|done|].
    intros x Hx Hw. apply Hoth; [done|]. by rewrite Ew. }
  destruct Hpub as (q' & Epub & Hqs & Hin). destruct (r_deadline r) as [d|] eqn:Ed, (r_seq r) as [seq|] eqn:Es; [|discriminate (proj2 Hds eq_refl)|discriminate (proj1 Hds eq_refl)|].
  - destruct (if has_timer pid tm then Some tm else ensure_timer_capacity_locked tcap tm) as [tm1|] eqn:Et.
    2: { eexists _, _, _, _. split; [done|]. cbn. rewrite take_empty_waiters, take_empty_generation. destruct (reclaim_timed tm) as [-> ->]. done. }
    destruct (timer_room _ _ _ _ Et) as (Ewt & Ent & Hroomt). rewrite Ep. cbn [mbind option_bind]. destruct (arm_must_abort (r_killable r) p).
    { eexists _, _, _, _. split; [done|]. cbn. rewrite take_empty_waiters, take_empty_generation. destruct (reclaim_timed tm1) as [-> ->]. done. }
    rewrite Epub. cbn [mbind option_bind]. destruct (publish_timer_spec (mkTimedWaiter pid d seq (r_generation r)) tm1) as (tm2 & -> & En & Hnd2 & Hsub & Hoth & Hown); [by rewrite Ewt|done|].
    cbn [mbind option_bind]. eexists _, _, _, _. split; [done|]. split; [done|]. split; [|split; [done|]].
    + split; [congruence|done| |]; intros w; rewrite <- Ewt; [|by apply Hoth]. intros Hw. destruct (Hsub w Hw) as [->|?]; [right|by left]. split; [done|]. by split.
    + rewrite lookup_alter_eq, Ep, Es. cbn. split; [done|]. split; [intros x Hx; by apply lookup_alter_ne|]. intros seq' d' E1 E2. congruence.
  - rewrite Ep. cbn [mbind option_bind]. destruct (arm_must_abort (r_killable r) p); [eexists _, _, _, _; split; [done|]; cbn; by rewrite take_empty_waiters, take_empty_generation|].
    rewrite Epub. cbn [mbind option_bind]. eexists _, _, _, _. split; [done|]. split; [done|]. split; [by apply timer_step_same|]. split; [done|]. rewrite lookup_alter_eq, Ep, Es. cbn. split; [done|].
    split; [intros x Hx; by apply lookup_alter_ne|done].
Qed.

Lemma req_shape n now next r : req_ok n now next r -> (r_deadline r = None <-> r_seq r = None).
Proof. intros (_ & _ & H). destruct (r_timeout r), (r_deadline r), (r_seq r); done. Qed.

Lemma due_deadline n now next r : req_ok n now next r -> due now r -> exists ns seq, r_timeout r = Some ns /\ r_seq r = Some seq /\ deadline_for (r_started r) ns <= now.
Proof.
  intros (_ & _ & H) (d & Ed & Hd). rewrite Ed in H. destruct (r_timeout r) as [ns|], (r_seq r) as [seq|]; try done. exists ns, seq. destruct H as [-> _]. done.
Qed.

Section run.
Context (n : Z) (s : TimedSystem) (pid : Z) (t : TimedTask) (q : WaitQueue) (p : Process).
Context (Hi : timed_inv n s) (Hn : n < 2 ^ 62) (Et : t_tasks s !! pid = Some t) (Eq : t_queues s !! r_queue (tt_request t) = Some q) (Ep : t_procs s !! pid = Some p).
Notation r := (tt_request t).
Context (Hok : pcb_ok (fired (t_log s) pid r) (due (ticks s) r) r (tt_at t) p) (Hr : req_ok n (ticks s) (next_wait_seq (timers s)) r).

Let Hnd : NoDup (map fst (waiters q)).
Proof. by apply (ti_queue _ _ Hi _ _ Eq). Qed.

Definition moved (q' : WaitQueue) (tm : Timers) (ps : Procs) (a : WaitAt) : TimedSystem :=
  mkTimedSystem (<[r_queue r := q']> (t_queues s)) tm ps (<[pid := mkTimedTask r a]> (t_tasks s)) (drains s) (ticks s) (t_log s).

(** A step that touches neither timers nor processes of its own *)
Lemma inv_walk q' tm' a : queue_step pid q q' -> timed tm' = timed (timers s) -> next_wait_seq tm' = next_wait_seq (timers s) -> (armed (tt_at t) = true -> armed a = true) -> a <> Asleep ->
  pcb_ok (fired (t_log s) pid r) (due (ticks s) r) r a p -> timed_inv n (moved q' tm' (t_procs s) a).
Proof.
  intros Hq E1 E2 Harm Ha Hp. refine (inv_stay n s pid t q q' tm' (t_procs s) a Hi Et Eq Hq _ _ Harm _ _); [|done|by exists p|done].
  apply timer_step_same; [apply (ti_timers _ _ Hi)|done|done].
Qed.

Lemma inv_pcb a p' ps' : (forall x, x <> pid -> ps' !! x = t_procs s !! x) -> ps' !! pid = Some p' -> armed a = true -> a <> Asleep ->
  pcb_ok (fired (t_log s) pid r) (due (ticks s) r) r a p' -> timed_inv n (moved q (timers s) ps' a).
Proof.
  intros Hps Ep' Harm Ha Hp. refine (inv_stay n s pid t q q (timers s) ps' a Hi Et Eq _ _ Hps _ _ _); [|by apply timer_step_same; [apply (ti_timers _ _ Hi)|..]|done|by exists p'|done].
  by apply queue_step_same.
Qed.

Lemma inv_leave q' tm' res : queue_step pid q q' -> timed tm' = timed (timers s) -> next_wait_seq tm' = next_wait_seq (timers s) -> clean p ->
  returned_ok (t_log s) pid (r_timeout r) (r_started r) (r_seq r) res (ticks s) ->
  timed_inv n (mkTimedSystem (<[r_queue r := q']> (t_queues s)) tm' (t_procs s) (delete pid (t_tasks s)) (drains s) (ticks s)
    (t_log s ++ [Returned pid (r_timeout r) (r_started r) (r_seq r) res (ticks s)])).
Proof. intros Hq E1 E2 Hc Hret. refine (inv_return n s pid t q q' tm' res Hi Et Eq Hq E1 E2 _ Hret). intros p0 E0. congruence. Qed.

(** Consuming the flag tells whether the timer has fired. *)
Lemma consume_flag_spec : exists ps', consume_wq_timeout pid (r_generation r) (t_procs s) = (marks_timeout (wq_timeout_marker p) (r_generation r), ps') /\
  (forall x, x <> pid -> ps' !! x = t_procs s !! x) /\ ps' !! pid = Some (with_marker 0 p).
Proof.
  unfold consume_wq_timeout. rewrite Ep. eexists. split; [done|]. split; [intros x Hx; by apply lookup_alter_ne|]. by rewrite lookup_alter_eq, Ep.
Qed.

Lemma attempt_inv al check qcap tcap : tt_at t = Attempt qcap tcap -> exists s', timed_run pid al check s = Some s' /\ timed_inv n s'.
Proof.
  intros Ea. rewrite Ea in Hok. cbn in Hok. destruct Hok as [[Hm Hact] Hnf]. unfold timed_run. rewrite Et, Eq. cbn [mbind option_bind]. unfold timed_step. rewrite Ea.
  destruct (arm_attempt_spec check pid r qcap tcap q (timers s) (t_procs s) p Hnd (ti_timers _ _ Hi) Ep (req_shape _ _ _ _ Hr)) as (attempt & q' & tm' & ps' & -> & Hatt).
  cbn [mbind option_bind]. eexists. split; [done|]. destruct attempt as [|[res|]]; cbn.
  - destruct Hatt as (Ew & Eg & E1 & E2 & -> & _). apply inv_walk; [by apply queue_step_same|done|done|by rewrite Ea|done|done].
  - destruct Hatt as (Ew & Eg & E1 & E2 & -> & Hno1 & Hno2). apply inv_leave; [by apply queue_step_same|done|done|done|]. destruct res as [[]| |]; done.
  - destruct Hatt as (Hq & Htm & Hin & Ep' & Hps & Hown). refine (inv_stay n s pid t q q' tm' ps' Asleep Hi Et Eq Hq Htm Hps _ _ _); [done| |].
    + eexists. split; [done|]. cbn. split; [left; done|]. rewrite Hact. destruct (r_seq r); [right|left]; done.
    + intros _ _. split; [left; by rewrite Ea|]. split; [done|]. intros seq d Es Ed. split; [by apply Hown|]. eexists. split; [done|]. cbn. by rewrite Es.
Qed.

Lemma asleep_inv al check : tt_at t = Asleep -> exists s', timed_run pid al check s = Some s' /\ timed_inv n s'.
Proof.
  intros Ea. unfold timed_run. rewrite Et, Eq. cbn [mbind option_bind]. unfold timed_step. rewrite Ea. cbn [mbind option_bind]. eexists. split; [done|]. cbn. rewrite Ea in Hok. destruct (resolved (r_killable r) (t_procs s) pid).
  - apply inv_walk; [by apply queue_step_same|done|done|done|done|done].
  - refine (inv_stay n s pid t q q (timers s) (t_procs s) Asleep Hi Et Eq _ _ _ _ _ _); [by apply queue_step_same|by apply timer_step_same; [apply (ti_timers _ _ Hi)|..]|done|done|by exists p|].
    intros _ Hb. split; [by right|]. destruct (ti_sleep _ _ Hi _ _ Et Ea Hb) as [(q0 & Eq0 & Hin) Hin2]. split; [congruence|done].
Qed.

Lemma disarm_inv al check : (tt_at t = DisarmTimer \/ tt_at t = DisarmReclaim \/ tt_at t = DisarmPcb) -> exists s', timed_run pid al check s = Some s' /\ timed_inv n s'.
Proof.
  intros Ha. assert (Hok' : pcb_ok (fired (t_log s) pid r) (due (ticks s) r) r DisarmPcb p) by (by destruct Ha as [Ea|[Ea|Ea]]; rewrite Ea in Hok). destruct Hok' as [Hfl Hact].
  unfold timed_run. rewrite Et, Eq. cbn [mbind option_bind]. unfold timed_step. destruct Ha as [Ea|[Ea|Ea]]; rewrite Ea.
  - destruct (r_seq r) as [seq|] eqn:Es; cbn [mbind option_bind]; (eexists; split; [done|]); cbn.
    + refine (inv_stay n s pid t q q _ (t_procs s) DisarmReclaim Hi Et Eq _ _ _ _ _ _); [by apply queue_step_same|by apply timer_step_cancel, (ti_timers _ _ Hi)|done|done| |done].
      exists p. split; [done|]. split; [done|]. by rewrite Es.
    + apply inv_walk; [by apply queue_step_same|done|done|done|done|]. split; [done|]. destruct Hact as [?|[? _]]; [done|congruence].
  - eexists. split; [done|]. cbn. destruct (reclaim_timed (timers s)) as [E1 E2]. apply inv_walk; [by apply queue_step_same|done|done|done|done|done].
  - eexists. split; [done|]. cbn. destruct (r_seq r) as [seq|] eqn:Es.
    + unfold clear_active. eapply inv_pcb; [intros x Hx; by apply lookup_alter_ne|by rewrite lookup_alter_eq, Ep|done|done|]. cbn.
      destruct (Z.eqb_spec (active_wait_seq p) seq) as [E|E]; (split; [done|]); [done|]. destruct Hact as [?|[? _]]; [done|congruence].
    + apply inv_walk; [by apply queue_step_same|done|done|by rewrite Ea|done|]. split; [done|]. destruct Hact as [?|[? _]]; [done|congruence].
Qed.

Lemma flag_inv al check : (tt_at t = TakeFlag \/ tt_at t = DropFlag) -> exists s', timed_run pid al check s = Some s' /\ timed_inv n s'.
Proof.
  intros Ha. assert (Hok' : pcb_ok (fired (t_log s) pid r) (due (ticks s) r) r DropFlag p) by (by destruct Ha as [Ea|Ea]; rewrite Ea in Hok). destruct Hok' as [Hfl Hact].
  destruct consume_flag_spec as (ps' & Ec & Hps & Ep'). unfold timed_run. rewrite Et, Eq. cbn [mbind option_bind]. unfold timed_step. destruct Ha as [Ea|Ea]; rewrite Ea, Ec; cbn [mbind option_bind]; (eexists; split; [done|]); cbn.
  - assert (Hclean : clean (with_marker 0 p)) by done. destruct Hfl as [[Hm Hnf]|(Hm & Hf & Hd)]; rewrite Hm.
    + by eapply inv_pcb.
    + destruct Hr as [Hg _]. rewrite marks_packed by lia. by eapply inv_pcb.
  - by eapply inv_pcb.
Qed.

Lemma timed_step_inv al check : exists s', timed_run pid al check s = Some s' /\ timed_inv n s'.
Proof.
  assert (Ha : exists a, tt_at t = a) by eauto. destruct Ha as [a Ea]. pose proof Hok as Ha. rewrite Ea in Ha.
  destruct a as [|qcap|qcap tcap|qcap tcap| | | | | | |o| |o]; [| | |by eapply attempt_inv|by apply asleep_inv|by apply disarm_inv; auto..| |by apply flag_inv; auto| |by apply flag_inv; auto|];
    unfold timed_run; rewrite Et, Eq; cbn [mbind option_bind]; unfold timed_step; rewrite Ea; cbn [mbind option_bind]; (eexists; split; [done|]); cbn [ts_next ts_queue ts_timers ts_procs]; cbn in Ha.
  - destruct (prepare_queue_capacity al pid q); [apply inv_walk|apply inv_leave]; try done; try (by apply queue_step_same); try tauto. by rewrite Ea.
  - destruct (prepare_timer_capacity al pid _ _); [apply inv_walk|apply inv_leave]; try done; try (by apply queue_step_same); try tauto. by rewrite Ea.
  - destruct (closed q); [apply inv_leave|apply inv_walk]; try done; try (by apply queue_step_same); try tauto. by rewrite Ea.
  - apply inv_walk; try done; try (by apply queue_step_same); by destruct (wait_aborts (r_killable r) (t_procs s) pid).
  - apply inv_walk; try done; try (by apply queue_step_filter); by destruct o.
  - apply inv_leave; [by apply queue_step_same; [|apply take_empty_waiters|apply take_empty_generation]|done|done|by destruct o; tauto|]. destruct o; try done.
    + intros seq Es Hf. destruct Ha as [_ Hnf]. apply Hnf. by exists seq.
    + destruct Ha as (_ & (seq & Es & Hf) & Hd). destruct (due_deadline _ _ _ _ Hr Hd) as (ns & seq' & Ens & Es' & Hdl). right. exists ns, seq. split; [done|]. split; [done|]. by split.
Qed.
End run.

Lemma timed_run_inv n s pid al check : timed_inv n s -> n < 2 ^ 62 -> exists s', timed_run pid al check s = Some s' /\ timed_inv n s'.
Proof.
  intros Hi Hn. destruct (t_tasks s !! pid) as [t|] eqn:Et; [|exists s; split; [|done]; unfold timed_run; by rewrite Et].
  destruct (ti_task _ _ Hi _ _ Et) as (Hr & [q Eq] & p & Ep & Hok). by eapply timed_step_inv.
Qed.

(** * Beginning a wait *)
Lemma alloc_wait_seq_spec tm : 1 <= next_wait_seq tm < 2 ^ 64 - 1 -> alloc_wait_seq tm = (next_wait_seq tm, with_next_seq (next_wait_seq tm + 1) tm).
Proof. intros Hn. unfold alloc_wait_seq. rewrite (proj2 (Z.eqb_neq _ _)), Z.mod_small by lia. done. Qed.

(** A wait that is refused at once *)
Lemma inv_refuse n s pid timeout res : timed_inv n s -> returned_ok (t_log s) pid timeout (ticks s) None res (ticks s) ->
  timed_inv n (mkTimedSystem (t_queues s) (timers s) (t_procs s) (t_tasks s) (drains s) (ticks s) (t_log s ++ [Returned pid timeout (ticks s) None res (ticks s)])).
Proof.
  intros Hi Hret. pose proof Hi as [H1 H2 H3 H4 H5 H6 H7 H8 H9 H10 H11].
  assert (Hlog : forall p seq, Fired p seq ∈ t_log s ++ [Returned pid timeout (ticks s) None res (ticks s)] <-> Fired p seq ∈ t_log s).
  { intros p seq. rewrite elem_of_app, list_elem_of_singleton. naive_solver. }
  assert (Hret' : forall pid0 to st sq rs nw, returned_ok (t_log s) pid0 to st sq rs nw -> returned_ok (t_log s ++ [Returned pid timeout (ticks s) None res (ticks s)]) pid0 to st sq rs nw).
  { intros pid0 to st sq rs nw. unfold returned_ok. destruct rs as [[]| |]; try done; [|]; setoid_rewrite Hlog; done. }
  split; try done; cbn.
  - intros pid0 t0 E. destruct (H8 pid0 t0 E) as (? & ? & p & ? & Hok). split; [done|]. split; [done|]. exists p. split; [done|].
    eapply pcb_ok_impl; [|done|by split|done]. unfold fired. by setoid_rewrite Hlog.
  - intros o [Ho|Ho%list_elem_of_singleton]%elem_of_app.
    + specialize (H11 o Ho). destruct o; [done|]. cbn in *. destruct H11 as (? & ?). split; [by apply Hret'|done].
    + subst o. cbn. split; [by apply Hret'|]. split; [lia|]. split; [lia|done].
Qed.

Lemma inv_begin n s pid q p r tm' : timed_inv n s -> n < 2 ^ 62 -> t_tasks s !! pid = None -> t_queues s !! r_queue r = Some q -> t_procs s !! pid = Some p ->
  timed tm' = timed (timers s) -> next_wait_seq (timers s) <= next_wait_seq tm' <= n + 2 -> (forall seq, r_seq r = Some seq -> next_wait_seq (timers s) <= seq) ->
  req_ok n (ticks s) (next_wait_seq tm') r ->
  timed_inv (n + 1) (mkTimedSystem (<[r_queue r := next_generation q]> (t_queues s)) tm' (t_procs s) (<[pid := mkTimedTask r SnapQueue]> (t_tasks s)) (drains s) (ticks s) (t_log s)).
Proof.
  intros Hi Hn Et Eq Ep E1 E2 Hfresh Hreq. assert (Hi' := timed_inv_mono n (n + 1) s ltac:(lia) Hi).
  assert (Hseq : forall seq, r_seq r = Some seq -> seq < next_wait_seq (timers s) -> False) by (intros seq Es; specialize (Hfresh seq Es); lia).
  apply (inv_timers _ _ tm') in Hi'; [|done|lia]. pose proof Hi' as [H1 H2 H3 H4 H5 H6 H7 H8 H9 H10 H11]. cbn in *. destruct (ti_queue _ _ Hi _ _ Eq) as [Hg Hnd].
  assert (Hnof : ~ fired (t_log s) pid r) by (intros (seq & Es & Hf); specialize (ti_log _ _ Hi _ Hf); cbn; by apply Hseq).
  split; cbn; try done.
  - intros qid q0 E. destruct (decide (qid = r_queue r)) as [->|]; [|rewrite lookup_insert_ne in E by done; by apply (H3 qid)].
    rewrite lookup_insert_eq in E. injection E as <-. cbn. rewrite Z.mod_small by lia. split; [lia|done].
  - intros w Hw. destruct (H5 w Hw) as [? Ht]. split; [done|]. intros t0 E Es. destruct (decide (tw_pid w = pid)) as [Epid|]; [|rewrite lookup_insert_ne in E by done; by apply Ht].
    rewrite Epid, lookup_insert_eq in E. injection E as <-. cbn in Es. exfalso. apply (Hseq _ Es). apply (ti_pending _ _ Hi w). destruct Hw as [Hw|Hw]; [left; cbn in Hw; congruence|by right].
  - intros cpu todo woke w t0 Hd Hw E. destruct (decide (tw_pid w = pid)) as [Epid|]; [|rewrite lookup_insert_ne in E by done; by apply (H7 cpu todo woke w t0)].
    rewrite Epid, lookup_insert_eq in E. by injection E as <-.
  - intros pid0 t0 E. destruct (decide (pid0 = pid)) as [->|Hx].
    + rewrite lookup_insert_eq in E. injection E as <-. cbn. destruct Hreq as (? & ? & ?). split; [split; [lia|done]|]. split; [rewrite lookup_insert_eq; eauto|]. exists p. split; [done|].
      split; [by apply (ti_idle _ _ Hi pid)|done].
    + rewrite lookup_insert_ne in E by done. destruct (H8 pid0 t0 E) as (? & ? & ?). split; [done|]. split; [|done].
      destruct (decide (r_queue (tt_request t0) = r_queue r)) as [->|]; [rewrite lookup_insert_eq; eauto|by rewrite lookup_insert_ne].
  - intros pid0 p0 [E Hx]%lookup_insert_None Ep0. by apply (H9 pid0).
  - intros pid0 t0 E Ea Hbl. destruct (decide (pid0 = pid)) as [->|Hx]; [rewrite lookup_insert_eq in E; by injection E as <-|]. rewrite lookup_insert_ne in E by done.
    destruct (H10 pid0 t0 E Ea Hbl) as [(q0 & Eq0 & Hin) Hin2]. split; [|done]. cbn in *. destruct (decide (r_queue (tt_request t0) = r_queue r)) as [Er|]; [|exists q0; by rewrite lookup_insert_ne].
    rewrite Er in *. rewrite lookup_insert_eq. eexists. split; [done|]. cbn. congruence.
  - intros o Ho. specialize (H11 o Ho). destruct o as [|pid0 timeout started seq res now]; [done|]. cbn in *. destruct H11 as (? & ? & ? & Hq). repeat (split; [done|]).
    intros q0 Eq0. destruct (Hq q0 Eq0) as [? Ht]. split; [done|]. intros t0 E. destruct (decide (pid0 = pid)) as [->|]; [|rewrite lookup_insert_ne in E by done; by apply Ht].
    rewrite lookup_insert_eq in E. injection E as <-. cbn. intros Es. apply (Hseq _ Es). specialize (ti_log _ _ Hi _ Ho). cbn. intros (_ & _ & _ & Hlt). by apply Hlt.
Qed.

Lemma timed_begin_inv n s pid qid timeout killable : timed_inv n s -> n < 2 ^ 62 -> timed_inv (n + 1) (timed_begin pid qid timeout killable s).
Proof.
  intros Hi Hn. pose proof (timed_inv_mono n (n + 1) s ltac:(lia) Hi) as Hi'. unfold timed_begin. destruct (t_queues s !! qid) as [q|] eqn:Eq; [|done]. destruct (t_tasks s !! pid) eqn:Et; [done|].
  assert (Hno : forall o, (o = TimedOut -> timeout = Some 0) -> o <> Woken -> forall tm, timed tm = timed (timers s) -> next_wait_seq (timers s) <= next_wait_seq tm <= n + 2 ->
    timed_inv (n + 1) (mkTimedSystem (<[qid := q]> (t_queues s)) tm (t_procs s) (t_tasks s) (drains s) (ticks s) (t_log s ++ [Returned pid timeout (ticks s) None (Outcome o) (ticks s)]))).
  { intros o Ho1 Ho2 tm E1 E2. rewrite insert_id by done. refine (inv_refuse (n + 1) (with_timers tm s) pid timeout (Outcome o) _ _); [apply inv_timers; [done|done|lia]|]. destruct o; try done. left. by apply Ho1. }
  pose proof (ti_next _ _ Hi). pose proof (ti_ticks _ _ Hi). destruct (ti_queue _ _ Hi _ _ Eq). unfold begin_wait. destruct (closed q); [apply Hno; done || lia|].
  case_bool_decide as Ez; [apply Hno; done || lia|]. destruct timeout as [ns|]; cbn [fmap option_fmap option_map].
  - rewrite alloc_wait_seq_spec by lia. rewrite bool_decide_true by done. cbn [andb]. destruct (negb (timer_init _)); [apply Hno; done || cbn; lia|].
    destruct (t_procs s !! pid) as [p|] eqn:Ep; [|apply Hno; done || cbn; lia].
    refine (inv_begin n s pid q p (mkRequest qid (Some ns) (ticks s) _ _ _ killable) _ Hi Hn Et Eq Ep _ _ _ _); cbn; [done|lia|intros seq [= <-]; lia|]. split; [done|]. split; [cbn; lia|]. cbn. split; [done|lia].
  - rewrite bool_decide_false by (intros Hx; by apply Hx). cbn [andb]. destruct (t_procs s !! pid) as [p|] eqn:Ep; [|apply Hno; done || lia].
    refine (inv_begin n s pid q p (mkRequest qid None (ticks s) _ _ _ killable) _ Hi Hn Et Eq Ep _ _ _ _); cbn; [done|lia|done|]. split; [done|]. by split; [cbn; lia|].
Qed.

(** * The other events *)
Lemma tick_inv n s : timed_inv n s -> timed_inv (n + 1) (mkTimedSystem (t_queues s) (timers s) (t_procs s) (t_tasks s) (drains s) (ticks s + 1) (t_log s)).
Proof.
  intros Hi. destruct (timed_inv_mono n (n + 1) s ltac:(lia) Hi) as [H1 H2 H3 H4 H5 H6 H7 H8 H9 H10 H11]. pose proof (ti_ticks _ _ Hi). split; cbn; try done; try lia.
  - intros cpu d E. specialize (H6 cpu d E). destruct d as [|todo woke]; [lia|]. intros w Hw. specialize (H6 w Hw). lia.
  - intros pid t E. destruct (H8 pid t E) as ((? & ? & ?) & ? & p & ? & Hok). split; [split; [done|]; split; [lia|done]|]. split; [done|]. exists p. split; [done|].
    eapply pcb_ok_impl; [done| |by split|done]. intros (d & Ed & ?). exists d. split; [done|lia].
  - intros o Ho. specialize (H11 o Ho). destruct o; [done|]. cbn in *. destruct H11 as (? & ? & ? & ?). split; [done|]. split; [done|]. split; [lia|done].
Qed.

Lemma outside_inv n s pid p : timed_inv n s -> t_tasks s !! pid = None -> (forall p', p = Some p' -> clean p') -> timed_inv n (with_tprocs (partial_alter (fun _ => p) pid (t_procs s)) s).
Proof.
  intros [H1 H2 H3 H4 H5 H6 H7 H8 H9 H10 H11] Et Hp.
  assert (Hps : forall x t, t_tasks s !! x = Some t -> partial_alter (fun _ => p) pid (t_procs s) !! x = t_procs s !! x) by (intros x t E; apply lookup_partial_alter_ne; congruence).
  assert (Hb : forall x t, t_tasks s !! x = Some t -> is_blocked (partial_alter (fun _ => p) pid (t_procs s)) x = is_blocked (t_procs s) x) by (intros x t E; unfold is_blocked; by rewrite (Hps x t)).
  split; cbn; try done.
  - intros cpu todo woke w t Hd Hw E. rewrite (Hb _ _ E). by apply (H7 cpu todo woke w t).
  - intros x t E. rewrite (Hps x t E). by apply H8.
  - intros x p' E Ep. destruct (decide (x = pid)) as [->|]; [rewrite lookup_partial_alter_eq in Ep; by apply Hp|]. rewrite lookup_partial_alter_ne in Ep by done. by apply (H9 x).
  - intros x t E Ea Hbl. rewrite (Hb x t E) in Hbl. destruct (H10 x t E Ea Hbl) as [? Hin]. split; [done|]. cbn. rewrite (Hps x t E). done.
Qed.

Lemma wake_inv n s qid q w : timed_inv n s -> n < 2 ^ 62 -> t_queues s !! qid = Some q -> let o := run_waker w q (t_procs s) in
  timed_inv n (with_queues (<[qid := o.1]> (t_queues s)) (with_tprocs o.2 s)).
Proof.
  intros Hi Hn Eq o. destruct (ti_queue _ _ Hi _ _ Eq) as [Hg Hnd]. destruct (run_waker_spec w q (t_procs s) Hnd) as (Hm & Hg' & Hnd' & Hk). fold o in Hm, Hg', Hnd', Hk. apply inv_frame; [done|done| |].
  - intros qid0 q0 E. destruct (decide (qid0 = qid)) as [->|]; [|rewrite lookup_insert_ne in E by done; by apply (ti_queue _ _ Hi qid0)]. rewrite lookup_insert_eq in E. injection E as <-. by rewrite Hg'.
  - intros pid t q0 Et E0. destruct (decide (r_queue (tt_request t) = qid)) as [Er|]; [|exists q0; by rewrite lookup_insert_ne]. rewrite Er in *. rewrite lookup_insert_eq. eexists. split; [done|]. intros Hb Hin.
    destruct (ti_task _ _ Hi _ _ Et) as ((Hgen & _) & _). apply Hk; [congruence|cbn; lia|done].
Qed.

Lemma cleanup_inv n s qid pid q q' : timed_inv n s -> t_queues s !! qid = Some q -> t_tasks s !! pid = None -> wait_generation q' = wait_generation q -> NoDup (map fst (waiters q')) ->
  (forall x, x.1 <> pid -> x ∈ waiters q -> x ∈ waiters q') -> timed_inv n (with_queues (<[qid := q']> (t_queues s)) s).
Proof.
  intros Hi Eq Et Hg Hnd Hk. destruct (ti_queue _ _ Hi _ _ Eq) as [Hg0 _]. apply inv_queues; [done| |].
  - intros qid0 q0 E. destruct (decide (qid0 = qid)) as [->|]; [|rewrite lookup_insert_ne in E by done; by apply (ti_queue _ _ Hi qid0)]. rewrite lookup_insert_eq in E. injection E as <-. by rewrite Hg.
  - intros pid0 t q0 Et0 E0. destruct (decide (r_queue (tt_request t) = qid)) as [Er|]; [|exists q0; by rewrite lookup_insert_ne]. rewrite Er in *. rewrite lookup_insert_eq. eexists. split; [done|]. intros Hin.
    apply Hk; [cbn; congruence|congruence].
Qed.

Lemma queue_step_cleanup pid g ps q : NoDup (map fst (waiters q)) ->
  queue_step pid q (match g with Some g => cleanup_for_identity pid g ps q | None => cleanup_for_pid pid q end).
Proof.
  intros Hnd. unfold cleanup_for_identity, cleanup_for_pid, forget. destruct g as [g|]; (split; [by rewrite take_empty_generation|rewrite take_empty_waiters; by apply NoDup_map_filter|]);
    intros x Hx Hin; rewrite take_empty_waiters; cbn; apply list_elem_of_In, filter_In; (split; [by apply list_elem_of_In|]); unfold keeps_entry; cbn; by rewrite (proj2 (Z.eqb_neq _ _) Hx).
Qed.

Lemma timed_exec_inv n s e : timed_inv n s -> n < 2 ^ 62 -> exists s', timed_exec e s = Some s' /\ timed_inv (n + 1) s'.
Proof.
  intros Hi Hn. pose proof (timed_inv_mono n (n + 1) s ltac:(lia) Hi) as Hi'.
  destruct e as [|qid|qid|pid qid timeout killable|pid al check|qid w|qid pid g|pid ready|pid ready|pid|pid|pid p| |cpu tf pf|]; cbn;
    try (eexists; split; [done|]).
  - apply inv_timers; [done|done|]. pose proof (ti_next _ _ Hi). cbn. lia.
  - destruct (t_queues s !! qid) as [q|] eqn:Eq; [done|]. apply inv_queues; [done| |].
    + intros qid0 q0 E. destruct (decide (qid0 = qid)) as [->|]; [|rewrite lookup_insert_ne in E by done; by apply (ti_queue _ _ Hi' qid0)]. rewrite lookup_insert_eq in E. injection E as <-.
      pose proof (ti_ticks _ _ Hi). cbn. split; [lia|constructor].
    + intros pid t q Et E. exists q. split; [|done]. rewrite lookup_insert_ne; [done|]. congruence.
  - unfold in_use. case_bool_decide as Hu; [done|]. apply inv_queues; [done| |].
    + intros qid0 q0 [_ E]%lookup_delete_Some. by apply (ti_queue _ _ Hi' qid0).
    + intros pid t q Et E. exists q. split; [|done]. rewrite lookup_delete_ne; [done|]. intros ->. apply Hu. by exists pid, t.
  - by apply timed_begin_inv.
  - destruct (timed_run_inv n s pid al check Hi Hn) as (s' & -> & ?). exists s'. split; [done|]. by apply (timed_inv_mono n); [lia|].
  - destruct (t_queues s !! qid) as [q|] eqn:Eq; [|done]. pose proof (wake_inv n s qid q w Hi Hn Eq) as H. cbn in H. destruct (run_waker w q (t_procs s)). by apply (timed_inv_mono n); [lia|].
  - destruct (t_queues s !! qid) as [q|] eqn:Eq; [|done]. destruct (t_tasks s !! pid) eqn:Et; [done|].
    destruct (queue_step_cleanup pid g (t_procs s) q) as [Hg Hnd Hk]; [by apply (ti_queue _ _ Hi _ _ Eq)|]. by apply (cleanup_inv _ _ _ pid q).
  - by apply inv_procs, mild_post.
  - by apply inv_procs, mild_kill.
  - by apply inv_procs, mild_alter.
  - by apply inv_procs, mild_dispatch.
  - case_bool_decide as Et; [|done]. apply outside_inv; [done|done|]. intros p' Ep. destruct p as [[[[]]]|]; [|done]. by injection Ep as <-.
  - by apply tick_inv.
  - by apply drain_step_inv.
  - destruct (reclaim_timed (timers s)) as [E1 E2]. apply inv_timers; [done|done|]. pose proof (ti_next _ _ Hi). lia.
Qed.

Lemma timed_exec_all_inv es n s : timed_inv n s -> n + zlen es < 2 ^ 62 -> exists s', timed_exec_all es s = Some s' /\ timed_inv (n + zlen es) s'.
Proof.
  revert n s. induction es as [|e es IH]; intros n s Hi Hn; [exists s; split; [done|]; change (zlen (@nil TimedEvent)) with 0; by rewrite Z.add_0_r|].
  rewrite zlen_cons in *. pose proof (zlen_nonneg es). destruct (timed_exec_inv n s e Hi ltac:(lia)) as (s1 & E1 & Hi1). cbn. rewrite E1. cbn.
  destruct (IH (n + 1) s1 Hi1 ltac:(lia)) as (s' & -> & Hi'). exists s'. split; [done|]. by replace (n + (zlen es + 1)) with (n + 1 + zlen es) by lia.
Qed.
