(* ===== verification/TimedCorrect.v ===== *)
(** Timed waits: what they report, that neither a wake nor a timeout is lost, and
    how far the drain of the timer table reaches. *)

From Stdlib Require Import ZArith Lia.
From stdpp Require Import base list list_numbers numbers gmap.
From S2P Require Import Prelude Machine WaitQueue WaitFacts Timed TimerScan TimedInv TimedEvents.

(** * Waits *)
Definition born_clean (ps : Procs) : Prop := forall pid p, ps !! pid = Some p -> clean p.

(** A deadline is never early: the ticks up to it cover the time asked for. *)
Lemma deadline_covers started ns now : 0 <= started -> now < 2 ^ 62 -> ns + NS_PER_MS <= 2 ^ 64 -> deadline_for started ns <= now -> ns <= (now - started) * NS_PER_MS.
Proof.
  intros Hs Hn Hns. unfold deadline_for, checked_add, saturating_add, usize_max, u64_max. change NS_PER_MS with 1000000 in *.
  destruct (Z.leb_spec (ns + (1000000 - 1)) (2 ^ 64 - 1)); cbn; [|lia]. intros Hd.
  change (1000000 - 1) with 999999 in Hd. pose proof (Z.div_mod (ns + 999999) 1000000 ltac:(lia)) as Hdm. pose proof (Z.mod_pos_bound (ns + 999999) 1000000 ltac:(lia)).
  set (x := (ns + 999999) / 1000000) in *. lia.
Qed.

(** C38 A wait reports what ended it: a timeout is reported only when the wait asked
    for one and all of the time it asked for has passed, and only when its own
    timer fired, save for a timeout of zero, which sets no timer; a wake is reported only when its timer has not fired.  This holds
    for any number of waits, wakers, interrupts on several processors and queues
    that come and go, over fewer than [2 ^ 62] events, none of which aborts. *)
Theorem timed_wait_exact ps es : born_clean ps -> zlen es < 2 ^ 62 -> exists s, timed_exec_all es (timed_new ps) = Some s /\
  forall pid timeout started seq res now, Returned pid timeout started seq res now ∈ t_log s ->
    (res = Outcome TimedOut -> exists ns, timeout = Some ns /\ (ns + NS_PER_MS <= 2 ^ 64 -> ns <= (now - started) * NS_PER_MS) /\
       (ns <> 0 -> exists q, seq = Some q /\ Fired pid q ∈ t_log s)) /\
    (res = Outcome Woken -> forall q, seq = Some q -> Fired pid q ∉ t_log s).
Proof.
  intros Hps Hes. destruct (timed_exec_all_inv es 0 _ (timed_new_inv ps Hps) Hes) as (s & Hs & Hi). exists s. split; [done|].
  intros pid timeout started seq res now Hin. pose proof (ti_ticks _ _ Hi). destruct (ti_log _ _ Hi _ Hin) as (Hret & Hst & Hnow & _). unfold returned_ok in Hret. split; intros ->; [|done].
  destruct Hret as [-> |(ns & q & -> & -> & Hf & Hd)].
  - exists 0. split; [done|]. split; [|done]. unfold NS_PER_MS. lia.
  - exists ns. split; [done|]. split; [|eauto]. intros Hns. apply deadline_covers; [lia|lia|done|done].
Qed.

(** Process 10 waits two milliseconds and process 11 five seconds; the timer ends
    the first wait, a waker the second. *)
Definition pair : Procs := list_to_map [(10, mkProcess Running 7 false); (11, mkProcess Running 8 false)].

Lemma pair_clean : born_clean pair.
Proof. intros pid p E%elem_of_list_to_map_2. repeat (apply elem_of_cons in E as [[= -> ->]|E]; [split; reflexivity|]). by apply elem_of_nil in E. Qed.

Definition runs (pid : Z) (k : nat) : list TimedEvent := replicate k (TRun pid Some None).
Definition interrupt (k : nat) : list TimedEvent := replicate k (TDrain 0 true true).

Definition both_asleep : list TimedEvent :=
  [TInit; TQueue 1; TBegin 10 1 (Some 2000000) false; TBegin 11 1 (Some 5000000000) false] ++ runs 10 5 ++ runs 11 5.
Definition one_of_each : list TimedEvent :=
  both_asleep ++ [TTick] ++ interrupt 3 ++ [TTick] ++ interrupt 4 ++ runs 10 8 ++ [TWake 1 WakeOne] ++ runs 11 8.

Lemma timed_wait_exact_witness : exists s, timed_exec_all one_of_each (timed_new pair) = Some s /\
  t_log s = [Fired 10 1; Returned 10 (Some 2000000) 0 (Some 1) (Outcome TimedOut) 2; Returned 11 (Some 5000000000) 0 (Some 2) (Outcome Woken) 2] /\
  2000000 <= (2 - 0) * NS_PER_MS /\ Fired 11 2 ∉ t_log s.
Proof.
  destruct (timed_wait_exact pair one_of_each pair_clean eq_refl) as (s & Hs & H). exists s. split; [exact Hs|].
  assert (Hv : t_log <$> timed_exec_all one_of_each (timed_new pair) =
    Some [Fired 10 1; Returned 10 (Some 2000000) 0 (Some 1) (Outcome TimedOut) 2; Returned 11 (Some 5000000000) 0 (Some 2) (Outcome Woken) 2]) by (vm_compute; reflexivity).
  rewrite Hs in Hv. injection Hv as Hv. split; [exact Hv|]. split.
  - destruct (H 10 (Some 2000000) 0 (Some 1) (Outcome TimedOut) 2) as [Ht _]; [rewrite Hv; right; left|]. destruct (Ht eq_refl) as (ns & [= <-] & Hns & _). apply Hns. discriminate.
  - destruct (H 11 (Some 5000000000) 0 (Some 2) (Outcome Woken) 2) as [_ Hw]; [rewrite Hv; right; right; left|]. exact (Hw eq_refl 2 eq_refl).
Defined.

(** C39 Neither a wake nor a timeout of a sleeping task is lost: it has an entry in
    its queue, so that waking the queue wakes it and waking one finds somebody,
    and if it asked for a timeout its timer is in the table with its deadline, and
    makes it runnable when the interrupt gets to it and to the locks.  The table
    has at most one timer for a process. *)
Theorem timed_wait_reachable ps es : born_clean ps -> zlen es < 2 ^ 62 -> exists s, timed_exec_all es (timed_new ps) = Some s /\ NoDup (map tw_pid (timed (timers s))) /\
  forall pid t, t_tasks s !! pid = Some t -> tt_at t = Asleep -> is_blocked (t_procs s) pid = true ->
    (exists q, t_queues s !! r_queue (tt_request t) = Some q /\ is_blocked (wake_all q (t_procs s)).2 pid = false /\ (wake_one q (t_procs s)).1.1 <> None) /\
    forall d, r_deadline (tt_request t) = Some d -> exists w, w ∈ timed (timers s) /\ tw_pid w = pid /\ deadline_tick w = d /\
      let o := wq_timeout_wake_by_seq true true w (t_procs s) in o.1 = true /\ is_blocked o.2 pid = false.
Proof.
  intros Hps Hes. destruct (timed_exec_all_inv es 0 _ (timed_new_inv ps Hps) Hes) as (s & Hs & Hi). exists s. split; [done|]. split; [apply (ti_timers _ _ Hi)|].
  intros pid t Et Ea Hb. destruct (ti_sleep _ _ Hi _ _ Et Ea Hb) as [(q & Eq & Hin) Hin2]. destruct (ti_task _ _ Hi _ _ Et) as ((Hg & _ & Hr) & _). split.
  - exists q. split; [done|]. assert (Hw : wakeable (t_procs s) (pid, r_generation (tt_request t)) = true) by (rewrite wakeable_plain; [done|cbn; lia]). split.
    + unfold wake_all. pose proof (wake_all_loop_spec (waiters q) 0 (t_procs s)) as H. destruct (wake_all_loop (waiters q) 0 (t_procs s)) as [k ps']. destruct H as [_ H]. by apply (H _ Hin).
    + unfold wake_one. pose proof (wake_one_loop_spec (waiters q) (t_procs s)) as H. destruct (wake_one_loop (waiters q) (t_procs s)) as [[[]?]?]; [done|]. destruct H as [_ H]. by rewrite (H _ Hin) in Hw.
  - intros d Ed. rewrite Ed in Hr. destruct (r_timeout (tt_request t)), (r_seq (tt_request t)) as [seq|] eqn:Es; try done.
    destruct (Hin2 seq d eq_refl Ed) as (Hw & p & Ep & Eac). eexists. split; [done|]. split; [done|]. split; [done|]. unfold wq_timeout_wake_by_seq. cbn. rewrite Ep, Eac. unfold decide_wq_timeout. rewrite Z.eqb_refl.
    unfold is_blocked in Hb. rewrite Ep in Hb. rewrite Hb. cbn. split; [done|]. unfold is_blocked. by rewrite lookup_alter_eq, Ep.
Qed.

Lemma timed_wait_reachable_witness : exists s w, timed_exec_all both_asleep (timed_new pair) = Some s /\ is_blocked (t_procs s) 10 = true /\ w ∈ timed (timers s) /\ tw_pid w = 10 /\ deadline_tick w = 2 /\
  is_blocked (wq_timeout_wake_by_seq true true w (t_procs s)).2 10 = false.
Proof.
  destruct (timed_wait_reachable pair both_asleep pair_clean eq_refl) as (s & Hs & _ & H).
  assert (Hv : (fun s => (t_tasks s !! 10, is_blocked (t_procs s) 10)) <$> timed_exec_all both_asleep (timed_new pair) =
    Some (Some (mkTimedTask (mkRequest 1 (Some 2000000) 0 (Some 2) (Some 1) 0 false) Asleep), true)) by (vm_compute; reflexivity).
  rewrite Hs in Hv. injection Hv as Ht Hb. destruct (H 10 _ Ht eq_refl Hb) as [_ Hd]. destruct (Hd 2 eq_refl) as (w & Hw & Hp & Hdl & _ & Hnb).
  exists s, w. split; [exact Hs|]. split; [exact Hb|]. split; [exact Hw|]. split; [exact Hp|]. split; [exact Hdl|exact Hnb].
Defined.

(** [closed] is loaded before the queue is locked: a [close] that runs between the
    load and the publication leaves a task asleep on a closed queue with no timer and
    no wake to come. *)
Definition closed_between : list TimedEvent :=
  [TQueue 1; TBegin 10 1 None false] ++ runs 10 3 ++ [TWake 1 StoreClosed; TWake 1 WakeAll] ++ runs 10 2.

Theorem sleeps_on_closed_queue : exists s q, timed_exec_all closed_between (timed_new pair) = Some s /\ t_queues s !! 1 = Some q /\ closed q = true /\
  tt_at <$> t_tasks s !! 10 = Some Asleep /\ is_blocked (t_procs s) 10 = true /\ timed (timers s) = [].
Proof.
  assert (Hv : (fun s => (t_queues s !! 1, tt_at <$> t_tasks s !! 10, is_blocked (t_procs s) 10, timed (timers s))) <$> timed_exec_all closed_between (timed_new pair) =
    Some (Some (mkWaitQueue [(10, 0)] 8 true 1), Some Asleep, true, [])) by (vm_compute; reflexivity).
  destruct (timed_exec_all closed_between (timed_new pair)) as [s|]; [|done]. injection Hv as Hq Ha Hb Ht. eexists s, _. split; [reflexivity|]. split; [exact Hq|]. by split.
Qed.

(** * The drain *)
Definition waiter (seq pid : Z) : TimedWaiter := mkTimedWaiter pid 0 (seq + pid) 0.

(** A process nobody else works on, and one at whose lock every try fails *)
Definition idle_waiter : TimedWaiter := waiter 0 1.
Definition contended : list TimedWaiter := waiter 0 <$> seqZ 2 31.
Definition newcomers (seq : Z) : list TimedWaiter := waiter seq <$> seqZ 100 8.

Definition at_cursor (c : Z) (l : list TimedWaiter) : Timers := mkTimers l 64 c 1 true.

(** The lock of a process below 100 is always taken. *)
Definition contended_wake (w : TimedWaiter) (s : list TimedWaiter) : bool * list TimedWaiter := (100 <=? tw_pid w, s ++ [w]).

(** A pass, eight new waits, a pass *)
Definition busy_round (seq now : Z) (tm : Timers) (s : list TimedWaiter) : Timers * list TimedWaiter :=
  let '(_, tm, s) := drain_expired_timeouts contended_wake now tm s in
  let '(_, tm, s) := drain_expired_timeouts contended_wake now (with_timed (timed tm ++ newcomers seq) tm) s in
  (tm, s).

Fixpoint busy_rounds (n : nat) (tm : Timers) (s : list TimedWaiter) : Timers * list TimedWaiter :=
  match n with
  | O => (tm, s)
  | S n => let '(tm, s) := busy_rounds n tm s in busy_round (1000 + 8 * Z.of_nat n) (Z.of_nat n) tm s
  end.

Lemma contended_wakes e s : wake_expired contended_wake e s = (List.filter (fun w => 100 <=? tw_pid w) e, s ++ e).
Proof.
  revert s. induction e as [|w e IH]; intros s; cbn; [by rewrite app_nil_r|]. rewrite IH, <- app_assoc. by destruct (100 <=? tw_pid w).
Qed.

Lemma busy_round_spec seq n c s : c = 8 \/ c = 40 -> exists tried, idle_waiter ∉ tried /\
  busy_round seq (Z.of_nat n) (at_cursor c (idle_waiter :: contended)) s = (at_cursor 40 (idle_waiter :: contended), s ++ tried).
Proof.
  intros Hc. set (first := waiter 0 <$> seqZ 9 16). set (second := (waiter 0 <$> seqZ 25 8) ++ newcomers seq). exists (first ++ second). split.
  { intros [H|[H|H]%elem_of_app]%elem_of_app; apply list_elem_of_fmap in H as (x & E & Hx%elem_of_seqZ); unfold idle_waiter, waiter in E; injection E; lia. }
  assert (E1 : copy_expired (Z.of_nat n) (at_cursor c (idle_waiter :: contended)) = Some (first, at_cursor 24 (idle_waiter :: contended))) by (destruct Hc as [-> | ->], n; vm_compute; reflexivity).
  assert (E2 : copy_expired (Z.of_nat n) (at_cursor 24 ((idle_waiter :: contended) ++ newcomers seq)) = Some (second, at_cursor 40 ((idle_waiter :: contended) ++ newcomers seq))) by (destruct n; vm_compute; reflexivity).
  unfold busy_round, drain_expired_timeouts. rewrite E1, contended_wakes. change (List.filter _ first) with (@nil TimedWaiter). cbn [remove_done].
  change (with_timed _ (at_cursor 24 (idle_waiter :: contended))) with (at_cursor 24 ((idle_waiter :: contended) ++ newcomers seq)).
  rewrite E2, contended_wakes. change (List.filter _ second) with (newcomers seq). unfold remove_done. rewrite app_assoc.
  replace (newcomers seq) with (waiter seq 100 :: (waiter seq <$> seqZ 101 7)) by done. cbn [timed with_timed at_cursor].
  f_equal. unfold at_cursor, with_timed. cbn [t_capacity scan_cursor next_wait_seq timer_init]. f_equal. rewrite List.filter_app.
  rewrite (filter_all _ true (idle_waiter :: contended)), (filter_all _ false); [by rewrite app_nil_r| |].
  - intros w Hw. by rewrite is_done_self.
  - intros w Hw. apply negb_true_iff, not_true_iff_false. intros (x & Ex & Hx)%is_done_pid%list_elem_of_fmap.
    change (w ∈ waiter 0 <$> seqZ 1 32) in Hw. change (x ∈ waiter seq <$> seqZ 100 8) in Hx.
    apply list_elem_of_fmap in Hw as (y & -> & Hy%elem_of_seqZ). apply list_elem_of_fmap in Hx as (z & -> & Hz%elem_of_seqZ). cbn in Ex. lia.
Qed.

Lemma busy_rounds_spec n : exists c tried, (c = 8 \/ c = 40) /\ idle_waiter ∉ tried /\
  busy_rounds n (at_cursor 8 (idle_waiter :: contended)) [] = (at_cursor c (idle_waiter :: contended), tried).
Proof.
  induction n as [|n (c & tried & Hc & Hno & E)]; [exists 8, []; split; [by left|]; split; [apply not_elem_of_nil|done]|].
  cbn [busy_rounds]. rewrite E. destruct (busy_round_spec (1000 + 8 * Z.of_nat n) n c tried Hc) as (more & Hm & ->). exists 40, (tried ++ more).
  split; [by right|]. split; [|done]. by intros [?|?]%elem_of_app.
Qed.

(** A pass does not reach everybody when some timers are contended: with the
    locks of 31 processes always taken and eight new waits armed and expired in
    every second pass, the timer of a process nobody holds is never tried, however
    many passes run, although the table holds 32 timers after every round. *)
Theorem timeout_scan_starves n : let '(tm, tried) := busy_rounds n (at_cursor 8 (idle_waiter :: contended)) [] in
  idle_waiter ∈ timed tm /\ idle_waiter ∉ tried /\ zlen (timed tm) = 32.
Proof.
  destruct (busy_rounds_spec n) as (c & tried & _ & Hno & ->). split; [by left|]. by split.
Qed.

(** C40 Passes reach every expired timer.  When no lock is taken, as many passes as
    it takes at sixteen timers each wake every timer that has expired, each exactly
    once and none before its deadline, and keep the others; when every lock is
    taken, as many passes as it takes to go round the table try every one of them
    and lose none. *)
Theorem timeout_sweep_complete {S} (wake : TimedWaiter -> S -> bool * S) free lo hi nows tm (s : S) :
  (forall w s, (wake w s).1 = free) -> lo <= hi -> Forall (fun now => lo <= now <= hi) nows -> NoDup (map tw_pid (timed tm)) ->
  exists tm' order, drain_times wake nows tm s = (tm', tried wake order s) /\
    if free then
      order ++ timed tm' ≡ₚ timed tm /\ (forall w, w ∈ order -> deadline_tick w <= hi) /\
      (zlen (expired hi (timed tm)) <= MAX_TIMEOUTS_PER_TICK * zlen nows -> forall w, w ∈ timed tm' -> lo < deadline_tick w)
    else
      timed tm' = timed tm /\
      (zlen (timed tm) <= MAX_TIMEOUTS_PER_TICK * zlen nows -> forall w, w ∈ timed tm -> deadline_tick w <= lo -> w ∈ order).
Proof.
  intros Hw Hlh Hnows Hnd. destruct free.
  - destruct (drain_times_complete wake lo hi nows tm s Hlh Hw Hnd Hnows) as (tm' & order & E & Hp & Ho & Hlast). exists tm', order. do 3 (split; [done|]).
    intros Hz w Hx. destruct (decide (deadline_tick w <= lo)) as [Hd|]; [|lia]. assert (He : w ∈ expired lo (timed tm')) by by apply expired_elem.
    rewrite (Hlast Hz) in He. by apply elem_of_nil in He.
  - destruct (drain_times_contended wake lo nows tm s Hw) as (tm' & order & E & El & Hcov); [by eapply Forall_impl; [exact Hnows|]; intros ? [? _]|]. exists tm', order. do 2 (split; [done|]).
    intros Hz w Hx Hd. destruct (cursor_reaches (scan_cursor tm) _ _ Hx) as (j & Hj & Ej). apply (Hcov j w); [done|lia|done|done].
Qed.

Lemma timeout_sweep_complete_witness : exists tm' order,
  drain_times (fun w l => (true, l ++ [w])) [0; 3] (at_cursor 5 (idle_waiter :: contended)) [] = (tm', tried (fun w l => (true, l ++ [w])) order []) /\
  (forall w, w ∈ timed tm' -> 0 < deadline_tick w) /\ zlen (timed tm') = 0.
Proof.
  assert (Hnd : NoDup (map tw_pid (timed (at_cursor 5 (idle_waiter :: contended))))) by (apply (bool_decide_unpack _); vm_compute; exact I).
  assert (Hf : Forall (fun now => 0 <= now <= 3) [0; 3]) by (repeat constructor; discriminate).
  destruct (timeout_sweep_complete (fun w l => (true, l ++ [w])) true 0 3 [0; 3] (at_cursor 5 (idle_waiter :: contended)) [] ltac:(reflexivity) ltac:(discriminate) Hf Hnd) as (tm' & order & E & _ & _ & Hlast).
  exists tm', order. split; [exact E|]. split; [apply Hlast; vm_compute; discriminate|].
  assert (Hv : zlen (timed (drain_times (fun w l => (true, l ++ [w])) [0; 3] (at_cursor 5 (idle_waiter :: contended)) []).1) = 0) by (vm_compute; reflexivity). rewrite E in Hv. exact Hv.
Defined.
